(* ===== verification/_CoqProject ===== *)
-Q . S2P
Prelude.v
Ring.v
CircularQueue.v
RequestQueue.v
Select.v
FrFcfs.v
ParBs.v
Float.v
AdaptiveSched.v
CommandSched.v
SchedPolicies.v
Uart.v
MemAlloc.v
MemoryPool.v
BufferManager.v
BufferPool.v
ProcessorSim.v
CpuPipeline.v
TwoLevelCache.v
CacheController.v
RwGrouping.v
ProcSched.v
Mlfq.v
VirtualMem.v
RwLocks.v
UpgradeLock.v
BinarySearch.v
MatMul.v
BoundedBuffer.v
ContextSwitch.v
CHeap.v
Pointers.v
Prefetch.v
Election.v
Shell.v
FileBuffers.v
Packets.v
Dram.v
ZeroCopy.v
Sync.v
MultiCpu.v
Sse.v
Mlp.v
Perceptron.v
BoundaryTags.v
RayTriangle.v
FloatOrder.v
OomKiller.v
Parallel.v
TensorTiles.v
MemTransfer.v
SingleCpu.v
SelectServer.v
PrioMutex.v
Signals.v
CString.v
Descriptors.v
PointerCheck.v
SharedText.v
AddressSpace.v
Layout.v
AlignBench.v
HeapPrograms.v
HeapUsers.v
Overflows.v
EchoClient.v
Aslr.v
ShellLoop.v
PrefetchMain.v
