(* ===== verification/Prelude.v ===== *)
(** * Verification of the BitsAndBytes programs

    ** The programs

    The repository is a collection of C programs, each with its own [main], that
    show how parts of a computer system work: memory controllers and DRAM, caches,
    allocators, virtual memory, processors, process schedulers, locks and
    condition variables, buffers, a shell, packet layers, servers, neural networks
    in assembly, and the stack and the heap under attack.  Few programs interact
    (the echo client with the select server, the shell with its children, producers
    with consumers); what most share are idioms (rings, scans of arrays, critical
    sections under a mutex, linked blocks, copies into buffers), which is how the
    files below are related: the shared theory is in [Prelude], [Ring],
    [RequestQueue], [Select], [Float], [FloatOrder], [CHeap], [Sse] and [CString],
    and each of the other files models one program or a group of programs of one
    kind on top of it.

    ** How C is modelled

    A function of C is a Rocq function that returns [res A]: a value, or the fault
    at which the run stops ([Fault OutOfBounds], [IntOverflow], [NullDeref],
    [Exit code] and so on).  So a theorem that says a run gives [Ok s] also says
    that it has no undefined behaviour of these kinds.  Structures are records,
    arrays are lists with checked access ([l.[i]], [l.[i <- x]]), [int] arithmetic
    is checked ([iadd], [imul], ...), unsigned arithmetic wraps ([u8], [u32], ...).
    A pointer is an index into the array it points into, or an address of a heap
    that is a finite map.  What comes from outside (results of [malloc], [rand],
    the clock, system calls, the contents of fresh memory) is an argument, and the
    theorems quantify over it; promises of the C library and of the kernel are the
    laws of a class ([MallocLaws], [PipeLaws], [MmapLaws]) or guards of the environment's
    steps, with an instance or a run that satisfies them.  What is printed is left
    out, or kept as data where a property is about it.

    Threads are step relations: the code between two points where a thread takes
    or waits for a lock is one step where the program has a lock, and one access to
    shared memory is one step where it has none.  Properties of threads are
    invariants of all reachable states, for every schedule.

    ** Files, sources and what is shown (paths are below [src/])

    Shared theory.  [Prelude]: outcomes, arithmetic, arrays, loops with their
    invariant rules, tactics, hint databases.  [Ring]: circular arrays and the
    interface [BoundedFifo]/[FifoLaws] between a queue and its clients.
    [RequestQueue]: the queue that four memory schedulers repeat.  [Select]: scans
    for a best element and exchange sorts.  [Float]: IEEE arithmetic of [float] and
    [double]; [FloatOrder]: its comparisons.  [CHeap]: blocks of the C heap; the
    first part of [HeapPrograms]: which blocks a program owns.  [CString]: the
    functions on strings and lines of the input.  [Sse]: the instructions of the
    assembly programs.

    Queues and buffers.  [CircularQueue] ([utils/circularQueue.c]): every sequence
    of operations refines a bounded queue; resizing.  [Uart] ([networking/uart.c],
    [networking/uartInputSystem.c], [playingAround/inputBuffering/]): with the
    interrupt handler between any two accesses of the reader no byte is lost.
    [BoundedBuffer] ([concurrency/threads/rwlock-buffer/]): producers, consumers,
    readers and writers.  [FileBuffers] ([os/filesystem/customBuffer.c],
    [databaseOperationWithMMAP.c]): the stream is kept through errors; records
    refine a list.  [Descriptors] ([os/filesystem/], [os/kernel/kernelSysCall.c],
    [context_switch.c]): what ends up in a file that two processes write or read,
    through a stream's buffer or without it.

    Memory controllers and DRAM.  [FrFcfs], [SchedPolicies], [RwGrouping], [Dram],
    [Prefetch] with [PrefetchMain] ([accessPatterns/]) and [ParBs], [AdaptiveSched], [CommandSched]
    ([concurrency/scheduling/]): which request is served next and why, that all are
    served (or which are not: writes starve in [RwGrouping], row conflicts
    livelock in [CommandSched]), that commands are legal for the state of the
    banks, timing constraints of activations, address fields, and that prefetching
    does not change what is read.  [MemTransfer] ([memory/parallelComputing/]):
    counts of transfers.

    Caches.  [TwoLevelCache] ([memory/cache/]) against a reference by the history
    of accesses; [CacheController] ([accessPatterns/memoryController.c]) and
    [BufferPool], [BufferManager] ([os/filesystem/whyNotUseOS.c],
    [CustomBufferManagementSystem.c]): the cache is transparent, frames and table
    agree.

    Memory management.  [MemAlloc], [MemoryPool] ([memory/memory_management/],
    [memory/allocation/customAlloc.c]): blocks tile the pool, do not overlap, and
    are joined again.  [BoundaryTags] ([memory/allocation/allocator.c]): first fit,
    splitting and coalescing on tagged words refine a list of blocks, on a heap between
    two marks in use, which [m_init] itself does not write.  [OomKiller]
    ([accessPatterns/oomKiller.c]): which process is chosen.  [HeapPrograms]
    ([heap_overhead.c], [stack_vs_heap.c], [sys_calls.c]): every block is freed
    once, or which [malloc] stops the program.  [AddressSpace] ([32vs64bit.c],
    [kernelMM.c], [kernel_mapping.c], [memSeal.c], [nonExec.c], [SIGBUS.c],
    [pagemap.c]): pages with permissions, mapped and unmapped.  [Layout],
    [AlignBench] ([playingAround/fixedTypes/], [accessPatterns/visPadding.c]):
    offsets and sizes of structures; a sum that overflows.  [VirtualMem]
    ([memory/virtual_mem/]): TLB, address spaces that share no frame, demand
    loading.  [Pointers] ([memory/allocation/]): tagged,
    unique and counted pointers free each block once and use none after that.

    Processors.  [ProcessorSim] ([unix/processor_sim.c]), [CpuPipeline]
    ([os/cpu/cpu.c]): the pipeline refines the sequential machine.  [BinarySearch]
    ([performance/binary-search/]): the C function is correct and the assembly
    equals it.  [MatMul] ([utils/matrixMul/]): blocked and vectorised
    multiplications equal the naive one for any arithmetic.  [Mlp], [Perceptron]
    ([ml/]): the assembly equals the networks it computes, instruction by
    instruction.  [RayTriangle], [Parallel], [TensorTiles]
    ([memory/parallelComputing/]): the intersection test, and that the threads of a
    parallel loop give the sequential result in every schedule.  [Packets]
    ([unix/decode.c], [os/kernel/network_stack.c]): decoding and checksums.

    Processes.  [ProcSched], [Mlfq] ([os/process/scheduler/]): every process gets
    its burst and the schedulers end.  [ContextSwitch]
    ([concurrency/threads/contextSwitch/]), [MultiCpu]
    ([multiThreadingInMultiCPU.c]): accounting and bounds.  [Shell] ([utils/sh.c]):
    words are split within bounds, pipelines are wired and closed; [ShellLoop]: a
    whole session, line by line, to its end or to a child that never ends.  [Signals] ([preemptive_scheduler.c],
    [exceptionHandling.c]): handlers that run at any time and jumps out of them.
    [PointerCheck] ([signal_pointer_check.c], [fork_pointer_check.c]): what a check
    by a handler or by a child answers.

    Threads and events.  [RwLocks], [UpgradeLock], [Election]
    ([concurrency/threads/]) and [Sync] (futex mutex, semaphores, counters): mutual
    exclusion, no lost wake-up or increment, deadlocks where there are some.
    [PrioMutex] ([priority_inheritance.c], [rtMutex.c]): mutexes that record
    priorities.  [SingleCpu] ([multiThreadingSingleCPU.c]): the stop signal is not
    lost.  [SharedText] ([mutex_lock.c], [readWriteLocks.c],
    [readWritePreference.c]): every line printed is a whole text.  [SelectServer]
    ([serverSide.c]) and [EchoClient] ([clientSide.c]): what a round of
    the server does for any answers of the kernel, and client and server together over a
    connection that may cut the lines.  [ZeroCopy]
    ([unix/zero_copy_server/]): one request per connection, nothing leaks, bytes are
    echoed in order; a burst of more than 256 reads stops it.

    Attacks and protections ([security/]).  [Overflows]: which arguments leave the
    buffer of a copy, and which overwrites a canary shows.  [HeapUsers]: names in
    blocks of the heap, with and without limits.  [Aslr]: a simulated randomised
    layout, and a canary beside an input line.

    ** Loops and fuel

    [for] loops are [for_range] and the like, with the bound of the source.  Other
    loops are [loop fuel body], with [Fault OutOfFuel] when the fuel is used up.
    Inside an operation the fuel is a bound of the loop's own data (the length of
    the array or queue plus one, the 102 polls of a bank timer, the 13 instructions
    of a pass of the assembly), and the theorems show that the answer is a result.
    Main loops and recursions over the heap take the fuel as an argument; their
    theorems say how much is enough, or that no fuel is.

    ** Not modelled

    Programs that only print addresses, sizes or times of the machine, or whose
    effect is all in the operating system or in a library that is not here
    ([networking/quic/], [blockingIO.c], [nonBlockingIO.c], [change_euid.c],
    [chrootEx.c], [cpu_affinity.c], [kernelInteraction.c], [ReadReplica.cpp], the
    probes of [security/protection/] other than [aslr.c] and [canary_test.c]);
    [threadCreation.c], which starts threads that print; [whyNotMe.c], which stops
    in the initialisation of the allocator ([BoundaryTags]); drawing with OpenGL
    ([myGirl.c]); a copy of [uart.c] ([playingAround/inputBuffering/a.c]); output of
    the preprocessor and of the compiler.  Clocks, sleeps and prompts are left out of
    the programs that have them.  Effects of hardware memory models are not modelled:
    steps are interleaved. *)
From Stdlib Require Import ZArith Lia.
From stdpp Require Import base tactics list numbers option.

#[local] Open Scope Z_scope.

(** ** Outcomes of C code

    A run of a C function either returns a value or stops.  It stops when it
    does something the language gives no meaning to (an access outside an
    array or of memory that is not allocated, signed overflow, a division by
    zero, a shift by at least the width), when an [assert] fails, or when it calls [exit].  [OutOfFuel] is
    the answer of a fuelled loop whose fuel did not suffice. *)
Inductive fault : Type :=
| OutOfBounds
| NullDeref
| BadAddress
| IntOverflow
| DivByZero
| BadShift
| AssertFail
| Exit (code : Z)
| OutOfFuel.

Inductive res (A : Type) : Type :=
| Ok (a : A)
| Fault (f : fault).
Arguments Ok {A} _.
Arguments Fault {A} _.

#[export] Instance res_ret : MRet res := fun A a => Ok a.
#[export] Instance res_bind : MBind res := fun A B f m =>
  match m with Ok a => f a | Fault e => Fault e end.

Definition is_ok {A} (m : res A) : bool :=
  match m with Ok _ => true | Fault _ => false end.

(** ** Machine integers

    [int] arithmetic is checked: a result outside the 32-bit range is
    undefined behaviour in C, hence a fault.  Unsigned arithmetic wraps. *)
Definition INT_MAX : Z := 2147483647.
Definition INT_MIN : Z := -2147483648.
Definition UINT32 : Z := 4294967296.
Definition UINT64 : Z := 18446744073709551616.

Definition int_of (z : Z) : res Z :=
  if (INT_MIN <=? z) && (z <=? INT_MAX) then Ok z else Fault IntOverflow.
Definition iadd (a b : Z) : res Z := int_of (a + b).
Definition isub (a b : Z) : res Z := int_of (a - b).
Definition imul (a b : Z) : res Z := int_of (a * b).

(** C's [/] and [%] truncate towards zero. *)
Definition idiv (a b : Z) : res Z :=
  if b =? 0 then Fault DivByZero else int_of (Z.quot a b).
Definition imod (a b : Z) : res Z :=
  if b =? 0 then Fault DivByZero else int_of (Z.rem a b).

Definition u8 (z : Z) : Z := z mod 256.
Definition u16 (z : Z) : Z := z mod 65536.
Definition u32 (z : Z) : Z := z mod UINT32.
Definition u64 (z : Z) : Z := z mod UINT64.

(** ** Arrays

    An array is a list, indexed by [Z]; an index outside it is a fault. *)
Abbreviation len l := (Z.of_nat (length l)).

Definition in_range (i n : Z) : bool := (0 <=? i) && (i <? n).

Definition zget {A} (l : list A) (i : Z) : option A :=
  if 0 <=? i then l !! Z.to_nat i else None.
Definition zset {A} (l : list A) (i : Z) (x : A) : list A :=
  if 0 <=? i then <[Z.to_nat i := x]> l else l.

Definition arr_read {A} (l : list A) (i : Z) : res A :=
  match zget l i with Some x => Ok x | None => Fault OutOfBounds end.
Definition arr_write {A} (l : list A) (i : Z) (x : A) : res (list A) :=
  if in_range i (len l) then Ok (zset l i x) else Fault OutOfBounds.

Declare Scope c_scope.
Delimit Scope c_scope with C.
Notation "l .[ i ]" := (arr_read l i)
  (at level 1, i at level 200, left associativity, format "l .[ i ]") : c_scope.
Notation "l .[ i <- x ]" := (arr_write l i x)
  (at level 1, i at level 200, x at level 200, left associativity,
   format "l .[ i  <-  x ]") : c_scope.
#[local] Open Scope c_scope.

(** ** Loops

    One pass of a loop body either goes on with a new state or leaves the
    loop with a result ([break] or [return]). *)
Inductive ctl (S R : Type) : Type :=
| Next (s : S)
| Return (r : R).
Arguments Next {S R} _.
Arguments Return {S R} _.

(** [for (i = lo; i < lo + n; i++) body]. *)
Fixpoint for_range {S} (n : nat) (i : Z) (body : Z -> S -> res S) (s : S)
    : res S :=
  match n with
  | O => Ok s
  | Datatypes.S n' => s' ← body i s; for_range n' (i + 1) body s'
  end.

(** [n] passes of a loop that starts at [i] and adds [step]. *)
Fixpoint for_step {S} (n : nat) (i step : Z) (body : Z -> S -> res S) (s : S) : res S :=
  match n with
  | O => Ok s
  | Datatypes.S n' => s' ← body i s; for_step n' (i + step) step body s'
  end.

(** The number of passes of [for (i = lo; i < hi; i += step)]. *)
Definition passes (lo hi step : Z) : nat := Z.to_nat ((hi - lo + step - 1) / step).

(** The same loop with [break] and [return]; running off the end yields the
    last state. *)
Fixpoint for_ctl {S R} (n : nat) (i : Z) (body : Z -> S -> res (ctl S R)) (s : S)
    : res (ctl S R) :=
  match n with
  | O => Ok (Next s)
  | Datatypes.S n' =>
      c ← body i s;
      match c with
      | Next s' => for_ctl n' (i + 1) body s'
      | Return r => Ok (Return r)
      end
  end.

(** [while (true) body], with fuel. *)
Fixpoint loop {S R} (fuel : nat) (body : S -> res (ctl S R)) (s : S) : res R :=
  match fuel with
  | O => Fault OutOfFuel
  | Datatypes.S fuel' =>
      c ← body s;
      match c with
      | Next s' => loop fuel' body s'
      | Return r => Ok r
      end
  end.

(** First index, counting from [i], of an element that passes [p]. *)
Fixpoint find_from {A} (p : A -> bool) (l : list A) (i : Z) : option Z :=
  match l with
  | [] => None
  | x :: l' => if p x then Some i else find_from p l' (i + 1)
  end.
Definition find_index {A} (p : A -> bool) (l : list A) : option Z :=
  find_from p l 0.

#[global] Arguments int_of : simpl never.
#[global] Arguments iadd : simpl never.
#[global] Arguments isub : simpl never.
#[global] Arguments imul : simpl never.
#[global] Arguments idiv : simpl never.
#[global] Arguments imod : simpl never.
#[global] Arguments u8 : simpl never.
#[global] Arguments u16 : simpl never.
#[global] Arguments u32 : simpl never.
#[global] Arguments u64 : simpl never.
#[global] Arguments zget : simpl never.
#[global] Arguments zset : simpl never.
#[global] Arguments arr_read : simpl never.
#[global] Arguments arr_write : simpl never.

(** ** Automation *)

(** Boolean comparisons of the code, as propositions. *)
Ltac zbool :=
  repeat match goal with
  | H : (_ =? _)%Z = true |- _ => apply Z.eqb_eq in H
  | H : (_ =? _)%Z = false |- _ => apply Z.eqb_neq in H
  | H : (_ <? _)%Z = true |- _ => apply Z.ltb_lt in H
  | H : (_ <? _)%Z = false |- _ => apply Z.ltb_ge in H
  | H : (_ <=? _)%Z = true |- _ => apply Z.leb_le in H
  | H : (_ <=? _)%Z = false |- _ => apply Z.leb_gt in H
  | H : (_ >? _)%Z = true |- _ => rewrite Z.gtb_ltb in H; apply Z.ltb_lt in H
  | H : (_ >? _)%Z = false |- _ => rewrite Z.gtb_ltb in H; apply Z.ltb_ge in H
  | H : (_ >=? _)%Z = true |- _ => rewrite Z.geb_leb in H; apply Z.leb_le in H
  | H : (_ >=? _)%Z = false |- _ => rewrite Z.geb_leb in H; apply Z.leb_gt in H
  | H : (_ && _) = true |- _ => apply andb_true_iff in H as [? ?]
  | H : (_ && _) = false |- _ => apply andb_false_iff in H
  | H : (_ || _) = true |- _ => apply orb_true_iff in H
  | H : (_ || _) = false |- _ => apply orb_false_iff in H as [? ?]
  | H : negb _ = true |- _ => apply negb_true_iff in H
  | H : negb _ = false |- _ => apply negb_false_iff in H
  end.

(** Case analysis on the first condition of the goal. *)
Ltac case_cond :=
  match goal with
  | |- context [if ?b then _ else _] =>
      lazymatch b with
      | context [if _ then _ else _] => fail
      | _ => destruct b eqn:?; zbool
      end
  end.

(** Linear arithmetic with division and remainder. *)
Ltac dlia := Z.to_euclidean_division_equations; lia.
Ltac dnia := Z.to_euclidean_division_equations; nia.

(** ** Lemmas *)

Create HintDb cdb.
Create Rewrite HintDb crw.

Lemma bind_Ok {A B} (f : A -> res B) (m : res A) (b : B) :
  m ≫= f = Ok b <-> exists a, m = Ok a /\ f a = Ok b.
Proof.
  destruct m as [a|e]; simpl; split.
  - by eauto.
  - by intros (? & [= ->] & ?).
  - done.
  - by intros (? & [=] & _).
Qed.

Lemma bind_ret_l {A B} (f : A -> res B) (a : A) : (Ok a ≫= f) = f a.
Proof. done. Qed.

(** Take apart a hypothesis that a sequence of statements returned. *)
Ltac inv_ok :=
  repeat match goal with
  | H : mbind _ _ = Ok _ |- _ =>
      apply bind_Ok in H; destruct H as (? & ? & H)
  | H : Ok _ = Ok _ |- _ => injection H as H; try subst
  | H : Fault _ = Ok _ |- _ => discriminate H
  | H : mret _ = Ok _ |- _ => unfold mret, res_ret in H
  end; simplify_eq/=.

Lemma int_of_Ok z : INT_MIN <= z <= INT_MAX -> int_of z = Ok z.
Proof.
  intros H. unfold int_of.
  destruct (Z.leb_spec INT_MIN z), (Z.leb_spec z INT_MAX); simpl; (done || lia).
Qed.

Lemma int_of_inv z r : int_of z = Ok r -> r = z /\ INT_MIN <= z <= INT_MAX.
Proof. unfold int_of. case_cond; [|done]. intros [= <-]. lia. Qed.

Lemma iadd_inv a b v : iadd a b = Ok v -> v = a + b /\ INT_MIN <= a + b <= INT_MAX.
Proof. apply int_of_inv. Qed.
Lemma iadd_Ok a b : INT_MIN <= a + b <= INT_MAX -> iadd a b = Ok (a + b).
Proof. apply int_of_Ok. Qed.
Lemma isub_Ok a b : INT_MIN <= a - b <= INT_MAX -> isub a b = Ok (a - b).
Proof. apply int_of_Ok. Qed.
Lemma imul_Ok a b : INT_MIN <= a * b <= INT_MAX -> imul a b = Ok (a * b).
Proof. apply int_of_Ok. Qed.

(** On the operands the programs use ([0 <= a], [0 < b]) truncation and
    flooring agree. *)
Lemma imod_Ok a b : 0 <= a <= INT_MAX -> 0 < b -> imod a b = Ok (a mod b).
Proof.
  intros Ha Hb. unfold imod. case_cond; [lia|].
  rewrite Z.rem_mod_nonneg by lia. apply int_of_Ok.
  pose proof (Z.mod_pos_bound a b Hb). pose proof (Z.mod_le a b).
  unfold INT_MIN, INT_MAX in *. lia.
Qed.
Lemma idiv_Ok a b : 0 <= a <= INT_MAX -> 0 < b -> idiv a b = Ok (a / b).
Proof.
  intros Ha Hb. unfold idiv. case_cond; [lia|].
  rewrite Z.quot_div_nonneg by lia. apply int_of_Ok.
  pose proof (Z.div_pos a b). pose proof (Z.div_le_upper_bound a b a).
  unfold INT_MIN, INT_MAX in *. nia.
Qed.

Lemma in_range_true i n : in_range i n = true <-> 0 <= i < n.
Proof. unfold in_range. rewrite andb_true_iff, Z.leb_le, Z.ltb_lt. done. Qed.
Lemma in_range_false i n : in_range i n = false <-> i < 0 \/ n <= i.
Proof. unfold in_range. rewrite andb_false_iff, Z.leb_gt, Z.ltb_ge. done. Qed.

Section arrays.
Context {A : Type}.
Implicit Types (l : list A) (x y : A) (i j : Z).

Lemma zget_Some_range l i x : zget l i = Some x -> 0 <= i < len l.
Proof.
  unfold zget. case_cond; [|done]. intros H%lookup_lt_Some. lia.
Qed.

Lemma zget_range l i : 0 <= i < len l -> exists x, zget l i = Some x.
Proof.
  intros H. unfold zget. case_cond; [|lia].
  apply lookup_lt_is_Some_2. lia.
Qed.

Lemma zget_None l i : zget l i = None <-> i < 0 \/ len l <= i.
Proof.
  unfold zget. case_cond; [|naive_solver lia].
  rewrite lookup_ge_None. lia.
Qed.

Lemma zget_nat l (n : nat) : zget l (Z.of_nat n) = l !! n.
Proof. unfold zget. case_cond; [|lia]. by rewrite Nat2Z.id. Qed.

Lemma zget_nil i : zget (@nil A) i = None.
Proof. unfold zget. by case_cond. Qed.

Lemma zget_replicate n x y i : zget (replicate n x) i = Some y -> y = x.
Proof. unfold zget. case_cond; [|done]. intros H%lookup_replicate. by destruct H. Qed.

Lemma zget_cons x l i :
  zget (x :: l) i = if i =? 0 then Some x else zget l (i - 1).
Proof.
  unfold zget. destruct (Z.eqb_spec i 0) as [->|Hi]; [done|].
  repeat case_cond; try lia; [|done].
  by replace (Z.to_nat i) with (S (Z.to_nat (i - 1))) by lia.
Qed.

Lemma length_zset l i x : length (zset l i x) = length l.
Proof. unfold zset. case_cond; [apply length_insert|done]. Qed.

Lemma zget_zset_eq l i x : 0 <= i < len l -> zget (zset l i x) i = Some x.
Proof.
  intros H. unfold zget, zset. case_cond; [|lia].
  apply list_lookup_insert_eq. lia.
Qed.

Lemma zget_zset_ne l i j x : i <> j -> zget (zset l i x) j = zget l j.
Proof.
  intros H. unfold zget, zset. repeat case_cond; try done.
  apply list_lookup_insert_ne. lia.
Qed.

Lemma zget_zset l i j x :
  zget (zset l i x) j = if (j =? i) && in_range i (len l) then Some x else zget l j.
Proof.
  destruct (Z.eqb_spec j i) as [->|Hne]; simpl.
  - destruct (in_range i (len l)) eqn:Hr.
    + apply zget_zset_eq. by apply in_range_true.
    + apply in_range_false in Hr.
      rewrite !(proj2 (zget_None _ _)); [done|lia|].
      rewrite length_zset. lia.
  - apply zget_zset_ne. done.
Qed.

Lemma zget_zset_inv l i j x y :
  zget (zset l i x) j = Some y -> (j = i /\ y = x) \/ (j <> i /\ zget l j = Some y).
Proof.
  destruct (decide (j = i)) as [->|H]; [|rewrite zget_zset_ne by done; by right]. intros E.
  pose proof (zget_Some_range _ _ _ E) as Hi. rewrite length_zset in Hi. rewrite zget_zset_eq in E by done.
  left. by injection E.
Qed.

Lemma zset_zset_eq l i x y : zset (zset l i x) i y = zset l i y.
Proof. unfold zset. case_cond; [apply list_insert_insert_eq|done]. Qed.

Lemma zset_zset_ne l i j x y : i <> j -> zset (zset l i x) j y = zset (zset l j y) i x.
Proof. intros H. unfold zset. repeat case_cond; [|done..]. apply list_insert_insert_ne. lia. Qed.

Lemma zget_ext l1 l2 :
  (forall i, zget l1 i = zget l2 i) -> l1 = l2.
Proof.
  intros H. apply list_eq. intros i. rewrite <- !zget_nat. apply H.
Qed.

Lemma zset_id l i x : zget l i = Some x -> zset l i x = l.
Proof.
  intros Hx. apply zget_ext. intros j. destruct (decide (i = j)) as [<-|]; [|by apply zget_zset_ne].
  rewrite zget_zset_eq, Hx; [done|]. by eapply zget_Some_range.
Qed.

Lemma take_S_zget l i x :
  zget l i = Some x -> take (Z.to_nat (i + 1)) l = take (Z.to_nat i) l ++ [x].
Proof.
  unfold zget. case_cond; [|done]. rewrite Z2Nat.inj_add, Nat.add_1_r by lia.
  apply take_S_r.
Qed.

Lemma arr_read_Ok l i x : zget l i = Some x -> l.[i] = Ok x.
Proof. unfold arr_read. by intros ->. Qed.

Lemma arr_read_inv l i x : l.[i] = Ok x -> zget l i = Some x.
Proof. unfold arr_read. destruct (zget l i); naive_solver. Qed.

Lemma arr_read_oob l i : i < 0 \/ len l <= i -> l.[i] = Fault OutOfBounds.
Proof. unfold arr_read. intros H. by rewrite (proj2 (zget_None l i) H). Qed.

Lemma arr_write_Ok l i x : 0 <= i < len l -> l.[i <- x] = Ok (zset l i x).
Proof. unfold arr_write. intros H%in_range_true. by rewrite H. Qed.

Lemma arr_write_inv l i x l' :
  l.[i <- x] = Ok l' -> l' = zset l i x /\ 0 <= i < len l.
Proof.
  unfold arr_write. destruct (in_range i (len l)) eqn:H; [|done].
  intros [= <-]. by apply in_range_true in H.
Qed.

Lemma arr_write_oob l i x :
  i < 0 \/ len l <= i -> l.[i <- x] = Fault OutOfBounds.
Proof. unfold arr_write. intros H%in_range_false. by rewrite H. Qed.
End arrays.

(** Run the first statement of the goal, discharging its side condition. *)
Ltac int_side :=
  unfold INT_MIN, INT_MAX in *; rewrite ?length_zset; lia.
Ltac c_step :=
  lazymatch goal with
  | |- mbind _ (Ok _) = _ => rewrite bind_ret_l
  | |- mbind _ (iadd ?a ?b) = _ => rewrite (iadd_Ok a b) by int_side
  | |- mbind _ (isub ?a ?b) = _ => rewrite (isub_Ok a b) by int_side
  | |- mbind _ (imul ?a ?b) = _ => rewrite (imul_Ok a b) by int_side
  | |- mbind _ (imod ?a ?b) = _ => rewrite (imod_Ok a b) by int_side
  | |- mbind _ (idiv ?a ?b) = _ => rewrite (idiv_Ok a b) by int_side
  | |- mbind _ (arr_write ?l ?i ?x) = _ =>
      rewrite (arr_write_Ok l i x) by int_side
  | |- mbind _ (arr_read ?l ?i) = _ =>
      erewrite (arr_read_Ok l i) by eassumption
  | |- (if ?b then _ else _) = _ => destruct b eqn:?; zbool; try (exfalso; lia)
  end; cbn beta iota.
Ltac c_steps := repeat c_step.

#[export] Hint Rewrite @length_zset @bind_ret_l : crw.
#[export] Hint Resolve int_of_Ok iadd_Ok isub_Ok imul_Ok : cdb.

Section loops.
Context {S R : Type}.

Lemma loop_S fuel (body : S -> res (ctl S R)) s :
  loop (Datatypes.S fuel) body s =
    (c ← body s; match c with Next s' => loop fuel body s' | Return r => Ok r end).
Proof. done. Qed.

Lemma for_range_S n i (body : Z -> S -> res S) s :
  for_range (Datatypes.S n) i body s = (s' ← body i s; for_range n (i + 1) body s').
Proof. done. Qed.

Lemma for_range_inv (I : Z -> S -> Prop) n i body s :
  I i s ->
  (forall j t, i <= j < i + Z.of_nat n -> I j t ->
     exists t', body j t = Ok t' /\ I (j + 1) t') ->
  exists s', for_range n i body s = Ok s' /\ I (i + Z.of_nat n) s'.
Proof.
  revert i s. induction n as [|n IH]; intros i s HI Hstep; simpl.
  - exists s. by rewrite Z.add_0_r.
  - destruct (Hstep i s) as (t & Ht & HI'); [lia|done|].
    rewrite Ht, bind_ret_l.
    replace (i + Z.of_nat (Datatypes.S n)) with (i + 1 + Z.of_nat n) by lia.
    apply IH; [done|]. intros j u Hj. apply Hstep. lia.
Qed.

(** A loop whose passes keep an invariant or stop with one fault, for a reason [Q]. *)
Lemma for_range_either (I : Z -> S -> Prop) (f : fault) (Q : Prop) (body : Z -> S -> res S) n : forall i s,
  I i s -> (forall j t, i <= j < i + Z.of_nat n -> I j t -> (exists t', body j t = Ok t' /\ I (j + 1) t') \/ (body j t = Fault f /\ Q)) ->
  (exists s', for_range n i body s = Ok s' /\ I (i + Z.of_nat n) s') \/ (for_range n i body s = Fault f /\ Q).
Proof.
  induction n as [|n IH]; intros i s HI Hstep; [left; exists s; by rewrite Z.add_0_r|]. rewrite for_range_S.
  destruct (Hstep i s) as [(t & -> & Ht)|[-> HQ]]; [lia|done| |by right]. rewrite bind_ret_l.
  replace (i + Z.of_nat (Datatypes.S n)) with (i + 1 + Z.of_nat n) by lia. apply IH; [done|]. intros j u Hj. apply Hstep. lia.
Qed.

Lemma for_range_ext n i (body body' : Z -> S -> res S) s :
  (forall j t, i <= j < i + Z.of_nat n -> body j t = body' j t) -> for_range n i body s = for_range n i body' s.
Proof.
  revert i s. induction n as [|n IH]; intros i s H; simpl; [done|].
  rewrite H by lia. destruct (body' i s); simpl; [|done]. apply IH. intros j t Hj. apply H. lia.
Qed.

Lemma for_step_inv (I : Z -> S -> Prop) n i step body s :
  I 0 s ->
  (forall m t, 0 <= m < Z.of_nat n -> I m t -> exists t', body (i + m * step) t = Ok t' /\ I (m + 1) t') ->
  exists s', for_step n i step body s = Ok s' /\ I (Z.of_nat n) s'.
Proof.
  intros H0 Hstep. assert (forall k m t, 0 <= m -> m + Z.of_nat k = Z.of_nat n -> I m t ->
    exists s', for_step k (i + m * step) step body t = Ok s' /\ I (Z.of_nat n) s') as H.
  { induction k as [|k IH]; intros m t Hm Hk HI; simpl.
    - exists t. by replace (Z.of_nat n) with m by lia.
    - destruct (Hstep m t) as (t' & -> & HI'); [lia|done|]. rewrite bind_ret_l.
      replace (i + m * step + step) with (i + (m + 1) * step) by ring. apply IH; [lia|lia|done]. }
  destruct (H n 0 s) as (s' & Hs & HI); [lia|lia|done|]. exists s'. rewrite Z.mul_0_l, Z.add_0_r in Hs. done.
Qed.

Lemma for_ctl_inv (I : Z -> S -> Prop) (Q : R -> Prop) n i body s :
  I i s ->
  (forall j t, i <= j < i + Z.of_nat n -> I j t ->
     exists c, body j t = Ok c /\
       match c with Next t' => I (j + 1) t' | Return r => Q r end) ->
  exists c, for_ctl n i body s = Ok c /\
    match c with Next s' => I (i + Z.of_nat n) s' | Return r => Q r end.
Proof.
  revert i s. induction n as [|n IH]; intros i s HI Hstep; simpl.
  - exists (Next s). by rewrite Z.add_0_r.
  - destruct (Hstep i s) as (c & Hc & HQ); [lia|done|].
    rewrite Hc, bind_ret_l. destruct c as [t|r]; [|by exists (Return r)].
    replace (i + Z.of_nat (Datatypes.S n)) with (i + 1 + Z.of_nat n) by lia.
    apply IH; [done|]. intros j u Hj. apply Hstep. lia.
Qed.

(** Total correctness of a loop from an invariant and a measure. *)
Lemma loop_total (I : S -> Prop) (Q : R -> Prop) (m : S -> nat) body :
  (forall s, I s -> exists c, body s = Ok c /\
     match c with Next s' => I s' /\ (m s' < m s)%nat | Return r => Q r end) ->
  forall fuel s, I s -> (m s < fuel)%nat ->
  exists r, loop fuel body s = Ok r /\ Q r.
Proof.
  intros Hstep fuel. induction fuel as [|fuel IH]; intros s HI Hm; [lia|].
  simpl. destruct (Hstep s HI) as (c & Hc & HQ). rewrite Hc, bind_ret_l.
  destruct c as [s'|r]; [|by exists r].
  destruct HQ as [HI' Hlt]. apply IH; [done|lia].
Qed.

Lemma loop_mono (body : S -> res (ctl S R)) fuel fuel' s (r : R) :
  (fuel <= fuel')%nat -> loop fuel body s = Ok r -> loop fuel' body s = Ok r.
Proof.
  revert fuel' s. induction fuel as [|fuel IH]; intros fuel' s Hle H; [done|].
  destruct fuel' as [|fuel']; [lia|]. simpl in *.
  destruct (body s) as [[s'|r']|]; simpl in *; [|done|done].
  apply IH; [lia|done].
Qed.

(** A set of states the body never leaves: the loop does not return. *)
Lemma loop_diverges (I : S -> Prop) body :
  (forall s, I s -> exists s', body s = Ok (@Next S R s') /\ I s') ->
  forall fuel s, I s -> loop fuel body s = Fault OutOfFuel.
Proof.
  intros Hstep fuel. induction fuel as [|fuel IH]; intros s HI; [done|].
  simpl. destruct (Hstep s HI) as (s' & Hs & HI'). rewrite Hs. simpl. by apply IH.
Qed.

(** Partial correctness, for whatever fuel. *)
Lemma loop_inv (I : S -> Prop) (Q : R -> Prop) body :
  (forall s c, I s -> body s = Ok c ->
     match c with Next s' => I s' | Return r => Q r end) ->
  forall fuel s r, I s -> loop fuel body s = Ok r -> Q r.
Proof.
  intros Hstep fuel. induction fuel as [|fuel IH]; intros s r HI H; [done|].
  simpl in H. destruct (body s) as [c|] eqn:Hb; simpl in H; [|done].
  specialize (Hstep _ _ HI Hb). destruct c as [s'|r']; [by apply (IH s')|].
  by injection H as <-.
Qed.
End loops.

Lemma find_from_shift {A} (p : A -> bool) l i :
  find_from p l i = (Z.add i) <$> find_from p l 0.
Proof.
  revert i. induction l as [|x l IH]; intros i; simpl; [done|].
  destruct (p x); simpl; [by rewrite Z.add_0_r|].
  change (0 + 1) with 1. rewrite (IH (i + 1)), (IH 1). destruct (find_from p l 0); simpl; [|done].
  by rewrite Z.add_assoc.
Qed.

Lemma find_index_cons {A} (p : A -> bool) x l :
  find_index p (x :: l) = if p x then Some 0 else Z.succ <$> find_index p l.
Proof.
  unfold find_index. simpl. destruct (p x); [done|].
  rewrite find_from_shift. destruct (find_from p l 0); simpl; [|done].
  by rewrite Z.add_1_l.
Qed.

Lemma find_index_None_fwd {A} (p : A -> bool) l i x :
  find_index p l = None -> zget l i = Some x -> p x = false.
Proof.
  revert i. induction l as [|y l IH]; intros i; [by rewrite zget_nil|].
  rewrite find_index_cons, zget_cons. destruct (p y) eqn:Hy; [done|].
  intros H%fmap_None. case_cond; [naive_solver|]. by apply IH.
Qed.

Lemma find_index_Some_fwd {A} (p : A -> bool) l i :
  find_index p l = Some i ->
  exists x, zget l i = Some x /\ p x = true /\
    forall j y, 0 <= j < i -> zget l j = Some y -> p y = false.
Proof.
  revert i. induction l as [|x l IH]; intros i; [done|].
  rewrite find_index_cons. destruct (p x) eqn:Hp.
  - intros [= <-]. exists x. rewrite zget_cons. simpl. repeat split; [done|lia].
  - intros (k & Hk & ->)%fmap_Some. destruct (IH k Hk) as (y & Hy & Hpy & Hmin).
    pose proof (zget_Some_range _ _ _ Hy). exists y. rewrite zget_cons.
    case_cond; [lia|]. replace (Z.succ k - 1) with k by lia.
    do 2 (split; [done|]). intros j z Hj. rewrite zget_cons.
    case_cond; [by intros [= <-]|]. apply Hmin. lia.
Qed.

(** The index found holds an element that passes the test and is the first
    one that does. *)
Lemma find_index_Some {A} (p : A -> bool) l i :
  find_index p l = Some i <->
  exists x, zget l i = Some x /\ p x = true /\
    forall j y, 0 <= j < i -> zget l j = Some y -> p y = false.
Proof.
  split; [apply find_index_Some_fwd|]. intros (x & Hx & Hp & Hmin).
  pose proof (zget_Some_range _ _ _ Hx).
  destruct (find_index p l) as [k|] eqn:Hf.
  - destruct (find_index_Some_fwd _ _ _ Hf) as (y & Hy & Hpy & Hmin').
    pose proof (zget_Some_range _ _ _ Hy). f_equal.
    destruct (Z.lt_trichotomy k i) as [Hlt|[->|Hlt]]; [|done|].
    + rewrite (Hmin k y) in Hpy; [done|lia|done].
    + rewrite (Hmin' i x) in Hp; [done|lia|done].
  - by rewrite (find_index_None_fwd _ _ _ _ Hf Hx) in Hp.
Qed.

Lemma find_index_None {A} (p : A -> bool) l :
  find_index p l = None <-> forall i x, zget l i = Some x -> p x = false.
Proof.
  split; [intros; by eapply find_index_None_fwd|].
  intros H. destruct (find_index p l) as [i|] eqn:Hf; [|done].
  apply find_index_Some in Hf as (x & Hx & Hp & _).
  by rewrite (H i x Hx) in Hp.
Qed.

(** A filter that keeps or drops everything. *)
Lemma filter_all {A} (P : A -> Prop) `{!forall x, Decision (P x)} l :
  Forall P l -> filter P l = l.
Proof.
  induction 1 as [|x l Hx _ IH]; [done|]. rewrite filter_cons_True by done. by rewrite IH.
Qed.

Lemma filter_none {A} (P : A -> Prop) `{!forall x, Decision (P x)} l :
  Forall (fun x => ~ P x) l -> filter P l = [].
Proof.
  induction 1 as [|x l Hx _ IH]; [done|]. by rewrite filter_cons_False.
Qed.

Lemma filter_full {A} (P : A -> Prop) `{!forall x, Decision (P x)} l :
  (length l <= length (filter P l))%nat -> Forall P l.
Proof.
  induction l as [|x l IH]; [constructor|]. pose proof (length_filter P l).
  destruct (decide (P x)); [rewrite filter_cons_True by done|rewrite filter_cons_False by done];
    simpl; intros; [|lia]. constructor; [done|]. apply IH. lia.
Qed.

Lemma take_zset {A} (n : nat) (l : list A) k x :
  take n (zset l k x) = zset (take n l) k x.
Proof.
  unfold zset. case_cond; [|done]. rewrite take_insert. case_decide; [done|].
  rewrite list_insert_ge; [done|]. rewrite length_take. lia.
Qed.

Lemma zget_take {A} (n : nat) (l : list A) k x :
  zget (take n l) k = Some x <-> zget l k = Some x /\ k < Z.of_nat n.
Proof.
  unfold zget. case_cond; [|by split; [|intros [? _]]]. rewrite lookup_take_Some.
  split; intros []; (split; [done|lia]).
Qed.

Lemma zget_fmap {A B} (f : A -> B) (l : list A) k : zget (f <$> l) k = f <$> zget l k.
Proof. unfold zget. case_cond; [|done]. apply list_lookup_fmap. Qed.

Lemma Forall_zget {A} (P : A -> Prop) l i x : Forall P l -> zget l i = Some x -> P x.
Proof. unfold zget. case_cond; [|done]. apply Forall_lookup_1. Qed.

Lemma elem_of_zget {A} (l : list A) x : x ∈ l <-> exists i, zget l i = Some x.
Proof.
  rewrite list_elem_of_lookup. split.
  - intros [i Hi]. exists (Z.of_nat i). by rewrite zget_nat.
  - intros [i Hi]. unfold zget in Hi. destruct (0 <=? i); [|done]. by eexists.
Qed.

(** Remainders of unsigned casts. *)
Lemma u8_range z : 0 <= u8 z < 256.
Proof. apply Z.mod_pos_bound. lia. Qed.
Lemma u32_range z : 0 <= u32 z < UINT32.
Proof. apply Z.mod_pos_bound. unfold UINT32. lia. Qed.
Lemma u64_range z : 0 <= u64 z < UINT64.
Proof. apply Z.mod_pos_bound. unfold UINT64. lia. Qed.
Lemma u32_id z : 0 <= z < UINT32 -> u32 z = z.
Proof. apply Z.mod_small. Qed.
Lemma u64_id z : 0 <= z < UINT64 -> u64 z = z.
Proof. apply Z.mod_small. Qed.
Lemma u8_id z : 0 <= z < 256 -> u8 z = z.
Proof. apply Z.mod_small. Qed.

(** Packing and unpacking of bit fields. *)
Lemma lor_shifted a b n : 0 <= n -> 0 <= b < 2 ^ n -> Z.lor (Z.shiftl a n) b = a * 2 ^ n + b.
Proof.
  intros Hn Hb. rewrite Z.shiftl_mul_pow2 by done.
  assert (Z.land (a * 2 ^ n) b = 0) as Hdis.
  { apply Z.bits_inj'. intros k Hk. rewrite Z.land_spec, Z.bits_0.
    destruct (decide (k < n)); [by rewrite Z.mul_pow2_bits_low|].
    rewrite (Z.testbit_eqb b) by done. rewrite Z.div_small; [by rewrite andb_false_r|].
    split; [lia|]. apply Z.lt_le_trans with (2 ^ n); [lia|]. apply Z.pow_le_mono_r; lia. }
  rewrite <- Z.lxor_lor by done. symmetry. by apply Z.add_nocarry_lxor.
Qed.

(** The low [k] bits cleared by a mask of width [w]. *)
Lemma mask_low w k v : 0 <= k -> 0 <= v < 2 ^ w -> Z.land v (Z.ldiff (Z.ones w) (Z.ones k)) = 2 ^ k * (v / 2 ^ k).
Proof.
  intros Hk Hv. assert (0 <= w) by (destruct (Z.ltb_spec w 0); [rewrite Z.pow_neg_r in Hv; lia|lia]).
  assert (Z.land v (Z.ldiff (Z.ones w) (Z.ones k)) = Z.ldiff (Z.land v (Z.ones w)) (Z.ones k)) as ->.
  { apply Z.bits_inj'. intros n Hn. rewrite Z.land_spec, !Z.ldiff_spec, Z.land_spec. by rewrite andb_assoc. }
  rewrite Z.land_ones, Z.mod_small, Z.ldiff_ones_r, Z.shiftl_mul_pow2, Z.shiftr_div_pow2 by (done || lia). lia.
Qed.

Lemma field_extract h a b n m :
  0 <= n -> 0 <= m -> 0 <= b < 2 ^ n -> 0 <= a < 2 ^ m ->
  Z.land (Z.shiftr ((h * 2 ^ m + a) * 2 ^ n + b) n) (Z.ones m) = a.
Proof.
  intros Hn Hm Hb Ha. rewrite Z.land_ones, Z.shiftr_div_pow2 by done.
  rewrite Z.div_add_l by lia. rewrite (Z.div_small b) by done. rewrite Z.add_0_r, Z.add_comm, Z.mod_add by lia.
  by apply Z.mod_small.
Qed.

(** [memcpy] out of and into an array. *)
Definition copy_from {A} (l : list A) (i : Z) (n : nat) : res (list A) :=
  if (0 <=? i) && (i + Z.of_nat n <=? len l) then Ok (take n (drop (Z.to_nat i) l))
  else Fault OutOfBounds.
Definition copy_to {A} (l : list A) (i : Z) (src : list A) : res (list A) :=
  if (0 <=? i) && (i + len src <=? len l)
  then Ok (take (Z.to_nat i) l ++ src ++ drop (Z.to_nat i + length src) l)
  else Fault OutOfBounds.

Lemma copy_from_Ok {A} (l : list A) i n :
  0 <= i -> i + Z.of_nat n <= len l -> copy_from l i n = Ok (take n (drop (Z.to_nat i) l)).
Proof. intros. unfold copy_from. case_cond; [done|]. lia. Qed.

Lemma copy_to_Ok {A} (l : list A) i src :
  0 <= i -> i + len src <= len l ->
  copy_to l i src = Ok (take (Z.to_nat i) l ++ src ++ drop (Z.to_nat i + length src) l).
Proof. intros. unfold copy_to. case_cond; [done|]. lia. Qed.

Lemma zget_copy {A} (l src : list A) i k :
  0 <= i -> i + len src <= len l ->
  zget (take (Z.to_nat i) l ++ src ++ drop (Z.to_nat i + length src) l) k =
    if (i <=? k) && (k <? i + len src) then zget src (k - i) else zget l k.
Proof.
  intros Hi Hl. unfold zget. destruct (Z.leb_spec 0 k); [|by repeat case_cond; try lia].
  assert (length (take (Z.to_nat i) l) = Z.to_nat i) as Ht by (rewrite length_take; lia).
  destruct (Z.leb_spec i k); simpl.
  - rewrite lookup_app_r by lia. rewrite Ht.
    destruct (Z.ltb_spec k (i + len src)).
    + destruct (Z.leb_spec 0 (k - i)); [|lia]. rewrite lookup_app_l by lia. f_equal. lia.
    + rewrite lookup_app_r, lookup_drop by lia. f_equal. lia.
  - rewrite lookup_app_l by lia. apply lookup_take_lt. lia.
Qed.

(** An element in the middle of an array. *)
Lemma zget_middle {A} (pre suf : list A) x : zget (pre ++ x :: suf) (len pre) = Some x.
Proof. rewrite zget_nat. by apply list_lookup_middle. Qed.

(** A loop over an array that leaves at the first element that passes a test. *)
Lemma for_ctl_find {A R} (p : A -> bool) (f : Z -> A -> res R) (l : list A) :
  for_ctl (length l) 0 (fun i (_ : unit) => x ← l.[i]; if p x then r ← f i x; Ok (Return r) else Ok (Next tt)) tt =
  match find_index p l with Some i => x ← l.[i]; r ← f i x; Ok (Return r) | None => Ok (Next tt) end.
Proof.
  assert (forall suf pre, l = pre ++ suf ->
    for_ctl (length suf) (len pre) (fun i (_ : unit) => x ← l.[i]; if p x then r ← f i x; Ok (Return r) else Ok (Next tt)) tt =
    match find_index p suf with Some i => x ← l.[len pre + i]; r ← f (len pre + i) x; Ok (Return r) | None => Ok (Next tt) end) as H; [|exact (H l [] eq_refl)].
  induction suf as [|x suf IH]; intros pre ->; [done|]. cbn [length for_ctl]. rewrite (arr_read_Ok _ _ x (zget_middle pre suf x)), bind_ret_l, find_index_cons. destruct (p x).
  - rewrite Z.add_0_r, (arr_read_Ok _ _ x (zget_middle pre suf x)), bind_ret_l. by destruct (f (len pre) x).
  - rewrite bind_ret_l. replace (len pre + 1) with (len (pre ++ [x])) by (rewrite length_app; simpl; lia).
    rewrite (IH (pre ++ [x])) by (by rewrite <- app_assoc). destruct (find_index p suf) as [i|]; [|done]. cbn [fmap option_fmap option_map].
    by replace (len (pre ++ [x]) + i) with (len pre + Z.succ i) by (rewrite length_app; simpl; lia).
Qed.

Lemma zset_middle {A} (pre suf : list A) x y : zset (pre ++ x :: suf) (len pre) y = pre ++ y :: suf.
Proof.
  unfold zset. case_cond; [|lia]. rewrite Nat2Z.id, insert_app_r_alt, Nat.sub_diag by done. done.
Qed.

(** [for (j = 0; j < n; j++) a[j] = a[j + 1];] *)
Definition shift_left {A} (n : nat) (l : list A) : res (list A) :=
  for_range n 0 (fun j l => x ← l.[j + 1]; l.[j <- x]) l.

Lemma shift_left_from {A} (pre : list A) x mid suf :
  for_range (length mid) (len pre) (fun j l => y ← l.[j + 1]; l.[j <- y]) (pre ++ x :: mid ++ suf) =
    Ok (pre ++ mid ++ List.last mid x :: suf).
Proof.
  revert pre x. induction mid as [|y mid IH]; intros pre x; [done|]. cbn [length app]. rewrite for_range_S.
  rewrite (arr_read_Ok _ _ y).
  2: { replace (pre ++ x :: y :: mid ++ suf) with ((pre ++ [x]) ++ y :: mid ++ suf) by by rewrite <- app_assoc.
       replace (len pre + 1) with (len (pre ++ [x])) by (rewrite length_app; simpl; lia). apply zget_middle. }
  rewrite bind_ret_l, arr_write_Ok by (rewrite length_app; simpl; lia). rewrite bind_ret_l, zset_middle.
  replace (len pre + 1) with (len (pre ++ [y])) by (rewrite length_app; simpl; lia).
  replace (pre ++ y :: y :: mid ++ suf) with ((pre ++ [y]) ++ y :: mid ++ suf) by by rewrite <- app_assoc.
  rewrite IH, <- app_assoc. cbn [app]. do 4 f_equal. f_equal.
  clear. revert y. induction mid as [|z mid IH]; intros y; [done|]. cbn [List.last] in *. destruct mid; [done|apply IH].
Qed.

(** The first element is dropped, the last one moved is duplicated. *)
Lemma shift_left_ok {A} (x : A) mid suf :
  shift_left (length mid) (x :: mid ++ suf) = Ok (mid ++ List.last mid x :: suf).
Proof. apply (shift_left_from []). Qed.

Lemma Forall_zset {A} (P : A -> Prop) l i x : Forall P l -> P x -> Forall P (zset l i x).
Proof. intros Hl Hx. unfold zset. case_cond; [|done]. by apply Forall_insert. Qed.

(** Sum of a field over an array. *)
Definition total {A} (f : A -> Z) (l : list A) : Z := foldr (fun x acc => f x + acc) 0 l.

Lemma field_total_app {A} (f : A -> Z) l1 l2 : total f (l1 ++ l2) = total f l1 + total f l2.
Proof. induction l1 as [|x l1 IH]; simpl; [done|]. rewrite IH. lia. Qed.

Lemma field_total_nonneg {A} (f : A -> Z) l : Forall (fun x => 0 <= f x) l -> 0 <= total f l.
Proof. induction 1 as [|x l Hx _ IH]; simpl; lia. Qed.

Lemma total_fmap {A B} (g : B -> Z) (f : A -> B) l : total (fun x => g (f x)) l = total g (f <$> l).
Proof. induction l as [|x l IH]; simpl; [done|]. by rewrite IH. Qed.

Lemma total_ext {A} (f g : A -> Z) l : (forall x, x ∈ l -> f x = g x) -> total f l = total g l.
Proof.
  induction l as [|x l IH]; intros H; simpl; [done|]. rewrite IH by (intros y Hy; apply H; by apply list_elem_of_further).
  by rewrite H by apply list_elem_of_here.
Qed.

Lemma total_perm {A} (f : A -> Z) l1 l2 : Permutation l1 l2 -> total f l1 = total f l2.
Proof. induction 1; simpl; lia. Qed.

Lemma total_zset {A} (f : A -> Z) l i x y :
  zget l i = Some x -> total f (zset l i y) = total f l - f x + f y.
Proof.
  intros E. pose proof (zget_Some_range _ _ _ E) as Hi. unfold zget, zset in *.
  destruct (0 <=? i); [|done]. rewrite <- (take_drop_middle l (Z.to_nat i) x) at 2 by done.
  rewrite insert_take_drop by lia. rewrite !field_total_app. simpl. lia.
Qed.

Lemma total_mono {A} (f g : A -> Z) l : Forall (fun x => f x <= g x) l -> total f l <= total g l.
Proof. induction 1 as [|x l Hx _ IH]; simpl; lia. Qed.

Lemma total_zero_all {A} (f : A -> Z) l :
  Forall (fun x => 0 <= f x) l -> total f l <= 0 -> Forall (fun x => f x = 0) l.
Proof.
  induction 1 as [|x l Hx Hl IH]; simpl; intros H; [constructor|].
  pose proof (field_total_nonneg f l Hl). constructor; [lia|]. apply IH. lia.
Qed.

Lemma total_member {A} (f : A -> Z) l i x :
  Forall (fun x => 0 <= f x) l -> zget l i = Some x -> f x <= total f l.
Proof.
  intros Hl. revert i. induction Hl as [|y l Hy Hl IH]; intros i; [by rewrite zget_nil|].
  rewrite zget_cons. pose proof (field_total_nonneg f l Hl). simpl. case_cond.
  - intros [= <-]. lia.
  - intros E%IH. lia.
Qed.

(** Arrays with the same elements are equal. *)
Lemma list_eq_zget {A} (l k : list A) :
  length l = length k -> (forall i, 0 <= i < len l -> zget l i = zget k i) -> l = k.
Proof.
  intros Hlen H. apply list_eq_same_length with (length k); [done|done|]. intros i x y Hi Hx Hy.
  specialize (H (Z.of_nat i) ltac:(lia)). unfold zget in H. rewrite Nat2Z.id in H.
  replace (0 <=? Z.of_nat i) with true in H by lia. congruence.
Qed.

Lemma zget_seqZ m n i : 0 <= i < n -> zget (seqZ m n) i = Some (m + i).
Proof. intros Hi. unfold zget. case_cond; [|lia]. rewrite lookup_seqZ_lt by lia. f_equal. lia. Qed.

(** Every element of an array written in turn. *)
Lemma fill_row {F} (rnd : Z -> F) (n : nat) (row : list F) :
  length row = n -> for_range n 0 (fun j row => row.[j <- rnd j]) row = Ok (rnd <$> seqZ 0 (Z.of_nat n)).
Proof.
  intros Hlen.
  destruct (for_range_inv (fun j r => length r = n /\ forall q, 0 <= q < j -> zget r q = Some (rnd q)) n 0
    (fun j r => r.[j <- rnd j]) row) as (r & -> & Hl & Hr).
  - split; [done|lia].
  - intros j r Hj [Hl Hr]. rewrite arr_write_Ok by lia. eexists. split; [done|]. rewrite length_zset. split; [done|].
    intros q Hq. rewrite zget_zset. unfold in_range. case_cond; [f_equal; f_equal; lia|]. apply Hr. lia.
  - f_equal. apply list_eq_zget; [rewrite length_fmap, length_seqZ; lia|].
    intros q Hq. rewrite Hr by lia. rewrite zget_fmap, zget_seqZ by lia. done.
Qed.

(** ** Strings in arrays of 50 characters *)

(** [strncpy] of a string into the first 49 characters, zeros included, and the
    terminator after them. *)
Definition stored_name (s : list Z) : list Z :=
  take 49 s ++ replicate (49 - length (take 49 s)) 0 ++ [0].

(** The string an array holds. *)
Fixpoint c_string (l : list Z) : list Z :=
  match l with
  | [] => []
  | c :: l => if c =? 0 then [] else c :: c_string l
  end.

Lemma c_string_before s l : c_string (s ++ 0 :: l) = c_string s.
Proof. induction s as [|c s IH]; simpl; [done|]. destruct (c =? 0); [done|]. by rewrite IH. Qed.

(** Bytes copied to the start of a buffer, with a terminator after them. *)
Lemma terminated_copy (b bytes : list Z) : len bytes < len b ->
  (b1 ← copy_to b 0 bytes; b1.[len bytes <- 0]) = Ok (bytes ++ 0 :: drop (S (length bytes)) b).
Proof.
  intros Hl. rewrite copy_to_Ok, bind_ret_l by lia. change (take (Z.to_nat 0) b) with (@nil Z). simpl app.
  replace (Z.to_nat 0 + length bytes)%nat with (length bytes) by lia.
  destruct (drop (length bytes) b) as [|x t] eqn:E; [apply (f_equal length) in E; rewrite length_drop in E; simpl in E; lia|].
  rewrite arr_write_Ok by (rewrite length_app; simpl; lia). rewrite zset_middle. do 3 f_equal.
  replace (S (length bytes)) with (length bytes + 1)%nat by lia. by rewrite <- drop_drop, E.
Qed.

Lemma c_string_app s l : Forall (fun c => c <> 0) s -> c_string (s ++ 0 :: l) = s.
Proof. induction 1 as [|c s Hc _ IH]; simpl; [done|]. destruct (Z.eqb_spec c 0); [done|]. by rewrite IH. Qed.

Lemma stored_name_string s : Forall (fun c => c <> 0) s -> len (stored_name s) = 50 /\ c_string (stored_name s) = take 49 s.
Proof.
  intros Hs. unfold stored_name. split; [rewrite !length_app, length_replicate, length_take; change (length [0]) with 1%nat; lia|].
  assert (exists l, replicate (49 - length (take 49 s)) 0 ++ [0] = 0 :: l) as [l ->].
  { destruct (49 - length (take 49 s))%nat; simpl; by eexists. }
  apply c_string_app. by apply Forall_take.
Qed.
