(* ===== verification/Ring.v ===== *)
(** * Ring buffers and the bounded-FIFO interface

    Most queues of the repository are circular arrays: an array, the index of
    the oldest element and a number of elements.  This file has the theory
    they share ([window], the elements of such a queue in order) and the
    interface between a queue and the schedulers that use it: a class
    [BoundedFifo] of operations, a class [FifoLaws] of what the operations
    promise in terms of the list of elements, and the client theorem
    [run_fifo_refines] that every interleaving of operations on a lawful queue
    behaves like the specification queue. *)
From Stdlib Require Import ZArith Lia.
From stdpp Require Import base tactics list numbers option.
From S2P Require Import Prelude.

#[local] Open Scope Z_scope.
#[local] Open Scope c_scope.

(** The [n] elements of the circular array [d] from index [h] on. *)
Fixpoint window {A} (d : list A) (h : Z) (n : nat) : list A :=
  match n with
  | O => []
  | S n' =>
      match zget d h with
      | Some x => x :: window d ((h + 1) mod len d) n'
      | None => []
      end
  end.

(** ** The specification: a list with a capacity *)

Definition spec_enq {A} (cap : nat) (x : A) (l : list A) : bool * list A :=
  if (length l <? cap)%nat then (true, l ++ [x]) else (false, l).

Definition spec_deq {A} (l : list A) : option A * list A :=
  match l with
  | [] => (None, [])
  | x :: l' => (Some x, l')
  end.

Inductive fifo_op (A : Type) : Type :=
| Enq (x : A)
| Deq.
Arguments Enq {A} _.
Arguments Deq {A}.

(** The answer to an [Enq] is whether it was accepted, to a [Deq] the element
    removed, if any. *)
Inductive fifo_ans (A : Type) : Type :=
| Accepted (b : bool)
| Removed (x : option A).
Arguments Accepted {A} _.
Arguments Removed {A} _.

Fixpoint spec_run {A} (cap : nat) (ops : list (fifo_op A)) (l : list A)
    : list (fifo_ans A) * list A :=
  match ops with
  | [] => ([], l)
  | Enq x :: ops' =>
      let '(b, l1) := spec_enq cap x l in
      let '(tr, l2) := spec_run cap ops' l1 in (Accepted b :: tr, l2)
  | Deq :: ops' =>
      let '(o, l1) := spec_deq l in
      let '(tr, l2) := spec_run cap ops' l1 in (Removed o :: tr, l2)
  end.

(** ** The interface *)

Class BoundedFifo (Q A : Type) : Type := {
  fifo_ok : Q -> Prop;
  fifo_abs : Q -> list A;
  fifo_cap : Q -> nat;
  fifo_enq : Q -> A -> res (bool * Q);
  fifo_deq : Q -> res (option A * Q)
}.

Class FifoLaws (Q A : Type) `{BoundedFifo Q A} : Prop := {
  fifo_enq_law : forall (q : Q) (x : A), fifo_ok q ->
    exists b q', fifo_enq q x = Ok (b, q') /\ fifo_ok q' /\
      fifo_cap q' = fifo_cap q /\
      (b, fifo_abs q') = spec_enq (fifo_cap q) x (fifo_abs q);
  fifo_deq_law : forall (q : Q), fifo_ok q ->
    exists o q', fifo_deq q = Ok (o, q') /\ fifo_ok q' /\
      fifo_cap q' = fifo_cap q /\
      (o, fifo_abs q') = spec_deq (fifo_abs q)
}.

Fixpoint run_fifo {Q A} `{BoundedFifo Q A} (ops : list (fifo_op A)) (q : Q)
    : res (list (fifo_ans A) * Q) :=
  match ops with
  | [] => Ok ([], q)
  | Enq x :: ops' =>
      '(b, q1) ← fifo_enq q x;
      '(tr, q2) ← run_fifo ops' q1; Ok (Accepted b :: tr, q2)
  | Deq :: ops' =>
      '(o, q1) ← fifo_deq q;
      '(tr, q2) ← run_fifo ops' q1; Ok (Removed o :: tr, q2)
  end.

(** ** Windows *)

Section window.
Context {A : Type}.
Implicit Types (d : list A) (h i : Z) (n k : nat) (x : A).

Lemma ring_next_range d h : 0 <= h < len d -> 0 <= (h + 1) mod len d < len d.
Proof. intros. apply Z.mod_pos_bound. lia. Qed.

Lemma ring_index_S d h n :
  0 <= h < len d -> ((h + 1) mod len d + Z.of_nat n) mod len d = (h + Z.of_nat (S n)) mod len d.
Proof. intros. rewrite Zplus_mod_idemp_l. f_equal. lia. Qed.

Lemma length_window d h n : 0 <= h < len d -> length (window d h n) = n.
Proof.
  revert h. induction n as [|n IH]; intros h Hh; simpl; [done|].
  destruct (zget_range d h Hh) as [x ->]. simpl.
  by rewrite IH by by apply ring_next_range.
Qed.

Lemma window_lookup d h n k :
  0 <= h < len d -> (k < n)%nat ->
  window d h n !! k = zget d ((h + Z.of_nat k) mod len d).
Proof.
  revert h k. induction n as [|n IH]; intros h k Hh Hk; [lia|]. simpl.
  destruct (zget_range d h Hh) as [x Hx]. rewrite Hx. destruct k as [|k]; simpl.
  - rewrite Z.add_0_r, Z.mod_small by lia. done.
  - rewrite IH by (try apply ring_next_range; lia). by rewrite ring_index_S.
Qed.

Lemma window_ext d d' h h' n :
  0 <= h < len d -> 0 <= h' < len d' ->
  (forall k, (k < n)%nat ->
     zget d ((h + Z.of_nat k) mod len d) = zget d' ((h' + Z.of_nat k) mod len d')) ->
  window d h n = window d' h' n.
Proof.
  intros Hh Hh' Heq. apply list_eq. intros k.
  destruct (decide (k < n)%nat).
  - rewrite !window_lookup by done. by apply Heq.
  - rewrite !(proj2 (lookup_ge_None _ _)); [done|rewrite length_window by done; lia..].
Qed.

Lemma window_snoc d h n x :
  0 <= h < len d -> zget d ((h + Z.of_nat n) mod len d) = Some x ->
  window d h (S n) = window d h n ++ [x].
Proof.
  revert h. induction n as [|n IH]; intros h Hh Hx.
  - rewrite Z.add_0_r, Z.mod_small in Hx by lia. simpl. by rewrite Hx.
  - change (window d h (S (S n))) with
      (match zget d h with Some y => y :: window d ((h + 1) mod len d) (S n) | None => [] end).
    destruct (zget_range d h Hh) as [y Hy]. rewrite Hy.
    rewrite IH; [|by apply ring_next_range|by rewrite ring_index_S].
    simpl. by rewrite Hy.
Qed.

(** Fewer than [len d] consecutive positions of the ring are distinct. *)
Lemma ring_index_inj d h (a b : nat) :
  (a < length d)%nat -> (b < length d)%nat ->
  (h + Z.of_nat a) mod len d = (h + Z.of_nat b) mod len d -> a = b.
Proof.
  intros Ha Hb H.
  pose proof (Z.div_mod (h + Z.of_nat a) (len d)).
  pose proof (Z.div_mod (h + Z.of_nat b) (len d)).
  set (p := (h + Z.of_nat a) / len d) in *.
  set (q := (h + Z.of_nat b) / len d) in *.
  assert (Z.of_nat a - Z.of_nat b = len d * (p - q)) by lia.
  assert (p - q = 0 \/ 1 <= p - q \/ p - q <= -1) as [?|[?|?]] by lia; nia.
Qed.

Lemma window_zset_out d h n i x :
  0 <= h < len d ->
  (forall k, (k < n)%nat -> (h + Z.of_nat k) mod len d <> i) ->
  window (zset d i x) h n = window d h n.
Proof.
  intros Hh Hi. apply window_ext; rewrite ?length_zset; [done..|].
  intros k Hk. rewrite zget_zset_ne; [done|]. intros He. by apply (Hi k).
Qed.

(** Storing behind the last element appends it. *)
Lemma window_enqueue d h n x :
  0 <= h < len d -> (n < length d)%nat ->
  window (zset d ((h + Z.of_nat n) mod len d) x) h (S n) = window d h n ++ [x].
Proof.
  intros Hh Hn. rewrite (window_snoc _ _ _ x).
  - f_equal. apply window_zset_out; [done|].
    intros k Hk He. apply ring_index_inj in He; lia.
  - by rewrite length_zset.
  - rewrite length_zset. apply zget_zset_eq. apply Z.mod_pos_bound. lia.
Qed.

(** Stepping over the first element removes it. *)
Lemma window_dequeue d h n x :
  zget d h = Some x -> window d h (S n) = x :: window d ((h + 1) mod len d) n.
Proof. intros H. simpl. by rewrite H. Qed.

(** A window at index 0 is a prefix of the array. *)
Lemma window_prefix d n : (n <= length d)%nat -> window d 0 n = take n d.
Proof.
  intros Hn. apply list_eq. intros k. destruct (decide (k < n)%nat).
  - rewrite window_lookup by lia. rewrite Z.add_0_l, Z.mod_small by lia.
    rewrite zget_nat. by rewrite lookup_take_lt by done.
  - destruct n as [|n]; [done|].
    rewrite !(proj2 (lookup_ge_None _ _)); [done| |].
    + rewrite length_take. lia.
    + rewrite length_window by lia. lia.
Qed.
End window.

(** Filling an array from the front. *)
Lemma take_zset_snoc {A} (l : list A) (i : Z) (x : A) :
  0 <= i < len l ->
  take (Z.to_nat (i + 1)) (zset l i x) = take (Z.to_nat i) l ++ [x].
Proof.
  intros Hi. replace (Z.to_nat (i + 1)) with (S (Z.to_nat i)) by lia.
  rewrite (take_S_r _ _ x).
  - f_equal. unfold zset. case_cond; [|lia]. by rewrite take_insert_ge by lia.
  - unfold zset. case_cond; [|lia]. apply list_lookup_insert_eq. lia.
Qed.

(** ** The client theorem *)

Lemma run_fifo_refines {Q A} `{FifoLaws Q A} (ops : list (fifo_op A)) (q : Q) :
  fifo_ok q ->
  exists q', run_fifo ops q = Ok ((spec_run (fifo_cap q) ops (fifo_abs q)).1, q') /\
    fifo_ok q' /\ fifo_cap q' = fifo_cap q /\
    fifo_abs q' = (spec_run (fifo_cap q) ops (fifo_abs q)).2.
Proof.
  revert q. induction ops as [|[x|] ops IH]; intros q Hq; simpl; [by exists q|..].
  - destruct (fifo_enq_law q x Hq) as (b & q1 & He & Hq1 & Hc & Ha).
    rewrite He, bind_ret_l. rewrite <- Ha.
    destruct (IH q1 Hq1) as (q2 & Hr & Hq2 & Hc2 & Ha2).
    rewrite Hr, bind_ret_l. rewrite Hc in *.
    destruct (spec_run _ ops (fifo_abs q1)). exists q2. naive_solver.
  - destruct (fifo_deq_law q Hq) as (o & q1 & He & Hq1 & Hc & Ha).
    rewrite He, bind_ret_l. rewrite <- Ha.
    destruct (IH q1 Hq1) as (q2 & Hr & Hq2 & Hc2 & Ha2).
    rewrite Hr, bind_ret_l. rewrite Hc in *.
    destruct (spec_run _ ops (fifo_abs q1)). exists q2. naive_solver.
Qed.
