(* ===== verification/CircularQueue.v ===== *)
(** * The circular queue of [utils/circularQueue.c]

    A dynamically allocated circular array of [int].  A [Queue*] argument is
    an [option Queue] ([None] is [NULL]); the contents of a [malloc]ed block
    are an argument of the operation that allocates ([None] when [malloc]
    returns [NULL]), so the theorems hold whatever garbage it holds.  What the
    program prints is returned as data. *)
From Stdlib Require Import ZArith Lia.
From stdpp Require Import base tactics list numbers option strings.
From S2P Require Import Prelude Ring.

#[local] Open Scope Z_scope.
#[local] Open Scope c_scope.

Inductive QueueError : Type :=
| QUEUE_SUCCESS
| QUEUE_ERROR_FULL
| QUEUE_ERROR_EMPTY
| QUEUE_ERROR_MEMORY
| QUEUE_ERROR_INVALID.

Definition QUEUE_EMPTY : Z := INT_MIN.

#[export] Instance QueueError_eq_dec : EqDecision QueueError.
Proof. solve_decision. Defined.

Record Queue : Type := mkQueue {
  values : option (list Z);
  head : Z;
  tail : Z;
  num_entries : Z;
  size : Z;
  initialized : bool
}.

(** [values[i]] through a pointer that may be [NULL]. *)
Definition deref {A} (p : option (list A)) : res (list A) :=
  match p with Some d => Ok d | None => Fault NullDeref end.

Definition queue_init (q : option Queue) (sz : Z) (block : option (list Z))
    : QueueError * option Queue :=
  match q with
  | None => (QUEUE_ERROR_INVALID, None)
  | Some q =>
      if sz <=? 0 then (QUEUE_ERROR_INVALID, Some q)
      else match block with
           | None =>
               (QUEUE_ERROR_MEMORY,
                Some (mkQueue None (head q) (tail q) (num_entries q) (size q)
                        (initialized q)))
           | Some d => (QUEUE_SUCCESS, Some (mkQueue (Some d) 0 0 0 sz true))
           end
  end.

Definition queue_destroy (q : option Queue) : QueueError * option Queue :=
  match q with
  | None => (QUEUE_ERROR_INVALID, None)
  | Some q =>
      if negb (initialized q) then (QUEUE_ERROR_INVALID, Some q)
      else (QUEUE_SUCCESS, Some (mkQueue None 0 0 0 0 false))
  end.

Definition queue_empty (q : option Queue) : res bool :=
  match q with
  | Some q =>
      if initialized q then Ok (num_entries q =? 0) else Fault AssertFail
  | None => Fault AssertFail
  end.

Definition queue_full (q : option Queue) : res bool :=
  match q with
  | Some q =>
      if initialized q then Ok (num_entries q =? size q) else Fault AssertFail
  | None => Fault AssertFail
  end.

Definition queue_enqueue (q : option Queue) (value : Z)
    : res (QueueError * option Queue) :=
  match q with
  | None => Ok (QUEUE_ERROR_INVALID, None)
  | Some q =>
      if negb (initialized q) then Ok (QUEUE_ERROR_INVALID, Some q)
      else
        full ← queue_full (Some q);
        if (full : bool) then Ok (QUEUE_ERROR_FULL, Some q)
        else
          d ← deref (values q);
          d' ← d.[tail q <- value];
          t ← iadd (tail q) 1;
          t' ← imod t (size q);
          n ← iadd (num_entries q) 1;
          Ok (QUEUE_SUCCESS,
              Some (mkQueue (Some d') (head q) t' n (size q) (initialized q)))
  end.

(** [result] is what the [int* result] argument points to ([None]: [NULL]). *)
Definition queue_dequeue (q : option Queue) (result : option Z)
    : res (QueueError * option Queue * option Z) :=
  match q, result with
  | Some q, Some r =>
      if negb (initialized q) then Ok (QUEUE_ERROR_INVALID, Some q, Some r)
      else
        empty ← queue_empty (Some q);
        if (empty : bool) then Ok (QUEUE_ERROR_EMPTY, Some q, Some r)
        else
          d ← deref (values q);
          v ← d.[head q];
          h ← iadd (head q) 1;
          h' ← imod h (size q);
          n ← isub (num_entries q) 1;
          Ok (QUEUE_SUCCESS,
              Some (mkQueue (values q) h' (tail q) n (size q) (initialized q)),
              Some v)
  | _, _ => Ok (QUEUE_ERROR_INVALID, q, result)
  end.

Definition queue_peek (q : option Queue) : res Z :=
  match q with
  | None => Ok QUEUE_EMPTY
  | Some q =>
      if negb (initialized q) then Ok QUEUE_EMPTY
      else
        empty ← queue_empty (Some q);
        if (empty : bool) then Ok QUEUE_EMPTY
        else d ← deref (values q); d.[head q]
  end.

Definition queue_size (q : option Queue) : res Z :=
  match q with
  | Some q => if initialized q then Ok (num_entries q) else Fault AssertFail
  | None => Fault AssertFail
  end.

Definition queue_clear (q : option Queue) : QueueError * option Queue :=
  match q with
  | None => (QUEUE_ERROR_INVALID, None)
  | Some q =>
      if negb (initialized q) then (QUEUE_ERROR_INVALID, Some q)
      else (QUEUE_SUCCESS,
            Some (mkQueue (values q) 0 0 0 (size q) (initialized q)))
  end.

(** One pass of the copy loop of [queue_resize]: the state is the queue, the
    new array and [count].  The local [value] is overwritten by the dequeue,
    which cannot fail on a queue that is initialized and not empty. *)
Definition resize_pass (st : Queue * list Z * Z)
    : res (ctl (Queue * list Z * Z) (Queue * list Z * Z)) :=
  let '(q, new_values, count) := st in
  empty ← queue_empty (Some q);
  if (empty : bool) then Ok (Return (q, new_values, count))
  else
    '(_, q', value) ← queue_dequeue (Some q) (Some 0);
    match q', value with
    | Some q', Some value =>
        new_values' ← new_values.[count <- value];
        count' ← iadd count 1;
        Ok (Next (q', new_values', count'))
    | _, _ => Fault NullDeref
    end.

Definition queue_resize (q : option Queue) (new_size : Z) (block : option (list Z))
    : res (QueueError * option Queue) :=
  match q with
  | None => Ok (QUEUE_ERROR_INVALID, None)
  | Some q =>
      if negb (initialized q) || (new_size <=? 0)
      then Ok (QUEUE_ERROR_INVALID, Some q)
      else if new_size <? num_entries q then Ok (QUEUE_ERROR_INVALID, Some q)
      else match block with
           | None => Ok (QUEUE_ERROR_MEMORY, Some q)
           | Some new_values =>
               '(q1, new_values1, count) ←
                 loop (S (Z.to_nat (num_entries q))) resize_pass (q, new_values, 0);
               Ok (QUEUE_SUCCESS,
                   Some (mkQueue (Some new_values1) 0 count count new_size
                           (initialized q1)))
           end
  end.

(** What [queue_print] writes: the cells as [(index, value)] pairs. *)
Inductive printed : Type :=
| PrintInvalid
| PrintEmpty
| PrintContents (h t n : Z) (cells : list (Z * Z)).

Fixpoint print_cells (d : list Z) (sz : Z) (n : nat) (current : Z)
    : res (list (Z * Z)) :=
  match n with
  | O => Ok []
  | S n' =>
      v ← d.[current];
      c ← iadd current 1;
      c' ← imod c sz;
      rest ← print_cells d sz n' c';
      Ok ((current, v) :: rest)
  end.

Definition queue_print (q : option Queue) : res printed :=
  match q with
  | None => Ok PrintInvalid
  | Some q =>
      if negb (initialized q) then Ok PrintInvalid
      else
        empty ← queue_empty (Some q);
        if (empty : bool) then Ok PrintEmpty
        else
          d ← deref (values q);
          cells ← print_cells d (size q) (Z.to_nat (num_entries q)) (head q);
          Ok (PrintContents (head q) (tail q) (num_entries q) cells)
  end.

(** ** The test driver

    The log of [run_comprehensive_tests], without its headings. *)
Inductive log : Type :=
| LogResult (operation : string) (label : string)
| LogStatus (sz entries : Z)
| LogQueue (p : printed)
| LogEnqueuing (v : Z)
| LogDequeued (v : Z)
| LogNewSize (sz : Z)
| LogPeek (v : Z).

Definition print_operation_result (operation : string) (result : QueueError) : log :=
  LogResult operation
    match result with
    | QUEUE_SUCCESS => "SUCCESS"
    | QUEUE_ERROR_FULL => "QUEUE FULL"
    | QUEUE_ERROR_EMPTY => "QUEUE EMPTY"
    | QUEUE_ERROR_MEMORY => "MEMORY ERROR"
    | QUEUE_ERROR_INVALID => "INVALID OPERATION"
    end.

(** [for (i = 1; i <= n; i++) enqueue(i * step)], printing the queue after
    each call when [show] is set. *)
Fixpoint enqueue_test (n : nat) (i step : Z) (show : bool) (q : option Queue)
    : res (list log * option Queue) :=
  match n with
  | O => Ok ([], q)
  | S n' =>
      v ← imul i step;
      '(err, q1) ← queue_enqueue q v;
      shown ← (if show then p ← queue_print q1; Ok [LogQueue p] else Ok []);
      '(rest, q2) ← enqueue_test n' (i + 1) step show q1;
      Ok (LogEnqueuing v :: print_operation_result "Enqueue" err :: shown ++ rest, q2)
  end.

Fixpoint dequeue_test (n : nat) (q : option Queue) (result : Z)
    : res (list log * option Queue * Z) :=
  match n with
  | O => Ok ([], q, result)
  | S n' =>
      '(err, q1, r) ← queue_dequeue q (Some result);
      let result1 := default result r in
      let got := if decide (err = QUEUE_SUCCESS) then [LogDequeued result1] else [] in
      p ← queue_print q1;
      '(rest, q2, result2) ← dequeue_test n' q1 result1;
      Ok (got ++ print_operation_result "Dequeue" err :: LogQueue p :: rest, q2, result2)
  end.

(** [q0] and [r0] are the uninitialized locals [q] and [result]; [block5] and
    [block10] the two blocks that [malloc] returns. *)
Definition run_comprehensive_tests (q0 : Queue) (r0 : Z) (block5 block10 : list Z)
    : res (list log) :=
  let '(err1, q1) := queue_init (Some q0) 5 (Some block5) in
  p1 ← queue_print q1;
  '(log2, q2) ← enqueue_test 6 1 10 true q1;
  '(log3, q3, r3) ← dequeue_test 3 q2 r0;
  '(log4, q4) ← enqueue_test 3 1 100 true q3;
  let '(err5, q5) := queue_clear q4 in
  p5 ← queue_print q5;
  '(err6, q6) ← queue_enqueue q5 42;
  p6 ← queue_print q6;
  '(err7, q7) ← queue_resize q6 10 (Some block10);
  p7 ← queue_print q7;
  '(log8, q8) ← enqueue_test 8 1 5 false q7;
  p8 ← queue_print q8;
  peek_val ← queue_peek q8;
  p9 ← queue_print q8;
  '(err10, q10) ← queue_enqueue q8 999;
  let '(_, q10') := queue_clear q10 in
  '(err10', q11, _) ← queue_dequeue q10' (Some r3);
  let '(err11, _) := queue_destroy q11 in
  Ok ([print_operation_result "Initialize Queue" err1;
       LogStatus (default 0 (size <$> q1)) (default 0 (num_entries <$> q1));
       LogQueue p1]
      ++ log2 ++ log3 ++ log4
      ++ [print_operation_result "Clear Queue" err5; LogQueue p5;
          print_operation_result "Enqueue after clear" err6; LogQueue p6;
          print_operation_result "Resize to 10" err7;
          LogNewSize (default 0 (size <$> q7)); LogQueue p7]
      ++ log8
      ++ [LogQueue p8; LogPeek peek_val; LogQueue p9;
          print_operation_result "Enqueue to full queue" err10;
          print_operation_result "Dequeue from empty" err10';
          print_operation_result "Destroy Queue" err11]).

(** ** Invariant and abstraction *)

Record queue_ok (q : Queue) (d : list Z) : Prop := {
  ok_values : values q = Some d;
  ok_init : initialized q = true;
  ok_len : len d = size q;
  ok_size : 0 < size q <= INT_MAX;
  ok_head : 0 <= head q < size q;
  ok_entries : 0 <= num_entries q <= size q;
  ok_tail : tail q = (head q + num_entries q) mod size q
}.

Definition contents (q : Queue) : list Z :=
  match values q with
  | Some d => window d (head q) (Z.to_nat (num_entries q))
  | None => []
  end.

#[export] Instance circular_fifo : BoundedFifo Queue Z := {
  fifo_ok q := exists d, queue_ok q d;
  fifo_abs q := contents q;
  fifo_cap q := Z.to_nat (size q);
  fifo_enq q x :=
    '(e, q') ← queue_enqueue (Some q) x;
    Ok (bool_decide (e = QUEUE_SUCCESS), default q q');
  fifo_deq q :=
    '(e, q', r) ← queue_dequeue (Some q) (Some 0);
    Ok (if decide (e = QUEUE_SUCCESS) then r else None, default q q')
}.

(** ** Operations *)

#[local] Arguments queue_full : simpl never.
#[local] Arguments queue_empty : simpl never.
#[local] Arguments queue_enqueue : simpl never.
#[local] Arguments queue_dequeue : simpl never.

Lemma int_small z b : 0 <= z <= b -> b <= INT_MAX -> INT_MIN <= z <= INT_MAX.
Proof. unfold INT_MIN. lia. Qed.

Section operations.
Context (q : Queue) (d : list Z) (Hok : queue_ok q d).

Lemma queue_full_ok : queue_full (Some q) = Ok (num_entries q =? size q).
Proof using Hok. unfold queue_full. by rewrite (ok_init _ _ Hok). Qed.

Lemma queue_empty_ok : queue_empty (Some q) = Ok (num_entries q =? 0).
Proof using Hok. unfold queue_empty. by rewrite (ok_init _ _ Hok). Qed.

Lemma contents_ok : contents q = window d (head q) (Z.to_nat (num_entries q)).
Proof using Hok. unfold contents. by rewrite (ok_values _ _ Hok). Qed.

Lemma length_contents : len (contents q) = num_entries q.
Proof using Hok.
  rewrite contents_ok. destruct Hok. rewrite length_window by lia. lia.
Qed.

Lemma queue_enqueue_room v :
  num_entries q < size q ->
  let t := (tail q + 1) mod size q in
  let d' := zset d (tail q) v in
  let q' := mkQueue (Some d') (head q) t (num_entries q + 1) (size q) true in
  queue_enqueue (Some q) v = Ok (QUEUE_SUCCESS, Some q') /\
  queue_ok q' d' /\ contents q' = contents q ++ [v].
Proof using Hok.
  intros Hn t d' q'. rewrite contents_ok. pose proof queue_full_ok as Hfull.
  destruct Hok as [Hv Hi Hl Hs Hh He Ht].
  pose proof (Z.mod_pos_bound (head q + num_entries q) (size q)) as Hb.
  split; [|split].
  - unfold queue_enqueue. rewrite Hi. simpl. rewrite Hfull. simpl.
    rewrite Hv. simpl. by c_steps.
  - constructor; simpl; try done; try lia.
    + unfold d'. by rewrite length_zset.
    + unfold t. rewrite Ht, Zplus_mod_idemp_l. f_equal. lia.
  - unfold contents; simpl. rewrite Z2Nat.inj_add by lia.
    change (Z.to_nat 1) with 1%nat. rewrite Nat.add_1_r. unfold d'. rewrite Ht.
    rewrite <- Hl at 1.
    rewrite <- (Z2Nat.id (num_entries q)) at 1 by lia.
    apply window_enqueue; lia.
Qed.

Lemma queue_enqueue_full v :
  num_entries q = size q -> queue_enqueue (Some q) v = Ok (QUEUE_ERROR_FULL, Some q).
Proof using Hok.
  intros Hn. unfold queue_enqueue. rewrite (ok_init _ _ Hok). simpl.
  rewrite queue_full_ok. simpl. by rewrite (proj2 (Z.eqb_eq _ _) Hn).
Qed.

Lemma queue_dequeue_some r :
  0 < num_entries q ->
  exists x,
    let q' := mkQueue (Some d) ((head q + 1) mod size q) (tail q)
                (num_entries q - 1) (size q) true in
    queue_dequeue (Some q) (Some r) = Ok (QUEUE_SUCCESS, Some q', Some x) /\
    zget d (head q) = Some x /\
    queue_ok q' d /\ contents q = x :: contents q'.
Proof using Hok.
  intros Hn. rewrite contents_ok. pose proof queue_empty_ok as Hempty.
  destruct Hok as [Hv Hi Hl Hs Hh He Ht].
  destruct (zget_range d (head q)) as [x Hx]; [lia|].
  pose proof (Z.mod_pos_bound (head q + 1) (size q)).
  exists x. split_and!.
  - unfold queue_dequeue. rewrite Hi. simpl. rewrite Hempty. simpl.
    rewrite Hv. simpl. by c_steps.
  - done.
  - constructor; simpl; try done; try lia.
    rewrite Ht, Zplus_mod_idemp_l. f_equal. lia.
  - unfold contents; simpl.
    replace (Z.to_nat (num_entries q)) with (S (Z.to_nat (num_entries q - 1))) by lia.
    rewrite (window_dequeue _ _ _ _ Hx). by rewrite Hl.
Qed.

Lemma queue_dequeue_none r :
  num_entries q = 0 ->
  queue_dequeue (Some q) (Some r) = Ok (QUEUE_ERROR_EMPTY, Some q, Some r).
Proof using Hok.
  intros Hn. unfold queue_dequeue. rewrite (ok_init _ _ Hok). simpl.
  rewrite queue_empty_ok. simpl. by rewrite Hn.
Qed.

Lemma contents_nil : contents q = [] <-> num_entries q = 0.
Proof using Hok.
  rewrite <- length_contents. destruct (contents q); simpl; [done|]. split; [done|lia].
Qed.
End operations.

#[export] Instance circular_laws : FifoLaws Queue Z.
Proof.
  constructor.
  - intros q x [d Hok]. unfold spec_enq. simpl.
    pose proof (length_contents q d Hok). pose proof (ok_entries _ _ Hok).
    destruct (decide (num_entries q = size q)) as [Hf|Hf].
    + rewrite (queue_enqueue_full q d Hok) by done. simpl.
      exists false, q. split_and!; [done|by exists d|done|].
      destruct (Nat.ltb_spec (length (contents q)) (Z.to_nat (size q))); [lia|done].
    + destruct (queue_enqueue_room q d Hok x) as (He & Hok' & Hc); [lia|].
      rewrite He. simpl. eexists true, _. split_and!; [done|by eexists|done|].
      rewrite Hc.
      destruct (Nat.ltb_spec (length (contents q)) (Z.to_nat (size q))); [done|lia].
  - intros q [d Hok]. simpl.
    pose proof (ok_entries _ _ Hok).
    destruct (decide (num_entries q = 0)) as [Hf|Hf].
    + rewrite (queue_dequeue_none q d Hok) by done. simpl.
      exists None, q. split_and!; [done|by exists d|done|].
      by rewrite (proj2 (contents_nil q d Hok) Hf).
    + destruct (queue_dequeue_some q d Hok 0) as (x & He & _ & Hok' & Hc); [lia|].
      rewrite He. simpl. eexists (Some x), _. split_and!; [done|by eexists|done|].
      by rewrite Hc.
Qed.

Lemma queue_init_ok q0 sz d :
  0 < sz <= INT_MAX -> len d = sz ->
  exists q, queue_init (Some q0) sz (Some d) = (QUEUE_SUCCESS, Some q) /\
    queue_ok q d /\ size q = sz /\ contents q = [].
Proof.
  intros Hsz Hd. eexists. unfold queue_init. case_cond; [lia|].
  split; [done|]. split; [|done].
  by constructor; simpl; try lia.
Qed.

(** ** Resizing *)

(** The copy loop moves the elements, oldest first, to the front of the new
    array and leaves the old queue empty. *)
Lemma resize_loop_ok q d nv :
  queue_ok q d -> num_entries q <= len nv ->
  exists r, loop (S (Z.to_nat (num_entries q))) resize_pass (q, nv, 0) = Ok r /\
    exists q1 nv1, r = (q1, nv1, num_entries q) /\ initialized q1 = true /\
      length nv1 = length nv /\ take (Z.to_nat (num_entries q)) nv1 = contents q.
Proof.
  intros Hok Hnv.
  apply (loop_total
    (fun st => let '(q1, nv1, count) := st in
       queue_ok q1 d /\ length nv1 = length nv /\ 0 <= count /\
       count + num_entries q1 = num_entries q /\
       take (Z.to_nat count) nv1 ++ contents q1 = contents q)
    (fun r => exists q1 nv1, r = (q1, nv1, num_entries q) /\ initialized q1 = true /\
      length nv1 = length nv /\ take (Z.to_nat (num_entries q)) nv1 = contents q)
    (fun st => Z.to_nat (num_entries st.1.1))).
  - intros [[q1 nv1] count] (Hok1 & Hl & Hc & Hn & Ht).
    unfold resize_pass. rewrite (queue_empty_ok q1 d Hok1). simpl.
    destruct (Z.eqb_spec (num_entries q1) 0) as [H0|H0].
    + eexists. split; [done|]. simpl. exists q1, nv1.
      replace count with (num_entries q) in * by lia.
      rewrite (proj2 (contents_nil q1 d Hok1) H0), app_nil_r in Ht.
      by rewrite (ok_init _ _ Hok1).
    + pose proof (ok_entries _ _ Hok1). pose proof (ok_entries _ _ Hok).
      pose proof (ok_size _ _ Hok).
      destruct (queue_dequeue_some q1 d Hok1 0) as (x & He & _ & Hok2 & Hc2); [lia|].
      rewrite He. simpl.
      eexists. split.
      * c_steps. done.
      * simpl. split_and!; [done|by rewrite length_zset|lia|lia| |lia].
        rewrite take_zset_snoc by lia. rewrite <- Ht, Hc2, <- app_assoc. done.
  - simpl. split_and!; [done|done|lia|lia|done].
  - simpl. lia.
Qed.

Lemma queue_resize_result q d new_size nv :
  queue_ok q d -> 0 < new_size -> num_entries q <= new_size -> len nv = new_size ->
  exists nv1,
    queue_resize (Some q) new_size (Some nv) =
      Ok (QUEUE_SUCCESS,
          Some (mkQueue (Some nv1) 0 (num_entries q) (num_entries q) new_size true)) /\
    len nv1 = new_size /\ take (Z.to_nat (num_entries q)) nv1 = contents q.
Proof.
  intros Hok Hs Hn Hl.
  destruct (resize_loop_ok q d nv Hok) as (r & Hr & q1 & nv1 & -> & Hi & Hl1 & Ht); [lia|].
  exists nv1. unfold queue_resize. rewrite (ok_init _ _ Hok). cbn [negb orb].
  case_cond; [lia|]. case_cond; [lia|].
  rewrite Hr. rewrite bind_ret_l, Hi. split_and!; [done|lia|done].
Qed.

(** ** Properties *)

(** C1.  Whatever garbage [malloc] returns, an initialized queue of capacity
    [sz] behaves, under every sequence of enqueues and dequeues, exactly like a
    list with that capacity: the same elements are accepted, rejected and
    returned, in FIFO order, and no access leaves the array and no [int]
    overflows. *)
Theorem circular_queue_refines (q0 : Queue) (sz : Z) (d : list Z) (ops : list (fifo_op Z)) :
  0 < sz <= INT_MAX -> len d = sz ->
  exists q q',
    queue_init (Some q0) sz (Some d) = (QUEUE_SUCCESS, Some q) /\
    run_fifo ops q = Ok ((spec_run (Z.to_nat sz) ops []).1, q') /\
    contents q' = (spec_run (Z.to_nat sz) ops []).2.
Proof.
  intros Hsz Hd. destruct (queue_init_ok q0 sz d Hsz Hd) as (q & Hi & Hok & Hs & Hc).
  destruct (run_fifo_refines ops q) as (q' & Hr & _ & _ & Ha); [by exists d|].
  simpl in Hr, Ha. rewrite Hs, Hc in Hr, Ha. by exists q, q'.
Qed.

Lemma circular_queue_refines_witness :
  exists q q',
    queue_init (Some (mkQueue None 7 7 7 7 false)) 2 (Some [11; 12]) = (QUEUE_SUCCESS, Some q) /\
    run_fifo [Enq 1; Enq 2; Enq 3; Deq; Enq 4; Deq; Deq; Deq] q =
      Ok ([Accepted true; Accepted true; Accepted false; Removed (Some 1);
           Accepted true; Removed (Some 2); Removed (Some 4); Removed None], q') /\
    contents q' = [].
Proof.
  apply (circular_queue_refines (mkQueue None 7 7 7 7 false) 2 [11; 12]
           [Enq 1; Enq 2; Enq 3; Deq; Enq 4; Deq; Deq; Deq]); [|reflexivity].
  unfold INT_MAX. lia.
Defined.

(** Resizing to a capacity above the number of entries keeps the elements
    and their order and re-establishes the invariant. *)
Theorem queue_resize_keeps_contents (q : Queue) (d : list Z) (new_size : Z) (nv : list Z) :
  queue_ok q d -> num_entries q < new_size <= INT_MAX -> len nv = new_size ->
  exists q' d',
    queue_resize (Some q) new_size (Some nv) = Ok (QUEUE_SUCCESS, Some q') /\
    queue_ok q' d' /\ size q' = new_size /\ contents q' = contents q.
Proof.
  intros Hok Hn Hl. pose proof (ok_entries _ _ Hok).
  destruct (queue_resize_result q d new_size nv Hok) as (nv1 & Hr & Hl1 & Ht); try lia.
  eexists _, nv1. split; [exact Hr|]. split_and!; [|done|].
  - constructor; simpl; try done; try lia. rewrite Z.mod_small by lia. lia.
  - unfold contents at 1. simpl. rewrite window_prefix by lia. done.
Qed.

Lemma queue_resize_keeps_contents_witness :
  exists q' d',
    queue_resize (Some (mkQueue (Some [1; 2; 3]) 2 1 2 3 true)) 4 (Some [0; 0; 0; 0])
      = Ok (QUEUE_SUCCESS, Some q') /\
    queue_ok q' d' /\ size q' = 4 /\ contents q' = [3; 1].
Proof.
  apply (queue_resize_keeps_contents (mkQueue (Some [1; 2; 3]) 2 1 2 3 true) [1; 2; 3]).
  - constructor; vm_compute; try done; split; discriminate.
  - vm_compute. split; [reflexivity|discriminate].
  - reflexivity.
Defined.

(** Resizing to exactly the number of entries, which the code accepts,
    leaves [tail] one past the array: after one dequeue the next enqueue
    writes out of bounds. *)
Theorem queue_resize_exact_overruns (q : Queue) (d nv : list Z) (v : Z) :
  queue_ok q d -> 0 < num_entries q -> len nv = num_entries q ->
  exists q1 q2 x,
    queue_resize (Some q) (num_entries q) (Some nv) = Ok (QUEUE_SUCCESS, Some q1) /\
    queue_dequeue (Some q1) (Some 0) = Ok (QUEUE_SUCCESS, Some q2, Some x) /\
    queue_enqueue (Some q2) v = Fault OutOfBounds.
Proof.
  intros Hok Hn Hl. pose proof (ok_entries _ _ Hok). pose proof (ok_size _ _ Hok).
  destruct (queue_resize_result q d (num_entries q) nv Hok) as (nv1 & Hr & Hl1 & Ht); try lia.
  destruct (zget_range nv1 0) as [x Hx]; [lia|].
  eexists _, _, x. split; [exact Hr|]. split.
  - unfold queue_dequeue, queue_empty. cbn. case_cond; [lia|]. cbn. by c_steps.
  - unfold queue_enqueue, queue_full. cbn. case_cond; [lia|]. cbn.
    rewrite arr_write_oob by lia. done.
Qed.

Lemma queue_resize_exact_overruns_witness :
  exists q1 q2 x,
    queue_resize (Some (mkQueue (Some [1; 2; 3]) 2 1 2 3 true)) 2 (Some [0; 0])
      = Ok (QUEUE_SUCCESS, Some q1) /\
    queue_dequeue (Some q1) (Some 0) = Ok (QUEUE_SUCCESS, Some q2, Some x) /\
    queue_enqueue (Some q2) 9 = Fault OutOfBounds.
Proof.
  apply (queue_resize_exact_overruns (mkQueue (Some [1; 2; 3]) 2 1 2 3 true) [1; 2; 3]).
  - constructor; vm_compute; try done; split; discriminate.
  - reflexivity.
  - reflexivity.
Defined.

(** The driver's own test suite runs to its end without a fault, and its
    "Enqueue to full queue" step, commented as one that should fail, succeeds:
    the queue holds nine of ten elements there. *)
Lemma comprehensive_tests_log q0 r0 (b5 b10 : list Z) :
  length b5 = 5%nat -> length b10 = 10%nat ->
  exists l, run_comprehensive_tests q0 r0 b5 b10 = Ok l /\
    drop (length l - 3)%nat l =
      [LogResult "Enqueue to full queue" "SUCCESS";
       LogResult "Dequeue from empty" "QUEUE EMPTY";
       LogResult "Destroy Queue" "SUCCESS"].
Proof.
  intros H5 H10.
  do 6 (destruct b5; try discriminate H5). do 11 (destruct b10; try discriminate H10).
  eexists. split; vm_compute; reflexivity.
Qed.
