(* ===== verification/RequestQueue.v ===== *)
(** * The front/rear/size queue of the memory schedulers

    [accessPatterns/FirstReady-FirstComeFirstServe.c] and the three programs
    of [concurrency/scheduling/] each declare the same circular queue, with
    their own element type and capacity: [rear] is the index of the last
    element, [-1] at first, and [exit(1)] ends a dequeue of an empty queue.
    The queue is modelled once, for any element type and capacity; the files
    of the schedulers instantiate it. *)
From Stdlib Require Import ZArith Lia.
From stdpp Require Import base tactics list numbers option.
From S2P Require Import Prelude Ring.

#[local] Open Scope Z_scope.
#[local] Open Scope c_scope.

Record rqueue (A : Type) : Type := mkRQ {
  requests : list A;
  front : Z;
  rear : Z;
  size : Z
}.
Arguments mkRQ {A} _ _ _ _.
Arguments requests {A} _.
Arguments front {A} _.
Arguments rear {A} _.
Arguments size {A} _.

Definition rq_init {A} (q : rqueue A) : rqueue A := mkRQ (requests q) 0 (-1) 0.

Definition rq_empty {A} (q : rqueue A) : bool := size q =? 0.

Definition rq_full {A} (cap : Z) (q : rqueue A) : bool := size q =? cap.

Definition rq_enqueue {A} (cap : Z) (q : rqueue A) (request : A) : res (rqueue A) :=
  if rq_full cap q then Ok q
  else
    r ← iadd (rear q) 1;
    r' ← imod r cap;
    l ← (requests q).[r' <- request];
    n ← iadd (size q) 1;
    Ok (mkRQ l (front q) r' n).

Definition rq_dequeue {A} (cap : Z) (q : rqueue A) : res (A * rqueue A) :=
  if rq_empty q then Fault (Exit 1)
  else
    request ← (requests q).[front q];
    f ← iadd (front q) 1;
    f' ← imod f cap;
    n ← isub (size q) 1;
    Ok (request, mkRQ (requests q) f' (rear q) n).

(** ** Invariant and abstraction *)

Record rq_ok {A} (cap : Z) (q : rqueue A) : Prop := {
  rq_cap : 0 < cap < INT_MAX;
  rq_len : len (requests q) = cap;
  rq_front : 0 <= front q < cap;
  rq_size : 0 <= size q <= cap;
  rq_rear : -1 <= rear q < cap;
  rq_last : (rear q + 1) mod cap = (front q + size q) mod cap;
  rq_nonempty : 0 < size q -> 0 <= rear q
}.

Definition rq_list {A} (q : rqueue A) : list A :=
  window (requests q) (front q) (Z.to_nat (size q)).

Definition rq_fifo {A} (cap : Z) : BoundedFifo (rqueue A) A := {|
  fifo_ok q := rq_ok cap q;
  fifo_abs q := rq_list q;
  fifo_cap _ := Z.to_nat cap;
  fifo_enq q x := q' ← rq_enqueue cap q x; Ok (negb (rq_full cap q), q');
  fifo_deq q :=
    if rq_empty q then Ok (None, q)
    else '(x, q') ← rq_dequeue cap q; Ok (Some x, q')
|}.

Section queue.
Context {A : Type} (cap : Z).
Implicit Types (q : rqueue A) (x : A).

Lemma rq_init_ok q :
  0 < cap < INT_MAX -> len (requests q) = cap ->
  rq_ok cap (rq_init q) /\ rq_list (rq_init q) = [].
Proof.
  intros Hc Hl. split; [|done]. constructor; simpl; try done; lia.
Qed.

Lemma length_rq_list q : rq_ok cap q -> len (rq_list q) = size q.
Proof.
  intros []. unfold rq_list. rewrite length_window by lia. lia.
Qed.

Lemma rq_list_nil q : rq_ok cap q -> rq_empty q = true <-> rq_list q = [].
Proof.
  intros H. unfold rq_empty. rewrite Z.eqb_eq, <- (length_rq_list q H).
  destruct (rq_list q); simpl; split; (done || lia).
Qed.

Lemma rq_enqueue_room q x :
  rq_ok cap q -> size q < cap ->
  exists q', rq_enqueue cap q x = Ok q' /\ rq_ok cap q' /\
    size q' = size q + 1 /\ rq_list q' = rq_list q ++ [x].
Proof.
  intros [Hc Hl Hf Hs Hr Hlast Hne] Hroom. unfold rq_enqueue, rq_full, rq_list.
  pose proof (Z.mod_pos_bound (rear q + 1) cap).
  eexists. split; [by c_steps|]. split; [|split; [done|]].
  - constructor; simpl; try lia; [by rewrite length_zset|].
    rewrite Hlast, Zplus_mod_idemp_l. f_equal. lia.
  - simpl. replace (Z.to_nat (size q + 1)) with (S (Z.to_nat (size q))) by lia.
    rewrite Hlast, <- Hl. rewrite <- (Z2Nat.id (size q)) at 1 by lia.
    apply window_enqueue; lia.
Qed.

Lemma rq_enqueue_full q x :
  size q = cap -> rq_enqueue cap q x = Ok q.
Proof.
  intros H. unfold rq_enqueue, rq_full. by rewrite (proj2 (Z.eqb_eq _ _) H).
Qed.

Lemma rq_dequeue_some q :
  rq_ok cap q -> 0 < size q ->
  exists x q', rq_dequeue cap q = Ok (x, q') /\ rq_ok cap q' /\
    size q' = size q - 1 /\ rq_list q = x :: rq_list q'.
Proof.
  intros [Hc Hl Hf Hs Hr Hlast Hne] Hpos. unfold rq_dequeue, rq_empty, rq_list.
  destruct (zget_range (requests q) (front q)) as [x Hx]; [lia|].
  pose proof (Z.mod_pos_bound (front q + 1) cap).
  exists x. eexists. split; [by c_steps|]. split; [|split; [done|]].
  - constructor; simpl; try done; try lia.
    rewrite Hlast, Zplus_mod_idemp_l. f_equal. lia.
  - simpl. replace (Z.to_nat (size q)) with (S (Z.to_nat (size q - 1))) by lia.
    rewrite (window_dequeue _ _ _ _ Hx). by rewrite Hl.
Qed.

Lemma rq_dequeue_empty q : size q = 0 -> rq_dequeue cap q = Fault (Exit 1).
Proof. intros H. unfold rq_dequeue, rq_empty. by rewrite H. Qed.

Lemma rq_laws : @FifoLaws (rqueue A) A (rq_fifo cap).
Proof.
  constructor.
  - intros q x Hok. simpl in *. unfold spec_enq, rq_full.
    pose proof (length_rq_list q Hok). pose proof (rq_size _ _ Hok).
    destruct (Z.eqb_spec (size q) cap) as [Hf|Hf].
    + rewrite rq_enqueue_full by done. simpl. exists false, q.
      split_and!; [done..|].
      destruct (Nat.ltb_spec (length (rq_list q)) (Z.to_nat cap)); [lia|done].
    + destruct (rq_enqueue_room q x Hok) as (q' & -> & Hok' & _ & Ha); [lia|].
      simpl. exists true, q'. split_and!; [done..|]. rewrite Ha.
      destruct (Nat.ltb_spec (length (rq_list q)) (Z.to_nat cap)); [done|lia].
  - intros q Hok. simpl in *. pose proof (rq_size _ _ Hok).
    destruct (rq_empty q) eqn:He.
    + exists None, q. split_and!; [done..|].
      by rewrite (proj1 (rq_list_nil q Hok) He).
    + unfold rq_empty in He. zbool.
      destruct (rq_dequeue_some q Hok) as (x & q' & -> & Hok' & _ & Ha); [lia|].
      simpl. exists (Some x), q'. split_and!; [done..|]. by rewrite Ha.
Qed.

(** Enqueuing a list that fits. *)
Lemma rq_enqueue_all q (l : list A) :
  rq_ok cap q -> size q + len l <= cap ->
  exists q', foldl (fun m x => q ← m; rq_enqueue cap q x) (Ok q) l = Ok q' /\
    rq_ok cap q' /\ rq_list q' = rq_list q ++ l.
Proof.
  revert q. induction l as [|x l IH]; intros q Hok Hfit; simpl.
  - exists q. by rewrite app_nil_r.
  - simpl in Hfit. destruct (rq_enqueue_room q x Hok) as (q1 & Hq1 & Hok1 & Hs1 & Hl1); [lia|].
    rewrite Hq1. destruct (IH q1 Hok1) as (q2 & Hq2 & Hok2 & Hl2); [lia|].
    exists q2. rewrite Hl2, Hl1, <- app_assoc. done.
Qed.
End queue.

#[export] Hint Resolve rq_init_ok rq_laws : cdb.
