(* ===== verification/Select.v ===== *)
(** * Scans and exchange sorts

    Many of the programs select from an array by a scan that remembers the
    best element so far, and two of them rank with the same exchange sort.
    Both loops are stated here once, over the test the program uses. *)
From Stdlib Require Import ZArith Lia.
From stdpp Require Import base tactics list numbers option.
From S2P Require Import Prelude.

#[local] Open Scope Z_scope.
#[local] Open Scope c_scope.

(** ** The best element of an array

    One pass of [if (eligible (a[j]) && (best == NULL || better (a[j], *best)))
    best = &a[j]]; a pointer into the array is the index it points to. *)
Definition best_step {A} (eligible : A -> bool) (better : A -> A -> bool)
    (l : list A) (j : Z) (best : option Z) : res (option Z) :=
  x ← l.[j];
  if eligible x then
    match best with
    | None => Ok (Some j)
    | Some k => y ← l.[k]; Ok (if better x y then Some j else Some k)
    end
  else Ok best.

Definition scan_best {A} (eligible : A -> bool) (better : A -> A -> bool)
    (l : list A) (n : nat) : res (option Z) :=
  for_range n 0 (best_step eligible better l) None.

(** [k] is the first of the best eligible elements before index [n]. *)
Definition is_best {A} (eligible : A -> bool) (better : A -> A -> bool)
    (l : list A) (n : Z) (best : option Z) : Prop :=
  match best with
  | None => forall j x, j < n -> zget l j = Some x -> eligible x = false
  | Some k =>
      k < n /\ exists y, zget l k = Some y /\ eligible y = true /\
      forall j x, j < n -> zget l j = Some x -> eligible x = true ->
        better x y = false /\ (j < k -> better y x = true)
  end.

(** What a comparison must satisfy for the scan to be a selection. *)
Class StrictWeak {A} (better : A -> A -> bool) : Prop := {
  better_irrefl : forall x, better x x = false;
  better_trans : forall x y z, better x y = true -> better y z = true -> better x z = true;
  better_negtrans : forall x y z, better x y = false -> better y z = false -> better x z = false
}.

#[export] Instance key_lt_strict {A} (key : A -> Z) :
  StrictWeak (fun x y => key x <? key y).
Proof.
  constructor; intros *; rewrite ?Z.ltb_irrefl; intros; zbool; try done;
    rewrite ?Z.ltb_lt, ?Z.ltb_ge; lia.
Qed.

#[export] Instance key_gt_strict {A} (key : A -> Z) :
  StrictWeak (fun x y => key x >? key y).
Proof.
  constructor; intros *; rewrite !Z.gtb_ltb, ?Z.ltb_irrefl; intros; zbool; try done;
    rewrite ?Z.ltb_lt, ?Z.ltb_ge; lia.
Qed.

(** ** Exchange sort

    [for i < n - 1: for j < n - i - 1: if (less (a[j], a[j+1])) swap]. *)
Definition bubble_step {A} (less : A -> A -> res bool) (j : Z) (l : list A)
    : res (list A) :=
  a ← l.[j];
  b ← l.[j + 1];
  c ← less a b;
  if c : bool then l1 ← l.[j <- b]; l1.[j + 1 <- a] else Ok l.

Definition bubble_pass {A} (less : A -> A -> res bool) (n : Z) (i : Z) (l : list A)
    : res (list A) :=
  for_range (Z.to_nat (n - i - 1)) 0 (bubble_step less) l.

Definition bubble_sort {A} (less : A -> A -> res bool) (n : Z) (l : list A)
    : res (list A) :=
  for_range (Z.to_nat (n - 1)) 0 (bubble_pass less n) l.

Section best.
Context {A : Type} (eligible : A -> bool) (better : A -> A -> bool).
Context `{!StrictWeak better}.

Lemma best_step_ok l n best :
  0 <= n < len l -> is_best eligible better l n best ->
  exists best', best_step eligible better l n best = Ok best' /\
    is_best eligible better l (n + 1) best'.
Proof.
  intros Hn Hb. unfold best_step. destruct (zget_range l n) as [x Hx]; [lia|].
  rewrite (arr_read_Ok _ _ _ Hx). simpl.
  assert (forall j z, j < n + 1 -> zget l j = Some z -> j < n \/ (j = n /\ z = x)) as Hsplit.
  { intros j z Hj Hz. destruct (decide (j = n)) as [E|]; [|left; lia].
    right. split; [done|congruence]. }
  destruct (eligible x) eqn:Ex; [|eexists; split; [done|]].
  - destruct best as [k|]; simpl in Hb.
    + destruct Hb as (Hk & y & Hy & Ey & Hbest). rewrite (arr_read_Ok _ _ _ Hy). simpl.
      eexists. split; [done|]. destruct (better x y) eqn:Exy.
      * split; [lia|]. exists x. split_and!; [done..|]. intros j z Hj Hz Ez.
        destruct (Hsplit j z Hj Hz) as [Hj'|[-> ->]]; [|by rewrite better_irrefl; auto with lia].
        destruct (Hbest j z Hj' Hz Ez) as [H1 H2]. split.
        -- destruct (better z x) eqn:E; [|done].
           by rewrite (better_trans z x y) in H1.
        -- intros _. destruct (better x z) eqn:E; [done|].
           by rewrite (better_negtrans x z y E H1) in Exy.
      * split; [lia|]. exists y. split_and!; [done..|]. intros j z Hj Hz Ez.
        destruct (Hsplit j z Hj Hz) as [Hj'|[-> ->]]; [eauto|]. split; [done|lia].
    + eexists. split; [done|]. split; [lia|]. exists x. split_and!; [done..|].
      intros j z Hj Hz Ez. destruct (Hsplit j z Hj Hz) as [Hj'|[-> ->]].
      * by rewrite (Hb j z) in Ez.
      * rewrite better_irrefl. auto with lia.
  - destruct best as [k|]; simpl in *.
    + destruct Hb as (Hk & y & Hy & Ey & Hbest). split; [lia|]. exists y.
      split_and!; [done..|]. intros j z Hj Hz Ez.
      destruct (Hsplit j z Hj Hz) as [Hj'|[-> ->]]; [eauto|congruence].
    + intros j z Hj Hz. destruct (Hsplit j z Hj Hz) as [Hj'|[-> ->]]; eauto.
Qed.

Lemma is_best_0 l : is_best eligible better l 0 None.
Proof. intros j x Hj H%zget_Some_range. lia. Qed.

Lemma scan_best_ok l (n : nat) :
  Z.of_nat n <= len l ->
  exists best, scan_best eligible better l n = Ok best /\
    is_best eligible better l (Z.of_nat n) best.
Proof.
  intros Hn. unfold scan_best.
  destruct (for_range_inv (is_best eligible better l) n 0 (best_step eligible better l) None)
    as (r & -> & Hr); [apply is_best_0| |by exists r].
  intros j t Hj Ht. apply best_step_ok; [lia|done].
Qed.

Lemma is_best_unique l n k k' :
  is_best eligible better l n k -> is_best eligible better l n k' -> k = k'.
Proof.
  destruct k as [k|], k' as [k'|]; simpl; [| | |done].
  - intros (? & y & Hy & Ey & H) (? & y' & Hy' & Ey' & H').
    destruct (H k' y') as [B1 B2]; try done. destruct (H' k y) as [B3 B4]; try done.
    f_equal. destruct (Z.lt_trichotomy k k') as [Hlt|[->|Hlt]]; [|done|].
    + by rewrite B4 in B1 by lia.
    + by rewrite B2 in B3 by lia.
  - intros (? & y & Hy & Ey & H) H'. by rewrite (H' k y) in Ey.
  - intros H' (? & y & Hy & Ey & H). by rewrite (H' k' y) in Ey.
Qed.
End best.

(** Exchanging two neighbours permutes the array. *)
Lemma zset_swap_perm {A} (l : list A) j a b :
  zget l j = Some a -> zget l (j + 1) = Some b -> zset (zset l j b) (j + 1) a ≡ₚ l.
Proof.
  intros Ha Hb. pose proof (zget_Some_range _ _ _ Ha). unfold zget, zset in *.
  repeat case_cond; try lia. replace (Z.to_nat (j + 1)) with (S (Z.to_nat j)) in * by lia.
  generalize dependent (Z.to_nat j). clear. intros n Ha Hb.
  destruct (list_elem_of_split_length l n a Ha) as (l1 & l2 & -> & ->).
  rewrite lookup_app_r in Hb by lia. replace (S _ - _)%nat with 1%nat in Hb by lia.
  destruct l2 as [|c l2]; simplify_eq/=.
  rewrite insert_app_r_alt by lia. rewrite Nat.sub_diag. simpl.
  rewrite insert_app_r_alt by lia. replace (S _ - _)%nat with 1%nat by lia. simpl.
  by rewrite (Permutation_swap a b).
Qed.

Section bubble.
Context {A : Type} (key : A -> Z) (less : A -> A -> res bool) (P : A -> Prop).
Hypothesis less_key : forall a b, P a -> P b -> less a b = Ok (key a <? key b).

(** Positions [lo, hi) hold keys no larger than every position before. *)
Definition below (l : list A) (lo hi : Z) : Prop :=
  forall i j x y, i < j -> lo <= j < hi ->
    zget l i = Some x -> zget l j = Some y -> key y <= key x.

Lemma bubble_step_ok l m n j :
  Forall P l -> 0 <= j -> j + 1 < m -> m <= n -> n <= len l ->
  below l m n -> below l j (j + 1) ->
  exists l', bubble_step less j l = Ok l' /\ l' ≡ₚ l /\
    below l' m n /\ below l' (j + 1) (j + 2) /\
    (forall k, n <= k -> zget l' k = zget l k).
Proof.
  intros HP Hj Hjm Hmn Hn Htail Hmin. unfold bubble_step.
  destruct (zget_range l j) as [a Ha]; [lia|].
  destruct (zget_range l (j + 1)) as [b Hb]; [lia|].
  rewrite (arr_read_Ok _ _ _ Ha). simpl. rewrite (arr_read_Ok _ _ _ Hb). simpl.
  assert (forall i x, zget l i = Some x -> P x) as HPx.
  { intros i x Hx. unfold zget in Hx. destruct (0 <=? i); [|done].
    by eapply Forall_lookup_1. }
  rewrite less_key by eauto. simpl. destruct (Z.ltb_spec (key a) (key b)) as [Hab|Hab].
  - rewrite arr_write_Ok by lia. simpl. rewrite arr_write_Ok by (rewrite length_zset; lia).
    eexists. split; [done|]. split; [by apply zset_swap_perm|].
    assert (forall i x, zget (zset (zset l j b) (j + 1) a) i = Some x ->
      (i = j /\ x = b) \/ (i = j + 1 /\ x = a) \/ (i <> j /\ i <> j + 1 /\ zget l i = Some x))
      as Hcase.
    { intros i x. destruct (decide (i = j + 1)) as [->|].
      - rewrite zget_zset_eq by (rewrite length_zset; lia). naive_solver.
      - rewrite zget_zset_ne by lia. destruct (decide (i = j)) as [->|].
        + rewrite zget_zset_eq by lia. naive_solver.
        + rewrite zget_zset_ne by lia. auto. }
    split_and!.
    + intros i k x y Hik Hk Hx Hy. destruct (Hcase k y Hy) as [?|[?|(_ & _ & Hy')]]; [lia..|].
      destruct (Hcase i x Hx) as [[-> ->]|[[-> ->]|(_ & _ & Hx')]].
      * apply (Htail (j + 1) k); (done || lia).
      * apply (Htail j k); (done || lia).
      * by apply (Htail i k).
    + intros i k x y Hik Hk Hx Hy. assert (k = j + 1) as -> by lia.
      rewrite zget_zset_eq in Hy by (rewrite length_zset; lia). injection Hy as <-.
      destruct (Hcase i x Hx) as [[-> ->]|[[-> ->]|(? & ? & Hx')]]; [lia..|].
      apply (Hmin i j); (done || lia).
    + intros k Hk. rewrite !zget_zset_ne by lia. done.
  - eexists. do 2 (split; [done|]). split_and!; [done| |done].
    intros i k x y Hik Hk Hx Hy. assert (k = j + 1) as -> by lia.
    rewrite Hb in Hy. injection Hy as <-. destruct (decide (i = j)) as [->|].
    + rewrite Ha in Hx. injection Hx as <-. done.
    + transitivity (key a); [done|]. apply (Hmin i j); (done || lia).
Qed.

Lemma bubble_pass_ok l n i :
  Forall P l -> n <= len l -> 0 <= i < n - 1 -> below l (n - i) n ->
  exists l', bubble_pass less n i l = Ok l' /\ l' ≡ₚ l /\
    below l' (n - (i + 1)) n /\ (forall k, n <= k -> zget l' k = zget l k).
Proof.
  intros HP Hn Hi Htail. unfold bubble_pass.
  destruct (for_range_inv (fun j l' => l' ≡ₚ l /\ below l' (n - i) n /\
      below l' j (j + 1) /\ (forall k, n <= k -> zget l' k = zget l k))
    (Z.to_nat (n - i - 1)) 0 (bubble_step less) l) as (l' & -> & Hp & Ht & Hm & Hk).
  - split_and!; try done. intros a b x y Hab Hb Hx%zget_Some_range. lia.
  - intros j t Hj (Hp & Ht & Hm & Hk).
    destruct (bubble_step_ok t (n - i) n j) as (t' & -> & Hp' & Ht' & Hm' & Hk');
      try done; try lia.
    + by rewrite Hp.
    + by rewrite (Permutation_length Hp).
    + exists t'. split; [done|]. split_and!; [by rewrite Hp'|done| |].
      * by replace (j + 1 + 1) with (j + 2) by lia.
      * intros k Hge. by rewrite Hk', Hk.
  - exists l'. split_and!; try done. intros a b x y Hab Hb Hx Hy.
    destruct (decide (b < n - i)); [apply (Hm a b)|apply (Ht a b)]; (done || lia).
Qed.

(** The sort permutes the array, leaves what is past [n] alone and orders the
    first [n] elements by decreasing key. *)
Lemma bubble_sort_ok l n :
  Forall P l -> 0 <= n <= len l ->
  exists l', bubble_sort less n l = Ok l' /\ l' ≡ₚ l /\ below l' 0 n /\
    (forall k, n <= k -> zget l' k = zget l k).
Proof.
  intros HP Hn. unfold bubble_sort.
  destruct (for_range_inv (fun i l' => l' ≡ₚ l /\ below l' (n - i) n /\
      (forall k, n <= k -> zget l' k = zget l k))
    (Z.to_nat (n - 1)) 0 (bubble_pass less n) l) as (l' & -> & Hp & Ht & Hk).
  - split_and!; try done. intros a b x y. lia.
  - intros i t Hi (Hp & Ht & Hk).
    destruct (bubble_pass_ok t n i) as (t' & -> & Hp' & Ht' & Hk'); try done; try lia.
    + by rewrite Hp.
    + rewrite (Permutation_length Hp). lia.
    + exists t'. split_and!; [done|by rewrite Hp'|done|]. intros k Hge. by rewrite Hk', Hk.
  - exists l'. split_and!; try done. intros a b x y Hab Hb Hx Hy.
    pose proof (zget_Some_range _ _ _ Hx). apply (Ht a b); (done || lia).
Qed.
End bubble.

(** The part that was sorted is a permutation of itself. *)
Lemma sorted_prefix_perm {A} (l l' : list A) (n : Z) :
  l' ≡ₚ l -> (forall k, n <= k -> zget l' k = zget l k) -> 0 <= n ->
  take (Z.to_nat n) l' ≡ₚ take (Z.to_nat n) l.
Proof.
  intros Hp Hk Hn. apply (Permutation_app_inv_r (drop (Z.to_nat n) l)).
  rewrite take_drop. rewrite <- Hp at 2. rewrite <- (take_drop (Z.to_nat n) l') at 2.
  replace (drop (Z.to_nat n) l) with (drop (Z.to_nat n) l'); [done|].
  apply list_eq. intros i. rewrite !lookup_drop, <- !zget_nat. apply Hk. lia.
Qed.
