(* ===== verification/FrFcfs.v ===== *)
(** * First-ready, first-come-first-served scheduling
    ([accessPatterns/FirstReady-FirstComeFirstServe.c])

    Two request queues, one for row-buffer hits and one for misses; hits are
    served first.  The requests the driver draws from [rand] and [time] are an
    argument. *)
From Stdlib Require Import ZArith Lia.
From stdpp Require Import base tactics list numbers option.
From S2P Require Import Prelude Ring RequestQueue.

#[local] Open Scope Z_scope.

Definition MAX_QUEUE_SIZE : Z := 100.

Record MemoryRequest : Type := mkRequest {
  address : Z;
  timestamp : Z;
  is_row_buffer_hit : bool
}.

Abbreviation Queue := (rqueue MemoryRequest).

Definition initQueue (q : Queue) : Queue := rq_init q.
Definition isQueueEmpty (q : Queue) : bool := rq_empty q.
Definition isQueueFull (q : Queue) : bool := rq_full MAX_QUEUE_SIZE q.
Definition enqueue (q : Queue) (request : MemoryRequest) : res Queue :=
  rq_enqueue MAX_QUEUE_SIZE q request.
Definition dequeue (q : Queue) : res (MemoryRequest * Queue) :=
  rq_dequeue MAX_QUEUE_SIZE q.

(** The request scheduled and the two queues afterwards. *)
Definition frFcfsSchedule (hitQueue missQueue : Queue)
    : res (MemoryRequest * Queue * Queue) :=
  if negb (isQueueEmpty hitQueue) then
    '(r, h) ← dequeue hitQueue; Ok (r, h, missQueue)
  else if negb (isQueueEmpty missQueue) then
    '(r, m) ← dequeue missQueue; Ok (r, hitQueue, m)
  else Fault (Exit 1).

(** The first loop of [main]: sort the arriving requests into the queues. *)
Definition arrive (qs : Queue * Queue) (request : MemoryRequest) : res (Queue * Queue) :=
  let '(hitQueue, missQueue) := qs in
  if is_row_buffer_hit request then
    h ← enqueue hitQueue request; Ok (h, missQueue)
  else
    m ← enqueue missQueue request; Ok (hitQueue, m).

Fixpoint arrive_all (l : list MemoryRequest) (qs : Queue * Queue) : res (Queue * Queue) :=
  match l with
  | [] => Ok qs
  | r :: l' => qs' ← arrive qs r; arrive_all l' qs'
  end.

(** One pass of the second loop of [main]; [out] is what has been printed. *)
Definition process_pass (st : Queue * Queue * list MemoryRequest)
    : res (ctl (Queue * Queue * list MemoryRequest) (list MemoryRequest)) :=
  let '(h, m, out) := st in
  if negb (isQueueEmpty h) || negb (isQueueEmpty m) then
    '(r, h', m') ← frFcfsSchedule h m;
    Ok (Next (h', m', out ++ [r]))
  else Ok (Return out).

(** [main], on the requests [l] and the uninitialized queues [h0], [m0]: the
    requests in the order they are processed. *)
Definition frfcfs_main (h0 m0 : Queue) (l : list MemoryRequest)
    : res (list MemoryRequest) :=
  '(h, m) ← arrive_all l (initQueue h0, initQueue m0);
  loop (S (length l)) process_pass (h, m, []).

Section proofs.

Definition hits (l : list MemoryRequest) := filter (fun r => is_row_buffer_hit r = true) l.
Definition misses (l : list MemoryRequest) := filter (fun r => is_row_buffer_hit r = false) l.

Lemma hits_misses_length l : len (hits l) + len (misses l) = len l.
Proof.
  unfold hits, misses. induction l as [|r l IH]; [done|].
  rewrite !filter_cons. destruct (is_row_buffer_hit r); simpl in *; lia.
Qed.

Lemma arrive_all_ok l h m :
  rq_ok MAX_QUEUE_SIZE h -> rq_ok MAX_QUEUE_SIZE m ->
  size h + len (hits l) <= MAX_QUEUE_SIZE ->
  size m + len (misses l) <= MAX_QUEUE_SIZE ->
  exists h' m', arrive_all l (h, m) = Ok (h', m') /\
    rq_ok MAX_QUEUE_SIZE h' /\ rq_ok MAX_QUEUE_SIZE m' /\
    rq_list h' = rq_list h ++ hits l /\ rq_list m' = rq_list m ++ misses l.
Proof.
  unfold hits, misses. revert h m. induction l as [|r l IH]; intros h m Hh Hm Lh Lm.
  - exists h, m. by rewrite !filter_nil, !app_nil_r.
  - rewrite !filter_cons in *. simpl. unfold arrive, enqueue.
    destruct (is_row_buffer_hit r) eqn:Er; simpl in *.
    + destruct (rq_enqueue_room MAX_QUEUE_SIZE h r Hh) as (h1 & -> & Hh1 & Hs & Hl); [lia|].
      simpl. destruct (IH h1 m) as (h2 & m2 & E2 & ? & ? & L1 & L2); try done; [lia|].
      exists h2, m2. rewrite E2, L1, L2, Hl, <- app_assoc. done.
    + destruct (rq_enqueue_room MAX_QUEUE_SIZE m r Hm) as (m1 & -> & Hm1 & Hs & Hl); [lia|].
      simpl. destruct (IH h m1) as (h2 & m2 & E2 & ? & ? & L1 & L2); try done; [lia|].
      exists h2, m2. rewrite E2, L1, L2, Hl, <- app_assoc. done.
Qed.

Lemma frFcfsSchedule_ok h m :
  rq_ok MAX_QUEUE_SIZE h -> rq_ok MAX_QUEUE_SIZE m -> rq_list h ++ rq_list m <> [] ->
  exists r h' m', frFcfsSchedule h m = Ok (r, h', m') /\
    rq_ok MAX_QUEUE_SIZE h' /\ rq_ok MAX_QUEUE_SIZE m' /\
    size h' + size m' = size h + size m - 1 /\
    rq_list h ++ rq_list m = r :: rq_list h' ++ rq_list m'.
Proof.
  intros Hh Hm Hne. unfold frFcfsSchedule, isQueueEmpty, dequeue.
  pose proof (rq_size _ _ Hh). pose proof (rq_size _ _ Hm).
  destruct (rq_empty h) eqn:Eh; simpl.
  - rewrite (proj1 (rq_list_nil _ h Hh) Eh) in *. simpl in Hne.
    destruct (rq_empty m) eqn:Em; simpl.
    + by rewrite (proj1 (rq_list_nil _ m Hm) Em) in Hne.
    + unfold rq_empty in *. zbool.
      destruct (rq_dequeue_some _ m Hm) as (r & m' & -> & Hm' & Hs & Hl); [lia|].
      exists r, h, m'. simpl. split_and!; try done; [lia|].
      rewrite Hl. rewrite (proj1 (rq_list_nil _ h Hh)); [done|].
      unfold rq_empty. by rewrite Eh.
  - unfold rq_empty in *. zbool.
    destruct (rq_dequeue_some _ h Hh) as (r & h' & -> & Hh' & Hs & Hl); [lia|].
    exists r, h', m. simpl. split_and!; try done; [lia|]. by rewrite Hl.
Qed.

Lemma process_loop_ok fuel h m out :
  rq_ok MAX_QUEUE_SIZE h -> rq_ok MAX_QUEUE_SIZE m ->
  (Z.to_nat (size h + size m) < fuel)%nat ->
  loop fuel process_pass (h, m, out) = Ok (out ++ rq_list h ++ rq_list m).
Proof.
  intros Hh Hm Hf.
  destruct (loop_total
    (fun st => let '(h1, m1, out1) := st in
       rq_ok MAX_QUEUE_SIZE h1 /\ rq_ok MAX_QUEUE_SIZE m1 /\
       out1 ++ rq_list h1 ++ rq_list m1 = out ++ rq_list h ++ rq_list m)
    (fun r => r = out ++ rq_list h ++ rq_list m)
    (fun st => Z.to_nat (size st.1.1 + size st.1.2))
    process_pass) with (fuel := fuel) (s := (h, m, out)) as (r & Hr & ->); try done.
  intros [[h1 m1] out1] (Hh1 & Hm1 & Heq). unfold process_pass, isQueueEmpty.
  destruct (decide (rq_list h1 ++ rq_list m1 = [])) as [Hnil|Hne].
  - pose proof Hnil as Hnil'. apply app_nil in Hnil' as [Eh Em].
    rewrite (proj2 (rq_list_nil _ h1 Hh1) Eh), (proj2 (rq_list_nil _ m1 Hm1) Em). simpl.
    eexists. split; [done|]. simpl. rewrite <- Heq, Hnil. by rewrite app_nil_r.
  - replace (negb (rq_empty h1) || negb (rq_empty m1)) with true.
    + destruct (frFcfsSchedule_ok h1 m1 Hh1 Hm1 Hne) as (r & h2 & m2 & -> & Hh2 & Hm2 & Hs & Hl).
      simpl. eexists. split; [done|]. simpl.
      pose proof (rq_size _ _ Hh1). pose proof (rq_size _ _ Hm1).
      pose proof (rq_size _ _ Hh2). pose proof (rq_size _ _ Hm2).
      split_and!; try done; [|lia].
      rewrite <- Heq, Hl. rewrite <- app_assoc. done.
    + symmetry. apply orb_true_iff.
      destruct (rq_empty h1) eqn:E1, (rq_empty m1) eqn:E2; auto.
      apply (rq_list_nil _ _ Hh1) in E1. apply (rq_list_nil _ _ Hm1) in E2.
      rewrite E1, E2 in Hne. done.
Qed.
End proofs.

#[local] Arguments loop : simpl never.

(** C34.  On any workload that fits the queues the program processes every
    request exactly once, all row-buffer hits before all misses and each class
    in arrival order; it never reaches [exit(1)]. *)
Theorem frfcfs_serves_hits_first (h0 m0 : Queue) (l : list MemoryRequest) :
  len (requests h0) = MAX_QUEUE_SIZE -> len (requests m0) = MAX_QUEUE_SIZE ->
  len l <= MAX_QUEUE_SIZE ->
  frfcfs_main h0 m0 l = Ok (hits l ++ misses l).
Proof.
  intros Hh0 Hm0 Hl. pose proof (hits_misses_length l). unfold frfcfs_main, initQueue.
  destruct (rq_init_ok MAX_QUEUE_SIZE h0) as [Hh Eh]; [done..|].
  destruct (rq_init_ok MAX_QUEUE_SIZE m0) as [Hm Em]; [done..|].
  destruct (arrive_all_ok l (rq_init h0) (rq_init m0))
    as (h & m & -> & Hh' & Hm' & Lh & Lm); simpl; try done; [lia..|].
  rewrite Eh, Em in *. simpl in Lh, Lm.
  rewrite process_loop_ok; [|done..|].
  - simpl. by rewrite Lh, Lm.
  - rewrite <- (length_rq_list _ h Hh'), <- (length_rq_list _ m Hm'), Lh, Lm. lia.
Qed.

Lemma frfcfs_serves_hits_first_witness :
  frfcfs_main (mkRQ (replicate 100 (mkRequest 0 0 true)) 5 5 5)
    (mkRQ (replicate 100 (mkRequest 0 0 true)) 1 2 3)
    [mkRequest 1 0 false; mkRequest 2 0 true; mkRequest 3 0 true; mkRequest 4 0 false]
  = Ok [mkRequest 2 0 true; mkRequest 3 0 true; mkRequest 1 0 false; mkRequest 4 0 false].
Proof.
  apply (frfcfs_serves_hits_first
           (mkRQ (replicate 100 (mkRequest 0 0 true)) 5 5 5)
           (mkRQ (replicate 100 (mkRequest 0 0 true)) 1 2 3)); try reflexivity.
  vm_compute. discriminate.
Defined.
