(* ===== verification/ParBs.v ===== *)
(** * Parallelism-aware batch scheduling
    ([concurrency/scheduling/Parallelism-AwareBatchScheduling.c])

    Requests leave the queue in batches of at most twenty; inside a batch the
    banks are ranked by how many requests they have, and each call schedules
    the oldest row-buffer hit of the best ranked bank, or its oldest request
    when it has no hit.  The requests the driver draws from [rand] and [time]
    are an argument. *)
From Stdlib Require Import ZArith Lia.
From stdpp Require Import base tactics list numbers option.
From S2P Require Import Prelude Ring RequestQueue Select.

#[local] Open Scope Z_scope.
#[local] Open Scope c_scope.

Definition MAX_QUEUE_SIZE : Z := 100.
Definition MAX_BANKS : Z := 8.
Definition MAX_BATCH_SIZE : Z := 20.

Record MemoryRequest : Type := mkRequest {
  address : Z;
  timestamp : Z;
  bank : Z;
  is_row_buffer_hit : bool;
  is_marked : bool
}.

Definition set_marked (b : bool) (r : MemoryRequest) : MemoryRequest :=
  mkRequest (address r) (timestamp r) (bank r) (is_row_buffer_hit r) b.

Abbreviation Queue := (rqueue MemoryRequest).

Definition initQueue (q : Queue) : Queue := rq_init q.
Definition isQueueEmpty (q : Queue) : bool := rq_empty q.
Definition isQueueFull (q : Queue) : bool := rq_full MAX_QUEUE_SIZE q.
Definition enqueue (q : Queue) (request : MemoryRequest) : res Queue :=
  rq_enqueue MAX_QUEUE_SIZE q request.
Definition dequeue (q : Queue) : res (MemoryRequest * Queue) :=
  rq_dequeue MAX_QUEUE_SIZE q.

Definition formBatch_pass (st : Queue * list MemoryRequest * Z)
    : res (ctl (Queue * list MemoryRequest * Z) (Queue * list MemoryRequest * Z)) :=
  let '(q, batch, batchSize) := st in
  if (batchSize <? MAX_BATCH_SIZE) && negb (isQueueEmpty q) then
    '(request, q') ← dequeue q;
    batch' ← batch.[batchSize <- set_marked true request];
    n ← iadd batchSize 1;
    Ok (Next (q', batch', n))
  else Ok (Return st).

Definition formBatch (q : Queue) (batch : list MemoryRequest)
    : res (Queue * list MemoryRequest * Z) :=
  loop (Z.to_nat MAX_BATCH_SIZE + 1) formBatch_pass (q, batch, 0).

Definition count_pass (batch : list MemoryRequest) (i : Z) (bankCount : list Z)
    : res (list Z) :=
  r ← batch.[i];
  v ← bankCount.[bank r];
  v' ← iadd v 1;
  bankCount.[bank r <- v'].

Definition less_count (bankCount : list Z) (a b : Z) : res bool :=
  x ← bankCount.[a]; y ← bankCount.[b]; Ok (x <? y).

Definition rankBanks (batch : list MemoryRequest) (batchSize : Z)
    (bankRanking : list Z) : res (list Z) :=
  bankCount ← for_range (Z.to_nat batchSize) 0 (count_pass batch) (replicate 8 0);
  ranking ← for_range (Z.to_nat MAX_BANKS) 0 (fun i rk => rk.[i <- i]) bankRanking;
  bubble_sort (less_count bankCount) MAX_BANKS ranking.

(** The inner loop of [scheduleRequest]; a pointer into the batch is the index
    it points to. *)
Definition older (batch : list MemoryRequest) (j : Z) (x : MemoryRequest)
    (best : option Z) : res (option Z) :=
  match best with
  | None => Ok (Some j)
  | Some k => y ← batch.[k]; Ok (if timestamp x <? timestamp y then Some j else Some k)
  end.

Definition schedule_scan (batch : list MemoryRequest) (b : Z) (j : Z)
    (st : option Z * option Z) : res (option Z * option Z) :=
  let '(oldestHit, oldest) := st in
  x ← batch.[j];
  if (bank x =? b) && is_marked x then
    oldestHit' ← (if is_row_buffer_hit x then older batch j x oldestHit else Ok oldestHit);
    oldest' ← older batch j x oldest;
    Ok (oldestHit', oldest')
  else Ok (oldestHit, oldest).

(** Clear the mark of the request the pointer refers to, and return it. *)
Definition take_request (batch : list MemoryRequest) (k : Z)
    : res (MemoryRequest * list MemoryRequest) :=
  x ← batch.[k];
  batch' ← batch.[k <- set_marked false x];
  y ← batch'.[k];
  Ok (y, batch').

Definition schedule_bank (batchSize : Z) (bankRanking : list Z) (i : Z)
    (batch : list MemoryRequest)
    : res (ctl (list MemoryRequest) (MemoryRequest * list MemoryRequest)) :=
  b ← bankRanking.[i];
  '(oldestHit, oldest) ←
    for_range (Z.to_nat batchSize) 0 (schedule_scan batch b) (None, None);
  match oldestHit, oldest with
  | Some k, _ => p ← take_request batch k; Ok (Return p)
  | None, Some k => p ← take_request batch k; Ok (Return p)
  | None, None => Ok (Next batch)
  end.

Definition scheduleRequest (batch : list MemoryRequest) (batchSize : Z)
    (bankRanking : list Z) : res (MemoryRequest * list MemoryRequest) :=
  c ← for_ctl (Z.to_nat MAX_BANKS) 0 (schedule_bank batchSize bankRanking) batch;
  match c with
  | Return p => Ok p
  | Next _ => Fault (Exit 1)
  end.

(** The requests scheduled for one batch, in order. *)
Definition schedule_batch (batchSize : Z) (bankRanking : list Z)
    (st : list MemoryRequest * list MemoryRequest)
    : res (list MemoryRequest * list MemoryRequest) :=
  for_range (Z.to_nat batchSize) 0
    (fun _ '(batch, out) =>
       '(x, batch') ← scheduleRequest batch batchSize bankRanking;
       Ok (batch', out ++ [x])) st.

(** One pass of the loop of [main]: [batch0] and [rank0] are the contents of
    the uninitialized arrays; [out] holds the batches processed so far. *)
Definition main_pass (batch0 : list MemoryRequest) (rank0 : list Z)
    (st : Queue * list (list MemoryRequest))
    : res (ctl (Queue * list (list MemoryRequest)) (list (list MemoryRequest))) :=
  let '(q, out) := st in
  if negb (isQueueEmpty q) then
    '(q', batch, batchSize) ← formBatch q batch0;
    bankRanking ← rankBanks batch batchSize rank0;
    '(_, scheduled) ← schedule_batch batchSize bankRanking (batch, []);
    Ok (Next (q', out ++ [scheduled]))
  else Ok (Return out).

Definition parbs_main (q0 : Queue) (batch0 : list MemoryRequest) (rank0 : list Z)
    (l : list MemoryRequest) : res (list (list MemoryRequest)) :=
  q ← foldl (fun m r => q ← m; enqueue q (set_marked false r)) (Ok (initQueue q0)) l;
  loop (S (length l)) (main_pass batch0 rank0) (q, []).

(** ** Selection *)

Definition wanted (b : Z) (hit : bool) (r : MemoryRequest) : bool :=
  (bank r =? b) && is_marked r && (if hit then is_row_buffer_hit r else true).

Definition is_older (x y : MemoryRequest) : bool := timestamp x <? timestamp y.

(** The request [scheduleRequest] is to pick: index [k], of the bank at rank
    [i]. *)
Definition picks (batch : list MemoryRequest) (n : Z) (ranking : list Z) (i k : Z) : Prop :=
  exists b, zget ranking i = Some b /\
    (forall i' b', i' < i -> zget ranking i' = Some b' ->
       is_best (wanted b' false) is_older batch n None) /\
    (is_best (wanted b true) is_older batch n (Some k) \/
     is_best (wanted b true) is_older batch n None /\
     is_best (wanted b false) is_older batch n (Some k)).

Section schedule.
#[local] Arguments loop : simpl never.
#[local] Arguments for_range : simpl never.
#[local] Arguments for_ctl : simpl never.

Lemma schedule_scan_pair batch b j oh o :
  schedule_scan batch b j (oh, o) =
    (oh' ← best_step (wanted b true) is_older batch j oh;
     o' ← best_step (wanted b false) is_older batch j o;
     Ok (oh', o')).
Proof.
  unfold schedule_scan, best_step, wanted, older, is_older.
  destruct (batch.[j]) as [x|] eqn:Ex; simpl; [|done].
  destruct ((bank x =? b) && is_marked x); simpl; [|done].
  destruct (is_row_buffer_hit x); simpl; done.
Qed.

#[local] Instance is_older_strict : StrictWeak is_older := key_lt_strict timestamp.

Lemma schedule_scan_ok batch b (n : nat) :
  Z.of_nat n <= len batch ->
  exists oh o, for_range n 0 (schedule_scan batch b) (None, None) = Ok (oh, o) /\
    is_best (wanted b true) is_older batch (Z.of_nat n) oh /\
    is_best (wanted b false) is_older batch (Z.of_nat n) o.
Proof.
  intros Hn.
  destruct (for_range_inv (fun j st =>
      is_best (wanted b true) is_older batch j st.1 /\
      is_best (wanted b false) is_older batch j st.2) n 0 (schedule_scan batch b) (None, None))
    as ([oh o] & -> & H1 & H2); [split; apply is_best_0| |by exists oh, o].
  intros j [oh o] Hj [H1 H2]. rewrite schedule_scan_pair. simpl in *.
  destruct (best_step_ok (wanted b true) is_older batch j oh) as (oh' & -> & ?); [lia|done|].
  destruct (best_step_ok (wanted b false) is_older batch j o) as (o' & -> & ?); [lia|done|].
  simpl. by eexists.
Qed.

Lemma take_request_ok batch k x :
  zget batch k = Some x ->
  take_request batch k = Ok (set_marked false x, zset batch k (set_marked false x)).
Proof.
  intros Hx. pose proof (zget_Some_range _ _ _ Hx). unfold take_request.
  rewrite (arr_read_Ok _ _ _ Hx). simpl. rewrite arr_write_Ok by done. simpl.
  by rewrite (arr_read_Ok _ _ _ (zget_zset_eq _ _ _ H)).
Qed.

Lemma scheduleRequest_spec batch (n : Z) ranking j x :
  0 <= n <= len batch -> len ranking = MAX_BANKS ->
  j < n -> zget batch j = Some x -> is_marked x = true -> bank x ∈ ranking ->
  exists i k y, picks batch n ranking i k /\ k < n /\ zget batch k = Some y /\
    is_marked y = true /\
    scheduleRequest batch n ranking =
      Ok (set_marked false y, zset batch k (set_marked false y)).
Proof.
  intros Hn Hrk Hj Hx Hm Hin. unfold scheduleRequest.
  destruct (for_ctl_inv
    (fun i b => b = batch /\ forall i' b', i' < i -> zget ranking i' = Some b' ->
       is_best (wanted b' false) is_older batch n None)
    (fun p => exists i k y, picks batch n ranking i k /\ k < n /\ zget batch k = Some y /\
       is_marked y = true /\ p = (set_marked false y, zset batch k (set_marked false y)))
    (Z.to_nat MAX_BANKS) 0 (schedule_bank n ranking) batch) as (c & -> & Hc).
  - split; [done|]. intros i' b' Hi H%zget_Some_range. lia.
  - intros i bt Hi [-> Hprev]. unfold schedule_bank.
    destruct (zget_range ranking i) as [b Hb]; [unfold MAX_BANKS in *; lia|].
    rewrite (arr_read_Ok _ _ _ Hb). simpl.
    destruct (schedule_scan_ok batch b (Z.to_nat n)) as (oh & o & -> & H1 & H2); [lia|].
    simpl. rewrite Z2Nat.id in H1, H2 by lia. destruct oh as [k|]; [|destruct o as [k|]].
    + pose proof H1 as (Hk & y & Hy & Hw & _). rewrite (take_request_ok _ _ _ Hy). simpl.
      eexists. split; [done|]. exists i, k, y. split_and!; try done; [exists b; auto|].
      unfold wanted in Hw. by zbool.
    + pose proof H2 as (Hk & y & Hy & Hw & _). rewrite (take_request_ok _ _ _ Hy). simpl.
      eexists. split; [done|]. exists i, k, y. split_and!; try done; [exists b; auto|].
      unfold wanted in Hw. by zbool.
    + eexists. split; [done|]. split; [done|]. intros i' b' Hi' Hb'.
      destruct (decide (i' = i)) as [->|]; [|apply (Hprev i'); (done || lia)].
      rewrite Hb in Hb'. by injection Hb' as <-.
  - destruct c as [bt|p]; simpl.
    + destruct Hc as [_ Hnone]. apply list_elem_of_lookup in Hin as [i Hi].
      pose proof (lookup_lt_Some _ _ _ Hi). rewrite <- zget_nat in Hi.
      specialize (Hnone (Z.of_nat i) (bank x) ltac:(unfold MAX_BANKS in *; lia) Hi j x Hj Hx).
      unfold wanted in Hnone. by rewrite Z.eqb_refl, Hm in Hnone.
    + destruct Hc as (i & k & y & ? & ? & ? & ? & ->). by exists i, k, y.
Qed.

(** ** Ranking *)

Definition load (l : list MemoryRequest) (b : Z) : Z :=
  len (filter (fun r => bank r = b) l).

Lemma load_snoc l r b : load (l ++ [r]) b = load l b + (if decide (bank r = b) then 1 else 0).
Proof.
  unfold load. rewrite list.filter_app, length_app, filter_cons, filter_nil.
  destruct (decide (bank r = b)); simpl; lia.
Qed.

Lemma load_bound l b : 0 <= load l b <= len l.
Proof. unfold load. pose proof (length_filter (fun r => bank r = b) l). lia. Qed.

Lemma count_ok batch n :
  0 <= n <= len batch -> n <= MAX_BATCH_SIZE ->
  Forall (fun r => 0 <= bank r < MAX_BANKS) (take (Z.to_nat n) batch) ->
  exists c, for_range (Z.to_nat n) 0 (count_pass batch) (replicate 8 0) = Ok c /\
    len c = MAX_BANKS /\
    forall b, 0 <= b < MAX_BANKS -> zget c b = Some (load (take (Z.to_nat n) batch) b).
Proof.
  intros Hn Hmax Hbank.
  destruct (for_range_inv (fun j c => len c = MAX_BANKS /\
      forall b, 0 <= b < MAX_BANKS -> zget c b = Some (load (take (Z.to_nat j) batch) b))
    (Z.to_nat n) 0 (count_pass batch) (replicate 8 0)) as (c & -> & Hl & Hc).
  - split; [done|]. intros b Hb. unfold MAX_BANKS in *.
    assert (b = 0 \/ b = 1 \/ b = 2 \/ b = 3 \/ b = 4 \/ b = 5 \/ b = 6 \/ b = 7)
      as Hcase by lia.
    by repeat destruct Hcase as [->|Hcase]; subst.
  - intros j c Hj [Hl Hc]. unfold count_pass.
    destruct (zget_range batch j) as [x Hx]; [lia|]. rewrite (arr_read_Ok _ _ _ Hx). simpl.
    assert (0 <= bank x < MAX_BANKS) as Hbx.
    { rewrite Forall_lookup in Hbank. apply (Hbank (Z.to_nat j)).
      rewrite lookup_take_lt by lia. rewrite <- zget_nat, Z2Nat.id by lia. done. }
    rewrite (arr_read_Ok _ _ _ (Hc _ Hbx)). simpl.
    pose proof (load_bound (take (Z.to_nat j) batch) (bank x)).
    rewrite length_take in *. unfold MAX_BATCH_SIZE in *.
    rewrite iadd_Ok by int_side. simpl. rewrite arr_write_Ok by lia.
    eexists. split; [done|]. split; [by rewrite length_zset|]. intros b Hb.
    rewrite (take_S_zget _ _ _ Hx), load_snoc.
    destruct (decide (bank x = b)) as [<-|Hne].
    + rewrite zget_zset_eq by lia. done.
    + rewrite zget_zset_ne by done. rewrite Hc, Z.add_0_r by done. done.
  - exists c. rewrite Z2Nat.id in * by lia. auto.
Qed.

Lemma fill_ok ranking :
  len ranking = MAX_BANKS ->
  for_range (Z.to_nat MAX_BANKS) 0 (fun i rk => rk.[i <- i]) ranking = Ok (seqZ 0 8).
Proof.
  unfold MAX_BANKS. intros H.
  do 8 (destruct ranking as [|? ranking]; [simpl in H; lia|]).
  destruct ranking; [done|simpl in H; lia].
Qed.

Lemma rankBanks_ok batch n ranking :
  0 <= n <= len batch -> n <= MAX_BATCH_SIZE -> len ranking = MAX_BANKS ->
  Forall (fun r => 0 <= bank r < MAX_BANKS) (take (Z.to_nat n) batch) ->
  exists rk, rankBanks batch n ranking = Ok rk /\ rk ≡ₚ seqZ 0 8 /\
    forall i j a b, i < j -> zget rk i = Some a -> zget rk j = Some b ->
      load (take (Z.to_nat n) batch) b <= load (take (Z.to_nat n) batch) a.
Proof.
  intros Hn Hmax Hrk Hbank. unfold rankBanks.
  destruct (count_ok batch n Hn Hmax Hbank) as (c & -> & Hl & Hc). simpl.
  rewrite fill_ok by done. simpl.
  destruct (bubble_sort_ok (load (take (Z.to_nat n) batch)) (less_count c)
    (fun b => 0 <= b < MAX_BANKS)) with (l := seqZ 0 8) (n := MAX_BANKS)
    as (rk & -> & Hp & Hs & _).
  - intros a b Ha Hb. unfold less_count.
    by rewrite (arr_read_Ok _ _ _ (Hc a Ha)), bind_ret_l, (arr_read_Ok _ _ _ (Hc b Hb)).
  - apply list.Forall_forall. intros b Hb%elem_of_seqZ. unfold MAX_BANKS. lia.
  - done.
  - exists rk. split_and!; [done..|]. intros i j a b Hij Ha Hb.
    pose proof (zget_Some_range _ _ _ Hb) as Hj. rewrite (Permutation_length Hp) in Hj.
    pose proof (zget_Some_range _ _ _ Ha). simpl in Hj.
    by apply (Hs i j).
Qed.

(** ** Forming a batch *)

Lemma formBatch_ok q batch :
  rq_ok MAX_QUEUE_SIZE q -> len batch = MAX_BATCH_SIZE ->
  exists q' batch' n, formBatch q batch = Ok (q', batch', n) /\
    rq_ok MAX_QUEUE_SIZE q' /\ len batch' = MAX_BATCH_SIZE /\
    n = Z.min MAX_BATCH_SIZE (size q) /\ size q' = size q - n /\
    take (Z.to_nat n) batch' = set_marked true <$> take 20 (rq_list q) /\
    rq_list q' = drop 20 (rq_list q).
Proof.
  intros Hq Hb. unfold formBatch.
  destruct (loop_total
    (fun st => let '(q1, b1, n) := st in
       rq_ok MAX_QUEUE_SIZE q1 /\ len b1 = MAX_BATCH_SIZE /\ 0 <= n <= MAX_BATCH_SIZE /\
       size q1 = size q - n /\
       exists taken, rq_list q = taken ++ rq_list q1 /\ len taken = n /\
         take (Z.to_nat n) b1 = set_marked true <$> taken)
    (fun st => let '(q1, b1, n) := st in
       rq_ok MAX_QUEUE_SIZE q1 /\ len b1 = MAX_BATCH_SIZE /\ n = Z.min MAX_BATCH_SIZE (size q) /\
       size q1 = size q - n /\
       exists taken, rq_list q = taken ++ rq_list q1 /\ len taken = n /\
         take (Z.to_nat n) b1 = set_marked true <$> taken)
    (fun st => Z.to_nat (MAX_BATCH_SIZE - st.2))
    formBatch_pass) with (fuel := (Z.to_nat MAX_BATCH_SIZE + 1)%nat) (s := (q, batch, 0))
    as ([[q' b'] n] & -> & Hq' & Hb' & Hn & Hsz & taken & Ht & Hlt & Htk).
  - intros [[q1 b1] n] (H1 & H2 & H3 & H4 & taken & H5 & H6 & H7).
    pose proof (rq_size _ _ H1) as Hs1. unfold formBatch_pass, isQueueEmpty, rq_empty.
    destruct (Z.ltb_spec n MAX_BATCH_SIZE), (Z.eqb_spec (size q1) 0); simpl;
      try (eexists; split; [done|]; simpl; split_and!; try done; [lia|by exists taken]).
    destruct (rq_dequeue_some _ q1 H1) as (x & q2 & Hd & Hok & Hsz & Hl); [lia|].
    unfold dequeue. rewrite Hd. simpl. rewrite arr_write_Ok by lia. simpl.
    unfold MAX_BATCH_SIZE in *. rewrite iadd_Ok by int_side. simpl.
    eexists. split; [done|]. simpl. split; [|lia]. split_and!; try done; try lia.
    { by rewrite length_zset. }
    exists (taken ++ [x]). rewrite H5, Hl, <- app_assoc. split; [done|].
    rewrite length_app. simpl. split; [lia|]. rewrite fmap_app. simpl. rewrite <- H7.
    by rewrite take_zset_snoc by lia.
  - split_and!; try done; [lia|]. by exists [].
  - simpl. unfold MAX_BATCH_SIZE. lia.
  - assert (taken = take 20 (rq_list q) /\ rq_list q' = drop 20 (rq_list q)) as [Et Ed].
    { pose proof (rq_size _ _ Hq'). unfold MAX_BATCH_SIZE in *.
      rewrite Ht. destruct (decide (size q <= 20)).
      - assert (rq_list q' = []) as -> .
        { apply (rq_list_nil _ _ Hq'). unfold rq_empty. apply Z.eqb_eq. lia. }
        rewrite app_nil_r, take_ge, drop_ge by lia. done.
      - rewrite take_app_length', drop_app_length' by lia. done. }
    exists q', b', n. split_and!; try done. by rewrite Htk, Et.
Qed.

(** ** Scheduling a batch *)

Definition unmarked (l : list MemoryRequest) := filter (fun r => is_marked r = false) l.

Lemma set_marked_id r : is_marked r = false -> set_marked false r = r.
Proof. by destruct r; simpl; intros ->. Qed.

Lemma unmarked_zset l k x :
  zget l k = Some x -> is_marked x = true ->
  unmarked (zset l k (set_marked false x)) ≡ₚ set_marked false x :: unmarked l.
Proof.
  intros Hx Hm. unfold zget, zset in *. destruct (0 <=? k); [|done].
  destruct (list_elem_of_split_length _ _ _ Hx) as (l1 & l2 & -> & ->).
  rewrite insert_app_r_alt, Nat.sub_diag by lia. simpl. unfold unmarked.
  rewrite !list.filter_app, !filter_cons. simpl.
  repeat case_decide; try congruence. by rewrite Permutation_middle.
Qed.

(** Some request of a batch that is not wholly unmarked is marked. *)
Lemma marked_left l :
  len (unmarked l) < len l -> exists j x, zget l j = Some x /\ is_marked x = true.
Proof.
  intros Hlt. destruct (decide (Exists (fun r => is_marked r = true) l)) as [Hex|Hno].
  - apply list.Exists_exists in Hex as (x & [i Hi]%elem_of_zget & Hx). eauto.
  - apply not_Exists_Forall in Hno; [|apply _]. unfold unmarked in Hlt.
    rewrite filter_all in Hlt; [lia|]. eapply list.Forall_impl; [exact Hno|]. intros x.
    simpl. by destruct (is_marked x).
Qed.

Lemma set_marked_all l :
  Forall (fun r => is_marked r = false) l -> set_marked false <$> l = l.
Proof.
  induction 1 as [|x l Hx _ IH]; [done|]. rewrite fmap_cons, IH. by rewrite set_marked_id.
Qed.

Lemma schedule_batch_ok batch n ranking :
  0 <= n <= len batch -> ranking ≡ₚ seqZ 0 8 ->
  Forall (fun r => 0 <= bank r < MAX_BANKS /\ is_marked r = true) (take (Z.to_nat n) batch) ->
  exists batch' out, schedule_batch n ranking (batch, []) = Ok (batch', out) /\
    out ≡ₚ set_marked false <$> take (Z.to_nat n) batch.
Proof.
  intros Hn Hrk Hall. unfold schedule_batch.
  set (B := take (Z.to_nat n) batch) in *.
  assert (length B = Z.to_nat n) as HB by (subst B; rewrite length_take; lia).
  destruct (for_range_inv (fun j st => len st.1 = len batch /\ len st.2 = j /\
      st.2 ≡ₚ unmarked (take (Z.to_nat n) st.1) /\
      set_marked false <$> take (Z.to_nat n) st.1 = set_marked false <$> B)
    (Z.to_nat n) 0 (fun _ '(batch, out) =>
       '(x, batch') ← scheduleRequest batch n ranking;
       Ok (batch', out ++ [x])) (batch, []))
    as ([b' out] & -> & Hl & Hlo & Hp & Hm).
  - simpl. split_and!; try done. unfold unmarked. rewrite filter_none; [done|].
    eapply list.Forall_impl; [exact Hall|].
    intros r [_ Hr]. simpl. by rewrite Hr.
  - intros j [b out] Hj (Hl & Hlo & Hp & Hm). simpl in *.
    assert (length (take (Z.to_nat n) b) = Z.to_nat n) as Hlb by (rewrite length_take; lia).
    destruct (marked_left (take (Z.to_nat n) b)) as (k & x & Hx & Hmx).
    { rewrite <- Hp. lia. }
    assert (bank x ∈ ranking) as Hin.
    { rewrite Hrk. apply elem_of_seqZ. pose proof (f_equal (fun l => zget l k) Hm) as Hx'.
      simpl in Hx'. rewrite !zget_fmap, Hx in Hx'. symmetry in Hx'.
      apply fmap_Some in Hx' as (y & Hy & Heq). apply (Forall_zget _ _ _ _ Hall) in Hy as [Hy _].
      apply (f_equal bank) in Heq. simpl in Heq. unfold MAX_BANKS in Hy. lia. }
    apply zget_take in Hx as [Hx Hk].
    destruct (scheduleRequest_spec b n ranking k x) as (i & k' & y & _ & Hk' & Hy & Hmy & ->);
      try done; try lia.
    { rewrite (Permutation_length Hrk). done. }
    simpl. eexists. split; [done|]. simpl. rewrite length_zset, length_app. simpl.
    rewrite take_zset.
    assert (zget (take (Z.to_nat n) b) k' = Some y) as Hyt by (apply zget_take; auto with lia).
    split_and!; [done|lia| |].
    + rewrite unmarked_zset by done. rewrite Hp. by rewrite Permutation_app_comm.
    + rewrite <- Hm. pose proof Hyt as Hyl. unfold zset, zget in *.
      destruct (0 <=? k'); [|done]. rewrite list_fmap_insert.
      apply list_insert_id. rewrite list_lookup_fmap, Hyl. done.
  - simpl in *. exists b', out. split; [done|]. rewrite <- Hm, Hp.
    rewrite Z2Nat.id in * by lia.
    assert (Forall (fun r => is_marked r = false) (take (Z.to_nat n) b')) as Hnone.
    { apply (filter_full (fun r => is_marked r = false)). apply Permutation_length in Hp. unfold unmarked in Hp.
      rewrite length_take. lia. }
    unfold unmarked. by rewrite filter_all, set_marked_all.
Qed.

(** ** The driver *)

(** The arriving requests cut into batches, in arrival order. *)
Fixpoint batches (fuel : nat) (l : list MemoryRequest) : list (list MemoryRequest) :=
  match fuel, l with
  | O, _ | _, [] => []
  | S fuel', _ => take 20 l :: batches fuel' (drop 20 l)
  end.

Definition request_ok (r : MemoryRequest) : Prop :=
  0 <= bank r < MAX_BANKS /\ is_marked r = false.

Lemma set_marked_again l :
  Forall request_ok l -> set_marked false <$> (set_marked true <$> l) = l.
Proof.
  induction 1 as [|x l [_ Hx] _ IH]; [done|]. rewrite !fmap_cons, IH. f_equal.
  destruct x. simpl in *. by subst.
Qed.

Lemma main_pass_ok q batch0 rank0 out :
  rq_ok MAX_QUEUE_SIZE q -> len batch0 = MAX_BATCH_SIZE -> len rank0 = MAX_BANKS ->
  Forall request_ok (rq_list q) -> 0 < size q ->
  exists q' b, main_pass batch0 rank0 (q, out) = Ok (Next (q', out ++ [b])) /\
    rq_ok MAX_QUEUE_SIZE q' /\ size q' < size q /\
    b ≡ₚ take 20 (rq_list q) /\ rq_list q' = drop 20 (rq_list q).
Proof.
  intros Hq Hb Hr Hall Hpos. unfold main_pass, isQueueEmpty, rq_empty.
  destruct (Z.eqb_spec (size q) 0) as [|_]; [lia|]. simpl.
  destruct (formBatch_ok q batch0 Hq Hb) as (q' & b' & n & -> & Hq' & Hb' & Hn & Hsz & Htk & Hdr).
  simpl. unfold MAX_BATCH_SIZE in *.
  assert (Forall (fun r => 0 <= bank r < MAX_BANKS /\ is_marked r = true)
    (take (Z.to_nat n) b')) as Hmk.
  { rewrite Htk. apply Forall_fmap, Forall_take. eapply list.Forall_impl; [exact Hall|].
    by intros r [Hr1 _]. }
  destruct (rankBanks_ok b' n rank0) as (rk & -> & Hp & _); try done; [lia|unfold MAX_BATCH_SIZE; lia|..].
  { eapply list.Forall_impl; [exact Hmk|]. by intros r [? _]. }
  simpl. destruct (schedule_batch_ok b' n rk) as (b2 & o & -> & Ho); try done; [lia|].
  simpl. exists q', o. split_and!; try done; [lia|].
  rewrite Ho, Htk. rewrite set_marked_again; [done|]. by apply Forall_take.
Qed.

Lemma main_loop_ok batch0 rank0 fuel k q out :
  rq_ok MAX_QUEUE_SIZE q -> len batch0 = MAX_BATCH_SIZE -> len rank0 = MAX_BANKS ->
  Forall request_ok (rq_list q) -> (Z.to_nat (size q) < fuel)%nat ->
  (Z.to_nat (size q) <= k)%nat ->
  exists bs, loop fuel (main_pass batch0 rank0) (q, out) = Ok (out ++ bs) /\
    Forall2 Permutation bs (batches k (rq_list q)).
Proof.
  intros Hq Hb Hr Hall Hf Hk. revert k q out Hq Hall Hf Hk.
  induction fuel as [|fuel IH]; intros k q out Hq Hall Hf Hk; [lia|].
  rewrite loop_S. pose proof (rq_size _ _ Hq). destruct (decide (size q = 0)) as [Hz|Hnz].
  - unfold main_pass, isQueueEmpty, rq_empty. rewrite Hz. simpl. exists [].
    rewrite app_nil_r. split; [done|]. rewrite (proj1 (rq_list_nil _ q Hq)).
    + destruct k; constructor.
    + unfold rq_empty. by rewrite Hz.
  - destruct (main_pass_ok q batch0 rank0 out) as (q' & b & -> & Hq' & Hlt & Hp & Hl);
      try done; [lia|].
    simpl. destruct k as [|k]; [lia|]. pose proof (rq_size _ _ Hq').
    destruct (IH k q' (out ++ [b])) as (bs & -> & Hbs); try done; try lia.
    + rewrite Hl. by apply Forall_drop.
    + exists (b :: bs). rewrite <- app_assoc. split; [done|]. simpl.
      destruct (rq_list q) eqn:El; [|rewrite <- El in *; constructor; [done|by rewrite <- Hl]].
      pose proof (length_rq_list _ q Hq) as Hlen. rewrite El in Hlen. simpl in Hlen. lia.
Qed.
End schedule.

(** C10.  On any workload that fits the queue the program never reaches
    [exit(1)], never leaves an array, and processes every request exactly once,
    batch after batch: the requests printed for the k-th batch are a
    permutation of the k-th group of twenty arrivals, so no request overtakes a
    request of an earlier batch. *)
Theorem parbs_processes_batches (q0 : Queue) batch0 rank0 (l : list MemoryRequest) :
  len (requests q0) = MAX_QUEUE_SIZE -> len batch0 = MAX_BATCH_SIZE ->
  len rank0 = MAX_BANKS -> len l <= MAX_QUEUE_SIZE ->
  Forall (fun r => 0 <= bank r < MAX_BANKS) l ->
  exists out, parbs_main q0 batch0 rank0 l = Ok out /\
    Forall2 Permutation out (batches (length l) (set_marked false <$> l)).
Proof.
  intros Hq0 Hb Hr Hl Hall. unfold parbs_main, enqueue, initQueue.
  destruct (rq_init_ok MAX_QUEUE_SIZE q0) as [Hq Eq]; [done..|].
  destruct (rq_enqueue_all MAX_QUEUE_SIZE (rq_init q0) (set_marked false <$> l))
    as (q & Hf & Hok & Hlist); [done|rewrite length_fmap; simpl; lia|].
  rewrite foldl_fmap in Hf. rewrite Hf, bind_ret_l. rewrite Eq in Hlist. simpl in Hlist.
  pose proof (length_rq_list _ q Hok) as Hlen. rewrite Hlist, length_fmap in Hlen.
  destruct (main_loop_ok batch0 rank0 (S (length l)) (length l) q []) as (bs & -> & Hbs); try done; [|lia..|].
  - rewrite Hlist. apply Forall_fmap. by eapply list.Forall_impl; [exact Hall|].
  - exists bs. by rewrite Hlist in Hbs.
Qed.

(** A call of [scheduleRequest] on a batch that still has a marked request
    of a ranked bank returns the request it should: the first bank of the
    ranking with a marked request, its oldest row-buffer hit, or, when it has
    none, its oldest request (the first in the batch on equal timestamps); it
    clears that mark and changes nothing else. *)
Theorem scheduleRequest_picks batch (n : Z) ranking j x :
  0 <= n <= len batch -> len ranking = MAX_BANKS ->
  j < n -> zget batch j = Some x -> is_marked x = true -> bank x ∈ ranking ->
  exists i k y, picks batch n ranking i k /\ zget batch k = Some y /\
    scheduleRequest batch n ranking =
      Ok (set_marked false y, zset batch k (set_marked false y)).
Proof.
  intros. destruct (scheduleRequest_spec batch n ranking j x)
    as (i & k & y & ? & _ & ? & _ & ?); eauto 8.
Qed.

(** [rankBanks] leaves in [bankRanking] a permutation of the banks ordered
    by decreasing number of requests in the batch. *)
Lemma rankBanks_sorted batch n ranking :
  0 <= n <= len batch -> n <= MAX_BATCH_SIZE -> len ranking = MAX_BANKS ->
  Forall (fun r => 0 <= bank r < MAX_BANKS) (take (Z.to_nat n) batch) ->
  exists rk, rankBanks batch n ranking = Ok rk /\ rk ≡ₚ seqZ 0 8 /\
    forall i j a b, i < j -> zget rk i = Some a -> zget rk j = Some b ->
      load (take (Z.to_nat n) batch) b <= load (take (Z.to_nat n) batch) a.
Proof. apply rankBanks_ok. Qed.

Definition sample : list MemoryRequest :=
  [mkRequest 10 5 3 false true; mkRequest 11 4 2 true true; mkRequest 12 2 3 true true;
   mkRequest 13 1 3 false true].

Lemma parbs_processes_batches_witness :
  exists out, parbs_main (mkRQ (replicate 100 (mkRequest 0 0 0 false false)) 0 0 0)
      (replicate 20 (mkRequest 0 0 0 false false)) (replicate 8 0) sample = Ok out /\
    Forall2 Permutation out [set_marked false <$> sample].
Proof.
  apply (parbs_processes_batches (mkRQ (replicate 100 (mkRequest 0 0 0 false false)) 0 0 0)
      (replicate 20 (mkRequest 0 0 0 false false)) (replicate 8 0) sample);
    try reflexivity; [vm_compute; discriminate|].
  repeat constructor; vm_compute; (discriminate || reflexivity).
Defined.

Lemma scheduleRequest_picks_witness :
  exists i k y, picks sample 4 [3; 2; 0; 1; 4; 5; 6; 7] i k /\ zget sample k = Some y /\
    scheduleRequest sample 4 [3; 2; 0; 1; 4; 5; 6; 7] =
      Ok (set_marked false y, zset sample k (set_marked false y)).
Proof.
  apply (scheduleRequest_picks sample 4 [3; 2; 0; 1; 4; 5; 6; 7] 0
           (mkRequest 10 5 3 false true)); try reflexivity.
  - split; vm_compute; discriminate.
  - constructor.
Defined.

Lemma rankBanks_sorted_witness :
  exists rk, rankBanks sample 4 (replicate 8 9) = Ok rk /\ rk ≡ₚ seqZ 0 8 /\
    forall i j a b, i < j -> zget rk i = Some a -> zget rk j = Some b ->
      load (take 4 sample) b <= load (take 4 sample) a.
Proof.
  apply (rankBanks_sorted sample 4 (replicate 8 9)); try reflexivity.
  - split; vm_compute; discriminate.
  - vm_compute. discriminate.
  - repeat constructor; vm_compute; (discriminate || reflexivity).
Defined.
