(* ===== verification/Float.v ===== *)
(** * C floating point

    [float] and [double] as IEEE 754 binary32 and binary64 with rounding to
    nearest even, on the executable specification floats of the core library.
    An operation on two [double]s rounds to 53 bits; a conversion to [float]
    rounds again to 24. *)
From Stdlib Require Import ZArith Lia.
From Corelib Require Import SpecFloat.

#[local] Open Scope Z_scope.

Abbreviation cfloat := spec_float.

Definition signed_mantissa (s : bool) (m : positive) : Z :=
  if s then Z.neg m else Z.pos m.

(** Round a value to another format. *)
Definition convert (prec emax : Z) (f : cfloat) : cfloat :=
  match f with
  | S754_finite s m e => binary_normalize prec emax (signed_mantissa s m) e s
  | _ => f
  end.

Definition f32_of_int (z : Z) : cfloat := binary_normalize 24 128 z 0 false.
Definition f64_of_int (z : Z) : cfloat := binary_normalize 53 1024 z 0 false.
Definition f32 (f : cfloat) : cfloat := convert 24 128 f.
Definition f64 (f : cfloat) : cfloat := convert 53 1024 f.

Definition f32_add (x y : cfloat) : cfloat := SFadd 24 128 x y.
Definition f32_sub (x y : cfloat) : cfloat := SFsub 24 128 x y.
Definition f32_mul (x y : cfloat) : cfloat := SFmul 24 128 x y.
Definition f32_div (x y : cfloat) : cfloat := SFdiv 24 128 x y.
Definition f64_add (x y : cfloat) : cfloat := SFadd 53 1024 x y.
Definition f64_sub (x y : cfloat) : cfloat := SFsub 53 1024 x y.
Definition f64_mul (x y : cfloat) : cfloat := SFmul 53 1024 x y.
Definition f64_div (x y : cfloat) : cfloat := SFdiv 53 1024 x y.

(** The comparisons; all are false on NaN. *)
Definition fgt (x y : cfloat) : bool := SFltb y x.
Definition flt (x y : cfloat) : bool := SFltb x y.
