(* ===== verification/AdaptiveSched.v ===== *)
(** * Adaptive thread-aware scheduling
    ([concurrency/scheduling/AdaptiveThread-AwareScheduling.c])

    One request queue and a table of threads; a thread whose rate of memory
    requests per thousand instructions exceeds ten is served first.  What the
    driver draws from [rand] and [time] is an argument. *)
From Stdlib Require Import ZArith Lia.
From stdpp Require Import base tactics list numbers option.
From S2P Require Import Prelude Ring RequestQueue Float.

#[local] Open Scope Z_scope.
#[local] Open Scope c_scope.

Definition MAX_THREADS : Z := 8.
Definition MAX_QUEUE_SIZE : Z := 100.
Definition MEMORY_INTENSIVE_THRESHOLD : Z := 10.
Definition ADAPTATION_INTERVAL : Z := 1000.

Record MemoryRequest : Type := mkRequest {
  address : Z;
  timestamp : Z;
  thread_id : Z
}.

Record ThreadInfo : Type := mkThread {
  memory_requests : Z;
  instructions : Z;
  is_memory_intensive : bool;
  priority : Z
}.

Abbreviation Queue := (rqueue MemoryRequest).

Definition initQueue (q : Queue) : Queue := rq_init q.
Definition isQueueEmpty (q : Queue) : bool := rq_empty q.
Definition isQueueFull (q : Queue) : bool := rq_full MAX_QUEUE_SIZE q.
Definition enqueue (q : Queue) (request : MemoryRequest) : res Queue :=
  rq_enqueue MAX_QUEUE_SIZE q request.
Definition dequeue (q : Queue) : res (MemoryRequest * Queue) :=
  rq_dequeue MAX_QUEUE_SIZE q.

(** [float mrpki = (float)memory_requests / (instructions / 1000.0)]: the
    quotients are [double]s, the result is rounded to a [float]. *)
Definition mrpki (t : ThreadInfo) : cfloat :=
  f32 (f64_div (f64 (f32_of_int (memory_requests t)))
               (f64_div (f64_of_int (instructions t)) (f64_of_int 1000))).

Definition classify (t : ThreadInfo) : ThreadInfo :=
  let intensive := fgt (mrpki t) (f32_of_int MEMORY_INTENSIVE_THRESHOLD) in
  mkThread (memory_requests t) (instructions t) intensive (if intensive then 2 else 1).

Definition classifyThreads (threads : list ThreadInfo) (num_threads : Z)
    : res (list ThreadInfo) :=
  for_range (Z.to_nat num_threads) 0
    (fun i ts => t ← ts.[i]; ts.[i <- classify t]) threads.

Definition adapt_pass (i : Z) (ts : list ThreadInfo) : res (list ThreadInfo) :=
  t ← ts.[i];
  if is_memory_intensive t then
    p ← iadd (priority t) 1;
    ts.[i <- mkThread (memory_requests t) (instructions t) (is_memory_intensive t) p]
  else Ok ts.

Definition adaptSchedulingPolicy (threads : list ThreadInfo) (num_threads : Z)
    : res (list ThreadInfo) :=
  for_range (Z.to_nat num_threads) 0 adapt_pass threads.

(** The loop that looks for the highest priority. *)
Definition select_pass (q : Queue) (threads : list ThreadInfo) (i : Z) (st : Z * Z)
    : res (Z * Z) :=
  let '(highest_priority, selected_index) := st in
  s ← iadd (front q) i;
  index ← imod s MAX_QUEUE_SIZE;
  r ← (requests q).[index];
  t ← threads.[thread_id r];
  Ok (if priority t >? highest_priority then (priority t, index)
      else (highest_priority, selected_index)).

(** The loop that closes the gap. *)
Definition shift_pass (rear : Z) (st : Z * list MemoryRequest)
    : res (ctl (Z * list MemoryRequest) (list MemoryRequest)) :=
  let '(i, d) := st in
  if negb (i =? rear) then
    s ← iadd i 1;
    next ← imod s MAX_QUEUE_SIZE;
    x ← d.[next];
    d' ← d.[i <- x];
    Ok (Next (next, d'))
  else Ok (Return d).

Definition scheduleRequest (q : Queue) (threads : list ThreadInfo)
    : res (MemoryRequest * Queue) :=
  if isQueueEmpty q then Fault (Exit 1)
  else
    '(_, selected_index) ←
      for_range (Z.to_nat (size q)) 0 (select_pass q threads) (0, -1);
    if selected_index =? -1 then dequeue q
    else
      selected ← (requests q).[selected_index];
      d ← loop (Z.to_nat MAX_QUEUE_SIZE) (shift_pass (rear q)) (selected_index, requests q);
      r ← isub (rear q) 1;
      r' ← iadd r MAX_QUEUE_SIZE;
      r'' ← imod r' MAX_QUEUE_SIZE;
      n ← isub (size q) 1;
      Ok (selected, mkRQ d (front q) r'' n).

(** What one thread does in one cycle: the instructions it retires and the
    address and time of its request, if it makes one. *)
Record draw : Type := mkDraw {
  d_instructions : Z;
  d_request : option (Z * Z)
}.

Definition thread_pass (draws : Z -> draw) (i : Z) (st : Queue * list ThreadInfo)
    : res (Queue * list ThreadInfo) :=
  let '(q, threads) := st in
  t ← threads.[i];
  n ← iadd (instructions t) (d_instructions (draws i));
  threads1 ← threads.[i <- mkThread (memory_requests t) n (is_memory_intensive t) (priority t)];
  match d_request (draws i) with
  | None => Ok (q, threads1)
  | Some (a, ts) =>
      q' ← enqueue q (mkRequest a ts i);
      t1 ← threads1.[i];
      k ← iadd (memory_requests t1) 1;
      threads2 ← threads1.[i <- mkThread k (instructions t1) (is_memory_intensive t1) (priority t1)];
      Ok (q', threads2)
  end.

(** One cycle of [main]; [out] is what has been processed. *)
Definition cycle_pass (draws : Z -> Z -> draw) (cycle : Z)
    (st : Queue * list ThreadInfo * list MemoryRequest)
    : res (Queue * list ThreadInfo * list MemoryRequest) :=
  let '(q, threads, out) := st in
  '(q1, threads1) ← for_range (Z.to_nat MAX_THREADS) 0 (thread_pass (draws cycle)) (q, threads);
  c ← imod cycle ADAPTATION_INTERVAL;
  threads2 ← (if c =? 0 then
                ts ← classifyThreads threads1 MAX_THREADS;
                adaptSchedulingPolicy ts MAX_THREADS
              else Ok threads1);
  if negb (isQueueEmpty q1) then
    '(r, q2) ← scheduleRequest q1 threads2;
    Ok (q2, threads2, out ++ [r])
  else Ok (q1, threads2, out).

Definition init_thread : ThreadInfo := mkThread 0 0 false 1.

(** [main], for the first [n] of its 10000 cycles. *)
Definition adaptive_main (n : nat) (q0 : Queue) (threads0 : list ThreadInfo)
    (draws : Z -> Z -> draw) : res (Queue * list ThreadInfo * list MemoryRequest) :=
  threads ← for_range (Z.to_nat MAX_THREADS) 0 (fun i ts => ts.[i <- init_thread]) threads0;
  for_range n 0 (cycle_pass draws) (initQueue q0, threads, []).

(** ** Properties of the selection *)

Section select.
#[local] Arguments for_range : simpl never.
#[local] Arguments loop : simpl never.
Context (threads : list ThreadInfo) (q : Queue).
Context (Hq : rq_ok MAX_QUEUE_SIZE q).
Context (Hthreads : Forall (fun r => 0 <= thread_id r < len threads) (rq_list q)).

(** The priority of a request: that of its thread. *)
Definition prio (r : MemoryRequest) : Z :=
  match zget threads (thread_id r) with Some t => priority t | None => 0 end.

Definition index_of (k : Z) : Z := (front q + k) mod MAX_QUEUE_SIZE.

Lemma queue_at k : 0 <= k < size q ->
  exists r t, zget (requests q) (index_of k) = Some r /\
    rq_list q !! Z.to_nat k = Some r /\
    zget threads (thread_id r) = Some t /\ prio r = priority t.
Proof.
  intros Hk. destruct Hq as [Hc Hl Hf Hs Hr Hlast Hne].
  destruct (zget_range (requests q) (index_of k)) as [r Hrq].
  { unfold index_of. rewrite Hl. apply Z.mod_pos_bound. lia. }
  assert (rq_list q !! Z.to_nat k = Some r) as Hlk.
  { unfold rq_list. rewrite window_lookup by lia. rewrite Hl, Z2Nat.id by lia. done. }
  pose proof (Forall_lookup_1 _ _ _ _ Hthreads Hlk) as Ht.
  destruct (zget_range threads (thread_id r) Ht) as [t Hth]. exists r, t. unfold prio.
  by rewrite Hth.
Qed.

(** What the scan knows after [i] requests. *)
Definition scanned (i : Z) (st : Z * Z) : Prop :=
  (st = (0, -1) /\ forall k r, (Z.of_nat k < i) -> rq_list q !! k = Some r -> prio r <= 0) \/
  (exists s r, 0 <= s < i /\ rq_list q !! Z.to_nat s = Some r /\ 0 < prio r /\
     st = (prio r, index_of s) /\
     forall k x, Z.of_nat k < i -> rq_list q !! k = Some x ->
       prio x <= prio r /\ (Z.of_nat k < s -> prio x < prio r)).

Lemma scanned_step i st :
  0 <= i < size q -> scanned i st ->
  exists st', select_pass q threads i st = Ok st' /\ scanned (i + 1) st'.
Proof.
  intros Hi Hsc. destruct (queue_at i Hi) as (r & t & Hr & Hlk & Ht & Hp).
  destruct st as [hp sel]. unfold select_pass. pose proof (rq_size _ _ Hq).
  pose proof (rq_front _ _ Hq). unfold MAX_QUEUE_SIZE in *.
  rewrite iadd_Ok by int_side. rewrite bind_ret_l. rewrite imod_Ok by int_side.
  rewrite bind_ret_l. fold MAX_QUEUE_SIZE. fold (index_of i).
  rewrite (arr_read_Ok _ _ _ Hr), bind_ret_l, (arr_read_Ok _ _ _ Ht), bind_ret_l.
  eexists. split; [done|]. rewrite <- Hp.
  assert (forall k x, Z.of_nat k < i + 1 -> rq_list q !! k = Some x ->
    Z.of_nat k < i \/ (Z.of_nat k = i /\ x = r)) as Hsplit.
  { intros k x Hk Hx. destruct (decide (Z.of_nat k = i)) as [E|]; [right|left; lia].
    split; [done|]. subst i. rewrite Nat2Z.id in Hlk. congruence. }
  destruct (prio r >? hp) eqn:E; zbool.
  - right. exists i, r. split_and!; try done; [lia|lia| |].
    + destruct Hsc as [[[= -> ->] _]|(s & x & _ & _ & ? & [= -> ->] & _)]; lia.
    + intros k x Hk Hx. destruct (Hsplit k x Hk Hx) as [Hlt|[Heq ->]]; [|lia].
      destruct Hsc as [[[= -> ->] HB]|(s & y & _ & _ & ? & [= -> ->] & HB)].
      * specialize (HB k x Hlt Hx). lia.
      * destruct (HB k x Hlt Hx). lia.
  - destruct Hsc as [[[= -> ->] HB]|(s & y & Hs & Hy & ? & [= -> ->] & HB)].
    + left. split; [done|]. intros k x Hk Hx.
      destruct (Hsplit k x Hk Hx) as [Hlt|[_ ->]]; [eauto|lia].
    + right. exists s, y. split_and!; try done; [lia..|]. intros k x Hk Hx.
      destruct (Hsplit k x Hk Hx) as [Hlt|[? ->]]; [eauto|lia].
Qed.

Lemma scan_ok :
  exists st, for_range (Z.to_nat (size q)) 0 (select_pass q threads) (0, -1) = Ok st /\
    scanned (size q) st.
Proof.
  pose proof (rq_size _ _ Hq).
  destruct (for_range_inv scanned (Z.to_nat (size q)) 0 (select_pass q threads) (0, -1))
    as (st & Hst & Hsc).
  - left. split; [done|]. lia.
  - intros j t Hj Hsc. apply scanned_step; [lia|done].
  - exists st. split; [done|]. by rewrite Z2Nat.id in Hsc by lia.
Qed.

(** The array while the gap at offset [s] is being closed, with the entries
    from offset [s] to [t] moved. *)
Definition shifted (s t : Z) (d : list MemoryRequest) : Prop :=
  len d = MAX_QUEUE_SIZE /\ forall u, 0 <= u < size q ->
    zget d (index_of u) =
      zget (requests q) (index_of (if (s <=? u) && (u <? t) then u + 1 else u)).

Lemma index_of_inj u v : 0 <= u < size q -> 0 <= v < size q -> index_of u = index_of v -> u = v.
Proof.
  intros Hu Hv H. pose proof (rq_size _ _ Hq). pose proof (rq_len _ _ Hq) as Hl.
  assert (Z.to_nat u = Z.to_nat v) as E; [|lia].
  apply (ring_index_inj (requests q) (front q)); [lia..|]. rewrite Hl, !Z2Nat.id by lia. done.
Qed.

Lemma index_of_next u : 0 <= u -> (index_of u + 1) mod MAX_QUEUE_SIZE = index_of (u + 1).
Proof. intros Hu. unfold index_of. rewrite Zplus_mod_idemp_l. f_equal. lia. Qed.

Lemma rear_index : 0 < size q -> rear q = index_of (size q - 1).
Proof.
  intros Hpos. destruct Hq as [Hc Hl Hf Hs Hr Hlast Hne]. unfold index_of.
  specialize (Hne Hpos). rewrite <- (Z.mod_small (rear q) MAX_QUEUE_SIZE) by lia.
  transitivity ((rear q + 1 - 1) mod MAX_QUEUE_SIZE); [f_equal; lia|].
  rewrite Zminus_mod, Hlast, <- Zminus_mod. f_equal. lia.
Qed.

Lemma shift_ok s :
  0 <= s < size q ->
  exists d, loop (Z.to_nat MAX_QUEUE_SIZE) (shift_pass (rear q)) (index_of s, requests q) = Ok d /\
    shifted s (size q - 1) d.
Proof.
  intros Hs. pose proof (rq_size _ _ Hq) as Hsz. rewrite rear_index by lia.
  destruct (loop_total
    (fun st => exists t, s <= t < size q /\ st.1 = index_of t /\ shifted s t st.2)
    (shifted s (size q - 1))
    (fun st => Z.to_nat ((index_of (size q - 1) - st.1) mod MAX_QUEUE_SIZE))
    (shift_pass (index_of (size q - 1))))
    with (fuel := Z.to_nat MAX_QUEUE_SIZE) (s := (index_of s, requests q)) as (d & -> & Hd).
  - intros [i d] (t & Ht & Hi & Hl & Hd). simpl in Hi, Hl, Hd. subst i. unfold shift_pass.
    destruct (Z.eqb_spec (index_of t) (index_of (size q - 1))) as [E|E]; simpl.
    + apply index_of_inj in E; [|lia..]. subst t. by eexists.
    + assert (t <> size q - 1) by (intros ->; done).
      assert (0 <= index_of t < MAX_QUEUE_SIZE) as Hit by (apply Z.mod_pos_bound; done).
      unfold MAX_QUEUE_SIZE in Hl, Hsz, Hit. rewrite iadd_Ok by int_side. simpl.
      rewrite imod_Ok by (unfold MAX_QUEUE_SIZE; int_side). simpl. rewrite index_of_next by lia.
      destruct (queue_at (t + 1)) as (r & _ & Hr & _); [lia|].
      pose proof (Hd (t + 1) ltac:(lia)) as Hnext.
      destruct (Z.ltb_spec (t + 1) t); [lia|]. rewrite andb_false_r, Hr in Hnext.
      rewrite (arr_read_Ok _ _ _ Hnext). simpl. rewrite arr_write_Ok by lia. simpl.
      eexists. split; [done|]. split.
      * exists (t + 1). split; [lia|]. split; [done|]. split; [by simpl; rewrite length_zset|].
        intros u Hu. simpl. destruct (decide (u = t)) as [->|Hne].
        -- rewrite zget_zset_eq by lia.
           destruct (Z.leb_spec s t), (Z.ltb_spec t (t + 1)); simpl; (done || lia).
        -- rewrite zget_zset_ne by (intros E'; apply index_of_inj in E'; lia).
           rewrite Hd by done. do 2 f_equal.
           destruct (s <=? u); simpl; [|done].
           destruct (Z.ltb_spec u t), (Z.ltb_spec u (t + 1)); (done || lia).
      * simpl. unfold index_of.
        rewrite !Zminus_mod_idemp_l, !Zminus_mod_idemp_r. unfold MAX_QUEUE_SIZE in *.
        replace (front q + (size q - 1) - (front q + (t + 1))) with (size q - 1 - (t + 1)) by lia.
        replace (front q + (size q - 1) - (front q + t)) with (size q - 1 - t) by lia.
        rewrite !Z.mod_small by lia. lia.
  - exists s. split; [lia|]. split; [done|]. split; [apply (rq_len _ _ Hq)|].
    intros u Hu. simpl. destruct (Z.leb_spec s u), (Z.ltb_spec u s); simpl; (done || lia).
  - simpl. unfold MAX_QUEUE_SIZE. pose proof (Z.mod_pos_bound (index_of (size q - 1) - index_of s) 100). lia.
  - by exists d.
Qed.

(** The offset that should be scheduled: the oldest request when no priority is
    positive, else the first of those with the highest priority. *)
Definition chosen (s : nat) (r : MemoryRequest) : Prop :=
  rq_list q !! s = Some r /\
  ((s = O /\ Forall (fun x => prio x <= 0) (rq_list q)) \/
   (0 < prio r /\ forall k x, rq_list q !! k = Some x ->
      prio x <= prio r /\ ((k < s)%nat -> prio x < prio r))).

Lemma rq_list_length : length (rq_list q) = Z.to_nat (size q).
Proof. pose proof (length_rq_list _ q Hq). pose proof (rq_size _ _ Hq). lia. Qed.

Lemma shifted_list s d n :
  0 <= s < size q -> shifted s (size q - 1) d -> n = size q - 1 ->
  window d (front q) (Z.to_nat n) = delete (Z.to_nat s) (rq_list q).
Proof.
  intros Hs [Hl Hd] ->. destruct Hq as [Hc Hlq Hf Hsz Hr Hlast Hne].
  assert (length (delete (Z.to_nat s) (rq_list q)) = Z.to_nat (size q - 1)) as Hlen.
  { rewrite length_delete; [rewrite rq_list_length; lia|].
    apply lookup_lt_is_Some_2. rewrite rq_list_length. lia. }
  apply list_eq. intros k. destruct (decide (k < Z.to_nat (size q - 1))%nat) as [Hk|Hk].
  - rewrite window_lookup by lia. rewrite Hl. fold (index_of (Z.of_nat k)).
    rewrite Hd by lia. unfold rq_list.
    destruct (Z.leb_spec s (Z.of_nat k)), (Z.ltb_spec (Z.of_nat k) (size q - 1)); try lia; simpl.
    + rewrite list_lookup_delete_ge by lia. rewrite window_lookup by lia. rewrite Hlq.
      by rewrite Nat2Z.inj_succ.
    + rewrite list_lookup_delete_lt by lia. rewrite window_lookup by lia. by rewrite Hlq.
  - rewrite !lookup_ge_None_2; [done|lia|]. rewrite length_window; lia.
Qed.

Lemma schedule_ok :
  0 < size q ->
  exists s r q', scheduleRequest q threads = Ok (r, q') /\ chosen s r /\
    rq_ok MAX_QUEUE_SIZE q' /\ size q' = size q - 1 /\ rq_list q' = delete s (rq_list q).
Proof.
  intros Hpos. unfold scheduleRequest, isQueueEmpty, rq_empty.
  destruct (Z.eqb_spec (size q) 0) as [|_]; [lia|].
  destruct scan_ok as (st & -> & [[-> Hall]|(s & r & Hs & Hr & Hp & -> & Hbest)]); simpl.
  - unfold dequeue.
    destruct (rq_dequeue_some _ q Hq Hpos) as (x & q' & -> & Hok & Hsz & Hl).
    exists O, x, q'. split_and!; try done; [|by rewrite Hl].
    split; [by rewrite Hl|]. left. split; [done|]. apply Forall_lookup_2. intros k y Hy.
    apply (Hall k); [|done]. apply lookup_lt_Some in Hy. rewrite rq_list_length in Hy. lia.
  - pose proof Hq as [Hc Hlq Hf Hsz Hrr Hlast Hne].
    assert (0 <= index_of s < MAX_QUEUE_SIZE) as His by (apply Z.mod_pos_bound; done).
    destruct (Z.eqb_spec (index_of s) (-1)) as [|_]; [lia|].
    destruct (queue_at s Hs) as (r' & _ & Hr' & Hlk & _).
    rewrite Hr in Hlk. injection Hlk as <-. rewrite (arr_read_Ok _ _ _ Hr'). simpl.
    destruct (shift_ok s Hs) as (d & -> & Hd). simpl.
    specialize (Hne Hpos). unfold MAX_QUEUE_SIZE in Hrr, Hsz.
    rewrite (isub_Ok (rear q)) by int_side. simpl.
    rewrite iadd_Ok by (unfold MAX_QUEUE_SIZE; int_side). simpl.
    rewrite imod_Ok by (unfold MAX_QUEUE_SIZE; int_side). simpl.
    rewrite isub_Ok by int_side. simpl.
    exists (Z.to_nat s), r. eexists. split; [done|]. split_and!; [|constructor; simpl| done |].
    + split; [done|]. right. split; [done|]. intros k x Hx.
      destruct (Hbest k x) as [H1 H2]; [|done|].
      * apply lookup_lt_Some in Hx. rewrite rq_list_length in Hx. lia.
      * split; [done|]. intros. apply H2. lia.
    + done.
    + apply Hd.
    + done.
    + unfold MAX_QUEUE_SIZE. lia.
    + pose proof (Z.mod_pos_bound (rear q - 1 + MAX_QUEUE_SIZE) MAX_QUEUE_SIZE). lia.
    + rewrite Zplus_mod_idemp_l.
      replace (rear q - 1 + MAX_QUEUE_SIZE + 1) with (rear q + 1 * MAX_QUEUE_SIZE - 0) by lia.
      rewrite Z.sub_0_r, Z_mod_plus_full. rewrite (rear_index Hpos) at 1.
      unfold index_of. rewrite Zmod_mod. done.
    + intros _. apply Z.mod_pos_bound. lia.
    + unfold rq_list at 1. simpl. by apply shifted_list.
Qed.
End select.

(** ** The driver *)

Section driver.
#[local] Arguments for_range : simpl never.
#[local] Arguments loop : simpl never.

(** What holds of a thread after [n] cycles: its counters are bounded, and its
    priority is 3 or 1 as it is memory intensive or not. *)
Record thread_ok (n : Z) (t : ThreadInfo) : Prop := {
  ok_requests : 0 <= memory_requests t <= n;
  ok_instructions : 0 <= instructions t <= 10 * n;
  ok_priority : priority t = if is_memory_intensive t then 3 else 1
}.

Definition threads_ok (n : Z -> Z) (ts : list ThreadInfo) : Prop :=
  len ts = MAX_THREADS /\ forall j t, zget ts j = Some t -> thread_ok (n j) t.

Definition queue_valid (q : Queue) : Prop :=
  rq_ok MAX_QUEUE_SIZE q /\ Forall (fun r => 0 <= thread_id r < MAX_THREADS) (rq_list q).

Definition draw_ok (d : draw) : Prop := 1 <= d_instructions d <= 10.

Lemma enqueue_valid q r :
  queue_valid q -> 0 <= thread_id r < MAX_THREADS ->
  exists q', enqueue q r = Ok q' /\ queue_valid q'.
Proof.
  intros [Hq Hall] Hr. unfold enqueue. pose proof (rq_size _ _ Hq).
  destruct (decide (size q = MAX_QUEUE_SIZE)) as [E|].
  - exists q. by rewrite rq_enqueue_full.
  - destruct (rq_enqueue_room _ q r Hq) as (q' & -> & Hok & _ & Hl); [lia|].
    exists q'. split; [done|]. split; [done|]. rewrite Hl. apply Forall_app.
    split; [done|]. by constructor.
Qed.

Lemma threads_ok_set n n' ts i t :
  threads_ok n ts -> 0 <= i < MAX_THREADS -> thread_ok (n' i) t ->
  (forall j, j <> i -> n' j = n j) -> threads_ok n' (zset ts i t).
Proof.
  intros [Hl Hts] Hi Ht Hn. split; [by rewrite length_zset|]. intros j u.
  destruct (decide (j = i)) as [->|].
  - rewrite zget_zset_eq by lia. by intros [= <-].
  - rewrite zget_zset_ne by done. rewrite Hn by done. apply Hts.
Qed.

Definition upto (n i j : Z) : Z := if j <? i then n + 1 else n.

Lemma thread_pass_ok n draws i q ts :
  0 <= n < 10000 -> (forall j, draw_ok (draws j)) -> 0 <= i < MAX_THREADS ->
  queue_valid q -> threads_ok (upto n i) ts ->
  exists q' ts', thread_pass draws i (q, ts) = Ok (q', ts') /\
    queue_valid q' /\ threads_ok (upto n (i + 1)) ts'.
Proof.
  intros Hn Hd Hi Hq Hts. pose proof Hts as [Hl Hts']. unfold thread_pass.
  destruct (zget_range ts i) as [t Ht]; [lia|]. rewrite (arr_read_Ok _ _ _ Ht), bind_ret_l.
  pose proof (Hd i) as Hdi. unfold draw_ok in Hdi. destruct (Hts' _ _ Ht) as [H1 H2 H3].
  assert (upto n i i = n) as Ei by (unfold upto; rewrite Z.ltb_irrefl; done).
  assert (upto n (i + 1) i = n + 1) as Ei' by (unfold upto; destruct (Z.ltb_spec i (i + 1)); lia).
  assert (forall j, j <> i -> upto n (i + 1) j = upto n i j) as Ej.
  { intros j Hj. unfold upto. destruct (Z.ltb_spec j (i + 1)), (Z.ltb_spec j i); lia. }
  rewrite Ei in *. rewrite iadd_Ok by int_side. rewrite bind_ret_l.
  rewrite arr_write_Ok by lia. rewrite bind_ret_l.
  destruct (d_request (draws i)) as [[a tm]|].
  - destruct (enqueue_valid q (mkRequest a tm i) Hq Hi) as (q' & -> & Hq'). rewrite bind_ret_l.
    erewrite arr_read_Ok by (apply zget_zset_eq; lia). rewrite bind_ret_l. simpl.
    rewrite iadd_Ok by int_side. simpl.
    rewrite arr_write_Ok by (rewrite length_zset; lia). simpl.
    do 2 eexists. split; [done|]. split; [done|].
    apply (threads_ok_set (upto n (i + 1))); [|done| |done].
    + apply (threads_ok_set (upto n i)); [done..| |done]. constructor; simpl; lia.
    + constructor; simpl; lia.
  - do 2 eexists. split; [done|]. split; [done|].
    apply (threads_ok_set (upto n i)); [done..| |done]. constructor; simpl; lia.
Qed.

(** The counters of a thread, which [classifyThreads] and
    [adaptSchedulingPolicy] do not touch. *)
Definition counters_ok (n : Z) (t : ThreadInfo) : Prop :=
  0 <= memory_requests t <= n /\ 0 <= instructions t <= 10 * n.

Definition class_priority (t : ThreadInfo) : Z := if is_memory_intensive t then 2 else 1.

Lemma classify_ok n ts :
  threads_ok (fun _ => n) ts ->
  exists ts', classifyThreads ts MAX_THREADS = Ok ts' /\ len ts' = MAX_THREADS /\
    forall j t, zget ts' j = Some t -> counters_ok n t /\ priority t = class_priority t.
Proof.
  intros [Hl Hts]. unfold classifyThreads.
  destruct (for_range_inv (fun i ts => len ts = MAX_THREADS /\ forall j t, zget ts j = Some t ->
      counters_ok n t /\ (j < i -> priority t = class_priority t)) (Z.to_nat MAX_THREADS) 0
    (fun i ts => t ← ts.[i]; ts.[i <- classify t]) ts) as (ts1 & -> & Hl1 & Hts1).
  - split; [done|]. intros j t Hj. destruct (Hts _ _ Hj).
    pose proof (zget_Some_range _ _ _ Hj). unfold counters_ok. lia.
  - intros i l Hi [Hl' Hall]. change (Z.of_nat (Z.to_nat MAX_THREADS)) with MAX_THREADS in Hi.
    destruct (zget_range l i) as [t Ht]; [lia|]. rewrite (arr_read_Ok _ _ _ Ht). simpl.
    rewrite arr_write_Ok by lia. eexists. split; [done|]. split; [by rewrite length_zset|].
    intros j u. destruct (decide (j = i)) as [->|].
    + rewrite zget_zset_eq by lia. intros [= <-]. by destruct (Hall _ _ Ht).
    + rewrite zget_zset_ne by done. intros Hu. destruct (Hall _ _ Hu) as [? Hp].
      split; [done|]. intros. apply Hp. lia.
  - exists ts1. split_and!; [done..|]. intros j t Hj.
    destruct (Hts1 _ _ Hj) as [? Hp]. split; [done|]. apply Hp.
    pose proof (zget_Some_range _ _ _ Hj). unfold MAX_THREADS in *. lia.
Qed.

(** What holds of thread [j] when [adaptSchedulingPolicy] has treated the
    threads before [i]. *)
Definition adapted (n i j : Z) (t : ThreadInfo) : Prop :=
  counters_ok n t /\
  priority t = if (j <? i) && is_memory_intensive t then 3 else class_priority t.

Lemma adapt_pass_ok n i l :
  0 <= i < MAX_THREADS -> len l = MAX_THREADS ->
  (forall j t, zget l j = Some t -> adapted n i j t) ->
  exists l', adapt_pass i l = Ok l' /\ len l' = MAX_THREADS /\
    forall j t, zget l' j = Some t -> adapted n (i + 1) j t.
Proof.
  intros Hi Hl Hall. unfold adapt_pass.
  destruct (zget_range l i) as [t Ht]; [lia|]. rewrite (arr_read_Ok _ _ _ Ht). simpl.
  destruct (Hall _ _ Ht) as [Hc Hp]. rewrite Z.ltb_irrefl in Hp. simpl in Hp.
  assert (forall j u, j <> i -> zget l j = Some u -> adapted n (i + 1) j u) as Hne.
  { intros j u Hj Hu. destruct (Hall _ _ Hu) as [? Hpu]. split; [done|].
    by replace (j <? i + 1) with (j <? i) by (destruct (Z.ltb_spec j i), (Z.ltb_spec j (i + 1)); lia). }
  unfold class_priority in Hp. destruct (is_memory_intensive t) eqn:Ei.
  - rewrite Hp. rewrite iadd_Ok by done. simpl. rewrite arr_write_Ok by lia.
    eexists. split; [done|]. split; [by rewrite length_zset|]. intros j u.
    destruct (decide (j = i)) as [->|]; [|rewrite zget_zset_ne by done; eauto].
    rewrite zget_zset_eq by lia. intros [= <-]. split; [done|]. simpl.
    destruct (Z.ltb_spec i (i + 1)); [done|lia].
  - eexists. split; [done|]. split; [done|]. intros j u.
    destruct (decide (j = i)) as [->|]; [|eauto]. rewrite Ht. intros [= <-].
    split; [done|]. unfold class_priority. by rewrite Ei, andb_false_r.
Qed.

Lemma classify_adapt_ok n ts :
  threads_ok (fun _ => n) ts ->
  exists ts', (ts1 ← classifyThreads ts MAX_THREADS; adaptSchedulingPolicy ts1 MAX_THREADS) = Ok ts' /\
    threads_ok (fun _ => n) ts'.
Proof.
  intros Hts. destruct (classify_ok n ts Hts) as (ts1 & -> & Hl1 & Hts1).
  rewrite bind_ret_l. unfold adaptSchedulingPolicy.
  destruct (for_range_inv (fun i l => len l = MAX_THREADS /\
      forall j t, zget l j = Some t -> adapted n i j t)
    (Z.to_nat MAX_THREADS) 0 adapt_pass ts1) as (ts2 & -> & Hl2 & Hts2).
  - split; [done|]. intros j t Hj. destruct (Hts1 _ _ Hj) as [? Hp].
    pose proof (zget_Some_range _ _ _ Hj). split; [done|].
    destruct (Z.ltb_spec j 0); [lia|]. done.
  - intros i l Hi [Hl Hall]. by apply adapt_pass_ok.
  - exists ts2. split; [done|]. split; [done|]. intros j t Hj.
    destruct (Hts2 _ _ Hj) as [[? ?] Hp]. constructor; [done..|].
    pose proof (zget_Some_range _ _ _ Hj). rewrite Hp. unfold class_priority.
    change (0 + Z.of_nat (Z.to_nat MAX_THREADS)) with MAX_THREADS.
    destruct (Z.ltb_spec j MAX_THREADS); [|lia]. simpl. by destruct (is_memory_intensive t).
Qed.

Lemma cycle_pass_ok draws n q ts out :
  0 <= n < 10000 -> (forall j, draw_ok (draws n j)) ->
  queue_valid q -> threads_ok (fun _ => n) ts ->
  exists q' ts' out', cycle_pass draws n (q, ts, out) = Ok (q', ts', out') /\
    queue_valid q' /\ threads_ok (fun _ => n + 1) ts'.
Proof.
  intros Hn Hd Hq Hts. unfold cycle_pass.
  destruct (for_range_inv (fun i st => queue_valid st.1 /\ threads_ok (upto n i) st.2)
    (Z.to_nat MAX_THREADS) 0 (thread_pass (draws n)) (q, ts)) as ([q1 ts1] & -> & Hq1 & Hts1).
  - split; [done|]. destruct Hts as [Hl Hts]. split; [done|]. intros j t Hj. simpl in *.
    pose proof (zget_Some_range _ _ _ Hj). unfold upto.
    destruct (Z.ltb_spec j 0); [lia|]. by apply (Hts j).
  - intros i [q2 ts2] Hi [Hq2 Hts2]. change (Z.of_nat (Z.to_nat MAX_THREADS)) with MAX_THREADS in Hi.
    destruct (thread_pass_ok n (draws n) i q2 ts2) as (q' & ts' & -> & ? & ?); try done.
    by eexists.
  - rewrite bind_ret_l. simpl in Hq1, Hts1.
    assert (threads_ok (fun _ => n + 1) ts1) as Hts1'.
    { destruct Hts1 as [Hl Hall]. split; [done|]. intros j t Hj. specialize (Hall _ _ Hj).
      pose proof (zget_Some_range _ _ _ Hj). unfold upto in Hall.
      destruct (Z.ltb_spec j (0 + Z.of_nat (Z.to_nat MAX_THREADS))); [done|].
      unfold MAX_THREADS in *. lia. }
    unfold ADAPTATION_INTERVAL. rewrite imod_Ok by int_side. rewrite bind_ret_l.
    assert (exists ts2, (if n mod 1000 =? 0 then
        ts ← classifyThreads ts1 MAX_THREADS; adaptSchedulingPolicy ts MAX_THREADS
      else Ok ts1) = Ok ts2 /\ threads_ok (fun _ => n + 1) ts2) as (ts2 & -> & Hts2).
    { destruct (n mod 1000 =? 0); [by apply classify_adapt_ok|by exists ts1]. }
    rewrite bind_ret_l. unfold isQueueEmpty, rq_empty. destruct Hq1 as [Hq1 Hall].
    destruct (Z.eqb_spec (size q1) 0); simpl.
    + exists q1, ts2, out. split; [done|]. by split.
    + pose proof (rq_size _ _ Hq1).
      destruct (schedule_ok ts2 q1) as (s & r & q2 & -> & _ & Hq2 & _ & Hl); try done; [|lia|].
      { destruct Hts2 as [-> _]. done. }
      simpl. do 3 eexists. split; [done|]. split; [|done]. split; [done|].
      rewrite Hl. by apply Forall_delete.
Qed.

Lemma init_threads_ok ts :
  len ts = MAX_THREADS ->
  for_range (Z.to_nat MAX_THREADS) 0 (fun i ts => ts.[i <- init_thread]) ts
    = Ok (replicate 8 init_thread).
Proof.
  unfold MAX_THREADS. intros H.
  do 8 (destruct ts as [|? ts]; [simpl in H; lia|]). destruct ts; [done|simpl in H; lia].
Qed.
End driver.

(** [scheduleRequest] on a non-empty queue removes exactly one request and
    keeps the others in order: the first among those whose thread has the
    highest priority, or the oldest request when no priority is positive. *)
Theorem adaptive_schedule_spec threads (q : Queue) :
  rq_ok MAX_QUEUE_SIZE q ->
  Forall (fun r => 0 <= thread_id r < len threads) (rq_list q) -> 0 < size q ->
  exists s r q', scheduleRequest q threads = Ok (r, q') /\ chosen threads q s r /\
    rq_ok MAX_QUEUE_SIZE q' /\ rq_list q' = delete s (rq_list q).
Proof.
  intros Hq Ht Hpos. destruct (schedule_ok threads q Hq Ht Hpos)
    as (s & r & q' & ? & ? & ? & _ & ?). by exists s, r, q'.
Qed.

(** Whatever the random draws, the driver runs its 10000 cycles without an
    array error, integer overflow or [exit]; after every cycle the queue is
    well formed and a thread has priority 3 or 1 according to its class. *)
Theorem adaptive_main_safe (n : nat) (q0 : Queue) threads0 draws :
  Z.of_nat n <= 10000 -> len (requests q0) = MAX_QUEUE_SIZE -> len threads0 = MAX_THREADS ->
  (forall c j, draw_ok (draws c j)) ->
  exists q ts out, adaptive_main n q0 threads0 draws = Ok (q, ts, out) /\
    queue_valid q /\ threads_ok (fun _ => Z.of_nat n) ts.
Proof.
  intros Hn Hq0 Ht0 Hd. unfold adaptive_main, initQueue. rewrite init_threads_ok by done.
  rewrite bind_ret_l. destruct (rq_init_ok MAX_QUEUE_SIZE q0) as [Hq Eq]; [done..|].
  destruct (for_range_inv (fun i st => queue_valid st.1.1 /\ threads_ok (fun _ => i) st.1.2)
    n 0 (cycle_pass draws) (rq_init q0, replicate 8 init_thread, []))
    as ([[q ts] out] & -> & ? & ?).
  - split; [split; [done|by simpl; rewrite Eq]|]. split; [done|]. intros j t Ht.
    apply (Forall_zget (fun t => thread_ok 0 t) (replicate 8 init_thread) j); [|done].
    apply Forall_replicate. by constructor.
  - intros i [[q ts] out] Hi [Hq' Hts]. simpl in Hq', Hts.
    destruct (cycle_pass_ok draws i q ts out) as (q' & ts' & out' & -> & ? & ?); try done; [lia|].
    by eexists.
  - by exists q, ts, out.
Qed.

Definition sample_queue : Queue :=
  mkRQ ([mkRequest 1 0 0; mkRequest 2 0 1; mkRequest 3 0 1; mkRequest 4 0 0] ++
        replicate 96 (mkRequest 0 0 0)) 0 3 4.

Lemma adaptive_schedule_spec_witness :
  exists s r q', scheduleRequest sample_queue [mkThread 0 0 false 1; mkThread 9 9 true 3] = Ok (r, q') /\
    chosen [mkThread 0 0 false 1; mkThread 9 9 true 3] sample_queue s r /\
    rq_ok MAX_QUEUE_SIZE q' /\ rq_list q' = delete s (rq_list sample_queue).
Proof.
  apply (adaptive_schedule_spec [mkThread 0 0 false 1; mkThread 9 9 true 3] sample_queue).
  - constructor; vm_compute; intuition discriminate.
  - repeat constructor; vm_compute; (discriminate || reflexivity).
  - reflexivity.
Defined.

Lemma adaptive_main_safe_witness :
  exists q ts out, adaptive_main (Z.to_nat 10000) (mkRQ (replicate 100 (mkRequest 0 0 0)) 0 0 0)
      (replicate 8 init_thread) (fun _ j => mkDraw 3 (if j =? 2 then Some (7, 8) else None))
    = Ok (q, ts, out) /\ queue_valid q /\ threads_ok (fun _ => Z.of_nat (Z.to_nat 10000)) ts.
Proof.
  apply (adaptive_main_safe (Z.to_nat 10000) (mkRQ (replicate 100 (mkRequest 0 0 0)) 0 0 0)
      (replicate 8 init_thread) (fun _ j => mkDraw 3 (if j =? 2 then Some (7, 8) else None)));
    [rewrite Z2Nat.id; vm_compute; discriminate|reflexivity|reflexivity|].
  intros c j. split; vm_compute; discriminate.
Defined.
