(* ===== verification/CommandSched.v ===== *)
(** * DRAM command scheduling ([concurrency/scheduling/commandScheduling.c])

    A queue of commands and the state of four banks.  A read or write of a row
    that is not open is put back behind an activate command.  The commands the
    program prints are its output; they are kept as a trace. *)
From Stdlib Require Import ZArith Lia.
From stdpp Require Import base tactics list numbers option.
From S2P Require Import Prelude Ring RequestQueue.

#[local] Open Scope Z_scope.
#[local] Open Scope c_scope.

Definition NUM_BANKS : Z := 4.
Definition QUEUE_SIZE : Z := 16.

Inductive CommandType : Type := CMD_ACTIVATE | CMD_READ | CMD_WRITE | CMD_PRECHARGE.

#[export] Instance CommandType_eq_dec : EqDecision CommandType.
Proof. solve_decision. Defined.

Record Command : Type := mkCommand {
  type : CommandType;
  bank : Z;
  row : Z;
  column : Z
}.

Record BankState : Type := mkBank {
  is_open : bool;
  open_row : Z
}.

Abbreviation CommandQueue := (rqueue Command).

(** The globals [cmd_queue] and [bank_states], and the commands issued. *)
Record state : Type := mkState {
  cmd_queue : CommandQueue;
  bank_states : list BankState;
  issued : list Command
}.

Definition init_command_queue (q : CommandQueue) : CommandQueue := rq_init q.
Definition is_queue_full (q : CommandQueue) : bool := rq_full QUEUE_SIZE q.
Definition is_queue_empty (q : CommandQueue) : bool := rq_empty q.
Definition enqueue_command (q : CommandQueue) (cmd : Command) : res CommandQueue :=
  rq_enqueue QUEUE_SIZE q cmd.
Definition dequeue_command (q : CommandQueue) : res (Command * CommandQueue) :=
  rq_dequeue QUEUE_SIZE q.

(** The cases [CMD_READ] and [CMD_WRITE]. *)
Definition access_command (q : CommandQueue) (st : state) (cmd : Command) : res state :=
  b ← (bank_states st).[bank cmd];
  if is_open b && (open_row b =? row cmd) then
    Ok (mkState q (bank_states st) (issued st ++ [cmd]))
  else
    q1 ← enqueue_command q (mkCommand CMD_ACTIVATE (bank cmd) (row cmd) 0);
    q2 ← enqueue_command q1 cmd;
    Ok (mkState q2 (bank_states st) (issued st)).

(** One pass of the loop of [schedule_commands]. *)
Definition schedule_pass (st : state) : res (ctl state state) :=
  if negb (is_queue_empty (cmd_queue st)) then
    '(cmd, q) ← dequeue_command (cmd_queue st);
    match type cmd with
    | CMD_ACTIVATE =>
        b ← (bank_states st).[bank cmd];
        if negb (is_open b) then
          bs ← (bank_states st).[bank cmd <- mkBank true (row cmd)];
          Ok (Next (mkState q bs (issued st ++ [cmd])))
        else Ok (Next (mkState q (bank_states st) (issued st)))
    | CMD_READ | CMD_WRITE => st' ← access_command q st cmd; Ok (Next st')
    | CMD_PRECHARGE =>
        b ← (bank_states st).[bank cmd];
        if is_open b then
          bs ← (bank_states st).[bank cmd <- mkBank false (open_row b)];
          Ok (Next (mkState q bs (issued st ++ [cmd])))
        else Ok (Next (mkState q (bank_states st) (issued st)))
    end
  else Ok (Return st).

Definition schedule_commands (fuel : nat) (st : state) : res state :=
  loop fuel schedule_pass st.

(** [main] on a list of commands; the program has the list [main_commands].
    The queue [q0] and banks [b0] are the zeroed globals. *)
Definition command_main (fuel : nat) (q0 : CommandQueue) (b0 : list BankState)
    (cmds : list Command) : res state :=
  bs ← for_range (Z.to_nat NUM_BANKS) 0
         (fun i bs => b ← bs.[i]; bs.[i <- mkBank false (open_row b)]) b0;
  q ← foldl (fun m c => q ← m; enqueue_command q c) (Ok (init_command_queue q0)) cmds;
  schedule_commands fuel (mkState q bs []).

Definition main_commands : list Command :=
  [mkCommand CMD_ACTIVATE 0 1000 0; mkCommand CMD_READ 0 1000 50;
   mkCommand CMD_WRITE 1 2000 100; mkCommand CMD_READ 0 1000 60;
   mkCommand CMD_PRECHARGE 0 0 0].

(** ** The DRAM protocol

    A command is legal when the bank is in the state it needs: closed for an
    activate, open on the row for a read or write, open for a precharge.
    [replay] runs a trace and fails on the first illegal command. *)
Definition protocol (bs : list BankState) (c : Command) : option (list BankState) :=
  b ← zget bs (bank c);
  match type c with
  | CMD_ACTIVATE => if is_open b then None else Some (zset bs (bank c) (mkBank true (row c)))
  | CMD_READ | CMD_WRITE => if is_open b && (open_row b =? row c) then Some bs else None
  | CMD_PRECHARGE => if is_open b then Some (zset bs (bank c) (mkBank false (open_row b))) else None
  end.

Fixpoint replay (bs : list BankState) (tr : list Command) : option (list BankState) :=
  match tr with
  | [] => Some bs
  | c :: tr' => bs' ← protocol bs c; replay bs' tr'
  end.

(** The states [schedule_commands] goes through. *)
Inductive reaches : state -> state -> Prop :=
| reaches_refl st : reaches st st
| reaches_step st st1 st2 :
    reaches st st1 -> schedule_pass st1 = Ok (Next st2) -> reaches st st2.

Definition command_ok (c : Command) : Prop := 0 <= bank c < NUM_BANKS.

Record state_ok (st : state) : Prop := {
  st_queue : rq_ok QUEUE_SIZE (cmd_queue st);
  st_cmds : Forall command_ok (rq_list (cmd_queue st));
  st_banks : len (bank_states st) = NUM_BANKS
}.

Section safety.
#[local] Arguments loop : simpl never.
#[local] Arguments for_range : simpl never.

Lemma replay_app bs tr1 tr2 : replay bs (tr1 ++ tr2) = (bs' ← replay bs tr1; replay bs' tr2).
Proof.
  revert bs. induction tr1 as [|c tr1 IH]; intros bs; simpl; [done|].
  destruct (protocol bs c); simpl; [apply IH|done].
Qed.

Lemma replay_snoc bs tr c bs1 bs2 :
  replay bs tr = Some bs1 -> protocol bs1 c = Some bs2 -> replay bs (tr ++ [c]) = Some bs2.
Proof. intros H1 H2. rewrite replay_app, H1. simpl. by rewrite H2. Qed.

(** An enqueue, whether or not there is room. *)
Lemma enqueue_command_ok q c :
  rq_ok QUEUE_SIZE q -> Forall command_ok (rq_list q) -> command_ok c ->
  exists q', enqueue_command q c = Ok q' /\ rq_ok QUEUE_SIZE q' /\ Forall command_ok (rq_list q').
Proof.
  intros Hq Hall Hc. unfold enqueue_command. pose proof (rq_size _ _ Hq).
  destruct (decide (size q = QUEUE_SIZE)) as [E|].
  - exists q. by rewrite rq_enqueue_full.
  - destruct (rq_enqueue_room _ q c Hq) as (q' & -> & Hok & _ & Hl); [lia|].
    exists q'. split_and!; [done..|]. rewrite Hl. apply Forall_app. auto.
Qed.

Lemma access_ok q st cmd :
  rq_ok QUEUE_SIZE q -> Forall command_ok (rq_list q) -> len (bank_states st) = NUM_BANKS ->
  command_ok cmd -> type cmd = CMD_READ \/ type cmd = CMD_WRITE ->
  exists st', access_command q st cmd = Ok st' /\ state_ok st' /\
    bank_states st' = bank_states st /\
    (issued st' = issued st \/
     issued st' = issued st ++ [cmd] /\ protocol (bank_states st) cmd = Some (bank_states st)).
Proof.
  intros Hq Hall Hl Hc Ht. unfold access_command, protocol.
  destruct (zget_range (bank_states st) (bank cmd)) as [b Hb]; [by rewrite Hl|].
  rewrite (arr_read_Ok _ _ _ Hb), Hb. simpl.
  destruct (is_open b && (open_row b =? row cmd)).
  - eexists. split; [done|]. split_and!; [by constructor|done|]. right. split; [done|].
    by destruct Ht as [-> | ->].
  - destruct (enqueue_command_ok q (mkCommand CMD_ACTIVATE (bank cmd) (row cmd) 0))
      as (q1 & -> & Hq1 & Hall1); try done. simpl.
    destruct (enqueue_command_ok q1 cmd) as (q2 & -> & Hq2 & Hall2); try done. simpl.
    eexists. split; [done|]. split_and!; [by constructor|done|]. by left.
Qed.

(** A pass from a well-formed state does not fault, keeps it well formed and
    issues at most one command, a legal one. *)
Lemma schedule_pass_ok st :
  state_ok st -> rq_list (cmd_queue st) <> [] ->
  exists st', schedule_pass st = Ok (Next st') /\ state_ok st' /\
    ((issued st' = issued st /\ bank_states st' = bank_states st) \/
     exists c, issued st' = issued st ++ [c] /\
       protocol (bank_states st) c = Some (bank_states st')).
Proof.
  intros [Hq Hall Hl] Hne. unfold schedule_pass, is_queue_empty, dequeue_command.
  destruct (rq_empty (cmd_queue st)) eqn:E;
    [by apply (rq_list_nil _ _ Hq) in E|]. simpl.
  unfold rq_empty in E. zbool. pose proof (rq_size _ _ Hq).
  destruct (rq_dequeue_some _ _ Hq) as (c & q & -> & Hq' & _ & Hlist); [lia|]. simpl.
  rewrite Hlist in Hall. apply Forall_cons_iff in Hall as [Hc Hall].
  destruct (zget_range (bank_states st) (bank c)) as [b Hb]; [by rewrite Hl|].
  assert (0 <= bank c < len (bank_states st)) as Hbk by (rewrite Hl; done).
  destruct (type c) eqn:Et.
  - rewrite (arr_read_Ok _ _ _ Hb). simpl. destruct (is_open b) eqn:Eo; simpl.
    + eexists. split; [done|]. split; [by constructor|]. by left.
    + rewrite arr_write_Ok by done. simpl. eexists. split; [done|].
      split; [constructor; simpl; rewrite ?length_zset; done|]. right. exists c. simpl.
      split; [done|]. unfold protocol. rewrite Hb. simpl. by rewrite Et, Eo.
  - destruct (access_ok q st c) as (st' & -> & Hok & Hbs & Hi); auto. simpl.
    eexists. split; [done|]. split; [done|]. destruct Hi as [Hi|[Hi Hp]]; [by left|].
    right. exists c. by rewrite Hbs.
  - destruct (access_ok q st c) as (st' & -> & Hok & Hbs & Hi); auto. simpl.
    eexists. split; [done|]. split; [done|]. destruct Hi as [Hi|[Hi Hp]]; [by left|].
    right. exists c. by rewrite Hbs.
  - rewrite (arr_read_Ok _ _ _ Hb). simpl. destruct (is_open b) eqn:Eo; simpl.
    + rewrite arr_write_Ok by done. simpl. eexists. split; [done|].
      split; [constructor; simpl; rewrite ?length_zset; done|]. right. exists c. simpl.
      split; [done|]. unfold protocol. rewrite Hb. simpl. by rewrite Et, Eo.
    + eexists. split; [done|]. split; [by constructor|]. by left.
Qed.

Lemma schedule_pass_empty st :
  state_ok st -> rq_list (cmd_queue st) = [] -> schedule_pass st = Ok (Return st).
Proof.
  intros [Hq _ _] He. unfold schedule_pass, is_queue_empty.
  by rewrite (proj2 (rq_list_nil _ _ Hq) He).
Qed.

Lemma reaches_ok st st' :
  reaches st st' -> state_ok st ->
  state_ok st' /\ exists tr, issued st' = issued st ++ tr /\
    replay (bank_states st) tr = Some (bank_states st').
Proof.
  induction 1 as [st|st st1 st2 _ IH Hstep]; intros Hok.
  - split; [done|]. exists []. by rewrite app_nil_r.
  - destruct (IH Hok) as [Hok1 (tr & Ht & Hr)].
    destruct (decide (rq_list (cmd_queue st1) = [])) as [He|Hne].
    + by rewrite schedule_pass_empty in Hstep.
    + destruct (schedule_pass_ok st1 Hok1 Hne) as (st' & Hs & Hok' & Hi).
      rewrite Hs in Hstep. injection Hstep as <-. split; [done|].
      destruct Hi as [[-> ->]|(c & -> & Hp)]; [by exists tr|].
      exists (tr ++ [c]). rewrite Ht, app_assoc. split; [done|]. by eapply replay_snoc.
Qed.
End safety.

(** ** Progress on row-consistent workloads

    [rows] gives one row per bank.  When every activate, read and write of a
    bank names that row, a put-back command finds its row open. *)
Section progress.
Context (rows : Z -> Z).
#[local] Arguments loop : simpl never.

Definition is_access (c : Command) : bool :=
  match type c with CMD_READ | CMD_WRITE => true | _ => false end.

Definition accesses (l : list Command) : list Command := filter (fun c => is_access c = true) l.

Definition consistent (c : Command) : Prop :=
  command_ok c /\ (type c <> CMD_PRECHARGE -> row c = rows (bank c)).

Definition banks_consistent (bs : list BankState) : Prop :=
  len bs = NUM_BANKS /\ forall i b, zget bs i = Some b -> is_open b = true -> open_row b = rows i.

(** An access that was put back: the activate and the access. *)
Definition retry (c : Command) : list Command :=
  [mkCommand CMD_ACTIVATE (bank c) (row c) 0; c].

Definition retries (l : list Command) : list Command := l ≫= retry.

Lemma banks_consistent_set bs i o r :
  banks_consistent bs -> (o = true -> r = rows i) -> 0 <= i < NUM_BANKS ->
  banks_consistent (zset bs i (mkBank o r)).
Proof.
  intros [Hl Hb] Hr Hi. split; [by rewrite length_zset|]. intros j b.
  destruct (decide (j = i)) as [->|].
  - rewrite zget_zset_eq by lia. by intros [= <-].
  - rewrite zget_zset_ne by done. apply Hb.
Qed.

Lemma dequeue_cons q c l :
  rq_ok QUEUE_SIZE q -> rq_list q = c :: l ->
  exists q', dequeue_command q = Ok (c, q') /\ is_queue_empty q = false /\
    rq_ok QUEUE_SIZE q' /\ rq_list q' = l.
Proof.
  intros Hq Hl. pose proof (length_rq_list _ q Hq) as Hlen. rewrite Hl in Hlen. simpl in Hlen.
  destruct (rq_dequeue_some _ q Hq) as (x & q' & Hd & Hq' & _ & Hl'); [lia|].
  rewrite Hl in Hl'. injection Hl' as <- ->. exists q'. split_and!; try done.
  unfold is_queue_empty, rq_empty. apply Z.eqb_neq. lia.
Qed.

Lemma enqueue_list q c :
  rq_ok QUEUE_SIZE q -> len (rq_list q) < QUEUE_SIZE ->
  exists q', enqueue_command q c = Ok q' /\ rq_ok QUEUE_SIZE q' /\ rq_list q' = rq_list q ++ [c].
Proof.
  intros Hq Hlen. rewrite (length_rq_list _ q Hq) in Hlen.
  destruct (rq_enqueue_room _ q c Hq Hlen) as (q' & ? & ? & _ & ?). by exists q'.
Qed.

(** What a pass that took the consistent command [c] off the queue, leaving
    [l], has done. *)
Definition passed (bs : list BankState) (tr : list Command) (c : Command)
    (l : list Command) (st : state) : Prop :=
  rq_ok QUEUE_SIZE (cmd_queue st) /\ banks_consistent (bank_states st) /\
  ((rq_list (cmd_queue st) = l /\ accesses (issued st) = accesses tr ++ accesses [c] /\
    (type c = CMD_ACTIVATE ->
     zget (bank_states st) (bank c) = Some (mkBank true (rows (bank c))))) \/
   (is_access c = true /\ zget bs (bank c) <> Some (mkBank true (rows (bank c))) /\
    rq_list (cmd_queue st) = l ++ retry c /\ issued st = tr)).

Lemma accesses_app l1 l2 : accesses (l1 ++ l2) = accesses l1 ++ accesses l2.
Proof. apply list.filter_app. Qed.

Lemma accesses_none tr c : is_access c = false -> accesses tr = accesses tr ++ accesses [c].
Proof.
  intros Hc. rewrite <- accesses_app. unfold accesses. rewrite list.filter_app.
  rewrite (filter_none _ [c]); [by rewrite app_nil_r|]. constructor; [congruence|done].
Qed.

Lemma access_consistent q q0 bs tr c :
  rq_ok QUEUE_SIZE q -> consistent c -> banks_consistent bs ->
  len (rq_list q) + 2 <= QUEUE_SIZE -> is_access c = true ->
  exists st', access_command q (mkState q0 bs tr) c = Ok st' /\ passed bs tr c (rq_list q) st'.
Proof.
  intros Hq [Hc Hrow] Hbc Hroom Ht. pose proof Hbc as [Hlb Hb]. unfold access_command. simpl.
  assert (type c <> CMD_ACTIVATE /\ type c <> CMD_PRECHARGE) as [Hna Hnp].
  { unfold is_access in Ht. by destruct (type c). }
  destruct (zget_range bs (bank c)) as [b Hgb]; [by rewrite Hlb|].
  rewrite (arr_read_Ok _ _ _ Hgb). simpl.
  destruct (is_open b && (open_row b =? row c)) eqn:E; simpl.
  - eexists. split; [done|]. split_and!; [done..|]. left. simpl. by rewrite accesses_app.
  - destruct (enqueue_list q (mkCommand CMD_ACTIVATE (bank c) (row c) 0))
      as (q1 & -> & Hq1 & Hl1); [done|lia|]. simpl.
    destruct (enqueue_list q1 c) as (q2 & -> & Hq2 & Hl2);
      [done|rewrite Hl1, length_app; simpl; lia|]. simpl.
    eexists. split; [done|]. split_and!; [done..|]. right. split_and!; [done| | |done].
    + rewrite Hgb. intros [= ->]. simpl in E. by rewrite Hrow, Z.eqb_refl in E.
    + simpl. by rewrite Hl2, Hl1, <- app_assoc.
Qed.

(** A pass on a queue that starts with the consistent command [c]. *)
Lemma pass_consistent q bs tr c l :
  rq_ok QUEUE_SIZE q -> rq_list q = c :: l -> consistent c -> banks_consistent bs ->
  (is_access c = true -> len l + 2 <= QUEUE_SIZE) ->
  exists st', schedule_pass (mkState q bs tr) = Ok (Next st') /\ passed bs tr c l st'.
Proof.
  intros Hq Hl Hcc Hbc Hroom. pose proof Hcc as [Hc Hrow]. pose proof Hbc as [Hlb Hb].
  destruct (dequeue_cons q c l Hq Hl) as (q' & Hd & He & Hq' & <-).
  unfold schedule_pass. simpl. rewrite He, Hd. simpl.
  unfold command_ok in Hc. destruct (zget_range bs (bank c)) as [b Hgb]; [lia|].
  destruct (type c) eqn:Et.
  - rewrite (arr_read_Ok _ _ _ Hgb). simpl. destruct (is_open b) eqn:Eo; simpl.
    + eexists. split; [done|]. split_and!; [done..|]. left. simpl. split_and!; [done| |].
      * apply accesses_none. unfold is_access. by rewrite Et.
      * intros _. rewrite Hgb. f_equal. rewrite <- (Hb _ _ Hgb Eo).
        destruct b; simpl in *. by subst.
    + rewrite arr_write_Ok by lia. simpl. eexists. split; [done|].
      assert (row c = rows (bank c)) as Hr by by apply Hrow.
      split_and!; [done|by apply banks_consistent_set|]. left. simpl. rewrite accesses_app.
      split_and!; [done..|]. intros _. rewrite zget_zset_eq by lia. by rewrite Hr.
  - assert (is_access c = true) as Ha by (unfold is_access; by rewrite Et).
    destruct (access_consistent q' q bs tr c) as (st' & -> & ?); auto. by eexists.
  - assert (is_access c = true) as Ha by (unfold is_access; by rewrite Et).
    destruct (access_consistent q' q bs tr c) as (st' & -> & ?); auto. by eexists.
  - rewrite (arr_read_Ok _ _ _ Hgb). simpl. destruct (is_open b) eqn:Eo; simpl.
    + rewrite arr_write_Ok by lia. simpl. eexists. split; [done|].
      split_and!; [done|by apply banks_consistent_set|]. left. simpl. rewrite accesses_app.
      split_and!; [done..|]. congruence.
    + eexists. split; [done|]. split_and!; [done..|]. left. simpl. split_and!; [done| |congruence].
      apply accesses_none. unfold is_access. by rewrite Et.
Qed.

(** The put-back accesses are served two commands at a time. *)
Lemma retries_served l : forall fuel q bs tr,
  rq_ok QUEUE_SIZE q -> rq_list q = retries l -> banks_consistent bs ->
  Forall (fun c => consistent c /\ is_access c = true) l -> 2 * len l <= QUEUE_SIZE ->
  (2 * length l < fuel)%nat ->
  exists st', loop fuel schedule_pass (mkState q bs tr) = Ok st' /\
    accesses (issued st') = accesses tr ++ l.
Proof.
  induction l as [|c l IH]; intros fuel q bs tr Hq Hl Hb Hall Hroom Hf.
  - destruct fuel as [|fuel]; [simpl in Hf; lia|]. rewrite loop_S.
    unfold schedule_pass, is_queue_empty. simpl.
    rewrite (proj2 (rq_list_nil _ _ Hq) Hl). simpl. eexists. split; [done|]. by rewrite app_nil_r.
  - apply Forall_cons_iff in Hall as [[Hc Ha] Hall]. simpl in Hroom, Hf.
    destruct fuel as [|[|fuel]]; [lia..|]. rewrite loop_S.
    assert (len (retries l) = 2 * len l) as Hlen.
    { unfold retries. clear. induction l as [|c l IH]; [done|]. rewrite bind_cons, length_app.
      unfold retry at 1. simpl length. lia. }
    destruct (pass_consistent q bs tr (mkCommand CMD_ACTIVATE (bank c) (row c) 0) (c :: retries l))
      as ([q1 bs1 tr1] & -> & Hq1 & Hb1 & Hcase); try done.
    { destruct Hc as [Hc Hr]. split; [done|]. intros _. apply Hr. unfold is_access in Ha.
      by destruct (type c). }
    simpl in *. destruct Hcase as [(Hl1 & Ha1 & Hopen)|(? & _)]; [|done].
    specialize (Hopen eq_refl). rewrite loop_S.
    destruct (pass_consistent q1 bs1 tr1 c (retries l)) as ([q2 bs2 tr2] & -> & Hq2 & Hb2 & Hcase);
      try done; [intros _; unfold QUEUE_SIZE in *; lia|].
    simpl in *. destruct Hcase as [(Hl2 & Ha2 & _)|(_ & Hn & _)]; [|done].
    destruct (IH fuel q2 bs2 tr2) as (st' & -> & Hst); try done; [lia..|].
    exists st'. split; [done|]. rewrite Hst, Ha2, Ha1. unfold accesses at 2 3.
    rewrite !filter_cons, !filter_nil. simpl. rewrite Ha. simpl.
    by rewrite app_nil_r, <- app_assoc.
Qed.

Lemma retries_app l1 l2 : retries (l1 ++ l2) = retries l1 ++ retries l2.
Proof. apply bind_app. Qed.

Lemma length_retries l : len (retries l) = 2 * len l.
Proof.
  unfold retries. induction l as [|c l IH]; [done|]. rewrite bind_cons, length_app.
  unfold retry at 1. simpl length. lia.
Qed.

(** First the commands [l] that arrived, then the accesses [p] put back. *)
Lemma commands_served l : forall fuel p q bs tr,
  rq_ok QUEUE_SIZE q -> rq_list q = l ++ retries p -> banks_consistent bs ->
  Forall consistent l -> Forall (fun c => consistent c /\ is_access c = true) p ->
  2 * (len l + len p) <= QUEUE_SIZE -> (3 * length l + 2 * length p < fuel)%nat ->
  exists st', loop fuel schedule_pass (mkState q bs tr) = Ok st' /\
    accesses (issued st') ≡ₚ accesses tr ++ accesses l ++ p.
Proof.
  induction l as [|c l IH]; intros fuel p q bs tr Hq Hl Hb Hall Hp Hroom Hf.
  - destruct (retries_served p fuel q bs tr) as (st' & -> & Hst); try done; [simpl in *; lia..|].
    exists st'. by rewrite Hst.
  - apply Forall_cons_iff in Hall as [Hc Hall]. simpl length in Hroom, Hf.
    destruct fuel as [|fuel]; [lia|]. rewrite loop_S. pose proof (length_retries p) as Hlr.
    destruct (pass_consistent q bs tr c (l ++ retries p)) as ([q1 bs1 tr1] & -> & Hq1 & Hb1 & Hcase);
      try done; [rewrite length_app; intros _; lia|].
    rewrite bind_ret_l. simpl in Hq1, Hb1, Hcase.
    replace (c :: l) with ([c] ++ l) by done. rewrite accesses_app.
    destruct Hcase as [(Hl1 & Ha1 & _)|(Ha & _ & Hl1 & ->)].
    + destruct (IH fuel p q1 bs1 tr1) as (st' & -> & Hst); try done; [lia..|].
      exists st'. split; [done|]. by rewrite Hst, Ha1, <- !app_assoc.
    + destruct (IH fuel (p ++ [c]) q1 bs1 tr) as (st' & -> & Hst); try done.
      * by rewrite Hl1, retries_app, app_assoc.
      * apply Forall_app. split; [done|]. by constructor.
      * rewrite length_app. simpl. lia.
      * rewrite length_app. simpl. lia.
      * exists st'. split; [done|]. rewrite Hst. apply Permutation_app_head.
        unfold accesses at 2. rewrite filter_cons_True by done. rewrite filter_nil.
        rewrite app_assoc, (Permutation_app_comm _ [c]). by rewrite <- app_assoc.
Qed.
End progress.

Lemma close_banks_ok b0 :
  len b0 = NUM_BANKS ->
  exists bs, for_range (Z.to_nat NUM_BANKS) 0
      (fun i bs => b ← bs.[i]; bs.[i <- mkBank false (open_row b)]) b0 = Ok bs /\
    len bs = NUM_BANKS /\ Forall (fun b => is_open b = false) bs.
Proof.
  unfold NUM_BANKS. intros H.
  do 4 (destruct b0 as [|? b0]; [simpl in H; lia|]). destruct b0; [|simpl in H; lia].
  eexists. split; [done|]. split; [done|]. by repeat constructor.
Qed.

#[local] Arguments loop : simpl never.

(** C4.  From any well-formed state, every state that [schedule_commands] goes
    through is well formed and the commands issued up to it obey the DRAM
    protocol: a bank is activated only when closed, read or written only when
    the row is open, and precharged only when open; replaying them gives the
    bank states the program keeps.  A pass never faults. *)
Theorem issued_commands_legal st st' :
  state_ok st -> reaches st st' ->
  state_ok st' /\
  (exists tr, issued st' = issued st ++ tr /\
     replay (bank_states st) tr = Some (bank_states st')) /\
  is_ok (schedule_pass st') = true.
Proof.
  intros Hok Hr. destruct (reaches_ok _ _ Hr Hok) as [Hok' Htr]. split_and!; [done..|].
  destruct (decide (rq_list (cmd_queue st') = [])) as [He|Hne].
  - by rewrite schedule_pass_empty.
  - by destruct (schedule_pass_ok st' Hok' Hne) as (? & -> & _).
Qed.

(** C16.  If no bank is asked for two different rows, a batch of at most eight
    commands is scheduled to the end: the program terminates and issues every
    read and write exactly once. *)
Theorem consistent_commands_served rows q0 b0 cmds :
  len (requests q0) = QUEUE_SIZE -> len b0 = NUM_BANKS ->
  Forall (consistent rows) cmds -> len cmds <= 8 ->
  exists st, command_main (1 + 3 * length cmds) q0 b0 cmds = Ok st /\
    accesses (issued st) ≡ₚ accesses cmds.
Proof.
  intros Hq0 Hb0 Hall Hlen. unfold command_main, schedule_commands, enqueue_command, init_command_queue.
  destruct (close_banks_ok b0 Hb0) as (bs & -> & Hbs & Hclosed). rewrite bind_ret_l.
  destruct (rq_init_ok QUEUE_SIZE q0) as [Hq Eq]; [done..|].
  destruct (rq_enqueue_all QUEUE_SIZE (rq_init q0) cmds) as (q & -> & Hok & Hl);
    [done|simpl; unfold QUEUE_SIZE; lia|].
  rewrite bind_ret_l. rewrite Eq in Hl.
  destruct (commands_served rows cmds (1 + 3 * length cmds) [] q bs []) as (st & -> & Hst); try done.
  - by rewrite Hl, app_nil_r.
  - split; [done|]. intros i b Hb Ho. by rewrite (Forall_zget _ _ _ _ Hclosed Hb) in Ho.
  - simpl. unfold QUEUE_SIZE. lia.
  - simpl. lia.
  - exists st. split; [done|]. rewrite Hst. simpl. by rewrite app_nil_r.
Qed.

(** A read of a row while its bank is open on another row is never served
    and the loop never ends: the activate is skipped because the bank is open,
    and the read is put back for ever. *)
Theorem row_conflict_livelocks fuel q bs tr b r c r' :
  rq_ok QUEUE_SIZE q -> rq_list q = [mkCommand CMD_READ b r c] -> r <> r' ->
  zget bs b = Some (mkBank true r') ->
  schedule_commands fuel (mkState q bs tr) = Fault OutOfFuel.
Proof.
  intros Hq Hl Hr Hb. unfold schedule_commands.
  apply (loop_diverges (fun st => rq_ok QUEUE_SIZE (cmd_queue st) /\ bank_states st = bs /\
    (rq_list (cmd_queue st) = [mkCommand CMD_READ b r c] \/
     rq_list (cmd_queue st) = [mkCommand CMD_ACTIVATE b r 0; mkCommand CMD_READ b r c])));
    [|by split_and!; [..|left]].
  intros [q1 bs1 tr1]. simpl. intros (Hq1 & -> & [Hl1|Hl1]).
  - destruct (dequeue_cons q1 _ _ Hq1 Hl1) as (q2 & Hd & He & Hq2 & Hl2).
    unfold schedule_pass. simpl. rewrite He, Hd. simpl. unfold access_command. simpl.
    rewrite (arr_read_Ok _ _ _ Hb). simpl.
    destruct (Z.eqb_spec r' r) as [|_]; [congruence|].
    destruct (enqueue_list q2 (mkCommand CMD_ACTIVATE b r 0)) as (q3 & -> & Hq3 & Hl3);
      [done|by rewrite Hl2|]. simpl.
    destruct (enqueue_list q3 (mkCommand CMD_READ b r c)) as (q4 & -> & Hq4 & Hl4);
      [done|by rewrite Hl3, Hl2|]. simpl.
    eexists. split; [done|]. simpl. split_and!; [done..|]. right. by rewrite Hl4, Hl3, Hl2.
  - destruct (dequeue_cons q1 _ _ Hq1 Hl1) as (q2 & Hd & He & Hq2 & Hl2).
    unfold schedule_pass. simpl. rewrite He, Hd. simpl. rewrite (arr_read_Ok _ _ _ Hb). simpl.
    eexists. split; [done|]. simpl. split_and!; [done..|]. by left.
Qed.

(** An access put back into a full queue is lost: of sixteen queued
    commands the first is a read or write whose row is not open; the activate
    takes the freed slot, the access is neither issued nor queued any more. *)
Lemma full_queue_drops_access q bs tr c l b :
  rq_ok QUEUE_SIZE q -> rq_list q = c :: l -> len l = 15 -> is_access c = true ->
  zget bs (bank c) = Some b -> is_open b && (open_row b =? row c) = false ->
  exists q', schedule_pass (mkState q bs tr) = Ok (Next (mkState q' bs tr)) /\
    rq_list q' = l ++ [mkCommand CMD_ACTIVATE (bank c) (row c) 0].
Proof.
  intros Hq Hl Hlen Ha Hb Hclosed.
  destruct (dequeue_cons q _ _ Hq Hl) as (q1 & Hd & He & Hq1 & Hl1).
  destruct (enqueue_list q1 (mkCommand CMD_ACTIVATE (bank c) (row c) 0)) as (q2 & Hq2 & Hok2 & Hl2);
    [done|by rewrite Hl1, Hlen|].
  assert (access_command q1 (mkState q bs tr) c = Ok (mkState q2 bs tr)) as Hacc.
  { unfold access_command. simpl. rewrite (arr_read_Ok _ _ _ Hb). simpl. rewrite Hclosed, Hq2. simpl.
    unfold enqueue_command. rewrite rq_enqueue_full; [done|].
    rewrite <- (length_rq_list _ q2 Hok2), Hl2, length_app, Hl1. simpl. unfold QUEUE_SIZE. lia. }
  exists q2. split; [|by rewrite Hl2, Hl1].
  unfold schedule_pass. simpl. rewrite He, Hd. simpl. unfold is_access in Ha.
  destruct (type c); try done; by rewrite Hacc.
Qed.

(** The run of [main]: the write to the closed bank 1 is put back and issued
    last. *)
Lemma command_main_trace :
  issued <$> (match command_main 10 (mkRQ (replicate 16 (mkCommand CMD_ACTIVATE 0 0 0)) 0 0 0)
      (replicate 4 (mkBank false 0)) main_commands with Ok st => Some st | Fault _ => None end) =
  Some [mkCommand CMD_ACTIVATE 0 1000 0; mkCommand CMD_READ 0 1000 50; mkCommand CMD_READ 0 1000 60;
        mkCommand CMD_PRECHARGE 0 0 0; mkCommand CMD_ACTIVATE 1 2000 0; mkCommand CMD_WRITE 1 2000 100].
Proof. reflexivity. Qed.

Definition queue_of (l : list Command) : CommandQueue :=
  mkRQ (l ++ replicate (16 - length l) (mkCommand CMD_ACTIVATE 0 0 0)) 0 (len l - 1) (len l).

Definition closed_banks : list BankState := replicate 4 (mkBank false 0).

(** A pass that activates a bank for the read after it. *)
Lemma issued_commands_legal_witness : exists st',
  schedule_pass (mkState (queue_of [mkCommand CMD_ACTIVATE 1 7 0; mkCommand CMD_READ 1 7 0]) closed_banks []) = Ok (Next st') /\ state_ok st' /\
  issued st' <> [] /\ replay closed_banks (issued st') = Some (bank_states st') /\ is_ok (schedule_pass st') = true.
Proof.
  set (st := mkState (queue_of [mkCommand CMD_ACTIVATE 1 7 0; mkCommand CMD_READ 1 7 0]) closed_banks []).
  destruct (schedule_pass st) as [[st'|st']|] eqn:E; [|by vm_compute in E..]. exists st'. split; [done|].
  destruct (issued_commands_legal st st') as (H1 & (tr & Ht & Hr) & H3).
  - constructor; [constructor| |]; vm_compute; try done.
    repeat constructor; vm_compute; done.
  - eapply reaches_step; [apply reaches_refl|exact E].
  - split; [exact H1|]. simpl in Ht. subst tr. split; [vm_compute in E; injection E as <-; done|]. split; [exact Hr|exact H3].
Defined.

Lemma consistent_commands_served_witness :
  exists st, command_main 16 (queue_of []) closed_banks main_commands = Ok st /\
    accesses (issued st) ≡ₚ accesses main_commands.
Proof.
  apply (consistent_commands_served (fun b => if b =? 0 then 1000 else 2000)
    (queue_of []) closed_banks main_commands); [reflexivity|reflexivity| |].
  - repeat constructor; vm_compute; done.
  - vm_compute. discriminate.
Defined.

Lemma row_conflict_livelocks_witness :
  schedule_commands 1000 (mkState (queue_of [mkCommand CMD_READ 1 7 0])
    (replicate 4 (mkBank true 8)) []) = Fault OutOfFuel.
Proof.
  apply (row_conflict_livelocks 1000 (queue_of [mkCommand CMD_READ 1 7 0])
    (replicate 4 (mkBank true 8)) [] 1 7 0 8); [|reflexivity|discriminate|reflexivity].
  constructor; vm_compute; done.
Defined.

Lemma full_queue_drops_access_witness :
  exists q', schedule_pass (mkState (queue_of (replicate 16 (mkCommand CMD_WRITE 2 3 4))) closed_banks [])
      = Ok (Next (mkState q' closed_banks [])) /\
    rq_list q' = replicate 15 (mkCommand CMD_WRITE 2 3 4) ++ [mkCommand CMD_ACTIVATE 2 3 0].
Proof.
  apply (full_queue_drops_access (queue_of (replicate 16 (mkCommand CMD_WRITE 2 3 4))) closed_banks []
    (mkCommand CMD_WRITE 2 3 4) (replicate 15 (mkCommand CMD_WRITE 2 3 4)) (mkBank false 0));
    try reflexivity.
  constructor; vm_compute; done.
Defined.
