(* ===== verification/SchedPolicies.v ===== *)
(** * Three scheduling policies side by side
    ([accessPatterns/schedulingAlgorithmMemoryController.c])

    FR-FCFS over marked banks, PAR-BS over a batch copied from the banks, and
    an adaptive choice of a thread.  The printed lines are a log; [rand] is an
    argument. *)
From Stdlib Require Import ZArith Lia.
From stdpp Require Import base tactics list numbers option.
From S2P Require Import Prelude Select Ring.

#[local] Open Scope Z_scope.
#[local] Open Scope c_scope.

Definition NUM_THREADS : Z := 4.
Definition MEMORY_INTENSITY_THRESHOLD : Z := 10.
Definition NUM_BANKS : Z := 8.
Definition BATCH_SIZE : Z := 4.

Record thread_t : Type := mkThread {
  id : Z;
  mrpki : Z;
  priority : Z;
  requests_served : Z
}.

Record bank_t : Type := mkBank {
  bank_id : Z;
  request_count : Z;
  is_marked : bool
}.

Inductive line : Type :=
| FrFcfs (b : Z)
| ParBsHit (b : Z)
| ParBsMiss (b : Z)
| Thread (i : Z).

Definition set_count (n : Z) (b : bank_t) : bank_t := mkBank (bank_id b) n (is_marked b).
Definition set_marked (m : bool) (b : bank_t) : bank_t := mkBank (bank_id b) (request_count b) m.

(** The two loops of [frFcfsScheduleRequest]. *)
Definition hit_pass (i : Z) (st : list bank_t)
    : res (ctl (list bank_t) (list bank_t * list line)) :=
  b ← st.[i];
  if is_marked b then
    n ← isub (request_count b) 1;
    st' ← st.[i <- set_count n (set_marked false b)];
    Ok (Return (st', [FrFcfs (bank_id b)]))
  else Ok (Next st).

Definition miss_pass (i : Z) (st : list bank_t)
    : res (ctl (list bank_t) (list bank_t * list line)) :=
  b ← st.[i];
  if request_count b >? 0 then
    n ← isub (request_count b) 1;
    st' ← st.[i <- set_count n b];
    Ok (Return (st', [FrFcfs (bank_id b)]))
  else Ok (Next st).

Definition frFcfsScheduleRequest (banks : list bank_t) (num_banks : Z)
    : res (list bank_t * list line) :=
  c ← for_ctl (Z.to_nat num_banks) 0 hit_pass banks;
  match c with
  | Return r => Ok r
  | Next banks1 =>
      c' ← for_ctl (Z.to_nat num_banks) 0 miss_pass banks1;
      match c' with
      | Return r => Ok r
      | Next banks2 => Ok (banks2, [])
      end
  end.

(** [parBsScheduleRequest]: the batch is a local array of [BATCH_SIZE] banks;
    [batch0] is what it holds at first. *)
Definition batch_pass (banks : list bank_t) (i : Z) (st : list bank_t * Z)
    : res (list bank_t * Z) :=
  let '(batch, batch_size) := st in
  b ← banks.[i];
  if request_count b >? 0 then
    batch' ← batch.[batch_size <- b];
    n ← iadd batch_size 1;
    Ok (batch', n)
  else Ok (batch, batch_size).

Definition fewer (a b : bank_t) : res bool := Ok (request_count a <? request_count b).

Definition issue_pass (i : Z) (st : list bank_t * list line) : res (list bank_t * list line) :=
  let '(batch, log) := st in
  b ← batch.[i];
  if is_marked b then
    n ← isub (request_count b) 1;
    batch' ← batch.[i <- set_count n (set_marked false b)];
    Ok (batch', log ++ [ParBsHit (bank_id b)])
  else if request_count b >? 0 then
    n ← isub (request_count b) 1;
    batch' ← batch.[i <- set_count n b];
    Ok (batch', log ++ [ParBsMiss (bank_id b)])
  else Ok (batch, log).

Definition parBsScheduleRequest (batch0 banks : list bank_t) (num_banks : Z)
    : res (list line) :=
  '(batch, batch_size) ← for_range (Z.to_nat num_banks) 0 (batch_pass banks) (batch0, 0);
  batch1 ← bubble_sort fewer batch_size batch;
  '(_, log) ← for_range (Z.to_nat batch_size) 0 issue_pass (batch1, []);
  Ok log.

Definition set_priority (p : Z) (t : thread_t) : thread_t :=
  mkThread (id t) (mrpki t) p (requests_served t).

Definition classifyThreads (threads : list thread_t) (num_threads : Z) : res (list thread_t) :=
  for_range (Z.to_nat num_threads) 0
    (fun i ts =>
       t ← ts.[i];
       ts.[i <- set_priority (if mrpki t >=? MEMORY_INTENSITY_THRESHOLD then 1 else 0) t])
    threads.

Definition adaptSchedulingPolicy (threads : list thread_t) (num_threads : Z)
    : res (list thread_t) :=
  for_range (Z.to_nat num_threads) 0
    (fun i ts =>
       t ← ts.[i];
       if priority t =? 1 then
         p ← iadd (priority t) 1; ts.[i <- set_priority p t]
       else Ok ts)
    threads.

(** The scan of [adaptiveScheduleRequest]: [highest_priority, oldest_thread]. *)
Definition choose_pass (threads : list thread_t) (i : Z) (st : Z * Z) : res (Z * Z) :=
  let '(highest_priority, oldest_thread) := st in
  t ← threads.[i];
  if priority t >? highest_priority then Ok (priority t, i)
  else if priority t =? highest_priority then
    o ← threads.[oldest_thread];
    Ok (if requests_served t <? requests_served o
        then (highest_priority, i) else (highest_priority, oldest_thread))
  else Ok (highest_priority, oldest_thread).

Definition adaptiveScheduleRequest (threads : list thread_t) (num_threads : Z)
    : res (Z * list thread_t) :=
  '(_, oldest_thread) ← for_range (Z.to_nat num_threads) 0 (choose_pass threads) (-1, -1);
  t ← threads.[oldest_thread];
  n ← iadd (requests_served t) 1;
  threads' ← threads.[oldest_thread <- mkThread (id t) (mrpki t) (priority t) n];
  Ok (oldest_thread, threads').

(** What [main] draws for a thread in a cycle: its rate, the bank that gets a
    request and the bank that gets a mark. *)
Record draw : Type := mkDraw { d_mrpki : Z; d_request : Z; d_mark : Z }.

Definition traffic_pass (draws : Z -> draw) (i : Z) (st : list thread_t * list bank_t)
    : res (list thread_t * list bank_t) :=
  let '(threads, banks) := st in
  t ← threads.[i];
  threads' ← threads.[i <- mkThread (id t) (d_mrpki (draws i)) (priority t) (requests_served t)];
  b ← banks.[d_request (draws i)];
  n ← iadd (request_count b) 1;
  banks1 ← banks.[d_request (draws i) <- set_count n b];
  b' ← banks1.[d_mark (draws i)];
  banks2 ← banks1.[d_mark (draws i) <- set_marked true b'];
  Ok (threads', banks2).

Definition cycle_pass (batch0 : list bank_t) (draws : Z -> Z -> draw) (cycle : Z)
    (st : list thread_t * list bank_t * list line)
    : res (list thread_t * list bank_t * list line) :=
  let '(threads, banks, log) := st in
  '(threads1, banks1) ←
    for_range (Z.to_nat NUM_THREADS) 0 (traffic_pass (draws cycle)) (threads, banks);
  '(banks2, log1) ← frFcfsScheduleRequest banks1 NUM_BANKS;
  log2 ← parBsScheduleRequest batch0 banks2 NUM_BANKS;
  c ← imod cycle 100;
  threads2 ← (if c =? 0 then
                ts ← classifyThreads threads1 NUM_THREADS;
                adaptSchedulingPolicy ts NUM_THREADS
              else Ok threads1);
  '(i, threads3) ← adaptiveScheduleRequest threads2 NUM_THREADS;
  Ok (threads3, banks2, log ++ log1 ++ log2 ++ [Thread i]).

(** [main] for its first [n] cycles (the program runs 1000). *)
Definition policies_main (n : nat) (batch0 : list bank_t) (mrpki0 : Z -> Z)
    (draws : Z -> Z -> draw) : res (list thread_t * list bank_t * list line) :=
  let threads := (fun i => mkThread i (mrpki0 i) 0 0) <$> seqZ 0 NUM_THREADS in
  let banks := (fun i => mkBank i 0 false) <$> seqZ 0 NUM_BANKS in
  for_range n 0 (cycle_pass batch0 draws) (threads, banks, []).

(** ** Specifications *)

(** Better candidate: higher priority, then fewer requests served. *)
Definition preferred (x y : thread_t) : bool :=
  (priority x >? priority y) ||
  ((priority x =? priority y) && (requests_served x <? requests_served y)).

#[local] Instance preferred_strict : StrictWeak preferred.
Proof.
  constructor; unfold preferred; intros *; intros;
    repeat match goal with
    | H : _ || _ = true |- _ => apply orb_true_iff in H as [H|H]
    | _ => progress zbool
    end;
    rewrite ?orb_true_iff, ?orb_false_iff, ?andb_true_iff, ?andb_false_iff, ?Z.gtb_ltb,
      ?Z.ltb_lt, ?Z.ltb_ge, ?Z.eqb_eq, ?Z.eqb_neq in *; lia.
Qed.

Definition busy (b : bank_t) : Prop := 0 < request_count b.
#[local] Instance busy_dec b : Decision (busy b).
Proof. unfold busy. apply _. Defined.

Definition issued_line (b : bank_t) : line :=
  if is_marked b then ParBsHit (bank_id b) else ParBsMiss (bank_id b).

Section proofs.
#[local] Arguments for_range : simpl never.

(** The scan agrees with the selection of the preferred thread. *)
Definition chosen_ok (threads : list thread_t) (i : Z) (st : Z * Z) : Prop :=
  (i = 0 /\ st = (-1, -1)) \/
  exists k t, st = (priority t, k) /\ zget threads k = Some t /\
    is_best (fun _ => true) preferred threads i (Some k).

Lemma choose_pass_ok threads i st :
  Forall (fun t => 0 <= priority t) threads -> 0 <= i < len threads ->
  chosen_ok threads i st ->
  exists st', choose_pass threads i st = Ok st' /\ chosen_ok threads (i + 1) st'.
Proof.
  intros Hpos Hi Hst. destruct (zget_range threads i Hi) as [t Ht].
  pose proof (Forall_zget _ _ _ _ Hpos Ht) as Hpt. simpl in Hpt. unfold choose_pass.
  destruct Hst as [[-> ->]|(k & o & -> & Ho & Hbest)].
  - rewrite (arr_read_Ok _ _ _ Ht). simpl. destruct (Z.gtb_spec (priority t) (-1)); [|lia].
    eexists. split; [done|]. right. exists 0, t. split_and!; [done..|].
    destruct (best_step_ok (fun _ => true) preferred threads 0 None) as (b & Hb & Hbb);
      [done|apply is_best_0|].
    unfold best_step in Hb. rewrite (arr_read_Ok _ _ _ Ht) in Hb. simpl in Hb.
    by injection Hb as <-.
  - destruct (best_step_ok (fun _ => true) preferred threads i (Some k)) as (b & Hb & Hbb);
      [done..|].
    unfold best_step in Hb. rewrite (arr_read_Ok _ _ _ Ht) in Hb |- *. simpl in Hb |- *.
    rewrite (arr_read_Ok _ _ _ Ho) in Hb |- *. simpl in Hb |- *. injection Hb as <-.
    unfold preferred in Hbb. destruct (priority t >? priority o) eqn:E1; simpl in *.
    + eexists. split; [done|]. right. by exists i, t.
    + destruct (priority t =? priority o) eqn:E2; simpl in *.
      * zbool. destruct (requests_served t <? requests_served o).
        -- eexists. split; [done|]. right. exists i, t. by rewrite <- E2.
        -- eexists. split; [done|]. right. by exists k, o.
      * eexists. split; [done|]. right. by exists k, o.
Qed.

(** Copying the busy banks into the batch. *)
Lemma batch_loop banks k : forall i batch n,
  len batch = BATCH_SIZE -> 0 <= n <= BATCH_SIZE -> 0 <= i -> i + Z.of_nat k <= len banks ->
  let F := filter busy (take k (drop (Z.to_nat i) banks)) in
  (n + len F <= BATCH_SIZE ->
   exists batch', for_range k i (batch_pass banks) (batch, n) = Ok (batch', n + len F) /\
     len batch' = BATCH_SIZE /\ take (Z.to_nat (n + len F)) batch' = take (Z.to_nat n) batch ++ F) /\
  (BATCH_SIZE < n + len F ->
   for_range k i (batch_pass banks) (batch, n) = Fault OutOfBounds).
Proof.
  induction k as [|k IH]; intros i batch n Hb Hn Hi Hk F.
  - subst F. simpl. split; [|unfold BATCH_SIZE in *; lia]. intros _. exists batch.
    by rewrite Z.add_0_r, app_nil_r.
  - destruct (zget_range banks i) as [b Hgb]; [lia|].
    assert (F = filter busy [b] ++ filter busy (take k (drop (Z.to_nat (i + 1)) banks))) as HF.
    { subst F. rewrite <- list.filter_app. f_equal. unfold zget in Hgb.
      destruct (0 <=? i); [|done]. rewrite (drop_S _ _ _ Hgb). simpl.
      by replace (Z.to_nat (i + 1)) with (S (Z.to_nat i)) by lia. }
    assert (batch_pass banks i (batch, n) = if request_count b >? 0 then
        batch' ← batch.[n <- b]; m ← iadd n 1; Ok (batch', m) else Ok (batch, n)) as Hpass.
    { unfold batch_pass. by rewrite (arr_read_Ok _ _ _ Hgb). }
    rewrite for_range_S, Hpass.
    rewrite filter_cons, filter_nil in HF.
    set (F' := filter busy (take k (drop (Z.to_nat (i + 1)) banks))) in *.
    destruct (Z.gtb_spec (request_count b) 0) as [Hgt|Hle].
    + rewrite decide_True in HF by done.
      assert (len F = 1 + len F') as HlF by (rewrite HF; simpl length; lia).
      clearbody F. rewrite HlF. rewrite HF. clear HF HlF F.
      destruct (decide (n < BATCH_SIZE)) as [Hlt|Hge].
      * rewrite arr_write_Ok by lia. rewrite bind_ret_l. unfold BATCH_SIZE in *.
        rewrite iadd_Ok by int_side. cbn [mbind res_bind].
        destruct (IH (i + 1) (zset batch n b) (n + 1)) as [IH1 IH2];
          [by rewrite length_zset|lia..|]. fold F' in IH1, IH2.
        rewrite Z.add_assoc. split; [|by intros; apply IH2; lia]. intros Hroom.
        destruct IH1 as (batch' & -> & Hl' & Ht); [lia|]. exists batch'. split_and!; [done..|].
        rewrite Ht. rewrite take_zset_snoc by lia. by rewrite <- app_assoc.
      * split; [lia|]. intros _. rewrite arr_write_oob by lia. done.
    + rewrite decide_False in HF by (unfold busy; lia). rewrite HF. simpl.
      destruct (IH (i + 1) batch n) as [IH1 IH2]; [done|lia..|]. done.
Qed.

Lemma issue_loop batch n :
  0 <= n <= len batch ->
  Forall (fun b => 0 < request_count b <= INT_MAX) (take (Z.to_nat n) batch) ->
  exists batch', for_range (Z.to_nat n) 0 issue_pass (batch, []) =
    Ok (batch', issued_line <$> take (Z.to_nat n) batch).
Proof.
  intros Hn Hall.
  destruct (for_range_inv (fun i st => len st.1 = len batch /\
      (forall j, i <= j -> zget st.1 j = zget batch j) /\
      st.2 = issued_line <$> take (Z.to_nat i) batch)
    (Z.to_nat n) 0 issue_pass (batch, [])) as ([batch' log] & -> & _ & _ & Hlog).
  - done.
  - intros i [bt log] Hi (Hl & Hsame & Hlog). simpl in Hl, Hsame, Hlog.
    destruct (zget_range batch i) as [b Hb]; [lia|].
    assert (0 < request_count b <= INT_MAX) as Hc.
    { apply (Forall_zget _ _ i _ Hall). apply zget_take. auto with lia. }
    unfold issue_pass. rewrite (arr_read_Ok _ _ b) by (rewrite Hsame by lia; done). simpl.
    assert (log ++ [issued_line b] = issued_line <$> take (Z.to_nat (i + 1)) batch) as Hlog'.
    { rewrite (take_S_zget _ _ _ Hb), fmap_app, Hlog. done. }
    unfold issued_line in Hlog' at 1.
    destruct (is_marked b).
    + rewrite isub_Ok by int_side. simpl. rewrite arr_write_Ok by lia. simpl.
      eexists. split; [done|]. simpl. rewrite length_zset. split_and!; [done| |done].
      intros j Hj. rewrite zget_zset_ne by lia. apply Hsame. lia.
    + destruct (Z.gtb_spec (request_count b) 0); [|lia]. rewrite isub_Ok by int_side. simpl.
      rewrite arr_write_Ok by lia. simpl.
      eexists. split; [done|]. simpl. rewrite length_zset. split_and!; [done| |done].
      intros j Hj. rewrite zget_zset_ne by lia. apply Hsame. lia.
  - simpl in Hlog. exists batch'. rewrite Hlog, Z2Nat.id by lia. done.
Qed.

(** A decreasing ranking of the banks. *)
Definition ranked (l : list bank_t) : Prop :=
  forall i j x y, i < j -> zget l i = Some x -> zget l j = Some y ->
    request_count y <= request_count x.

Lemma parBs_fits batch0 banks :
  len batch0 = BATCH_SIZE -> Forall (fun b => request_count b <= INT_MAX) banks ->
  len (filter busy banks) <= BATCH_SIZE ->
  exists order, order ≡ₚ filter busy banks /\ ranked order /\
    parBsScheduleRequest batch0 banks (len banks) = Ok (issued_line <$> order).
Proof.
  intros Hb Hall Hfit. unfold parBsScheduleRequest.
  destruct (batch_loop banks (Z.to_nat (len banks)) 0 batch0 0) as [H1 _];
    [done|unfold BATCH_SIZE; lia|lia..|].
  rewrite Nat2Z.id in H1 |- *. rewrite drop_0, firstn_all in H1.
  destruct H1 as (batch & -> & Hl & Ht); [lia|]. rewrite bind_ret_l.
  rewrite Z.add_0_l in *. set (n := len (filter busy banks)) in *.
  destruct (bubble_sort_ok request_count fewer (fun _ => True)) with (l := batch) (n := n)
    as (batch1 & -> & Hp & Hs & Hk); [done|by apply Forall_true|lia|]. rewrite bind_ret_l.
  pose proof (sorted_prefix_perm _ _ _ Hp Hk ltac:(lia)) as Hpre. rewrite Ht in Hpre. simpl in Hpre.
  destruct (issue_loop batch1 n) as (b' & ->).
  - rewrite (Permutation_length Hp). lia.
  - rewrite Hpre. apply list.Forall_forall. intros b Hbin%list_elem_of_filter.
    destruct Hbin as [Hbusy Hbin]. unfold busy in Hbusy.
    apply (list.Forall_forall (fun b => request_count b <= INT_MAX)) with (x := b) in Hall; [lia|done].
  - rewrite bind_ret_l. exists (take (Z.to_nat n) batch1). split_and!; [done| |done].
    intros i j x y Hij Hx Hy. apply zget_take in Hx as [Hx _]. apply zget_take in Hy as [Hy Hlt].
    pose proof (zget_Some_range _ _ _ Hx). apply (Hs i j); (done || lia).
Qed.

Lemma parBs_overflows batch0 banks :
  len batch0 = BATCH_SIZE -> BATCH_SIZE < len (filter busy banks) ->
  parBsScheduleRequest batch0 banks (len banks) = Fault OutOfBounds.
Proof.
  intros Hb Hover. unfold parBsScheduleRequest.
  destruct (batch_loop banks (Z.to_nat (len banks)) 0 batch0 0) as [_ H2];
    [done|unfold BATCH_SIZE; lia|lia..|].
  rewrite Nat2Z.id in H2 |- *. rewrite drop_0, firstn_all in H2. by rewrite H2 by lia.
Qed.
End proofs.

(** PAR-BS on a batch that fits: one request of every bank with requests is
    issued, in decreasing order of the number of requests, as a hit when the
    bank is marked; when more than [BATCH_SIZE] banks have requests the copy into
    [batch] runs past the end of the array. *)
Theorem parBs_schedule_spec batch0 banks :
  len batch0 = BATCH_SIZE -> Forall (fun b => request_count b <= INT_MAX) banks ->
  if decide (len (filter busy banks) <= BATCH_SIZE) then
    exists order, order ≡ₚ filter busy banks /\ ranked order /\
      parBsScheduleRequest batch0 banks (len banks) = Ok (issued_line <$> order)
  else parBsScheduleRequest batch0 banks (len banks) = Fault OutOfBounds.
Proof.
  intros Hb Hall. case_decide; [by apply parBs_fits|apply parBs_overflows; [done|lia]].
Qed.

(** The adaptive policy serves the thread of highest priority that has been
    served least (the first of them), and counts the service; it leaves every
    other thread as it was. *)
Theorem adaptive_choice_spec threads :
  Forall (fun t => 0 <= priority t /\ requests_served t < INT_MAX) threads -> threads <> [] ->
  Forall (fun t => 0 <= requests_served t) threads ->
  exists k t, zget threads k = Some t /\
    is_best (fun _ => true) preferred threads (len threads) (Some k) /\
    adaptiveScheduleRequest threads (len threads) =
      Ok (k, zset threads k (mkThread (id t) (mrpki t) (priority t) (requests_served t + 1))).
Proof.
  intros Hall Hne Hsrv. unfold adaptiveScheduleRequest.
  destruct (for_range_inv (chosen_ok threads) (Z.to_nat (len threads)) 0 (choose_pass threads) (-1, -1))
    as ([hp k] & -> & Hst).
  - by left.
  - intros j st Hj Hst. apply choose_pass_ok; [|lia|done].
    eapply list.Forall_impl; [exact Hall|]. by intros t [].
  - rewrite bind_ret_l. rewrite Nat2Z.id, Z.add_0_l in Hst.
    destruct Hst as [[Hz _]|(k' & t & [= -> ->] & Ht & Hbest)]; [by destruct threads|].
    exists k', t. split_and!; [done..|]. rewrite (arr_read_Ok _ _ _ Ht), bind_ret_l.
    pose proof (Forall_zget _ _ _ _ Hall Ht) as [_ Hs].
    pose proof (Forall_zget _ _ _ _ Hsrv Ht) as Hs'. simpl in Hs'.
    rewrite iadd_Ok by int_side. rewrite bind_ret_l.
    pose proof (zget_Some_range _ _ _ Ht). by rewrite arr_write_Ok by lia.
Qed.

(** A marked bank without requests: FR-FCFS serves it all the same and the
    count goes below zero. *)
Lemma frFcfs_negative_count :
  frFcfsScheduleRequest [mkBank 0 0 true; mkBank 1 5 false] 2 =
  Ok ([mkBank 0 (-1) false; mkBank 1 5 false], [FrFcfs 0]).
Proof. reflexivity. Qed.

Lemma parBs_schedule_spec_witness :
  parBsScheduleRequest (replicate 4 (mkBank 0 0 false))
    (replicate 5 (mkBank 3 1 true)) 5 = Fault OutOfBounds.
Proof.
  apply (parBs_schedule_spec (replicate 4 (mkBank 0 0 false)) (replicate 5 (mkBank 3 1 true)));
    [reflexivity|]. repeat constructor; vm_compute; discriminate.
Defined.

Lemma adaptive_choice_spec_witness :
  exists k t, zget [mkThread 0 5 0 0; mkThread 1 12 2 4; mkThread 2 13 2 3] k = Some t /\
    is_best (fun _ => true) preferred [mkThread 0 5 0 0; mkThread 1 12 2 4; mkThread 2 13 2 3] 3 (Some k) /\
    adaptiveScheduleRequest [mkThread 0 5 0 0; mkThread 1 12 2 4; mkThread 2 13 2 3] 3 =
      Ok (k, zset [mkThread 0 5 0 0; mkThread 1 12 2 4; mkThread 2 13 2 3] k
            (mkThread (id t) (mrpki t) (priority t) (requests_served t + 1))).
Proof.
  apply (adaptive_choice_spec [mkThread 0 5 0 0; mkThread 1 12 2 4; mkThread 2 13 2 3]);
    [|discriminate|]; repeat constructor; vm_compute; (discriminate || reflexivity).
Defined.
