(* ===== verification/Uart.v ===== *)
(** * The UART receive buffer ([networking/uart.c], [networking/uartInputSystem.c],
    [playingAround/inputBuffering/a.c] and [basicRing.c])

    A ring of 256 bytes with 8-bit read and write pointers, filled by the
    interrupt handler [uart_isr] and drained by [uart_getchar].  The handler
    can run between any two memory accesses of the reader; [uart_step] is that
    interleaving.  The device registers are arguments of the handler: the
    status byte and the data byte it reads. *)
From Stdlib Require Import ZArith Lia.
From stdpp Require Import base tactics list numbers option relations.
From S2P Require Import Prelude Ring.

#[local] Open Scope Z_scope.
#[local] Open Scope c_scope.

Definition BUFFER_SIZE : Z := 256.
Definition UART_DATA_READY : Z := 128.

Record RingBuffer : Type := mkBuffer {
  data : list Z;
  write_ptr : Z;
  read_ptr : Z
}.

Definition ring_buffer_init (buffer : RingBuffer) : RingBuffer := mkBuffer (data buffer) 0 0.

(** The pointers are [uint8_t]: the sum is computed as [int], its remainder
    stored in 8 bits. *)
Definition ring_buffer_write (buffer : RingBuffer) (x : Z) : res (bool * RingBuffer) :=
  s ← iadd (write_ptr buffer) 1;
  n ← imod s BUFFER_SIZE;
  let next_write := u8 n in
  if next_write =? read_ptr buffer then Ok (false, buffer)
  else
    d ← (data buffer).[write_ptr buffer <- x];
    Ok (true, mkBuffer d next_write (read_ptr buffer)).

Definition ring_buffer_read (buffer : RingBuffer) : res (option Z * RingBuffer) :=
  if read_ptr buffer =? write_ptr buffer then Ok (None, buffer)
  else
    x ← (data buffer).[read_ptr buffer];
    s ← iadd (read_ptr buffer) 1;
    n ← imod s BUFFER_SIZE;
    Ok (Some x, mkBuffer (data buffer) (write_ptr buffer) (u8 n)).

(** The handler, with the values of the status and data registers; the flag is
    whether a byte was received and stored. *)
Definition uart_isr (status received_data : Z) (buffer : RingBuffer) : res (bool * RingBuffer) :=
  if negb (Z.land status UART_DATA_READY =? 0) then ring_buffer_write buffer received_data
  else Ok (false, buffer).

(** [uart_init]: [fd] and [base] are the results of [open] and [mmap], [sig] of
    [sigaction]. *)
Definition uart_init (fd base sig : Z) (buffer : RingBuffer) : res RingBuffer :=
  if fd =? -1 then Fault (Exit 1)
  else if base =? -1 then Fault (Exit 1)
  else
    let buffer' := ring_buffer_init buffer in
    if sig =? -1 then Fault (Exit 1) else Ok buffer'.

(** The handler runs while [uart_getchar] sleeps: the list gives the register
    values of each run. *)
Fixpoint interrupts (l : list (Z * Z)) (buffer : RingBuffer) : res RingBuffer :=
  match l with
  | [] => Ok buffer
  | (status, byte) :: l' => '(_, b) ← uart_isr status byte buffer; interrupts l' b
  end.

(** One pass of the loop of [uart_getchar]: the test [timeout_ms--] on the
    16-bit counter, the read, and the sleep. *)
Definition getchar_pass (arrivals : Z -> list (Z * Z)) (st : Z * RingBuffer)
    : res (ctl (Z * RingBuffer) (option Z * RingBuffer)) :=
  let '(timeout_ms, buffer) := st in
  let timeout' := u16 (timeout_ms - 1) in
  if timeout_ms =? 0 then Ok (Return (None, buffer))
  else
    '(r, buffer') ← ring_buffer_read buffer;
    match r with
    | Some x => Ok (Return (Some x, buffer'))
    | None => b ← interrupts (arrivals timeout') buffer'; Ok (Next (timeout', b))
    end.

Definition uart_getchar (arrivals : Z -> list (Z * Z)) (buffer : RingBuffer) (timeout_ms : Z)
    : res (option Z * RingBuffer) :=
  loop (Z.to_nat timeout_ms + 1) (getchar_pass arrivals) (timeout_ms, buffer).

(** The first [n] passes of the endless loop of [main]: the byte received in
    each, if any. *)
Definition uart_main (n : nat) (arrivals : Z -> Z -> list (Z * Z)) (buffer : RingBuffer)
    : res (list (option Z) * RingBuffer) :=
  for_range n 0
    (fun i '(out, b) => '(r, b') ← uart_getchar (arrivals i) b 1000; Ok (out ++ [r], b'))
    ([], buffer).

(** [uartInputSystem.c] has the same buffer and reader; its [uart_init] checks
    nothing. *)
Module InputSystem.
Definition ring_buffer_init (buffer : RingBuffer) : RingBuffer := mkBuffer (data buffer) 0 0.
Definition ring_buffer_write := ring_buffer_write.
Definition ring_buffer_read := ring_buffer_read.
Definition uart_isr := uart_isr.
Definition uart_init (buffer : RingBuffer) : RingBuffer := ring_buffer_init buffer.
Definition uart_getchar := uart_getchar.
Definition uart_main (n : nat) (arrivals : Z -> Z -> list (Z * Z)) (buffer : RingBuffer)
    : res (list (option Z) * RingBuffer) := uart_main n arrivals (uart_init buffer).
End InputSystem.

(** The variant of [basicRing.c], with masks instead of remainders. *)
Module BasicRing.
Definition ring_buffer_init (buffer : RingBuffer) : RingBuffer := mkBuffer (data buffer) 0 0.

Definition ring_buffer_write (buffer : RingBuffer) (x : Z) : res (bool * RingBuffer) :=
  s ← iadd (write_ptr buffer) 1;
  let next_write := u8 (Z.land s (BUFFER_SIZE - 1)) in
  if next_write =? read_ptr buffer then Ok (false, buffer)
  else
    d ← (data buffer).[write_ptr buffer <- x];
    Ok (true, mkBuffer d next_write (read_ptr buffer)).

Definition ring_buffer_read (buffer : RingBuffer) : res (option Z * RingBuffer) :=
  if read_ptr buffer =? write_ptr buffer then Ok (None, buffer)
  else
    x ← (data buffer).[read_ptr buffer];
    s ← iadd (read_ptr buffer) 1;
    Ok (Some x, mkBuffer (data buffer) (write_ptr buffer) (u8 (Z.land s (BUFFER_SIZE - 1)))).

Definition ring_buffer_size (buffer : RingBuffer) : res Z :=
  d ← isub (write_ptr buffer) (read_ptr buffer);
  Ok (u8 (Z.land d (BUFFER_SIZE - 1))).
End BasicRing.

(** ** Interleaving of the handler with the reader

    The reader of [ring_buffer_read] is between the test, the load of the byte
    and the update of [read_ptr]. *)
Inductive reader : Type :=
| Idle
| Checked
| Loaded (x : Z).

Record uart_state : Type := mkUart {
  buf : RingBuffer;
  pc : reader;
  accepted : list Z;
  delivered : list Z
}.

(** The accesses of the reader. *)
Inductive reader_step : uart_state -> uart_state -> Prop :=
| step_empty b acc del :
    read_ptr b = write_ptr b ->
    reader_step (mkUart b Idle acc del) (mkUart b Idle acc del)
| step_check b acc del :
    read_ptr b <> write_ptr b ->
    reader_step (mkUart b Idle acc del) (mkUart b Checked acc del)
| step_load b acc del x :
    (data b).[read_ptr b] = Ok x ->
    reader_step (mkUart b Checked acc del) (mkUart b (Loaded x) acc del)
| step_advance b acc del x s n :
    iadd (read_ptr b) 1 = Ok s -> imod s BUFFER_SIZE = Ok n ->
    reader_step (mkUart b (Loaded x) acc del)
      (mkUart (mkBuffer (data b) (write_ptr b) (u8 n)) Idle acc (del ++ [x])).

(** An access of the reader, or a whole run of the handler. *)
Inductive uart_step : uart_state -> uart_state -> Prop :=
| step_isr b p acc del status x stored b' :
    uart_isr status x b = Ok (stored, b') ->
    uart_step (mkUart b p acc del) (mkUart b' p (if stored then acc ++ [x] else acc) del)
| step_reader s s' : reader_step s s' -> uart_step s s'.

Inductive uart_run : uart_state -> uart_state -> Prop :=
| run_refl s : uart_run s s
| run_step s s1 s2 : uart_run s s1 -> uart_step s1 s2 -> uart_run s s2.

(** ** Invariant and contents *)

Record buffer_ok (b : RingBuffer) : Prop := {
  ok_len : len (data b) = BUFFER_SIZE;
  ok_write : 0 <= write_ptr b < BUFFER_SIZE;
  ok_read : 0 <= read_ptr b < BUFFER_SIZE
}.

Definition count (b : RingBuffer) : Z := (write_ptr b - read_ptr b) mod BUFFER_SIZE.
Definition bytes (b : RingBuffer) : list Z := window (data b) (read_ptr b) (Z.to_nat (count b)).

Section buffer.
Implicit Types b : RingBuffer.

Lemma count_range b : 0 <= count b < BUFFER_SIZE.
Proof. apply Z.mod_pos_bound. done. Qed.

Lemma length_bytes b : buffer_ok b -> len (bytes b) = count b.
Proof.
  intros [Hl Hw Hr]. unfold bytes. rewrite length_window by lia.
  pose proof (count_range b). lia.
Qed.

Lemma count_0 b : buffer_ok b -> count b = 0 <-> read_ptr b = write_ptr b.
Proof. intros [Hl Hw Hr]. unfold count, BUFFER_SIZE in *. dlia. Qed.

Lemma next_pointer p : 0 <= p < BUFFER_SIZE ->
  (s ← iadd p 1; imod s BUFFER_SIZE) = Ok ((p + 1) mod BUFFER_SIZE) /\
  u8 ((p + 1) mod BUFFER_SIZE) = (p + 1) mod BUFFER_SIZE.
Proof.
  unfold BUFFER_SIZE. intros Hp. split.
  - rewrite iadd_Ok by int_side. simpl. by rewrite imod_Ok by int_side.
  - apply u8_id. apply Z.mod_pos_bound. lia.
Qed.

Lemma write_ok b x : buffer_ok b ->
  exists r b', ring_buffer_write b x = Ok (r, b') /\ buffer_ok b' /\
    r = (count b <? 255) /\ bytes b' = (if r then bytes b ++ [x] else bytes b) /\
    read_ptr b' = read_ptr b /\
    (count b <> 0 -> zget (data b') (read_ptr b) = zget (data b) (read_ptr b)) /\
    (r = false -> b' = b).
Proof.
  intros Hok. pose proof Hok as [Hl Hw Hr]. unfold ring_buffer_write.
  unfold BUFFER_SIZE in *. rewrite iadd_Ok by int_side. simpl. rewrite imod_Ok by int_side. simpl.
  set (nw := (write_ptr b + 1) mod 256).
  assert (0 <= nw < 256) as Hnw by (apply Z.mod_pos_bound; lia). rewrite u8_id by done.
  assert (nw = read_ptr b <-> count b = 255) as Hfull by (unfold count, nw, BUFFER_SIZE; dlia).
  pose proof (count_range b) as Hc. unfold BUFFER_SIZE in Hc.
  destruct (Z.eqb_spec nw (read_ptr b)) as [E|E].
  - exists false, b. split_and!; try done. symmetry. apply Z.ltb_ge. apply Hfull in E. lia.
  - rewrite arr_write_Ok by lia. simpl. do 2 eexists. split; [done|].
    assert (count b < 255) as Hlt by (assert (count b <> 255) by tauto; lia).
    split; [constructor; simpl; rewrite ?length_zset; unfold BUFFER_SIZE; lia|].
    split; [symmetry; by apply Z.ltb_lt|]. split; [|split; [done|split; [|done]]].
    + unfold bytes. simpl.
      assert (count (mkBuffer (zset (data b) (write_ptr b) x) nw (read_ptr b)) = count b + 1) as ->.
      { unfold count, nw, BUFFER_SIZE in *. simpl. dlia. }
      replace (Z.to_nat (count b + 1)) with (S (Z.to_nat (count b))) by lia.
      assert (write_ptr b = (read_ptr b + Z.of_nat (Z.to_nat (count b))) mod len (data b)) as Hwp.
      { rewrite Z2Nat.id by lia. rewrite Hl. unfold count, BUFFER_SIZE. dlia. }
      rewrite Hwp. apply window_enqueue; lia.
    + intros Hne. apply zget_zset_ne. intros E'. apply Hne. by apply count_0.
Qed.

Lemma advance_ok b x : buffer_ok b -> count b <> 0 -> zget (data b) (read_ptr b) = Some x ->
  let b' := mkBuffer (data b) (write_ptr b) ((read_ptr b + 1) mod BUFFER_SIZE) in
  buffer_ok b' /\ bytes b = x :: bytes b'.
Proof.
  intros Hok Hne Hx b'. pose proof Hok as [Hl Hw Hr]. pose proof (count_range b).
  split; [constructor; simpl; try done; apply Z.mod_pos_bound; done|].
  unfold bytes. assert (count b' = count b - 1) as ->.
  { subst b'. unfold count, BUFFER_SIZE in *. simpl. dlia. }
  replace (Z.to_nat (count b)) with (S (Z.to_nat (count b - 1))) by lia.
  rewrite (window_dequeue _ _ _ _ Hx). by rewrite Hl.
Qed.

Lemma read_ok b : buffer_ok b ->
  exists r b', ring_buffer_read b = Ok (r, b') /\ buffer_ok b' /\
    (r, bytes b') = spec_deq (bytes b).
Proof.
  intros Hok. pose proof Hok as [Hl Hw Hr]. pose proof (count_range b). unfold ring_buffer_read.
  destruct (Z.eqb_spec (read_ptr b) (write_ptr b)) as [E|E].
  - exists None, b. split_and!; try done. apply count_0 in E; [|done].
    unfold bytes. by rewrite E.
  - destruct (zget_range (data b) (read_ptr b)) as [x Hx]; [lia|].
    rewrite (arr_read_Ok _ _ _ Hx), bind_ret_l. rewrite <- (count_0 b Hok) in E.
    destruct (advance_ok b x Hok E Hx) as [Hok' Hb]. unfold BUFFER_SIZE in *.
    rewrite iadd_Ok by int_side. rewrite bind_ret_l. rewrite imod_Ok by int_side.
    rewrite bind_ret_l, u8_id by (apply Z.mod_pos_bound; lia).
    do 2 eexists. split; [done|]. split; [done|]. by rewrite Hb.
Qed.
End buffer.

#[export] Instance uart_fifo : BoundedFifo RingBuffer Z := {|
  fifo_ok := buffer_ok;
  fifo_abs := bytes;
  fifo_cap _ := 255%nat;
  fifo_enq := ring_buffer_write;
  fifo_deq := ring_buffer_read
|}.

#[export] Instance uart_laws : FifoLaws RingBuffer Z.
Proof.
  constructor.
  - intros b x Hok. destruct (write_ok b x Hok) as (r & b' & Hw & Hok' & -> & Hb & _).
    exists (count b <? 255), b'. split_and!; try done. simpl. unfold spec_enq.
    pose proof (length_bytes b Hok) as Hlen. rewrite Hb.
    destruct (Z.ltb_spec (count b) 255), (Nat.ltb_spec (length (bytes b)) 255); (done || lia).
  - intros b Hok. destruct (read_ok b Hok) as (r & b' & Hr & Hok' & Hs).
    exists r, b'. split_and!; done.
Qed.

(** ** The interleaving invariant *)

Definition uart_inv (s : uart_state) : Prop :=
  buffer_ok (buf s) /\ accepted s = delivered s ++ bytes (buf s) /\
  match pc s with
  | Idle => True
  | Checked => count (buf s) <> 0
  | Loaded x => count (buf s) <> 0 /\ zget (data (buf s)) (read_ptr (buf s)) = Some x
  end.

Section interleaving.

Lemma isr_ok status x b : buffer_ok b ->
  exists r b', uart_isr status x b = Ok (r, b') /\ buffer_ok b' /\
    bytes b' = (if r then bytes b ++ [x] else bytes b) /\ read_ptr b' = read_ptr b /\
    (count b <> 0 -> count b' <> 0 /\ zget (data b') (read_ptr b) = zget (data b) (read_ptr b)).
Proof.
  intros Hok. unfold uart_isr. destruct (Z.land status UART_DATA_READY =? 0); simpl.
  - exists false, b. by split_and!.
  - destruct (write_ok b x Hok) as (r & b' & -> & Hok' & _ & Hb & Hr & Hd & _).
    exists r, b'. split_and!; try done. intros Hne. split; [|auto].
    rewrite <- (length_bytes b Hok) in Hne. rewrite <- (length_bytes b' Hok'), Hb.
    destruct r; rewrite ?length_app; lia.
Qed.

Lemma uart_step_inv s s' : uart_step s s' -> uart_inv s -> uart_inv s'.
Proof.
  intros Hstep (Hok & Hacc & Hpc). destruct Hstep as [b p acc del status x stored b' Hisr|s s' Hstep];
    [|destruct Hstep as [b acc del E|b acc del E|b acc del x Hx|b acc del x s n Hs Hn]]; simpl in *.
  - destruct (isr_ok status x b Hok) as (r & b1 & Hi & Hok1 & Hb & Hrp & Hkeep).
    rewrite Hisr in Hi. injection Hi as <- <-. split_and!; [done| |]; simpl.
    + rewrite Hb, Hacc. destruct stored; [by rewrite app_assoc|done].
    + destruct p as [| |y]; [done|by apply Hkeep|]. destruct Hpc as [Hne Hy].
      destruct (Hkeep Hne) as [? Hz]. by rewrite Hrp, Hz.
  - by split_and!.
  - split_and!; [done..|]. simpl. by rewrite count_0.
  - apply arr_read_inv in Hx. by split_and!.
  - destruct Hpc as [Hne Hx]. pose proof Hok as [Hl Hw Hr]. unfold BUFFER_SIZE in *.
    rewrite iadd_Ok in Hs by int_side. injection Hs as <-.
    rewrite imod_Ok in Hn by int_side. injection Hn as <-.
    destruct (advance_ok b x Hok Hne Hx) as [Hok' Hb].
    rewrite u8_id by (apply Z.mod_pos_bound; lia). split_and!; [done| |done]. simpl.
    rewrite Hacc, Hb, <- app_assoc. done.
Qed.

Lemma uart_run_inv s s' : uart_run s s' -> uart_inv s -> uart_inv s'.
Proof. induction 1; eauto using uart_step_inv. Qed.

Lemma interrupts_ok l b : buffer_ok b ->
  exists b' acc, interrupts l b = Ok b' /\ buffer_ok b' /\ bytes b' = bytes b ++ acc.
Proof.
  revert b. induction l as [|[st x] l IH]; intros b Hok; simpl.
  - exists b, []. by rewrite app_nil_r.
  - destruct (isr_ok st x b Hok) as (r & b1 & -> & Hok1 & Hb & _). simpl.
    destruct (IH b1 Hok1) as (b2 & acc & -> & Hok2 & Hb2).
    exists b2, ((if r then [x] else []) ++ acc). split_and!; [done..|].
    rewrite Hb2, Hb. destruct r; [by rewrite <- app_assoc|done].
Qed.
End interleaving.

(** The handler stores a byte exactly when the status says there is one and fewer than
    255 are waiting. *)
Lemma isr_stores status x b : buffer_ok b ->
  exists b', uart_isr status x b = Ok (negb (Z.land status UART_DATA_READY =? 0) && (count b <? 255), b').
Proof.
  intros Hok. unfold uart_isr. destruct (Z.land status UART_DATA_READY =? 0); simpl; [by eexists|].
  destruct (write_ok b x Hok) as (r & b' & -> & _ & -> & _). by eexists.
Qed.

(** The reader alone comes to the end of a read of the oldest byte. *)
Lemma reader_delivers s x l : uart_inv s -> bytes (buf s) = x :: l ->
  exists s', rtc reader_step s s' /\ pc s' = Idle /\ delivered s' = delivered s ++ [x] /\ bytes (buf s') = l /\ accepted s' = accepted s.
Proof.
  intros (Hok & _ & Hpc) Hb. destruct s as [b p acc del]. simpl in *. pose proof Hok as [Hl Hw Hr].
  assert (count b <> 0) as Hne by (rewrite <- (length_bytes b Hok), Hb; simpl; lia).
  assert (zget (data b) (read_ptr b) = Some x) as Hx.
  { destruct (zget_range (data b) (read_ptr b)) as [y Hy]; [lia|]. destruct (advance_ok b y Hok Hne Hy) as [_ E]. rewrite Hb in E. by injection E as -> _. }
  destruct (advance_ok b x Hok Hne Hx) as [_ E]. rewrite Hb in E. injection E as E.
  assert (reader_step (mkUart b (Loaded x) acc del) (mkUart (mkBuffer (data b) (write_ptr b) ((read_ptr b + 1) mod BUFFER_SIZE)) Idle acc (del ++ [x]))) as H3.
  { unfold BUFFER_SIZE in *. rewrite <- (u8_id ((read_ptr b + 1) mod 256)) by (apply Z.mod_pos_bound; lia).
    eapply step_advance; [by rewrite iadd_Ok by int_side|]. by rewrite imod_Ok by (unfold BUFFER_SIZE; int_side). }
  assert (reader_step (mkUart b Checked acc del) (mkUart b (Loaded x) acc del)) as H2 by (apply step_load; by apply arr_read_Ok).
  assert (reader_step (mkUart b Idle acc del) (mkUart b Checked acc del)) as H1 by (apply step_check; by rewrite <- (count_0 b Hok)).
  eexists (mkUart (mkBuffer _ _ _) _ _ _). split; [|split; [reflexivity|]; split; [reflexivity|]; split; [symmetry; exact E|reflexivity]]. destruct p as [| |y].
  - eapply rtc_l; [exact H1|]. eapply rtc_l; [exact H2|]. by apply rtc_once.
  - eapply rtc_l; [exact H2|]. by apply rtc_once.
  - destruct Hpc as [_ Hy]. assert (y = x) as -> by congruence. by apply rtc_once.
Qed.

(** C24.  However the interrupt handler is interleaved with the accesses of the reader,
    the bytes delivered so far followed by those in the buffer are the bytes accepted by
    the handler, in order: none is lost, duplicated or reordered.  In every state reached
    the reader itself has a next access, and if a byte is waiting its own accesses bring it
    to the end of a read that delivers the oldest one; the handler runs without fault and
    accepts a byte exactly when the status says there is one and fewer than 255 wait. *)
Theorem uart_no_byte_lost d s :
  len d = BUFFER_SIZE ->
  uart_run (mkUart (ring_buffer_init (mkBuffer d 0 0)) Idle [] []) s ->
  accepted s = delivered s ++ bytes (buf s) /\ (exists s', reader_step s s') /\
  (forall x l, bytes (buf s) = x :: l -> exists s', rtc reader_step s s' /\ pc s' = Idle /\
     delivered s' = delivered s ++ [x] /\ bytes (buf s') = l /\ accepted s' = accepted s) /\
  (forall status x, exists b', uart_isr status x (buf s) =
     Ok (negb (Z.land status UART_DATA_READY =? 0) && (len (bytes (buf s)) <? 255), b')).
Proof.
  intros Hd Hrun.
  pose proof (uart_run_inv _ _ Hrun) as Hinv. specialize (Hinv ltac:(by split_and!)). pose proof Hinv as (Hok & Hacc & Hpc).
  split; [done|]. split; [|split; [intros x l; by apply reader_delivers|intros status x; rewrite length_bytes by done; by apply isr_stores]].
  destruct s as [b p acc del]. simpl in *. pose proof Hok as [Hl Hw Hr].
  destruct p as [| |x].
  - destruct (decide (read_ptr b = write_ptr b)); eexists; by constructor.
  - destruct (zget_range (data b) (read_ptr b)) as [x Hx]; [lia|].
    eexists. apply step_load. by apply arr_read_Ok.
  - unfold BUFFER_SIZE in *. eexists. eapply step_advance; [by rewrite iadd_Ok by int_side|].
    by rewrite imod_Ok by (unfold BUFFER_SIZE; int_side).
Qed.

(** Used sequentially the ring is a queue of capacity 255. *)
Lemma uart_ring_refines d w r (ops : list (fifo_op Z)) :
  len d = BUFFER_SIZE ->
  exists b, run_fifo ops (ring_buffer_init (mkBuffer d w r)) = Ok ((spec_run 255 ops []).1, b) /\
    bytes b = (spec_run 255 ops []).2.
Proof.
  intros Hd. destruct (run_fifo_refines ops (ring_buffer_init (mkBuffer d w r)))
    as (b & Hrun & _ & _ & Hb); [by constructor|]. by exists b.
Qed.

(** [uart_getchar] always comes back, whatever interrupts occur while it
    sleeps; with a byte waiting and time left it returns the oldest byte at
    once; and what it returns is taken from the front of the bytes that were
    waiting or arrived. *)
Theorem uart_getchar_spec arrivals b timeout_ms :
  buffer_ok b -> 0 <= timeout_ms < 65536 ->
  exists r b' arrived, uart_getchar arrivals b timeout_ms = Ok (r, b') /\ buffer_ok b' /\
    bytes b ++ arrived = option_list r ++ bytes b' /\
    (forall x l, bytes b = x :: l -> 0 < timeout_ms -> r = Some x /\ arrived = []).
Proof.
  intros Hok Ht. unfold uart_getchar.
  assert (forall n, (Z.to_nat timeout_ms < n)%nat ->
    exists r b' arrived, loop n (getchar_pass arrivals) (timeout_ms, b) = Ok (r, b') /\ buffer_ok b' /\
    bytes b ++ arrived = option_list r ++ bytes b' /\
    (forall x l, bytes b = x :: l -> 0 < timeout_ms -> r = Some x /\ arrived = [])) as Hgen;
    [|apply Hgen; lia].
  intros n. revert b timeout_ms Hok Ht. induction n as [|n IH]; intros b t Hok Ht Hn; [lia|].
  rewrite loop_S. unfold getchar_pass at 2. destruct (Z.eqb_spec t 0) as [->|Hne]; cbn [mbind res_bind].
  - exists None, b, []. rewrite app_nil_r. split_and!; try done.
  - destruct (read_ok b Hok) as (r & b1 & -> & Hok1 & Hs). cbn [mbind res_bind].
    destruct (bytes b) as [|y l] eqn:Eb; injection Hs as -> Hb1.
    + destruct (interrupts_ok (arrivals (u16 (t - 1))) b1 Hok1) as (b2 & acc & -> & Hok2 & Hb2).
      cbn [mbind res_bind]. unfold u16. rewrite Z.mod_small by lia.
      destruct (IH b2 (t - 1)) as (r & b' & arrived & -> & Hok' & Heq & _); [done|lia..|].
      exists r, b', (acc ++ arrived). split_and!; try done. simpl.
      rewrite <- Heq, Hb2, Hb1. done.
    + exists (Some y), b1, []. split_and!; try done.
      * rewrite app_nil_r. simpl. by rewrite Hb1.
      * by intros x l' [= -> ->].
Qed.

Lemma mask_mod z : 0 <= z -> Z.land z (BUFFER_SIZE - 1) = z mod BUFFER_SIZE.
Proof. intros _. change (BUFFER_SIZE - 1) with (Z.ones 8). by rewrite Z.land_ones. Qed.

(** The ring with masks instead of remainders is the same ring, and its
    [ring_buffer_size] is the number of bytes in it. *)
Lemma basic_ring_equiv b x :
  buffer_ok b ->
  BasicRing.ring_buffer_write b x = ring_buffer_write b x /\
  BasicRing.ring_buffer_read b = ring_buffer_read b /\
  BasicRing.ring_buffer_size b = Ok (len (bytes b)).
Proof.
  intros Hok. pose proof Hok as [Hl Hw Hr]. unfold BUFFER_SIZE in Hw, Hr.
  unfold BasicRing.ring_buffer_write, ring_buffer_write, BasicRing.ring_buffer_read,
    ring_buffer_read, BasicRing.ring_buffer_size.
  rewrite (length_bytes b Hok). rewrite !iadd_Ok, isub_Ok by int_side.
  cbn [mbind res_bind]. rewrite !imod_Ok by (unfold BUFFER_SIZE; int_side).
  rewrite !mask_mod by lia. cbn [mbind res_bind]. split_and!; [done..|].
  f_equal.
  change (BUFFER_SIZE - 1) with (Z.ones 8). rewrite Z.land_ones by done.
  apply u8_id. apply Z.mod_pos_bound. done.
Qed.

Lemma uart_no_byte_lost_witness :
  let s := mkUart (mkBuffer (zset (replicate 256 0) 0 65) 1 0) Checked [65] [] in
  accepted s = [] ++ bytes (buf s) /\ (exists s', reader_step s s') /\ (exists s', rtc reader_step s s' /\ delivered s' = [65]).
Proof.
  intros s. destruct (uart_no_byte_lost (replicate 256 0) s) as (H1 & H2 & H3 & _); [reflexivity| |].
  - eapply run_step; [eapply run_step; [apply run_refl|]|].
    + apply (step_isr (ring_buffer_init (mkBuffer (replicate 256 0) 0 0)) Idle [] [] 128 65 true). vm_compute. reflexivity.
    + apply step_reader, step_check. done.
  - split; [exact H1|]. split; [exact H2|]. destruct (H3 65 []) as (s' & Hs & _ & Hd & _); [vm_compute; reflexivity|]. by exists s'.
Defined.

Lemma uart_ring_refines_witness :
  exists b, run_fifo [Enq 1; Enq 2; Deq; Deq; Deq] (ring_buffer_init (mkBuffer (replicate 256 0) 7 9)) =
    Ok ([Accepted true; Accepted true; Removed (Some 1); Removed (Some 2); Removed None], b) /\
    bytes b = [].
Proof.
  apply (uart_ring_refines (replicate 256 0) 7 9 [Enq 1; Enq 2; Deq; Deq; Deq]). reflexivity.
Defined.

Lemma uart_getchar_spec_witness :
  exists r b' arrived, uart_getchar (fun t => if t =? 5 then [(128, 66)] else [])
      (mkBuffer (replicate 256 0) 0 0) 1000 = Ok (r, b') /\ buffer_ok b' /\
    bytes (mkBuffer (replicate 256 0) 0 0) ++ arrived = option_list r ++ bytes b' /\
    (forall x l, bytes (mkBuffer (replicate 256 0) 0 0) = x :: l -> 0 < 1000 -> r = Some x /\ arrived = []).
Proof.
  apply (uart_getchar_spec (fun t => if t =? 5 then [(128, 66)] else [])
      (mkBuffer (replicate 256 0) 0 0) 1000); [|lia].
  constructor; vm_compute; done.
Defined.

Lemma basic_ring_equiv_witness :
  BasicRing.ring_buffer_write (mkBuffer (replicate 256 0) 255 3) 9 =
    ring_buffer_write (mkBuffer (replicate 256 0) 255 3) 9 /\
  BasicRing.ring_buffer_read (mkBuffer (replicate 256 0) 255 3) =
    ring_buffer_read (mkBuffer (replicate 256 0) 255 3) /\
  BasicRing.ring_buffer_size (mkBuffer (replicate 256 0) 255 3) =
    Ok (len (bytes (mkBuffer (replicate 256 0) 255 3))).
Proof.
  apply (basic_ring_equiv (mkBuffer (replicate 256 0) 255 3) 9).
  constructor; vm_compute; done.
Defined.
