(* ===== verification/MemAlloc.v ===== *)
(** * A block allocator with three placement strategies
    ([memory/memory_management/mem_alloc.c])

    The pool of 1024 bytes is cut into blocks, each with a 24-byte header
    ([size], [is_free], [next]) at its start.  The store maps the offset of a
    header in the pool to its fields; a pointer is such an offset, [None] is
    NULL.  A header that would lie outside the pool is a fault. *)
From Stdlib Require Import ZArith Lia.
From stdpp Require Import base tactics list numbers option gmap.
From S2P Require Import Prelude Select.

#[local] Open Scope Z_scope.

Definition MEMORY_SIZE : Z := 1024.
Definition MIN_ALLOCATION : Z := 16.
Definition sizeof_Block : Z := 24.

Record Block : Type := mkBlock {
  size : Z;
  is_free : bool;
  next : option Z
}.

Inductive AllocationStrategy : Type := FIRST_FIT | BEST_FIT | WORST_FIT.

Record heap : Type := mkHeap {
  memory_pool : gmap Z Block;
  head : option Z
}.

Definition load (h : heap) (p : Z) : res Block :=
  match memory_pool h !! p with Some b => Ok b | None => Fault OutOfBounds end.

Definition store (h : heap) (p : Z) (b : Block) : res heap :=
  if (0 <=? p) && (p + sizeof_Block <=? MEMORY_SIZE)
  then Ok (mkHeap (<[p := b]> (memory_pool h)) (head h)) else Fault OutOfBounds.

Definition init_memory (h : heap) : res heap :=
  store (mkHeap (memory_pool h) (Some 0)) 0 (mkBlock (MEMORY_SIZE - sizeof_Block) true None).

(** [size_t] arithmetic wraps at 64 bits; [~(MIN_ALLOCATION - 1)] is the [int]
    -16 converted to [size_t]. *)
Definition round_size (sz : Z) : Z :=
  Z.land (u64 (sz + MIN_ALLOCATION - 1)) (u64 (- MIN_ALLOCATION)).

Definition split_block (h : heap) (block : Z) (sz : Z) : res (Z * heap) :=
  b ← load h block;
  if size b >? u64 (sz + sizeof_Block + MIN_ALLOCATION) then
    let new_block := block + sizeof_Block + sz in
    h1 ← store h new_block (mkBlock (u64 (size b - sz - sizeof_Block)) true (next b));
    h2 ← store h1 block (mkBlock sz false (Some new_block));
    Ok (block + sizeof_Block, h2)
  else
    h1 ← store h block (mkBlock (size b) false (next b));
    Ok (block + sizeof_Block, h1).

(** [while (current) { ...; current = current->next; }]: the body sees the
    pointer and the header.  A pool of 1024 bytes has at most 42 headers. *)
Definition WALK_FUEL : nat := 64.

Definition walk_pass {A} (h : heap) (f : Z -> Block -> A -> A) (st : option Z * A)
    : res (ctl (option Z * A) A) :=
  let '(current, acc) := st in
  match current with
  | None => Ok (Return acc)
  | Some p => b ← load h p; Ok (Next (next b, f p b acc))
  end.

Definition walk {A} (h : heap) (f : Z -> Block -> A -> A) (acc : A) : res A :=
  loop WALK_FUEL (walk_pass h f) (head h, acc).

Definition first_fit_pass (h : heap) (sz : Z) (current : option Z)
    : res (ctl (option Z) (option Z)) :=
  match current with
  | None => Ok (Return None)
  | Some p =>
      b ← load h p;
      if is_free b && (size b >=? sz) then Ok (Return (Some p)) else Ok (Next (next b))
  end.

Definition best_fit_step (sz : Z) (p : Z) (b : Block) (st : Z * option Z) : Z * option Z :=
  let '(min_size, best_block) := st in
  if is_free b && (size b >=? sz) then
    if size b <? min_size then (size b, Some p) else (min_size, best_block)
  else (min_size, best_block).

Definition worst_fit_step (sz : Z) (p : Z) (b : Block) (st : Z * option Z) : Z * option Z :=
  let '(max_size, best_block) := st in
  if is_free b && (size b >=? sz) then
    if size b >? max_size then (size b, Some p) else (max_size, best_block)
  else (max_size, best_block).

(** The block the strategy chooses. *)
Definition choose_block (h : heap) (sz : Z) (strategy : AllocationStrategy) : res (option Z) :=
  match strategy with
  | FIRST_FIT => loop WALK_FUEL (first_fit_pass h sz) (head h)
  | BEST_FIT => '(_, b) ← walk h (best_fit_step sz) (MEMORY_SIZE + 1, None); Ok b
  | WORST_FIT => '(_, b) ← walk h (worst_fit_step sz) (0, None); Ok b
  end.

Definition allocate_memory (h : heap) (requested : Z) (strategy : AllocationStrategy)
    : res (option Z * heap) :=
  let sz := round_size requested in
  c ← choose_block h sz strategy;
  match c with
  | Some block => '(p, h') ← split_block h block sz; Ok (Some p, h')
  | None => Ok (None, h)
  end.

(** The search for the predecessor in [free_memory]. *)
Definition prev_pass (h : heap) (block : Z) (prev : option Z)
    : res (ctl (option Z) (option Z)) :=
  match prev with
  | None => Ok (Return None)
  | Some p =>
      b ← load h p;
      if bool_decide (next b = Some block) then Ok (Return (Some p)) else Ok (Next (next b))
  end.

(** The first half of [free_memory]: mark the block and join a free successor. *)
Definition free_and_join (h : heap) (block : Z) : res heap :=
  b ← load h block;
  h1 ← store h block (mkBlock (size b) true (next b));
  match next b with
  | Some n =>
      nb ← load h1 n;
      if is_free nb then
        store h1 block (mkBlock (u64 (size b + (sizeof_Block + size nb))) true (next nb))
      else Ok h1
  | None => Ok h1
  end.

Definition free_memory (h : heap) (ptr : option Z) : res heap :=
  match ptr with
  | None => Ok h
  | Some a =>
      let block := a - sizeof_Block in
      h2 ← free_and_join h block;
      prev ← loop WALK_FUEL (prev_pass h2 block) (head h2);
      match prev with
      | Some p =>
          pb ← load h2 p;
          if is_free pb then
            b2 ← load h2 block;
            store h2 p (mkBlock (u64 (size pb + (sizeof_Block + size b2))) (is_free pb) (next b2))
          else Ok h2
      | None => Ok h2
      end
  end.

(** [print_memory_state]: the blocks listed, and the two totals. *)
Definition print_step (p : Z) (b : Block) (st : list (Z * bool) * Z * Z) : list (Z * bool) * Z * Z :=
  let '(lines, total_free, total_used) := st in
  let lines' := lines ++ [(size b, is_free b)] in
  if is_free b then (lines', u64 (total_free + size b), total_used)
  else (lines', total_free, u64 (total_used + size b)).

Definition print_memory_state (h : heap) : res (list (Z * bool) * Z * Z) :=
  walk h print_step ([], 0, 0).

(** [main]: the states it prints. *)
Definition memalloc_main (h0 : heap) : res (list (list (Z * bool) * Z * Z)) :=
  h ← init_memory h0;
  s0 ← print_memory_state h;
  '(p1, h) ← allocate_memory h 100 FIRST_FIT;
  s1 ← print_memory_state h;
  '(p2, h) ← allocate_memory h 200 FIRST_FIT;
  s2 ← print_memory_state h;
  h ← free_memory h p1;
  s3 ← print_memory_state h;
  '(p3, h) ← allocate_memory h 150 FIRST_FIT;
  s4 ← print_memory_state h;
  '(p4, h) ← allocate_memory h 50 BEST_FIT;
  s5 ← print_memory_state h;
  '(p5, h) ← allocate_memory h 75 BEST_FIT;
  s6 ← print_memory_state h;
  h ← free_memory h p4;
  s7 ← print_memory_state h;
  '(p6, h) ← allocate_memory h 25 BEST_FIT;
  s8 ← print_memory_state h;
  h ← free_memory h p2;
  h ← free_memory h p3;
  h ← free_memory h p5;
  h ← free_memory h p6;
  s9 ← print_memory_state h;
  Ok [s0; s1; s2; s3; s4; s5; s6; s7; s8; s9].

(** ** Layout

    The abstract heap: the list of blocks, size and status, in address order. *)
Abbreviation ablock := (Z * bool)%type.

Definition extent (b : ablock) : Z := sizeof_Block + b.1.
Fixpoint total (l : list ablock) : Z :=
  match l with [] => 0 | b :: l' => extent b + total l' end.

(** The blocks [l] lie from [p] to [q], and the last one points to [nx]. *)
Fixpoint seg (m : gmap Z Block) (p : Z) (l : list ablock) (q : Z) (nx : option Z) : Prop :=
  match l with
  | [] => p = q
  | b :: l' =>
      0 <= b.1 /\
      m !! p = Some (mkBlock b.1 b.2 (match l' with [] => nx | _ => Some (p + extent b) end)) /\
      seg m (p + extent b) l' q nx
  end.

Definition heap_ok (h : heap) (l : list ablock) : Prop :=
  head h = Some 0 /\ l <> [] /\ seg (memory_pool h) 0 l MEMORY_SIZE None.

(** No two neighbours are free. *)
Fixpoint coalesced (l : list ablock) : Prop :=
  match l with
  | [] => True
  | b :: l' => match l' with [] => True | c :: _ => b.2 && c.2 = false end /\ coalesced l'
  end.

(** ** Abstract operations *)

Definition eligible (strategy : AllocationStrategy) (sz : Z) (b : ablock) : bool :=
  b.2 && (b.1 >=? sz) && match strategy with WORST_FIT => b.1 >? 0 | _ => true end.

Definition better (strategy : AllocationStrategy) (x y : ablock) : bool :=
  match strategy with
  | FIRST_FIT => false
  | BEST_FIT => x.1 <? y.1
  | WORST_FIT => x.1 >? y.1
  end.

#[export] Instance better_strict s : StrictWeak (better s).
Proof.
  destruct s; [by constructor|apply (key_lt_strict (A:=ablock) fst)|apply (key_gt_strict (A:=ablock) fst)].
Qed.

Definition carve (b : ablock) (sz : Z) : list ablock :=
  if b.1 >? sz + sizeof_Block + MIN_ALLOCATION
  then [(sz, false); (b.1 - sz - sizeof_Block, true)] else [(b.1, false)].

(** Free a block and join it with free neighbours. *)
Definition join_next (s : Z) (l : list ablock) : list ablock :=
  match l with
  | (s', true) :: l' => (s + (sizeof_Block + s'), true) :: l'
  | _ => (s, true) :: l
  end.

Definition join_prev (l : list ablock) (r : list ablock) : list ablock :=
  match last l, r with
  | Some (s, true), (s', f) :: r' =>
      take (length l - 1) l ++ (s + (sizeof_Block + s'), true) :: r'
  | _, _ => l ++ r
  end.

Definition free_block (l1 : list ablock) (b : ablock) (l2 : list ablock) : list ablock :=
  join_prev l1 (join_next b.1 l2).

(** The address after the blocks [l], or [nx] when there is none. *)
Definition link (l : list ablock) (r : Z) (nx : option Z) : option Z :=
  match l with [] => nx | _ => Some r end.

Section segments.
Implicit Types (m : gmap Z Block) (p q r x : Z) (l : list ablock) (nx : option Z).

Lemma seg_total m p l q nx : seg m p l q nx -> q = p + total l /\ 0 <= total l.
Proof.
  revert p. induction l as [|b l IH]; intros p; simpl; [lia|].
  intros (Hb & _ & [-> Ht]%IH). unfold extent, sizeof_Block in *. lia.
Qed.

Lemma seg_app m p l1 l2 q nx :
  seg m p (l1 ++ l2) q nx <->
  exists r, seg m p l1 r (link l2 r nx) /\ seg m r l2 q nx.
Proof.
  revert p. induction l1 as [|b l1 IH]; intros p; simpl.
  - split; [by eexists|]. by intros (r & -> & ?).
  - rewrite IH. split.
    + intros (Hb & Hm & r & H1 & H2). exists r. split_and!; [done| |done..].
      rewrite Hm. destruct l1; simpl in *; [|done]. destruct l2; simpl in *; [done|by subst].
    + intros (r & (Hb & Hm & H1) & H2). split_and!; [done| |by exists r].
      rewrite Hm. destruct l1; simpl in *; [|done]. destruct l2; simpl in *; [done|by subst].
Qed.

Lemma seg_frame m p l q nx x b :
  seg m p l q nx -> x < p \/ q <= x -> seg (<[x := b]> m) p l q nx.
Proof.
  revert p. induction l as [|c l IH]; intros p; simpl; [done|].
  intros (Hc & Hm & Hs) Hx. pose proof (seg_total _ _ _ _ _ Hs) as [Hq Ht].
  unfold extent, sizeof_Block in *.
  split_and!; [done|rewrite lookup_insert_ne by lia; done|]. apply IH; [done|lia].
Qed.

Lemma seg_one m p b q nx :
  seg m p [b] q nx <-> 0 <= b.1 /\ m !! p = Some (mkBlock b.1 b.2 nx) /\ p + extent b = q.
Proof. done. Qed.

(** The blocks before, a block, and the blocks after. *)
Lemma seg_middle m p l1 b l2 q nx :
  seg m p (l1 ++ b :: l2) q nx <->
  exists r, seg m p l1 r (Some r) /\ 0 <= b.1 /\
    m !! r = Some (mkBlock b.1 b.2 (link l2 (r + extent b) nx)) /\
    seg m (r + extent b) l2 q nx.
Proof. rewrite seg_app. simpl. done. Qed.

Lemma load_seg h p l1 b l2 q nx :
  seg (memory_pool h) p (l1 ++ b :: l2) q nx ->
  load h (p + total l1) = Ok (mkBlock b.1 b.2 (link l2 (p + total l1 + extent b) nx)).
Proof.
  intros (r & H1 & _ & Hm & _)%seg_middle. apply seg_total in H1 as [-> _].
  unfold load. by rewrite Hm.
Qed.

Lemma store_ok h p b : 0 <= p -> p + sizeof_Block <= MEMORY_SIZE ->
  store h p b = Ok (mkHeap (<[p := b]> (memory_pool h)) (head h)).
Proof.
  intros H1 H2. unfold store. apply Z.leb_le in H1. apply Z.leb_le in H2. by rewrite H1, H2.
Qed.

(** Replace the blocks [mid] in the middle by [mid'] of the same extent. *)
Lemma seg_replace m m' p l1 mid mid' l2 q nx r :
  seg m p (l1 ++ mid ++ l2) q nx -> mid <> [] -> mid' <> [] ->
  r = p + total l1 ->
  seg m' r mid' (r + total mid) (link l2 (r + total mid) nx) ->
  (forall x, x < r \/ r + total mid <= x -> m' !! x = m !! x) ->
  seg m' p (l1 ++ mid' ++ l2) q nx.
Proof.
  intros Hs Hne Hne' -> Hmid Hsame. apply seg_app in Hs as (r & H1 & Hs).
  pose proof (seg_total _ _ _ _ _ H1) as [-> _]. apply seg_app in Hs as (r2 & Hm & H2).
  pose proof (seg_total _ _ _ _ _ Hm) as [-> Htot].
  assert (forall m1 m2 a l b n, (forall x, a <= x < b -> m2 !! x = m1 !! x) ->
    seg m1 a l b n -> seg m2 a l b n) as Hext.
  { clear. intros m1 m2 a l b n. revert a. induction l as [|c l IH]; intros a Hx; simpl; [done|].
    intros (Hc & Hm & Hs). pose proof (seg_total _ _ _ _ _ Hs) as [-> Ht].
    unfold extent, sizeof_Block in *. split_and!; [done|rewrite Hx by lia; done|].
    apply IH; [|done]. intros. apply Hx. lia. }
  apply seg_app. exists (p + total l1). split.
  - assert (link (mid' ++ l2) (p + total l1) nx = link (mid ++ l2) (p + total l1) nx) as ->
      by (destruct mid, mid'; done).
    apply (Hext m); [|done]. intros x Hx. apply Hsame. lia.
  - apply seg_app. exists (p + total l1 + total mid). split; [done|].
    apply (Hext m); [|done]. intros x Hx. apply Hsame. lia.
Qed.
End segments.

(** ** Walking the list *)

Section walking.
#[local] Arguments loop : simpl never.

Fixpoint fold_blocks {A} (f : Z -> Block -> A -> A) (p : Z) (l : list ablock) (nx : option Z) (acc : A) : A :=
  match l with
  | [] => acc
  | b :: l' =>
      fold_blocks f (p + extent b) l' nx (f p (mkBlock b.1 b.2 (link l' (p + extent b) nx)) acc)
  end.

Lemma seg_length m p l q nx : seg m p l q nx -> 24 * len l <= q - p.
Proof.
  revert p. induction l as [|b l IH]; intros p; simpl; [lia|].
  intros (Hb & _ & Hs%IH). unfold extent, sizeof_Block in *. lia.
Qed.

Lemma walk_ok {A} h (f : Z -> Block -> A -> A) l acc :
  heap_ok h l -> walk h f acc = Ok (fold_blocks f 0 l None acc).
Proof.
  intros (Hh & Hne & Hs). unfold walk. rewrite Hh.
  assert (forall fuel p l acc, seg (memory_pool h) p l MEMORY_SIZE None -> (length l < fuel)%nat ->
    loop fuel (walk_pass h f) (link l p None, acc) = Ok (fold_blocks f p l None acc)) as Hgen.
  { clear. induction fuel as [|fuel IH]; intros p l acc Hs Hf; [lia|]. rewrite loop_S.
    destruct l as [|b l]; simpl; [done|]. destruct Hs as (Hb & Hm & Hs). unfold load.
    rewrite Hm. simpl. simpl in Hf. rewrite <- (IH (p + extent b) l) by (done || lia).
    by destruct l. }
  pose proof (seg_length _ _ _ _ _ Hs). unfold MEMORY_SIZE, WALK_FUEL in *.
  rewrite <- (Hgen 64%nat 0 l acc Hs) by lia. by destruct l.
Qed.

(** The address of the header of block [k]. *)
Definition address (l : list ablock) (k : Z) : Z := total (take (Z.to_nat k) l).

Lemma total_app l1 l2 : total (l1 ++ l2) = total l1 + total l2.
Proof. induction l1 as [|b l1 IH]; simpl; lia. Qed.

Lemma address_app l1 l2 : address (l1 ++ l2) (len l1) = total l1.
Proof. unfold address. rewrite Nat2Z.id. by rewrite take_app_length. Qed.

(** A strategy that remembers a size and a block: [limit] is the initial size. *)
Definition limit (s : AllocationStrategy) : Z :=
  match s with WORST_FIT => 0 | _ => MEMORY_SIZE + 1 end.

Definition fit_step (s : AllocationStrategy) : Z -> Z -> Block -> Z * option Z -> Z * option Z :=
  match s with WORST_FIT => worst_fit_step | _ => best_fit_step end.

Definition remembers (s : AllocationStrategy) (sz : Z) (l : list ablock) (n : Z)
    (st : Z * option Z) : Prop :=
  exists k, is_best (eligible s sz) (better s) l n k /\ st.2 = address l <$> k /\
    st.1 = match k with
           | None => limit s
           | Some i => match zget l i with Some b => b.1 | None => 0 end
           end.

Lemma fit_step_ok s sz l n b nx st :
  s <> FIRST_FIT -> zget l n = Some b -> 0 <= b.1 <= MEMORY_SIZE ->
  remembers s sz l n st ->
  remembers s sz l (n + 1) (fit_step s sz (address l n) (mkBlock b.1 b.2 nx) st).
Proof.
  intros Hs Hb Hsz (k & Hbest & Hst & Hm). destruct st as [m best]. simpl in Hst, Hm.
  destruct (best_step_ok (eligible s sz) (better s) l n k) as (k' & Hk' & Hbest');
    [by eapply zget_Some_range|done|].
  exists k'. split; [done|]. unfold best_step in Hk'. rewrite (arr_read_Ok _ _ _ Hb) in Hk'.
  simpl in Hk'. unfold eligible in Hk'.
  destruct k as [i|]; simpl in Hbest.
  - destruct Hbest as (_ & y & Hy & Hey & _). rewrite Hy in Hm. subst m best.
    rewrite (arr_read_Ok _ _ _ Hy) in Hk'. simpl in Hk'.
    destruct s; [done| |]; unfold fit_step, best_fit_step, worst_fit_step; simpl.
    + rewrite andb_true_r in Hk'. destruct (b.2 && (b.1 >=? sz)); injection Hk' as <-.
      * simpl. destruct (b.1 <? y.1); simpl; [by rewrite Hb|by rewrite Hy].
      * simpl. by rewrite Hy.
    + unfold eligible in Hey. destruct (b.2 && (b.1 >=? sz)); simpl in Hk'.
      * zbool. destruct (Z.gtb_spec b.1 0); injection Hk' as <-; simpl;
          destruct (Z.gtb_spec b.1 y.1); simpl; rewrite ?Hb, ?Hy; (done || lia).
      * injection Hk' as <-. simpl. by rewrite Hy.
  - subst m best. destruct s; [done| |]; unfold fit_step, best_fit_step, worst_fit_step, limit; simpl.
    + rewrite andb_true_r in Hk'. destruct (b.2 && (b.1 >=? sz)); injection Hk' as <-; simpl.
      * unfold limit. destruct (Z.ltb_spec b.1 (MEMORY_SIZE + 1)); [|lia]. simpl. by rewrite Hb.
      * done.
    + destruct (b.2 && (b.1 >=? sz)); simpl in Hk' |- *.
      * destruct (b.1 >? 0); injection Hk' as <-; simpl; [by rewrite Hb|done].
      * by injection Hk' as <-.
Qed.

Lemma fit_fold_ok s sz l2 : forall l1 st,
  s <> FIRST_FIT -> Forall (fun b => 0 <= b.1 <= MEMORY_SIZE) l2 ->
  remembers s sz (l1 ++ l2) (len l1) st ->
  remembers s sz (l1 ++ l2) (len (l1 ++ l2)) (fold_blocks (fit_step s sz) (total l1) l2 None st).
Proof.
  induction l2 as [|b l2 IH]; intros l1 st Hs Hall Hr.
  - by rewrite app_nil_r in *.
  - apply Forall_cons_iff in Hall as [Hb Hall]. simpl fold_blocks.
    assert (zget (l1 ++ b :: l2) (len l1) = Some b) as Hz.
    { rewrite zget_nat. by apply list_lookup_middle. }
    rewrite <- (address_app l1 (b :: l2)) at 2.
    pose proof (fit_step_ok s sz _ _ _ (link l2 (total l1 + extent b) None) _ Hs Hz Hb Hr) as Hr'.
    replace (l1 ++ b :: l2) with ((l1 ++ [b]) ++ l2) in * by by rewrite <- app_assoc.
    replace (total l1 + extent b) with (total (l1 ++ [b])) in * by (rewrite total_app; simpl; lia).
    apply IH; [done..|]. replace (len (l1 ++ [b])) with (len l1 + 1) by (rewrite length_app; simpl; lia).
    done.
Qed.

Lemma seg_sizes m p l q nx : seg m p l q nx -> Forall (fun b => 0 <= b.1 <= q - p) l.
Proof.
  revert p. induction l as [|b l IH]; intros p; simpl; [constructor|].
  intros (Hb & _ & Hs). pose proof (seg_total _ _ _ _ _ Hs) as [-> Ht].
  unfold extent, sizeof_Block in *. constructor; [simpl; lia|].
  eapply list.Forall_impl; [by apply (IH _ Hs)|]. simpl. intros c. lia.
Qed.

Lemma first_fit_ok h sz l2 : forall fuel l1,
  seg (memory_pool h) (total l1) l2 MEMORY_SIZE None -> (length l2 < fuel)%nat ->
  Forall (fun b => eligible FIRST_FIT sz b = false) l1 ->
  exists k, loop fuel (first_fit_pass h sz) (link l2 (total l1) None) = Ok (address (l1 ++ l2) <$> k) /\
    is_best (eligible FIRST_FIT sz) (better FIRST_FIT) (l1 ++ l2) (len (l1 ++ l2)) k.
Proof.
  induction l2 as [|b l2 IH]; intros fuel l1 Hs Hf Hnone; (destruct fuel as [|fuel]; [lia|]);
    rewrite loop_S; simpl.
  - exists None. split; [done|]. rewrite app_nil_r. intros j x _ Hx. exact (Forall_zget _ _ _ _ Hnone Hx).
  - destruct Hs as (Hb & Hm & Hs). unfold load. rewrite Hm. simpl.
    destruct (b.2 && (b.1 >=? sz)) eqn:E; simpl.
    + exists (Some (len l1)). simpl. rewrite address_app. split; [done|].
      split; [rewrite length_app; simpl; lia|]. exists b. rewrite zget_nat.
      rewrite list_lookup_middle by done. split_and!; [done|unfold eligible; by rewrite E|].
      intros j x Hj Hx Hex. split; [done|]. intros Hlt. exfalso.
      assert (zget l1 j = Some x) as Hx'.
      { unfold zget in *. destruct (0 <=? j) eqn:E0; [|done]. zbool.
        by rewrite lookup_app_l in Hx by lia. }
      by rewrite (Forall_zget _ _ _ _ Hnone Hx') in Hex.
    + simpl in Hf. destruct (IH fuel (l1 ++ [b])) as (k & Hk & Hbest).
      * by replace (total (l1 ++ [b])) with (total l1 + extent b) by (rewrite total_app; simpl; lia).
      * lia.
      * apply Forall_app. split; [done|]. constructor; [|done]. unfold eligible. by rewrite E.
      * rewrite <- app_assoc in Hk, Hbest. simpl in Hk, Hbest. exists k. split; [|done]. rewrite <- Hk.
        replace (total (l1 ++ [b])) with (total l1 + extent b) by (rewrite total_app; simpl; lia).
        by destruct l2.
Qed.

(** The search returns the block the strategy prescribes. *)
Lemma choose_block_ok h l sz s :
  heap_ok h l ->
  exists k, choose_block h sz s = Ok (address l <$> k) /\
    is_best (eligible s sz) (better s) l (len l) k.
Proof.
  intros Hok. pose proof Hok as (Hh & Hne & Hs). unfold choose_block.
  assert (Forall (fun b => 0 <= b.1 <= MEMORY_SIZE) l) as Hall.
  { apply seg_sizes in Hs. by rewrite Z.sub_0_r in Hs. }
  assert (forall s, s <> FIRST_FIT -> remembers s sz l (len l)
    (fold_blocks (fit_step s sz) 0 l None (limit s, None))) as Hfit.
  { intros s' Hs'. apply (fit_fold_ok s' sz l []); [done..|]. exists None.
    split; [apply is_best_0|done]. }
  destruct s.
  - rewrite Hh. destruct (first_fit_ok h sz l WALK_FUEL []) as (k & Hk & Hbest); [done| |done|].
    + pose proof (seg_length _ _ _ _ _ Hs). unfold MEMORY_SIZE, WALK_FUEL in *. lia.
    + simpl app in Hk, Hbest. exists k. split; [|done]. rewrite <- Hk. by destruct l.
  - rewrite (walk_ok _ _ _ _ Hok). simpl. destruct (Hfit BEST_FIT) as (k & Hbest & Hst & _); [done|].
    simpl in Hst. destruct (fold_blocks _ _ _ _ _) as [m b]. simpl in *. subst b. by exists k.
  - rewrite (walk_ok _ _ _ _ Hok). simpl. destruct (Hfit WORST_FIT) as (k & Hbest & Hst & _); [done|].
    simpl in Hst. destruct (fold_blocks _ _ _ _ _) as [m b]. simpl in *. subst b. by exists k.
Qed.
End walking.

(** ** Allocation *)

(** Arithmetic on the extents of blocks. *)
Ltac layout :=
  simpl in *; unfold extent, sizeof_Block, MIN_ALLOCATION, MEMORY_SIZE, UINT64 in *; simpl in *; lia.

Section operations.
#[local] Arguments loop : simpl never.

Lemma round_size_ok sz : 0 <= sz <= UINT64 - MIN_ALLOCATION ->
  round_size sz = 16 * ((sz + 15) / 16) /\ sz <= round_size sz < sz + 16.
Proof.
  intros Hsz. unfold round_size, MIN_ALLOCATION in *.
  replace (sz + 16 - 1) with (sz + 15) by lia. rewrite (u64_id (sz + 15)) by lia.
  change (u64 (- (16))) with (Z.ldiff (Z.ones 64) (Z.ones 4)).
  assert (Z.land (sz + 15) (Z.ldiff (Z.ones 64) (Z.ones 4)) = Z.ldiff (sz + 15) (Z.ones 4)) as ->.
  { assert (Z.land (sz + 15) (Z.ones 64) = sz + 15) as H.
    { rewrite Z.land_ones by done. apply Z.mod_small. unfold UINT64 in Hsz. simpl. lia. }
    rewrite <- H at 2. apply Z.bits_inj'. intros n Hn.
    rewrite !Z.land_spec, !Z.ldiff_spec, !Z.land_spec. by rewrite andb_assoc. }
  rewrite Z.ldiff_ones_r, Z.shiftl_mul_pow2, Z.shiftr_div_pow2 by done.
  change (2 ^ 4) with 16. dlia.
Qed.

Lemma round_size_nonneg sz : 0 <= round_size sz.
Proof. unfold round_size. apply Z.land_nonneg. left. apply u64_range. Qed.

Lemma total_nonneg l : Forall (fun b => 0 <= b.1) l -> 0 <= total l.
Proof. induction 1; simpl in *; unfold extent, sizeof_Block in *; lia. Qed.

Lemma split_ok h l1 b l2 sz :
  heap_ok h (l1 ++ b :: l2) -> 0 <= sz <= b.1 ->
  exists h', split_block h (total l1) sz = Ok (total l1 + sizeof_Block, h') /\
    heap_ok h' (l1 ++ carve b sz ++ l2).
Proof.
  intros (Hh & Hne & Hs) Hsz. pose proof (load_seg _ _ _ _ _ _ _ Hs) as Hload.
  rewrite Z.add_0_l in Hload. unfold split_block. rewrite Hload. simpl.
  pose proof (seg_total _ _ _ _ _ Hs) as [Htot _]. rewrite total_app in Htot. simpl in Htot.
  pose proof Hs as Hs'. apply seg_middle in Hs' as (r & H1 & Hb & _ & H2).
  pose proof (seg_total _ _ _ _ _ H1) as [-> Ht1]. pose proof (seg_total _ _ _ _ _ H2) as [_ Ht2].
  unfold extent, sizeof_Block, MIN_ALLOCATION, MEMORY_SIZE in *.
  rewrite (u64_id (sz + 24 + 16)) by layout. unfold carve, sizeof_Block, MIN_ALLOCATION.
  destruct (Z.gtb_spec b.1 (sz + 24 + 16)) as [Hgt|Hle].
  - rewrite (u64_id (b.1 - sz - 24)) by layout.
    rewrite store_ok by layout. simpl.
    rewrite store_ok by layout. simpl.
    eexists. split; [done|]. split_and!; [done|by destruct l1|]. simpl.
    apply (seg_replace (memory_pool h) _ 0 l1 [b] [(sz, false); (b.1 - sz - 24, true)] l2 _ _ (total l1));
      [done..|layout| |]; simpl.
    + split_and!; [layout| |layout| |].
      * rewrite lookup_insert_eq. do 3 f_equal. layout.
      * replace (total l1 + extent (sz, false)) with (total l1 + 24 + sz)
          by layout.
        rewrite lookup_insert_ne, lookup_insert_eq by layout. do 3 f_equal. layout.
      * layout.
    + intros x Hx. rewrite !lookup_insert_ne by layout. done.
  - rewrite store_ok by layout. simpl.
    eexists. split; [done|]. split_and!; [done|by destruct l1|]. simpl.
    apply (seg_replace (memory_pool h) _ 0 l1 [b] [(b.1, false)] l2 _ _ (total l1));
      [done..|layout| |]; simpl.
    + split_and!; [done| |layout].
      rewrite lookup_insert_eq. do 3 f_equal. layout.
    + intros x Hx. rewrite !lookup_insert_ne by layout. done.
Qed.

(** What an allocation does to the list of blocks. *)
Definition allocates (s : AllocationStrategy) (sz : Z) (l l' : list ablock) (r : option Z) : Prop :=
  match r with
  | None => l' = l /\ is_best (eligible s sz) (better s) l (len l) None
  | Some a => exists l1 b l2, l = l1 ++ b :: l2 /\ b.2 = true /\ sz <= b.1 /\
      is_best (eligible s sz) (better s) l (len l) (Some (len l1)) /\
      a = total l1 + sizeof_Block /\ l' = l1 ++ carve b sz ++ l2
  end.

Lemma allocate_ok h l requested s :
  heap_ok h l ->
  exists r h' l', allocate_memory h requested s = Ok (r, h') /\ heap_ok h' l' /\
    allocates s (round_size requested) l l' r.
Proof.
  intros Hok. unfold allocate_memory. pose proof (round_size_nonneg requested) as Hr.
  destruct (choose_block_ok h l (round_size requested) s Hok) as (k & -> & Hbest). simpl.
  destruct k as [k|]; simpl; [|by exists None, h, l].
  pose proof Hbest as (_ & b & Hb & Hel & _). pose proof (zget_Some_range _ _ _ Hb) as Hk.
  unfold zget in Hb. destruct (0 <=? k) eqn:E; [|done].
  destruct (list_elem_of_split_length _ _ _ Hb) as (l1 & l2 & -> & Hlen).
  assert (k = len l1) as -> by lia.
  unfold eligible in Hel. apply andb_true_iff in Hel as [Hel _]. zbool.
  rewrite address_app. destruct (split_ok h l1 b l2 (round_size requested)) as (h' & -> & Hok');
    [done|lia|]. simpl.
  exists (Some (total l1 + sizeof_Block)), h', (l1 ++ carve b (round_size requested) ++ l2).
  split_and!; [done..|]. exists l1, b, l2. by split_and!.
Qed.

(** ** Freeing *)

Lemma prev_found h block l1b : forall fuel l1a c r,
  seg (memory_pool h) (total l1a) (l1b ++ c :: r) MEMORY_SIZE None -> r <> [] ->
  block = total (l1a ++ l1b ++ [c]) -> (length l1b < fuel)%nat ->
  loop fuel (prev_pass h block) (Some (total l1a)) = Ok (Some (total (l1a ++ l1b))).
Proof.
  induction l1b as [|b l1b IH]; intros fuel l1a c r Hs Hne Hblk Hf;
    (destruct fuel as [|fuel]; [lia|]); rewrite loop_S; simpl in *.
  - destruct Hs as (Hc & Hm & _). unfold load. rewrite Hm. simpl.
    rewrite Hblk, total_app. simpl. destruct r; [done|]. simpl. rewrite Z.add_0_r.
    rewrite bool_decide_true by done. simpl. by rewrite app_nil_r.
  - destruct Hs as (Hb & Hm & Hs). unfold load. rewrite Hm. simpl.
    assert (block <> total l1a + extent b).
    { rewrite Hblk, !total_app. simpl. rewrite total_app. simpl.
      apply seg_app in Hs as (q & Hs & (? & _)). apply seg_total in Hs.
      unfold extent, sizeof_Block in *. lia. }
    rewrite bool_decide_false.
    + replace (l1a ++ b :: l1b) with ((l1a ++ [b]) ++ l1b) by by rewrite <- app_assoc.
      assert (total (l1a ++ [b]) = total l1a + extent b) as Ht by (rewrite total_app; simpl; lia).
      rewrite <- (IH fuel (l1a ++ [b]) c r); [|by rewrite Ht|done| |lia].
      * rewrite Ht. by destruct l1b.
      * rewrite Hblk. by rewrite <- !app_assoc.
    + destruct l1b; simpl; naive_solver.
Qed.

Lemma prev_none h l : forall fuel p, 0 <= p ->
  seg (memory_pool h) p l MEMORY_SIZE None -> (length l < fuel)%nat ->
  loop fuel (prev_pass h 0) (link l p None) = Ok None.
Proof.
  induction l as [|b l IH]; intros fuel p Hp Hs Hf; (destruct fuel as [|fuel]; [lia|]);
    rewrite loop_S; simpl in *; [done|].
  destruct Hs as (Hb & Hm & Hs). unfold load. rewrite Hm. simpl.
  unfold extent, sizeof_Block in *. rewrite bool_decide_false.
  - rewrite <- (IH fuel (p + (24 + b.1))) by (done || lia). by destruct l.
  - destruct l; [done|]. intros [=]. lia.
Qed.

Lemma free_next_ok h l1 b l2 :
  heap_ok h (l1 ++ b :: l2) ->
  exists h', free_and_join h (total l1) = Ok h' /\ heap_ok h' (l1 ++ join_next b.1 l2).
Proof.
  intros (Hh & Hne & Hs). pose proof (load_seg _ _ _ _ _ _ _ Hs) as Hload.
  unfold free_and_join. rewrite Z.add_0_l in Hload. rewrite Hload. simpl.
  pose proof (seg_total _ _ _ _ _ Hs) as [Htot _]. rewrite total_app in Htot. simpl in Htot.
  pose proof Hs as Hs'. apply seg_middle in Hs' as (r & H1 & Hb & _ & H2).
  pose proof (seg_total _ _ _ _ _ H1) as [-> Ht1]. pose proof (seg_total _ _ _ _ _ H2) as [_ Ht2].
  rewrite Z.add_0_l in *.
  unfold extent, sizeof_Block, MEMORY_SIZE in *.
  rewrite store_ok by layout. simpl.
  assert (heap_ok (mkHeap (<[total l1:=mkBlock b.1 true (link l2 (total l1 + (24 + b.1)) None)]>
    (memory_pool h)) (head h)) (l1 ++ (b.1, true) :: l2)) as Hok1.
  { split_and!; [done|by destruct l1|]. simpl.
    apply (seg_replace (memory_pool h) _ 0 l1 [b] [(b.1, true)] l2 _ _ (total l1));
      [done..|layout| |]; simpl.
    - split_and!; [done| |layout]. rewrite lookup_insert_eq. do 3 f_equal. layout.
    - intros x Hx. rewrite lookup_insert_ne by layout. done. }
  destruct l2 as [|[s f] l2]; simpl; [by eexists|].
  simpl in H2. destruct H2 as (Hsz & Hm2 & H2). unfold load. simpl.
  rewrite lookup_insert_ne by layout. rewrite Hm2. simpl.
  destruct f; [|by eexists]. pose proof (seg_total _ _ _ _ _ H2) as [_ Ht3].
  unfold extent, sizeof_Block in *. simpl in *.
  rewrite u64_id by layout.
  rewrite store_ok by layout. simpl.
  eexists. split; [done|]. destruct Hok1 as (_ & _ & Hs1). split_and!; [done|by destruct l1|]. simpl in *.
  apply (seg_replace (<[total l1:=mkBlock b.1 true (Some (total l1 + (24 + b.1)))]> (memory_pool h)) _ 0 l1
    [(b.1, true); (s, true)] [(b.1 + (24 + s), true)] l2 _ _ (total l1));
    [done..|layout| |]; simpl.
  - split_and!; [layout| |layout]. rewrite lookup_insert_eq. do 2 f_equal.
    destruct l2; simpl; [done|]. f_equal. layout.
  - intros x Hx. rewrite lookup_insert_ne by layout. done.
Qed.

Lemma join_next_cons s l : exists s' l', join_next s l = (s', true) :: l'.
Proof. destruct l as [|[s' []] l]; simpl; eauto. Qed.

(** The second half: join with a free predecessor. *)
Lemma free_prev_ok h l1 s l2 :
  heap_ok h (l1 ++ (s, true) :: l2) ->
  exists h', (prev ← loop WALK_FUEL (prev_pass h (total l1)) (head h);
      match prev with
      | Some p =>
          pb ← load h p;
          if is_free pb then
            b2 ← load h (total l1);
            store h p (mkBlock (u64 (size pb + (sizeof_Block + size b2))) (is_free pb) (next b2))
          else Ok h
      | None => Ok h
      end) = Ok h' /\ heap_ok h' (join_prev l1 ((s, true) :: l2)).
Proof.
  intros Hok. pose proof Hok as (Hh & Hne & Hs). rewrite Hh.
  pose proof (seg_length _ _ _ _ _ Hs) as Hlen. rewrite length_app in Hlen. simpl in Hlen.
  destruct l1 as [|c l1 _] using rev_ind.
  - exists h. simpl total. unfold join_prev. simpl.
    replace (Some 0) with (link ((s, true) :: l2) 0 None) by done.
    rewrite prev_none with (l := (s, true) :: l2) (p := 0); [done..| |].
    + by apply Hs.
    + unfold WALK_FUEL. layout.
  - rewrite length_app in Hlen. simpl in Hlen. rewrite <- app_assoc in Hs. simpl in Hs.
    assert (total (l1 ++ [c]) = total l1 + extent c) as Htc by (rewrite total_app; simpl; lia).
    replace (Some 0) with (Some (total [])) by done.
    rewrite (prev_found h (total (l1 ++ [c])) l1 WALK_FUEL [] c ((s, true) :: l2));
      [|done|done|done|unfold WALK_FUEL; layout].
    simpl app. rewrite bind_ret_l. pose proof (load_seg _ _ _ _ _ _ _ Hs) as Hload.
    rewrite Z.add_0_l in Hload. rewrite Hload, bind_ret_l.
    unfold join_prev. rewrite last_snoc. destruct c as [sc []]; simpl is_free; [|by exists h].
    pose proof Hs as Hs'. replace (l1 ++ (sc, true) :: (s, true) :: l2)
      with ((l1 ++ [(sc, true)]) ++ (s, true) :: l2) in Hs' by by rewrite <- app_assoc.
    pose proof (load_seg _ _ _ _ _ _ _ Hs') as Hload2. rewrite Z.add_0_l in Hload2.
    rewrite Hload2, bind_ret_l. simpl size. simpl next.
    apply seg_middle in Hs' as (r & H1 & Hsz & _ & H2). pose proof (seg_total _ _ _ _ _ H2) as [_ Ht2].
    pose proof (seg_total _ _ _ _ _ Hs) as [Htot _]. rewrite total_app in Htot. simpl total in Htot.
    apply seg_app in H1 as (r1 & H1 & Hsc & _). pose proof (seg_total _ _ _ _ _ H1) as [_ Ht1].
    rewrite u64_id by layout. rewrite store_ok by layout. eexists. split; [done|].
    rewrite length_app, Nat.add_sub, take_app_length.
    split_and!; [done|by destruct l1|]. simpl memory_pool.
    apply (seg_replace (memory_pool h) _ 0 l1 [(sc, true); (s, true)] [(sc + (sizeof_Block + s), true)]
      l2 _ _ (total l1)); [done..|layout| |]; simpl.
    + split_and!; [layout| |layout]. rewrite lookup_insert_eq. do 3 f_equal. layout.
    + intros x Hx. rewrite lookup_insert_ne by layout. done.
Qed.

Lemma free_ok h l1 b l2 :
  heap_ok h (l1 ++ b :: l2) ->
  exists h', free_memory h (Some (total l1 + sizeof_Block)) = Ok h' /\
    heap_ok h' (free_block l1 b l2).
Proof.
  intros Hok. unfold free_memory. replace (total l1 + sizeof_Block - sizeof_Block) with (total l1) by lia.
  destruct (free_next_ok h l1 b l2 Hok) as (h2 & -> & Hok2). rewrite bind_ret_l.
  unfold free_block. destruct (join_next_cons b.1 l2) as (s & l' & E). rewrite E in *.
  by apply free_prev_ok.
Qed.

Lemma init_ok h : exists h', init_memory h = Ok h' /\ heap_ok h' [(1000, true)].
Proof.
  unfold init_memory. rewrite store_ok by layout. eexists. split; [done|].
  split_and!; [done..|]. simpl. split_and!; [done| |done]. by rewrite lookup_insert_eq.
Qed.
End operations.

(** ** Coalescing *)

Lemma coalesced_app l1 l2 :
  coalesced (l1 ++ l2) <->
  coalesced l1 /\ coalesced l2 /\
  match last l1, list.head l2 with Some b, Some c => b.2 && c.2 = false | _, _ => True end.
Proof.
  induction l1 as [|b l1 IH]; simpl; [tauto|]. rewrite IH. clear IH.
  destruct l1 as [|b' l1]; simpl; [|tauto]. destruct l2; simpl; tauto.
Qed.

Lemma carve_coalesced l1 b l2 sz :
  b.2 = true -> coalesced (l1 ++ b :: l2) -> coalesced (l1 ++ carve b sz ++ l2).
Proof.
  rewrite !coalesced_app. intros Hb (H1 & H2 & H3). simpl in H2, H3. rewrite Hb in H2, H3.
  unfold carve. case_cond; simpl; destruct l2, (last l1); simpl in *;
    rewrite ?andb_false_r; tauto.
Qed.

Lemma join_next_coalesced s l : coalesced l ->
  coalesced (join_next s l) /\ exists s' l', join_next s l = (s', true) :: l'.
Proof.
  intros H. split; [|apply join_next_cons]. destruct l as [|[s' []] l]; simpl in *; try tauto.
Qed.

Lemma free_coalesced l1 b l2 :
  coalesced (l1 ++ b :: l2) -> coalesced (free_block l1 b l2).
Proof.
  rewrite coalesced_app. intros (H1 & [_ H2] & _). unfold free_block.
  destruct (join_next_coalesced b.1 l2 H2) as [Hj (s & l' & E)]. rewrite E in *.
  destruct l1 as [|[sc f] l1 _] using rev_ind; [done|]. unfold join_prev. rewrite last_snoc.
  apply coalesced_app in H1 as (H1 & _ & Hlast). simpl in Hlast. destruct f.
  - rewrite length_app, Nat.add_sub, take_app_length. apply coalesced_app.
    destruct (last l1); simpl in *; tauto.
  - apply coalesced_app. rewrite last_snoc. split_and!; [|done..]. apply coalesced_app.
    destruct (last l1); simpl in *; tauto.
Qed.

(** ** Sequences of operations *)

(** The addresses handed out and not yet freed. *)
Fixpoint used (p : Z) (l : list ablock) : list Z :=
  match l with
  | [] => []
  | b :: l' => (if b.2 then [] else [p + sizeof_Block]) ++ used (p + extent b) l'
  end.

Inductive reachable : heap -> list Z -> Prop :=
| reach_init h0 h : init_memory h0 = Ok h -> reachable h []
| reach_alloc h live n s a h' :
    reachable h live -> allocate_memory h n s = Ok (Some a, h') -> reachable h' (a :: live)
| reach_fail h live n s h' :
    reachable h live -> allocate_memory h n s = Ok (None, h') -> reachable h' live
| reach_free h live1 a live2 h' :
    reachable h (live1 ++ a :: live2) -> free_memory h (Some a) = Ok h' ->
    reachable h' (live1 ++ live2).

Lemma used_app p l1 l2 : used p (l1 ++ l2) = used p l1 ++ used (p + total l1) l2.
Proof.
  revert p. induction l1 as [|b l1 IH]; intros p; simpl; [by rewrite Z.add_0_r|].
  rewrite IH, <- app_assoc. by rewrite <- Z.add_assoc.
Qed.

Lemma used_elem p l a : a ∈ used p l ->
  exists l1 b l2, l = l1 ++ b :: l2 /\ b.2 = false /\ a = p + total l1 + sizeof_Block.
Proof.
  revert p. induction l as [|b l IH]; intros p; simpl; [by intros H%elem_of_nil|].
  intros [H|H]%elem_of_app.
  - destruct b as [s []]; simpl in H; [by apply elem_of_nil in H|].
    apply list_elem_of_singleton in H as ->. exists [], (s, false), l. simpl. split_and!; [done..|lia].
  - destruct (IH _ H) as (l1 & c & l2 & -> & Hc & ->). exists (b :: l1), c, l2.
    split_and!; [done..|]. simpl. lia.
Qed.

Lemma used_carve p b sz : b.2 = true ->
  used p (carve b sz) = [p + sizeof_Block] /\ total (carve b sz) = extent b.
Proof. intros Hb. unfold carve. case_cond; simpl; unfold extent; simpl; (split; [done|lia]). Qed.

Lemma used_join_next p s l :
  used p (join_next s l) = used (p + extent (s, true)) l /\
  total (join_next s l) = extent (s, true) + total l.
Proof.
  destruct l as [|[s' []] l]; simpl; unfold extent; simpl; (split; [|lia]); try done.
  f_equal. lia.
Qed.

Lemma used_free_block l1 b l2 :
  used 0 (free_block l1 b l2) = used 0 l1 ++ used (total l1 + extent b) l2.
Proof.
  unfold free_block. pose proof (used_join_next (total l1) b.1 l2) as [Hu _].
  destruct (join_next_cons b.1 l2) as (s & l' & E). rewrite E in *.
  destruct l1 as [|[sc f] l1 _] using rev_ind; [done|]. unfold join_prev. rewrite last_snoc.
  destruct f; [|rewrite used_app, Z.add_0_l; simpl in *; by rewrite Hu].
  rewrite length_app, Nat.add_sub, take_app_length. rewrite !used_app in *. simpl in *.
  rewrite app_nil_r. f_equal. rewrite total_app in *. simpl in *. unfold extent in *. simpl in *.
  rewrite <- Hu. f_equal. lia.
Qed.

Lemma reachable_ok h live :
  reachable h live -> exists l, heap_ok h l /\ coalesced l /\ live ≡ₚ used 0 l.
Proof.
  induction 1 as [h0 h Hi|h live n s a h' _ (l & Hok & Hc & Hl) Ha
    |h live n s h' _ (l & Hok & Hc & Hl) Ha|h live1 a live2 h' _ (l & Hok & Hc & Hl) Hf].
  - destruct (init_ok h0) as (h' & Hi' & Hok). rewrite Hi in Hi'. injection Hi' as <-.
    exists [(1000, true)]. by split_and!.
  - destruct (allocate_ok h l n s Hok) as (r & h1 & l' & Ha' & Hok' & Hal). rewrite Ha in Ha'.
    injection Ha' as <- <-. destruct Hal as (l1 & b & l2 & -> & Hb & _ & _ & -> & ->).
    exists (l1 ++ carve b (round_size n) ++ l2). split_and!; [done|by apply carve_coalesced|].
    rewrite Hl, !used_app. destruct (used_carve (0 + total l1) b (round_size n) Hb) as [-> ->].
    simpl. rewrite Hb. simpl. by rewrite <- Permutation_middle.
  - destruct (allocate_ok h l n s Hok) as (r & h1 & l' & Ha' & Hok' & Hal). rewrite Ha in Ha'.
    injection Ha' as <- <-. destruct Hal as [-> _]. by exists l.
  - assert (a ∈ used 0 l) as Hin by (rewrite <- Hl; set_solver).
    destruct (used_elem _ _ _ Hin) as (l1 & b & l2 & -> & Hb & ->). rewrite Z.add_0_l in *.
    destruct (free_ok h l1 b l2 Hok) as (h1 & Hf' & Hok'). rewrite Hf in Hf'. injection Hf' as <-.
    exists (free_block l1 b l2). split_and!; [done|by apply free_coalesced|].
    rewrite used_free_block. rewrite used_app in Hl. simpl in Hl. rewrite Hb in Hl. simpl in Hl.
    apply (Permutation_cons_inv (a := total l1 + sizeof_Block)).
    rewrite Permutation_middle, Hl. by rewrite Permutation_middle.
Qed.

#[local] Arguments loop : simpl never.

(** A coalesced list without used blocks is one free block. *)
Lemma nothing_used l :
  l <> [] -> coalesced l -> used 0 l = [] -> exists s, l = [(s, true)].
Proof.
  intros Hne Hc Hu. destruct l as [|[s []] l]; [done| |done]. exists s. f_equal.
  destruct l as [|[s' []] l]; [done| |done]. by destruct Hc.
Qed.

Lemma heap_ok_single h s : heap_ok h [(s, true)] -> s = 1000.
Proof. intros (_ & _ & Hs). apply seg_total in Hs as [Hs _]. layout. Qed.

(** C2.  Every heap that a program can reach by allocating and by freeing what
    it holds is well formed: the blocks tile the pool, no two free blocks are
    neighbours, the used blocks are exactly the pointers held, and the next
    operation does not fault. *)
Theorem mem_alloc_invariant h live :
  reachable h live ->
  (exists l, heap_ok h l /\ coalesced l /\ live ≡ₚ used 0 l) /\
  (forall n s, is_ok (allocate_memory h n s) = true) /\
  (forall a, a ∈ live -> is_ok (free_memory h (Some a)) = true).
Proof.
  intros Hr. destruct (reachable_ok h live Hr) as (l & Hok & Hc & Hl). split; [by exists l|]. split.
  - intros n s. by destruct (allocate_ok h l n s Hok) as (? & ? & ? & -> & _).
  - intros a Ha. rewrite Hl in Ha. destruct (used_elem _ _ _ Ha) as (l1 & b & l2 & -> & _ & ->).
    rewrite Z.add_0_l. by destruct (free_ok h l1 b l2 Hok) as (? & -> & _).
Qed.

(** [allocate_memory] takes the block its strategy prescribes (the first
    that is large enough, the smallest such, or the largest such; the first on
    ties), marks it used, splits off the rest as a free block when it can hold a
    header and more than sixteen bytes, and returns the address after the
    header; it returns NULL only when no free block is large enough.  The size
    is the request rounded up to a multiple of sixteen. *)
Theorem allocate_memory_spec h l requested s :
  heap_ok h l -> 0 <= requested <= UINT64 - MIN_ALLOCATION ->
  requested <= round_size requested < requested + 16 /\
  exists r h' l', allocate_memory h requested s = Ok (r, h') /\ heap_ok h' l' /\
    allocates s (round_size requested) l l' r.
Proof.
  intros Hok Hr. split; [by apply round_size_ok|]. by apply allocate_ok.
Qed.

(** When everything has been freed, in whatever order, the pool is again
    one free block of the initial size. *)
Theorem all_freed_restores_pool h :
  reachable h [] -> print_memory_state h = Ok ([(1000, true)], 1000, 0).
Proof.
  intros Hr. destruct (reachable_ok h [] Hr) as (l & Hok & Hc & Hl).
  apply Permutation_nil_l in Hl. destruct Hok as (Hh & Hne & Hs).
  destruct (nothing_used l Hne Hc) as (s & ->); [done|].
  pose proof (heap_ok_single h s) as Hs1. rewrite Hs1 in * by done.
  unfold print_memory_state. by rewrite (walk_ok h _ [(1000, true)]).
Qed.

(** A request within sixteen bytes of the largest [size_t] wraps to zero
    when it is rounded, and "succeeds" with a block of zero bytes. *)
Lemma huge_request_succeeds h0 h n :
  init_memory h0 = Ok h -> UINT64 - MIN_ALLOCATION < n < UINT64 ->
  exists h', allocate_memory h n FIRST_FIT = Ok (Some sizeof_Block, h') /\
    print_memory_state h' = Ok ([(0, false); (976, true)], 976, 0).
Proof.
  intros Hi Hn. destruct (init_ok h0) as (h1 & Hi' & Hok). rewrite Hi in Hi'. injection Hi' as <-.
  assert (round_size n = 0) as Hz.
  { unfold round_size, MIN_ALLOCATION in *.
    assert (u64 (n + 16 - 1) = n + 15 - UINT64) as ->.
    { unfold u64. replace (n + 16 - 1) with (n + 15 - UINT64 + 1 * UINT64) by lia.
      rewrite Z_mod_plus_full. apply Z.mod_small. unfold UINT64 in *. lia. }
    assert (exists k, n + 15 - UINT64 = k /\ 0 <= k < 15) as (k & -> & Hk) 
      by (exists (n + 15 - UINT64); lia).
    assert (k = 0 \/ k = 1 \/ k = 2 \/ k = 3 \/ k = 4 \/ k = 5 \/ k = 6 \/ k = 7 \/ k = 8 \/ k = 9 \/
      k = 10 \/ k = 11 \/ k = 12 \/ k = 13 \/ k = 14) as Hc by lia.
    by repeat destruct Hc as [->|Hc]; subst. }
  destruct (allocate_ok h [(1000, true)] n FIRST_FIT Hok) as (r & h' & l' & -> & Hok' & Hal).
  rewrite Hz in Hal. destruct r as [a|].
  - destruct Hal as (l1 & b & l2 & E & _ & _ & _ & -> & ->).
    destruct l1 as [|? []]; simplify_eq/=. exists h'. split; [done|].
    unfold print_memory_state. by rewrite (walk_ok h' _ _ _ Hok').
  - destruct Hal as [_ Hno]. specialize (Hno 0 (1000, true) ltac:(done) ltac:(done)). done.
Qed.

Definition empty_heap : heap := mkHeap ∅ None.

(** The last state [main] prints is the first. *)
Lemma memalloc_main_recovers :
  (fun l => (list.head l, last l)) <$> (match memalloc_main empty_heap with Ok l => Some l | Fault _ => None end) =
  Some (Some ([(1000, true)], 1000, 0), Some ([(1000, true)], 1000, 0)).
Proof. vm_compute. reflexivity. Qed.

Definition fresh_heap : heap := mkHeap {[ 0 := mkBlock 1000 true None ]} (Some 0).

(** The heap after an allocation of 100 bytes and one of 50, and the first freed again. *)
Definition used_heap : res (heap * list Z) :=
  '(a, h) ← allocate_memory fresh_heap 100 BEST_FIT;
  '(b, h) ← allocate_memory h 50 BEST_FIT;
  h ← free_memory h a;
  Ok (h, option_list b).

Lemma mem_alloc_invariant_witness : exists h a,
  used_heap = Ok (h, [a]) /\ (exists l, heap_ok h l /\ coalesced l /\ [a] ≡ₚ used 0 l) /\
  (forall n s, is_ok (allocate_memory h n s) = true) /\ is_ok (free_memory h (Some a)) = true.
Proof.
  assert (exists h a, used_heap = Ok (h, [a]) /\ reachable h [a]) as (h & a & E & Hr).
  { assert (reachable fresh_heap []) as R0 by (apply (reach_init empty_heap); vm_compute; reflexivity).
    destruct (allocate_memory fresh_heap 100 BEST_FIT) as [[[a|] h1]|] eqn:E1; [|by vm_compute in E1..].
    destruct (allocate_memory h1 50 BEST_FIT) as [[[b|] h2]|] eqn:E2; [|by vm_compute in E1; injection E1 as <- <-; vm_compute in E2..].
    pose proof (reach_alloc _ _ _ _ _ _ (reach_alloc _ _ _ _ _ _ R0 E1) E2) as R2.
    destruct (free_memory h2 (Some a)) as [h3|] eqn:E3; [|by vm_compute in E1; injection E1 as <- <-; vm_compute in E2; injection E2 as <- <-; vm_compute in E3].
    exists h3, b. split; [|exact (reach_free h2 [b] a [] h3 R2 E3)]. unfold used_heap. by rewrite E1, bind_ret_l, E2, bind_ret_l, E3, bind_ret_l. }
  destruct (mem_alloc_invariant h [a] Hr) as (H1 & H2 & H3). exists h, a. split; [exact E|]. split; [exact H1|]. split; [exact H2|]. apply H3. by left.
Defined.

Lemma allocate_memory_spec_witness :
  100 <= round_size 100 < 100 + 16 /\
  exists r h' l', allocate_memory fresh_heap 100 BEST_FIT = Ok (r, h') /\ heap_ok h' l' /\
    allocates BEST_FIT (round_size 100) [(1000, true)] l' r.
Proof.
  apply (allocate_memory_spec fresh_heap [(1000, true)] 100 BEST_FIT).
  - repeat split; try discriminate; vm_compute; done.
  - split; vm_compute; discriminate.
Defined.

Lemma all_freed_restores_pool_witness :
  print_memory_state fresh_heap = Ok ([(1000, true)], 1000, 0).
Proof.
  apply (all_freed_restores_pool fresh_heap). apply (reach_init empty_heap). vm_compute. reflexivity.
Defined.

Lemma huge_request_succeeds_witness :
  exists h', allocate_memory fresh_heap (UINT64 - 1) FIRST_FIT = Ok (Some sizeof_Block, h') /\
    print_memory_state h' = Ok ([(0, false); (976, true)], 976, 0).
Proof.
  apply (huge_request_succeeds empty_heap fresh_heap (UINT64 - 1)).
  - vm_compute. reflexivity.
  - split; vm_compute; reflexivity.
Defined.
