(* ===== verification/MemoryPool.v ===== *)
(** * A fixed-block pool ([memory/memory_management/memory_pool.c]) and a tracing
    allocator ([memory/allocation/customAlloc.c])

    The pool hands out 256-byte blocks of one megabyte; [base] is the address
    of [pool->memory].  The tracing allocator keeps a table of what [malloc]
    returned; the addresses come from an argument. *)
From Stdlib Require Import ZArith Lia.
From stdpp Require Import base tactics list numbers option sets.
From S2P Require Import Prelude.

#[local] Open Scope Z_scope.
#[local] Open Scope c_scope.

Definition POOL_SIZE : Z := 1024 * 1024.
Definition BLOCK_SIZE : Z := 256.
Definition NUM_BLOCKS : Z := POOL_SIZE / BLOCK_SIZE.

Record MemoryPool : Type := mkPool {
  base : Z;
  used : list bool;
  num_allocations : Z;
  num_frees : Z
}.

(** [malloc] has returned the address [addr]; [garbage] is what [used] held. *)
Definition create_pool (addr : Z) (garbage : list bool) : MemoryPool :=
  mkPool addr (replicate (length garbage) false) 0 0.

Definition alloc_pass (pool : MemoryPool) (i : Z) (st : unit)
    : res (ctl unit (Z * MemoryPool)) :=
  u ← (used pool).[i];
  if negb u then
    used' ← (used pool).[i <- true];
    Ok (Return (base pool + i * BLOCK_SIZE,
                mkPool (base pool) used' (u64 (num_allocations pool + 1)) (num_frees pool)))
  else Ok (Next st).

Definition pool_alloc (pool : MemoryPool) : res (option Z * MemoryPool) :=
  c ← for_ctl (Z.to_nat NUM_BLOCKS) 0 (alloc_pass pool) tt;
  match c with
  | Return (p, pool') => Ok (Some p, pool')
  | Next _ => Ok (None, pool)
  end.

(** Conversion of [ptrdiff_t] to [int] keeps the low 32 bits. *)
Definition to_int (z : Z) : Z := (z + 2147483648) mod UINT32 - 2147483648.

Definition pool_free (pool : MemoryPool) (ptr : option Z) : res MemoryPool :=
  match ptr with
  | None => Ok pool
  | Some p =>
      let offset := p - base pool in
      let block_index := to_int (Z.quot offset BLOCK_SIZE) in
      if (block_index >=? 0) && (block_index <? NUM_BLOCKS) then
        used' ← (used pool).[block_index <- false];
        Ok (mkPool (base pool) used' (num_allocations pool) (u64 (num_frees pool + 1)))
      else Ok pool
  end.

(** The loop over the pool in [compare_performance]. *)
Definition pool_benchmark (n : nat) (pool : MemoryPool) : res MemoryPool :=
  for_range n 0 (fun _ pool => '(ptr, pool') ← pool_alloc pool; pool_free pool' ptr) pool.

Module Debug.

Definition MAX_ALLOCATIONS : Z := 1000.

Record AllocationInfo : Type := mkInfo {
  ptr : Z;
  size : Z;
  file : Z;
  line : Z
}.

Record table : Type := mkTable {
  allocations : list AllocationInfo;
  allocation_count : Z
}.

(** [p] is what [malloc] returned. *)
Definition debug_malloc (t : table) (p : option Z) (sz file line : Z) : res (option Z * table) :=
  match p with
  | Some a =>
      l ← (allocations t).[allocation_count t <- mkInfo a sz file line];
      n ← iadd (allocation_count t) 1;
      Ok (p, mkTable l n)
  | None => Ok (p, t)
  end.

Definition free_pass (t : table) (p : Z) (i : Z) (st : unit) : res (ctl unit table) :=
  e ← (allocations t).[i];
  if ptr e =? p then
    n ← isub (allocation_count t) 1;
    last ← (allocations t).[n];
    l ← (allocations t).[i <- last];
    Ok (Return (mkTable l n))
  else Ok (Next st).

(** The flag is whether the pointer was known and [free] was called. *)
Definition debug_free (t : table) (p : Z) : res (bool * table) :=
  c ← for_ctl (Z.to_nat (allocation_count t)) 0 (free_pass t p) tt;
  match c with
  | Return t' => Ok (true, t')
  | Next _ => Ok (false, t)
  end.

(** [main], given the two addresses [malloc] returns. *)
Definition debug_main (t : table) (a1 a2 : Z) : res (bool * bool * table) :=
  '(_, t) ← debug_malloc t (Some a1) 20 0 47;
  '(f1, t) ← debug_free t a1;
  '(f2, t) ← debug_free t a1;
  '(_, t) ← debug_malloc t (Some a2) 40 0 50;
  Ok (f1, f2, t).

(** The live entries. *)
Definition live (t : table) : list AllocationInfo :=
  take (Z.to_nat (allocation_count t)) (allocations t).

Definition table_ok (t : table) : Prop :=
  len (allocations t) = MAX_ALLOCATIONS /\ 0 <= allocation_count t <= MAX_ALLOCATIONS.

End Debug.

(** ** The pool *)

(** The blocks in use, by index. *)
Definition in_use (pool : MemoryPool) (i : Z) : Prop := zget (used pool) i = Some true.

Definition pool_ok (pool : MemoryPool) : Prop := len (used pool) = NUM_BLOCKS.

Section pool.
#[local] Arguments for_ctl : simpl never.

Lemma alloc_ok pool :
  pool_ok pool ->
  exists r pool', pool_alloc pool = Ok (r, pool') /\ pool_ok pool' /\ base pool' = base pool /\
    match r with
    | Some p => exists i, 0 <= i < NUM_BLOCKS /\ p = base pool + i * BLOCK_SIZE /\
        zget (used pool) i = Some false /\ (forall j, 0 <= j < i -> in_use pool j) /\
        used pool' = zset (used pool) i true
    | None => pool' = pool /\ forall j, 0 <= j < NUM_BLOCKS -> in_use pool j
    end.
Proof.
  intros Hok. unfold pool_alloc.
  destruct (for_ctl_inv (fun i _ => forall j, 0 <= j < i -> in_use pool j)
    (fun r => exists i, 0 <= i < NUM_BLOCKS /\ r.1 = base pool + i * BLOCK_SIZE /\
        zget (used pool) i = Some false /\ (forall j, 0 <= j < i -> in_use pool j) /\
        used r.2 = zset (used pool) i true /\ base r.2 = base pool)
    (Z.to_nat NUM_BLOCKS) 0 (alloc_pass pool) tt) as (c & -> & Hc).
  - intros j Hj. lia.
  - intros i [] Hi Hprev. rewrite Z2Nat.id in Hi by done.
    destruct (zget_range (used pool) i) as [u Hu]; [unfold pool_ok in Hok; lia|].
    unfold alloc_pass. rewrite (arr_read_Ok _ _ _ Hu). simpl. destruct u; simpl.
    + eexists. split; [done|]. intros j Hj. destruct (decide (j = i)) as [->|]; [done|]. apply Hprev. lia.
    + rewrite arr_write_Ok by (unfold pool_ok in Hok; lia). simpl. eexists. split; [done|].
      exists i. split_and!; (done || lia).
  - rewrite bind_ret_l. destruct c as [[]|[p pool']].
    + exists None, pool. split_and!; done.
    + simpl in Hc. destruct Hc as (i & ? & -> & ? & ? & Hu & Hb). do 2 eexists.
      split; [done|]. split_and!; [unfold pool_ok; by rewrite Hu, length_zset|done|]. by exists i.
Qed.

(** Any pointer into block [i] frees block [i]. *)
Lemma free_block_ok pool i k :
  pool_ok pool -> 0 <= i < NUM_BLOCKS -> 0 <= k < BLOCK_SIZE ->
  exists pool', pool_free pool (Some (base pool + i * BLOCK_SIZE + k)) = Ok pool' /\
    pool_ok pool' /\ base pool' = base pool /\ used pool' = zset (used pool) i false.
Proof.
  intros Hok Hi Hk. unfold pool_free.
  assert (Z.quot (base pool + i * BLOCK_SIZE + k - base pool) BLOCK_SIZE = i) as ->.
  { replace (base pool + i * BLOCK_SIZE + k - base pool) with (k + i * BLOCK_SIZE) by lia.
    unfold BLOCK_SIZE in *. rewrite Z.quot_div_nonneg by lia. dlia. }
  assert (to_int i = i) as ->.
  { unfold to_int. change NUM_BLOCKS with 4096 in Hi. rewrite Z.mod_small; unfold UINT32; lia. }
  destruct (Z.geb_spec i 0), (Z.ltb_spec i NUM_BLOCKS); try lia. simpl.
  rewrite arr_write_Ok by (unfold pool_ok in Hok; lia). simpl. eexists. split; [done|].
  split_and!; [unfold pool_ok; simpl; by rewrite length_zset|done..].
Qed.
End pool.

(** Allocations and frees of pointers held, in any order. *)
Inductive pool_reachable (b : Z) : MemoryPool -> list Z -> Prop :=
| pool_init g : len g = NUM_BLOCKS -> pool_reachable b (create_pool b g) []
| pool_take pool held p pool' :
    pool_reachable b pool held -> pool_alloc pool = Ok (Some p, pool') ->
    pool_reachable b pool' (p :: held)
| pool_give pool l1 p l2 pool' :
    pool_reachable b pool (l1 ++ p :: l2) -> pool_free pool (Some p) = Ok pool' ->
    pool_reachable b pool' (l1 ++ l2).

(** The pointers held are exactly the blocks in use, each once. *)
Definition held_ok (pool : MemoryPool) (held : list Z) : Prop :=
  NoDup held /\
  (forall p, p ∈ held <-> exists i, in_use pool i /\ p = base pool + i * BLOCK_SIZE).

Lemma pool_reachable_ok b pool held :
  pool_reachable b pool held -> pool_ok pool /\ held_ok pool held.
Proof.
  induction 1 as [g Hg|pool held p pool' _ [Hok [Hnd Hin]] Ha|pool l1 p l2 pool' _ [Hok [Hnd Hin]] Hf].
  - split; [unfold pool_ok; simpl; by rewrite length_replicate|]. split; [constructor|].
    intros p. split; [by intros H%elem_of_nil|]. intros (i & Hi & _). unfold in_use, create_pool in Hi.
    simpl in Hi. unfold zget in Hi. destruct (0 <=? i); [|done].
    apply lookup_replicate in Hi as [Hi _]. done.
  - destruct (alloc_ok pool Hok) as (r & pool1 & Ha' & Hok' & Hb & Hr). rewrite Ha in Ha'.
    injection Ha' as <- <-. destruct Hr as (i & Hi & -> & Hfree & _ & Hu).
    pose proof (zget_Some_range _ _ _ Hfree). split; [done|]. split.
    + constructor; [|done]. rewrite Hin. intros (j & Hj & E). unfold in_use, BLOCK_SIZE in *.
      assert (j = i) as -> by lia. congruence.
    + intros q. rewrite elem_of_cons, Hin. unfold in_use. rewrite Hu, Hb. split.
      * intros [->|(j & Hj & ->)]; [exists i; by rewrite zget_zset_eq|].
        exists j. rewrite zget_zset_ne by (intros ->; congruence). done.
      * intros (j & Hj & ->). destruct (decide (j = i)) as [->|Hne]; [by left|].
        right. exists j. by rewrite zget_zset_ne in Hj.
  - assert (p ∈ l1 ++ p :: l2) as Hp by set_solver. apply Hin in Hp as (i & Hi & ->).
    pose proof (zget_Some_range _ _ _ Hi) as Hr.
    destruct (free_block_ok pool i 0) as (pool1 & Hf' & Hok' & Hb & Hu);
      [done|unfold pool_ok in Hok; lia|unfold BLOCK_SIZE; lia|].
    rewrite Z.add_0_r in Hf'. rewrite Hf in Hf'. injection Hf' as <-. split; [done|].
    rewrite <- Permutation_middle, NoDup_cons in Hnd. destruct Hnd as [Hni Hnd]. split; [done|].
    intros q. unfold in_use. rewrite Hu, Hb. split.
    + intros Hq. assert (q ∈ l1 ++ (base pool + i * BLOCK_SIZE) :: l2) as Hq' by set_solver.
      apply Hin in Hq' as (j & Hj & ->). exists j. split; [|done].
      rewrite zget_zset_ne; [done|]. intros ->. done.
    + intros (j & Hj & ->). destruct (decide (j = i)) as [->|Hne].
      * by rewrite zget_zset_eq in Hj.
      * rewrite zget_zset_ne in Hj by done.
        assert (base pool + j * BLOCK_SIZE ∈ l1 ++ (base pool + i * BLOCK_SIZE) :: l2) as Hq
          by (apply Hin; eauto).
        unfold BLOCK_SIZE in *. apply elem_of_app in Hq as [Hq|Hq]; [set_solver|].
        apply elem_of_cons in Hq as [Hq|Hq]; [lia|set_solver].
Qed.

(** Whatever the order of allocations and of frees of held pointers, the
    blocks in use are exactly the pointers held, each handed out once; an
    allocation fails only when all 4096 blocks are in use. *)
Theorem pool_blocks_exclusive b pool held :
  pool_reachable b pool held ->
  held_ok pool held /\
  exists r pool', pool_alloc pool = Ok (r, pool') /\
    match r with
    | Some p => p ∉ held
    | None => forall i, 0 <= i < NUM_BLOCKS -> in_use pool i
    end.
Proof.
  intros Hr. destruct (pool_reachable_ok b pool held Hr) as [Hok Hh]. split; [done|].
  destruct (alloc_ok pool Hok) as (r & pool' & Ha & _ & _ & Hres). exists r, pool'. split; [done|].
  destruct r as [p|]; [|by destruct Hres]. destruct Hres as (i & Hi & -> & Hfree & _).
  destruct Hh as [_ Hin]. rewrite Hin. intros (j & Hj & E). unfold in_use, BLOCK_SIZE in *.
  assert (j = i) as -> by lia. congruence.
Qed.

(** A pointer just below the pool is taken for block 0: the division truncates
    towards zero.  So is one 2^40 bytes above it, through the conversion to
    [int]. *)
Lemma stray_pointer_frees_block_0 :
  let pool := mkPool 4096 (replicate 4096 true) 4096 0 in
  (fun p => zget (used p) 0) <$>
    match pool_free pool (Some 4095) with Ok p => Some p | Fault _ => None end = Some (Some false) /\
  (fun p => zget (used p) 0) <$>
    match pool_free pool (Some (4096 + 2 ^ 40)) with Ok p => Some p | Fault _ => None end = Some (Some false).
Proof. vm_compute. done. Qed.

Lemma pool_blocks_exclusive_witness :
  held_ok (create_pool 4096 (replicate 4096 true)) [] /\
  exists r pool', pool_alloc (create_pool 4096 (replicate 4096 true)) = Ok (r, pool') /\
    match r with
    | Some p => p ∉ []
    | None => forall i, 0 <= i < NUM_BLOCKS -> in_use (create_pool 4096 (replicate 4096 true)) i
    end.
Proof.
  apply (pool_blocks_exclusive 4096 (create_pool 4096 (replicate 4096 true)) []).
  apply pool_init. vm_compute. reflexivity.
Defined.

(** ** The tracing allocator *)

Module DebugProofs.
Import Debug.

#[local] Arguments for_ctl : simpl never.

Lemma malloc_ok t a sz file line :
  table_ok t -> allocation_count t < MAX_ALLOCATIONS ->
  exists t', debug_malloc t (Some a) sz file line = Ok (Some a, t') /\ table_ok t' /\
    live t' = live t ++ [mkInfo a sz file line].
Proof.
  intros [Hl Hc] Hroom. unfold debug_malloc, MAX_ALLOCATIONS in *.
  rewrite arr_write_Ok by lia. simpl. rewrite iadd_Ok by int_side. simpl.
  eexists. split; [done|]. split; [split; simpl; rewrite ?length_zset; unfold MAX_ALLOCATIONS; lia|].
  unfold live. simpl.
  rewrite (take_S_zget _ _ (mkInfo a sz file line)) by (apply zget_zset_eq; lia).
  f_equal. rewrite take_zset. unfold zset. case_cond; [|lia].
  apply list_insert_ge. rewrite length_take. lia.
Qed.

(** Moving the last of the first [n] entries over entry [i] removes entry [i]. *)
Lemma swap_remove {A} (l : list A) (n i : Z) x y :
  0 <= i < n -> n <= len l -> zget l i = Some x -> zget l (n - 1) = Some y ->
  x :: take (Z.to_nat (n - 1)) (zset l i y) ≡ₚ take (Z.to_nat n) l.
Proof.
  intros Hi Hn Hx Hy. pose proof (take_S_zget _ _ _ Hy) as Htk.
  replace (n - 1 + 1) with n in Htk by lia. rewrite Htk, take_zset.
  destruct (decide (i = n - 1)) as [->|Hne].
  - rewrite Hx in Hy. injection Hy as <-. unfold zset. case_cond; [|lia].
    rewrite list_insert_ge by (rewrite length_take; lia). apply Permutation_cons_append.
  - assert (zget (take (Z.to_nat (n - 1)) l) i = Some x) as Hxt by (apply zget_take; auto with lia).
    unfold zset, zget in *. destruct (0 <=? i); [|done].
    destruct (list_elem_of_split_length _ _ _ Hxt) as (l1 & l2 & -> & ->).
    rewrite insert_app_r_alt, Nat.sub_diag by lia. simpl.
    rewrite <- app_assoc. simpl. rewrite <- (Permutation_middle l1 (l2 ++ [y]) x). constructor.
    apply Permutation_app_head, Permutation_cons_append.
Qed.

Lemma debug_free_ok t p :
  table_ok t ->
  exists r t', debug_free t p = Ok (r, t') /\ table_ok t' /\
    if r then exists e, ptr e = p /\ e :: live t' ≡ₚ live t
    else t' = t /\ Forall (fun e => ptr e <> p) (live t).
Proof.
  intros [Hl Hc]. unfold debug_free.
  destruct (for_ctl_inv (fun i _ => forall j e, j < i -> zget (allocations t) j = Some e -> ptr e <> p)
    (fun t' => table_ok t' /\ exists e, ptr e = p /\ e :: live t' ≡ₚ live t)
    (Z.to_nat (allocation_count t)) 0 (free_pass t p) tt) as (c & -> & Hr).
  - intros j e Hj H%zget_Some_range. lia.
  - intros i [] Hi Hprev. rewrite Z2Nat.id in Hi by lia.
    destruct (zget_range (allocations t) i) as [e He]; [lia|].
    unfold free_pass. rewrite (arr_read_Ok _ _ _ He). simpl.
    destruct (Z.eqb_spec (ptr e) p) as [Hp|Hp].
    + unfold MAX_ALLOCATIONS in *. rewrite isub_Ok by int_side. simpl.
      destruct (zget_range (allocations t) (allocation_count t - 1)) as [y Hy]; [lia|].
      rewrite (arr_read_Ok _ _ _ Hy). simpl. rewrite arr_write_Ok by lia. simpl.
      eexists. split; [done|]. split.
      * split; simpl; rewrite ?length_zset; unfold MAX_ALLOCATIONS; lia.
      * exists e. split; [done|]. unfold live. simpl. by apply swap_remove; try lia.
    + eexists. split; [done|]. intros j e' Hj He'.
      destruct (decide (j = i)) as [->|]; [congruence|]. apply (Hprev j); (done || lia).
  - rewrite bind_ret_l. destruct c as [[]|t']; [|destruct Hr as [? ?]; by exists true, t'].
    exists false, t. split_and!; [done..|]. apply list.Forall_forall.
    intros e [j Hj]%elem_of_zget. apply zget_take in Hj as [Hj Hlt].
    apply (Hr j); [lia|done].
Qed.

(** The table is exactly the set of live allocations: [debug_malloc]
    appends one entry, [debug_free] removes one entry of the pointer, and
    reports a pointer that is not live (such as one freed twice) without
    touching the table. *)
Theorem debug_table_tracks t a sz file line :
  table_ok t -> allocation_count t < MAX_ALLOCATIONS -> Forall (fun e => ptr e <> a) (live t) ->
  exists t1 t2, debug_malloc t (Some a) sz file line = Ok (Some a, t1) /\
    live t1 = live t ++ [mkInfo a sz file line] /\
    debug_free t1 a = Ok (true, t2) /\ live t2 ≡ₚ live t /\
    debug_free t2 a = Ok (false, t2).
Proof.
  intros Hok Hroom Hnew. destruct (malloc_ok t a sz file line Hok Hroom) as (t1 & -> & Hok1 & Hl1).
  destruct (debug_free_ok t1 a Hok1) as (r & t2 & Hf & Hok2 & Hr). destruct r; cycle 1.
  { destruct Hr as [_ Hno]. rewrite Hl1, Forall_app in Hno. destruct Hno as [_ Hno].
    by inversion Hno. }
  destruct Hr as (e & He & Hp). rewrite Hl1 in Hp.
  assert (live t2 ≡ₚ live t) as Hl2.
  { rewrite <- Permutation_cons_append in Hp.
    assert (e = mkInfo a sz file line) as ->.
    { assert (e ∈ mkInfo a sz file line :: live t) as Hin by (rewrite <- Hp; set_solver).
      apply elem_of_cons in Hin as [?|Hin]; [done|].
      by apply (list.Forall_forall _ (live t)) with (x := e) in Hnew. }
    by apply Permutation_cons_inv in Hp. }
  exists t1, t2. split_and!; [done..|].
  destruct (debug_free_ok t2 a Hok2) as (r & t3 & -> & _ & Hr). destruct r; [|by destruct Hr as [-> _]].
  destruct Hr as (e' & He' & Hp'). assert (e' ∈ live t) as Hin by (rewrite <- Hl2, <- Hp'; set_solver).
  by apply (list.Forall_forall _ (live t)) with (x := e') in Hnew.
Qed.

(** The thousand-and-first live allocation writes past the table. *)
Lemma table_overflow l a sz file line :
  len l = MAX_ALLOCATIONS ->
  debug_malloc (mkTable l MAX_ALLOCATIONS) (Some a) sz file line = Fault OutOfBounds.
Proof.
  intros Hl. unfold debug_malloc. simpl. by rewrite arr_write_oob by (rewrite Hl; lia).
Qed.

Definition empty_table : table := mkTable (replicate 1000 (mkInfo 0 0 0 0)) 0.

Lemma debug_table_tracks_witness :
  exists t1 t2, debug_malloc empty_table (Some 64) 20 0 47 = Ok (Some 64, t1) /\
    live t1 = live empty_table ++ [mkInfo 64 20 0 47] /\
    debug_free t1 64 = Ok (true, t2) /\ live t2 ≡ₚ live empty_table /\
    debug_free t2 64 = Ok (false, t2).
Proof.
  apply (debug_table_tracks empty_table 64 20 0 47).
  - split; vm_compute; [reflexivity|split; discriminate].
  - vm_compute. reflexivity.
  - constructor.
Defined.
End DebugProofs.
