(* ===== verification/BufferManager.v ===== *)
(** * A database buffer manager ([os/filesystem/CustomBufferManagementSystem.c])

    Frames, a page table with linear probing, a free list and clock
    replacement.  The time of day is an argument; disk traffic is a log. *)
From Stdlib Require Import ZArith Lia.
From stdpp Require Import base tactics list numbers option strings pretty.
From S2P Require Import Prelude.

#[local] Open Scope Z_scope.
#[local] Open Scope c_scope.

Definition BUFFER_POOL_SIZE : Z := 1024.
Definition PAGE_TABLE_SIZE : Z := 2048.

Record Page : Type := mkPage {
  data : string;
  page_id : Z;
  is_dirty : bool;
  pin_count : Z;
  last_used : Z
}.

Record PageTableEntry : Type := mkEntry {
  e_page : Z;
  e_frame : Z
}.

Inductive disk_event : Type := DiskRead (page : Z) | DiskWrite (page : Z).

Record manager : Type := mkManager {
  buffer_pool : list Page;
  page_table : list PageTableEntry;
  free_list : list Z;
  clock_hand : Z;
  reference_bits : list bool;
  disk : list disk_event
}.

Definition set_pool p s := mkManager p (page_table s) (free_list s) (clock_hand s) (reference_bits s) (disk s).
Definition set_table t s := mkManager (buffer_pool s) t (free_list s) (clock_hand s) (reference_bits s) (disk s).
Definition set_free f s := mkManager (buffer_pool s) (page_table s) f (clock_hand s) (reference_bits s) (disk s).
Definition set_clock c s := mkManager (buffer_pool s) (page_table s) (free_list s) c (reference_bits s) (disk s).
Definition set_bits r s := mkManager (buffer_pool s) (page_table s) (free_list s) (clock_hand s) r (disk s).
Definition set_disk d s := mkManager (buffer_pool s) (page_table s) (free_list s) (clock_hand s) (reference_bits s) d.

Definition init_frame (i : Z) (s : manager) : res manager :=
  p ← (buffer_pool s).[i];
  pool ← (buffer_pool s).[i <- mkPage (data p) (-1) false 0 (last_used p)];
  bits ← (reference_bits s).[i <- false];
  Ok (set_bits bits (set_free (i :: free_list s) (set_pool pool s))).

Definition init_buffer_pool (s : manager) : res manager :=
  s1 ← for_range (Z.to_nat BUFFER_POOL_SIZE) 0 init_frame s;
  t ← for_range (Z.to_nat PAGE_TABLE_SIZE) 0
        (fun i t => t.[i <- mkEntry (-1) (-1)]) (page_table s1);
  Ok (set_table t s1).

Definition hash_function (page : Z) : res Z := imod page PAGE_TABLE_SIZE.

Definition next_slot (hash : Z) : res Z := h ← iadd hash 1; imod h PAGE_TABLE_SIZE.

(** The probing loops visit each slot at most once when the table has an empty
    slot; the fuel is the size of the table. *)
Definition PROBE_FUEL : nat := Z.to_nat (PAGE_TABLE_SIZE + 1).

Definition lookup_pass (t : list PageTableEntry) (page : Z) (hash : Z) : res (ctl Z Z) :=
  e ← t.[hash];
  if negb (e_page e =? -1) then
    if e_page e =? page then Ok (Return (e_frame e))
    else h ← next_slot hash; Ok (Next h)
  else Ok (Return (-1)).

Definition lookup_page (s : manager) (page : Z) : res Z :=
  hash ← hash_function page; loop PROBE_FUEL (lookup_pass (page_table s) page) hash.

Definition insert_pass (t : list PageTableEntry) (hash : Z) : res (ctl Z Z) :=
  e ← t.[hash];
  if negb (e_page e =? -1) then h ← next_slot hash; Ok (Next h) else Ok (Return hash).

Definition insert_into_page_table (s : manager) (page frame : Z) : res manager :=
  hash ← hash_function page;
  h ← loop PROBE_FUEL (insert_pass (page_table s)) hash;
  t ← (page_table s).[h <- mkEntry page frame];
  Ok (set_table t s).

Definition remove_pass (t : list PageTableEntry) (page : Z) (hash : Z) : res (ctl Z Z) :=
  e ← t.[hash];
  if negb (e_page e =? page) then h ← next_slot hash; Ok (Next h) else Ok (Return hash).

Definition remove_from_page_table (s : manager) (page : Z) : res manager :=
  hash ← hash_function page;
  h ← loop PROBE_FUEL (remove_pass (page_table s) page) hash;
  t ← (page_table s).[h <- mkEntry (-1) (-1)];
  Ok (set_table t s).

(** One step of the clock: the hand and the bits. *)
Definition clock_pass (pool : list Page) (st : Z * list bool)
    : res (ctl (Z * list bool) (Z * (Z * list bool))) :=
  let '(hand, bits) := st in
  p ← pool.[hand];
  h ← iadd hand 1;
  next ← imod h BUFFER_POOL_SIZE;
  if pin_count p =? 0 then
    r ← bits.[hand];
    if r : bool then bits' ← bits.[hand <- false]; Ok (Next (next, bits'))
    else Ok (Return (hand, (next, bits)))
  else Ok (Next (next, bits)).

Definition find_victim_page (fuel : nat) (s : manager) : res (Z * manager) :=
  '(victim, (hand, bits)) ← loop fuel (clock_pass (buffer_pool s)) (clock_hand s, reference_bits s);
  Ok (victim, set_clock hand (set_bits bits s)).

(** The hand passes a frame at most twice. *)
Definition CLOCK_FUEL : nat := Z.to_nat (2 * BUFFER_POOL_SIZE).

(** The text [read_page_from_disk] leaves in the buffer. *)
Definition page_text (page : Z) : string := ("Data for page " +:+ pretty page)%string.

(** The frame for a page that is not resident. *)
Definition take_frame (s : manager) : res (Z * manager) :=
  match free_list s with
  | f :: l => Ok (f, set_free l s)
  | [] =>
      '(f, s1) ← find_victim_page CLOCK_FUEL s;
      p ← (buffer_pool s1).[f];
      let s2 := if is_dirty p then set_disk (disk s1 ++ [DiskWrite (page_id p)]) s1 else s1 in
      s3 ← remove_from_page_table s2 (page_id p);
      Ok (f, s3)
  end.

(** Returns the frame whose page the code returns a pointer to. *)
Definition fetch_page (now : Z) (s : manager) (page : Z) : res (Z * manager) :=
  frame ← lookup_page s page;
  if negb (frame =? -1) then
    p ← (buffer_pool s).[frame];
    n ← iadd (pin_count p) 1;
    pool ← (buffer_pool s).[frame <- mkPage (data p) (page_id p) (is_dirty p) n now];
    bits ← (reference_bits s).[frame <- true];
    Ok (frame, set_bits bits (set_pool pool s))
  else
    '(f, s1) ← take_frame s;
    pool ← (buffer_pool s1).[f <- mkPage (page_text page) page false 1 now];
    bits ← (reference_bits s1).[f <- true];
    let s2 := set_disk (disk s1 ++ [DiskRead page]) (set_bits bits (set_pool pool s1)) in
    s3 ← insert_into_page_table s2 page f;
    Ok (f, s3).

Definition unpin_page (s : manager) (page : Z) : res manager :=
  frame ← lookup_page s page;
  if negb (frame =? -1) then
    p ← (buffer_pool s).[frame];
    if pin_count p >? 0 then
      n ← isub (pin_count p) 1;
      pool ← (buffer_pool s).[frame <- mkPage (data p) (page_id p) (is_dirty p) n (last_used p)];
      Ok (set_pool pool s)
    else Ok s
  else Ok s.

Definition mark_page_dirty (s : manager) (page : Z) : res manager :=
  frame ← lookup_page s page;
  if negb (frame =? -1) then
    p ← (buffer_pool s).[frame];
    pool ← (buffer_pool s).[frame <- mkPage (data p) (page_id p) true (pin_count p) (last_used p)];
    Ok (set_pool pool s)
  else Ok s.

Definition flush_pass (i : Z) (s : manager) : res manager :=
  p ← (buffer_pool s).[i];
  if is_dirty p then
    pool ← (buffer_pool s).[i <- mkPage (data p) (page_id p) false (pin_count p) (last_used p)];
    Ok (set_disk (disk s ++ [DiskWrite (page_id p)]) (set_pool pool s))
  else Ok s.

Definition flush_dirty_pages (s : manager) : res manager :=
  for_range (Z.to_nat BUFFER_POOL_SIZE) 0 flush_pass s.

(** The three counters printed. *)
Definition stats_pass (s : manager) (i : Z) (st : Z * Z * Z) : res (Z * Z * Z) :=
  let '(used_frames, dirty_pages, pinned_pages) := st in
  p ← (buffer_pool s).[i];
  if negb (page_id p =? -1) then
    u ← iadd used_frames 1;
    d ← (if is_dirty p then iadd dirty_pages 1 else Ok dirty_pages);
    n ← (if pin_count p >? 0 then iadd pinned_pages 1 else Ok pinned_pages);
    Ok (u, d, n)
  else Ok st.

Definition print_buffer_pool_stats (s : manager) : res (Z * Z * Z) :=
  for_range (Z.to_nat BUFFER_POOL_SIZE) 0 (stats_pass s) (0, 0, 0).

(** The lines printed: slot, page and frame. *)
Definition print_page_table (s : manager) : res (list (Z * Z * Z)) :=
  for_range (Z.to_nat PAGE_TABLE_SIZE) 0
    (fun i lines =>
       e ← (page_table s).[i];
       Ok (if negb (e_page e =? -1) then lines ++ [(i, e_page e, e_frame e)] else lines)) [].

Definition main_pass (now : Z -> Z) (i : Z) (s : manager) : res manager :=
  '(_, s1) ← fetch_page (now i) s i;
  m3 ← imod i 3;
  s2 ← (if m3 =? 0 then mark_page_dirty s1 i else Ok s1);
  m5 ← imod i 5;
  if negb (m5 =? 0) then unpin_page s2 i else Ok s2.

Definition buffer_main (now : Z -> Z) (s0 : manager) : res (Z * Z * Z * list (Z * Z * Z) * manager) :=
  s ← init_buffer_pool s0;
  s1 ← for_range (Z.to_nat (BUFFER_POOL_SIZE + 10)) 0 (main_pass now) s;
  st ← print_buffer_pool_stats s1;
  tb ← print_page_table s1;
  s2 ← flush_dirty_pages s1;
  Ok (st, tb, s2).

Definition blank : manager :=
  mkManager (replicate 1024 (mkPage EmptyString 0 false 0 0)) (replicate 2048 (mkEntry 0 0)) [] 0
    (replicate 1024 false) [].

(** ** Clock replacement *)

Section clock.
#[local] Arguments loop : simpl never.

Definition pinned (pool : list Page) (i : Z) : Prop :=
  exists p, zget pool i = Some p /\ pin_count p <> 0.

Definition unpinned (pool : list Page) (i : Z) : Prop :=
  exists p, zget pool i = Some p /\ pin_count p = 0.

(** Steps until the hand has certainly stopped at the unpinned frame [u]. *)
Definition clock_measure (u : Z) (st : Z * list bool) : nat :=
  Z.to_nat ((u - st.1) mod BUFFER_POOL_SIZE +
            match zget st.2 u with Some true => BUFFER_POOL_SIZE | _ => 0 end).

Lemma clock_step pool u hand bits :
  len pool = BUFFER_POOL_SIZE -> len bits = BUFFER_POOL_SIZE -> unpinned pool u ->
  0 <= hand < BUFFER_POOL_SIZE ->
  exists c, clock_pass pool (hand, bits) = Ok c /\
    match c with
    | Next (hand', bits') =>
        (0 <= hand' < BUFFER_POOL_SIZE /\ len bits' = BUFFER_POOL_SIZE) /\
        (clock_measure u (hand', bits') < clock_measure u (hand, bits))%nat
    | Return (v, (hand', bits')) =>
        unpinned pool v /\ 0 <= hand' < BUFFER_POOL_SIZE /\ len bits' = BUFFER_POOL_SIZE
    end.
Proof.
  intros Hp Hb (pu & Hu & Hpin) Hh. unfold clock_pass.
  destruct (zget_range pool hand) as [p Hgp]; [lia|]. rewrite (arr_read_Ok _ _ _ Hgp), bind_ret_l.
  unfold BUFFER_POOL_SIZE in *. rewrite iadd_Ok by int_side. rewrite bind_ret_l.
  rewrite imod_Ok by int_side. rewrite bind_ret_l.
  assert (0 <= (hand + 1) mod 1024 < 1024) as Hn by (apply Z.mod_pos_bound; lia).
  destruct (zget_range bits hand) as [r Hr]; [lia|]. pose proof (zget_Some_range _ _ _ Hu) as Hur.
  assert (hand <> u -> (u - (hand + 1) mod 1024) mod 1024 < (u - hand) mod 1024) as Hdec.
  { intros Hne. dlia. }
  unfold clock_measure, BUFFER_POOL_SIZE. simpl.
  pose proof (Z.mod_pos_bound (u - hand) 1024 ltac:(lia)).
  pose proof (Z.mod_pos_bound (u - (hand + 1) mod 1024) 1024 ltac:(lia)).
  destruct (Z.eqb_spec (pin_count p) 0) as [Hz|Hz].
  - rewrite (arr_read_Ok _ _ _ Hr), bind_ret_l. destruct r.
    + rewrite arr_write_Ok by lia. simpl. eexists. split; [done|]. simpl.
      rewrite length_zset. split; [done|]. destruct (decide (hand = u)) as [->|Hne].
      * rewrite zget_zset_eq by lia. rewrite Hr. dlia.
      * rewrite zget_zset_ne by done. specialize (Hdec Hne).
        destruct (zget bits u) as [[]|]; lia.
    + eexists. split; [done|]. split; [by exists p|done].
  - eexists. split; [done|]. simpl. split; [done|].
    assert (hand <> u) as Hne by (intros ->; congruence). specialize (Hdec Hne).
    destruct (zget bits u) as [[]|]; lia.
Qed.

Lemma find_victim_ok s u :
  len (buffer_pool s) = BUFFER_POOL_SIZE -> len (reference_bits s) = BUFFER_POOL_SIZE ->
  0 <= clock_hand s < BUFFER_POOL_SIZE -> unpinned (buffer_pool s) u ->
  exists v s', find_victim_page CLOCK_FUEL s = Ok (v, s') /\ unpinned (buffer_pool s) v /\
    0 <= clock_hand s' < BUFFER_POOL_SIZE /\ len (reference_bits s') = BUFFER_POOL_SIZE /\
    s' = set_clock (clock_hand s') (set_bits (reference_bits s') s).
Proof.
  intros Hp Hb Hh Hu. unfold find_victim_page.
  destruct (loop_total
    (fun st => 0 <= st.1 < BUFFER_POOL_SIZE /\ len st.2 = BUFFER_POOL_SIZE)
    (fun r => unpinned (buffer_pool s) r.1 /\ 0 <= r.2.1 < BUFFER_POOL_SIZE /\ len r.2.2 = BUFFER_POOL_SIZE)
    (clock_measure u) (clock_pass (buffer_pool s)))
    with (fuel := CLOCK_FUEL) (s := (clock_hand s, reference_bits s)) as ([v [hand bits]] & -> & Hr).
  - intros [hand bits] [Hh' Hb']. destruct (clock_step (buffer_pool s) u hand bits) as (c & -> & Hc);
      try done. exists c. split; [done|]. by destruct c as [[]|[? []]].
  - done.
  - unfold clock_measure, CLOCK_FUEL, BUFFER_POOL_SIZE in *. simpl.
    pose proof (Z.mod_pos_bound (u - clock_hand s) 1024 ltac:(lia)).
    destruct (zget (reference_bits s) u) as [[]|]; lia.
  - simpl in *. destruct Hr as (? & ? & ?). do 2 eexists. split; [done|].
    split_and!; try done; simpl; lia.
Qed.

(** With every frame pinned the clock turns for ever. *)
Lemma find_victim_diverges s fuel :
  len (buffer_pool s) = BUFFER_POOL_SIZE -> 0 <= clock_hand s < BUFFER_POOL_SIZE ->
  (forall i p, zget (buffer_pool s) i = Some p -> pin_count p <> 0) ->
  find_victim_page fuel s = Fault OutOfFuel.
Proof.
  intros Hp Hh Hall. unfold find_victim_page.
  rewrite (loop_diverges (fun st => 0 <= st.1 < BUFFER_POOL_SIZE)); [done| |done].
  intros [hand bits] Hh'. simpl in Hh'. unfold clock_pass.
  destruct (zget_range (buffer_pool s) hand) as [p Hgp]; [lia|].
  rewrite (arr_read_Ok _ _ _ Hgp), bind_ret_l. unfold BUFFER_POOL_SIZE in *.
  rewrite iadd_Ok by int_side. rewrite bind_ret_l. rewrite imod_Ok by int_side. rewrite bind_ret_l.
  destruct (Z.eqb_spec (pin_count p) 0) as [Hz|_]; [by apply Hall in Hgp|].
  eexists. split; [done|]. simpl. apply Z.mod_pos_bound. lia.
Qed.
End clock.

(** ** The invariant for page numbers below the table size

    Such a page hashes to its own slot.  [x] is a frame that is being replaced,
    about which nothing is known. *)
Definition resident (s : manager) (page frame : Z) : Prop :=
  zget (page_table s) page = Some (mkEntry page frame).

Definition frame_ok (s : manager) (f : Z) (p : Page) : Prop :=
  0 <= pin_count p /\
  ((page_id p = -1 /\ f ∈ free_list s) \/
   (0 <= page_id p < PAGE_TABLE_SIZE /\ resident s (page_id p) f /\
    data p = page_text (page_id p) /\ f ∉ free_list s)).

Record pool_inv (x : option Z) (s : manager) : Prop := {
  pi_pool : len (buffer_pool s) = BUFFER_POOL_SIZE;
  pi_table : len (page_table s) = PAGE_TABLE_SIZE;
  pi_bits : len (reference_bits s) = BUFFER_POOL_SIZE;
  pi_clock : 0 <= clock_hand s < BUFFER_POOL_SIZE;
  pi_slots : forall h e, zget (page_table s) h = Some e ->
    e = mkEntry (-1) (-1) \/
    (e_page e = h /\ Some (e_frame e) <> x /\
     exists p, zget (buffer_pool s) (e_frame e) = Some p /\ page_id p = h);
  pi_frames : forall f p, zget (buffer_pool s) f = Some p -> Some f <> x -> frame_ok s f p;
  pi_free : NoDup (free_list s) /\
    forall f, f ∈ free_list s -> 0 <= f < BUFFER_POOL_SIZE /\ Some f <> x
}.

Section invariant.
#[local] Arguments loop : simpl never.

Lemma hash_ok page : 0 <= page < PAGE_TABLE_SIZE -> hash_function page = Ok page.
Proof.
  unfold hash_function, PAGE_TABLE_SIZE. intros H. rewrite imod_Ok by int_side.
  by rewrite Z.mod_small.
Qed.

Lemma lookup_ok x s page :
  pool_inv x s -> 0 <= page < PAGE_TABLE_SIZE ->
  (lookup_page s page = Ok (-1) /\ zget (page_table s) page = Some (mkEntry (-1) (-1))) \/
  (exists f, lookup_page s page = Ok f /\ resident s page f /\ 0 <= f).
Proof.
  intros [Hp Ht Hb Hc Hs Hf Hfr] Hpage. unfold lookup_page. rewrite hash_ok by done. rewrite bind_ret_l.
  destruct (zget_range (page_table s) page) as [e He]; [lia|].
  change PROBE_FUEL with (S (Z.to_nat PAGE_TABLE_SIZE)). rewrite loop_S.
  assert (lookup_pass (page_table s) page page = if negb (e_page e =? -1) then
    if e_page e =? page then Ok (Return (e_frame e)) else h ← next_slot page; Ok (Next h)
    else Ok (Return (-1))) as ->.
  { unfold lookup_pass. by rewrite (arr_read_Ok _ _ _ He). }
  destruct (Hs _ _ He) as [->|(He1 & He2 & p & Hgp & Hid)]; simpl; [by left|].
  rewrite He1. destruct (Z.eqb_spec page (-1)); [lia|]. simpl. rewrite Z.eqb_refl. simpl.
  right. exists (e_frame e). pose proof (zget_Some_range _ _ _ Hgp). split_and!; [done| |lia].
  unfold resident. rewrite He. f_equal. destruct e; simpl in *. by subst.
Qed.

Lemma resident_frame s page f :
  pool_inv None s -> resident s page f -> 0 <= page ->
  exists p, zget (buffer_pool s) f = Some p /\ page_id p = page.
Proof.
  intros Hinv Hr Hpage. destruct (pi_slots _ _ Hinv _ _ Hr) as [E|(_ & _ & Hp)]; [|exact Hp].
  injection E. lia.
Qed.

(** Changing a frame without touching its page number or text. *)
Lemma inv_update_frame s f p q bits :
  pool_inv None s -> zget (buffer_pool s) f = Some p ->
  page_id q = page_id p -> data q = data p -> 0 <= pin_count q ->
  len bits = BUFFER_POOL_SIZE ->
  pool_inv None (set_bits bits (set_pool (zset (buffer_pool s) f q) s)).
Proof.
  intros [Hp Ht Hb Hc Hs Hf Hfr] Hgp Hid Hdata Hpin Hbits.
  pose proof (zget_Some_range _ _ _ Hgp) as Hfrange.
  constructor; simpl; try done; [by rewrite length_zset| |].
  - intros h e He. destruct (Hs h e He) as [->|(H1 & H2 & p' & Hp' & Hi)]; [by left|].
    right. split_and!; [done..|]. destruct (decide (e_frame e = f)) as [E|].
    + rewrite E in *. rewrite zget_zset_eq by done. exists q. split; [done|]. rewrite Hgp in Hp'.
      injection Hp' as <-. congruence.
    + rewrite zget_zset_ne by done. by exists p'.
  - intros g r Hr _. destruct (decide (g = f)) as [->|].
    + rewrite zget_zset_eq in Hr by done. injection Hr as <-.
      destruct (Hf f p Hgp) as [_ Hcase]; [done|]. split; [done|]. rewrite Hid, Hdata. done.
    + rewrite zget_zset_ne in Hr by done. by apply Hf.
Qed.

(** Putting a page into the frame [f] that is being replaced. *)
Lemma install_ok s f page now bits :
  pool_inv (Some f) s -> 0 <= f < BUFFER_POOL_SIZE -> 0 <= page < PAGE_TABLE_SIZE ->
  zget (page_table s) page = Some (mkEntry (-1) (-1)) -> len bits = BUFFER_POOL_SIZE ->
  exists s', insert_into_page_table
      (set_disk (disk s ++ [DiskRead page])
        (set_bits bits (set_pool (zset (buffer_pool s) f (mkPage (page_text page) page false 1 now)) s)))
      page f = Ok s' /\
    pool_inv None s' /\ disk s' = disk s ++ [DiskRead page] /\
    buffer_pool s' = zset (buffer_pool s) f (mkPage (page_text page) page false 1 now).
Proof.
  intros [Hp Ht Hb Hc Hs Hf [Hnd Hfr]] Hfrange Hpage Hempty Hbits. unfold insert_into_page_table.
  rewrite hash_ok by done. rewrite bind_ret_l.
  change PROBE_FUEL with (S (Z.to_nat PAGE_TABLE_SIZE)). rewrite loop_S. unfold insert_pass at 2. simpl.
  rewrite (arr_read_Ok _ _ _ Hempty). simpl. rewrite arr_write_Ok by lia. simpl.
  eexists. split; [done|]. split_and!; [|done..].
  constructor; simpl; try done; try by rewrite length_zset.
  - intros h e. destruct (decide (h = page)) as [->|Hne].
    + rewrite zget_zset_eq by lia. intros [= <-]. right. simpl. split_and!; [done..|].
      rewrite zget_zset_eq by lia. by eexists.
    + rewrite zget_zset_ne by done. intros He.
      destruct (Hs h e He) as [->|(H1 & H2 & p & Hgp & Hid)]; [by left|]. right. split_and!; [done..|].
      exists p. rewrite zget_zset_ne by congruence. done.
  - intros g r Hr _. destruct (decide (g = f)) as [->|Hne].
    + rewrite zget_zset_eq in Hr by lia. injection Hr as <-. split; simpl; [lia|]. right.
      assert (zget (zset (page_table s) page (mkEntry page f)) page = Some (mkEntry page f)) as Hpt
        by (apply zget_zset_eq; lia).
      split_and!; [lia|lia|exact Hpt|done|]. intros Hin. by destruct (Hfr f Hin).
    + rewrite zget_zset_ne in Hr by done. destruct (Hf g r Hr) as [Hpin Hcase]; [congruence|].
      split; [done|]. destruct Hcase as [?|(Hid & Hres & Hd & Hnf)]; [by left|]. right.
      split_and!; [lia|lia| |done|done]. unfold resident in *. simpl. rewrite zget_zset_ne; [done|].
      intros E. rewrite <- E, Hempty in Hres. injection Hres. lia.
  - split; [done|]. intros g Hg. destruct (Hfr g Hg). by split.
Qed.

(** The frame for a missing page: a free one, or a victim that is written back
    when dirty and leaves the table. *)
Lemma take_frame_ok s page :
  pool_inv None s -> 0 <= page < PAGE_TABLE_SIZE ->
  zget (page_table s) page = Some (mkEntry (-1) (-1)) ->
  free_list s <> [] \/ (exists u, unpinned (buffer_pool s) u) ->
  exists f s' p, take_frame s = Ok (f, s') /\ pool_inv (Some f) s' /\
    zget (page_table s') page = Some (mkEntry (-1) (-1)) /\
    buffer_pool s' = buffer_pool s /\ zget (buffer_pool s) f = Some p /\
    (page_id p = -1 \/ pin_count p = 0) /\
    disk s' = disk s ++ (if negb (page_id p =? -1) && is_dirty p then [DiskWrite (page_id p)] else []).
Proof.
  intros Hinv Hpage Hempty Hsrc. pose proof Hinv as [Hp Ht Hb Hc Hs Hf [Hnd Hfr]]. unfold take_frame.
  destruct (free_list s) as [|f l] eqn:Efree.
  - destruct Hsrc as [|[u Hu]]; [done|].
    destruct (find_victim_ok s u) as (f & s1 & -> & (p & Hgp & Hpin) & Hc1 & Hb1 & E); try done.
    rewrite bind_ret_l. cbn beta iota.
    assert (buffer_pool s1 = buffer_pool s) as Epool by by rewrite E.
    assert (page_table s1 = page_table s) as Etab by by rewrite E.
    assert (disk s1 = disk s) as Edisk by by rewrite E.
    assert (free_list s1 = []) as Efl by (rewrite E; simpl; done).
    rewrite Epool, (arr_read_Ok _ _ _ Hgp), bind_ret_l.
    destruct (Hf f p Hgp) as [_ [[_ Hin]|(Hid & Hres & Hd & _)]]; [done| |].
    { rewrite Efree in Hin. by apply elem_of_nil in Hin. }
    set (s2 := if is_dirty p then _ else s1).
    assert (page_table s2 = page_table s /\ buffer_pool s2 = buffer_pool s /\ free_list s2 = [] /\
      clock_hand s2 = clock_hand s1 /\ reference_bits s2 = reference_bits s1 /\
      disk s2 = disk s ++ (if is_dirty p then [DiskWrite (page_id p)] else []))
      as (Et2 & Ep2 & Ef2 & Ec2 & Er2 & Ed2).
    { subst s2. destruct (is_dirty p); simpl; rewrite ?app_nil_r, ?Edisk; done. }
    unfold remove_from_page_table. rewrite hash_ok by done. rewrite bind_ret_l.
    change PROBE_FUEL with (S (Z.to_nat PAGE_TABLE_SIZE)). rewrite loop_S. unfold remove_pass at 2.
    rewrite Et2, (arr_read_Ok _ _ _ Hres). simpl. rewrite Z.eqb_refl. simpl.
    rewrite arr_write_Ok by lia. simpl. exists f. eexists. exists p. split; [done|].
    destruct (Z.eqb_spec (page_id p) (-1)) as [|_]; [lia|]. simpl.
    assert (page_id p <> page) as Hpp.
    { intros E'. unfold resident in Hres. rewrite E', Hempty in Hres. injection Hres. lia. }
    split_and!; try done; [|rewrite zget_zset_ne by done; done|auto].
    constructor; simpl; rewrite ?length_zset, ?Ep2, ?Er2, ?Ec2, ?Ef2; try done; [| |].
    + intros h e. destruct (decide (h = page_id p)) as [->|Hne].
      * rewrite zget_zset_eq by lia. intros [= <-]. by left.
      * rewrite zget_zset_ne by done. intros He.
        destruct (Hs h e He) as [->|(H1 & _ & q & Hq & Hqid)]; [by left|]. right. split_and!; [done| |eauto].
        intros [= E']. rewrite E', Hgp in Hq. injection Hq as <-. congruence.
    + intros g r Hr Hne. destruct (Hf g r Hr) as [Hpin' [[_ Hin]|(Hid' & Hres' & Hd' & _)]]; [done| |].
      { rewrite Efree in Hin. by apply elem_of_nil in Hin. }
      split; [done|]. right. split_and!; [lia|lia| |done|simpl; rewrite Ef2; by apply not_elem_of_nil].
      unfold resident in *. simpl. rewrite zget_zset_ne; [done|]. intros E'.
      rewrite <- E', Hres in Hres'. injection Hres' as <-. done.
    + split; [constructor|]. by intros g Hg%elem_of_nil.
  - assert (0 <= f < BUFFER_POOL_SIZE) as [Hf1 Hf2].
    { apply Hfr. by left. }
    destruct (zget_range (buffer_pool s) f) as [p Hgp]; [lia|].
    apply NoDup_cons in Hnd as [Hnf Hnd].
    destruct (Hf f p Hgp) as [_ [[Hid _]|(_ & _ & _ & Hni)]]; [done| |].
    2:{ rewrite Efree in Hni. exfalso. apply Hni. by left. }
    exists f. eexists. exists p. split; [done|]. rewrite Hid. simpl.
    split_and!; try done; [|by left|by rewrite app_nil_r].
    constructor; simpl; try done.
    + intros h e He. destruct (Hs h e He) as [->|(H1 & _ & q & Hq & Hqid)]; [by left|]. right.
      split_and!; [done| |eauto]. intros [= E']. rewrite E', Hgp in Hq. injection Hq as <-.
      pose proof (zget_Some_range _ _ _ He). lia.
    + intros g r Hr Hne. destruct (Hf g r Hr) as [Hpin [[Hg Hin]|(Hg & Hres & Hd & Hni)]]; [done| |].
      * split; [done|]. left. split; [done|]. simpl. rewrite Efree in Hin.
        apply elem_of_cons in Hin as [->|?]; [congruence|done].
      * split; [done|]. right. split_and!; [lia|lia|done|done|]. simpl. rewrite Efree in Hni.
        intros Hin. apply Hni. by right.
    + split; [done|]. intros g Hg. split; [apply Hfr; by right|congruence].
Qed.
End invariant.

Section theorems.
#[local] Arguments loop : simpl never.
#[local] Arguments for_range : simpl never.

(** What became of the page the frame held before. *)
Definition replaced (page : Z) (p : Page) (s' : manager) : Prop :=
  page_id p = page \/ page_id p = -1 \/
  (pin_count p = 0 /\ (is_dirty p = true -> DiskWrite (page_id p) ∈ disk s')).

Lemma fetch_hit_ok now s page f p :
  pool_inv None s -> 0 <= page < PAGE_TABLE_SIZE -> lookup_page s page = Ok f -> 0 <= f ->
  resident s page f -> zget (buffer_pool s) f = Some p -> page_id p = page -> pin_count p < INT_MAX ->
  exists s' p', fetch_page now s page = Ok (f, s') /\ pool_inv None s' /\
    zget (buffer_pool s') f = Some p' /\ page_id p' = page /\ data p' = page_text page /\
    0 < pin_count p' /\ (forall g, g <> f -> zget (buffer_pool s') g = zget (buffer_pool s) g).
Proof.
  intros Hinv Hpage Hl Hf Hres Hgp Hid Hpin. unfold fetch_page. rewrite Hl, bind_ret_l.
  pose proof (zget_Some_range _ _ _ Hgp) as Hr. pose proof (pi_bits _ _ Hinv) as Hb.
  pose proof (pi_pool _ _ Hinv) as Hpl.
  destruct (pi_frames _ _ Hinv f p Hgp) as [Hp0 Hcase]; [done|].
  destruct (Z.eqb_spec f (-1)) as [|_]; [lia|]. cbn [negb]. rewrite (arr_read_Ok _ _ _ Hgp), bind_ret_l.
  rewrite iadd_Ok by int_side. rewrite bind_ret_l, (arr_write_Ok (buffer_pool s)) by lia.
  rewrite bind_ret_l, arr_write_Ok by lia. rewrite bind_ret_l.
  do 2 eexists. split; [done|]. split_and!.
  - apply (inv_update_frame s f p); try done; [simpl; lia|by rewrite length_zset].
  - simpl. by rewrite zget_zset_eq by lia.
  - done.
  - simpl. destruct Hcase as [[? _]|(_ & _ & Hd & _)]; [lia|]. by rewrite Hd, Hid.
  - simpl. lia.
  - intros g Hg. simpl. by rewrite zget_zset_ne.
Qed.

Lemma fetch_miss_ok now s page :
  pool_inv None s -> 0 <= page < PAGE_TABLE_SIZE -> lookup_page s page = Ok (-1) ->
  zget (page_table s) page = Some (mkEntry (-1) (-1)) ->
  free_list s <> [] \/ (exists u, unpinned (buffer_pool s) u) ->
  exists f s' p p', fetch_page now s page = Ok (f, s') /\ pool_inv None s' /\
    zget (buffer_pool s') f = Some p' /\ page_id p' = page /\ data p' = page_text page /\
    0 < pin_count p' /\ (forall g, g <> f -> zget (buffer_pool s') g = zget (buffer_pool s) g) /\
    zget (buffer_pool s) f = Some p /\ replaced page p s'.
Proof.
  intros Hinv Hpage Hl Hempty Hsrc. unfold fetch_page. rewrite Hl, bind_ret_l. cbn [negb Z.eqb Pos.eqb].
  destruct (take_frame_ok s page Hinv Hpage Hempty Hsrc) as (f & s1 & p & -> & Hinv1 & He1 & Epool & Hgp & Hold & Hdisk).
  rewrite bind_ret_l. cbn beta iota. pose proof (zget_Some_range _ _ _ Hgp) as Hr.
  pose proof (pi_pool _ _ Hinv1) as Hpl. pose proof (pi_bits _ _ Hinv1) as Hb. rewrite Epool in Hpl.
  rewrite Epool, (arr_write_Ok (buffer_pool s)) by lia. rewrite bind_ret_l, arr_write_Ok by lia. rewrite bind_ret_l.
  destruct (install_ok s1 f page now (zset (reference_bits s1) f true)) as (s3 & Hins & Hinv3 & Hd3 & Hp3);
    try done; [lia|by rewrite length_zset|].
  rewrite Epool in Hins, Hp3. rewrite Hins, bind_ret_l.
  exists f, s3, p. eexists. split; [done|]. rewrite Hp3. split_and!; try done.
  - by apply zget_zset_eq.
  - done.
  - done.
  - done.
  - intros g Hg. by apply zget_zset_ne.
  - unfold replaced. destruct Hold as [?|Hz]; [auto|]. right.
    destruct (Z.eqb_spec (page_id p) (-1)) as [|Hne]; [by left|]. right. split; [done|].
    intros Hdirty. rewrite Hd3, Hdisk, Hdirty. cbn [negb andb].
    apply elem_of_app. left. apply elem_of_app. right. by left.
Qed.
End theorems.

(** The page is in a frame, a frame is free, or some frame is unpinned. *)
Definition available (s : manager) (page : Z) : Prop := free_list s <> [] \/ (exists f, resident s page f) \/ (exists u, unpinned (buffer_pool s) u).

(** Otherwise the search for a victim does not end. *)
Lemma fetch_stuck now s page : pool_inv None s -> 0 <= page < PAGE_TABLE_SIZE -> ~ available s page ->
  fetch_page now s page = Fault OutOfFuel /\ forall fuel, find_victim_page fuel s = Fault OutOfFuel.
Proof.
  intros Hinv Hpage Hno. assert (forall fuel, find_victim_page fuel s = Fault OutOfFuel) as Hv.
  { intros fuel. apply find_victim_diverges; [apply Hinv|apply Hinv|]. intros i p Hp Hz. apply Hno. right. right. exists i, p. done. }
  split; [|done]. destruct (lookup_ok None s page Hinv Hpage) as [[Hl _]|(f & _ & Hres & _)]; [|destruct Hno; right; left; by exists f].
  unfold fetch_page. rewrite Hl, bind_ret_l. cbn [negb Z.eqb Pos.eqb]. unfold take_frame.
  destruct (free_list s) as [|f l] eqn:E; [by rewrite Hv|]. destruct Hno. left. by rewrite E.
Qed.

(** C40.  For page numbers below the size of the page table: if the page is resident, a
    frame is free or some frame is unpinned, [fetch_page] keeps the buffer pool
    consistent (table, frames and free list agree) and returns a pinned frame with the
    page and its text; no other frame changes, and the frame used held the page already,
    was free, or was unpinned and was written back if dirty.  Otherwise it does not
    return: the search for a victim goes on for ever. *)
Theorem fetch_page_spec now s page :
  pool_inv None s -> 0 <= page < PAGE_TABLE_SIZE ->
  (forall f p, zget (buffer_pool s) f = Some p -> pin_count p < INT_MAX) ->
  (available s page ->
   exists f s' p p', fetch_page now s page = Ok (f, s') /\ pool_inv None s' /\
    zget (buffer_pool s') f = Some p' /\ page_id p' = page /\ data p' = page_text page /\
    0 < pin_count p' /\ (forall g, g <> f -> zget (buffer_pool s') g = zget (buffer_pool s) g) /\
    zget (buffer_pool s) f = Some p /\ replaced page p s') /\
  (~ available s page -> fetch_page now s page = Fault OutOfFuel /\ forall fuel, find_victim_page fuel s = Fault OutOfFuel).
Proof.
  intros Hinv Hpage Hpins. split; [|by apply fetch_stuck]. intros Hsrc. destruct (lookup_ok None s page Hinv Hpage) as [[Hl He]|(f & Hl & Hres & Hf)].
  - apply fetch_miss_ok; try done. destruct Hsrc as [|[[f Hf]|]]; auto.
    unfold resident in Hf. rewrite He in Hf. injection Hf. lia.
  - destruct (resident_frame s page f Hinv Hres) as (p & Hgp & Hid); [lia|].
    destruct (fetch_hit_ok now s page f p) as (s' & p' & H); try done; [by eapply Hpins|].
    exists f, s', p, p'. destruct H as (? & ? & ? & ? & ? & ? & ?).
    split_and!; try done. by left.
Qed.

(** The clock finds a victim after at most two turns when some frame is
    unpinned, and that victim is unpinned; when all frames are pinned the search
    never ends. *)
Theorem find_victim_terminates s :
  len (buffer_pool s) = BUFFER_POOL_SIZE -> len (reference_bits s) = BUFFER_POOL_SIZE ->
  0 <= clock_hand s < BUFFER_POOL_SIZE ->
  (forall u, unpinned (buffer_pool s) u ->
     exists v s', find_victim_page CLOCK_FUEL s = Ok (v, s') /\ unpinned (buffer_pool s) v /\
       buffer_pool s' = buffer_pool s) /\
  ((forall i p, zget (buffer_pool s) i = Some p -> pin_count p <> 0) ->
     forall fuel, find_victim_page fuel s = Fault OutOfFuel).
Proof.
  intros Hp Hb Hc. split.
  - intros u Hu. destruct (find_victim_ok s u) as (v & s' & -> & Hv & _ & _ & ->); try done.
    by exists v, (set_clock (clock_hand s') (set_bits (reference_bits s') s)).
  - intros Hall fuel. by apply find_victim_diverges.
Qed.

Section probing.
#[local] Arguments loop : simpl never.

Lemma next_slot_ok h : 0 <= h < PAGE_TABLE_SIZE ->
  next_slot h = Ok ((h + 1) mod PAGE_TABLE_SIZE) /\
  0 <= (h + 1) mod PAGE_TABLE_SIZE < PAGE_TABLE_SIZE /\ (h + 1) mod PAGE_TABLE_SIZE <> h.
Proof.
  unfold next_slot, PAGE_TABLE_SIZE. intros Hh. rewrite iadd_Ok by int_side. simpl.
  rewrite imod_Ok by int_side. split_and!; try dlia. done.
Qed.

Lemma probe_two {R} (body : Z -> res (ctl Z R)) h h' r :
  body h = Ok (Next h') -> body h' = Ok (Return r) -> loop PROBE_FUEL body h = Ok r.
Proof.
  intros H1 H2. change PROBE_FUEL with (S (S (Z.to_nat (PAGE_TABLE_SIZE - 1)))).
  rewrite loop_S, H1. simpl. by rewrite loop_S, H2.
Qed.

Lemma probe_one {R} (body : Z -> res (ctl Z R)) h r :
  body h = Ok (Return r) -> loop PROBE_FUEL body h = Ok r.
Proof.
  intros H1. change PROBE_FUEL with (S (Z.to_nat PAGE_TABLE_SIZE)). by rewrite loop_S, H1.
Qed.

Lemma empty_slot h : 0 <= h < PAGE_TABLE_SIZE ->
  zget (replicate 2048 (mkEntry (-1) (-1))) h = Some (mkEntry (-1) (-1)).
Proof.
  unfold PAGE_TABLE_SIZE. intros Hh. unfold zget. case_cond; [|lia].
  apply lookup_replicate_2. lia.
Qed.
End probing.

(** Removal leaves a hole in the probe sequence: after two pages with the
    same hash have been entered and the first removed, the second is still in
    the table but [lookup_page] reports it missing. *)
Theorem removal_hides_page s a b fa fb :
  page_table s = replicate 2048 (mkEntry (-1) (-1)) ->
  0 <= a <= INT_MAX -> 0 <= b <= INT_MAX -> a <> b ->
  a mod PAGE_TABLE_SIZE = b mod PAGE_TABLE_SIZE ->
  exists s1 s2 s3, insert_into_page_table s a fa = Ok s1 /\ insert_into_page_table s1 b fb = Ok s2 /\
    lookup_page s2 b = Ok fb /\ remove_from_page_table s2 a = Ok s3 /\
    mkEntry b fb ∈ page_table s3 /\ lookup_page s3 b = Ok (-1).
Proof.
  intros Hs Ha Hb Hab Hmod. set (h := a mod PAGE_TABLE_SIZE) in *.
  assert (0 <= h < PAGE_TABLE_SIZE) as Hh by by apply Z.mod_pos_bound.
  destruct (next_slot_ok h Hh) as (Hnext & Hh' & Hne). set (h' := (h + 1) mod PAGE_TABLE_SIZE) in *.
  set (t0 := replicate 2048 (mkEntry (-1) (-1))) in *.
  assert (len t0 = PAGE_TABLE_SIZE) as Hl0 by done.
  assert (forall p, p = a \/ p = b -> hash_function p = Ok h) as Hhash.
  { intros p Hp. unfold hash_function. rewrite imod_Ok by (unfold PAGE_TABLE_SIZE; lia).
    destruct Hp as [-> | ->]; [done|by rewrite Hmod]. }
  set (t1 := zset t0 h (mkEntry a fa)). set (t2 := zset t1 h' (mkEntry b fb)).
  assert (zget t0 h = Some (mkEntry (-1) (-1))) as H0h by by apply empty_slot.
  assert (zget t1 h = Some (mkEntry a fa)) as H1h by (apply zget_zset_eq; lia).
  assert (zget t1 h' = Some (mkEntry (-1) (-1))) as H1h'.
  { unfold t1. rewrite zget_zset_ne by done. by apply empty_slot. }
  assert (zget t2 h = Some (mkEntry a fa)) as H2h by (unfold t2; by rewrite zget_zset_ne).
  assert (zget t2 h' = Some (mkEntry b fb)) as H2h'.
  { apply zget_zset_eq. unfold t1. rewrite length_zset. lia. }
  set (t3 := zset t2 h (mkEntry (-1) (-1))).
  assert (forall x l, zget l h = Some (mkEntry a x) -> lookup_pass l b h = Ok (Next h')) as Hskip.
  { intros x l Hl. unfold lookup_pass. rewrite (arr_read_Ok _ _ _ Hl). simpl.
    destruct (Z.eqb_spec a (-1)); [lia|]. simpl. destruct (Z.eqb_spec a b); [done|]. by rewrite Hnext. }
  exists (set_table t1 s), (set_table t2 s), (set_table t3 s).
  unfold insert_into_page_table, lookup_page, remove_from_page_table. rewrite !Hhash by auto.
  cbn [mbind res_bind]. rewrite Hs. simpl page_table.
  rewrite (probe_one (insert_pass t0) h h) by (unfold insert_pass; by rewrite (arr_read_Ok _ _ _ H0h)).
  rewrite (probe_two (insert_pass t1) h h' h').
  2:{ unfold insert_pass. rewrite (arr_read_Ok _ _ _ H1h). simpl.
      destruct (Z.eqb_spec a (-1)); [lia|]. simpl. by rewrite Hnext. }
  2:{ unfold insert_pass. by rewrite (arr_read_Ok _ _ _ H1h'). }
  rewrite (probe_two (lookup_pass t2 b) h h' fb); [|by eapply Hskip|].
  2:{ unfold lookup_pass. rewrite (arr_read_Ok _ _ _ H2h'). simpl.
      destruct (Z.eqb_spec b (-1)); [lia|]. simpl. by rewrite Z.eqb_refl. }
  rewrite (probe_one (remove_pass t2 a) h h).
  2:{ unfold remove_pass. rewrite (arr_read_Ok _ _ _ H2h). simpl. by rewrite Z.eqb_refl. }
  rewrite (probe_one (lookup_pass t3 b) h (-1)).
  2:{ unfold lookup_pass. rewrite (arr_read_Ok t3 h (mkEntry (-1) (-1))); [done|].
      apply zget_zset_eq. unfold t2, t1. rewrite !length_zset. lia. }
  simpl. rewrite !arr_write_Ok by (unfold t2, t1; rewrite ?length_zset; lia). simpl.
  split_and!; try done. apply elem_of_zget. exists h'. unfold t3. by rewrite zget_zset_ne.
Qed.

(** A negative page number hashes to a negative slot. *)
Lemma negative_page_faults s page :
  INT_MIN <= page < 0 -> Z.rem page PAGE_TABLE_SIZE <> 0 ->
  lookup_page s page = Fault OutOfBounds.
Proof.
  intros Hp Hr. unfold lookup_page, hash_function, imod. simpl (PAGE_TABLE_SIZE =? 0). cbn beta iota.
  assert (INT_MIN <= Z.rem page PAGE_TABLE_SIZE < 0) as Hneg.
  { unfold PAGE_TABLE_SIZE, INT_MIN in *. Z.to_euclidean_division_equations. lia. }
  rewrite int_of_Ok by (unfold INT_MAX; lia). rewrite bind_ret_l.
  change PROBE_FUEL with (S (Z.to_nat PAGE_TABLE_SIZE)). rewrite loop_S.
  assert (lookup_pass (page_table s) page (Z.rem page PAGE_TABLE_SIZE) = Fault OutOfBounds) as ->
    by (unfold lookup_pass; by rewrite arr_read_oob by lia).
  done.
Qed.

(** ** Initialization establishes the invariant *)

Definition fresh_upto (s0 : manager) (i : Z) (s : manager) : Prop :=
  len (buffer_pool s) = BUFFER_POOL_SIZE /\ len (reference_bits s) = BUFFER_POOL_SIZE /\
  page_table s = page_table s0 /\ clock_hand s = clock_hand s0 /\
  NoDup (free_list s) /\ (forall f, f ∈ free_list s <-> 0 <= f < i) /\
  (forall f p, f < i -> zget (buffer_pool s) f = Some p -> page_id p = -1 /\ pin_count p = 0).

Lemma init_frame_ok s0 i s :
  0 <= i < BUFFER_POOL_SIZE -> fresh_upto s0 i s ->
  exists s', init_frame i s = Ok s' /\ fresh_upto s0 (i + 1) s'.
Proof.
  intros Hi (Hp & Hb & Ht & Hc & Hnd & Hfree & Hfr). unfold init_frame.
  destruct (zget_range (buffer_pool s) i) as [p Hgp]; [lia|]. rewrite (arr_read_Ok _ _ _ Hgp), bind_ret_l.
  rewrite (arr_write_Ok (buffer_pool s)) by lia. rewrite bind_ret_l, arr_write_Ok by lia. rewrite bind_ret_l.
  eexists. split; [done|]. unfold fresh_upto. simpl. rewrite !length_zset. split_and!; try done.
  - constructor; [|done]. rewrite Hfree. lia.
  - intros f. rewrite elem_of_cons, Hfree. lia.
  - intros f q Hf Hq. destruct (decide (f = i)) as [->|].
    + rewrite zget_zset_eq in Hq by lia. by injection Hq as <-.
    + rewrite zget_zset_ne in Hq by done. apply (Hfr f); [lia|done].
Qed.

Lemma manager_init_ok s0 :
  len (buffer_pool s0) = BUFFER_POOL_SIZE -> len (page_table s0) = PAGE_TABLE_SIZE ->
  len (reference_bits s0) = BUFFER_POOL_SIZE -> clock_hand s0 = 0 -> free_list s0 = [] ->
  exists s, init_buffer_pool s0 = Ok s /\ pool_inv None s.
Proof.
  intros Hp Ht Hb Hc Hf. unfold init_buffer_pool.
  destruct (for_range_inv (fresh_upto s0) (Z.to_nat BUFFER_POOL_SIZE) 0 init_frame s0)
    as (s1 & -> & Hp1 & Hb1 & Ht1 & Hc1 & Hnd1 & Hf1 & Hfr1).
  - unfold fresh_upto. rewrite Hf. split_and!; try done; [constructor| |].
    + intros f. rewrite elem_of_nil. lia.
    + intros f p Hlt Hgp%zget_Some_range. lia.
  - intros j t Hj Ht'. apply init_frame_ok; [|done]. unfold BUFFER_POOL_SIZE in *. lia.
  - rewrite bind_ret_l. rewrite Ht1.
    destruct (for_range_inv (fun i t => len t = PAGE_TABLE_SIZE /\
        forall h e, h < i -> zget t h = Some e -> e = mkEntry (-1) (-1)) (Z.to_nat PAGE_TABLE_SIZE) 0
      (fun i t => t.[i <- mkEntry (-1) (-1)]) (page_table s0)) as (t & -> & Hlt & Hall).
    + split; [done|]. intros h e Hh He%zget_Some_range. lia.
    + intros j t Hj [Hl Hall]. rewrite arr_write_Ok by (unfold PAGE_TABLE_SIZE in *; lia).
      eexists. split; [done|]. split; [by rewrite length_zset|]. intros h e Hh.
      destruct (decide (h = j)) as [->|].
      * rewrite zget_zset_eq by (unfold PAGE_TABLE_SIZE in *; lia). by intros [= <-].
      * rewrite zget_zset_ne by done. apply Hall. lia.
    + rewrite bind_ret_l. eexists. split; [done|].
      rewrite Z2Nat.id, Z.add_0_l in * by done. constructor; simpl; try done.
      * by rewrite Hc1, Hc.
      * intros h e He. left. apply (Hall h); [|done]. apply zget_Some_range in He. lia.
      * intros f p Hgp _. pose proof (zget_Some_range _ _ _ Hgp).
        destruct (Hfr1 f p) as [? ?]; [lia|done|]. split; [lia|]. left. split; [done|]. apply Hf1. lia.
      * split; [done|]. intros f Hf'. split; [by apply Hf1|done].
Qed.

Definition empty_manager : manager :=
  mkManager (replicate 1024 (mkPage EmptyString (-1) false 0 0)) (replicate 2048 (mkEntry (-1) (-1)))
    (seqZ 0 1024) 0 (replicate 1024 false) [].

Lemma empty_manager_ok : pool_inv None empty_manager.
Proof.
  constructor; try done.
  - intros h e He. left. by apply (zget_replicate 2048 (mkEntry (-1) (-1))) in He.
  - intros f p Hgp _. pose proof (zget_Some_range _ _ _ Hgp) as Hr.
    apply (zget_replicate 1024 (mkPage EmptyString (-1) false 0 0)) in Hgp as ->.
    split; [done|]. left. split; [done|]. apply elem_of_seqZ.
    change (len (buffer_pool empty_manager)) with 1024 in Hr. lia.
  - split; [apply NoDup_seqZ|]. intros f Hf%elem_of_seqZ. split; [unfold BUFFER_POOL_SIZE; lia|done].
Qed.

Lemma fetch_page_spec_witness :
  exists f s' p p', fetch_page 0 empty_manager 7 = Ok (f, s') /\ pool_inv None s' /\
    zget (buffer_pool s') f = Some p' /\ page_id p' = 7 /\ data p' = page_text 7 /\
    0 < pin_count p' /\ (forall g, g <> f -> zget (buffer_pool s') g = zget (buffer_pool empty_manager) g) /\
    zget (buffer_pool empty_manager) f = Some p /\ replaced 7 p s'.
Proof.
  apply (fetch_page_spec 0 empty_manager 7 empty_manager_ok); [split; vm_compute; [discriminate|reflexivity]| |].
  - intros f p Hp. apply (zget_replicate 1024 (mkPage EmptyString (-1) false 0 0)) in Hp.
    rewrite Hp. vm_compute. reflexivity.
  - left. vm_compute. discriminate.
Defined.

Lemma find_victim_terminates_witness :
  (forall u, unpinned (buffer_pool empty_manager) u ->
     exists v s', find_victim_page CLOCK_FUEL empty_manager = Ok (v, s') /\
       unpinned (buffer_pool empty_manager) v /\ buffer_pool s' = buffer_pool empty_manager) /\
  ((forall i p, zget (buffer_pool empty_manager) i = Some p -> pin_count p <> 0) ->
     forall fuel, find_victim_page fuel empty_manager = Fault OutOfFuel).
Proof.
  apply (find_victim_terminates empty_manager); [reflexivity|reflexivity|].
  split; vm_compute; [discriminate|reflexivity].
Defined.

Lemma removal_hides_page_witness :
  exists s1 s2 s3, insert_into_page_table empty_manager 5 0 = Ok s1 /\
    insert_into_page_table s1 2053 1 = Ok s2 /\
    lookup_page s2 2053 = Ok 1 /\ remove_from_page_table s2 5 = Ok s3 /\
    mkEntry 2053 1 ∈ page_table s3 /\ lookup_page s3 2053 = Ok (-1).
Proof.
  apply (removal_hides_page empty_manager 5 2053 0 1); try reflexivity;
    try (split; vm_compute; discriminate). discriminate.
Defined.
