(* ===== verification/BufferPool.v ===== *)
(** * A write-back buffer pool over a file ([os/filesystem/whyNotUseOS.c])

    Ten frames in front of a file of pages.  The contents of a page are of an
    arbitrary type [C]; the file gives the page at an offset, or nothing past
    its end, where [read] leaves the buffer as it is.  [now] is [time(NULL)]. *)
From Stdlib Require Import ZArith Lia.
From stdpp Require Import base tactics list numbers option strings.
From S2P Require Import Prelude.

#[local] Open Scope Z_scope.
#[local] Open Scope c_scope.

Definition PAGE_SIZE : Z := 4096.
Definition BUFFER_POOL_SIZE : Z := 10.

Section definitions.
Context {C : Type}.

Record BufferFrame : Type := mkFrame {
  page_id : Z;
  data : C;
  dirty : bool;
  pin_count : Z;
  last_access : Z
}.

Record BufferPool : Type := mkPool {
  frames : list BufferFrame;
  file : Z -> option C;
  page_faults : Z;
  disk_writes : Z
}.

(** [contents i] is what [malloc] returned for frame [i]. *)
Definition create_buffer_pool (fs : Z -> option C) (contents : Z -> C) : BufferPool :=
  mkPool ((fun i => mkFrame (-1) (contents i) false 0 0) <$> seqZ 0 BUFFER_POOL_SIZE) fs 0 0.

Definition lru_pass (pool : BufferPool) (i : Z) (st : Z * Z) : res (Z * Z) :=
  let '(lru_index, oldest_time) := st in
  f ← (frames pool).[i];
  Ok (if (pin_count f =? 0) && (last_access f <? oldest_time)
      then (i, last_access f) else (lru_index, oldest_time)).

Definition find_lru_page (pool : BufferPool) : res Z :=
  f ← (frames pool).[0];
  '(lru_index, _) ← for_range (Z.to_nat (BUFFER_POOL_SIZE - 1)) 1 (lru_pass pool) (0, last_access f);
  Ok lru_index.

(** [lseek] and [write], [lseek] and [read], at a page's offset. *)
Definition write_page (pool : BufferPool) (page : Z) (c : C) : res BufferPool :=
  off ← imul page PAGE_SIZE;
  Ok (mkPool (frames pool) (fun o => if o =? off then Some c else file pool o)
        (page_faults pool) (disk_writes pool)).

Definition read_page (pool : BufferPool) (page : Z) (old : C) : res C :=
  off ← imul page PAGE_SIZE; Ok (default old (file pool off)).

Definition set_frames (l : list BufferFrame) (pool : BufferPool) : BufferPool :=
  mkPool l (file pool) (page_faults pool) (disk_writes pool).

Definition add_fault (pool : BufferPool) : res BufferPool :=
  n ← iadd (page_faults pool) 1; Ok (mkPool (frames pool) (file pool) n (disk_writes pool)).
Definition add_write (pool : BufferPool) : res BufferPool :=
  n ← iadd (disk_writes pool) 1; Ok (mkPool (frames pool) (file pool) (page_faults pool) n).

Definition find_pass (pool : BufferPool) (page : Z) (i : Z) (st : unit) : res (ctl unit Z) :=
  f ← (frames pool).[i];
  if page_id f =? page then Ok (Return i) else Ok (Next st).

(** The frame for a page: the index [get_page] returns a pointer to. *)
Definition get_page (now : Z) (pool : BufferPool) (page : Z) : res (Z * BufferPool) :=
  c ← for_ctl (Z.to_nat BUFFER_POOL_SIZE) 0 (find_pass pool page) tt;
  match c with
  | Return i =>
      f ← (frames pool).[i];
      n ← iadd (pin_count f) 1;
      l ← (frames pool).[i <- mkFrame (page_id f) (data f) (dirty f) n now];
      Ok (i, set_frames l pool)
  | Next _ =>
      pool1 ← add_fault pool;
      victim ← find_lru_page pool1;
      f ← (frames pool1).[victim];
      pool2 ← (if dirty f then p ← write_page pool1 (page_id f) (data f); add_write p else Ok pool1);
      d ← read_page pool2 page (data f);
      l ← (frames pool2).[victim <- mkFrame page d false 1 now];
      Ok (victim, set_frames l pool2)
  end.

Definition update_frame (pool : BufferPool) (i : Z) (g : BufferFrame -> res BufferFrame)
    : res BufferPool :=
  f ← (frames pool).[i]; f' ← g f; l ← (frames pool).[i <- f']; Ok (set_frames l pool).

Definition release_page (pool : BufferPool) (i : Z) : res BufferPool :=
  update_frame pool i (fun f =>
    n ← isub (pin_count f) 1; Ok (mkFrame (page_id f) (data f) (dirty f) n (last_access f))).

Definition mark_dirty (pool : BufferPool) (i : Z) : res BufferPool :=
  update_frame pool i (fun f => Ok (mkFrame (page_id f) (data f) true (pin_count f) (last_access f))).

(** The client's [strcpy (frame->data, c)]. *)
Definition write_data (pool : BufferPool) (i : Z) (c : C) : res BufferPool :=
  update_frame pool i (fun f => Ok (mkFrame (page_id f) c (dirty f) (pin_count f) (last_access f))).

Definition flush_page (pool : BufferPool) (i : Z) : res BufferPool :=
  f ← (frames pool).[i];
  if dirty f then
    pool1 ← write_page pool (page_id f) (data f);
    l ← (frames pool1).[i <- mkFrame (page_id f) (data f) false (pin_count f) (last_access f)];
    add_write (set_frames l pool1)
  else Ok pool.

Definition destroy_buffer_pool (pool : BufferPool) : res BufferPool :=
  for_range (Z.to_nat BUFFER_POOL_SIZE) 0
    (fun i p => f ← (frames p).[i]; if dirty f then flush_page p i else Ok p) pool.

End definitions.
Arguments BufferFrame : clear implicits.
Arguments BufferPool : clear implicits.

(** [main], at the times [now]: the file it leaves, the faults and the writes. *)
Definition pool_main (now : Z -> Z) (fs : Z -> option string) (contents : Z -> string)
    : res (BufferPool string) :=
  let pool := create_buffer_pool fs contents in
  '(page1, pool) ← get_page (now 0) pool 1;
  '(page5, pool) ← get_page (now 1) pool 5;
  '(page10, pool) ← get_page (now 2) pool 10;
  pool ← write_data pool page1 "Updated data for page 1"%string;
  pool ← mark_dirty pool page1;
  pool ← release_page pool page1;
  pool ← release_page pool page5;
  pool ← release_page pool page10;
  '(page2, pool) ← get_page (now 3) pool 2;
  '(page5, pool) ← get_page (now 4) pool 5;
  '(page15, pool) ← get_page (now 5) pool 15;
  pool ← write_data pool page2 "New data for page 2"%string;
  pool ← mark_dirty pool page2;
  pool ← release_page pool page2;
  pool ← release_page pool page5;
  pool ← release_page pool page15;
  destroy_buffer_pool pool.

(** ** The contents seen through the pool *)

Section view.
Context {C : Type}.
Implicit Types (pool : BufferPool C) (f : BufferFrame C).
#[local] Arguments for_ctl : simpl never.
#[local] Arguments for_range : simpl never.

Definition holds pool (page : Z) (c : C) : Prop :=
  exists i f, zget (frames pool) i = Some f /\ page_id f = page /\ data f = c.

Definition absent pool (page : Z) : Prop :=
  forall i f, zget (frames pool) i = Some f -> page_id f <> page.

(** The current contents of a page: in its frame, else in the file. *)
Definition view pool (page : Z) (c : C) : Prop :=
  holds pool page c \/ (absent pool page /\ file pool (page * PAGE_SIZE) = Some c).

(** A page is in one frame at most, and a clean frame agrees with the file. *)
Record pool_ok pool : Prop := {
  ok_frames : len (frames pool) = BUFFER_POOL_SIZE;
  ok_unique : forall i j f g, zget (frames pool) i = Some f -> zget (frames pool) j = Some g ->
    page_id f = page_id g -> page_id f <> -1 -> i = j;
  ok_clean : forall i f, zget (frames pool) i = Some f -> dirty f = false -> page_id f <> -1 ->
    file pool (page_id f * PAGE_SIZE) = Some (data f);
  ok_ids : forall i f, zget (frames pool) i = Some f ->
    (page_id f = -1 /\ dirty f = false) \/ 0 <= page_id f <= 500000;
  ok_counts : 0 <= page_faults pool /\ 0 <= disk_writes pool
}.

Lemma view_unique pool page c c' :
  pool_ok pool -> page <> -1 -> view pool page c -> view pool page c' -> c = c'.
Proof.
  intros Hok Hp [(i & f & Hi & Hf & <-)|[Ha Hc]] [(j & g & Hj & Hg & <-)|[Ha' Hc']].
  - assert (i = j) as -> by (eapply (ok_unique _ Hok); eauto; congruence). congruence.
  - by apply Ha' in Hi.
  - by apply Ha in Hj.
  - congruence.
Qed.

Lemma lru_ok pool :
  len (frames pool) = BUFFER_POOL_SIZE ->
  exists v, find_lru_page pool = Ok v /\ 0 <= v < BUFFER_POOL_SIZE /\
    (v <> 0 -> exists f, zget (frames pool) v = Some f /\ pin_count f = 0).
Proof.
  intros Hl. unfold find_lru_page. unfold BUFFER_POOL_SIZE in *.
  destruct (zget_range (frames pool) 0) as [f0 H0]; [lia|]. rewrite (arr_read_Ok _ _ _ H0), bind_ret_l.
  destruct (for_range_inv (fun i st => 0 <= st.1 < 10 /\
      (st.1 <> 0 -> exists f, zget (frames pool) st.1 = Some f /\ pin_count f = 0))
    (Z.to_nat (10 - 1)) 1 (lru_pass pool) (0, last_access f0)) as ([v t] & -> & Hv & Hp).
  - simpl. split; [lia|done].
  - intros i [v t] Hi [Hv Hp]. simpl in *. destruct (zget_range (frames pool) i) as [f Hf]; [lia|].
    rewrite (arr_read_Ok _ _ _ Hf). simpl. eexists. split; [done|].
    destruct ((pin_count f =? 0) && (last_access f <? t)) eqn:E; simpl; [|done].
    zbool. split; [lia|]. by exists f.
  - simpl in *. by exists v.
Qed.

Lemma find_ok pool page :
  len (frames pool) = BUFFER_POOL_SIZE ->
  exists c, for_ctl (Z.to_nat BUFFER_POOL_SIZE) 0 (find_pass pool page) tt = Ok c /\
    match c with
    | Return i => exists f, zget (frames pool) i = Some f /\ page_id f = page
    | Next _ => absent pool page
    end.
Proof.
  intros Hl.
  destruct (for_ctl_inv (fun i (_ : unit) => forall j f, j < i -> zget (frames pool) j = Some f -> page_id f <> page)
    (fun i => exists f, zget (frames pool) i = Some f /\ page_id f = page)
    (Z.to_nat BUFFER_POOL_SIZE) 0 (find_pass pool page) tt) as (c & Hc & Hr).
  - intros j f Hj H%zget_Some_range. lia.
  - intros i [] Hi Hprev. destruct (zget_range (frames pool) i) as [f Hf]; [unfold BUFFER_POOL_SIZE in *; lia|].
    unfold find_pass. rewrite (arr_read_Ok _ _ _ Hf). simpl.
    destruct (Z.eqb_spec (page_id f) page) as [E|E].
    + eexists. split; [done|]. by exists f.
    + eexists. split; [done|]. intros j g Hj Hg. destruct (decide (j = i)) as [->|]; [congruence|].
      apply (Hprev j); (done || lia).
  - exists c. split; [done|]. destruct c as [[]|i]; [|done]. intros j f Hf. apply (Hr j); [|done].
    apply zget_Some_range in Hf. unfold BUFFER_POOL_SIZE in *. lia.
Qed.

(** Evicting frame [v]: the file after a write-back of a dirty frame. *)
Lemma evict_ok pool v f :
  pool_ok pool -> zget (frames pool) v = Some f -> disk_writes pool < INT_MAX ->
  exists pool2, (if dirty f then p ← write_page pool (page_id f) (data f); add_write p else Ok pool) = Ok pool2 /\
    frames pool2 = frames pool /\ page_faults pool2 = page_faults pool /\ 0 <= disk_writes pool2 /\
    (page_id f <> -1 -> file pool2 (page_id f * PAGE_SIZE) = Some (data f)) /\
    (forall o, (page_id f = -1 \/ o <> page_id f * PAGE_SIZE) -> file pool2 o = file pool o).
Proof.
  intros Hok Hf Hw. destruct (ok_counts _ Hok). destruct (dirty f) eqn:Ed.
  - destruct (ok_ids _ Hok _ _ Hf) as [[_ ?]|Hid]; [congruence|].
    unfold write_page, PAGE_SIZE in *. rewrite imul_Ok by int_side. rewrite bind_ret_l.
    unfold add_write. simpl. rewrite iadd_Ok by int_side. simpl. eexists. split; [done|]. simpl.
    split_and!; try done; [lia| |].
    + intros _. by rewrite Z.eqb_refl.
    + intros o [?|Ho]; [lia|]. by destruct (Z.eqb_spec o (page_id f * 4096)).
  - exists pool. split_and!; try done. intros Hne. by apply (ok_clean _ Hok v).
Qed.

(** A hit changes only the pin count and the time of a frame. *)
Lemma touch_ok pool i f n t :
  pool_ok pool -> zget (frames pool) i = Some f ->
  let pool' := set_frames (zset (frames pool) i (mkFrame (page_id f) (data f) (dirty f) n t)) pool in
  pool_ok pool' /\ (forall q c, view pool q c <-> view pool' q c).
Proof.
  intros Hok Hf pool'. pose proof (zget_Some_range _ _ _ Hf) as Hi.
  set (f' := mkFrame (page_id f) (data f) (dirty f) n t) in *.
  assert (forall j g, zget (frames pool') j = Some g ->
    exists g0, zget (frames pool) j = Some g0 /\ page_id g = page_id g0 /\ data g = data g0 /\ dirty g = dirty g0)
    as Hback.
  { intros j g. simpl. destruct (decide (j = i)) as [->|].
    - rewrite zget_zset_eq by done. intros [= <-]. by exists f.
    - rewrite zget_zset_ne by done. by exists g. }
  assert (forall j g0, zget (frames pool) j = Some g0 ->
    exists g, zget (frames pool') j = Some g /\ page_id g = page_id g0 /\ data g = data g0) as Hfwd.
  { intros j g0 Hg. simpl. destruct (decide (j = i)) as [->|].
    - rewrite zget_zset_eq by done. rewrite Hf in Hg. injection Hg as <-. by exists f'.
    - rewrite zget_zset_ne by done. by exists g0. }
  split.
  - constructor.
    + simpl. rewrite length_zset. apply (ok_frames _ Hok).
    + intros a b g h Hg Hh E Hne. destruct (Hback _ _ Hg) as (g0 & Hg0 & E1 & _).
      destruct (Hback _ _ Hh) as (h0 & Hh0 & E2 & _).
      apply (ok_unique _ Hok a b g0 h0 Hg0 Hh0); congruence.
    + intros a g Hg Hd Hne. destruct (Hback _ _ Hg) as (g0 & Hg0 & E1 & E2 & E3).
      rewrite E1, E2. apply (ok_clean _ Hok a g0 Hg0); congruence.
    + intros a g Hg. destruct (Hback _ _ Hg) as (g0 & Hg0 & -> & _ & ->). by apply (ok_ids _ Hok a).
    + apply (ok_counts _ Hok).
  - intros q c. unfold view, holds, absent. split.
    + intros [(j & g & Hg & <- & <-)|[Ha Hc]].
      * left. destruct (Hfwd _ _ Hg) as (g' & ? & ? & ?). by exists j, g'.
      * right. split; [|done]. intros j g Hg. destruct (Hback _ _ Hg) as (g0 & ? & -> & _). by eapply Ha.
    + intros [(j & g & Hg & <- & <-)|[Ha Hc]].
      * left. destruct (Hback _ _ Hg) as (g' & ? & ? & ? & _). by exists j, g'.
      * right. split; [|done]. intros j g Hg. destruct (Hfwd _ _ Hg) as (g0 & ? & <- & _). by eapply Ha.
Qed.

(** Replacing frame [v], whose contents are in the file [fs'], by page [page]. *)
Lemma replace_ok pool pool2 v f page d now :
  pool_ok pool -> zget (frames pool) v = Some f -> absent pool page -> 0 <= page <= 500000 ->
  frames pool2 = frames pool -> 0 <= page_faults pool2 -> 0 <= disk_writes pool2 ->
  (page_id f <> -1 -> file pool2 (page_id f * PAGE_SIZE) = Some (data f)) ->
  (forall o, (page_id f = -1 \/ o <> page_id f * PAGE_SIZE) -> file pool2 o = file pool o) ->
  file pool (page * PAGE_SIZE) = Some d ->
  let pool' := set_frames (zset (frames pool) v (mkFrame page d false 1 now)) pool2 in
  pool_ok pool' /\ (forall q c, 0 <= q -> view pool q c <-> view pool' q c).
Proof.
  intros Hok Hf Habs Hpage Efr Hpf Hdw Hv Hsame Hd pool'. pose proof (zget_Some_range _ _ _ Hf) as Hi.
  assert (zget (frames pool') v = Some (mkFrame page d false 1 now)) as Hnew by (simpl; by apply zget_zset_eq).
  assert (forall j, j <> v -> zget (frames pool') j = zget (frames pool) j) as Hother
    by (intros j Hj; simpl; by apply zget_zset_ne).
  assert (page_id f <> page) as Hfp by by eapply Habs.
  assert (file pool2 (page * PAGE_SIZE) = Some d) as Hd2.
  { rewrite Hsame; [done|]. unfold PAGE_SIZE in *. lia. }
  assert (forall j g, j <> v -> zget (frames pool) j = Some g -> page_id g <> -1 -> page_id g <> page_id f) as Hdist.
  { intros j g Hj Hg Hne E. apply Hj. by apply (ok_unique _ Hok j v g f). }
  split.
  - constructor.
    + simpl. rewrite length_zset. apply (ok_frames _ Hok).
    + intros a b g h Hg Hh E Hne. destruct (decide (a = v)) as [->|Ha], (decide (b = v)) as [->|Hb]; [done|..].
      * rewrite Hnew in Hg. injection Hg as <-. rewrite Hother in Hh by done. by apply Habs in Hh.
      * rewrite Hnew in Hh. injection Hh as <-. rewrite Hother in Hg by done. by apply Habs in Hg.
      * rewrite Hother in Hg, Hh by done. by apply (ok_unique _ Hok a b g h).
    + intros a g Hg Hcl Hne. destruct (decide (a = v)) as [->|Ha].
      * rewrite Hnew in Hg. by injection Hg as <-.
      * rewrite Hother in Hg by done. simpl. rewrite Hsame; [by apply (ok_clean _ Hok a)|].
        right. pose proof (Hdist a g Ha Hg Hne). unfold PAGE_SIZE. lia.
    + intros a g Hg. destruct (decide (a = v)) as [->|Ha].
      * rewrite Hnew in Hg. injection Hg as <-. by right.
      * rewrite Hother in Hg by done. by apply (ok_ids _ Hok a).
    + done.
  - intros q c Hq. split.
    + intros [(j & g & Hg & <- & <-)|[Ha Hc]].
      * destruct (decide (j = v)) as [->|Hj].
        -- rewrite Hf in Hg. injection Hg as <-. right. split.
           ++ intros k h Hh. destruct (decide (k = v)) as [->|Hk].
              ** rewrite Hnew in Hh. by injection Hh as <-.
              ** rewrite Hother in Hh by done. intros E. apply Hk. by apply (ok_unique _ Hok k v h f); [..|lia].
           ++ simpl. apply Hv. lia.
        -- left. exists j, g. by rewrite Hother.
      * destruct (decide (q = page)) as [->|Hqp].
        -- left. exists v. eexists. split; [done|]. split; [done|]. simpl. congruence.
        -- right. split.
           ++ intros k h Hh. destruct (decide (k = v)) as [->|Hk].
              ** rewrite Hnew in Hh. injection Hh as <-. simpl. congruence.
              ** rewrite Hother in Hh by done. by eapply Ha.
           ++ simpl. rewrite Hsame; [done|]. right. pose proof (Ha _ _ Hf). unfold PAGE_SIZE. lia.
    + intros [(j & g & Hg & <- & <-)|[Ha Hc]].
      * destruct (decide (j = v)) as [->|Hj].
        -- rewrite Hnew in Hg. injection Hg as <-. right. by split.
        -- left. exists j, g. by rewrite <- Hother.
      * simpl in Hc. destruct (decide (q = page_id f)) as [->|Hqf].
        -- left. exists v, f. split_and!; [done..|]. rewrite Hv in Hc by lia. by injection Hc.
        -- right. split.
           ++ intros k h Hh. destruct (decide (k = v)) as [->|Hk]; [congruence|].
              apply (Ha k). by rewrite Hother.
           ++ rewrite <- Hsame; [done|]. unfold PAGE_SIZE. lia.
Qed.
End view.

(** C30.  The pool is transparent: fetching a page returns a frame with the
    page's current contents, keeps every page in at most one frame and every
    clean frame equal to the file, and changes the contents of no page, whether
    it is cached, evicted (a dirty victim reaches the file) or only in the
    file. *)
Theorem get_page_transparent {C} now (pool : BufferPool C) page :
  pool_ok pool -> 0 <= page <= 500000 ->
  page_faults pool < INT_MAX -> disk_writes pool < INT_MAX ->
  (forall i f, zget (frames pool) i = Some f -> 0 <= pin_count f < INT_MAX) ->
  (absent pool page -> is_Some (file pool (page * PAGE_SIZE))) ->
  exists i pool' f, get_page now pool page = Ok (i, pool') /\ pool_ok pool' /\
    zget (frames pool') i = Some f /\ page_id f = page /\ view pool page (data f) /\
    (forall q c, 0 <= q -> view pool q c <-> view pool' q c).
Proof.
  intros Hok Hpage Hpf Hdw Hpins Hfile. unfold get_page. pose proof (ok_frames _ Hok) as Hl.
  destruct (find_ok pool page Hl) as (c & -> & Hc). rewrite bind_ret_l. destruct c as [[]|i].
  - unfold add_fault. destruct (ok_counts _ Hok) as [? ?]. rewrite iadd_Ok by int_side. cbn [mbind res_bind].
    set (pool1 := mkPool (frames pool) (file pool) (page_faults pool + 1) (disk_writes pool)).
    destruct (lru_ok pool1 Hl) as (v & -> & Hv & _). rewrite bind_ret_l.
    destruct (zget_range (frames pool) v) as [f Hf]; [lia|]. rewrite (arr_read_Ok (frames pool1) _ _ Hf), bind_ret_l.
    assert (pool_ok pool1) as Hok1 by (destruct Hok; constructor; simpl; try done; lia).
    destruct (evict_ok pool1 v f Hok1 Hf Hdw) as (pool2 & -> & Efr & Epf & Hdw2 & Hvf & Hsame). rewrite bind_ret_l.
    destruct (Hfile Hc) as [d Hd]. pose proof (Hc _ _ Hf) as Hfp.
    unfold read_page, PAGE_SIZE in *. rewrite imul_Ok by int_side. cbn [mbind res_bind].
    rewrite Hsame by lia. simpl file. rewrite Hd. simpl default.
    rewrite Efr, arr_write_Ok by (simpl; lia). rewrite bind_ret_l.
    destruct (replace_ok pool pool2 v f page d now) as [Hok' Hview]; try done; [rewrite Epf; simpl; lia|].
    exists v. do 2 eexists. split; [done|]. split; [exact Hok'|].
    split; [simpl; apply zget_zset_eq; lia|]. split; [done|]. split; [|exact Hview].
    right. by split.
  - destruct Hc as (f & Hf & Hid). rewrite (arr_read_Ok _ _ _ Hf), bind_ret_l.
    pose proof (Hpins _ _ Hf). rewrite iadd_Ok by int_side. rewrite bind_ret_l.
    pose proof (zget_Some_range _ _ _ Hf). rewrite arr_write_Ok by lia. rewrite bind_ret_l.
    destruct (touch_ok pool i f (pin_count f + 1) now Hok Hf) as [Hok' Hview].
    exists i. do 2 eexists. split; [done|]. split; [exact Hok'|].
    split; [simpl; apply zget_zset_eq; lia|]. split; [done|]. split; [|intros q c _; apply Hview].
    left. by exists i, f.
Qed.

(** The victim search starts from frame 0 without looking at its pin
    count: with every frame in use, fetching another page evicts the page of
    frame 0 under the client that holds it. *)
Lemma pinned_frame_evicted {C} now (pool : BufferPool C) page f0 :
  pool_ok pool -> 0 <= page <= 500000 -> absent pool page ->
  page_faults pool < INT_MAX -> disk_writes pool < INT_MAX ->
  (forall i f, zget (frames pool) i = Some f -> 0 < pin_count f) ->
  zget (frames pool) 0 = Some f0 ->
  exists pool' f', get_page now pool page = Ok (0, pool') /\
    zget (frames pool') 0 = Some f' /\ page_id f' = page /\ page_id f' <> page_id f0.
Proof.
  intros Hok Hpage Habs Hpf Hdw Hpins H0. unfold get_page. pose proof (ok_frames _ Hok) as Hl.
  destruct (find_ok pool page Hl) as (c & -> & Hc). rewrite bind_ret_l. destruct c as [[]|i].
  2:{ destruct Hc as (f & Hf & Hid). by apply Habs in Hf. }
  unfold add_fault. destruct (ok_counts _ Hok) as [? ?]. rewrite iadd_Ok by int_side. cbn [mbind res_bind].
  set (pool1 := mkPool (frames pool) (file pool) (page_faults pool + 1) (disk_writes pool)).
  destruct (lru_ok pool1 Hl) as (v & -> & Hv & Hvp). rewrite bind_ret_l.
  assert (v = 0) as ->.
  { destruct (decide (v = 0)) as [|Hne]; [done|]. destruct (Hvp Hne) as (f & Hf & Hz).
    apply Hpins in Hf. lia. }
  rewrite (arr_read_Ok (frames pool1) _ _ H0), bind_ret_l.
  assert (pool_ok pool1) as Hok1 by (destruct Hok; constructor; simpl; try done; lia).
  destruct (evict_ok pool1 0 f0 Hok1 H0 Hdw) as (pool2 & -> & Efr & _). rewrite bind_ret_l.
  unfold read_page, PAGE_SIZE in *. rewrite imul_Ok by int_side. cbn [mbind res_bind].
  rewrite Efr, arr_write_Ok by (simpl; lia). rewrite bind_ret_l.
  do 2 eexists. split; [done|]. split; [simpl; apply zget_zset_eq; lia|]. split; [done|].
  simpl. intros E. by apply (Habs _ _ H0).
Qed.

Definition sample_pool : BufferPool Z :=
  mkPool (mkFrame 1 10 true 1 5 :: ((fun i => mkFrame (i + 1) (10 * (i + 1)) false 1 9) <$> seqZ 1 9))
    (fun o => Some (if o =? 4096 then 99 else 10 * (o / 4096))) 0 0.

Lemma sample_pool_ok : pool_ok sample_pool.
Proof.
  assert (forall i f, zget (frames sample_pool) i = Some f ->
    page_id f = i + 1 /\ data f = 10 * (i + 1) /\ (dirty f = false -> i <> 0) /\ 0 <= i < 10 /\ pin_count f = 1)
    as Hall.
  { intros i f Hf. pose proof (zget_Some_range _ _ _ Hf) as Hr. change (len (frames sample_pool)) with 10 in Hr.
    assert (i = 0 \/ i = 1 \/ i = 2 \/ i = 3 \/ i = 4 \/ i = 5 \/ i = 6 \/ i = 7 \/ i = 8 \/ i = 9) as Hc by lia.
    repeat destruct Hc as [->|Hc]; subst; injection Hf as <-; simpl; split_and!; (done || lia). }
  constructor; simpl.
  - done.
  - intros i j f g Hf Hg E _. destruct (Hall i f Hf) as (? & _), (Hall j g Hg) as (? & _). lia.
  - intros i f Hf Hd _. destruct (Hall i f Hf) as (-> & -> & Hi & Hr & _). specialize (Hi Hd).
    unfold PAGE_SIZE. destruct (Z.eqb_spec ((i + 1) * 4096) 4096); [lia|].
    rewrite Z.div_mul by lia. done.
  - intros i f Hf. destruct (Hall i f Hf) as (-> & _ & _ & Hr & _). lia.
  - done.
Qed.

Lemma sample_pool_pins : forall i f, zget (frames sample_pool) i = Some f -> pin_count f = 1.
Proof.
  intros i f Hf. apply (Forall_zget (fun f => pin_count f = 1) (frames sample_pool) i); [|done].
  repeat constructor.
Qed.

Lemma sample_pool_absent : absent sample_pool 20.
Proof.
  intros i f Hf. apply (Forall_zget (fun f => page_id f <> 20) (frames sample_pool) i); [|done].
  by repeat constructor.
Qed.

Lemma get_page_transparent_witness :
  exists i pool' f, get_page 7 sample_pool 20 = Ok (i, pool') /\ pool_ok pool' /\
    zget (frames pool') i = Some f /\ page_id f = 20 /\ view sample_pool 20 (data f) /\
    (forall q c, 0 <= q -> view sample_pool q c <-> view pool' q c).
Proof.
  apply (get_page_transparent 7 sample_pool 20 sample_pool_ok);
    [split; discriminate|reflexivity|reflexivity| |].
  - intros i f Hf. rewrite (sample_pool_pins i f Hf). split; [discriminate|reflexivity].
  - intros _. eexists. reflexivity.
Defined.

Lemma pinned_frame_evicted_witness :
  exists pool' f', get_page 7 sample_pool 20 = Ok (0, pool') /\
    zget (frames pool') 0 = Some f' /\ page_id f' = 20 /\ page_id f' <> 1.
Proof.
  apply (pinned_frame_evicted 7 sample_pool 20 (mkFrame 1 10 true 1 5) sample_pool_ok);
    [split; discriminate|exact sample_pool_absent|reflexivity|reflexivity| |reflexivity].
  intros i f Hf. rewrite (sample_pool_pins i f Hf). reflexivity.
Defined.
