(* ===== verification/ProcessorSim.v ===== *)
(** * A register machine with an ALU ([unix/processor_sim.c])

    32-bit registers are [Z] in range; every instruction word is decoded into
    an ALU operation.  A shift by 32 or more is a fault. *)
From Stdlib Require Import ZArith Lia.
From stdpp Require Import base tactics list numbers option.
From S2P Require Import Prelude.

#[local] Open Scope Z_scope.
#[local] Open Scope c_scope.

Definition RAM_SIZE : Z := 1024.
Definition REG_COUNT : Z := 64.

Inductive InstructionType : Type :=
| INST_ALU | INST_LOAD | INST_STORE | INST_BRANCH | INST_MULTIPLY.

(** [alu_op] is a three-bit number; 7 is none of the operations. *)
Inductive AluOperation : Type :=
| ALU_ADD | ALU_SUB | ALU_AND | ALU_OR | ALU_XOR | ALU_SHL | ALU_SHR | ALU_NONE.

Definition alu_of (z : Z) : AluOperation :=
  match z with
  | 0 => ALU_ADD | 1 => ALU_SUB | 2 => ALU_AND | 3 => ALU_OR | 4 => ALU_XOR
  | 5 => ALU_SHL | 6 => ALU_SHR | _ => ALU_NONE
  end.

Record Flags : Type := mkFlags { zero : bool; carry : bool; negative : bool; overflow : bool }.

Record ProcessorState : Type := mkProc {
  registers : list Z;
  ram : list Z;
  pc : Z;
  flags : Flags;
  instruction_register : Z
}.

Record Instruction : Type := mkInst {
  type : InstructionType;
  alu_op : AluOperation;
  rd : Z;
  rs1 : Z;
  rs2 : Z;
  immediate : Z
}.

Definition initialize_processor : ProcessorState :=
  mkProc (replicate 64 0) (replicate 1024 0) 0 (mkFlags false false false false) 0.

(** The result and the new flags; [carry] and [overflow] are kept where the
    operation does not set them. *)
Definition perform_alu_operation (a b : Z) (op : AluOperation) (f : Flags) : res (Z * Flags) :=
  '(result, c) ←
    match op with
    | ALU_ADD => let r := u32 (a + b) in Ok (r, r <? a)
    | ALU_SUB => Ok (u32 (a - b), a <? b)
    | ALU_AND => Ok (Z.land a b, carry f)
    | ALU_OR => Ok (Z.lor a b, carry f)
    | ALU_XOR => Ok (Z.lxor a b, carry f)
    | ALU_SHL => if b <? 32 then Ok (u32 (Z.shiftl a b), carry f) else Fault BadShift
    | ALU_SHR => if b <? 32 then Ok (Z.shiftr a b, carry f) else Fault BadShift
    | ALU_NONE => Ok (0, carry f)
    end;
  Ok (result, mkFlags (result =? 0) c (negb (Z.land result 2147483648 =? 0)) (overflow f)).

Definition execute_alu_operation (st : ProcessorState) (inst : Instruction) : res ProcessorState :=
  op1 ← (registers st).[rs1 inst];
  op2 ← (if rs2 inst <? REG_COUNT then (registers st).[rs2 inst] else Ok (immediate inst));
  '(result, f) ← perform_alu_operation op1 op2 (alu_op inst) (flags st);
  regs ← (registers st).[rd inst <- result];
  Ok (mkProc regs (ram st) (pc st) f (instruction_register st)).

Definition decode_instruction (encoded_inst : Z) : Instruction :=
  mkInst INST_ALU
    (alu_of (Z.land (Z.shiftr encoded_inst 26) 7))
    (Z.land (Z.shiftr encoded_inst 21) 31)
    (Z.land (Z.shiftr encoded_inst 16) 31)
    (Z.land (Z.shiftr encoded_inst 11) 31)
    (Z.land encoded_inst 2047).

Definition execute_instruction (st : ProcessorState) (inst : Instruction) : res ProcessorState :=
  match type inst with
  | INST_ALU => execute_alu_operation st inst
  | _ => Ok st
  end.

(** The registers [print_processor_state] lists: index and value. *)
Definition print_processor_state (st : ProcessorState) : res (Z * Flags * list (Z * Z)) :=
  l ← for_range 7 1
        (fun i l => r ← (registers st).[i]; Ok (if negb (r =? 0) then l ++ [(i, r)] else l)) [];
  Ok (pc st, flags st, l).

Definition sample_program : list Z :=
  [0x00001820; 0x00002022; 0x00002824; 0x00003026; 0x00003828].

(** One pass of the loop of [main]. *)
Definition step (st : ProcessorState) (word : Z) : res ProcessorState :=
  let st1 := mkProc (registers st) (ram st) (pc st) (flags st) word in
  st2 ← execute_instruction st1 (decode_instruction word);
  Ok (mkProc (registers st2) (ram st2) (u32 (pc st2 + 4)) (flags st2) (instruction_register st2)).

Fixpoint run_program (l : list Z) (st : ProcessorState) : res ProcessorState :=
  match l with
  | [] => Ok st
  | w :: l' => st' ← step st w; run_program l' st'
  end.

Definition processor_main : res ProcessorState :=
  let st := initialize_processor in
  regs ← (registers st).[1 <- 10];
  regs ← regs.[2 <- 5];
  run_program sample_program (mkProc regs (ram st) (pc st) (flags st) (instruction_register st)).

(** ** Specification *)

(** The exact result of an operation on unsigned words; [None] where C gives
    the shift no meaning. *)
Definition alu_spec (a b : Z) (op : AluOperation) : option Z :=
  match op with
  | ALU_ADD => Some ((a + b) mod 2 ^ 32)
  | ALU_SUB => Some ((a - b) mod 2 ^ 32)
  | ALU_AND => Some (Z.land a b)
  | ALU_OR => Some (Z.lor a b)
  | ALU_XOR => Some (Z.lxor a b)
  | ALU_SHL => if b <? 32 then Some ((a * 2 ^ b) mod 2 ^ 32) else None
  | ALU_SHR => if b <? 32 then Some (a / 2 ^ b) else None
  | ALU_NONE => Some 0
  end.

(** Carry out of an addition, borrow of a subtraction. *)
Definition carry_spec (a b : Z) (op : AluOperation) (old : bool) : bool :=
  match op with
  | ALU_ADD => 2 ^ 32 <=? a + b
  | ALU_SUB => a - b <? 0
  | _ => old
  end.

Definition word (z : Z) : Prop := 0 <= z < 2 ^ 32.

Definition proc_ok (st : ProcessorState) : Prop :=
  len (registers st) = REG_COUNT /\ Forall word (registers st) /\ word (pc st).

(** The instruction word with the given fields. *)
Definition encode (op rd rs1 rs2 imm : Z) : Z :=
  Z.lor (Z.shiftl op 26) (Z.lor (Z.shiftl rd 21)
    (Z.lor (Z.shiftl rs1 16) (Z.lor (Z.shiftl rs2 11) imm))).

Section proofs.

Lemma bitop_bound (f : Z -> Z -> Z) (g : bool -> bool -> bool) a b n :
  0 <= n -> g false false = false ->
  (forall x y i, 0 <= i -> Z.testbit (f x y) i = g (Z.testbit x i) (Z.testbit y i)) ->
  0 <= f a b -> 0 <= a < 2 ^ n -> 0 <= b < 2 ^ n -> f a b < 2 ^ n.
Proof.
  intros Hn Hg Hf Hpos Ha Hb. destruct (decide (f a b = 0)) as [->|Hne]; [lia|].
  apply Z.log2_lt_pow2; [lia|].
  destruct (Z.lt_ge_cases (Z.log2 (f a b)) n) as [|Hge]; [done|].
  pose proof (Z.bit_log2 (f a b) ltac:(lia)) as Hbit. rewrite Hf in Hbit by lia.
  assert (forall x, 0 <= x < 2 ^ n -> Z.testbit x (Z.log2 (f a b)) = false) as Hz.
  { intros x Hx. destruct (decide (x = 0)) as [->|]; [apply Z.bits_0|].
    apply Z.bits_above_log2; [lia|]. apply Z.lt_le_trans with n; [|done]. apply Z.log2_lt_pow2; lia. }
  by rewrite !Hz, Hg in Hbit.
Qed.

Lemma land_word a b : word a -> word b -> word (Z.land a b).
Proof.
  intros Ha Hb. unfold word in *. assert (0 <= Z.land a b) by (apply Z.land_nonneg; lia).
  split; [done|]. apply (bitop_bound Z.land andb); try done. intros. apply Z.land_spec.
Qed.
Lemma lor_word a b : word a -> word b -> word (Z.lor a b).
Proof.
  intros Ha Hb. unfold word in *. assert (0 <= Z.lor a b) by (apply Z.lor_nonneg; lia).
  split; [done|]. apply (bitop_bound Z.lor orb); try done. intros. apply Z.lor_spec.
Qed.
Lemma lxor_word a b : word a -> word b -> word (Z.lxor a b).
Proof.
  intros Ha Hb. unfold word in *. assert (0 <= Z.lxor a b) by (apply Z.lxor_nonneg; lia).
  split; [done|]. apply (bitop_bound Z.lxor xorb); try done. intros. apply Z.lxor_spec.
Qed.

Lemma alu_spec_word a b op r : word a -> word b -> alu_spec a b op = Some r -> word r.
Proof.
  intros Ha Hb. destruct op; simpl; intros H.
  - injection H as <-. by apply Z.mod_pos_bound.
  - injection H as <-. by apply Z.mod_pos_bound.
  - injection H as <-. by apply land_word.
  - injection H as <-. by apply lor_word.
  - injection H as <-. by apply lxor_word.
  - destruct (b <? 32); [|done]. injection H as <-. by apply Z.mod_pos_bound.
  - destruct (b <? 32); [|done]. injection H as <-. unfold word in *.
    assert (0 < 2 ^ b) by (apply Z.pow_pos_nonneg; lia). split; [apply Z.div_pos; lia|].
    apply Z.le_lt_trans with a; [|lia]. apply Z.div_le_upper_bound; nia.
  - by injection H as <-.
Qed.

Lemma sign_bit r : word r -> negb (Z.land r 2147483648 =? 0) = (2 ^ 31 <=? r).
Proof.
  intros Hr. unfold word in Hr. change 2147483648 with (2 ^ 31).
  assert (Z.land r (2 ^ 31) = if Z.testbit r 31 then 2 ^ 31 else 0) as ->.
  { apply Z.bits_inj'. intros n Hn. rewrite Z.land_spec, Z.pow2_bits_eqb by lia.
    destruct (Z.eqb_spec 31 n) as [<-|Hne].
    - destruct (Z.testbit r 31); [by rewrite Z.pow2_bits_true|done].
    - rewrite andb_false_r. destruct (Z.testbit r 31); [|by rewrite Z.bits_0].
      by rewrite Z.pow2_bits_false by lia. }
  rewrite Z.testbit_eqb by lia.
  change (2 ^ 31) with 2147483648 in *. change (2 ^ 32) with 4294967296 in *.
  destruct (Z.leb_spec 2147483648 r).
  - replace (r / 2147483648) with 1 by dlia. done.
  - rewrite Z.div_small by lia. done.
Qed.

Lemma alu_ok a b op f :
  word a -> word b ->
  perform_alu_operation a b op f =
    match alu_spec a b op with
    | Some r => Ok (r, mkFlags (r =? 0) (carry_spec a b op (carry f)) (2 ^ 31 <=? r) (overflow f))
    | None => Fault BadShift
    end.
Proof.
  intros Ha Hb. unfold perform_alu_operation.
  assert (forall r c, alu_spec a b op = Some r -> c = carry_spec a b op (carry f) ->
    Ok (r, mkFlags (r =? 0) c (negb (Z.land r 2147483648 =? 0)) (overflow f)) =
    Ok (r, mkFlags (r =? 0) (carry_spec a b op (carry f)) (2 ^ 31 <=? r) (overflow f))) as Hfin.
  { intros r c Hr ->. by rewrite (sign_bit r (alu_spec_word _ _ _ _ Ha Hb Hr)). }
  unfold word in *. change (2 ^ 32) with 4294967296 in *.
  destruct op; cbn [mbind res_bind alu_spec carry_spec] in *; try by apply Hfin.
  - apply Hfin; [done|]. unfold u32, UINT32. change (2 ^ 32) with 4294967296.
    destruct (Z.leb_spec 4294967296 (a + b)).
    + apply Z.ltb_lt. dlia.
    + apply Z.ltb_ge. rewrite Z.mod_small; lia.
  - apply Hfin; [done|]. destruct (Z.ltb_spec a b), (Z.ltb_spec (a - b) 0); (done || lia).
  - destruct (Z.ltb_spec b 32); [|done]. cbn [mbind res_bind].
    unfold u32, UINT32. rewrite Z.shiftl_mul_pow2 by lia. by apply Hfin.
  - destruct (Z.ltb_spec b 32); [|done]. cbn [mbind res_bind].
    rewrite Z.shiftr_div_pow2 by lia. by apply Hfin.
Qed.

Lemma field_range w k n : 0 <= n -> 0 <= Z.land (Z.shiftr w k) (Z.ones n) < 2 ^ n.
Proof. intros Hn. rewrite Z.land_ones by done. apply Z.mod_pos_bound. by apply Z.pow_pos_nonneg. Qed.

Lemma decode_fields w :
  0 <= rd (decode_instruction w) < 32 /\ 0 <= rs1 (decode_instruction w) < 32 /\
  0 <= rs2 (decode_instruction w) < 32.
Proof.
  unfold decode_instruction. simpl. change 31 with (Z.ones 5).
  split_and!; apply (field_range _ _ 5); done.
Qed.

Lemma execute_alu_ok st i a b :
  proc_ok st -> type i = INST_ALU -> 0 <= rd i < 32 -> 0 <= rs2 i < 32 ->
  zget (registers st) (rs1 i) = Some a -> zget (registers st) (rs2 i) = Some b ->
  execute_instruction st i =
    match alu_spec a b (alu_op i) with
    | Some r => Ok (mkProc (zset (registers st) (rd i) r) (ram st) (pc st)
        (mkFlags (r =? 0) (carry_spec a b (alu_op i) (carry (flags st))) (2 ^ 31 <=? r) (overflow (flags st)))
        (instruction_register st))
    | None => Fault BadShift
    end.
Proof.
  intros (Hl & Hw & Hpc) Ht Hrd Hrs2 Ha Hb. unfold execute_instruction. rewrite Ht.
  unfold execute_alu_operation. rewrite (arr_read_Ok _ _ _ Ha), bind_ret_l.
  destruct (Z.ltb_spec (rs2 i) REG_COUNT); [|unfold REG_COUNT in *; lia].
  rewrite (arr_read_Ok _ _ _ Hb), bind_ret_l.
  rewrite alu_ok by (eapply (Forall_zget word); done).
  destruct (alu_spec a b (alu_op i)) as [r|]; [|done]. cbn [mbind res_bind].
  by rewrite arr_write_Ok by (unfold REG_COUNT in *; lia).
Qed.
End proofs.

(** One step of the machine on any instruction word: the destination
    register gets the exact 32-bit result of the operation, [carry] is the carry
    out of an addition or the borrow of a subtraction, [zero] and [negative]
    describe the result, [pc] advances by four and nothing else changes; the
    only fault is a shift by 32 or more.  Registers stay 32-bit words. *)
Theorem processor_step_spec st w :
  proc_ok st ->
  exists a b, zget (registers st) (rs1 (decode_instruction w)) = Some a /\
    zget (registers st) (rs2 (decode_instruction w)) = Some b /\
    match alu_spec a b (alu_op (decode_instruction w)) with
    | Some r =>
        exists st', step st w = Ok st' /\ proc_ok st' /\
          registers st' = zset (registers st) (rd (decode_instruction w)) r /\
          flags st' = mkFlags (r =? 0) (carry_spec a b (alu_op (decode_instruction w)) (carry (flags st)))
                        (2 ^ 31 <=? r) (overflow (flags st)) /\
          pc st' = (pc st + 4) mod 2 ^ 32 /\ ram st' = ram st
    | None => step st w = Fault BadShift
    end.
Proof.
  intros Hok. pose proof Hok as (Hl & Hw & Hpc). destruct (decode_fields w) as (Hrd & Hrs1 & Hrs2).
  destruct (zget_range (registers st) (rs1 (decode_instruction w))) as [a Ha]; [unfold REG_COUNT in *; lia|].
  destruct (zget_range (registers st) (rs2 (decode_instruction w))) as [b Hb]; [unfold REG_COUNT in *; lia|].
  exists a, b. split_and!; [done..|]. unfold step.
  rewrite (execute_alu_ok (mkProc (registers st) (ram st) (pc st) (flags st) w) _ a b) by done.
  destruct (alu_spec a b (alu_op (decode_instruction w))) as [r|] eqn:Er; [|done].
  rewrite bind_ret_l. eexists. split; [done|]. split_and!; try done. split_and!; simpl.
  - by rewrite length_zset.
  - assert (word r) as Hr by (eapply alu_spec_word; [..|exact Er]; eapply (Forall_zget word); done).
    unfold zset. case_cond; [|done]. by apply Forall_insert.
  - by apply Z.mod_pos_bound.
Qed.

(** Decoding recovers the fields of an encoded instruction. *)
Theorem decode_encode op rd' rs1' rs2' imm :
  0 <= op < 8 -> 0 <= rd' < 32 -> 0 <= rs1' < 32 -> 0 <= rs2' < 32 -> 0 <= imm < 2048 ->
  decode_instruction (encode op rd' rs1' rs2' imm) =
    mkInst INST_ALU (alu_of op) rd' rs1' rs2' imm.
Proof.
  intros Hop Hrd Hrs1 Hrs2 Himm.
  assert (encode op rd' rs1' rs2' imm =
    op * 2 ^ 26 + (rd' * 2 ^ 21 + (rs1' * 2 ^ 16 + (rs2' * 2 ^ 11 + imm)))) as ->.
  { unfold encode. rewrite (lor_shifted rs2') by lia. rewrite (lor_shifted rs1') by lia.
    rewrite (lor_shifted rd') by lia. by rewrite (lor_shifted op) by lia. }
  unfold decode_instruction. f_equal; [f_equal|..].
  - rewrite <- (field_extract 0 op (rd' * 2 ^ 21 + (rs1' * 2 ^ 16 + (rs2' * 2 ^ 11 + imm))) 26 3) at 2 by lia.
    by do 2 f_equal; lia.
  - rewrite <- (field_extract op rd' (rs1' * 2 ^ 16 + (rs2' * 2 ^ 11 + imm)) 21 5) at 2 by lia.
    by do 2 f_equal; lia.
  - rewrite <- (field_extract (op * 2 ^ 5 + rd') rs1' (rs2' * 2 ^ 11 + imm) 16 5) at 2 by lia.
    by do 2 f_equal; lia.
  - rewrite <- (field_extract ((op * 2 ^ 5 + rd') * 2 ^ 5 + rs1') rs2' imm 11 5) at 2 by lia.
    by do 2 f_equal; lia.
  - change 2047 with (Z.ones 11). rewrite Z.land_ones by done.
    replace (op * 2 ^ 26 + (rd' * 2 ^ 21 + (rs1' * 2 ^ 16 + (rs2' * 2 ^ 11 + imm))))
      with (imm + (op * 2 ^ 15 + (rd' * 2 ^ 10 + (rs1' * 2 ^ 5 + rs2'))) * 2 ^ 11) by lia.
    rewrite Z.mod_add by done. by apply Z.mod_small.
Qed.

(** The words of the sample program do not encode what their comments say:
    0x00001820 is "ADD R0, R0, R3", not "ADD R3, R1, R2". *)
Lemma sample_program_decodes :
  decode_instruction <$> sample_program =
  [mkInst INST_ALU ALU_ADD 0 0 3 32; mkInst INST_ALU ALU_ADD 0 0 4 34; mkInst INST_ALU ALU_ADD 0 0 5 36;
   mkInst INST_ALU ALU_ADD 0 0 6 38; mkInst INST_ALU ALU_ADD 0 0 7 40].
Proof. reflexivity. Qed.

(** So the sample program changes no register. *)
Lemma processor_main_registers :
  (fun st => take 8 (registers st)) <$> match processor_main with Ok st => Some st | Fault _ => None end =
  Some [0; 10; 5; 0; 0; 0; 0; 0].
Proof. reflexivity. Qed.

Definition demo_state : ProcessorState :=
  mkProc ([0; 10; 2 ^ 32 - 1] ++ replicate 61 7) (replicate 1024 0) 0 (mkFlags false false false false) 0.

Lemma processor_step_spec_witness :
  exists a b, zget (registers demo_state) (rs1 (decode_instruction (encode 0 3 1 2 0))) = Some a /\
    zget (registers demo_state) (rs2 (decode_instruction (encode 0 3 1 2 0))) = Some b /\
    match alu_spec a b (alu_op (decode_instruction (encode 0 3 1 2 0))) with
    | Some r =>
        exists st', step demo_state (encode 0 3 1 2 0) = Ok st' /\ proc_ok st' /\
          registers st' = zset (registers demo_state) (rd (decode_instruction (encode 0 3 1 2 0))) r /\
          flags st' = mkFlags (r =? 0)
            (carry_spec a b (alu_op (decode_instruction (encode 0 3 1 2 0))) (carry (flags demo_state)))
            (2 ^ 31 <=? r) (overflow (flags demo_state)) /\
          pc st' = (pc demo_state + 4) mod 2 ^ 32 /\ ram st' = ram demo_state
    | None => step demo_state (encode 0 3 1 2 0) = Fault BadShift
    end.
Proof.
  apply (processor_step_spec demo_state (encode 0 3 1 2 0)). split; [reflexivity|]. split.
  - repeat constructor; vm_compute; discriminate.
  - split; vm_compute; [discriminate|reflexivity].
Defined.

Lemma decode_encode_witness :
  decode_instruction (encode 1 4 1 2 5) = mkInst INST_ALU (alu_of 1) 4 1 2 5.
Proof. apply (decode_encode 1 4 1 2 5); split; vm_compute; (discriminate || reflexivity). Defined.
