(* ===== verification/CpuPipeline.v ===== *)
(** * A five-stage pipeline ([os/cpu/cpu.c])

    The stages advance once per cycle: write back, shift, fetch, execute.  The
    main theorem relates the registers after [c] cycles to a machine that runs
    one instruction after the other. *)
From Stdlib Require Import ZArith Lia.
From stdpp Require Import base tactics list numbers option.
From S2P Require Import Prelude.

#[local] Open Scope Z_scope.
#[local] Open Scope c_scope.

Definition MEMORY_SIZE : Z := 1024.
Definition NUM_REGISTERS : Z := 16.
Definition PIPELINE_STAGES : Z := 5.

(** Opcodes are bytes; [executeStage] knows only [ADD]. *)
Definition ADD : Z := 0.

Record Instruction : Type := mkInstr {
  opcode : Z;
  rd : Z;
  rs : Z;
  rt : Z;
  immediate : Z
}.

Record PipelineStage : Type := mkStage {
  spc : Z;
  inst : Instruction;
  result : Z;
  valid : bool
}.

Record CPUState : Type := mkCPU {
  programCounter : Z;
  registers : list Z;
  memory : list Z;
  pipeline : list PipelineStage
}.

Definition no_inst : Instruction := mkInstr 0 0 0 0 0.
Definition no_stage : PipelineStage := mkStage 0 no_inst 0 false.

(** [cpu_alloc] and [mem_alloc] say whether the two calls of [malloc] succeed. *)
Definition initCPU (cpu_alloc mem_alloc : bool) : option CPUState :=
  if negb cpu_alloc then None
  else if negb mem_alloc then None
  else Some (mkCPU 0 (replicate 16 0) (replicate 1024 0) (replicate 5 no_stage)).

(** [byte << 24] is a shift of an [int]: a byte of 128 or more overflows. *)
Definition fetchStage (cpu : CPUState) : res CPUState :=
  let pc := programCounter cpu in
  if MEMORY_SIZE - 3 <=? pc then Ok cpu
  else
    b0 ← (memory cpu).[pc];
    b1 ← (memory cpu).[u32 (pc + 1)];
    b2 ← (memory cpu).[u32 (pc + 2)];
    b3 ← (memory cpu).[u32 (pc + 3)];
    w0 ← int_of (Z.shiftl b0 24);
    w1 ← int_of (Z.shiftl b1 16);
    w2 ← int_of (Z.shiftl b2 8);
    let instruction := u32 (Z.lor (Z.lor (Z.lor w0 w1) w2) b3) in
    s ← (pipeline cpu).[0];
    p ← (pipeline cpu).[0 <-
      mkStage pc
        (mkInstr (Z.land (Z.shiftr instruction 24) 255) (Z.land (Z.shiftr instruction 16) 255)
           (Z.land (Z.shiftr instruction 8) 255) (Z.land instruction 255) (immediate (inst s)))
        (result s) true];
    Ok (mkCPU (u32 (pc + 4)) (registers cpu) (memory cpu) p).

Definition executeStage (cpu : CPUState) : res CPUState :=
  s ← (pipeline cpu).[2];
  if negb (valid s) then Ok cpu
  else
    r ← (if opcode (inst s) =? ADD then
           a ← (registers cpu).[rs (inst s)];
           b ← (registers cpu).[rt (inst s)];
           Ok (u32 (a + b))
         else Ok 0);
    p ← (pipeline cpu).[2 <- mkStage (spc s) (inst s) r (valid s)];
    Ok (mkCPU (programCounter cpu) (registers cpu) (memory cpu) p).

Definition writebackStage (cpu : CPUState) : res CPUState :=
  s ← (pipeline cpu).[4];
  if negb (valid s) then Ok cpu
  else if opcode (inst s) =? ADD then
    regs ← (registers cpu).[rd (inst s) <- result s];
    Ok (mkCPU (programCounter cpu) regs (memory cpu) (pipeline cpu))
  else Ok cpu.

(** [for (i = PIPELINE_STAGES - 1; i > 0; i--) pipeline[i] = pipeline[i-1]]. *)
Definition shift_stages (p : list PipelineStage) : res (list PipelineStage) :=
  for_range 4 0
    (fun k p => let i := PIPELINE_STAGES - 1 - k in s ← p.[i - 1]; p.[i <- s]) p.

Definition pipelineCycle (cpu : CPUState) : res CPUState :=
  cpu1 ← writebackStage cpu;
  p ← shift_stages (pipeline cpu1);
  cpu2 ← fetchStage (mkCPU (programCounter cpu1) (registers cpu1) (memory cpu1) p);
  executeStage cpu2.

Definition cycles (n : nat) (cpu : CPUState) : res CPUState :=
  for_range n 0 (fun _ => pipelineCycle) cpu.

(** What [printCPUState] shows. *)
Definition printCPUState (cpu : CPUState) : res (Z * list Z) :=
  l ← for_range 16 0 (fun i l => r ← (registers cpu).[i]; Ok (l ++ [r])) [];
  Ok (programCounter cpu, l).

(** [main] before its loop. *)
Definition load_program (cpu : CPUState) : res CPUState :=
  m ← (memory cpu).[0 <- 0];
  m ← m.[1 <- 1];
  m ← m.[2 <- 2];
  m ← m.[3 <- 3];
  r ← (registers cpu).[2 <- 5];
  r ← r.[3 <- 3];
  Ok (mkCPU (programCounter cpu) r m (pipeline cpu)).

(** Exit status and, where the run got that far, the final state. *)
Definition cpu_main (cpu_alloc mem_alloc : bool) : res (Z * option CPUState) :=
  match initCPU cpu_alloc mem_alloc with
  | None => Ok (1, None)
  | Some cpu =>
      cpu1 ← load_program cpu;
      cpu2 ← cycles (Z.to_nat PIPELINE_STAGES) cpu1;
      Ok (0, Some cpu2)
  end.

(** ** Specification: one instruction after the other *)

Definition byte_at (mem : list Z) (i : Z) : Z := default 0 (zget mem i).

Definition inst_at (mem : list Z) (k : nat) : Instruction :=
  let i := 4 * Z.of_nat k in
  mkInstr (byte_at mem i) (byte_at mem (i + 1)) (byte_at mem (i + 2)) (byte_at mem (i + 3)) 0.

Definition reg (regs : list Z) (i : Z) : Z := default 0 (zget regs i).

Definition sum_of (regs : list Z) (i : Instruction) : Z :=
  (reg regs (rs i) + reg regs (rt i)) mod 2 ^ 32.

Definition seq_step (regs : list Z) (i : Instruction) : list Z :=
  if opcode i =? ADD then zset regs (rd i) (sum_of regs i) else regs.

Fixpoint seq_run (mem regs : list Z) (n : nat) : list Z :=
  match n with
  | O => regs
  | S n' => seq_step (seq_run mem regs n') (inst_at mem n')
  end.

(** Bytes the fetch can shift, and register numbers of the register file. *)
Definition byte_ok (b : Z) : Prop := 0 <= b < 256.

Definition inst_ok (i : Instruction) : Prop :=
  opcode i < 128 /\
  (opcode i = ADD -> rd i < NUM_REGISTERS /\ rs i < NUM_REGISTERS /\ rt i < NUM_REGISTERS).

Definition program_ok (mem : list Z) : Prop :=
  len mem = MEMORY_SIZE /\ Forall byte_ok mem /\ forall k, (k < 256)%nat -> inst_ok (inst_at mem k).

(** [i] writes a register that [j] reads. *)
Definition writes_source (i j : Instruction) : bool :=
  (opcode i =? ADD) && (opcode j =? ADD) && ((rd i =? rs j) || (rd i =? rt j)).

(** None of the first [n] instructions reads what one of the two before it
    writes. *)
Definition hazard_free (mem : list Z) (n : nat) : Prop :=
  forall k d, (k < n)%nat -> (d = 1 \/ d = 2)%nat -> (d <= k)%nat ->
    writes_source (inst_at mem (k - d)) (inst_at mem k) = false.

Lemma shift_stages_ok a b c d e : shift_stages [a; b; c; d; e] = Ok [a; a; b; c; d].
Proof. reflexivity. Qed.

Lemma bytes_pack b0 b1 b2 b3 :
  byte_ok b0 -> byte_ok b1 -> byte_ok b2 -> byte_ok b3 ->
  Z.lor (Z.lor (Z.lor (Z.shiftl b0 24) (Z.shiftl b1 16)) (Z.shiftl b2 8)) b3 =
  ((b0 * 2 ^ 8 + b1) * 2 ^ 8 + b2) * 2 ^ 8 + b3.
Proof.
  unfold byte_ok. intros. rewrite <- !Z.lor_assoc.
  rewrite (lor_shifted b2) by lia. rewrite (lor_shifted b1) by lia. rewrite (lor_shifted b0) by lia. lia.
Qed.

Section refinement.
Context (mem regs0 : list Z) (N : nat).
Hypothesis Hprog : program_ok mem.
Hypothesis Hregs : len regs0 = NUM_REGISTERS.
Hypothesis Hfree : hazard_free mem N.

Lemma byte_at_get i : 0 <= i < MEMORY_SIZE -> zget mem i = Some (byte_at mem i) /\ byte_ok (byte_at mem i).
Proof.
  intros Hi. destruct Hprog as (Hl & Hb & _). destruct (zget_range mem i) as [b E]; [lia|].
  unfold byte_at. rewrite E. split; [done|]. by eapply (Forall_zget byte_ok).
Qed.

Lemma inst_fields k :
  (k < 256)%nat -> opcode (inst_at mem k) = ADD ->
  0 <= rd (inst_at mem k) < 16 /\ 0 <= rs (inst_at mem k) < 16 /\ 0 <= rt (inst_at mem k) < 16.
Proof.
  intros Hk HA. destruct Hprog as (_ & _ & Hi). destruct (Hi k Hk) as [_ H]. specialize (H HA).
  destruct (byte_at_get (4 * Z.of_nat k + 1)) as [_ H1]; [unfold MEMORY_SIZE; lia|].
  destruct (byte_at_get (4 * Z.of_nat k + 2)) as [_ H2]; [unfold MEMORY_SIZE; lia|].
  destruct (byte_at_get (4 * Z.of_nat k + 3)) as [_ H3]; [unfold MEMORY_SIZE; lia|].
  unfold byte_ok, NUM_REGISTERS in *. cbn [inst_at rd rs rt] in *. lia.
Qed.

Lemma length_seq_run n : len (seq_run mem regs0 n) = NUM_REGISTERS.
Proof.
  induction n as [|n IH]; simpl; [done|]. unfold seq_step. case_cond; [by rewrite length_zset|done].
Qed.

(** A register the instruction does not write keeps its value. *)
Lemma reg_seq_step regs i r : (opcode i =? ADD) && (rd i =? r) = false -> reg (seq_step regs i) r = reg regs r.
Proof.
  intros H. unfold seq_step, reg. destruct (opcode i =? ADD); [|done].
  apply Z.eqb_neq in H. by rewrite zget_zset_ne.
Qed.

(** The operands of a hazard-free instruction are already there two
    instructions earlier. *)
Lemma sum_of_early k :
  (k < N)%nat -> opcode (inst_at mem k) = ADD ->
  sum_of (seq_run mem regs0 (k - 2)) (inst_at mem k) = sum_of (seq_run mem regs0 k) (inst_at mem k).
Proof.
  intros Hk HA.
  assert (forall d, (d = 1 \/ d = 2)%nat -> (d <= k)%nat -> forall r, r = rs (inst_at mem k) \/ r = rt (inst_at mem k) ->
    (opcode (inst_at mem (k - d)) =? ADD) && (rd (inst_at mem (k - d)) =? r) = false) as Hw.
  { intros d Hd Hdk r Hr. pose proof (Hfree k d Hk Hd Hdk) as H. unfold writes_source in H.
    rewrite HA, Z.eqb_refl, andb_true_r in H. destruct (opcode (inst_at mem (k - d)) =? ADD); [|done].
    simpl in *. apply orb_false_iff in H as [? ?]. by destruct Hr as [->| ->]. }
  assert (forall r, r = rs (inst_at mem k) \/ r = rt (inst_at mem k) ->
    reg (seq_run mem regs0 k) r = reg (seq_run mem regs0 (k - 2)) r) as Hr.
  { intros r Hr. destruct k as [|[|k]]; [done|..]; cbn [seq_run Nat.sub].
    - apply reg_seq_step. apply (Hw 1%nat); [lia..|done].
    - rewrite Nat.sub_0_r. pose proof (Hw 1%nat ltac:(lia) ltac:(lia) r Hr) as H1.
      pose proof (Hw 2%nat ltac:(lia) ltac:(lia) r Hr) as H2. cbn [Nat.sub] in H1, H2.
      rewrite ?Nat.sub_0_r in H1. rewrite ?Nat.sub_0_r in H2. by rewrite !reg_seq_step. }
  unfold sum_of. by rewrite !Hr by auto.
Qed.

(** Stage [i] after [c] cycles. *)
Definition stage_ok (c i : nat) (s : PipelineStage) : Prop :=
  immediate (inst s) = 0 /\ valid s = bool_decide (i < c)%nat /\
  ((i < c)%nat -> inst s = inst_at mem (c - 1 - i) /\
     ((2 <= i)%nat -> (c - 1 - i < N)%nat -> opcode (inst s) = ADD ->
        result s = sum_of (seq_run mem regs0 (c - 1 - i)) (inst s))).

Definition pipe_inv (c : nat) (cpu : CPUState) : Prop :=
  programCounter cpu = 4 * Z.of_nat c /\ memory cpu = mem /\ len (registers cpu) = NUM_REGISTERS /\
  ((c - 5 <= N)%nat -> registers cpu = seq_run mem regs0 (c - 5)) /\
  exists s0 s1 s2 s3 s4, pipeline cpu = [s0; s1; s2; s3; s4] /\
    stage_ok c 0 s0 /\ stage_ok c 1 s1 /\ stage_ok c 2 s2 /\ stage_ok c 3 s3 /\ stage_ok c 4 s4.

Lemma stage_shift c i s : (i = 0 \/ 2 <= i)%nat -> stage_ok c i s -> stage_ok (S c) (S i) s.
Proof.
  intros Hi (Hz & Hv & Hs). split; [done|]. split.
  - rewrite Hv. apply bool_decide_ext. lia.
  - intros Hlt. replace (S c - 1 - S i)%nat with (c - 1 - i)%nat by lia. destruct Hs as [He Hr]; [lia|].
    split; [done|]. intros Hi2 HN HA. apply Hr; [lia|done..].
Qed.

Lemma fetch_ok c cpu s0 p :
  (c < 256)%nat -> programCounter cpu = 4 * Z.of_nat c -> memory cpu = mem ->
  pipeline cpu = s0 :: p -> immediate (inst s0) = 0 ->
  fetchStage cpu = Ok (mkCPU (4 * Z.of_nat (S c)) (registers cpu) mem
                         (mkStage (4 * Z.of_nat c) (inst_at mem c) (result s0) true :: p)).
Proof.
  intros Hc Hpc Hm Hp Hi. unfold fetchStage. rewrite Hpc, Hm, Hp.
  destruct (Z.leb_spec (MEMORY_SIZE - 3) (4 * Z.of_nat c)) as [?|Hlt]; [unfold MEMORY_SIZE in *; lia|].
  rewrite !u32_id by (unfold UINT32; lia).
  assert (forall d, 0 <= d < 4 -> 0 <= 4 * Z.of_nat c + d < MEMORY_SIZE) as Hd by (unfold MEMORY_SIZE; lia).
  destruct (byte_at_get (4 * Z.of_nat c)) as [G0 B0]; [rewrite <- (Z.add_0_r (4 * Z.of_nat c)); by apply Hd|].
  destruct (byte_at_get _ (Hd 1 ltac:(lia))) as [G1 B1]. destruct (byte_at_get _ (Hd 2 ltac:(lia))) as [G2 B2].
  destruct (byte_at_get _ (Hd 3 ltac:(lia))) as [G3 B3].
  rewrite (arr_read_Ok _ _ _ G0), (arr_read_Ok _ _ _ G1), (arr_read_Ok _ _ _ G2), (arr_read_Ok _ _ _ G3).
  destruct Hprog as (_ & _ & Ho). destruct (Ho c Hc) as [Hop _]. cbn [inst_at opcode] in Hop. clear Ho.
  assert (inst_at mem c = mkInstr (byte_at mem (4 * Z.of_nat c)) (byte_at mem (4 * Z.of_nat c + 1))
    (byte_at mem (4 * Z.of_nat c + 2)) (byte_at mem (4 * Z.of_nat c + 3)) 0) as Ei by done.
  revert Hop B0 B1 B2 B3 Ei.
  generalize (byte_at mem (4 * Z.of_nat c)), (byte_at mem (4 * Z.of_nat c + 1)),
    (byte_at mem (4 * Z.of_nat c + 2)), (byte_at mem (4 * Z.of_nat c + 3)).
  intros b0 b1 b2 b3 Hop B0 B1 B2 B3 Ei. rewrite !bind_ret_l.
  rewrite !int_of_Ok by (unfold byte_ok in *; rewrite Z.shiftl_mul_pow2 by lia; int_side).
  rewrite !bind_ret_l, bytes_pack by done.
  assert (forall h a b n, 0 <= n -> 0 <= b < 2 ^ n -> byte_ok a ->
    Z.land (Z.shiftr ((h * 2 ^ 8 + a) * 2 ^ n + b) n) 255 = a) as Hx.
  { intros h a b n Hn Hb Ha. apply (field_extract h a b n 8); done. }
  unfold byte_ok in *. rewrite u32_id by (unfold UINT32; lia).
  change ((s0 :: p).[0]) with (Ok s0). rewrite bind_ret_l, Hi.
  rewrite (arr_write_Ok (s0 :: p)) by (cbn [length]; lia). rewrite bind_ret_l, Ei.
  replace (4 * Z.of_nat (S c)) with (4 * Z.of_nat c + 4) by lia.
  set (w := ((b0 * 2 ^ 8 + b1) * 2 ^ 8 + b2) * 2 ^ 8 + b3).
  replace (Z.land (Z.shiftr w 24) 255) with b0.
  2: { rewrite <- (Hx 0 b0 ((b1 * 2 ^ 8 + b2) * 2 ^ 8 + b3) 24) at 1 by lia. by do 2 f_equal; lia. }
  replace (Z.land (Z.shiftr w 16) 255) with b1.
  2: { rewrite <- (Hx b0 b1 (b2 * 2 ^ 8 + b3) 16) at 1 by lia. by do 2 f_equal; lia. }
  replace (Z.land (Z.shiftr w 8) 255) with b2 by (symmetry; apply (Hx (b0 * 2 ^ 8 + b1) b2 b3 8); lia).
  replace (Z.land w 255) with b3; [done|].
  rewrite <- (Hx ((b0 * 2 ^ 8 + b1) * 2 ^ 8 + b2) b3 0 0) at 1 by lia.
  rewrite Z.shiftr_0_r. by f_equal; lia.
Qed.

Lemma writeback_ok c cpu s0 s1 s2 s3 s4 :
  (c < 256)%nat -> len (registers cpu) = NUM_REGISTERS ->
  ((c - 5 <= N)%nat -> registers cpu = seq_run mem regs0 (c - 5)) ->
  pipeline cpu = [s0; s1; s2; s3; s4] -> stage_ok c 4 s4 ->
  exists regs, writebackStage cpu = Ok (mkCPU (programCounter cpu) regs (memory cpu) (pipeline cpu)) /\
    len regs = NUM_REGISTERS /\ ((S c - 5 <= N)%nat -> regs = seq_run mem regs0 (S c - 5)).
Proof.
  intros Hc Hl Hr Hp (Hz & Hv & Hs). unfold writebackStage. rewrite Hp.
  change ([s0; s1; s2; s3; s4].[4]) with (Ok s4). rewrite bind_ret_l, Hv. rewrite <- Hp.
  destruct (decide (4 < c)%nat) as [Hlt|Hge].
  - rewrite bool_decide_true by done. cbn [negb]. destruct (Hs Hlt) as [Hi Hres].
    replace (S c - 5)%nat with (S (c - 5)) by lia. cbn [seq_run]. unfold seq_step.
    replace (c - 1 - 4)%nat with (c - 5)%nat in * by lia. rewrite Hi in *.
    destruct (Z.eqb_spec (opcode (inst_at mem (c - 5))) ADD) as [HA|HA].
    + destruct (inst_fields (c - 5) ltac:(lia) HA) as (Hd & _ & _).
      rewrite arr_write_Ok by (unfold NUM_REGISTERS in *; lia). rewrite bind_ret_l.
      eexists. split; [done|]. rewrite length_zset. split; [done|].
      intros HN. rewrite (Hres ltac:(lia) ltac:(lia) HA). by rewrite Hr by lia.
    + exists (registers cpu). split; [by destruct cpu|]. split; [done|]. intros HN. apply Hr. lia.
  - rewrite bool_decide_false by done. cbn [negb]. exists (registers cpu). split; [by destruct cpu|].
    split; [done|]. intros HN. replace (S c - 5)%nat with (c - 5)%nat by lia. apply Hr. lia.
Qed.

Lemma execute_stage_ok c cpu s0 s1 s2 s3 s4 :
  (c < 256)%nat -> len (registers cpu) = NUM_REGISTERS ->
  ((S c - 5 <= N)%nat -> registers cpu = seq_run mem regs0 (S c - 5)) ->
  pipeline cpu = [s0; s1; s2; s3; s4] -> stage_ok c 1 s2 ->
  exists s2', executeStage cpu =
      Ok (mkCPU (programCounter cpu) (registers cpu) (memory cpu) [s0; s1; s2'; s3; s4]) /\
    stage_ok (S c) 2 s2'.
Proof.
  intros Hc Hl Hr Hp (Hz & Hv & Hs). unfold executeStage. rewrite Hp.
  change ([s0; s1; s2; s3; s4].[2]) with (Ok s2). rewrite bind_ret_l, Hv.
  destruct (decide (1 < c)%nat) as [Hlt|Hge].
  2: { rewrite bool_decide_false by done. exists s2. split; [rewrite <- Hp; by destruct cpu|].
       split; [done|]. split; [|lia]. rewrite Hv. apply bool_decide_ext. lia. }
  rewrite bool_decide_true by done. cbn [negb]. destruct (Hs Hlt) as [Hi _].
  replace (c - 1 - 1)%nat with (c - 2)%nat in Hi by lia.
  assert (exists r, (if opcode (inst s2) =? ADD then
      a ← (registers cpu).[rs (inst s2)]; b ← (registers cpu).[rt (inst s2)]; Ok (u32 (a + b))
      else Ok 0) = Ok r /\ (opcode (inst s2) = ADD -> r = sum_of (registers cpu) (inst s2)))
    as (r & -> & Hsum).
  { destruct (Z.eqb_spec (opcode (inst s2)) ADD) as [HA|HA]; [|by eexists].
    rewrite Hi in *. destruct (inst_fields (c - 2) ltac:(lia) HA) as (_ & Hrs & Hrt).
    destruct (zget_range (registers cpu) (rs (inst_at mem (c - 2)))) as [a Ea]; [unfold NUM_REGISTERS in *; lia|].
    destruct (zget_range (registers cpu) (rt (inst_at mem (c - 2)))) as [b Eb]; [unfold NUM_REGISTERS in *; lia|].
    rewrite (arr_read_Ok _ _ _ Ea), (arr_read_Ok _ _ _ Eb). eexists. split; [done|].
    intros _. unfold sum_of, reg. by rewrite Ea, Eb. }
  rewrite bind_ret_l. eexists. split; [reflexivity|]. split; [done|]. split.
  { cbn [valid]. symmetry. apply bool_decide_true. lia. }
  intros _. cbn [inst result]. replace (S c - 1 - 2)%nat with (c - 2)%nat by lia. split; [done|].
  intros _ HN HA. rewrite (Hsum HA), Hr by lia. rewrite Hi in *.
  replace (S c - 5)%nat with (c - 2 - 2)%nat by lia. by apply sum_of_early.
Qed.

Lemma cycle_ok c cpu :
  (c < 256)%nat -> pipe_inv c cpu -> exists cpu', pipelineCycle cpu = Ok cpu' /\ pipe_inv (S c) cpu'.
Proof.
  intros Hc (Hpc & Hm & Hl & Hr & s0 & s1 & s2 & s3 & s4 & Hp & H0 & H1 & H2 & H3 & H4).
  destruct (writeback_ok c cpu s0 s1 s2 s3 s4) as (regs & Hwb & Hl' & Hr'); [done..|].
  unfold pipelineCycle. rewrite Hwb, bind_ret_l. cbn [pipeline]. rewrite Hp, shift_stages_ok, bind_ret_l.
  cbn [programCounter registers memory].
  rewrite (fetch_ok c _ s0 [s0; s1; s2; s3]) by (done || apply H0). rewrite bind_ret_l.
  cbn [registers].
  set (f := mkStage (4 * Z.of_nat c) (inst_at mem c) (result s0) true).
  destruct (execute_stage_ok c (mkCPU (4 * Z.of_nat (S c)) regs mem [f; s0; s1; s2; s3]) f s0 s1 s2 s3)
    as (s2' & He & Hs2); [done..|].
  rewrite He. eexists. split; [done|]. cbn. split_and!; [done..|]. do 5 eexists. split; [done|].
  split_and!; [|apply stage_shift; auto with lia|done|apply stage_shift; auto with lia|apply stage_shift; auto with lia].
  split; [done|]. split; [cbn; symmetry; apply bool_decide_true; lia|]. intros _. cbn [inst result].
  replace (S c - 1 - 0)%nat with c by lia. split; [done|lia].
Qed.

Lemma cycles_ok n :
  (n <= 256)%nat ->
  exists cpu, cycles n (mkCPU 0 regs0 mem (replicate 5 no_stage)) = Ok cpu /\ pipe_inv n cpu.
Proof.
  intros Hn. unfold cycles.
  destruct (for_range_inv (fun c cpu => pipe_inv (Z.to_nat c) cpu) n 0 (fun _ => pipelineCycle)
    (mkCPU 0 regs0 mem (replicate 5 no_stage))) as (cpu & -> & Hinv).
  - split_and!; [done..|]. do 5 exists no_stage. split; [done|]. split_and!; (split; [done|]; split; [done|lia]).
  - intros j t Hj Ht. replace (Z.to_nat (j + 1)) with (S (Z.to_nat j)) by lia. apply cycle_ok; [lia|done].
  - exists cpu. by rewrite Z.add_0_l, Nat2Z.id in Hinv.
Qed.
End refinement.

(** C6.  The pipeline refines the machine that runs one instruction after the
    other: with valid encodings in the memory, after [c] cycles from reset, at most 256, as long as no instruction among those
    that have left the pipeline reads what one of the two before it writes,
    the registers are those after the first [c - 5] instructions. *)
Theorem pipeline_refines_sequential mem regs c :
  program_ok mem -> len regs = NUM_REGISTERS -> (c <= 256)%nat -> hazard_free mem (c - 5) ->
  exists cpu, cycles c (mkCPU 0 regs mem (replicate 5 no_stage)) = Ok cpu /\
    registers cpu = seq_run mem regs (c - 5) /\ programCounter cpu = 4 * Z.of_nat c /\ memory cpu = mem.
Proof.
  intros Hp Hr Hc Hf. destruct (cycles_ok mem regs (c - 5) Hp Hr Hf c Hc) as (cpu & -> & Hpc & Hm & _ & Hregs & _).
  exists cpu. auto.
Qed.

(** The five cycles of [main] end before the only instruction writes back: R1
    is still 0. *)
Lemma cpu_main_no_writeback :
  exists cpu, cpu_main true true = Ok (0, Some cpu) /\ zget (registers cpu) 1 = Some 0.
Proof. eexists. split; vm_compute; reflexivity. Qed.

(** A dependence on the instruction before reads the old value: in
    R1 := R2 + R3; R4 := R1 + R2 the second addition sees the initial R1. *)
Definition raw_program : list Z := [0; 1; 2; 3; 0; 4; 1; 2] ++ replicate 1016 0.
Definition raw_regs : list Z := [0; 0; 5; 3] ++ replicate 12 0.

Lemma raw_hazard_stale :
  (fun cpu => (zget (registers cpu) 4, zget (seq_run raw_program raw_regs 2) 4)) <$>
    match cycles 7 (mkCPU 0 raw_regs raw_program (replicate 5 no_stage)) with Ok c => Some c | Fault _ => None end =
  Some (Some 5, Some 13).
Proof. vm_compute. reflexivity. Qed.

Definition add_program : list Z := [0; 1; 2; 3] ++ replicate 1020 0.

Lemma add_program_ok : program_ok add_program.
Proof.
  split; [reflexivity|]. split.
  - apply Forall_app. split; [|apply Forall_replicate]; repeat constructor; unfold byte_ok; lia.
  - intros k _. unfold inst_ok. destruct (decide (k = 0)%nat) as [->|Hk].
    + split; [reflexivity|]. intros _. repeat split; reflexivity.
    + assert (forall d, 0 <= d < 4 -> byte_at add_program (4 * Z.of_nat k + d) = 0) as Hz.
      { intros d Hd. unfold byte_at. destruct (zget _ _) eqn:E; [|done]. simpl.
        unfold add_program, zget in E. destruct (0 <=? _); [|done]. rewrite lookup_app_r in E by (simpl; lia).
        apply lookup_replicate in E. by destruct E. }
      cbn [inst_at opcode rd rs rt]. rewrite !Hz by lia. rewrite <- (Z.add_0_r (4 * Z.of_nat k)), Hz by lia.
      split; [lia|]. intros _. unfold NUM_REGISTERS. lia.
Qed.

(** One more cycle than [main] runs, and R1 = R2 + R3. *)
Lemma pipeline_refines_sequential_witness :
  exists cpu, cycles 6 (mkCPU 0 raw_regs add_program (replicate 5 no_stage)) = Ok cpu /\
    registers cpu = [0; 8; 5; 3] ++ replicate 12 0 /\ programCounter cpu = 24 /\ memory cpu = add_program.
Proof.
  replace ([0; 8; 5; 3] ++ replicate 12 0) with (seq_run add_program raw_regs 1) by (vm_compute; reflexivity).
  apply (pipeline_refines_sequential add_program raw_regs 6).
  - apply add_program_ok.
  - reflexivity.
  - lia.
  - intros k d Hk Hd Hdk. lia.
Defined.
