(* ===== verification/TwoLevelCache.v ===== *)
(** * A two-level direct-mapped cache ([memory/cache/Two-Level-Cache-System.c])

    The state is the two arrays of lines, the memory and the counters; an
    access returns the level that answered and the block it delivered.  The
    theorem compares a run of accesses with a reference that looks only at the
    blocks accessed before. *)
From Stdlib Require Import ZArith Lia.
From stdpp Require Import base tactics list numbers option.
From S2P Require Import Prelude.

#[local] Open Scope Z_scope.
#[local] Open Scope c_scope.

Definition L1_CACHE_SIZE : Z := 64.
Definition L2_CACHE_SIZE : Z := 256.
Definition MAIN_MEMORY_SIZE : Z := 8192.
Definition BLOCK_SIZE : Z := 8.

Record CacheLine : Type := mkLine { tag : Z; data : list Z; valid : bool }.

Record caches : Type := mkCaches {
  l1_cache : list CacheLine;
  l2_cache : list CacheLine;
  main_memory : list Z;
  l1_hits : Z;
  l1_misses : Z;
  l2_hits : Z;
  l2_misses : Z
}.

Definition calculate_tag (address cache_size : Z) : Z := address / BLOCK_SIZE / cache_size.
Definition calculate_index (address cache_size : Z) : Z := (address / BLOCK_SIZE) mod cache_size.

(** The data of the line on a hit. *)
Definition check_cache (cache : list CacheLine) (cache_size address : Z) : res (option (list Z)) :=
  line ← cache.[calculate_index address cache_size];
  Ok (if valid line && (tag line =? calculate_tag address cache_size) then Some (data line) else None).

Definition update_cache (cache : list CacheLine) (cache_size address : Z) (d : list Z)
    : res (list CacheLine) :=
  cache.[calculate_index address cache_size <- mkLine (calculate_tag address cache_size) d true].

(** What an access prints, with the block it found. *)
Inductive outcome : Type :=
| L1_hit (d : list Z)
| L2_hit (d : list Z)
| From_memory (d : list Z)
| Out_of_bounds.

Definition memory_access (st : caches) (address : Z) : res (caches * outcome) :=
  let '(mkCaches l1 l2 mem h1 m1 h2 m2) := st in
  c1 ← check_cache l1 L1_CACHE_SIZE address;
  match c1 with
  | Some d => Ok (mkCaches l1 l2 mem (u32 (h1 + 1)) m1 h2 m2, L1_hit d)
  | None =>
      c2 ← check_cache l2 L2_CACHE_SIZE address;
      match c2 with
      | Some d =>
          l1' ← update_cache l1 L1_CACHE_SIZE address d;
          Ok (mkCaches l1' l2 mem h1 m1 (u32 (h2 + 1)) m2, L2_hit d)
      | None =>
          let m2' := u32 (m2 + 1) in
          let block_start := Z.land address (u32 (Z.lnot (BLOCK_SIZE - 1))) in
          if u32 (block_start + BLOCK_SIZE) <=? MAIN_MEMORY_SIZE then
            d ← copy_from mem block_start (Z.to_nat BLOCK_SIZE);
            l2' ← update_cache l2 L2_CACHE_SIZE address d;
            l1' ← update_cache l1 L1_CACHE_SIZE address d;
            Ok (mkCaches l1' l2' mem h1 m1 h2 m2', From_memory d)
          else Ok (mkCaches l1 l2 mem h1 m1 h2 m2', Out_of_bounds)
      end
  end.

Fixpoint accesses (st : caches) (l : list Z) : res (caches * list outcome) :=
  match l with
  | [] => Ok (st, [])
  | a :: l' =>
      '(st1, o) ← memory_access st a;
      '(st2, os) ← accesses st1 l';
      Ok (st2, o :: os)
  end.

(** Static storage starts zeroed; [main] clears the valid bits. *)
Definition no_line : CacheLine := mkLine 0 (replicate 8 0) false.

Definition init_caches (mem : list Z) : caches :=
  mkCaches (replicate 64 no_line) (replicate 256 no_line) mem 0 0 0 0.

Definition main_memory_init : list Z := (fun i => Z.land i 255) <$> seqZ 0 MAIN_MEMORY_SIZE.

Definition cache_main : res (caches * list outcome) :=
  accesses (init_caches main_memory_init) [0x100; 0x101; 0x200; 0x100].

(** ** Reference: the blocks accessed so far, the latest first *)

(** The latest block of the history that maps to a line. *)
Fixpoint last_at (hist : list Z) (size idx : Z) : option Z :=
  match hist with
  | [] => None
  | b :: hist' => if b mod size =? idx then Some b else last_at hist' size idx
  end.

Definition held (hist : list Z) (size b : Z) : bool :=
  bool_decide (last_at hist size (b mod size) = Some b).

Definition block_of (mem : list Z) (b : Z) : list Z :=
  take 8 (drop (Z.to_nat (8 * b)) mem).

Definition ref_access (mem : list Z) (hist : list Z) (a : Z) : outcome :=
  let b := a / BLOCK_SIZE in
  if held hist L1_CACHE_SIZE b then L1_hit (block_of mem b)
  else if held hist L2_CACHE_SIZE b then L2_hit (block_of mem b)
  else if a <? MAIN_MEMORY_SIZE then From_memory (block_of mem b)
  else Out_of_bounds.

Definition ref_history (hist : list Z) (a : Z) : list Z :=
  if a <? MAIN_MEMORY_SIZE then a / BLOCK_SIZE :: hist else hist.

Fixpoint ref_accesses (mem : list Z) (hist : list Z) (l : list Z) : list outcome :=
  match l with
  | [] => []
  | a :: l' => ref_access mem hist a :: ref_accesses mem (ref_history hist a) l'
  end.

Definition is_L1 (o : outcome) : bool := match o with L1_hit _ => true | _ => false end.
Definition is_L2 (o : outcome) : bool := match o with L2_hit _ => true | _ => false end.
Definition is_miss (o : outcome) : bool := match o with From_memory _ | Out_of_bounds => true | _ => false end.

Definition count (p : outcome -> bool) (l : list outcome) : Z := len (filter (fun o => p o = true) l).

(** The line an index must hold after a history. *)
Definition line_ok (mem hist : list Z) (size idx : Z) (line : CacheLine) : Prop :=
  match last_at hist size idx with
  | None => valid line = false
  | Some b => line = mkLine (b / size) (block_of mem b) true
  end.

Definition level_ok (mem hist : list Z) (size : Z) (cache : list CacheLine) : Prop :=
  len cache = size /\ forall idx line, zget cache idx = Some line -> line_ok mem hist size idx line.

Lemma last_at_mod hist size idx b : last_at hist size idx = Some b -> b mod size = idx.
Proof.
  induction hist as [|x hist IH]; simpl; [done|]. case_cond; [by intros [= <-]|done].
Qed.

(** What a smaller level holds, a larger one holds. *)
Lemma held_divides hist s1 s2 b : 0 < s1 -> (s1 | s2) -> held hist s1 b = true -> held hist s2 b = true.
Proof.
  intros H1 Hd. unfold held. rewrite !bool_decide_eq_true. induction hist as [|x hist IH]; simpl; [done|].
  destruct (Z.eqb_spec (x mod s1) (b mod s1)) as [E|E].
  - intros [= ->]. by rewrite Z.eqb_refl.
  - intros H. destruct (Z.eqb_spec (x mod s2) (b mod s2)) as [E2|E2]; [|auto]. exfalso. apply E.
    by rewrite <- (Z.mod_mod_divide x s2 s1), <- (Z.mod_mod_divide b s2 s1), E2.
Qed.

Lemma held_inclusive hist b : held hist L1_CACHE_SIZE b = true -> held hist L2_CACHE_SIZE b = true.
Proof. apply held_divides; [done|]. by exists 4. Qed.

Section level.
Context (mem : list Z) (size : Z).
Hypothesis Hsize : 0 < size.

Lemma check_cache_ok hist cache a :
  level_ok mem hist size cache ->
  check_cache cache size a =
    Ok (if held hist size (a / BLOCK_SIZE) then Some (block_of mem (a / BLOCK_SIZE)) else None).
Proof.
  intros [Hl Hc]. unfold check_cache, calculate_index, calculate_tag, held.
  pose proof (Z.mod_pos_bound (a / BLOCK_SIZE) size Hsize) as Hb.
  destruct (zget_range cache ((a / BLOCK_SIZE) mod size)) as [line E]; [lia|].
  rewrite (arr_read_Ok _ _ _ E), bind_ret_l. specialize (Hc _ _ E). unfold line_ok in Hc.
  destruct (last_at hist size ((a / BLOCK_SIZE) mod size)) as [b|] eqn:Hb'.
  - subst line. simpl. pose proof (last_at_mod _ _ _ _ Hb') as Hm.
    destruct (Z.eqb_spec (b / size) (a / BLOCK_SIZE / size)) as [Ht|Ht].
    + assert (b = a / BLOCK_SIZE) as ->.
      { rewrite (Z.div_mod b size), (Z.div_mod (a / BLOCK_SIZE) size) by lia. by rewrite Ht, Hm. }
      by rewrite bool_decide_true.
    + rewrite bool_decide_false; [done|]. by intros [= ->].
  - rewrite Hc. by rewrite bool_decide_false.
Qed.

Lemma level_ok_refresh hist cache b :
  held hist size b = true -> level_ok mem hist size cache -> level_ok mem (b :: hist) size cache.
Proof.
  intros Hh%bool_decide_eq_true [Hl Hc]. split; [done|]. intros idx line E. unfold line_ok. simpl.
  specialize (Hc _ _ E). unfold line_ok in Hc. case_cond; [|done]. subst idx. by rewrite Hh in Hc.
Qed.

Lemma update_cache_ok hist cache a :
  level_ok mem hist size cache ->
  exists cache', update_cache cache size a (block_of mem (a / BLOCK_SIZE)) = Ok cache' /\
    level_ok mem (a / BLOCK_SIZE :: hist) size cache'.
Proof.
  intros [Hl Hc]. unfold update_cache, calculate_index, calculate_tag.
  pose proof (Z.mod_pos_bound (a / BLOCK_SIZE) size Hsize) as Hb.
  rewrite arr_write_Ok by lia. eexists. split; [done|]. split; [by rewrite length_zset|].
  intros idx line. rewrite zget_zset. unfold line_ok. simpl. rewrite Z.eqb_sym.
  destruct (Z.eqb_spec ((a / BLOCK_SIZE) mod size) idx) as [<-|Hne]; simpl.
  - rewrite (proj2 (in_range_true _ _)) by lia. by intros [= <-].
  - apply Hc.
Qed.
End level.

(** Counters and both levels after a history and its outcomes. *)
Definition caches_ok (mem hist : list Z) (os : list outcome) (st : caches) : Prop :=
  main_memory st = mem /\ level_ok mem hist L1_CACHE_SIZE (l1_cache st) /\
  level_ok mem hist L2_CACHE_SIZE (l2_cache st) /\
  l1_hits st = u32 (count is_L1 os) /\ l2_hits st = u32 (count is_L2 os) /\
  l2_misses st = u32 (count is_miss os) /\ l1_misses st = 0 /\
  Forall (fun b => 0 <= b < 1024) hist.

Lemma count_snoc p os o : count p (os ++ [o]) = count p os + (if p o then 1 else 0).
Proof.
  unfold count. rewrite list.filter_app, length_app.
  destruct (p o) eqn:E; [rewrite filter_cons_True by done|rewrite filter_cons_False by (by rewrite E)];
    simpl; lia.
Qed.

Lemma u32_succ x : u32 (u32 x + 1) = u32 (x + 1).
Proof. unfold u32. by rewrite Zplus_mod_idemp_l. Qed.

Lemma block_start_mask a : 0 <= a < UINT32 -> Z.land a (u32 (Z.lnot (BLOCK_SIZE - 1))) = 8 * (a / 8).
Proof. intros Ha. exact (mask_low 32 3 a ltac:(done) Ha). Qed.

Lemma held_in_range hist size b : Forall (fun b => 0 <= b < 1024) hist -> held hist size b = true -> 0 <= b < 1024.
Proof.
  intros Hh H%bool_decide_eq_true. revert H. generalize (b mod size). intros idx.
  induction Hh as [|x hist Hx _ IH]; simpl; [done|]. case_cond; [by intros [= <-]|done].
Qed.

Lemma memory_access_ok mem hist os st a :
  len mem = MAIN_MEMORY_SIZE -> 0 <= a < UINT32 - BLOCK_SIZE -> caches_ok mem hist os st ->
  exists st', memory_access st a = Ok (st', ref_access mem hist a) /\
    caches_ok mem (ref_history hist a) (os ++ [ref_access mem hist a]) st'.
Proof.
  intros Hlen Ha (Hm & H1 & H2 & E1 & E2 & E3 & E4 & Hr). destruct st as [l1 l2 mm h1 m1 h2 m2]. simpl in *. subst mm h1 m1 h2 m2.
  assert (forall b, 0 <= b < 1024 -> b = a / BLOCK_SIZE -> ref_history hist a = b :: hist) as Hhist.
  { intros b Hb ->. unfold ref_history. unfold BLOCK_SIZE, MAIN_MEMORY_SIZE in *. case_cond; [done|].
    exfalso. dlia. }
  unfold memory_access. rewrite (check_cache_ok mem L1_CACHE_SIZE ltac:(done) hist) by done. rewrite bind_ret_l.
  unfold ref_access. destruct (held hist L1_CACHE_SIZE (a / BLOCK_SIZE)) eqn:Hh1.
  { pose proof (held_in_range _ _ _ Hr Hh1) as Hb. rewrite (Hhist _ Hb eq_refl).
    eexists. split; [done|]. split_and!; simpl; rewrite ?count_snoc, ?Z.add_0_r, ?u32_succ; try done.
    - by apply level_ok_refresh.
    - apply level_ok_refresh; [by apply held_inclusive|done].
    - by constructor. }
  rewrite (check_cache_ok mem L2_CACHE_SIZE ltac:(done) hist) by done. rewrite bind_ret_l.
  destruct (held hist L2_CACHE_SIZE (a / BLOCK_SIZE)) eqn:Hh2.
  { pose proof (held_in_range _ _ _ Hr Hh2) as Hb. rewrite (Hhist _ Hb eq_refl).
    destruct (update_cache_ok mem L1_CACHE_SIZE ltac:(done) hist l1 a H1) as (l1' & -> & H1').
    eexists. split; [done|]. split_and!; simpl; rewrite ?count_snoc, ?Z.add_0_r, ?u32_succ; try done.
    - by apply level_ok_refresh.
    - by constructor. }
  unfold BLOCK_SIZE in Ha. rewrite block_start_mask by lia. unfold BLOCK_SIZE at 1, MAIN_MEMORY_SIZE at 1.
  rewrite u32_id by (unfold UINT32 in *; dlia).
  destruct (Z.ltb_spec a MAIN_MEMORY_SIZE) as [Hin|Hout]; unfold MAIN_MEMORY_SIZE in *.
  - destruct (Z.leb_spec (8 * (a / 8) + 8) 8192); [|exfalso; dlia].
    rewrite copy_from_Ok by (unfold BLOCK_SIZE; dlia). rewrite bind_ret_l.
    change (take (Z.to_nat BLOCK_SIZE) (drop (Z.to_nat (8 * (a / 8))) mem)) with (block_of mem (a / BLOCK_SIZE)).
    destruct (update_cache_ok mem L2_CACHE_SIZE ltac:(done) hist l2 a H2) as (l2' & -> & H2').
    destruct (update_cache_ok mem L1_CACHE_SIZE ltac:(done) hist l1 a H1) as (l1' & -> & H1').
    rewrite (Hhist (a / BLOCK_SIZE)) by (done || unfold BLOCK_SIZE; dlia).
    eexists. split; [done|]. split_and!; simpl; rewrite ?count_snoc, ?Z.add_0_r, ?u32_succ; try done.
    constructor; [unfold BLOCK_SIZE; dlia|done].
  - destruct (Z.leb_spec (8 * (a / 8) + 8) 8192); [exfalso; dlia|].
    assert (ref_history hist a = hist) as ->.
    { unfold ref_history, MAIN_MEMORY_SIZE. destruct (Z.ltb_spec a 8192); [lia|done]. }
    eexists. split; [done|]. split_and!; simpl; rewrite ?count_snoc, ?Z.add_0_r, ?u32_succ; done.
Qed.

Lemma accesses_ok mem l : forall hist os st,
  len mem = MAIN_MEMORY_SIZE -> Forall (fun a => 0 <= a < UINT32 - BLOCK_SIZE) l -> caches_ok mem hist os st ->
  exists st' hist', accesses st l = Ok (st', ref_accesses mem hist l) /\
    caches_ok mem hist' (os ++ ref_accesses mem hist l) st'.
Proof.
  induction l as [|a l IH]; intros hist os st Hm Hl Hok; simpl.
  - exists st, hist. by rewrite app_nil_r.
  - apply Forall_cons_iff in Hl as [Ha Hl].
    destruct (memory_access_ok mem hist os st a) as (st1 & -> & Hok1); [done..|]. rewrite bind_ret_l.
    destruct (IH _ _ _ Hm Hl Hok1) as (st2 & hist2 & -> & Hok2). exists st2, hist2.
    rewrite <- app_assoc in Hok2. done.
Qed.

Lemma init_level mem n : level_ok mem [] (Z.of_nat n) (replicate n no_line).
Proof.
  split; [by rewrite length_replicate|]. intros idx line E. apply zget_replicate in E. by subst.
Qed.

(** The bound check of the last eight addresses wraps. *)
Lemma memory_access_wraps mem hist os st a :
  len mem = MAIN_MEMORY_SIZE -> UINT32 - BLOCK_SIZE <= a < UINT32 -> caches_ok mem hist os st -> memory_access st a = Fault OutOfBounds.
Proof.
  intros Hlen Ha (Hm & H1 & H2 & _ & _ & _ & _ & Hr). destruct st as [l1 l2 mm h1 m1 h2 m2]. simpl in *. subst mm.
  assert (forall size, held hist size (a / BLOCK_SIZE) = false) as Hh.
  { intros size. destruct (held hist size (a / BLOCK_SIZE)) eqn:E; [|done]. pose proof (held_in_range _ _ _ Hr E).
    unfold BLOCK_SIZE, UINT32 in *. exfalso. dlia. }
  unfold memory_access. rewrite (check_cache_ok mem L1_CACHE_SIZE ltac:(done) hist), Hh, bind_ret_l by done.
  rewrite (check_cache_ok mem L2_CACHE_SIZE ltac:(done) hist), Hh, bind_ret_l by done.
  unfold BLOCK_SIZE, UINT32 in Ha. rewrite block_start_mask by (unfold UINT32; lia). assert (8 * (a / 8) = UINT32 - 8) as -> by (unfold UINT32 in *; dlia).
  change (u32 (UINT32 - 8 + BLOCK_SIZE) <=? MAIN_MEMORY_SIZE) with true. cbv iota. unfold copy_from.
  rewrite Hlen. done.
Qed.

Lemma accesses_wrap mem l : forall hist os st,
  len mem = MAIN_MEMORY_SIZE -> Forall (fun a => 0 <= a < UINT32) l -> caches_ok mem hist os st ->
  forallb (fun a => a <? UINT32 - BLOCK_SIZE) l = false -> accesses st l = Fault OutOfBounds.
Proof.
  induction l as [|a l IH]; intros hist os st Hm Hl Hok Hw; simpl; [done|]. apply Forall_cons_iff in Hl as [Ha Hl].
  simpl in Hw. destruct (Z.ltb_spec a (UINT32 - BLOCK_SIZE)).
  - destruct (memory_access_ok mem hist os st a) as (st1 & -> & Hok1); [done|lia|done|]. rewrite bind_ret_l. by rewrite (IH _ _ _ Hm Hl Hok1).
  - rewrite (memory_access_wraps mem hist os) by (done || lia). done.
Qed.

Lemma init_caches_ok mem : caches_ok mem [] [] (init_caches mem).
Proof. split_and!; try done; [apply (init_level mem 64)|apply (init_level mem 256)]. Qed.

(** C13.  A run of accesses to addresses below 2^32 - 8 is answered as the reference
    says: an access hits the first level if its block is the latest one accessed among
    those of its line there, else the second level by the same rule, else it comes from
    memory, or is out of bounds beyond it; every block delivered is the block of memory.
    The hits of both levels and the misses of the second are counted modulo 2^32; the
    misses of the first stay 0.  A run with one of the last eight addresses reads
    outside the memory. *)
Theorem two_level_cache_refines mem l :
  len mem = MAIN_MEMORY_SIZE -> Forall (fun a => 0 <= a < UINT32) l ->
  if forallb (fun a => a <? UINT32 - BLOCK_SIZE) l then
    exists st, accesses (init_caches mem) l = Ok (st, ref_accesses mem [] l) /\ main_memory st = mem /\
      l1_hits st = u32 (count is_L1 (ref_accesses mem [] l)) /\
      l2_hits st = u32 (count is_L2 (ref_accesses mem [] l)) /\
      l2_misses st = u32 (count is_miss (ref_accesses mem [] l)) /\ l1_misses st = 0
  else accesses (init_caches mem) l = Fault OutOfBounds.
Proof.
  intros Hm Hl. destruct (forallb _ l) eqn:Hw.
  - destruct (accesses_ok mem l [] [] (init_caches mem) Hm) as (st & hist & E & Hok); [|apply init_caches_ok|].
    + rewrite forallb_forall in Hw. rewrite list.Forall_forall in *. intros a Ha. specialize (Hl a Ha). apply list_elem_of_In in Ha. apply Hw, Z.ltb_lt in Ha. lia.
    + destruct Hok as (? & _ & _ & ? & ? & ? & ? & _). by exists st.
  - apply (accesses_wrap mem l [] []); [done|done|apply init_caches_ok|done].
Qed.

(** The last eight addresses wrap the bound check and read past the memory. *)
Lemma wrapped_bound_check :
  memory_access (init_caches main_memory_init) (UINT32 - 1) = Fault OutOfBounds.
Proof. vm_compute. reflexivity. Qed.

(** The number of first-level misses is never counted. *)
Lemma l1_misses_constant st a st' o :
  memory_access st a = Ok (st', o) -> l1_misses st' = l1_misses st.
Proof.
  destruct st as [l1 l2 mem h1 m1 h2 m2]. unfold memory_access. intros H.
  repeat match type of H with
  | mbind _ _ = Ok _ => apply bind_Ok in H as (? & ? & H)
  | match ?x with Some _ => _ | None => _ end = Ok _ => destruct x
  | (if ?b then _ else _) = Ok _ => destruct b
  end; by injection H as <- <-.
Qed.

Lemma two_level_cache_refines_witness :
  (exists st, accesses (init_caches (replicate 8192 7)) [0x100; 0x101; 0x4100; 0x300; 0x100] =
      Ok (st, [From_memory (replicate 8 7); L1_hit (replicate 8 7); Out_of_bounds; From_memory (replicate 8 7);
               L2_hit (replicate 8 7)]) /\
    main_memory st = replicate 8192 7 /\ l1_hits st = 1 /\ l2_hits st = 1 /\ l2_misses st = 3 /\ l1_misses st = 0) /\
  accesses (init_caches (replicate 8192 7)) [0x100; 0xfffffff9] = Fault OutOfBounds.
Proof.
  split.
  - apply (two_level_cache_refines (replicate 8192 7) [0x100; 0x101; 0x4100; 0x300; 0x100]).
    + vm_compute. reflexivity.
    + repeat constructor; vm_compute; (discriminate || reflexivity).
  - apply (two_level_cache_refines (replicate 8192 7) [0x100; 0xfffffff9]).
    + vm_compute. reflexivity.
    + repeat constructor; vm_compute; (discriminate || reflexivity).
Defined.
