(* ===== verification/CacheController.v ===== *)
(** * A set-associative write-back cache ([accessPatterns/memoryController.c])

    A set holds up to four lines.  The value of [clock()], the two fields of a
    fresh line that [malloc] leaves uninitialised and the first [rand()] after
    [srand(seed)] are arguments; allocation succeeds.  The theorem says that
    the cache is transparent as long as no dirty line of a block other than
    block 0 is evicted: the write-back address is computed from the block
    number as if it were a tag. *)
From Stdlib Require Import ZArith Lia.
From stdpp Require Import base tactics list numbers option.
From S2P Require Import Prelude.

#[local] Open Scope Z_scope.
#[local] Open Scope c_scope.

Definition MEMORY_SIZE : Z := 1024 * 1024.
Definition CACHE_SIZE : Z := 64 * 1024.
Definition CACHE_LINE_SIZE : Z := 64.
Definition NUM_CACHE_LINES : Z := CACHE_SIZE / CACHE_LINE_SIZE.
Definition MAX_CACHE_SETS : Z := 4.

Inductive AccessMode : Type := Read | Write.
Inductive ReplacementPolicy : Type := LRU | Random.

Record CacheLine : Type := mkLine { data : list Z; tag : Z; dirty : bool; last_used : Z }.

Record MemoryController : Type := mkMC {
  main_memory : list Z;
  cache : list (list (option CacheLine));
  replacement_policy : ReplacementPolicy;
  rng_seed : Z
}.

(** [mem] is what [malloc] returned, [now] the time. *)
Definition MemoryController_new (mem : list Z) (now : Z) : MemoryController :=
  mkMC mem (replicate (Z.to_nat NUM_CACHE_LINES) (replicate (Z.to_nat MAX_CACHE_SETS) None)) LRU (u64 now).

Definition has_tag (t : Z) (e : option CacheLine) : bool :=
  match e with Some l => tag l =? t | None => false end.

Definition is_empty (e : option CacheLine) : bool :=
  match e with Some _ => false | None => true end.

Definition deref (e : option CacheLine) : res CacheLine :=
  match e with Some l => Ok l | None => Fault NullDeref end.

(** The line after a read or a write that hits it, and the value read or
    written. *)
Definition touch_line (l : CacheLine) (offset : Z) (mode : AccessMode) (d : Z) : res (CacheLine * Z) :=
  match mode with
  | Read => v ← (data l).[offset]; Ok (l, v)
  | Write => bytes ← (data l).[offset <- d]; Ok (mkLine bytes (tag l) true (last_used l), d)
  end.

(** One pass of the search for the least recently used line. *)
Definition lru_pass (set : list (option CacheLine)) (i victim : Z) : res Z :=
  e ← set.[i];
  l ← deref e;
  e' ← set.[victim];
  l' ← deref e';
  Ok (if last_used l <? last_used l' then i else victim).

(** The victim and the next seed. *)
Definition choose_victim (rand_of : Z -> Z) (policy : ReplacementPolicy) (seed : Z)
    (set : list (option CacheLine)) : res (Z * Z) :=
  match policy with
  | LRU => v ← for_range (Z.to_nat (MAX_CACHE_SETS - 1)) 1 (lru_pass set) 0; Ok (v, seed)
  | Random => Ok (Z.rem (rand_of seed) MAX_CACHE_SETS, u64 (seed + 1))
  end.

Definition write_back_address (l : CacheLine) (cache_line : Z) : Z :=
  u64 (u64 (u64 (tag l * NUM_CACHE_LINES) + cache_line) * CACHE_LINE_SIZE).

(** Memory after the victim has been written back if it is dirty. *)
Definition write_back (mem : list Z) (l : CacheLine) (cache_line : Z) : res (list Z) :=
  if dirty l then copy_to mem (write_back_address l cache_line) (data l) else Ok mem.

(** Put a fresh line into a set: an empty slot if there is one, else evict. *)
Definition place_line (rand_of : Z -> Z) (mc : MemoryController) (cache_line : Z)
    (set : list (option CacheLine)) (new_entry : CacheLine) : res (MemoryController * list (option CacheLine)) :=
  match find_index is_empty set with
  | Some i => set' ← set.[i <- Some new_entry]; Ok (mc, set')
  | None =>
      '(v, seed) ← choose_victim rand_of (replacement_policy mc) (rng_seed mc) set;
      e ← set.[v];
      l ← deref e;
      mem ← write_back (main_memory mc) l cache_line;
      set' ← set.[v <- Some new_entry];
      Ok (mkMC mem (cache mc) (replacement_policy mc) seed, set')
  end.

Definition set_cache (mc : MemoryController) (c : list (list (option CacheLine))) : MemoryController :=
  mkMC (main_memory mc) c (replacement_policy mc) (rng_seed mc).

(** [now] is [clock()]; [junk_dirty] and [junk_used] are the uninitialised
    fields of a fresh line.  The fresh line is touched before it is placed;
    nothing reads its bytes in between. *)
Definition MemoryController_access (rand_of : Z -> Z) (now : Z) (junk_dirty : bool) (junk_used : Z)
    (mc : MemoryController) (address : Z) (mode : AccessMode) (d : Z) : res (MemoryController * Z) :=
  let cache_line := (address / CACHE_LINE_SIZE) mod NUM_CACHE_LINES in
  let t := address / CACHE_LINE_SIZE in
  let offset := address mod CACHE_LINE_SIZE in
  set ← (cache mc).[cache_line];
  match find_index (has_tag t) set with
  | Some i =>
      e ← set.[i];
      l ← deref e;
      '(l', v) ← touch_line (mkLine (data l) (tag l) (dirty l) now) offset mode d;
      set' ← set.[i <- Some l'];
      c ← (cache mc).[cache_line <- set'];
      Ok (set_cache mc c, v)
  | None =>
      bytes ← copy_from (main_memory mc) (address - offset) (Z.to_nat CACHE_LINE_SIZE);
      '(new_entry, v) ← touch_line (mkLine bytes t junk_dirty junk_used) offset mode d;
      '(mc1, set') ← place_line rand_of mc cache_line set new_entry;
      c ← (cache mc1).[cache_line <- set'];
      Ok (set_cache mc1 c, v)
  end.

Definition MemoryController_setReplacementPolicy (mc : MemoryController) (p : ReplacementPolicy)
    : MemoryController :=
  mkMC (main_memory mc) (cache mc) p (rng_seed mc).

(** The tags and dirty flags shown for each set. *)
Definition MemoryController_displayCacheStatus (mc : MemoryController) : list (list (option (Z * bool))) :=
  map (map (option_map (fun l => (tag l, dirty l)))) (cache mc).

(** The accesses of [main] before and after the change of policy. *)
Definition access_script (rand_of : Z -> Z) (now : Z) (junk_dirty : bool) (junk_used : Z) :=
  fix go (mc : MemoryController) (l : list (Z * AccessMode * Z)) : res (MemoryController * list Z) :=
    match l with
    | [] => Ok (mc, [])
    | (a, mode, d) :: l' =>
        '(mc1, v) ← MemoryController_access rand_of now junk_dirty junk_used mc a mode d;
        '(mc2, vs) ← go mc1 l';
        Ok (mc2, v :: vs)
    end.

Definition controller_main (rand_of : Z -> Z) (now : Z) (junk_dirty : bool) (junk_used : Z) (mem : list Z)
    : res (list Z) :=
  '(mc, v1) ← access_script rand_of now junk_dirty junk_used (MemoryController_new mem now)
     [(0, Write, 42); (0, Read, 0); (64, Write, 100); (128, Write, 200); (0, Read, 0)];
  '(_, v2) ← access_script rand_of now junk_dirty junk_used (MemoryController_setReplacementPolicy mc Random)
     [(1024, Write, 50); (2048, Write, 75); (64, Read, 0)];
  Ok (v1 ++ v2).

(** ** Specification *)

(** The bytes of block [t] in memory. *)
Definition block (mem : list Z) (t : Z) : list Z := take 64 (drop (Z.to_nat (64 * t)) mem).

Definition line_ok (mem : list Z) (i : Z) (l : CacheLine) : Prop :=
  tag l mod NUM_CACHE_LINES = i /\ 0 <= tag l < MEMORY_SIZE / CACHE_LINE_SIZE /\
  len (data l) = CACHE_LINE_SIZE /\ (dirty l = false -> data l = block mem (tag l)).

(** Lines belong to their set, have distinct tags, and clean lines agree with
    memory. *)
Definition set_ok (mem : list Z) (i : Z) (set : list (option CacheLine)) : Prop :=
  len set = MAX_CACHE_SETS /\
  (forall j l, zget set j = Some (Some l) -> line_ok mem i l) /\
  (forall j k l l', zget set j = Some (Some l) -> zget set k = Some (Some l') -> tag l = tag l' -> j = k).

Definition controller_ok (mc : MemoryController) : Prop :=
  len (main_memory mc) = MEMORY_SIZE /\ len (cache mc) = NUM_CACHE_LINES /\
  forall i set, zget (cache mc) i = Some set -> set_ok (main_memory mc) i set.

(** The byte at an address, as seen through the cache. *)
Definition set_view (mem : list Z) (set : list (option CacheLine)) (a : Z) : option Z :=
  match find_index (has_tag (a / CACHE_LINE_SIZE)) set with
  | Some i =>
      match zget set i with Some (Some l) => zget (data l) (a mod CACHE_LINE_SIZE) | _ => None end
  | None => zget mem a
  end.

Definition view (mc : MemoryController) (a : Z) : option Z :=
  match zget (cache mc) ((a / CACHE_LINE_SIZE) mod NUM_CACHE_LINES) with
  | Some set => set_view (main_memory mc) set a
  | None => None
  end.

(** An access to [a] evicts no dirty line. *)
Definition evicts_clean (rand_of : Z -> Z) (mc : MemoryController) (a : Z) : Prop :=
  forall set v seed l,
    zget (cache mc) ((a / CACHE_LINE_SIZE) mod NUM_CACHE_LINES) = Some set ->
    find_index (has_tag (a / CACHE_LINE_SIZE)) set = None -> find_index is_empty set = None ->
    choose_victim rand_of (replacement_policy mc) (rng_seed mc) set = Ok (v, seed) ->
    zget set v = Some (Some l) -> dirty l = false.

Section sets.
Context (mem : list Z) (i : Z).
Implicit Types (set : list (option CacheLine)) (l : CacheLine).

Lemma find_tag set j l :
  set_ok mem i set -> zget set j = Some (Some l) -> find_index (has_tag (tag l)) set = Some j.
Proof.
  intros (_ & _ & Hu) E. apply find_index_Some. exists (Some l). split; [done|].
  split; [apply Z.eqb_refl|]. intros k [l'|] Hk Hl'; [|done]. simpl.
  destruct (Z.eqb_spec (tag l') (tag l)) as [Ht|]; [|done]. pose proof (Hu _ _ _ _ Hl' E Ht). lia.
Qed.

Lemma find_tag_inv set t j :
  find_index (has_tag t) set = Some j -> exists l, zget set j = Some (Some l) /\ tag l = t.
Proof.
  intros (e & He & Ht & _)%find_index_Some. destruct e as [l|]; [|done].
  exists l. split; [done|]. by apply Z.eqb_eq.
Qed.

Lemma find_tag_none set t j l : find_index (has_tag t) set = None -> zget set j = Some (Some l) -> tag l <> t.
Proof. rewrite find_index_None. intros H E%H. simpl in E. by apply Z.eqb_neq in E. Qed.

(** Replacing slot [k]: only the new tag and the tag that was there change. *)
Lemma set_replace set k l :
  set_ok mem i set -> 0 <= k < MAX_CACHE_SETS -> line_ok mem i l ->
  (forall j l', zget set j = Some (Some l') -> tag l' = tag l -> j = k) ->
  set_ok mem i (zset set k (Some l)) /\
  forall t, t <> tag l ->
    find_index (has_tag t) (zset set k (Some l)) =
      match zget set k with
      | Some e => if has_tag t e then None else find_index (has_tag t) set
      | None => None
      end.
Proof.
  intros Hs Hk Hl Hnew. pose proof Hs as (Hlen & Hok & Hu).
  assert (forall j, zget (zset set k (Some l)) j = if j =? k then Some (Some l) else zget set j) as Hg.
  { intros j. rewrite zget_zset. rewrite (proj2 (in_range_true k _)) by lia. by rewrite andb_true_r. }
  assert (set_ok mem i (zset set k (Some l))) as Hs'.
  { split; [by rewrite length_zset|]. split.
    - intros j l'. rewrite Hg. case_cond; [by intros [= <-]|apply Hok].
    - intros j j' l1 l2. rewrite !Hg. repeat case_cond; subst; intros E1 E2 Ht; simplify_eq; try done.
      + symmetry. by eapply Hnew.
      + by eapply Hnew.
      + by eapply Hu. }
  split; [done|]. intros t Ht. destruct (zget_range set k) as [e He]; [lia|]. rewrite He.
  destruct (has_tag t e) eqn:Het.
  - apply find_index_None. intros j e'. rewrite Hg. case_cond.
    + intros [= <-]. simpl. by apply Z.eqb_neq.
    + intros E. destruct e' as [l'|]; [|done]. simpl. apply Z.eqb_neq. intros Ht'.
      destruct e as [l0|]; [|done]. simpl in Het. apply Z.eqb_eq in Het.
      assert (j = k); [|done]. eapply Hu; [done..|congruence].
  - destruct (find_index (has_tag t) set) as [j|] eqn:Hf.
    + apply find_tag_inv in Hf as (l' & E & <-).
      assert (j <> k) as Hjk. { intros ->. rewrite He in E. injection E as ->. simpl in Het. by rewrite Z.eqb_refl in Het. }
      apply find_tag; [done|]. rewrite Hg. by case_cond.
    + apply find_index_None. intros j e' E. rewrite Hg in E. revert E. case_cond.
      * intros [= <-]. simpl. by apply Z.eqb_neq.
      * intros E. by apply (proj1 (find_index_None _ _) Hf _ _ E).
Qed.
End sets.

Lemma zget_block mem b : 0 <= b -> zget (block mem (b / 64)) (b mod 64) = zget mem b.
Proof.
  intros Hb. unfold block, zget.
  destruct (Z.leb_spec 0 (b mod 64)); [|dlia]. destruct (Z.leb_spec 0 b); [|lia].
  rewrite lookup_take_lt by dlia. rewrite lookup_drop. f_equal. dlia.
Qed.

Lemma touch_line_ok l a mode d :
  len (data l) = CACHE_LINE_SIZE ->
  exists l' v, touch_line l (a mod CACHE_LINE_SIZE) mode d = Ok (l', v) /\ tag l' = tag l /\
    len (data l') = CACHE_LINE_SIZE /\
    match mode with
    | Read => l' = l /\ zget (data l) (a mod CACHE_LINE_SIZE) = Some v
    | Write => dirty l' = true /\ data l' = zset (data l) (a mod CACHE_LINE_SIZE) d /\ v = d
    end.
Proof.
  intros Hl. pose proof (Z.mod_pos_bound a CACHE_LINE_SIZE ltac:(done)) as Ho. destruct mode; simpl.
  - destruct (zget_range (data l) (a mod CACHE_LINE_SIZE)) as [v E]; [lia|].
    rewrite (arr_read_Ok _ _ _ E). by exists l, v.
  - rewrite arr_write_Ok by lia. eexists _, d. split; [done|]. simpl. by rewrite length_zset.
Qed.

(** The search for a victim in a full set ends at one of its lines; with the
    policy LRU none was used earlier. *)
Lemma choose_victim_ok rand_of policy seed mem i set :
  (forall s, 0 <= rand_of s) -> set_ok mem i set -> find_index is_empty set = None ->
  exists v seed' l, choose_victim rand_of policy seed set = Ok (v, seed') /\ zget set v = Some (Some l) /\
    (policy = LRU -> forall j l', zget set j = Some (Some l') -> last_used l <= last_used l').
Proof.
  intros Hr (Hlen & _) Hfull. unfold MAX_CACHE_SETS in Hlen.
  assert (forall j, 0 <= j < 4 -> exists l, zget set j = Some (Some l)) as Hall.
  { intros j Hj. destruct (zget_range set j) as [[l|] E]; [lia|by eauto|].
    by pose proof (proj1 (find_index_None _ _) Hfull _ _ E). }
  destruct policy; cbn [choose_victim].
  - destruct (for_range_inv (fun i v => 0 <= v < 4 /\ forall l j l', zget set v = Some (Some l) -> j < i ->
        zget set j = Some (Some l') -> last_used l <= last_used l') 3 1 (lru_pass set) 0) as (v & Hv & Hv4 & Hmin).
    + split; [lia|]. intros l j l' E Hj E'. pose proof (zget_Some_range _ _ _ E').
      replace j with 0 in E' by lia. rewrite E in E'. injection E' as ->. lia.
    + intros j v Hj (Hv & Hm). destruct (Hall j) as [l E]; [lia|]. destruct (Hall v Hv) as [l' E'].
      unfold lru_pass. rewrite (arr_read_Ok _ _ _ E), (arr_read_Ok _ _ _ E'). cbn.
      eexists. split; [done|]. split; [case_cond; lia|]. intros l1 k lk E1 Hk Ek.
      destruct (decide (k = j)) as [->|Hne].
      * rewrite E in Ek. injection Ek as <-. revert E1. case_cond; intros E1.
        -- rewrite E in E1. injection E1 as <-. lia.
        -- rewrite E' in E1. injection E1 as <-. lia.
      * pose proof (Hm l' k lk E' ltac:(lia) Ek). revert E1. case_cond; intros E1.
        -- rewrite E in E1. injection E1 as <-. lia.
        -- rewrite E' in E1. injection E1 as <-. lia.
    + change (Z.to_nat (MAX_CACHE_SETS - 1)) with 3%nat. rewrite Hv, bind_ret_l.
      destruct (Hall v Hv4) as [l E]. exists v, seed, l. split_and!; [done..|]. intros _ j l' E'.
      apply (Hmin l j l' E); [|done]. apply zget_Some_range in E'. lia.
  - pose proof (Hr seed). unfold MAX_CACHE_SETS. rewrite Z.rem_mod_nonneg by lia.
    destruct (Hall (rand_of seed mod 4)) as [l E]; [by apply Z.mod_pos_bound|].
    by exists (rand_of seed mod 4), (u64 (seed + 1)), l.
Qed.

(** The effect of an access on what is seen. *)
Definition seen_after (mc : MemoryController) (a : Z) (mode : AccessMode) (d b : Z) : option Z :=
  match mode with
  | Write => if b =? a then Some d else view mc b
  | Read => view mc b
  end.

Section replace.
Context (mc : MemoryController) (a : Z) (mode : AccessMode) (d : Z).
Abbreviation cl := ((a / CACHE_LINE_SIZE) mod NUM_CACHE_LINES).
Hypothesis Hmc : controller_ok mc.
Hypothesis Ha : 0 <= a < MEMORY_SIZE.

(** Storing the touched line [l'] of the block of [a] over a slot that was
    empty, held that block, or held a clean line. *)
Lemma replace_slot_ok set k e l l' v seed :
  zget (cache mc) cl = Some set -> zget set k = Some e ->
  line_ok (main_memory mc) cl l -> tag l = a / CACHE_LINE_SIZE ->
  (forall b, 0 <= b -> b / CACHE_LINE_SIZE = tag l ->
     zget (data l) (b mod CACHE_LINE_SIZE) = set_view (main_memory mc) set b) ->
  (forall j l0, zget set j = Some (Some l0) -> tag l0 = tag l -> j = k) ->
  match e with Some l0 => tag l0 = tag l \/ dirty l0 = false | None => True end ->
  touch_line l (a mod CACHE_LINE_SIZE) mode d = Ok (l', v) ->
  let mc' := mkMC (main_memory mc) (zset (cache mc) cl (zset set k (Some l'))) (replacement_policy mc) seed in
  controller_ok mc' /\ (mode = Read -> Some v = view mc a) /\ (mode = Write -> v = d) /\
  forall b, 0 <= b -> view mc' b = seen_after mc a mode d b.
Proof.
  intros Eset Ek Hl Ht Hdata Hnew He Htouch mc'. destruct Hmc as (Hlm & Hlc & Hsets).
  pose proof Hl as (Hl1 & Hl2 & Hl3 & Hl4).
  destruct (touch_line_ok l a mode d Hl3) as (l1 & v1 & E & Ht' & Hlen' & Hmode).
  rewrite Htouch in E. injection E as <- <-.
  assert (line_ok (main_memory mc) cl l') as Hl'.
  { split; [by rewrite Ht'|]. split; [by rewrite Ht'|]. split; [done|].
    destruct mode; [destruct Hmode as [-> _]; apply Hl4|]. destruct Hmode as (Hd & _). congruence. }
  pose proof (Hsets _ _ Eset) as Hs.
  assert (0 <= k < MAX_CACHE_SETS) as Hk. { apply zget_Some_range in Ek. destruct Hs as [<- _]. lia. }
  destruct (set_replace (main_memory mc) cl set k l' Hs Hk Hl') as [Hs' Hfind].
  { intros j l0 Ej Htj. apply (Hnew j l0 Ej). congruence. }
  pose proof (zget_Some_range _ _ _ Eset) as Hcl.
  assert (forall b, 0 <= b -> view mc' b = seen_after mc a mode d b) as Hview.
  { intros b Hb. unfold seen_after, view, mc'. cbn [cache main_memory]. rewrite zget_zset.
    rewrite (proj2 (in_range_true cl _)) by lia. rewrite andb_true_r.
    destruct (Z.eqb_spec ((b / CACHE_LINE_SIZE) mod NUM_CACHE_LINES) cl) as [Ecl|Ecl].
    2: { destruct mode; [done|]. destruct (Z.eqb_spec b a) as [->|]; done. }
    rewrite Ecl, Eset. destruct (decide (b / CACHE_LINE_SIZE = tag l)) as [Etag|Etag].
    - unfold set_view at 1. rewrite Etag, <- Ht'.
      rewrite (find_tag (main_memory mc) cl _ k l' Hs'); [|apply zget_zset_eq; destruct Hs; lia].
      rewrite zget_zset_eq by (destruct Hs; lia). rewrite <- (Hdata b Hb Etag). destruct mode.
      + by destruct Hmode as [-> _].
      + destruct Hmode as (_ & -> & _). rewrite zget_zset.
        rewrite (proj2 (in_range_true (a mod CACHE_LINE_SIZE) _))
          by (rewrite Hl3; by apply Z.mod_pos_bound).
        rewrite andb_true_r. rewrite Ht in Etag. unfold CACHE_LINE_SIZE in *.
        destruct (Z.eqb_spec (b mod 64) (a mod 64)), (Z.eqb_spec b a); try done; subst; try done.
        exfalso. dlia.
    - assert (b <> a) as Hba by (intros ->; congruence).
      transitivity (set_view (main_memory mc) set b);
        [|destruct mode; [done|]; by destruct (Z.eqb_spec b a)].
      unfold set_view. rewrite Hfind by congruence. rewrite Ek.
      destruct e as [l0|]; cbn [has_tag].
      + destruct (Z.eqb_spec (tag l0) (b / CACHE_LINE_SIZE)) as [E0|E0].
        * rewrite <- E0, (find_tag (main_memory mc) cl set k l0) by done. rewrite Ek.
          destruct He as [He|He]; [congruence|].
          destruct Hs as (_ & Hlines & _). destruct (Hlines _ _ Ek) as (_ & _ & _ & Hclean).
          rewrite (Hclean He), E0. symmetry. by apply zget_block.
        * destruct (find_index _ set) as [j|] eqn:Ej; [|done].
          destruct (find_tag_inv _ _ _ Ej) as (lj & Elj & Htj).
          rewrite zget_zset_ne; [done|]. intros <-. congruence.
      + destruct (find_index _ set) as [j|] eqn:Ej; [|done].
        destruct (find_tag_inv _ _ _ Ej) as (lj & Elj & Htj).
        rewrite zget_zset_ne; [done|]. intros <-. congruence. }
  split_and!; [| | |done].
  - split; [done|]. split; [cbn; by rewrite length_zset|]. intros i set'. cbn [cache mc' main_memory].
    rewrite zget_zset. destruct (Z.eqb_spec i cl) as [->|]; simpl; [|apply Hsets].
    rewrite (proj2 (in_range_true cl _)) by lia. by intros [= <-].
  - intros ->. destruct Hmode as [_ Hv]. rewrite Hdata in Hv by (done || lia).
    unfold view. by rewrite Eset.
  - intros ->. by destruct Hmode as (_ & _ & ?).
Qed.
End replace.

Lemma copy_block mc a :
  controller_ok mc -> 0 <= a < MEMORY_SIZE ->
  copy_from (main_memory mc) (a - a mod CACHE_LINE_SIZE) (Z.to_nat CACHE_LINE_SIZE) =
    Ok (block (main_memory mc) (a / CACHE_LINE_SIZE)) /\
  len (block (main_memory mc) (a / CACHE_LINE_SIZE)) = CACHE_LINE_SIZE.
Proof.
  intros (Hlm & _) Ha. unfold CACHE_LINE_SIZE, MEMORY_SIZE in *.
  replace (a - a mod 64) with (64 * (a / 64)) by dlia.
  rewrite copy_from_Ok by dlia. split; [done|]. unfold block. rewrite length_take, length_drop. dlia.
Qed.

(** The line a miss brings in. *)
Lemma fresh_line_ok mc a jd ju :
  controller_ok mc -> 0 <= a < MEMORY_SIZE ->
  line_ok (main_memory mc) ((a / CACHE_LINE_SIZE) mod NUM_CACHE_LINES)
    (mkLine (block (main_memory mc) (a / CACHE_LINE_SIZE)) (a / CACHE_LINE_SIZE) jd ju).
Proof.
  intros Hmc Ha. split; [done|]. split; [|split; [by apply copy_block|done]].
  cbn. unfold MEMORY_SIZE, CACHE_LINE_SIZE in *. dlia.
Qed.

(** C38.  The cache is transparent: an access to an address of the memory that
    evicts no dirty line returns the byte seen there (or the byte written),
    changes what is seen at that address only by a write, and at no other
    address; it preserves the invariant of the sets. *)
Theorem controller_access_transparent rand_of now jd ju mc a mode d :
  (forall s, 0 <= rand_of s) -> controller_ok mc -> 0 <= a < MEMORY_SIZE -> evicts_clean rand_of mc a ->
  exists mc' v, MemoryController_access rand_of now jd ju mc a mode d = Ok (mc', v) /\ controller_ok mc' /\
    (mode = Read -> Some v = view mc a) /\ (mode = Write -> v = d) /\
    forall b, 0 <= b -> view mc' b = seen_after mc a mode d b.
Proof.
  intros Hr Hmc Ha Hclean. pose proof Hmc as (Hlm & Hlc & Hsets). unfold MemoryController_access.
  set (cl := (a / CACHE_LINE_SIZE) mod NUM_CACHE_LINES).
  assert (0 <= cl < NUM_CACHE_LINES) as Hcl by by apply Z.mod_pos_bound.
  destruct (zget_range (cache mc) cl) as [set Eset]; [lia|]. rewrite (arr_read_Ok _ _ _ Eset), bind_ret_l.
  pose proof (Hsets _ _ Eset) as Hs. pose proof Hs as (Hls & Hlines & _).
  destruct (find_index (has_tag (a / CACHE_LINE_SIZE)) set) as [i|] eqn:Hf.
  - destruct (find_tag_inv _ _ _ Hf) as (l & El & Ht). rewrite (arr_read_Ok _ _ _ El). cbn [mbind res_bind deref].
    pose proof (Hlines _ _ El) as Hl. pose proof Hl as (_ & _ & Hl3 & _).
    set (l1 := mkLine (data l) (tag l) (dirty l) now).
    destruct (touch_line_ok l1 a mode d Hl3) as (l' & v & Et & _). rewrite Et. cbn [mbind res_bind].
    pose proof (zget_Some_range _ _ _ El). rewrite (arr_write_Ok set) by lia. cbn [mbind res_bind].
    rewrite arr_write_Ok by lia. eexists _, v. split; [done|].
    apply (replace_slot_ok mc a mode d Hmc Ha set i (Some l) l1 l' v (rng_seed mc)); try done.
    + intros b Hb Hbt. unfold set_view. cbn [tag l1] in Hbt. rewrite Hbt, Ht, Hf, El. done.
    + intros j l0 Ej Htj. destruct Hs as (_ & _ & Hu). by apply (Hu j i l0 l).
    + by left.
  - destruct (copy_block mc a Hmc Ha) as [-> Hlb]. rewrite bind_ret_l.
    set (l := mkLine (block (main_memory mc) (a / CACHE_LINE_SIZE)) (a / CACHE_LINE_SIZE) jd ju).
    pose proof (fresh_line_ok mc a jd ju Hmc Ha) as Hl.
    destruct (touch_line_ok l a mode d Hlb) as (l' & v & Et & _). rewrite Et. cbn [mbind res_bind].
    assert (forall k e seed, zget set k = Some e ->
      match e with Some l0 => tag l0 = tag l \/ dirty l0 = false | None => True end ->
      let mc' := mkMC (main_memory mc) (zset (cache mc) cl (zset set k (Some l'))) (replacement_policy mc) seed in
      controller_ok mc' /\ (mode = Read -> Some v = view mc a) /\ (mode = Write -> v = d) /\
      forall b, 0 <= b -> view mc' b = seen_after mc a mode d b) as Hrep.
    { intros k e seed Ek He. apply (replace_slot_ok mc a mode d Hmc Ha set k e l); try done.
      - intros b Hb Hbt. unfold set_view. cbn [tag data l] in *. rewrite Hbt, Hf, <- Hbt. by apply zget_block.
      - intros j l0 Ej Htj. by destruct (find_tag_none _ _ _ _ Hf Ej). }
    unfold place_line. destruct (find_index is_empty set) as [k|] eqn:Hempty.
    + apply find_index_Some in Hempty as (e & Ek & He & _). pose proof (zget_Some_range _ _ _ Ek).
      rewrite (arr_write_Ok set) by lia. cbn [mbind res_bind]. rewrite arr_write_Ok by lia.
      eexists _, v. split; [done|]. apply (Hrep k e); [done|by destruct e].
    + destruct (choose_victim_ok rand_of (replacement_policy mc) (rng_seed mc) _ _ set Hr Hs Hempty)
        as (k & seed & lk & Ev & Ek & _).
      pose proof (zget_Some_range _ _ _ Ek). rewrite Ev. cbn [mbind res_bind].
      rewrite (arr_read_Ok _ _ _ Ek). cbn [mbind res_bind deref].
      pose proof (Hclean set k seed lk Eset Hf Hempty Ev Ek) as Hd. unfold write_back. rewrite Hd.
      cbn [mbind res_bind]. rewrite (arr_write_Ok set) by lia. cbn [mbind res_bind cache].
      rewrite arr_write_Ok by lia. eexists _, v. split; [done|].
      apply (Hrep k (Some lk) seed); [done|by right].
Qed.

Lemma write_back_address_eq l :
  0 <= tag l < MEMORY_SIZE / CACHE_LINE_SIZE ->
  write_back_address l (tag l mod NUM_CACHE_LINES) = (tag l * 1024 + tag l mod 1024) * 64.
Proof.
  change (MEMORY_SIZE / CACHE_LINE_SIZE) with 16384. intros Ht. unfold write_back_address.
  change NUM_CACHE_LINES with 1024. unfold CACHE_LINE_SIZE.
  pose proof (Z.mod_pos_bound (tag l) 1024 ltac:(done)).
  rewrite (u64_id (tag l * 1024)) by (unfold UINT64; lia).
  rewrite (u64_id (tag l * 1024 + _)) by (unfold UINT64; lia). apply u64_id. unfold UINT64. lia.
Qed.

(** A dirty line is written back to its own block only if that is block 0. *)
Lemma write_back_address_wrong l :
  0 <= tag l < MEMORY_SIZE / CACHE_LINE_SIZE ->
  write_back_address l (tag l mod NUM_CACHE_LINES) = CACHE_LINE_SIZE * tag l <-> tag l = 0.
Proof.
  intros Ht. rewrite write_back_address_eq by done. unfold CACHE_LINE_SIZE.
  pose proof (Z.mod_pos_bound (tag l) 1024 ltac:(done)). split; [lia|]. by intros ->.
Qed.

(** From block 16 on the write-back leaves the memory: the program faults. *)
Lemma write_back_out_of_bounds mem l :
  len mem = MEMORY_SIZE -> dirty l = true -> len (data l) = CACHE_LINE_SIZE ->
  16 <= tag l < MEMORY_SIZE / CACHE_LINE_SIZE ->
  write_back mem l (tag l mod NUM_CACHE_LINES) = Fault OutOfBounds.
Proof.
  intros Hm Hd Hl Ht. unfold write_back. rewrite Hd, write_back_address_eq by lia.
  pose proof (Z.mod_pos_bound (tag l) 1024 ltac:(done)). unfold CACHE_LINE_SIZE, MEMORY_SIZE in *.
  unfold copy_to. case_cond; [lia|done].
Qed.

Lemma controller_new_ok mem now : len mem = MEMORY_SIZE -> controller_ok (MemoryController_new mem now).
Proof.
  intros Hm. split; [done|]. split; [reflexivity|]. intros i set E. apply zget_replicate in E. subst set.
  assert (forall j l, zget (replicate (Z.to_nat MAX_CACHE_SETS) (@None CacheLine)) j <> Some (Some l)) as Hn.
  { intros j l E. by apply zget_replicate in E. }
  split; [reflexivity|]. split; [intros j l E|intros j k l l' E]; by destruct (Hn _ _ E).
Qed.

Lemma controller_access_transparent_witness :
  exists mc' v, MemoryController_access (fun s => s mod 7) 5 true 9
      (MemoryController_new (replicate (Z.to_nat MEMORY_SIZE) 3) 0) 100 Read 0 = Ok (mc', v) /\
    controller_ok mc' /\
    (Read = Read -> Some v = view (MemoryController_new (replicate (Z.to_nat MEMORY_SIZE) 3) 0) 100) /\
    (Read = Write -> v = 0) /\
    forall b, 0 <= b -> view mc' b =
      seen_after (MemoryController_new (replicate (Z.to_nat MEMORY_SIZE) 3) 0) 100 Read 0 b.
Proof.
  apply (controller_access_transparent (fun s => s mod 7) 5 true 9
    (MemoryController_new (replicate (Z.to_nat MEMORY_SIZE) 3) 0) 100 Read 0).
  - intros s. apply Z.mod_pos_bound. lia.
  - apply controller_new_ok. rewrite length_replicate. apply Z2Nat.id. discriminate.
  - split; [lia|reflexivity].
  - intros set v seed l E Hf He Hv El. apply zget_replicate in E. subst set.
    by apply zget_replicate in El.
Defined.
