(* ===== verification/RwGrouping.v ===== *)
(** * Read and write grouping with a TLB ([accessPatterns/readWriteGrouping.c])

    Two queues of requests, a bus mode, a translation buffer and bank timers.
    The time stamp counter is a state component; the parameter [next_tsc] is
    the value a read of it gives after the last one.  The theorems: the queues
    are bounded FIFOs, translation is independent of the buffer's contents,
    and the processing loop serves every read and no write. *)
From Stdlib Require Import ZArith Lia.
From stdpp Require Import base tactics list numbers option.
From S2P Require Import Prelude Ring.

#[local] Open Scope Z_scope.
#[local] Open Scope c_scope.

Definition MAX_QUEUE_SIZE : Z := 1024.
Definition NUM_BANKS : Z := 16.
Definition CACHE_LINE_SIZE : Z := 64.
Definition TLB_SIZE : Z := 64.

Inductive BusMode : Type := READ_MODE | WRITE_MODE | MODE_TRANSITION.
#[export] Instance BusMode_eq_dec : EqDecision BusMode.
Proof. solve_decision. Defined.

Record MemoryRequest : Type := mkReq {
  address : Z;
  rdata : Z;
  priority : Z;
  timestamp : Z
}.

Record Queue : Type := mkQueue {
  requests : list MemoryRequest;
  head : Z;
  tail : Z;
  size : Z;
  total_age : Z;
  lock : bool
}.

Record TLBEntry : Type := mkTLB { logical_addr : Z; physical_addr : Z; last_access : Z }.

Record MemoryController : Type := mkMC {
  read_queue : Queue;
  write_queue : Queue;
  current_mode : BusMode;
  read_count : Z;
  write_count : Z;
  bank_timers : list Z;
  tlb : list TLBEntry;
  data_buffer : list Z;
  tsc : Z
}.

(** [mem] is the uninitialised storage. *)
Definition init_queue (mem : list MemoryRequest) : Queue := mkQueue mem 0 0 0 0 false.

(** The spin lock: with one thread a lock that is taken is never released. *)
Definition acquire (q : Queue) : res Queue :=
  if lock q then Fault OutOfFuel
  else Ok (mkQueue (requests q) (head q) (tail q) (size q) (total_age q) true).

Definition release (q : Queue) : Queue :=
  mkQueue (requests q) (head q) (tail q) (size q) (total_age q) false.

Definition enqueue (q : Queue) (req : MemoryRequest) : res (bool * Queue) :=
  q ← acquire q;
  if size q =? MAX_QUEUE_SIZE then Ok (false, release q)
  else
    l ← (requests q).[tail q <- req];
    t ← iadd (tail q) 1;
    t ← imod t MAX_QUEUE_SIZE;
    n ← iadd (size q) 1;
    Ok (true, release (mkQueue l (head q) t n (u64 (total_age q + priority req)) (lock q))).

Definition dequeue (q : Queue) : res (option MemoryRequest * Queue) :=
  q ← acquire q;
  if size q =? 0 then Ok (None, release q)
  else
    req ← (requests q).[head q];
    h ← iadd (head q) 1;
    h ← imod h MAX_QUEUE_SIZE;
    n ← isub (size q) 1;
    Ok (Some req, release (mkQueue (requests q) h (tail q) n (u64 (total_age q - priority req)) (lock q))).

(** [rq], [wq] and [buf] are the three blocks [aligned_alloc] returns. *)
Definition init_memory_controller (rq wq : list MemoryRequest) (buf : list Z) (now : Z) : MemoryController :=
  mkMC (init_queue rq) (init_queue wq) READ_MODE 0 0 (replicate (Z.to_nat NUM_BANKS) 0)
    (replicate (Z.to_nat TLB_SIZE) (mkTLB 0 0 0)) buf now.

(** Little-endian bytes of a 64-bit value. *)
Definition bytes_of (v : Z) : list Z :=
  (fun i => Z.land (Z.shiftr v (8 * i)) 255) <$> [0; 1; 2; 3; 4; 5; 6; 7].
Definition value_of (l : list Z) : Z := foldr (fun b acc => b + 256 * acc) 0 l.

Definition set_tsc (mc : MemoryController) (t : Z) : MemoryController :=
  mkMC (read_queue mc) (write_queue mc) (current_mode mc) (read_count mc) (write_count mc)
    (bank_timers mc) (tlb mc) (data_buffer mc) t.
Definition set_tlb (mc : MemoryController) (l : list TLBEntry) : MemoryController :=
  mkMC (read_queue mc) (write_queue mc) (current_mode mc) (read_count mc) (write_count mc)
    (bank_timers mc) l (data_buffer mc) (tsc mc).
Definition set_timers (mc : MemoryController) (l : list Z) : MemoryController :=
  mkMC (read_queue mc) (write_queue mc) (current_mode mc) (read_count mc) (write_count mc)
    l (tlb mc) (data_buffer mc) (tsc mc).
Definition set_buffer (mc : MemoryController) (l : list Z) : MemoryController :=
  mkMC (read_queue mc) (write_queue mc) (current_mode mc) (read_count mc) (write_count mc)
    (bank_timers mc) (tlb mc) l (tsc mc).
Definition set_queues (mc : MemoryController) (r w : Queue) : MemoryController :=
  mkMC r w (current_mode mc) (read_count mc) (write_count mc)
    (bank_timers mc) (tlb mc) (data_buffer mc) (tsc mc).
Definition set_mode (mc : MemoryController) (m : BusMode) (rc wc : Z) : MemoryController :=
  mkMC (read_queue mc) (write_queue mc) m rc wc (bank_timers mc) (tlb mc) (data_buffer mc) (tsc mc).

Section controller.
Context (next_tsc : Z -> Z).

(** [__rdtsc()]. *)
Definition rdtsc (mc : MemoryController) : Z * MemoryController :=
  let t := next_tsc (tsc mc) in (t, set_tsc mc t).

(** The hash [logical ^ (logical >> 12)] stands for the page table. *)
Definition translation (a : Z) : Z := Z.lxor a (Z.shiftr a 12).

Definition translate_address (mc : MemoryController) (a : Z) : res (Z * MemoryController) :=
  let tlb_index := a mod TLB_SIZE in
  e ← (tlb mc).[tlb_index];
  if logical_addr e =? a then
    let '(t, mc1) := rdtsc mc in
    l ← (tlb mc1).[tlb_index <- mkTLB (logical_addr e) (physical_addr e) t];
    Ok (physical_addr e, set_tlb mc1 l)
  else
    let p := translation a in
    let '(t, mc1) := rdtsc mc in
    l ← (tlb mc1).[tlb_index <- mkTLB a p t];
    Ok (p, set_tlb mc1 l).

(** [while (__rdtsc() < timer);] *)
Definition wait_bank (fuel : nat) (timer : Z) (mc : MemoryController) : res MemoryController :=
  loop fuel (fun mc => let '(t, mc1) := rdtsc mc in Ok (if t <? timer then Next mc1 else Return mc1)) mc.

(** A transfer waits at most 100 ticks for its bank. *)
Definition wait_fuel : nat := 102.

Definition BUFFER_SIZE : Z := CACHE_LINE_SIZE * 1024.

Definition handle_data_transfer (mc : MemoryController) (req : MemoryRequest)
    : res (MemoryController * MemoryRequest) :=
  '(p, mc) ← translate_address mc (address req);
  let bank := p mod NUM_BANKS in
  timer ← (bank_timers mc).[bank];
  mc ← wait_bank wait_fuel timer mc;
  '(mc, req) ←
    (if negb (Z.land (address req) 1 =? 0) then
       l ← copy_from (data_buffer mc) (p mod BUFFER_SIZE) 8;
       Ok (mc, mkReq (address req) (value_of l) (priority req) (timestamp req))
     else
       buf ← copy_to (data_buffer mc) (p mod BUFFER_SIZE) (bytes_of (rdata req));
       Ok (set_buffer mc buf, req));
  let '(t, mc) := rdtsc mc in
  timers ← (bank_timers mc).[bank <- u64 (t + 100)];
  Ok (set_timers mc timers, req).

(** The arms of the switch: the new state and [should_switch]. *)
Definition read_arm (mc : MemoryController) : res (MemoryController * bool) :=
  '(o, q) ← dequeue (read_queue mc);
  let mc := set_queues mc q (write_queue mc) in
  match o with
  | None => Ok (mc, 0 <? size (write_queue mc))
  | Some req =>
      '(mc, _) ← handle_data_transfer mc req;
      n ← iadd (read_count mc) 1;
      Ok (set_mode mc (current_mode mc) n (write_count mc),
          (MAX_QUEUE_SIZE / 2 <=? n) && (0 <? size (write_queue mc)))
  end.

Definition write_arm (mc : MemoryController) : res (MemoryController * bool) :=
  '(o, q) ← dequeue (write_queue mc);
  let mc := set_queues mc (read_queue mc) q in
  match o with
  | None => Ok (mc, 0 <? size (read_queue mc))
  | Some req =>
      '(mc, _) ← handle_data_transfer mc req;
      n ← iadd (write_count mc) 1;
      Ok (set_mode mc (current_mode mc) (read_count mc) n,
          (MAX_QUEUE_SIZE / 2 <=? n) && (0 <? size (read_queue mc)))
  end.

(** [MODE_TRANSITION]: the mode is compared with [READ_MODE] after it has
    become [MODE_TRANSITION], as in the source. *)
Definition transition_arm (mc : MemoryController) : MemoryController * bool :=
  (set_mode mc (if decide (current_mode mc = READ_MODE) then WRITE_MODE else READ_MODE) 0 0, false).

Definition memory_cycle (mc : MemoryController) : res MemoryController :=
  '(mc, should_switch) ←
    match current_mode mc with
    | READ_MODE => read_arm mc
    | WRITE_MODE => write_arm mc
    | MODE_TRANSITION => Ok (transition_arm mc)
    end;
  Ok (if should_switch : bool then set_mode mc MODE_TRANSITION (read_count mc) (write_count mc) else mc).

Definition memory_cycles (n : nat) (mc : MemoryController) : res MemoryController :=
  for_range n 0 (fun _ => memory_cycle) mc.

Definition process_memory_requests (mc : MemoryController) : res MemoryController :=
  memory_cycles (Z.to_nat 1000000) mc.

(** Queueing the requests of [main]; [reqs] are the random ones. *)
Definition submit (mc : MemoryController) (req : MemoryRequest) : res MemoryController :=
  if negb (Z.land (address req) 1 =? 0) then
    '(_, q) ← enqueue (read_queue mc) req; Ok (set_queues mc q (write_queue mc))
  else
    '(_, q) ← enqueue (write_queue mc) req; Ok (set_queues mc (read_queue mc) q).

Definition grouping_main (rq wq : list MemoryRequest) (buf : list Z) (now : Z) (reqs : list MemoryRequest)
    : res MemoryController :=
  mc ← foldl (fun m r => mc ← m; submit mc r) (Ok (init_memory_controller rq wq buf now)) reqs;
  process_memory_requests mc.
End controller.

(** ** Invariants *)

Record queue_ok (q : Queue) : Prop := {
  q_lock : lock q = false;
  q_len : len (requests q) = MAX_QUEUE_SIZE;
  q_head : 0 <= head q < MAX_QUEUE_SIZE;
  q_size : 0 <= size q <= MAX_QUEUE_SIZE;
  q_tail : tail q = (head q + size q) mod MAX_QUEUE_SIZE
}.

Definition q_list (q : Queue) : list MemoryRequest := window (requests q) (head q) (Z.to_nat (size q)).

#[export] Instance queue_fifo : BoundedFifo Queue MemoryRequest := {|
  fifo_ok := queue_ok;
  fifo_abs := q_list;
  fifo_cap _ := Z.to_nat MAX_QUEUE_SIZE;
  fifo_enq := enqueue;
  fifo_deq := dequeue
|}.

Lemma length_q_list q : queue_ok q -> len (q_list q) = size q.
Proof. intros []. unfold q_list. rewrite length_window by lia. lia. Qed.

#[export] Instance queue_laws : FifoLaws Queue MemoryRequest.
Proof.
  constructor; intros q.
  - intros x Hok. pose proof (length_q_list q Hok) as Hlen. pose proof Hok as [Hlk Hl Hh Hs Ht]. simpl.
    unfold enqueue, acquire. rewrite Hlk, bind_ret_l. cbn [size requests tail].
    unfold spec_enq. destruct (Z.eqb_spec (size q) MAX_QUEUE_SIZE) as [Hf|Hf].
    + exists false, q. split; [destruct q; simpl in *; by subst|]. split_and!; [done..|].
      destruct (Nat.ltb_spec (length (q_list q)) (Z.to_nat MAX_QUEUE_SIZE)); [lia|done].
    + assert (0 <= tail q < MAX_QUEUE_SIZE) as Htr by (rewrite Ht; by apply Z.mod_pos_bound).
      unfold MAX_QUEUE_SIZE in *. exists true. eexists. split; [by c_steps|]. split; [|split; [done|]].
      * constructor; simpl; unfold MAX_QUEUE_SIZE; rewrite ?length_zset; try lia.
        rewrite Ht, Zplus_mod_idemp_l. f_equal. lia.
      * destruct (Nat.ltb_spec (length (q_list q)) (Z.to_nat 1024)); [|lia]. f_equal. unfold q_list. simpl.
        rewrite Ht, <- Hl. replace (Z.to_nat (size q + 1)) with (S (Z.to_nat (size q))) by lia.
        rewrite <- (Z2Nat.id (size q)) at 1 by lia. apply window_enqueue; lia.
  - intros Hok. pose proof (length_q_list q Hok) as Hlen. pose proof Hok as [Hlk Hl Hh Hs Ht]. simpl.
    unfold dequeue, acquire. rewrite Hlk, bind_ret_l. cbn [size requests head].
    destruct (Z.eqb_spec (size q) 0) as [Hz|Hz].
    + exists None, q. split; [destruct q; simpl in *; by subst|]. split_and!; [done..|].
      unfold q_list. rewrite Hz. done.
    + destruct (zget_range (requests q) (head q)) as [x Hx]; [lia|]. unfold MAX_QUEUE_SIZE in *.
      pose proof (Z.mod_pos_bound (head q + 1) 1024 ltac:(done)).
      exists (Some x). eexists. split; [by c_steps|]. split; [|split; [done|]].
      * constructor; simpl; unfold MAX_QUEUE_SIZE; try lia. rewrite Ht, Zplus_mod_idemp_l. f_equal. lia.
      * unfold q_list. simpl. replace (Z.to_nat (size q)) with (S (Z.to_nat (size q - 1))) by lia.
        rewrite (window_dequeue _ _ _ _ Hx). unfold spec_deq. by rewrite Hl.
Qed.

(** Translations held are the ones a miss would compute. *)
Definition tlb_ok (l : list TLBEntry) : Prop :=
  len l = TLB_SIZE /\ Forall (fun e => physical_addr e = translation (logical_addr e)) l.

Record mc_ok (mc : MemoryController) : Prop := {
  mc_read : queue_ok (read_queue mc);
  mc_write : queue_ok (write_queue mc);
  mc_tsc : 0 <= tsc mc;
  mc_timers : len (bank_timers mc) = NUM_BANKS;
  mc_ready : Forall (fun t => t <= tsc mc + 100) (bank_timers mc);
  mc_tlb : tlb_ok (tlb mc);
  mc_buffer : len (data_buffer mc) = BUFFER_SIZE
}.

(** The eight bytes of the transfer lie in the buffer. *)
Definition safe_request (r : MemoryRequest) : Prop :=
  0 <= address r /\ translation (address r) mod BUFFER_SIZE + 8 <= BUFFER_SIZE.

(** Everything but the queues, the mode and the counters may differ. *)
Definition same_control (mc mc' : MemoryController) : Prop :=
  read_queue mc' = read_queue mc /\ write_queue mc' = write_queue mc /\ current_mode mc' = current_mode mc /\
  read_count mc' = read_count mc /\ write_count mc' = write_count mc.

Section progress.
Context (next_tsc : Z -> Z).
Hypothesis tsc_grows : forall t, t < next_tsc t.

Lemma set_tsc_ok mc t : mc_ok mc -> tsc mc <= t -> mc_ok (set_tsc mc t).
Proof.
  intros [] Ht. constructor; simpl; try done; [lia|]. eapply list.Forall_impl; [done|]. simpl. lia.
Qed.

Lemma translate_address_ok mc a :
  mc_ok mc ->
  exists mc', translate_address next_tsc mc a = Ok (translation a, mc') /\ mc_ok mc' /\
    same_control mc mc' /\ tsc mc < tsc mc'.
Proof.
  intros Hok. pose proof Hok as [_ _ _ _ _ [Hl Ht] _]. unfold translate_address.
  pose proof (Z.mod_pos_bound a TLB_SIZE ltac:(done)) as Hi.
  destruct (zget_range (tlb mc) (a mod TLB_SIZE)) as [e E]; [lia|]. rewrite (arr_read_Ok _ _ _ E), bind_ret_l.
  pose proof (Forall_zget _ _ _ _ Ht E) as He. simpl in He. pose proof (tsc_grows (tsc mc)).
  assert (forall e', physical_addr e' = translation (logical_addr e') ->
    mc_ok (set_tlb (set_tsc mc (next_tsc (tsc mc))) (zset (tlb mc) (a mod TLB_SIZE) e'))) as Hset.
  { intros e' He'. destruct (set_tsc_ok mc (next_tsc (tsc mc)) Hok) as [? ? ? ? ? _ ?]; [lia|].
    constructor; try done. split; simpl; [by rewrite length_zset|]. unfold zset. case_cond; [|done].
    by apply Forall_insert. }
  unfold rdtsc. cbn [tlb set_tsc]. destruct (Z.eqb_spec (logical_addr e) a) as [<-|Hne].
  - rewrite arr_write_Ok by lia. rewrite bind_ret_l, He. eexists. split; [done|]. split; [by apply Hset|].
    split; [done|]. simpl. lia.
  - rewrite arr_write_Ok by lia. rewrite bind_ret_l. eexists. split; [done|]. split; [by apply Hset|].
    split; [done|]. simpl. lia.
Qed.

Lemma wait_bank_ok mc timer :
  timer <= tsc mc + 100 ->
  exists t, wait_bank next_tsc wait_fuel timer mc = Ok (set_tsc mc t) /\ tsc mc < t.
Proof.
  intros Ht. unfold wait_bank.
  destruct (loop_total (fun s => s = set_tsc mc (tsc s) /\ tsc mc <= tsc s)
    (fun r => r = set_tsc mc (tsc r) /\ tsc mc < tsc r) (fun s => Z.to_nat (timer - tsc s))
    (fun mc => let '(t, mc1) := rdtsc next_tsc mc in Ok (if t <? timer then Next mc1 else Return mc1)))
    with (fuel := wait_fuel) (s := mc) as (r & Hr & Hres & Hlt).
  - intros s (Hs & Hle). pose proof (tsc_grows (tsc s)). cbn. eexists. split; [done|].
    case_cond; simpl; rewrite Hs; simpl; (split; [split; [done|lia]|lia]) || (split; [done|lia]).
  - split; [by destruct mc|done].
  - unfold wait_fuel. lia.
  - exists (tsc r). rewrite Hr. by rewrite Hres at 1.
Qed.

Lemma handle_data_transfer_ok mc req :
  mc_ok mc -> safe_request req ->
  exists mc' req', handle_data_transfer next_tsc mc req = Ok (mc', req') /\ mc_ok mc' /\ same_control mc mc'.
Proof.
  intros Hok [Ha Hsafe]. unfold handle_data_transfer.
  destruct (translate_address_ok mc (address req) Hok) as (mc1 & -> & Hok1 & Hc1 & _). cbn [mbind res_bind].
  pose proof Hok1 as [_ _ _ Hlt Hready _ _]. set (p := translation (address req)) in *.
  pose proof (Z.mod_pos_bound p NUM_BANKS ltac:(done)) as Hbank.
  destruct (zget_range (bank_timers mc1) (p mod NUM_BANKS)) as [timer E]; [lia|].
  rewrite (arr_read_Ok _ _ _ E). cbn [mbind res_bind].
  destruct (wait_bank_ok mc1 timer) as (t & -> & Ht); [by apply (Forall_zget _ _ _ _ Hready E)|].
  assert (mc_ok (set_tsc mc1 t)) as Hok2 by (apply set_tsc_ok; [done|lia]).
  pose proof Hok2 as [_ _ _ _ _ _ Hbuf]. pose proof (Z.mod_pos_bound p BUFFER_SIZE ltac:(done)) as Hp.
  cbn [mbind res_bind].
  assert (forall mc2 (req2 : MemoryRequest), mc_ok mc2 -> same_control mc mc2 ->
    exists mc' req', (let '(t, mc) := rdtsc next_tsc mc2 in
      timers ← (bank_timers mc).[p mod NUM_BANKS <- u64 (t + 100)]; Ok (set_timers mc timers, req2)) =
      Ok (mc', req') /\ mc_ok mc' /\ same_control mc mc') as Hlast.
  { intros mc2 req2 [? ? ? Hlt2 Hr2 ? ?] Hc2. unfold rdtsc. cbn [bank_timers set_tsc].
    rewrite arr_write_Ok by lia. rewrite bind_ret_l. eexists _, _. split; [done|]. split; [|done].
    pose proof (tsc_grows (tsc mc2)).
    assert (Forall (fun x => x <= next_tsc (tsc mc2) + 100) (bank_timers mc2)).
    { eapply list.Forall_impl; [done|]. simpl. lia. }
    constructor; simpl; try done; [lia|by rewrite length_zset|]. unfold zset. case_cond; [|done].
    apply Forall_insert; [done|]. unfold u64. apply Z.mod_le; [lia|done]. }
  case_cond.
  - rewrite copy_from_Ok by lia. cbn [mbind res_bind]. by apply Hlast.
  - rewrite copy_to_Ok by (change (len (bytes_of (rdata req))) with 8; lia). cbn [mbind res_bind]. apply Hlast; [|done].
    destruct Hok2. constructor; try done. cbn [set_buffer data_buffer].
    rewrite !length_app, length_take, length_drop.
    change (length (bytes_of (rdata req))) with 8%nat. lia.
Qed.

(** What stays true while the loop runs from [mc0]; [c] cycles have passed. *)
Definition served (mc0 : MemoryController) (c : Z) (mc : MemoryController) : Prop :=
  mc_ok mc /\ write_queue mc = write_queue mc0 /\ current_mode mc <> WRITE_MODE /\
  0 <= read_count mc <= read_count mc0 + c /\
  (exists k, q_list (read_queue mc) = drop k (q_list (read_queue mc0))) /\
  (q_list (read_queue mc) = [] \/
   2 * len (q_list (read_queue mc)) + (if decide (current_mode mc = MODE_TRANSITION) then 1 else 0) + c <=
   2 * len (q_list (read_queue mc0)) + 1).

Lemma read_arm_ok mc0 c mc :
  Forall safe_request (q_list (read_queue mc0)) -> 0 <= c -> read_count mc0 + c < INT_MAX ->
  served mc0 c mc -> current_mode mc = READ_MODE ->
  exists mc' b, read_arm next_tsc mc = Ok (mc', b) /\ current_mode mc' = READ_MODE /\
    served mc0 (c + 1) mc' /\ served mc0 (c + 1) (set_mode mc' MODE_TRANSITION (read_count mc') (write_count mc')).
Proof.
  intros Hsafe Hc Hmax (Hok & Hw & Hm & Hrc & (k & Hk) & Hmeas) Hmode. pose proof Hok as [Hr Hwq Htsc Ht1 Ht2 Htl Hb].
  unfold read_arm. destruct (@fifo_deq_law _ _ queue_fifo queue_laws (read_queue mc) Hr) as (o & q' & Hd & Hq' & _ & Hspec). simpl in *.
  rewrite Hd. cbn [mbind res_bind]. destruct (q_list (read_queue mc)) as [|x rest] eqn:El; simpl in Hspec;
    injection Hspec as -> Hrest.
  - eexists _, _. split; [done|]. split; [done|]. unfold served. cbn.
    split; split_and!; try done; try lia; try (exists k; congruence); try (left; congruence); constructor; done.
  - assert (safe_request x) as Hx.
    { pose proof (Forall_drop _ k _ Hsafe) as Hf. rewrite <- Hk in Hf. by apply Forall_cons_iff in Hf as [? _]. }
    assert (mc_ok (set_queues mc q' (write_queue mc))) as Hok1 by (constructor; done).
    destruct (handle_data_transfer_ok _ x Hok1 Hx) as (mc1 & req' & -> & Hok2 & Hq & Hw1 & Hm1 & Hr1 & Hw2).
    cbn [mbind res_bind]. simpl in *. rewrite iadd_Ok by int_side. cbn [mbind res_bind].
    eexists _, _. split; [done|]. split; [by rewrite <- Hmode|].
    assert (exists k, q_list q' = drop k (q_list (read_queue mc0))) as Hdrop.
    { exists (S k). rewrite Hrest. pose proof (drop_drop (q_list (read_queue mc0)) 1 k) as Hdd.
      rewrite <- Hk in Hdd. simpl in Hdd. rewrite drop_0 in Hdd. rewrite Hdd. f_equal. lia. }
    destruct Hmeas as [?|Hmeas]; [done|]. rewrite Hmode in Hmeas. simpl in Hmeas.
    destruct Hok2. unfold served. cbn. rewrite !Hq, Hw1, Hr1, Hm1, Hmode.
    split; split_and!; try done; try lia; try (constructor; simpl; congruence || done); right; rewrite Hrest; simpl; lia.
Qed.

Lemma memory_cycle_ok mc0 c mc :
  Forall safe_request (q_list (read_queue mc0)) -> 0 <= read_count mc0 -> 0 <= c -> read_count mc0 + c < INT_MAX ->
  served mc0 c mc -> exists mc', memory_cycle next_tsc mc = Ok mc' /\ served mc0 (c + 1) mc'.
Proof.
  intros Hsafe Hrc0 Hc Hmax Hs. pose proof Hs as (Hok & Hw & Hm & Hrc & Hk & Hmeas).
  unfold memory_cycle. destruct (current_mode mc) eqn:Hmode; [|done|].
  - destruct (read_arm_ok mc0 c mc) as (mc1 & b & -> & _ & H1 & H2); [done..|]. cbn [mbind res_bind].
    eexists. split; [done|]. by destruct b.
  - cbn. eexists. split; [done|]. destruct Hok. unfold served. rewrite Hmode. cbn.
    split_and!; try done; try lia; try by constructor. destruct Hmeas as [?|Hmeas]; [by left|right].
    repeat case_decide; (done || lia).
Qed.
End progress.

(** Address translation does not depend on what the TLB holds: from the
    zeroed TLB on, every translation is [a ^ (a >> 12)]. *)
Theorem translation_transparent next_tsc mc a :
  (forall t, t < next_tsc t) -> mc_ok mc ->
  exists mc', translate_address next_tsc mc a = Ok (Z.lxor a (Z.shiftr a 12), mc') /\ mc_ok mc'.
Proof.
  intros Ht Hok. destruct (translate_address_ok next_tsc Ht mc a Hok) as (mc' & H & Hok' & _). by exists mc'.
Qed.

(** The processing loop never stops early; it takes the reads in order
    and after two cycles per read (and one more) has served them all.  The
    write queue stays as it is: [WRITE_MODE] is never entered, so writes are
    never served. *)
Theorem reads_served_writes_starve next_tsc n mc :
  (forall t, t < next_tsc t) -> mc_ok mc -> current_mode mc <> WRITE_MODE ->
  0 <= read_count mc -> read_count mc + Z.of_nat n <= INT_MAX ->
  Forall safe_request (q_list (read_queue mc)) ->
  exists mc', memory_cycles next_tsc n mc = Ok mc' /\ mc_ok mc' /\
    write_queue mc' = write_queue mc /\ current_mode mc' <> WRITE_MODE /\
    (exists k, q_list (read_queue mc') = drop k (q_list (read_queue mc))) /\
    (2 * len (q_list (read_queue mc)) + 2 <= Z.of_nat n -> q_list (read_queue mc') = []).
Proof.
  intros Ht Hok Hm Hrc Hmax Hsafe. unfold memory_cycles.
  destruct (for_range_inv (fun c s => served mc c s) n 0 (fun _ => memory_cycle next_tsc) mc) as (mc' & -> & Hs).
  - split_and!; try done; try lia; [by exists 0%nat|]. right. case_decide; lia.
  - intros j s Hj Hs. apply memory_cycle_ok; (done || lia).
  - destruct Hs as (? & ? & ? & _ & ? & Hmeas). exists mc'. split_and!; [done..|]. intros Hn.
    destruct Hmeas as [?|Hmeas]; [done|]. exfalso. case_decide; lia.
Qed.

Lemma controller_init_ok rq wq buf now :
  len rq = MAX_QUEUE_SIZE -> len wq = MAX_QUEUE_SIZE -> len buf = BUFFER_SIZE -> 0 <= now ->
  mc_ok (init_memory_controller rq wq buf now).
Proof.
  intros Hr Hw Hb Hn. constructor; try done.
  - repeat constructor; simpl; lia.
  - split; [done|]. by apply Forall_replicate.
Qed.

(** A transfer that starts in the last seven bytes of the buffer runs over its
    end. *)
Lemma transfer_overruns :
  handle_data_transfer Z.succ (init_memory_controller [] [] (replicate (Z.to_nat BUFFER_SIZE) 0) 0)
    (mkReq 65520 1 0 0) = Fault OutOfBounds.
Proof. vm_compute. reflexivity. Qed.

(** Three queued reads and one write. *)
Definition demo_req (a : Z) : MemoryRequest := mkReq a 5 1 0.
Definition demo_queue (n : Z) : Queue := mkQueue (replicate (Z.to_nat MAX_QUEUE_SIZE) (demo_req 17)) 0 n n n false.
Definition demo_mc : MemoryController :=
  set_queues (init_memory_controller [] [] (replicate (Z.to_nat BUFFER_SIZE) 0) 0) (demo_queue 3) (demo_queue 1).

Lemma demo_mc_ok : mc_ok demo_mc.
Proof.
  assert (forall n, 0 <= n < 1024 -> queue_ok (demo_queue n)) as Hq.
  { intros n Hn. constructor; simpl; unfold MAX_QUEUE_SIZE; try done; [lia|by rewrite Z.mod_small]. }
  constructor; [apply Hq; lia|apply Hq; lia|done|done|..].
  - repeat constructor; simpl; lia.
  - split; [done|]. by apply Forall_replicate.
  - cbn [data_buffer demo_mc set_queues init_memory_controller]. rewrite length_replicate.
    apply Z2Nat.id. discriminate.
Qed.

Lemma translation_transparent_witness :
  exists mc', translate_address Z.succ demo_mc 4097 = Ok (4096, mc') /\ mc_ok mc'.
Proof. apply (translation_transparent Z.succ demo_mc 4097); [apply Z.lt_succ_diag_r|apply demo_mc_ok]. Defined.

Lemma reads_served_writes_starve_witness :
  exists mc', memory_cycles Z.succ 8 demo_mc = Ok mc' /\ mc_ok mc' /\
    write_queue mc' = write_queue demo_mc /\ current_mode mc' <> WRITE_MODE /\
    (exists k, q_list (read_queue mc') = drop k (q_list (read_queue demo_mc))) /\
    (2 * len (q_list (read_queue demo_mc)) + 2 <= Z.of_nat 8 -> q_list (read_queue mc') = []).
Proof.
  apply (reads_served_writes_starve Z.succ 8 demo_mc).
  - apply Z.lt_succ_diag_r.
  - apply demo_mc_ok.
  - discriminate.
  - discriminate.
  - discriminate.
  - repeat constructor; discriminate.
Defined.
