(* ===== verification/ProcSched.v ===== *)
(** * CPU schedulers ([os/process/scheduler/])

    First come first served, round robin, priorities with aging and a
    simplified completely fair scheduler, each over an array of process
    records, and the life cycle of a process.  The multi-level feedback queue
    is in its own file. *)
From Stdlib Require Import ZArith Lia.
From stdpp Require Import base tactics list numbers option.
From S2P Require Import Prelude Float Select.

#[local] Open Scope Z_scope.
#[local] Open Scope c_scope.

(** ** First come first served ([firt_come_first_serve.c]) *)
Module Fcfs.

Record Process : Type := mkProcess {
  pid : Z;
  arrival_time : Z;
  burst_time : Z;
  completion_time : Z;
  turnaround_time : Z;
  waiting_time : Z
}.

(** One pass of the loop: [current_time] and the array. *)
Definition fcfs_pass (i : Z) (s : Z * list Process) : res (Z * list Process) :=
  let '(current_time, ps) := s in
  p ← ps.[i];
  let current_time := if current_time <? arrival_time p then arrival_time p else current_time in
  c ← iadd current_time (burst_time p);
  t ← isub c (arrival_time p);
  w ← isub t (burst_time p);
  ps ← ps.[i <- mkProcess (pid p) (arrival_time p) (burst_time p) c t w];
  Ok (c, ps).

Definition fcfs_schedule (ps : list Process) (n : nat) : res (list Process) :=
  '(_, ps) ← for_range n 0 fcfs_pass (0, ps);
  Ok ps.

(** The rows and the two averages [print_metrics] shows. *)
Definition print_metrics (ps : list Process) (n : nat) : res (list Process * cfloat * cfloat) :=
  '(rows, at_, aw) ← for_range n 0
     (fun i '(rows, at_, aw) =>
        p ← ps.[i];
        Ok (rows ++ [p], f32_add at_ (f32_of_int (turnaround_time p)), f32_add aw (f32_of_int (waiting_time p))))
     ([], f32_of_int 0, f32_of_int 0);
  Ok (rows, f32_div at_ (f32_of_int (Z.of_nat n)), f32_div aw (f32_of_int (Z.of_nat n))).

Definition processes : list Process :=
  [mkProcess 1 0 7 0 0 0; mkProcess 2 2 4 0 0 0; mkProcess 3 4 1 0 0 0].

Definition fcfs_main : res (list Process * cfloat * cfloat) :=
  ps ← fcfs_schedule processes 3;
  print_metrics ps 3.

(** The schedule: a process starts when it has arrived and the one before it
    is done. *)
Fixpoint schedule (free_at : Z) (ps : list Process) : list Process :=
  match ps with
  | [] => []
  | p :: ps' =>
      let start := Z.max free_at (arrival_time p) in
      mkProcess (pid p) (arrival_time p) (burst_time p) (start + burst_time p)
        (start + burst_time p - arrival_time p) (start - arrival_time p) ::
      schedule (start + burst_time p) ps'
  end.

Definition well_formed (latest : Z) (p : Process) : Prop :=
  0 <= arrival_time p <= latest /\ 0 <= burst_time p.

Lemma fcfs_from latest M pre suf t :
  Forall (well_formed latest) suf -> 0 <= t -> t + total burst_time suf <= M ->
  latest + total burst_time suf <= M -> M <= INT_MAX ->
  exists t', for_range (length suf) (len pre) fcfs_pass (t, pre ++ suf) = Ok (t', pre ++ schedule t suf).
Proof.
  intros Hwf. revert pre t. induction Hwf as [|p suf [Ha Hb] Hwf IH]; intros pre t Ht HM Hlat Hmax; [by exists t|].
  cbn [length]. rewrite for_range_S. cbn [total foldr] in HM, Hlat. fold (total burst_time suf) in *.
  assert (0 <= total burst_time suf) as Hpos.
  { apply field_total_nonneg. eapply list.Forall_impl; [exact Hwf|]. by intros q [_ ?]. }
  unfold fcfs_pass at 2. rewrite (arr_read_Ok _ _ p) by apply zget_middle. rewrite bind_ret_l.
  replace (if t <? arrival_time p then arrival_time p else t) with (Z.max t (arrival_time p))
    by (destruct (Z.ltb_spec t (arrival_time p)); lia).
  set (start := Z.max t (arrival_time p)).
  rewrite iadd_Ok by int_side. rewrite bind_ret_l, isub_Ok by int_side. rewrite bind_ret_l, isub_Ok by int_side.
  rewrite bind_ret_l, arr_write_Ok by (rewrite length_app; simpl; lia). rewrite bind_ret_l, zset_middle. cbn [mbind res_bind].
  set (q := mkProcess _ _ _ _ _ _).
  replace (pre ++ q :: suf) with ((pre ++ [q]) ++ suf) by by rewrite <- app_assoc.
  replace (len pre + 1) with (len (pre ++ [q])) by (rewrite length_app; simpl; lia).
  destruct (IH (pre ++ [q]) (start + burst_time p)) as (t' & ->); [lia..|]. exists t'.
  cbn [schedule]. rewrite <- app_assoc. cbn [app]. unfold q, start. do 5 f_equal. lia.
Qed.

(** First come first served: when all times fit an [int], each process
    starts as soon as it has arrived and its predecessor is done, and the
    three figures computed for it are completion, completion - arrival and
    start - arrival. *)
Theorem fcfs_schedule_spec latest ps :
  Forall (well_formed latest) ps -> 0 <= latest -> latest + total burst_time ps <= INT_MAX ->
  fcfs_schedule ps (length ps) = Ok (schedule 0 ps) /\
  Forall (fun p => 0 <= waiting_time p /\ turnaround_time p = waiting_time p + burst_time p) (schedule 0 ps).
Proof.
  intros Hwf Hl Hmax. split.
  - unfold fcfs_schedule. destruct (fcfs_from latest INT_MAX [] ps 0) as (t' & E); [done|lia..|].
    change (Z.of_nat (length (@nil Process))) with 0 in E. cbn [app] in E. by rewrite E.
  - clear Hmax. generalize 0 at 2 as t. induction Hwf as [|p ps _ _ IH]; intros t; [constructor|].
    cbn [schedule]. constructor; [cbn [waiting_time turnaround_time burst_time]; lia|apply IH].
Qed.

Lemma fcfs_schedule_spec_witness :
  fcfs_schedule processes (length processes) =
    Ok [mkProcess 1 0 7 7 7 0; mkProcess 2 2 4 11 9 5; mkProcess 3 4 1 12 8 7] /\
  Forall (fun p => 0 <= waiting_time p /\ turnaround_time p = waiting_time p + burst_time p) (schedule 0 processes).
Proof.
  apply (fcfs_schedule_spec 4 processes).
  - repeat constructor; discriminate.
  - discriminate.
  - discriminate.
Defined.
End Fcfs.

(** ** Round robin ([round_robin.c]) *)
Module RoundRobin.

Definition TIME_QUANTUM : Z := 2.

Record Process : Type := mkProcess {
  pid : Z;
  arrival_time : Z;
  burst_time : Z;
  remaining_time : Z;
  completion_time : Z;
  turnaround_time : Z;
  waiting_time : Z
}.

(** [current_time], [completed], [any_executed] and the array. *)
Record rr_state : Type := mkRR {
  current_time : Z;
  completed : Z;
  any_executed : bool;
  procs : list Process
}.

Definition rr_pass (i : Z) (s : rr_state) : res rr_state :=
  p ← (procs s).[i];
  if (remaining_time p >? 0) && (arrival_time p <=? current_time s) then
    let execution_time := if remaining_time p >? TIME_QUANTUM then TIME_QUANTUM else remaining_time p in
    r ← isub (remaining_time p) execution_time;
    now ← iadd (current_time s) execution_time;
    if r =? 0 then
      done' ← iadd (completed s) 1;
      t ← isub now (arrival_time p);
      w ← isub t (burst_time p);
      ps ← (procs s).[i <- mkProcess (pid p) (arrival_time p) (burst_time p) r now t w];
      Ok (mkRR now done' true ps)
    else
      ps ← (procs s).[i <- mkProcess (pid p) (arrival_time p) (burst_time p) r (completion_time p)
                             (turnaround_time p) (waiting_time p)];
      Ok (mkRR now (completed s) true ps)
  else Ok s.

(** One pass of the outer loop. *)
Definition rr_round (n : nat) (s : rr_state) : res (ctl rr_state (list Process)) :=
  if completed s <? Z.of_nat n then
    s ← for_range n 0 rr_pass (mkRR (current_time s) (completed s) false (procs s));
    now ← (if any_executed s then Ok (current_time s) else iadd (current_time s) 1);
    Ok (Next (mkRR now (completed s) (any_executed s) (procs s)))
  else Ok (Return (procs s)).

Definition round_robin_schedule (fuel : nat) (ps : list Process) (n : nat) : res (list Process) :=
  loop fuel (rr_round n) (mkRR 0 0 false ps).

(** The initialisers give the three fields after [burst_time] as 0, so
    [remaining_time] is 0. *)
Definition processes : list Process :=
  [mkProcess 1 0 7 0 0 0 0; mkProcess 2 2 4 0 0 0 0; mkProcess 3 4 1 0 0 0 0].

Definition print_metrics (ps : list Process) (n : nat) : res (list Process * cfloat * cfloat) :=
  '(rows, at_, aw) ← for_range n 0
     (fun i '(rows, at_, aw) =>
        p ← ps.[i];
        Ok (rows ++ [p], f32_add at_ (f32_of_int (turnaround_time p)), f32_add aw (f32_of_int (waiting_time p))))
     ([], f32_of_int 0, f32_of_int 0);
  Ok (rows, f32_div at_ (f32_of_int (Z.of_nat n)), f32_div aw (f32_of_int (Z.of_nat n))).

Definition rr_main (fuel : nat) : res (list Process * cfloat * cfloat) :=
  ps ← round_robin_schedule fuel processes 3;
  print_metrics ps 3.

(** A process as the scheduler may meet it at time [now]. *)
Record good (latest now : Z) (p : Process) : Prop := {
  g_arrival : 0 <= arrival_time p <= latest;
  g_burst : 0 < burst_time p;
  g_remaining : 0 <= remaining_time p <= burst_time p;
  g_work : remaining_time p < burst_time p -> burst_time p - remaining_time p <= now - arrival_time p;
  g_done : remaining_time p = 0 ->
    completion_time p <= now /\ turnaround_time p = completion_time p - arrival_time p /\
    waiting_time p = turnaround_time p - burst_time p /\ 0 <= waiting_time p
}.

Definition finished (p : Process) : Z := if remaining_time p =? 0 then 1 else 0.

Section proofs.
Context (latest B : Z).
Hypothesis HB : latest + B <= INT_MAX.

Lemma good_later now now' p : now <= now' -> good latest now p -> good latest now' p.
Proof. intros Hn []. constructor; try done; intros; [lia|]. destruct g_done0 as (? & ? & ? & ?); [done|]. lia. Qed.

(** The state of the scheduler when [R] units of work are left. *)
Definition rr_inv (n : nat) (s : rr_state) : Prop :=
  length (procs s) = n /\ Forall (good latest (current_time s)) (procs s) /\
  completed s = total finished (procs s) /\ total burst_time (procs s) = B /\
  0 <= current_time s <= latest + B - total remaining_time (procs s).

Definition pass_inv (n : nat) (s0 : rr_state) (i : Z) (s : rr_state) : Prop :=
  rr_inv n s /\ current_time s0 <= current_time s /\
  total remaining_time (procs s) <= total remaining_time (procs s0) /\
  if any_executed s then total remaining_time (procs s) < total remaining_time (procs s0)
  else procs s = procs s0 /\ current_time s = current_time s0 /\
    forall j p, j < i -> zget (procs s) j = Some p -> remaining_time p <= 0 \/ current_time s < arrival_time p.

Lemma remaining_nonneg now ps : Forall (good latest now) ps -> 0 <= total remaining_time ps.
Proof. intros H. apply field_total_nonneg. eapply list.Forall_impl; [exact H|]. intros p []. lia. Qed.

Lemma total_finished_le ps : 0 <= total finished ps <= len ps.
Proof. induction ps as [|p ps IH]; simpl; [lia|]. unfold finished at 1 3. case_cond; lia. Qed.

Lemma rr_pass_ok n s0 i s :
  0 <= i < Z.of_nat n -> Z.of_nat n <= INT_MAX -> pass_inv n s0 i s ->
  exists s', rr_pass i s = Ok s' /\ pass_inv n s0 (i + 1) s'.
Proof.
  intros Hi Hn ((Hlen & Hgood & Hcomp & HtB & Hnow) & H0 & HR & Hany). unfold rr_pass.
  destruct (zget_range (procs s) i) as [p E]; [lia|]. rewrite (arr_read_Ok _ _ _ E), bind_ret_l.
  pose proof (Forall_zget _ _ _ _ Hgood E) as [Ga Gb Gr Gw Gd].
  pose proof (remaining_nonneg _ _ Hgood) as HRpos.
  assert (remaining_time p <= total remaining_time (procs s)) as Hrem.
  { apply (total_member remaining_time _ i); [|done]. eapply list.Forall_impl; [exact Hgood|]. intros q []. lia. }
  destruct ((remaining_time p >? 0) && (arrival_time p <=? current_time s)) eqn:Hrun.
  2: { exists s. split; [done|]. split; [done|]. split_and!; [done..|]. destruct (any_executed s); [done|].
       destruct Hany as (? & ? & Hidle). split_and!; [done..|]. intros j q Hj Eq.
       destruct (decide (j = i)) as [->|]; [|apply (Hidle j); [lia|done]].
       rewrite E in Eq. injection Eq as <-. zbool. destruct Hrun; zbool; lia. }
  zbool. set (e := if remaining_time p >? TIME_QUANTUM then TIME_QUANTUM else remaining_time p).
  assert (0 < e <= remaining_time p) as He by (unfold e, TIME_QUANTUM; case_cond; lia).
  rewrite (isub_Ok (remaining_time p)) by int_side. rewrite bind_ret_l.
  rewrite (iadd_Ok (current_time s)) by int_side. rewrite bind_ret_l.
  assert (forall q done', remaining_time q = remaining_time p - e -> burst_time q = burst_time p ->
    good latest (current_time s + e) q -> done' = completed s - finished p + finished q ->
    pass_inv n s0 (i + 1) (mkRR (current_time s + e) done' true (zset (procs s) i q))) as Hnext.
  { intros q done' Hq Hqb Hgq ->. unfold pass_inv, rr_inv. cbn [procs current_time completed any_executed].
    rewrite !(total_zset _ _ _ _ _ E), Hq, Hqb, length_zset.
    assert (Forall (good latest (current_time s + e)) (procs s)) as Hg'.
    { eapply list.Forall_impl; [exact Hgood|]. intros x. apply good_later. lia. }
    split_and!; (done || lia || by apply Forall_zset). }
  assert (finished p = 0) as Hfp by (unfold finished; case_cond; lia).
  case_cond.
  - pose proof (total_finished_le (zset (procs s) i (mkProcess 0 0 0 0 0 0 0))) as Hf.
    rewrite (total_zset _ _ _ _ _ E), length_zset, Hfp in Hf.
    change (finished (mkProcess 0 0 0 0 0 0 0)) with 1 in Hf.
    rewrite iadd_Ok by int_side. rewrite bind_ret_l, (isub_Ok (current_time s + e)) by int_side.
    rewrite bind_ret_l, isub_Ok by int_side.
    rewrite bind_ret_l, arr_write_Ok by lia. eexists. split; [done|]. apply Hnext; try done.
    + constructor; cbn [arrival_time burst_time remaining_time completion_time turnaround_time waiting_time]; lia.
    + rewrite Hfp. unfold finished. cbn [remaining_time]. case_cond; lia.
  - rewrite arr_write_Ok by lia. eexists. split; [done|]. apply Hnext; try done.
    + constructor; cbn [arrival_time burst_time remaining_time completion_time turnaround_time waiting_time]; lia.
    + rewrite Hfp. unfold finished. cbn [remaining_time]. case_cond; lia.
Qed.

Lemma some_unfinished ps : total finished ps < len ps -> exists j p, zget ps j = Some p /\ remaining_time p <> 0.
Proof.
  induction ps as [|p ps IH]; simpl; [lia|]. unfold finished at 1. case_cond; intros H.
  - destruct IH as (j & q & E & Hq); [lia|]. exists (j + 1), q. rewrite zget_cons.
    pose proof (zget_Some_range _ _ _ E). case_cond; [lia|]. by replace (j + 1 - 1) with j by lia.
  - by exists 0, p.
Qed.

Definition rr_measure (s : rr_state) : nat :=
  Z.to_nat (total remaining_time (procs s) + Z.max 0 (latest - current_time s)).

Lemma rr_round_ok n s :
  Z.of_nat n <= INT_MAX -> rr_inv n s ->
  exists c, rr_round n s = Ok c /\
    match c with
    | Next s' => rr_inv n s' /\ (rr_measure s' < rr_measure s)%nat
    | Return ps => ps = procs s /\ total finished ps = Z.of_nat n
    end.
Proof.
  intros Hn Hinv. pose proof Hinv as (Hlen & Hgood & Hcomp & HtB & Hnow). unfold rr_round.
  pose proof (total_finished_le (procs s)). destruct (Z.ltb_spec (completed s) (Z.of_nat n)) as [Hlt|Hge].
  2: { eexists. split; [done|]. split; [done|]. lia. }
  destruct (for_range_inv (pass_inv n s) n 0 rr_pass (mkRR (current_time s) (completed s) false (procs s)))
    as (s1 & -> & Hs1).
  { split; [done|]. split; [done|]. split; [done|]. split; [done|]. split; [done|].
    intros j p Hj E. apply zget_Some_range in E. lia. }
  { intros j t Hj Ht. apply rr_pass_ok; [lia|done..]. }
  rewrite bind_ret_l. destruct Hs1 as ((Hlen1 & Hgood1 & Hcomp1 & HtB1 & Hnow1) & H0 & HR & Hany).
  pose proof (remaining_nonneg _ _ Hgood1). destruct (any_executed s1) eqn:Ha.
  - rewrite bind_ret_l. eexists. split; [done|]. split; [done|]. unfold rr_measure.
    cbn [procs current_time]. lia.
  - destruct Hany as (Hps & Ht & Hidle). rewrite Hps in *. rewrite Ht in *.
    destruct (some_unfinished (procs s)) as (j & p & E & Hp); [lia|].
    pose proof (Forall_zget _ _ _ _ Hgood1 E) as [Ga _ Gr _ _]. pose proof (zget_Some_range _ _ _ E).
    pose proof (Hidle j p ltac:(lia) E).
    assert (remaining_time p <= total remaining_time (procs s)).
    { apply (total_member remaining_time _ j); [|done]. eapply list.Forall_impl; [exact Hgood1|]. intros q []. lia. }
    assert (total remaining_time (procs s) <= total burst_time (procs s)).
    { apply total_mono. eapply list.Forall_impl; [exact Hgood1|]. intros q []. lia. }
    rewrite iadd_Ok by int_side. rewrite bind_ret_l. eexists. split; [done|]. split.
    + unfold rr_inv. cbn [procs current_time completed]. split_and!; try done; try lia.
      eapply list.Forall_impl; [exact Hgood1|]. intros q. apply good_later. lia.
    + unfold rr_measure. cbn [procs current_time]. lia.
Qed.

Lemma all_finished ps :
  total finished ps = len ps -> Forall (fun p => remaining_time p = 0) ps.
Proof.
  induction ps as [|p ps IH]; simpl; intros H; [constructor|]. pose proof (total_finished_le ps).
  unfold finished at 1 in H. revert H. case_cond; intros H; [|lia]. constructor; [done|]. apply IH. lia.
Qed.
End proofs.

(** Round robin completes: when every process starts with its whole burst
    left and all times fit an [int], the scheduler returns within
    [latest + total burst] rounds, every process has run to its end, its
    turnaround is completion - arrival, its waiting time turnaround - burst
    and not negative, and nothing ends after [latest + total burst]. *)
Theorem round_robin_completes latest ps fuel :
  Forall (fun p => 0 <= arrival_time p <= latest /\ 0 < burst_time p /\ remaining_time p = burst_time p) ps ->
  0 <= latest -> latest + total burst_time ps <= INT_MAX -> len ps <= INT_MAX ->
  latest + total burst_time ps < Z.of_nat fuel ->
  exists ps', round_robin_schedule fuel ps (length ps) = Ok ps' /\ length ps' = length ps /\
    Forall (fun p => remaining_time p = 0 /\ turnaround_time p = completion_time p - arrival_time p /\
      waiting_time p = turnaround_time p - burst_time p /\ 0 <= waiting_time p /\
      completion_time p <= latest + total burst_time ps) ps'.
Proof.
  intros Hps Hlat Hmax Hn Hfuel. unfold round_robin_schedule.
  assert (total remaining_time ps = total burst_time ps) as HR.
  { clear Hmax Hn Hfuel. induction Hps as [|p ps (_ & _ & Hp) _ IH]; simpl; [done|]. lia. }
  destruct (loop_total (rr_inv latest (total burst_time ps) (length ps))
    (fun r => exists s, rr_inv latest (total burst_time ps) (length ps) s /\ r = procs s /\ total finished r = len ps)
    (rr_measure latest) (rr_round (length ps))) with (fuel := fuel) (s := mkRR 0 0 false ps)
    as (r & -> & s & Hs & -> & Hf).
  - intros s Hs. destruct (rr_round_ok latest (total burst_time ps) Hmax (length ps) s Hn Hs) as (c & Hc & Hm).
    exists c. split; [done|]. destruct c; [done|]. destruct Hm as [-> ?]. by exists s.
  - split; [done|]. cbn [procs current_time completed]. split_and!; try done; try lia.
    + eapply list.Forall_impl; [exact Hps|]. intros p (? & ? & ?). constructor; try lia; intros; exfalso; lia.
    + symmetry. clear Hmax Hn Hfuel HR. induction Hps as [|p ps (_ & ? & Hp) _ IH]; simpl; [done|].
      unfold finished at 1. case_cond; lia.
  - assert (0 <= total burst_time ps).
    { apply field_total_nonneg. eapply list.Forall_impl; [exact Hps|]. intros p (? & ? & ?). lia. }
    unfold rr_measure. cbn [procs current_time]. lia.
  - destruct Hs as (Hl & Hg & _ & _ & Ht). exists (procs s). split; [done|]. split; [done|].
    pose proof (all_finished (procs s) ltac:(lia)) as Hz. pose proof (remaining_nonneg _ _ _ Hg).
    apply list.Forall_forall. intros p Hp. rewrite list.Forall_forall in Hg, Hz.
    destruct (Hg p Hp) as [_ _ _ _ Hd]. specialize (Hz p Hp). destruct (Hd Hz) as (? & ? & ? & ?). lia.
Qed.

(** With the initialisers of [main] no process ever runs: the scheduler counts
    time until it overflows. *)
Lemma rr_main_diverges fuel : Z.of_nat fuel <= INT_MAX -> rr_main fuel = Fault OutOfFuel.
Proof.
  intros Hf. unfold rr_main, round_robin_schedule.
  assert (forall f t, 0 <= t -> t + Z.of_nat f <= INT_MAX -> forall b,
    loop f (rr_round 3) (mkRR t 0 b processes) = Fault OutOfFuel) as H; [|by rewrite H].
  induction f as [|f IH]; intros t Ht Hmax b; [done|]. rewrite loop_S.
  assert (rr_round 3 (mkRR t 0 b processes) = Ok (Next (mkRR (t + 1) 0 false processes))) as ->.
  { unfold rr_round. cbn [completed current_time procs]. change (0 <? Z.of_nat 3) with true. cbv iota.
    replace (for_range 3 0 rr_pass (mkRR t 0 false processes)) with (Ok (mkRR t 0 false processes)) by done.
    rewrite bind_ret_l. cbn [any_executed current_time]. by rewrite iadd_Ok by int_side. }
  rewrite bind_ret_l. apply IH; lia.
Qed.

Definition demo : list Process :=
  [mkProcess 1 0 7 7 0 0 0; mkProcess 2 2 4 4 0 0 0; mkProcess 3 4 1 1 0 0 0].

Lemma round_robin_completes_witness :
  exists ps', round_robin_schedule 20 demo (length demo) = Ok ps' /\ length ps' = length demo /\
    Forall (fun p => remaining_time p = 0 /\ turnaround_time p = completion_time p - arrival_time p /\
      waiting_time p = turnaround_time p - burst_time p /\ 0 <= waiting_time p /\
      completion_time p <= 4 + total burst_time demo) ps'.
Proof.
  apply (round_robin_completes 4 demo 20).
  - repeat constructor; discriminate.
  - discriminate.
  - discriminate.
  - discriminate.
  - reflexivity.
Defined.
End RoundRobin.

(** ** Priorities with aging ([priority_scheduling.c]) *)
Module PriorityAging.

Record PriorityProcess : Type := mkPP {
  pid : Z;
  priority : Z;
  age : Z;
  burst_time : Z;
  remaining_time : Z
}.

Definition age_pass (i : Z) (ps : list PriorityProcess) : res (list PriorityProcess) :=
  p ← ps.[i];
  if remaining_time p >? 0 then
    a ← iadd (age p) 1;
    if a >=? 5 then
      pr ← iadd (priority p) 1;
      ps.[i <- mkPP (pid p) pr 0 (burst_time p) (remaining_time p)]
    else ps.[i <- mkPP (pid p) (priority p) a (burst_time p) (remaining_time p)]
  else Ok ps.

Definition age_processes (ps : list PriorityProcess) (n : nat) : res (list PriorityProcess) :=
  for_range n 0 age_pass ps.

(** [highest_priority] and [selected_process]. *)
Definition highest_pass (ps : list PriorityProcess) (i : Z) (s : Z * Z) : res (Z * Z) :=
  let '(highest_priority, selected_process) := s in
  p ← ps.[i];
  Ok (if remaining_time p >? 0 then
        if (selected_process =? -1) || (priority p >? highest_priority) then (priority p, i) else s
      else s).

Definition get_highest_priority_process (ps : list PriorityProcess) (n : nat) : res Z :=
  '(_, selected_process) ← for_range n 0 (highest_pass ps) (-1, -1);
  Ok selected_process.

(** [current_time], [completed], the array, and the messages of completion. *)
Record ps_state : Type := mkPS {
  current_time : Z;
  completed : Z;
  procs : list PriorityProcess;
  log : list (Z * Z)
}.

Definition tick (n : nat) (s : ps_state) : res (ctl ps_state ps_state) :=
  if completed s <? Z.of_nat n then
    ps ← age_processes (procs s) n;
    k ← get_highest_priority_process ps n;
    if k =? -1 then
      now ← iadd (current_time s) 1;
      Ok (Next (mkPS now (completed s) ps (log s)))
    else
      p ← ps.[k];
      r ← isub (remaining_time p) 1;
      ps ← ps.[k <- mkPP (pid p) (priority p) (age p) (burst_time p) r];
      now ← iadd (current_time s) 1;
      if r =? 0 then
        c ← iadd (completed s) 1;
        Ok (Next (mkPS now c ps (log s ++ [(pid p, now)])))
      else Ok (Next (mkPS now (completed s) ps (log s)))
  else Ok (Return s).

Definition priority_schedule_with_aging (fuel : nat) (ps : list PriorityProcess) (n : nat) : res ps_state :=
  loop fuel (tick n) (mkPS 0 0 ps []).

(** The choice: a process that still runs, of the highest priority among
    those, the first of them. *)
Definition runnable (p : PriorityProcess) : bool := remaining_time p >? 0.
Definition higher (p q : PriorityProcess) : bool := priority p >? priority q.

Lemma get_highest_ok ps (n : nat) :
  Z.of_nat n <= len ps ->
  exists k best, get_highest_priority_process ps n = Ok k /\ is_best runnable higher ps (Z.of_nat n) best /\
    k = default (-1) best.
Proof.
  intros Hn. unfold get_highest_priority_process.
  destruct (for_range_inv (fun i (s : Z * Z) => exists best, is_best runnable higher ps i best /\
    s.2 = default (-1) best /\ forall k y, best = Some k -> zget ps k = Some y -> s.1 = priority y)
    n 0 (highest_pass ps) (-1, -1)) as ([hp sel] & -> & best & Hb & Hs & _).
  - exists None. split; [apply is_best_0|done].
  - intros j [hp sel] Hj (best & Hb & Hsel & Hhp).
    destruct (best_step_ok runnable higher ps j best) as (best' & Hstep & Hb'); [lia|done|].
    destruct (zget_range ps j) as [p E]; [lia|]. unfold highest_pass. unfold best_step in Hstep.
    rewrite (arr_read_Ok _ _ _ E), bind_ret_l. rewrite (arr_read_Ok _ _ _ E), bind_ret_l in Hstep.
    eexists. split; [done|]. exists best'. split; [done|].
    fold (runnable p). destruct (runnable p) eqn:Hr; rewrite ?Hr in Hstep; [|by injection Hstep as <-].
    destruct best as [k|].
    + simpl in Hsel. subst sel. destruct Hb as (Hk & y & Ey & _). rewrite (arr_read_Ok _ _ _ Ey), bind_ret_l in Hstep.
      pose proof (zget_Some_range _ _ _ Ey). destruct (Z.eqb_spec k (-1)); [lia|].
      simpl in Hhp. rewrite (Hhp k y eq_refl Ey). cbn [orb]. fold (higher p y). injection Hstep as <-.
      destruct (higher p y); simpl; (split; [done|]); intros k' y' [= <-] E'; congruence.
    + simpl in Hsel. subst sel. injection Hstep as <-. simpl. split; [done|]. intros k y [= <-] E'. congruence.
  - exists sel, best. split; [done|]. by rewrite Z.add_0_l in Hb.
Qed.

Definition finished (r : Z) : Z := if r =? 0 then 1 else 0.

(** [left] ticks are to come; no priority can overflow within them. *)
Definition ok (M left : Z) (p : PriorityProcess) : Prop :=
  0 <= remaining_time p /\ 0 <= age p < 5 /\ INT_MIN <= priority p /\ priority p + left <= M.

Section proofs.
Context (M : Z).
Hypothesis HM : M <= INT_MAX.

Lemma age_processes_ok ps left :
  0 < left -> Forall (ok M left) ps ->
  exists ps', age_processes ps (length ps) = Ok ps' /\ Forall (ok M (left - 1)) ps' /\
    remaining_time <$> ps' = remaining_time <$> ps.
Proof.
  intros Hl Hok. unfold age_processes.
  destruct (for_range_inv (fun i ps' => remaining_time <$> ps' = remaining_time <$> ps /\
      (forall j p, zget ps' j = Some p -> ok M (left - 1) p) /\ (forall j p, i <= j -> zget ps' j = Some p -> ok M left p))
    (length ps) 0 age_pass ps) as (ps' & -> & Hr & Hall & _).
  - split; [done|]. split; intros j p.
    + intros E. pose proof (Forall_zget _ _ _ _ Hok E) as (? & ? & ? & ?). unfold ok. lia.
    + intros _ E. by apply (Forall_zget _ _ _ _ Hok E).
  - intros j t Hj (Hr & Hall & Hrest).
    assert (length t = length ps) as Hlen by (rewrite <- (length_fmap remaining_time t), Hr; apply length_fmap).
    destruct (zget_range t j) as [p E]; [lia|]. unfold age_pass. rewrite (arr_read_Ok _ _ _ E), bind_ret_l.
    destruct (Hrest j p ltac:(lia) E) as (Hp1 & Hp2 & Hp3 & Hp4).
    assert (forall q, remaining_time q = remaining_time p -> ok M (left - 1) q ->
      remaining_time <$> zset t j q = remaining_time <$> ps /\
      (forall k x, zget (zset t j q) k = Some x -> ok M (left - 1) x) /\
      (forall k x, j + 1 <= k -> zget (zset t j q) k = Some x -> ok M left x)) as Hset.
    { intros q Hq Hokq. split; [|split].
      - rewrite <- Hr. apply zget_ext. intros k. rewrite !zget_fmap, zget_zset.
        destruct (Z.eqb_spec k j) as [->|]; [|done]. rewrite (proj2 (in_range_true j _)) by lia. simpl.
        by rewrite E, Hq.
      - intros k x. rewrite zget_zset. case_cond; [by intros [= <-]|apply Hall].
      - intros k x Hk. rewrite zget_zset_ne by lia. apply Hrest. lia. }
    unfold ok in Hset. destruct (remaining_time p >? 0) eqn:Hrem; zbool.
    + rewrite (iadd_Ok (age p)) by int_side. rewrite bind_ret_l. case_cond.
      * rewrite iadd_Ok by int_side. rewrite bind_ret_l, arr_write_Ok by lia. eexists. split; [done|].
        apply Hset; simpl; lia.
      * rewrite arr_write_Ok by lia. eexists. split; [done|]. apply Hset; simpl; lia.
    + eexists. split; [done|]. split; [done|]. split; [done|]. intros k x Hk. apply Hrest. lia.
  - exists ps'. split; [done|]. split; [|done]. apply list.Forall_forall. intros p Hp.
    apply elem_of_zget in Hp as [j E]. by apply (Hall j).
Qed.

Definition ps_inv (n : nat) (T : Z) (s : ps_state) : Prop :=
  length (procs s) = n /\ Forall (ok M (total remaining_time (procs s))) (procs s) /\
  completed s = total (fun p => finished (remaining_time p)) (procs s) /\
  current_time s + total remaining_time (procs s) = T /\ 0 <= current_time s /\
  len (log s) = completed s.

Lemma finished_bounds ps : 0 <= total (fun p => finished (remaining_time p)) ps <= len ps.
Proof. induction ps as [|p ps IH]; simpl; [lia|]. unfold finished at 1 3. case_cond; lia. Qed.

Lemma some_runnable ps :
  Forall (fun p => 0 <= remaining_time p) ps ->
  total (fun p => finished (remaining_time p)) ps < len ps -> exists j p, zget ps j = Some p /\ runnable p = true.
Proof.
  induction 1 as [|p ps Hp _ IH]; simpl; [lia|]. unfold finished at 1. unfold runnable in *. case_cond; intros H.
  - destruct IH as (j & q & E & Hq); [lia|]. exists (j + 1), q. rewrite zget_cons.
    pose proof (zget_Some_range _ _ _ E). case_cond; [lia|]. replace (j + 1 - 1) with j by lia.
    split; [done|]. rewrite Z.gtb_ltb. apply Z.ltb_lt. lia.
  - exists 0, p. split; [done|]. rewrite Z.gtb_ltb. apply Z.ltb_lt. lia.
Qed.

Lemma tick_ok n T s :
  T <= INT_MAX -> Z.of_nat n <= INT_MAX -> ps_inv n T s ->
  exists c, tick n s = Ok c /\
    match c with
    | Next s' => ps_inv n T s' /\ current_time s' = current_time s + 1 /\
        (Z.to_nat (total remaining_time (procs s')) < Z.to_nat (total remaining_time (procs s)))%nat
    | Return s' => s' = s /\ completed s = Z.of_nat n
    end.
Proof.
  intros HT Hn (Hlen & Hok & Hc & Hsum & Hnow & Hlog). unfold tick.
  pose proof (finished_bounds (procs s)) as Hfb.
  destruct (Z.ltb_spec (completed s) (Z.of_nat n)) as [Hlt|Hge].
  2: { eexists. split; [done|]. split; [done|]. lia. }
  set (R := total remaining_time (procs s)) in *.
  assert (Forall (fun p => 0 <= remaining_time p) (procs s)) as Hnn.
  { eapply list.Forall_impl; [exact Hok|]. by intros p []. }
  destruct (some_runnable (procs s) Hnn) as (j & p & E & Hp); [lia|].
  pose proof (total_member remaining_time _ _ _ Hnn E) as HpR. unfold runnable in Hp. zbool. fold R in HpR.
  destruct (age_processes_ok (procs s) R) as (ps & Hage & Hok' & Hrem); [lia|done|].
  rewrite Hlen in Hage. rewrite Hage, bind_ret_l.
  assert (length ps = n) as Hlen' by (rewrite <- (length_fmap remaining_time ps), Hrem, length_fmap; done).
  destruct (get_highest_ok ps n) as (k & best & Hk & Hb & ->); [lia|]. rewrite Hk, bind_ret_l.
  assert (exists q, zget ps j = Some q /\ runnable q = true) as (q & Eq & Hq).
  { assert (zget (remaining_time <$> ps) j = Some (remaining_time p)) as Ef by (rewrite Hrem, zget_fmap, E; done).
    rewrite zget_fmap in Ef. apply fmap_Some in Ef as (q & Eq & Hq). exists q. split; [done|].
    unfold runnable. rewrite Z.gtb_ltb. apply Z.ltb_lt. lia. }
  destruct best as [k|]; simpl in Hb.
  2: { rewrite (Hb j q) in Hq; [done| |done]. apply zget_Some_range in Eq. lia. }
  destruct Hb as (Hkn & x & Ex & Hx & _). unfold runnable in Hx. zbool. simpl.
  pose proof (zget_Some_range _ _ _ Ex). destruct (Z.eqb_spec k (-1)); [lia|].
  pose proof (Forall_zget _ _ _ _ Hok' Ex) as (_ & Hxa & Hxp & Hxl).
  assert (total remaining_time ps = R) as HR.
  { etransitivity; [exact (total_fmap (fun z => z) remaining_time ps)|]. rewrite Hrem. symmetry.
    exact (total_fmap (fun z => z) remaining_time (procs s)). }
  assert (total (fun p => finished (remaining_time p)) ps = completed s) as HC.
  { rewrite Hc. rewrite !(total_fmap finished remaining_time). by rewrite Hrem. }
  assert (Forall (fun p => 0 <= remaining_time p) ps) as Hnn'.
  { eapply list.Forall_impl; [exact Hok'|]. by intros y []. }
  pose proof (total_member remaining_time _ _ _ Hnn' Ex) as HxR.
  rewrite (arr_read_Ok _ _ _ Ex), bind_ret_l. rewrite (isub_Ok (remaining_time x)) by int_side.
  rewrite bind_ret_l, arr_write_Ok by lia. rewrite bind_ret_l, (iadd_Ok (current_time s)) by int_side. rewrite bind_ret_l.
  set (y := mkPP (pid x) (priority x) (age x) (burst_time x) (remaining_time x - 1)).
  assert (forall c l, c = completed s + finished (remaining_time x - 1) -> len l = c ->
    ps_inv n T (mkPS (current_time s + 1) c (zset ps k y) l) /\
    (Z.to_nat (total remaining_time (zset ps k y)) < Z.to_nat R)%nat) as Hnext.
  { intros c l -> Hl. unfold ps_inv. cbn [procs completed current_time log].
    rewrite !(total_zset _ _ _ _ _ Ex), length_zset, HR, HC. cbn [remaining_time y].
    assert (finished (remaining_time x) = 0) as -> by (unfold finished; case_cond; lia).
    replace (R - remaining_time x + (remaining_time x - 1)) with (R - 1) by lia.
    split; [|lia]. split_and!; (done || lia || idtac).
    unfold zset. case_cond; [|lia]. apply Forall_insert; [done|]. unfold ok. simpl. lia. }
  unfold finished in Hnext. case_cond.
  - pose proof (finished_bounds (zset ps k y)) as Hfb'. rewrite (total_zset _ _ _ _ _ Ex), length_zset, HC in Hfb'.
    unfold finished in Hfb'. cbn [remaining_time y] in Hfb'.
    rewrite iadd_Ok by (repeat case_cond; int_side). rewrite bind_ret_l. eexists. split; [done|].
    destruct (Hnext (completed s + 1) (log s ++ [(pid x, current_time s + 1)])) as [? ?];
      [done|rewrite length_app; simpl; lia|]. done.
  - eexists. split; [done|]. destruct (Hnext (completed s) (log s)) as [? ?]; [lia|done|]. done.
Qed.
End proofs.

(** Scheduling by priority with aging completes: when every process has
    work left and no counter can overflow, the scheduler takes exactly one
    tick per unit of work, announces every completion once and leaves no work.
    (Each tick runs a runnable process of the highest priority after aging.) *)
Theorem priority_aging_completes M ps fuel :
  Forall (fun p => 0 < remaining_time p /\ 0 <= age p < 5 /\ INT_MIN <= priority p /\
    priority p + total remaining_time ps <= M) ps ->
  M <= INT_MAX -> total remaining_time ps <= INT_MAX -> len ps <= INT_MAX ->
  total remaining_time ps < Z.of_nat fuel ->
  exists s, priority_schedule_with_aging fuel ps (length ps) = Ok s /\
    current_time s = total remaining_time ps /\ Forall (fun p => remaining_time p = 0) (procs s) /\
    length (procs s) = length ps /\ length (log s) = length ps.
Proof.
  intros Hps HM HT Hn Hfuel. unfold priority_schedule_with_aging. set (T := total remaining_time ps) in *.
  assert (0 <= T) as HT0.
  { apply field_total_nonneg. eapply list.Forall_impl; [exact Hps|]. intros p (? & _). lia. }
  destruct (loop_total (ps_inv M (length ps) T)
    (fun r => ps_inv M (length ps) T r /\ completed r = len ps)
    (fun s => Z.to_nat (total remaining_time (procs s))) (tick (length ps))) with (fuel := fuel) (s := mkPS 0 0 ps [])
    as (r & -> & (Hlen & Hok & Hc & Hsum & Hnow & Hlog) & Hr).
  - intros s Hs. destruct (tick_ok M HM (length ps) T s HT Hn Hs) as (c & Hc & Hm). exists c. split; [done|].
    destruct c; [by destruct Hm as (? & _ & ?)|]. by destruct Hm as [-> ?].
  - unfold ps_inv. cbn [procs completed current_time log]. fold T. split_and!; (done || lia || idtac).
    + eapply list.Forall_impl; [exact Hps|]. intros p (? & ? & ? & ?). unfold ok. lia.
    + symmetry. clear -Hps. revert Hps. generalize T as T'. clear T. intros T' Hps.
      induction Hps as [|p l (? & _) _ IH]; simpl; [done|]. unfold finished at 1. case_cond; lia.
  - cbn [procs]. fold T. lia.
  - assert (Forall (fun p => remaining_time p = 0) (procs r)) as Hz.
    { rewrite Hc in Hr. rewrite <- Hlen in Hr. clear -Hr. induction (procs r) as [|p l IH]; [constructor|].
      simpl in Hr. pose proof (finished_bounds l). unfold finished at 1 in Hr. revert Hr. case_cond; intros Hr; [|lia].
      constructor; [done|]. apply IH. lia. }
    exists r. split; [done|]. split_and!; [|done|done|lia].
    assert (total remaining_time (procs r) = 0); [|lia]. clear -Hz. induction Hz; simpl; lia.
Qed.

Definition demo : list PriorityProcess := [mkPP 1 3 0 4 4; mkPP 2 5 0 3 3; mkPP 3 1 0 2 2].

Lemma priority_aging_completes_witness :
  exists s, priority_schedule_with_aging 10 demo (length demo) = Ok s /\
    current_time s = total remaining_time demo /\ Forall (fun p => remaining_time p = 0) (procs s) /\
    length (procs s) = length demo /\ length (log s) = length demo.
Proof.
  apply (priority_aging_completes 14 demo 10).
  - repeat constructor; discriminate.
  - discriminate.
  - discriminate.
  - discriminate.
  - reflexivity.
Defined.
End PriorityAging.

(** ** Completely fair scheduling ([completely_fair_scheduler.c]) *)
Module Cfs.

Definition MIN_NICE : Z := -20.
Definition MAX_NICE : Z := 19.

Record CFSProcess : Type := mkCFS { pid : Z; nice_value : Z; vruntime : Z; weight : Z }.

Definition calculate_weight (nice : Z) : res Z :=
  a ← isub MAX_NICE nice;
  a ← iadd a 1;
  a ← imul a 100;
  Ok (u64 a).

Definition update_vruntime (p : CFSProcess) (runtime : Z) : res CFSProcess :=
  if weight p =? 0 then Fault DivByZero
  else Ok (mkCFS (pid p) (nice_value p) (u64 (vruntime p + u64 (runtime * 1024) / weight p)) (weight p)).

Definition min_pass (ps : list CFSProcess) (i : Z) (s : Z * Z) : res (Z * Z) :=
  let '(min_idx, min_vruntime) := s in
  p ← ps.[i];
  Ok (if vruntime p <? min_vruntime then (i, vruntime p) else s).

Definition find_min_vruntime_process (ps : list CFSProcess) (count : nat) : res Z :=
  p ← ps.[0];
  '(min_idx, _) ← for_range (count - 1) 1 (min_pass ps) (0, vruntime p);
  Ok min_idx.

Definition init_pass (i : Z) (ps : list CFSProcess) : res (list CFSProcess) :=
  p ← ps.[i];
  w ← calculate_weight (nice_value p);
  ps.[i <- mkCFS (pid p) (nice_value p) 0 w].

(** One time slot; the log has the process that ran. *)
Definition slot (count : nat) (s : list CFSProcess * list Z) : res (list CFSProcess * list Z) :=
  let '(ps, log) := s in
  k ← find_min_vruntime_process ps count;
  p ← ps.[k];
  p' ← update_vruntime p 1;
  ps ← ps.[k <- p'];
  Ok (ps, log ++ [pid p]).

Definition simulate_cfs (ps : list CFSProcess) (count : nat) (simulation_time : nat)
    : res (list CFSProcess * list Z) :=
  ps ← for_range count 0 init_pass ps;
  for_range simulation_time 0 (fun _ => slot count) (ps, []).

Definition processes : list CFSProcess := [mkCFS 1 0 0 0; mkCFS 2 (-10) 0 0; mkCFS 3 10 0 0].

Definition cfs_main : res (list CFSProcess * list Z) := simulate_cfs processes 3 15.

Definition nice_ok (p : CFSProcess) : Prop := MIN_NICE <= nice_value p <= MAX_NICE.
Definition weight_ok (p : CFSProcess) : Prop := weight p = (20 - nice_value p) * 100 /\ nice_ok p.

Lemma find_min_ok ps :
  ps <> [] ->
  exists k p, find_min_vruntime_process ps (length ps) = Ok k /\ zget ps k = Some p /\
    forall j q, zget ps j = Some q -> vruntime p <= vruntime q.
Proof.
  intros Hne. unfold find_min_vruntime_process. destruct ps as [|p0 ps']; [done|]. set (ps := p0 :: ps').
  change (ps.[0]) with (Ok p0). rewrite bind_ret_l.
  destruct (for_range_inv (fun i (s : Z * Z) => exists p, zget ps s.1 = Some p /\ s.2 = vruntime p /\
    forall j q, j < i -> zget ps j = Some q -> vruntime p <= vruntime q) (length ps - 1) 1 (min_pass ps)
    (0, vruntime p0)) as ([k v] & -> & p & Ep & _ & Hmin).
  - exists p0. split_and!; [done..|]. intros j q Hj E. pose proof (zget_Some_range _ _ _ E).
    replace j with 0 in E by lia. by injection E as <-.
  - intros j [k v] Hj (p & Ep & Hv & Hmin). simpl in Ep, Hv. subst v. destruct (zget_range ps j) as [q E]; [lia|].
    unfold min_pass. rewrite (arr_read_Ok _ _ _ E), bind_ret_l. eexists. split; [done|].
    destruct (Z.ltb_spec (vruntime q) (vruntime p)).
    + exists q. split_and!; [done..|]. intros i x Hi Ei. destruct (decide (i = j)) as [->|].
      * rewrite E in Ei. injection Ei as <-. lia.
      * pose proof (Hmin i x ltac:(lia) Ei). lia.
    + exists p. split_and!; [done..|]. intros i x Hi Ei. destruct (decide (i = j)) as [->|].
      * rewrite E in Ei. injection Ei as <-. lia.
      * apply (Hmin i); [lia|done].
  - exists k, p. split; [done|]. split; [done|]. intros j q E. apply (Hmin j); [|done].
    apply zget_Some_range in E. lia.
Qed.

Lemma calculate_weight_ok p : nice_ok p -> calculate_weight (nice_value p) = Ok ((20 - nice_value p) * 100).
Proof.
  unfold nice_ok, MIN_NICE, MAX_NICE. intros H. unfold calculate_weight, MAX_NICE.
  rewrite isub_Ok by int_side. rewrite bind_ret_l, iadd_Ok by int_side. rewrite bind_ret_l, imul_Ok by int_side.
  rewrite bind_ret_l, u64_id by (unfold UINT64; lia). f_equal. lia.
Qed.

(** What one slot adds: at most 10, the share of the smallest weight. *)
Lemma share_bound p : weight_ok p -> 0 <= 1024 / weight p <= 10 /\ 0 < weight p.
Proof.
  intros [-> H]. unfold nice_ok, MIN_NICE, MAX_NICE in H. split; [|lia].
  split; [apply Z.div_pos; lia|]. apply Z.lt_succ_r. apply Z.div_lt_upper_bound; lia.
Qed.

(** After [t] slots. *)
Definition fair (t : Z) (s : list CFSProcess * list Z) : Prop :=
  Forall weight_ok s.1 /\ len s.2 = t /\
  Forall (fun p => 0 <= vruntime p <= 10 * t) s.1 /\
  forall i j p q, zget s.1 i = Some p -> zget s.1 j = Some q -> vruntime p <= vruntime q + 10.

Lemma slot_ok t s :
  s.1 <> [] -> 0 <= t -> 10 * t + 10 < UINT64 -> fair t s ->
  exists s', slot (length s.1) s = Ok s' /\ fair (t + 1) s' /\ length s'.1 = length s.1.
Proof.
  destruct s as [ps log]. simpl. intros Hne Ht Hmax (Hw & Hlog & Hv & Hfair). simpl in *. unfold slot.
  destruct (find_min_ok ps Hne) as (k & p & -> & Ep & Hmin). rewrite bind_ret_l, (arr_read_Ok _ _ _ Ep), bind_ret_l.
  destruct (share_bound p (Forall_zget _ _ _ _ Hw Ep)) as [Hs Hwp].
  pose proof (Forall_zget _ _ _ _ Hv Ep) as Hvp. simpl in Hvp.
  unfold update_vruntime. destruct (Z.eqb_spec (weight p) 0); [lia|].
  change (u64 (1 * 1024)) with 1024. rewrite u64_id by lia. rewrite bind_ret_l.
  pose proof (zget_Some_range _ _ _ Ep). rewrite arr_write_Ok by lia. rewrite bind_ret_l.
  eexists. split; [done|]. simpl. rewrite length_zset. split; [|done].
  set (p' := mkCFS _ _ _ _).
  split; [|split; [simpl; rewrite length_app; simpl; lia|split]]; simpl.
  - apply Forall_zset; [done|]. apply (Forall_zget _ _ _ _ Hw Ep).
  - apply Forall_zset; [|simpl; lia]. eapply list.Forall_impl; [exact Hv|]. simpl. lia.
  - intros i j x y. rewrite !zget_zset. rewrite (proj2 (in_range_true k _)) by lia. rewrite !andb_true_r.
    destruct (Z.eqb_spec i k), (Z.eqb_spec j k); intros Ex Ey; simplify_eq/=; try lia.
    + pose proof (Hmin j y Ey). lia.
    + pose proof (Hfair i k x p Ex Ep). lia.
    + by apply (Hfair i j).
Qed.

Lemma init_weights ps :
  Forall nice_ok ps ->
  exists ps', for_range (length ps) 0 init_pass ps = Ok ps' /\ Forall weight_ok ps' /\
    Forall (fun p => vruntime p = 0) ps' /\ length ps' = length ps.
Proof.
  intros Hn.
  destruct (for_range_inv (fun i ps' => length ps' = length ps /\ Forall nice_ok ps' /\
    forall j p, j < i -> zget ps' j = Some p -> weight_ok p /\ vruntime p = 0) (length ps) 0 init_pass ps)
    as (ps' & -> & Hl & _ & Hall).
  - split; [done|]. split; [done|]. intros j p Hj E. apply zget_Some_range in E. lia.
  - intros j t Hj (Hl & Hnt & Hdone). destruct (zget_range t j) as [p E]; [lia|].
    pose proof (Forall_zget _ _ _ _ Hnt E) as Hp. unfold init_pass.
    rewrite (arr_read_Ok _ _ _ E), bind_ret_l, (calculate_weight_ok p Hp), bind_ret_l, arr_write_Ok by lia.
    eexists. split; [done|]. rewrite length_zset. split; [done|]. split; [by apply Forall_zset|].
    intros i q Hi. rewrite zget_zset. rewrite (proj2 (in_range_true j _)) by lia. rewrite andb_true_r. case_cond.
    + by intros [= <-].
    + apply Hdone. lia.
  - exists ps'. split; [done|].
    assert (forall p, p ∈ ps' -> weight_ok p /\ vruntime p = 0) as Hp.
    { intros p [j E]%elem_of_zget. apply (Hall j p); [|done]. apply zget_Some_range in E. lia. }
    split_and!; [apply list.Forall_forall; intros p Hin; by apply Hp..|done].
Qed.

(** Fairness: at every time the virtual runtimes of any two processes
    differ by at most 10, the largest share of one slot, and every slot runs
    one process. *)
Theorem cfs_fair ps n :
  ps <> [] -> Forall nice_ok ps -> 10 * Z.of_nat n < UINT64 ->
  exists ps' log, simulate_cfs ps (length ps) n = Ok (ps', log) /\ length log = n /\ length ps' = length ps /\
    forall i j p q, zget ps' i = Some p -> zget ps' j = Some q -> vruntime p <= vruntime q + 10.
Proof.
  intros Hne Hn Hmax. unfold simulate_cfs. destruct (init_weights ps Hn) as (ps1 & -> & Hw & Hv & Hl). rewrite bind_ret_l.
  destruct (for_range_inv (fun t s => fair t s /\ length s.1 = length ps) n 0 (fun _ => slot (length ps)) (ps1, []))
    as ([ps' log] & -> & (Hw' & Hlog & Hv' & Hfair) & Hl').
  - split; [|done]. split; [done|]. split; [done|]. split.
    + simpl. eapply list.Forall_impl; [exact Hv|]. simpl. lia.
    + simpl. intros i j p q E E'. rewrite (Forall_zget _ _ _ _ Hv E), (Forall_zget _ _ _ _ Hv E'). lia.
  - intros t s Ht [Hf Hls]. rewrite <- Hls.
    destruct (slot_ok t s) as (s' & Hs & Hf' & Hl'); [|lia..|done|].
    + intros Hnil. rewrite Hnil in Hls. by destruct ps.
    + exists s'. split; [done|]. split; [done|]. congruence.
  - exists ps', log. simpl in *. split; [done|]. split; [lia|]. split; done.
Qed.

(** A weight above 1024 (nice 9 or less) makes the share of a slot 0: in
    [main] the first process runs all 15 slots. *)
Lemma cfs_main_starves : exists ps, cfs_main = Ok (ps, replicate 15 1).
Proof. eexists. vm_compute. reflexivity. Qed.

Definition demo : list CFSProcess := [mkCFS 1 10 0 0; mkCFS 2 15 0 0; mkCFS 3 19 0 0].

Lemma cfs_fair_witness :
  exists ps' log, simulate_cfs demo (length demo) 15 = Ok (ps', log) /\ length log = 15%nat /\
    length ps' = length demo /\
    forall i j p q, zget ps' i = Some p -> zget ps' j = Some q -> vruntime p <= vruntime q + 10.
Proof.
  apply (cfs_fair demo 15).
  - discriminate.
  - repeat constructor; discriminate.
  - reflexivity.
Defined.
End Cfs.

(** ** The life of a process ([process_state.c]) *)
Module ProcState.

Inductive ProcessState : Type := CREATED | RUNNING | WAITING | READY | TERMINATED.

Record Process : Type := mkProcess {
  pid : Z;
  state : ProcessState;
  cpu_burst_time : Z;
  io_burst_time : Z
}.

Definition create_process (pid cpu_time io_time : Z) : Process := mkProcess pid CREATED cpu_time io_time.

(** The new record and the transition printed. *)
Definition transition_state (p : Process) (new_state : ProcessState) : Process * (ProcessState * ProcessState) :=
  (mkProcess (pid p) new_state (cpu_burst_time p) (io_burst_time p), (state p, new_state)).

Fixpoint transitions (p : Process) (l : list ProcessState) : Process * list (ProcessState * ProcessState) :=
  match l with
  | [] => (p, [])
  | st :: l' =>
      let '(p1, t) := transition_state p st in
      let '(p2, ts) := transitions p1 l' in (p2, t :: ts)
  end.

Definition simulate_process (p : Process) : Process * list (ProcessState * ProcessState) :=
  let '(p, t1) := transitions p [READY; RUNNING] in
  let '(p, t2) := if io_burst_time p >? 0 then transitions p [WAITING; READY; RUNNING] else (p, []) in
  let '(p, t3) := transitions p [TERMINATED] in
  (p, t1 ++ t2 ++ t3).

Definition process_main : list (ProcessState * ProcessState) :=
  (simulate_process (create_process 1 100 50)).2 ++ (simulate_process (create_process 2 75 0)).2.

(** The edges of the usual process state diagram. *)
Definition legal (t : ProcessState * ProcessState) : bool :=
  match t with
  | (CREATED, READY) | (READY, RUNNING) | (RUNNING, WAITING) | (WAITING, READY) | (RUNNING, TERMINATED) => true
  | _ => false
  end.

(** A new process goes through legal transitions only and ends terminated; it
    waits exactly if it has I/O to do. *)
Lemma simulate_process_legal pid cpu io :
  Forall (fun t => legal t = true) (simulate_process (create_process pid cpu io)).2 /\
  state (simulate_process (create_process pid cpu io)).1 = TERMINATED /\
  ((RUNNING, WAITING) ∈ (simulate_process (create_process pid cpu io)).2 <-> 0 < io).
Proof.
  unfold simulate_process, create_process. simpl. rewrite Z.gtb_ltb. destruct (Z.ltb_spec 0 io); simpl.
  - split_and!; [repeat constructor|done|]. split; [done|]. intros _. right. right. left.
  - split_and!; [repeat constructor|done|]. split; [|lia]. intros Hin.
    repeat (apply elem_of_cons in Hin as [Hin|Hin]; [discriminate Hin|]). by apply elem_of_nil in Hin.
Qed.
End ProcState.
