(* ===== verification/Mlfq.v ===== *)
(** * The multi-level feedback queue ([os/process/scheduler/multi_level_queuing.c])

    Each level is an array of pointers to processes with a count; a process is
    in one array only, so its record is stored in the slot.  The theorem: a
    run refines the abstract scheduler on three lists, gives every process
    exactly its burst time, and ends. *)
From Stdlib Require Import ZArith Lia.
From stdpp Require Import base tactics list numbers option.
From S2P Require Import Prelude.

#[local] Open Scope Z_scope.
#[local] Open Scope c_scope.

Definition MAX_QUEUES : Z := 3.
Definition MAX_PROCESSES : Z := 100.

Record MLFQProcess : Type := mkProc {
  pid : Z;
  burst_time : Z;
  remaining_time : Z;
  queue_level : Z;
  quantum_used : Z
}.

(** A slot that was never written is [None]. *)
Record Queue : Type := mkQueue {
  processes : list (option MLFQProcess);
  count : Z;
  quantum : Z
}.

Record MLFQ : Type := mkMLFQ { queues : list Queue; current_queue : Z }.

Definition init_mlfq : MLFQ :=
  mkMLFQ ((fun i => mkQueue (replicate (Z.to_nat MAX_PROCESSES) None) 0 (Z.shiftl 1 i)) <$> [0; 1; 2]) 0.

(** [q->processes[q->count++] = process]. *)
Definition push (q : Queue) (p : MLFQProcess) : res Queue :=
  l ← (processes q).[count q <- Some p];
  n ← iadd (count q) 1;
  Ok (mkQueue l n (quantum q)).

(** Remove the first process: shift the others down. *)
Definition remove_first (q : Queue) : res Queue :=
  m ← isub (count q) 1;
  l ← shift_left (Z.to_nat m) (processes q);
  n ← isub (count q) 1;
  Ok (mkQueue l n (quantum q)).

Definition add_process (m : MLFQ) (pid burst_time : Z) : res MLFQ :=
  top ← (queues m).[0];
  top ← push top (mkProc pid burst_time burst_time 0 0);
  qs ← (queues m).[0 <- top];
  Ok (mkMLFQ qs (current_queue m)).

(** The process, the level and the time left, as printed. *)
Definition event : Type := Z * Z * Z.

Definition first_process (q : Queue) : res MLFQProcess :=
  e ← (processes q).[0];
  match e with Some p => Ok p | None => Fault NullDeref end.

(** The body of the loop for a level whose queue is not empty. *)
Definition run_level (i : Z) (m : MLFQ) (q : Queue) : res (MLFQ * option event) :=
  p ← first_process q;
  r ← isub (remaining_time p) 1;
  u ← iadd (quantum_used p) 1;
  let p := mkProc (pid p) (burst_time p) r (queue_level p) u in
  l ← (processes q).[0 <- Some p];
  let q := mkQueue l (count q) (quantum q) in
  if r =? 0 then
    q ← remove_first q;
    qs ← (queues m).[i <- q];
    Ok (mkMLFQ qs (current_queue m), Some (pid p, i, r))
  else if u >=? quantum q then
    if i <? MAX_QUEUES - 1 then
      lvl ← iadd (queue_level p) 1;
      let p := mkProc (pid p) (burst_time p) r lvl 0 in
      next ← (queues m).[i + 1];
      next ← push next p;
      q ← remove_first q;
      qs ← (queues m).[i + 1 <- next];
      qs ← qs.[i <- q];
      Ok (mkMLFQ qs (current_queue m), Some (pid p, i, r))
    else
      qs ← (queues m).[i <- q];
      Ok (mkMLFQ qs (current_queue m), Some (pid p, i, r))
  else
    qs ← (queues m).[i <- q];
    Ok (mkMLFQ qs (current_queue m), Some (pid p, i, r)).

Definition slice_pass (i : Z) (m : MLFQ) : res (ctl MLFQ (MLFQ * option event)) :=
  q ← (queues m).[i];
  if count q >? 0 then r ← run_level i m q; Ok (Return r) else Ok (Next m).

Definition execute_time_slice (m : MLFQ) : res (MLFQ * option event) :=
  c ← for_ctl (Z.to_nat MAX_QUEUES) 0 slice_pass m;
  match c with
  | Return r => Ok r
  | Next m => Ok (m, None)
  end.

(** Total number of processes and whether there is one. *)
Definition count_processes (m : MLFQ) : res (Z * bool) :=
  for_range (Z.to_nat MAX_QUEUES) 0
    (fun i '(t, b) =>
       q ← (queues m).[i];
       t ← iadd t (count q);
       Ok (t, if count q >? 0 then true else b)) (0, false).

Definition mlfq_round (s : MLFQ * list event) : res (ctl (MLFQ * list event) (MLFQ * list event)) :=
  let '(m, log) := s in
  '(_, processes_remaining) ← count_processes m;
  if processes_remaining : bool then
    '(m, e) ← execute_time_slice m;
    Ok (Next (m, log ++ option_list e))
  else Ok (Return (m, log)).

Definition run_mlfq (fuel : nat) (m : MLFQ) : res (MLFQ * list event) := loop fuel mlfq_round (m, []).

Definition mlfq_main (fuel : nat) : res (list event) :=
  m ← add_process init_mlfq 1 8;
  m ← add_process m 2 4;
  m ← add_process m 3 2;
  '(_, log) ← run_mlfq fuel m;
  Ok log.

(** ** Abstract scheduler: a list of processes per level *)

Definition run_one (p : MLFQProcess) : MLFQProcess :=
  mkProc (pid p) (burst_time p) (remaining_time p - 1) (queue_level p) (quantum_used p + 1).

Definition demote (p : MLFQProcess) : MLFQProcess :=
  mkProc (pid p) (burst_time p) (remaining_time p) (queue_level p + 1) 0.

(** The first process of the first level that has one runs for a unit; it
    leaves when done, moves down when its quantum is used up, and stays first
    otherwise. *)
Fixpoint slice (i : Z) (ls : list (list MLFQProcess)) : option (event * list (list MLFQProcess)) :=
  match ls with
  | [] => None
  | [] :: rest => '(e, r) ← slice (i + 1) rest; Some (e, [] :: r)
  | (p :: l) :: rest =>
      let p' := run_one p in
      let e := (pid p, i, remaining_time p') in
      if remaining_time p' =? 0 then Some (e, l :: rest)
      else if 2 ^ i <=? quantum_used p' then
        match rest with
        | [] => Some (e, [p' :: l])
        | next :: rest' => Some (e, l :: (next ++ [demote p']) :: rest')
        end
      else Some (e, (p' :: l) :: rest)
  end.

(** A queue represents a list. *)
Definition q_rep (q : Queue) (i : Z) (l : list MLFQProcess) : Prop :=
  exists rest, processes q = (Some <$> l) ++ rest /\ len (processes q) = MAX_PROCESSES /\
    count q = len l /\ quantum q = 2 ^ i.

Definition proc_ok (p : MLFQProcess) : Prop :=
  0 < remaining_time p /\ 0 <= quantum_used p /\ 0 <= queue_level p <= 2 /\
  quantum_used p + remaining_time p <= INT_MAX.

Definition mlfq_rep (m : MLFQ) (ls : list (list MLFQProcess)) : Prop :=
  exists q0 q1 q2 l0 l1 l2, queues m = [q0; q1; q2] /\ ls = [l0; l1; l2] /\
    q_rep q0 0 l0 /\ q_rep q1 1 l1 /\ q_rep q2 2 l2 /\
    Forall (fun p => proc_ok p /\ queue_level p = 0) l0 /\ Forall (fun p => proc_ok p /\ queue_level p = 1) l1 /\
    Forall (fun p => proc_ok p /\ queue_level p = 2) l2 /\
    len l0 + len l1 + len l2 <= MAX_PROCESSES.

Lemma q_rep_get q i p l : q_rep q i (p :: l) -> zget (processes q) 0 = Some (Some p).
Proof. intros (rest & -> & _). done. Qed.

Lemma q_rep_set q i p p' l :
  q_rep q i (p :: l) ->
  (processes q).[0 <- Some p'] = Ok (zset (processes q) 0 (Some p')) /\
  q_rep (mkQueue (zset (processes q) 0 (Some p')) (count q) (quantum q)) i (p' :: l).
Proof.
  intros (rest & E & Hl & Hc & Hq). split; [apply arr_write_Ok; unfold MAX_PROCESSES in *; lia|].
  exists rest. cbn [processes count quantum]. rewrite length_zset, E in *. split_and!; done.
Qed.

Lemma push_ok q i l p :
  q_rep q i l -> len l < MAX_PROCESSES -> exists q', push q p = Ok q' /\ q_rep q' i (l ++ [p]).
Proof.
  intros (rest & E & Hl & Hc & Hq) Hroom. unfold push, MAX_PROCESSES in *.
  rewrite arr_write_Ok by lia. rewrite bind_ret_l, iadd_Ok by int_side. rewrite bind_ret_l.
  eexists. split; [done|]. destruct rest as [|x rest]; [rewrite E, app_nil_r, length_fmap in Hl; lia|].
  exists rest. cbn [processes count quantum]. rewrite length_zset, length_app, E, Hc. simpl.
  replace (len l) with (len (Some <$> l)) at 1 by by rewrite length_fmap.
  rewrite zset_middle, fmap_app, <- app_assoc. rewrite E in Hl. split_and!; (done || lia).
Qed.

Lemma remove_first_ok q i p l : q_rep q i (p :: l) -> exists q', remove_first q = Ok q' /\ q_rep q' i l.
Proof.
  intros (rest & E & Hl & Hc & Hq). unfold remove_first, MAX_PROCESSES in *.
  assert (len (p :: l) <= 100) as Hle by (rewrite E, length_app, length_fmap in Hl; lia).
  cbn [length] in *. rewrite (isub_Ok (count q)) by int_side. rewrite bind_ret_l, E. cbn [fmap list_fmap app].
  replace (Z.to_nat (count q - 1)) with (length (Some <$> l)) by (rewrite length_fmap; lia).
  rewrite shift_left_ok, bind_ret_l. eexists. split; [done|].
  eexists. cbn [processes count quantum]. split; [done|]. split; [|split; [lia|done]].
  rewrite E, length_app, length_fmap in Hl. unfold MAX_PROCESSES. rewrite length_app, length_fmap.
  cbn [length] in *. lia.
Qed.

(** Work left for a process number, and in all. *)
Definition work_of (k : Z) (l : list MLFQProcess) : Z :=
  foldr (fun p acc => (if pid p =? k then remaining_time p else 0) + acc) 0 l.
Definition work (l : list MLFQProcess) : Z := foldr (fun p acc => remaining_time p + acc) 0 l.

Definition work_of_all (k : Z) (ls : list (list MLFQProcess)) : Z := foldr (fun l acc => work_of k l + acc) 0 ls.
Definition work_all (ls : list (list MLFQProcess)) : Z := foldr (fun l acc => work l + acc) 0 ls.

Definition ran (k : Z) (e : event) : Z := if e.1.1 =? k then 1 else 0.
Definition units (k : Z) (log : list event) : Z := foldr (fun e acc => ran k e + acc) 0 log.

Lemma work_of_snoc k l p : work_of k (l ++ [p]) = work_of k l + (if pid p =? k then remaining_time p else 0).
Proof. induction l as [|q l IH]; simpl; [lia|]. rewrite IH. lia. Qed.
Lemma work_snoc l p : work (l ++ [p]) = work l + remaining_time p.
Proof. induction l as [|q l IH]; simpl; [lia|]. rewrite IH. lia. Qed.
Lemma units_app k l1 l2 : units k (l1 ++ l2) = units k l1 + units k l2.
Proof. induction l1 as [|e l1 IH]; simpl; [done|]. rewrite IH. lia. Qed.

(** A slice does one unit of the work of the process it reports. *)
Lemma slice_work i ls e ls' :
  slice i ls = Some (e, ls') -> work_all ls = work_all ls' + 1 /\
  forall k, work_of_all k ls = work_of_all k ls' + ran k e.
Proof.
  revert i e ls'. induction ls as [|[|p l] rest IH]; intros i e ls'; [done|..].
  - cbn [slice]. intros ([e1 r] & H & [= <- <-])%bind_Some. destruct (IH _ _ _ H) as [H1 H2]. simpl. split; [lia|].
    intros k. rewrite (H2 k). lia.
  - cbn [slice]. unfold ran. case_cond; [intros [= <- <-]|].
    + simpl in *. split; [lia|]. intros k. case_cond; lia.
    + case_cond; [destruct rest as [|next rest]|]; intros [= <- <-]; simpl.
      * split; [lia|]. intros k. case_cond; lia.
      * rewrite work_snoc. simpl. split; [lia|]. intros k. rewrite work_of_snoc. simpl. case_cond; lia.
      * split; [lia|]. intros k. case_cond; lia.
Qed.

Lemma slice_None i ls : slice i ls = None <-> Forall (fun l => l = []) ls.
Proof.
  revert i. induction ls as [|[|p l] rest IH]; intros i; cbn [slice].
  - by split.
  - split.
    + intros H%bind_None. constructor; [done|]. apply (IH (i + 1)). destruct H as [?|([e r] & _ & ?)]; done.
    + intros [_ H]%Forall_cons_iff. by rewrite (proj2 (IH (i + 1)) H).
  - split; [|by intros [? _]%Forall_cons_iff]. case_cond; [done|]. case_cond; [by destruct rest|done].
Qed.

Section level.
Context (m : MLFQ) (i : Z) (q : Queue) (p : MLFQProcess) (l : list MLFQProcess).
Hypothesis Hi : 0 <= i < 3.
Hypothesis Hlen : length (queues m) = 3%nat.
Hypothesis Hrep : q_rep q i (p :: l).
Hypothesis Hp : proc_ok p.
Hypothesis Hlvl : queue_level p = i.

Abbreviation p' := (run_one p).
Abbreviation e := (pid p, i, remaining_time p - 1).

(** [run_level] after its first statements. *)
Lemma run_level_start :
  exists q1, q_rep q1 i (p' :: l) /\
    run_level i m q =
    if remaining_time p - 1 =? 0 then
      q ← remove_first q1; qs ← (queues m).[i <- q]; Ok (mkMLFQ qs (current_queue m), Some e)
    else if quantum_used p + 1 >=? 2 ^ i then
      if i <? MAX_QUEUES - 1 then
        lvl ← iadd i 1;
        next ← (queues m).[i + 1];
        next ← push next (mkProc (pid p) (burst_time p) (remaining_time p - 1) lvl 0);
        q ← remove_first q1;
        qs ← (queues m).[i + 1 <- next];
        qs ← qs.[i <- q];
        Ok (mkMLFQ qs (current_queue m), Some e)
      else qs ← (queues m).[i <- q1]; Ok (mkMLFQ qs (current_queue m), Some e)
    else qs ← (queues m).[i <- q1]; Ok (mkMLFQ qs (current_queue m), Some e).
Proof.
  destruct Hp as (? & ? & ? & ?). unfold run_level, first_process. rewrite (arr_read_Ok _ _ _ (q_rep_get _ _ _ _ Hrep)).
  rewrite !bind_ret_l. rewrite (isub_Ok (remaining_time p)) by int_side. rewrite bind_ret_l.
  rewrite (iadd_Ok (quantum_used p)) by int_side. rewrite bind_ret_l. cbn [pid burst_time queue_level].
  destruct (q_rep_set q i p p' l Hrep) as [Hset Hrep']. unfold run_one in Hset. rewrite Hset, bind_ret_l.
  eexists. split; [exact Hrep'|]. pose proof Hrep' as (rest & _ & _ & _ & Hq). cbn [quantum] in *.
  unfold run_one. by rewrite Hq, Hlvl.
Qed.

(** The process is done, or stays. *)
Lemma run_level_here l' :
  l' = (if remaining_time p' =? 0 then l else p' :: l) ->
  (remaining_time p' =? 0) || negb (2 ^ i <=? quantum_used p') || (i =? 2) = true ->
  exists q1, q_rep q1 i l' /\
    run_level i m q = Ok (mkMLFQ (zset (queues m) i q1) (current_queue m), Some e).
Proof.
  intros -> Hcase. destruct run_level_start as (q1 & Hq1 & ->). cbn [remaining_time run_one quantum_used] in *.
  destruct (remaining_time p - 1 =? 0).
  - destruct (remove_first_ok _ _ _ _ Hq1) as (q2 & -> & Hq2). rewrite bind_ret_l, arr_write_Ok by lia.
    by exists q2.
  - cbn [orb] in Hcase. rewrite Z.geb_leb. destruct (2 ^ i <=? quantum_used p + 1).
    + simpl in Hcase. destruct (Z.ltb_spec i (MAX_QUEUES - 1)); [unfold MAX_QUEUES in *; zbool; lia|].
      rewrite arr_write_Ok by lia. by exists q1.
    + rewrite arr_write_Ok by lia. by exists q1.
Qed.

(** The process moves down. *)
Lemma run_level_down nq ln :
  (remaining_time p' =? 0) = false -> (2 ^ i <=? quantum_used p') = true -> i < 2 ->
  zget (queues m) (i + 1) = Some nq -> q_rep nq (i + 1) ln -> len ln < MAX_PROCESSES ->
  exists q1 n1, q_rep q1 i l /\ q_rep n1 (i + 1) (ln ++ [demote p']) /\
    run_level i m q = Ok (mkMLFQ (zset (zset (queues m) (i + 1) n1) i q1) (current_queue m), Some e).
Proof.
  intros Hr Hu Hi2 En Hn Hroom. destruct run_level_start as (q1 & Hq1 & ->).
  cbn [remaining_time run_one quantum_used] in *. rewrite Hr, Z.geb_leb, Hu.
  destruct (Z.ltb_spec i (MAX_QUEUES - 1)); [|unfold MAX_QUEUES in *; lia].
  rewrite iadd_Ok by int_side. rewrite bind_ret_l, (arr_read_Ok _ _ _ En), bind_ret_l.
  destruct (push_ok nq (i + 1) ln (demote p') Hn Hroom) as (n1 & Hpush & Hn1).
  unfold demote, run_one in Hpush. cbn [pid burst_time remaining_time queue_level] in Hpush. rewrite Hlvl in Hpush.
  rewrite Hpush, bind_ret_l. destruct (remove_first_ok _ _ _ _ Hq1) as (q2 & -> & Hq2).
  rewrite bind_ret_l, arr_write_Ok by lia. rewrite bind_ret_l, arr_write_Ok by (rewrite length_zset; lia).
  by exists q2, n1.
Qed.
End level.

Lemma run_one_ok p i :
  proc_ok p -> queue_level p = i -> (remaining_time (run_one p) =? 0) = false ->
  proc_ok (run_one p) /\ queue_level (run_one p) = i /\
  (i < 2 -> proc_ok (demote (run_one p)) /\ queue_level (demote (run_one p)) = i + 1).
Proof.
  unfold proc_ok. simpl. intros (? & ? & ? & ?) <- Hr. zbool. lia.
Qed.

(** The queues after a level ran in place, and after a process moved down. *)
Lemma level_rep m i q p l :
  0 <= i < 3 -> length (queues m) = 3%nat -> q_rep q i (p :: l) -> proc_ok p -> queue_level p = i ->
  forall rest, (rest = [] <-> i = 2) ->
  (forall nq, zget (queues m) (i + 1) = Some nq -> exists ln, head rest = Some ln /\ q_rep nq (i + 1) ln /\ len ln < MAX_PROCESSES) ->
  exists e ls' qs, slice i ((p :: l) :: rest) = Some (e, ls') /\
    run_level i m q = Ok (mkMLFQ qs (current_queue m), Some e) /\
    ((exists l' q', ls' = l' :: rest /\ q_rep q' i l' /\ qs = zset (queues m) i q' /\
        (l' = l \/ l' = run_one p :: l /\ proc_ok (run_one p) /\ queue_level (run_one p) = i)) \/
     (exists ln rest' q' n', i < 2 /\ rest = ln :: rest' /\ ls' = l :: (ln ++ [demote (run_one p)]) :: rest' /\
        q_rep q' i l /\ q_rep n' (i + 1) (ln ++ [demote (run_one p)]) /\
        qs = zset (zset (queues m) (i + 1) n') i q' /\
        proc_ok (demote (run_one p)) /\ queue_level (demote (run_one p)) = i + 1)).
Proof.
  intros Hi Hlen Hrep Hp Hlvl rest Hrest Hnext. cbn [slice].
  destruct (remaining_time (run_one p) =? 0) eqn:Hr.
  { destruct (run_level_here m i q p l Hi Hlen Hrep Hp Hlvl l) as (q1 & Hq1 & ->); [by rewrite Hr|by rewrite Hr|].
    do 3 eexists. split; [done|]. split; [done|]. left. exists l, q1. auto. }
  destruct (run_one_ok p i Hp Hlvl Hr) as (Hok & Hl1 & Hdem).
  destruct (2 ^ i <=? quantum_used (run_one p)) eqn:Hu.
  2: { destruct (run_level_here m i q p l Hi Hlen Hrep Hp Hlvl (run_one p :: l)) as (q1 & Hq1 & ->);
         [by rewrite Hr|by rewrite Hu, orb_true_r|].
       do 3 eexists. split; [done|]. split; [done|]. left. exists (run_one p :: l), q1. auto 10. }
  destruct (decide (i = 2)) as [->|Hi2].
  - destruct (run_level_here m 2 q p l Hi Hlen Hrep Hp Hlvl (run_one p :: l)) as (q1 & Hq1 & ->);
      [by rewrite Hr|by rewrite orb_true_r|].
    rewrite (proj2 Hrest eq_refl).
    do 3 eexists. split; [done|]. split; [done|]. left. exists (run_one p :: l), q1. auto 10.
  - destruct rest as [|ln rest]; [by destruct Hi2; apply Hrest|].
    destruct (zget_range (queues m) (i + 1)) as [nq En]; [lia|]. destruct (Hnext nq En) as (ln' & [= <-] & Hn & Hroom).
    destruct (run_level_down m i q p l Hi Hlen Hrep Hp Hlvl nq ln) as (q1 & n1 & Hq1 & Hn1 & ->); try done; [lia|].
    destruct Hdem as [Hd1 Hd2]; [lia|].
    do 3 eexists. split; [done|]. split; [done|]. right. exists ln, rest, q1, n1. split_and!; (done || lia).
Qed.

(** A slice of the code is a slice of the abstract scheduler. *)
Lemma execute_time_slice_ok m ls :
  mlfq_rep m ls ->
  match slice 0 ls with
  | Some (e, ls') => exists m', execute_time_slice m = Ok (m', Some e) /\ mlfq_rep m' ls'
  | None => execute_time_slice m = Ok (m, None)
  end.
Proof.
  intros (q0 & q1 & q2 & l0 & l1 & l2 & Eq & -> & R0 & R1 & R2 & F0 & F1 & F2 & Hroom).
  assert (length (queues m) = 3%nat) as Hlen by by rewrite Eq.
  assert (forall i q l, q_rep q i l -> (count q >? 0) = match l with [] => false | _ => true end) as Hcount.
  { intros i q [|x l] (? & _ & _ & -> & _); done. }
  unfold execute_time_slice. change (Z.to_nat MAX_QUEUES) with 3%nat. cbn [for_ctl]. unfold slice_pass. rewrite Eq.
  change ([q0; q1; q2].[0]) with (Ok q0). change ([q0; q1; q2].[0 + 1]) with (Ok q1).
  change ([q0; q1; q2].[0 + 1 + 1]) with (Ok q2). rewrite bind_ret_l.
  rewrite (Hcount _ _ _ R0). destruct l0 as [|p l0].
  2: { apply Forall_cons_iff in F0 as [[Hp Hl] F0]. cbn [length] in Hroom.
       destruct (level_rep m 0 q0 p l0 ltac:(lia) Hlen R0 Hp Hl [l1; l2]) as (e & ls' & qs & -> & -> & Hcases); [done|..].
       { intros nq. rewrite Eq. intros [= <-]. exists l1. split_and!; (done || lia). }
       cbn [mbind res_bind]. eexists. split; [done|]. destruct Hcases as
         [(l' & q' & -> & Hq' & -> & Hl')|(ln & rest & q' & n' & _ & [= <- <-] & -> & Hq' & Hn' & -> & Hd)]; rewrite Eq.
       - do 6 eexists. split; [done|]. split; [done|]. destruct Hl' as [->|(-> & ? & ?)]; split_and!; (done || simpl; lia || by constructor).
       - do 6 eexists. split; [done|]. split; [done|]. split_and!; try done.
         + apply Forall_app. split; [done|]. by constructor.
         + rewrite length_app. simpl. lia. }
  cbn [mbind res_bind]. rewrite Eq. change ([q0; q1; q2].[0 + 1]) with (Ok q1). rewrite bind_ret_l.
  rewrite (Hcount _ _ _ R1). cbn [slice]. change (0 + 1) with 1. change (1 + 1) with 2. destruct l1 as [|p l1].
  2: { apply Forall_cons_iff in F1 as [[Hp Hl] F1]. cbn [length] in Hroom.
       destruct (level_rep m 1 q1 p l1 ltac:(lia) Hlen R1 Hp Hl [l2]) as (e & ls' & qs & Hsl & -> & Hcases); [done|..].
       { intros nq. rewrite Eq. intros [= <-]. exists l2. split_and!; (done || lia). }
       cbn [slice] in Hsl. change (1 + 1) with 2 in Hsl. rewrite Hsl.
       cbn [mbind res_bind option_bind]. eexists. split; [done|]. destruct Hcases as
         [(l' & q' & -> & Hq' & -> & Hl')|(ln & rest & q' & n' & _ & [= <- <-] & -> & Hq' & Hn' & -> & Hd)]; rewrite Eq.
       - do 6 eexists. split; [done|]. split; [done|]. destruct Hl' as [->|(-> & ? & ?)]; split_and!; (done || simpl; lia || by constructor).
       - do 6 eexists. split; [done|]. split; [done|]. split_and!; try done.
         + apply Forall_app. split; [done|]. by constructor.
         + rewrite length_app. simpl. lia. }
  cbn [mbind res_bind]. rewrite Eq. change ([q0; q1; q2].[2]) with (Ok q2). rewrite bind_ret_l.
  rewrite (Hcount _ _ _ R2). destruct l2 as [|p l2]; [done|].
  apply Forall_cons_iff in F2 as [[Hp Hl] F2]. cbn [length] in Hroom.
  destruct (level_rep m 2 q2 p l2 ltac:(lia) Hlen R2 Hp Hl []) as (e & ls' & qs & Hsl & -> & Hcases); [done|..].
  { intros nq. by rewrite Eq. }
  cbn [slice] in Hsl. rewrite Hsl.
  cbn [mbind res_bind option_bind]. eexists. split; [done|].
  destruct Hcases as [(l' & q' & -> & Hq' & -> & Hl')|(ln & rest & q' & n' & ? & _)]; [|lia]. rewrite Eq.
  do 6 eexists. split; [done|]. split; [done|]. destruct Hl' as [->|(-> & ? & ?)]; split_and!; (done || simpl; lia || by constructor).
Qed.

Inductive slices : list (list MLFQProcess) -> list event -> list (list MLFQProcess) -> Prop :=
| slices_nil ls : slices ls [] ls
| slices_cons ls e ls1 log ls2 : slice 0 ls = Some (e, ls1) -> slices ls1 log ls2 -> slices ls (e :: log) ls2.

Lemma slices_work ls log ls' : slices ls log ls' -> forall k, work_of_all k ls = units k log + work_of_all k ls'.
Proof.
  induction 1 as [|ls e ls1 log ls2 Hs _ IH]; intros k; [done|].
  destruct (slice_work _ _ _ _ Hs) as [_ H]. rewrite (H k), (IH k). simpl. lia.
Qed.

Lemma count_processes_ok m ls :
  mlfq_rep m ls -> exists t, count_processes m = Ok (t, match slice 0 ls with Some _ => true | None => false end).
Proof.
  intros (q0 & q1 & q2 & l0 & l1 & l2 & Eq & -> & (? & _ & _ & C0 & _) & (? & _ & _ & C1 & _) & (? & _ & _ & C2 & _)
    & _ & _ & _ & Hroom). unfold count_processes. change (Z.to_nat MAX_QUEUES) with 3%nat. cbn [for_range]. rewrite Eq.
  change ([q0; q1; q2].[0]) with (Ok q0). change ([q0; q1; q2].[0 + 1]) with (Ok q1).
  change ([q0; q1; q2].[0 + 1 + 1]) with (Ok q2). rewrite !bind_ret_l. unfold MAX_PROCESSES in *.
  rewrite (iadd_Ok 0) by int_side. rewrite !bind_ret_l. rewrite (iadd_Ok (0 + count q0)) by int_side. rewrite !bind_ret_l.
  rewrite iadd_Ok by int_side. rewrite bind_ret_l. eexists. do 2 f_equal. rewrite C0, C1, C2.
  pose proof (slice_None 0 [l0; l1; l2]) as HN.
  assert (forall (l : list MLFQProcess) b, (if len l >? 0 then true else b) = match l with [] => b | _ => true end) as Hb.
  { intros [|y l] b; done. }
  rewrite !Hb. destruct (slice 0 [l0; l1; l2]) as [r|].
  - destruct l0, l1, l2; try done. by discriminate (proj2 HN ltac:(repeat constructor)).
  - pose proof (proj1 HN eq_refl) as H. repeat (apply Forall_cons_iff in H as [? H]). by subst.
Qed.

Lemma work_all_pos m ls : mlfq_rep m ls -> 0 <= work_all ls.
Proof.
  intros (q0 & q1 & q2 & l0 & l1 & l2 & _ & -> & _ & _ & _ & F0 & F1 & F2 & _). simpl.
  assert (forall l j, Forall (fun p => proc_ok p /\ queue_level p = j) l -> 0 <= work l) as H.
  { intros l j. induction 1 as [|p l [(? & _) _] _ IH]; simpl; lia. }
  pose proof (H _ _ F0). pose proof (H _ _ F1). pose proof (H _ _ F2). lia.
Qed.

Lemma run_ok fuel : forall m ls log,
  mlfq_rep m ls -> work_all ls < Z.of_nat fuel ->
  exists m' log', loop fuel mlfq_round (m, log) = Ok (m', log ++ log') /\
    slices ls log' [[]; []; []] /\ mlfq_rep m' [[]; []; []].
Proof.
  induction fuel as [|fuel IH]; intros m ls log Hrep Hf; [pose proof (work_all_pos m ls Hrep); lia|].
  rewrite loop_S. unfold mlfq_round at 2. destruct (count_processes_ok m ls Hrep) as (t & ->). rewrite bind_ret_l.
  pose proof (execute_time_slice_ok m ls Hrep) as He. destruct (slice 0 ls) as [[e ls1]|] eqn:Hs.
  - destruct He as (m1 & -> & Hrep1). cbn [mbind res_bind]. change (option_list (Some e)) with [e].
    destruct (slice_work _ _ _ _ Hs) as [Hw _].
    destruct (IH m1 ls1 (log ++ [e]) Hrep1) as (m' & log' & -> & Hsl & Hm'); [lia|].
    exists m', (e :: log'). rewrite <- app_assoc. split; [done|]. split; [|done]. by eapply slices_cons.
  - cbn [mbind res_bind]. exists m, []. rewrite app_nil_r.
    pose proof Hrep as (q0 & q1 & q2 & l0 & l1 & l2 & _ & -> & _). apply slice_None in Hs.
    apply Forall_cons_iff in Hs as [-> Hs]. apply Forall_cons_iff in Hs as [-> Hs].
    apply Forall_cons_iff in Hs as [-> _]. split; [done|]. split; [constructor|done].
Qed.

(** C9.  The multi-level feedback queue ends and is complete: from queues
    that represent the lists [ls], enough fuel (more than the work left) gives
    a run whose log is a run of the abstract scheduler from [ls] to empty
    levels, and every process number gets exactly the time it needs. *)
Theorem mlfq_completes m ls fuel :
  mlfq_rep m ls -> work_all ls < Z.of_nat fuel ->
  exists m' log, run_mlfq fuel m = Ok (m', log) /\ slices ls log [[]; []; []] /\ mlfq_rep m' [[]; []; []] /\
    forall k, units k log = work_of_all k ls.
Proof.
  intros Hrep Hf. destruct (run_ok fuel m ls [] Hrep Hf) as (m' & log & H & Hs & Hm). exists m', log.
  split; [done|]. split; [done|]. split; [done|]. intros k. rewrite (slices_work _ _ _ Hs k). simpl. lia.
Qed.

(** Adding a process puts it at the end of the top level. *)
Lemma add_process_ok m l0 l1 l2 k b :
  mlfq_rep m [l0; l1; l2] -> len l0 + len l1 + len l2 < MAX_PROCESSES -> 0 < b <= INT_MAX ->
  exists m', add_process m k b = Ok m' /\ mlfq_rep m' [l0 ++ [mkProc k b b 0 0]; l1; l2].
Proof.
  intros (q0 & q1 & q2 & ? & ? & ? & Eq & [= <- <- <-] & R0 & R1 & R2 & F0 & F1 & F2 & _) Hroom Hb.
  unfold add_process. rewrite Eq. change ([q0; q1; q2].[0]) with (Ok q0). rewrite bind_ret_l.
  destruct (push_ok q0 0 l0 (mkProc k b b 0 0) R0) as (q0' & -> & R0'); [lia|]. rewrite bind_ret_l.
  change ([q0; q1; q2].[0 <- q0']) with (Ok [q0'; q1; q2]). rewrite bind_ret_l. eexists. split; [done|].
  do 6 eexists. split; [done|]. split; [done|]. split_and!; try done.
  - apply Forall_app. split; [done|]. repeat constructor; unfold proc_ok; simpl; lia.
  - rewrite length_app. simpl. lia.
Qed.

Lemma init_mlfq_rep : mlfq_rep init_mlfq [[]; []; []].
Proof.
  do 6 eexists. split; [done|]. split; [done|].
  assert (forall i, q_rep (mkQueue (replicate (Z.to_nat MAX_PROCESSES) None) 0 (2 ^ i)) i []) as H.
  { intros i. by exists (replicate (Z.to_nat MAX_PROCESSES) None). }
  split; [apply (H 0)|]. split; [apply (H 1)|]. split; [apply (H 2)|]. split_and!; try constructor. done.
Qed.

(** The processes of [main]. *)
Definition demo_lists : list (list MLFQProcess) :=
  [[mkProc 1 8 8 0 0; mkProc 2 4 4 0 0; mkProc 3 2 2 0 0]; []; []].

Definition demo_mlfq : MLFQ :=
  match (m ← add_process init_mlfq 1 8; m ← add_process m 2 4; add_process m 3 2) with
  | Ok m => m
  | Fault _ => init_mlfq
  end.

Lemma demo_rep : mlfq_rep demo_mlfq demo_lists.
Proof.
  unfold demo_mlfq. destruct (add_process_ok init_mlfq [] [] [] 1 8 init_mlfq_rep) as (m1 & -> & R1); [done..|].
  rewrite bind_ret_l. destruct (add_process_ok m1 _ _ _ 2 4 R1) as (m2 & -> & R2); [done..|].
  rewrite bind_ret_l. destruct (add_process_ok m2 _ _ _ 3 2 R2) as (m3 & -> & R3); done.
Qed.

Lemma mlfq_completes_witness :
  exists m' log, run_mlfq 15 demo_mlfq = Ok (m', log) /\ slices demo_lists log [[]; []; []] /\
    mlfq_rep m' [[]; []; []] /\ forall k, units k log = work_of_all k demo_lists.
Proof. apply (mlfq_completes demo_mlfq demo_lists 15); [apply demo_rep|reflexivity]. Defined.
