(* ===== verification/VirtualMem.v ===== *)
(** * Virtual memory ([memory/virtual_mem/])

    [Tlb] is the translation buffer of [TLB.c], [PageFlush] the
    multi-process MMU of [pageFlush.c] with demand allocation of frames, and
    [PageTable] the page table with demand loading from disk of
    [pageTable.c]. *)
From Stdlib Require Import ZArith Lia.
From stdpp Require Import base tactics list numbers option.
From S2P Require Import Prelude.

#[local] Open Scope Z_scope.
#[local] Open Scope c_scope.

(** [TLB.c] *)
Module Tlb.

Definition TLB_SIZE : Z := 8.
Definition PAGE_SIZE : Z := 4096.

Record TLBEntry : Type := mkEntry { virtual_page : Z; physical_frame : Z; valid : bool }.

Definition initTLB (tlb : list TLBEntry) : list TLBEntry :=
  (fun e => mkEntry (virtual_page e) (physical_frame e) false) <$> tlb.

Definition TLBHit (tlb : list TLBEntry) (page : Z) : res bool :=
  c ← for_ctl (Z.to_nat TLB_SIZE) 0
        (fun i (_ : unit) =>
           e ← tlb.[i];
           Ok (if valid e && (virtual_page e =? page) then Return true else Next tt)) tt;
  Ok (match c with Return b => b | Next _ => false end).

(** [draw] is the value of [rand()]. *)
Definition updateTLB (draw : Z) (tlb : list TLBEntry) (page frame : Z) : res (list TLBEntry) :=
  tlb.[Z.rem draw TLB_SIZE <- mkEntry page frame true].

Definition translateAddress (draw : Z) (tlb : list TLBEntry) (virtual_address : Z)
    : res (Z * list TLBEntry) :=
  page ← idiv virtual_address PAGE_SIZE;
  offset ← imod virtual_address PAGE_SIZE;
  hit ← TLBHit tlb page;
  if hit : bool then
    a ← imul page PAGE_SIZE;
    pa ← iadd a offset;
    Ok (pa, tlb)
  else
    tlb ← updateTLB draw tlb page page;
    a ← imul page PAGE_SIZE;
    pa ← iadd a offset;
    Ok (pa, tlb).

Fixpoint translate_all (draws : list Z) (tlb : list TLBEntry) (l : list Z) : res (list Z) :=
  match l, draws with
  | a :: l', d :: draws' =>
      '(pa, tlb) ← translateAddress d tlb a;
      pas ← translate_all draws' tlb l';
      Ok (pa :: pas)
  | _, _ => Ok []
  end.

(** One draw per address is enough. *)
Definition tlb_main (draws : list Z) : res (list Z) :=
  translate_all draws (initTLB (replicate 8 (mkEntry 0 0 false)))
    [1000; 2000; 3000; 4000; 1000; 2000; 5000; 6000].

Lemma TLBHit_ok tlb page : len tlb = TLB_SIZE -> exists b, TLBHit tlb page = Ok b.
Proof.
  intros Hl. unfold TLBHit.
  edestruct (for_ctl_inv (fun _ (_ : unit) => True) (fun _ : bool => True) (Z.to_nat TLB_SIZE) 0) as (c & -> & _); [done| |by eexists].
  intros j [] Hj _. destruct (zget_range tlb j) as [e E]; [unfold TLB_SIZE in *; lia|].
  rewrite (arr_read_Ok _ _ _ E), bind_ret_l. eexists. split; [done|]. by destruct (valid e && _).
Qed.

(** Hit or miss, every address of the address space translates to itself. *)
Lemma translateAddress_identity draw tlb a :
  len tlb = TLB_SIZE -> 0 <= draw -> 0 <= a <= INT_MAX ->
  exists tlb', translateAddress draw tlb a = Ok (a, tlb') /\ len tlb' = TLB_SIZE.
Proof.
  intros Hl Hd Ha. unfold translateAddress, PAGE_SIZE.
  rewrite idiv_Ok by lia. rewrite bind_ret_l, imod_Ok by lia. rewrite bind_ret_l.
  destruct (TLBHit_ok tlb (a / 4096) Hl) as (b & ->). rewrite bind_ret_l.
  assert (0 <= a / 4096 * 4096 <= a) as Hq by dlia. destruct b.
  - rewrite imul_Ok by int_side. rewrite bind_ret_l, iadd_Ok by (unfold INT_MIN, INT_MAX in *; dlia).
    exists tlb. split; [|done]. cbn. do 2 f_equal. dlia.
  - unfold updateTLB. rewrite Z.rem_mod_nonneg by (done || unfold TLB_SIZE; lia).
    pose proof (Z.mod_pos_bound draw TLB_SIZE ltac:(done)). rewrite arr_write_Ok by lia. rewrite bind_ret_l.
    rewrite imul_Ok by int_side. rewrite bind_ret_l, iadd_Ok by (unfold INT_MIN, INT_MAX in *; dlia).
    eexists. split; [|by rewrite length_zset]. cbn. do 2 f_equal. dlia.
Qed.
End Tlb.

(** [pageFlush.c] *)
Module PageFlush.

Definition PAGE_SIZE : Z := 4096.
Definition PTE_PRESENT : Z := 1.
Definition PTE_WRITABLE : Z := 2.
Definition PTE_USER : Z := 4.
Definition MAX_PROCESSES : Z := 256.
Definition TLB_SIZE : Z := 64.

Record page : Type := mkPage { page_pfn : Z; pin_count : Z }.
Record tlb_entry : Type := mkEntry { vpn : Z; pfn : Z; asid : Z; valid : bool }.

(** [None] is a page table that was never set. *)
Record process : Type := mkProcess { page_table : option (list Z); proc_asid : Z }.

Record mmu : Type := mkMMU { tlb : list tlb_entry; current_asid : Z }.

Record system : Type := mkSystem {
  memory : list page;
  memory_size : Z;
  processes : list process;
  sys_mmu : mmu;
  next_asid : Z
}.

(** [procs] and [current] are the uninitialised parts; [alloc] says whether
    [calloc] succeeds. *)
Definition init_system (alloc : bool) (procs : list process) (current size : Z) : res system :=
  if alloc then
    Ok (mkSystem (replicate (Z.to_nat (size / PAGE_SIZE)) (mkPage 0 0)) size procs
          (mkMMU (replicate (Z.to_nat TLB_SIZE) (mkEntry 0 0 0 false)) current) 1)
  else Fault (Exit 1).

Definition NO_PAGE : Z := UINT64 - 1.

Definition set_memory (sys : system) (l : list page) : system :=
  mkSystem l (memory_size sys) (processes sys) (sys_mmu sys) (next_asid sys).
Definition set_tlb (sys : system) (l : list tlb_entry) : system :=
  mkSystem (memory sys) (memory_size sys) (processes sys) (mkMMU l (current_asid (sys_mmu sys))) (next_asid sys).
Definition set_processes (sys : system) (l : list process) : system :=
  mkSystem (memory sys) (memory_size sys) l (sys_mmu sys) (next_asid sys).

(** The first of the [memory_size / PAGE_SIZE] pages that is not pinned is taken. *)
Definition allocate_page (sys : system) : res (Z * system) :=
  r ← for_ctl (Z.to_nat (memory_size sys / PAGE_SIZE)) 0 (fun i (_ : unit) =>
        p ← (memory sys).[i];
        if pin_count p =? 0 then
          r ← (l ← (memory sys).[i <- mkPage (page_pfn p) 1]; Ok (i, set_memory sys l));
          Ok (Return r)
        else Ok (Next tt)) tt;
  Ok match r with Return r => r | Next _ => (NO_PAGE, sys) end.

Definition pin_page (sys : system) (f : Z) : res system :=
  p ← (memory sys).[f];
  n ← iadd (pin_count p) 1;
  l ← (memory sys).[f <- mkPage (page_pfn p) n];
  Ok (set_memory sys l).

Definition unpin_page (sys : system) (f : Z) : res system :=
  p ← (memory sys).[f];
  if pin_count p >? 0 then
    n ← isub (pin_count p) 1;
    l ← (memory sys).[f <- mkPage (page_pfn p) n];
    Ok (set_memory sys l)
  else Ok sys.

Definition invalidate (e : tlb_entry) : tlb_entry := mkEntry (vpn e) (pfn e) (asid e) false.

Definition flush_tlb_entry (m : mmu) (v a : Z) : res mmu :=
  match find_index (fun e => (vpn e =? v) && (asid e =? a)) (tlb m) with
  | Some i => e ← (tlb m).[i]; l ← (tlb m).[i <- invalidate e]; Ok (mkMMU l (current_asid m))
  | None => Ok m
  end.

Definition flush_tlb (m : mmu) : mmu := mkMMU (invalidate <$> tlb m) (current_asid m).

(** The page table of an address space; a null pointer faults. *)
Definition table_of (sys : system) (a : Z) : res (process * list Z) :=
  p ← (processes sys).[a];
  match page_table p with Some pt => Ok (p, pt) | None => Fault NullDeref end.

(** Put a translation into the first invalid entry, if there is one. *)
Definition fill_tlb (sys : system) (v f a : Z) : res system :=
  match find_index (fun e => negb (valid e)) (tlb (sys_mmu sys)) with
  | Some i => l ← (tlb (sys_mmu sys)).[i <- mkEntry v f a true]; Ok (set_tlb sys l)
  | None => Ok sys
  end.

Definition physical (f offset : Z) : Z := Z.lor (u64 (f * PAGE_SIZE)) offset.

Definition translate_address (sys : system) (vaddr a : Z) : res (Z * system) :=
  let v := vaddr / PAGE_SIZE in
  let offset := vaddr mod PAGE_SIZE in
  match find_index (fun e => valid e && (vpn e =? v) && (asid e =? a)) (tlb (sys_mmu sys)) with
  | Some i => e ← (tlb (sys_mmu sys)).[i]; Ok (physical (pfn e) offset, sys)
  | None =>
      '(p, pt) ← table_of sys a;
      pte ← pt.[v];
      if Z.land pte PTE_PRESENT =? 0 then
        '(new_pfn, sys) ← allocate_page sys;
        if new_pfn =? NO_PAGE then Ok (NO_PAGE, sys)
        else
          let pte := Z.lor (Z.lor (Z.lor (u64 (Z.shiftl new_pfn 12)) PTE_PRESENT) PTE_WRITABLE) PTE_USER in
          pt ← pt.[v <- pte];
          ps ← (processes sys).[a <- mkProcess (Some pt) (proc_asid p)];
          let sys := set_processes sys ps in
          sys ← fill_tlb sys v (Z.shiftr pte 12) a;
          Ok (physical (Z.shiftr pte 12) offset, sys)
      else
        sys ← fill_tlb sys v (Z.shiftr pte 12) a;
        Ok (physical (Z.shiftr pte 12) offset, sys)
  end.

Definition switch_process (sys : system) (id : Z) : res system :=
  p ← (processes sys).[id];
  sys ←
    (if proc_asid p =? 0 then
       ps ← (processes sys).[id <- mkProcess (page_table p) (next_asid sys)];
       let n := u8 (next_asid sys + 1) in
       Ok (if n =? 0 then mkSystem (memory sys) (memory_size sys) ps (flush_tlb (sys_mmu sys)) 1
           else mkSystem (memory sys) (memory_size sys) ps (sys_mmu sys) n)
     else Ok sys);
  p ← (processes sys).[id];
  Ok (mkSystem (memory sys) (memory_size sys) (processes sys)
        (mkMMU (tlb (sys_mmu sys)) (proc_asid p)) (next_asid sys)).

(** [main] with the uninitialised parts of [sys] as arguments. *)
Definition flush_main (alloc : bool) (procs : list process) (current : Z) : res Z :=
  sys ← init_system alloc procs current (1024 * 1024 * 1024);
  sys ← switch_process sys 1;
  '(pa, _) ← translate_address sys 0x1000 (current_asid (sys_mmu sys));
  Ok pa.

(** ** Frames *)

(** The frame that an address space maps a page to. *)
Definition frame_of (sys : system) (a v : Z) : option Z :=
  p ← zget (processes sys) a;
  pt ← page_table p;
  e ← zget pt v;
  if Z.land e PTE_PRESENT =? 0 then None else Some (Z.shiftr e 12).

(** The array has the pages that [memory_size] says, mapped frames are pinned pages of
    it, no frame is mapped twice, and valid TLB entries agree with the page tables. *)
Record sys_ok (sys : system) : Prop := {
  s_size : len (memory sys) = memory_size sys / PAGE_SIZE;
  s_frames : len (memory sys) < 2 ^ 52;
  s_pinned : forall a v f, frame_of sys a v = Some f ->
    exists p, zget (memory sys) f = Some p /\ 0 < pin_count p;
  s_exclusive : forall a v a' v' f, frame_of sys a v = Some f -> frame_of sys a' v' = Some f -> a = a' /\ v = v';
  s_tlb : Forall (fun e => valid e = true -> frame_of sys (asid e) (vpn e) = Some (pfn e)) (tlb (sys_mmu sys))
}.

(** What is mapped stays mapped. *)
Definition extends (sys sys' : system) : Prop :=
  forall a v f, frame_of sys a v = Some f -> frame_of sys' a v = Some f.

(** The scan stays inside the array of pages. *)
Lemma allocate_page_first sys : len (memory sys) = memory_size sys / PAGE_SIZE ->
  allocate_page sys =
    match find_index (fun p => pin_count p =? 0) (memory sys) with
    | Some i => p ← (memory sys).[i]; l ← (memory sys).[i <- mkPage (page_pfn p) 1]; Ok (i, set_memory sys l)
    | None => Ok (NO_PAGE, sys)
    end.
Proof.
  intros Hs. unfold allocate_page. replace (Z.to_nat (memory_size sys / PAGE_SIZE)) with (length (memory sys)) by lia.
  rewrite (for_ctl_find (fun p => pin_count p =? 0) (fun i p => l ← (memory sys).[i <- mkPage (page_pfn p) 1]; Ok (i, set_memory sys l))).
  destruct (find_index _ _) as [i|]; [|done]. destruct (arr_read (memory sys) i) as [p|]; [|done]. rewrite !bind_ret_l. by destruct (arr_write (memory sys) i _).
Qed.

Lemma physical_eq f vaddr :
  0 <= f < 2 ^ 52 -> physical f (vaddr mod PAGE_SIZE) = f * PAGE_SIZE + vaddr mod PAGE_SIZE.
Proof.
  intros Hf. unfold physical. rewrite u64_id by (unfold PAGE_SIZE, UINT64; lia).
  change (f * PAGE_SIZE) with (f * 2 ^ 12). rewrite <- Z.shiftl_mul_pow2 by done.
  rewrite lor_shifted; [by rewrite Z.shiftl_mul_pow2|done|]. by apply Z.mod_pos_bound.
Qed.

(** A fresh page table entry. *)
Lemma new_pte f :
  0 <= f < 2 ^ 52 ->
  let e := Z.lor (Z.lor (Z.lor (u64 (Z.shiftl f 12)) PTE_PRESENT) PTE_WRITABLE) PTE_USER in
  (Z.land e PTE_PRESENT =? 0) = false /\ Z.shiftr e 12 = f.
Proof.
  intros Hf e. assert (e = f * 2 ^ 12 + 7) as Ee.
  { unfold e. rewrite u64_id by (rewrite Z.shiftl_mul_pow2 by done; unfold UINT64; lia).
    rewrite <- !Z.lor_assoc. change (Z.lor PTE_PRESENT (Z.lor PTE_WRITABLE PTE_USER)) with 7. by apply lor_shifted. }
  rewrite Ee. clear e Ee. split.
  - change PTE_PRESENT with (Z.ones 1). rewrite Z.land_ones by done.
    replace (f * 2 ^ 12 + 7) with (1 + (f * 2 ^ 11 + 3) * 2 ^ 1) by lia. by rewrite Z.mod_add.
  - rewrite Z.shiftr_div_pow2 by done. by rewrite Z.div_add_l, Z.div_small, Z.add_0_r by lia.
Qed.

Lemma fill_tlb_ok sys v f a :
  sys_ok sys -> frame_of sys a v = Some f ->
  exists sys', fill_tlb sys v f a = Ok sys' /\ sys_ok sys' /\ memory sys' = memory sys /\
    processes sys' = processes sys.
Proof.
  intros Hok Hf. unfold fill_tlb. destruct (find_index _ _) as [i|] eqn:Hi; [|by exists sys].
  apply find_index_Some in Hi as (e & E & _). rewrite arr_write_Ok by by eapply zget_Some_range.
  eexists. split; [done|]. split; [|done]. destruct Hok. constructor; try done. cbn [sys_mmu set_tlb tlb].
  unfold zset. case_cond; [|done]. by apply Forall_insert.
Qed.

Lemma frame_of_processes sys sys' a v :
  processes sys' = processes sys -> frame_of sys' a v = frame_of sys a v.
Proof. unfold frame_of. by intros ->. Qed.

(** Storing an entry changes the frame of one page of one address space. *)
Lemma frame_of_store sys a v p pt e mem :
  zget (processes sys) a = Some p -> page_table p = Some pt -> 0 <= v < len pt ->
  (Z.land e PTE_PRESENT =? 0) = false ->
  forall a' v', frame_of (set_processes (set_memory sys mem)
      (zset (processes sys) a (mkProcess (Some (zset pt v e)) (proc_asid p)))) a' v' =
    if (a' =? a) && (v' =? v) then Some (Z.shiftr e 12) else frame_of sys a' v'.
Proof.
  intros Ep Ept Hv He a' v'. pose proof (zget_Some_range _ _ _ Ep) as Ha. unfold frame_of.
  cbn [processes set_processes set_memory]. rewrite zget_zset, (proj2 (in_range_true a _)) by lia. rewrite andb_true_r.
  destruct (Z.eqb_spec a' a) as [->|]; [|done]. cbn [mbind option_bind page_table andb].
  rewrite zget_zset, (proj2 (in_range_true v _)) by lia. rewrite andb_true_r, Ep. cbn [mbind option_bind]. rewrite Ept.
  cbn [mbind option_bind]. destruct (Z.eqb_spec v' v) as [->|]; [|done]. cbn [mbind option_bind]. by rewrite He.
Qed.

(** Mapping a page that was not pinned. *)
Lemma map_ok sys a v p pt i pg :
  sys_ok sys -> zget (processes sys) a = Some p -> page_table p = Some pt -> 0 <= v < len pt ->
  frame_of sys a v = None -> zget (memory sys) i = Some pg -> pin_count pg = 0 ->
  let e := Z.lor (Z.lor (Z.lor (u64 (Z.shiftl i 12)) PTE_PRESENT) PTE_WRITABLE) PTE_USER in
  let sys' := set_processes (set_memory sys (zset (memory sys) i (mkPage (page_pfn pg) 1)))
      (zset (processes sys) a (mkProcess (Some (zset pt v e)) (proc_asid p))) in
  sys_ok sys' /\ extends sys sys' /\ frame_of sys' a v = Some i /\ Z.shiftr e 12 = i.
Proof.
  intros [Hsz Hfr Hpin Hexc Htlb] Ep Ept Hv Hnone Ei Hpg e sys'. pose proof (zget_Some_range _ _ _ Ei) as Hi.
  destruct (new_pte i) as [Hpres Hshift]; [lia|]. fold e in Hpres, Hshift.
  assert (forall a' v', frame_of sys' a' v' = if (a' =? a) && (v' =? v) then Some i else frame_of sys a' v') as Hf.
  { intros a' v'. unfold sys'. rewrite (frame_of_store sys a v p pt e _ Ep Ept Hv Hpres). by rewrite Hshift. }
  assert (forall a' v', frame_of sys a' v' <> Some i) as Hfresh.
  { intros a' v' H. destruct (Hpin _ _ _ H) as (q & Eq & Hq). rewrite Ei in Eq. injection Eq as <-. lia. }
  assert (extends sys sys') as Hext.
  { intros a' v' f H. rewrite Hf. destruct (Z.eqb_spec a' a) as [->|], (Z.eqb_spec v' v) as [->|]; simpl; congruence. }
  split; [|split; [done|]].
  - constructor.
    + unfold sys'. cbn. by rewrite length_zset.
    + unfold sys'. cbn. by rewrite length_zset.
    + intros a' v' f. rewrite Hf. unfold sys'. cbn [memory set_processes set_memory]. rewrite zget_zset.
      rewrite (proj2 (in_range_true i _)) by lia. rewrite andb_true_r. case_cond.
      * intros [= <-]. rewrite Z.eqb_refl. eexists. split; [done|]. simpl. lia.
      * intros H. destruct (Hpin _ _ _ H) as (q & Eq & Hq). destruct (Z.eqb_spec f i) as [->|].
        -- by destruct (Hfresh a' v').
        -- by exists q.
    + intros a1 v1 a2 v2 f. rewrite !Hf.
      destruct (Z.eqb_spec a1 a), (Z.eqb_spec v1 v), (Z.eqb_spec a2 a), (Z.eqb_spec v2 v); simpl; intros H1 H2;
        first [by apply (Hexc _ _ _ _ f) | by split; congruence
          | exfalso; apply (Hfresh a1 v1); congruence | exfalso; apply (Hfresh a2 v2); congruence].
    + unfold sys'. cbn [sys_mmu set_processes set_memory]. eapply list.Forall_impl; [exact Htlb|].
      intros t H Ht. by apply Hext, H.
  - split; [|done]. rewrite Hf. by rewrite !Z.eqb_refl.
Qed.

(** A page with a TLB entry is mapped, so its address space has a table that covers it. *)
Lemma mapped_covered sys a v f p : frame_of sys a v = Some f -> zget (processes sys) a = Some p -> exists pt, page_table p = Some pt /\ 0 <= v < len pt.
Proof.
  unfold frame_of. intros H Ep. rewrite Ep in H. cbn [mbind option_bind] in H. destruct (page_table p) as [pt|]; [|done]. cbn [mbind option_bind] in H.
  exists pt. split; [done|]. destruct (zget pt v) as [e|] eqn:E; [|done]. by apply zget_Some_range in E.
Qed.

(** A page that no table covers has no TLB entry, so the table is read. *)
Lemma translate_uncovered sys vaddr a p : sys_ok sys -> zget (processes sys) a = Some p ->
  (forall pt, page_table p = Some pt -> len pt <= vaddr / PAGE_SIZE) ->
  find_index (fun e => valid e && (vpn e =? vaddr / PAGE_SIZE) && (asid e =? a)) (tlb (sys_mmu sys)) = None.
Proof.
  intros Hok Ep Hno. destruct (find_index _ _) as [i|] eqn:Hi; [exfalso|done]. apply find_index_Some in Hi as (e & E & He & _).
  apply andb_true_iff in He as [[Hvalid Hvpn%Z.eqb_eq]%andb_true_iff Hasid%Z.eqb_eq].
  pose proof (Forall_zget _ _ _ _ (s_tlb _ Hok) E Hvalid) as Hf. rewrite Hvpn, Hasid in Hf.
  destruct (mapped_covered _ _ _ _ _ Hf Ep) as (pt & Hpt & Hv). specialize (Hno pt Hpt). lia.
Qed.

Lemma translate_covered sys vaddr a p pt :
  sys_ok sys -> 0 <= vaddr -> zget (processes sys) a = Some p -> page_table p = Some pt ->
  vaddr / PAGE_SIZE < len pt ->
  exists pa sys', translate_address sys vaddr a = Ok (pa, sys') /\ sys_ok sys' /\ extends sys sys' /\
    ((exists f, frame_of sys' a (vaddr / PAGE_SIZE) = Some f /\ pa = f * PAGE_SIZE + vaddr mod PAGE_SIZE) \/
     (pa = NO_PAGE /\ sys' = sys /\ Forall (fun q => pin_count q <> 0) (memory sys))).
Proof.
  intros Hok Hva Ep Ept Hcov. pose proof Hok as [Hsz Hfr Hpin Hexc Htlb]. unfold translate_address.
  assert (0 <= vaddr / PAGE_SIZE) as Hv by by apply Z.div_pos.
  assert (forall a v f, frame_of sys a v = Some f -> 0 <= f < 2 ^ 52) as Hrange.
  { intros a' v' f H. destruct (Hpin _ _ _ H) as (q & Eq & _). apply zget_Some_range in Eq. lia. }
  destruct (find_index _ (tlb (sys_mmu sys))) as [i|] eqn:Hi.
  - apply find_index_Some in Hi as (e & E & He & _). rewrite (arr_read_Ok _ _ _ E), bind_ret_l.
    apply andb_true_iff in He as [[Hvalid Hvpn%Z.eqb_eq]%andb_true_iff Hasid%Z.eqb_eq].
    pose proof (Forall_zget _ _ _ _ Htlb E) as Hf. simpl in Hf. specialize (Hf Hvalid). rewrite Hvpn, Hasid in Hf.
    eexists _, sys. split; [done|]. split; [done|]. split; [by intros ???|]. left. eexists.
    split; [exact Hf|]. apply physical_eq. by eapply Hrange.
  - unfold table_of. rewrite (arr_read_Ok _ _ _ Ep), bind_ret_l, Ept. cbn [mbind res_bind].
    destruct (zget_range pt (vaddr / PAGE_SIZE)) as [pte E]; [lia|]. rewrite (arr_read_Ok _ _ _ E).
    cbn [mbind res_bind].
    assert (frame_of sys a (vaddr / PAGE_SIZE) = if Z.land pte PTE_PRESENT =? 0 then None else Some (Z.shiftr pte 12)) as Hf.
    { unfold frame_of. rewrite Ep. cbn [mbind option_bind]. rewrite Ept. cbn [mbind option_bind]. by rewrite E. }
    destruct (Z.land pte PTE_PRESENT =? 0) eqn:Hpres.
    + rewrite (allocate_page_first sys Hsz). destruct (find_index _ (memory sys)) as [i|] eqn:Hfree.
      * apply find_index_Some in Hfree as (pg & Epg & Hpg & _). zbool. pose proof (zget_Some_range _ _ _ Epg) as Hi'.
        rewrite (arr_read_Ok _ _ _ Epg), bind_ret_l, arr_write_Ok by done. cbn [mbind res_bind].
        destruct (Z.eqb_spec i NO_PAGE); [unfold NO_PAGE, UINT64 in *; lia|].
        rewrite (arr_write_Ok pt) by lia. cbn [mbind res_bind processes set_memory].
        rewrite (arr_write_Ok (processes sys)) by by eapply zget_Some_range. cbn [mbind res_bind].
        destruct (map_ok sys a (vaddr / PAGE_SIZE) p pt i pg) as (Hok' & Hext & Hf' & Hshift); try done.
        cbv zeta in Hok', Hext, Hf'. rewrite Hshift.
        destruct (fill_tlb_ok _ (vaddr / PAGE_SIZE) i a Hok' Hf') as (sys2 & -> & Hok2 & Hm2 & Hp2). cbn [mbind res_bind].
        eexists _, sys2. split; [done|]. split; [done|]. split.
        { intros a' v' f H. rewrite (frame_of_processes _ sys2 a' v' Hp2). by apply Hext. }
        left. exists i. split; [by rewrite (frame_of_processes _ sys2 _ _ Hp2)|]. apply physical_eq. lia.
      * cbn [mbind res_bind]. rewrite Z.eqb_refl. eexists _, sys. split; [done|]. split; [done|]. split; [by intros ???|].
        right. split; [done|]. split; [done|]. apply list.Forall_forall. intros q [j Ej]%elem_of_zget.
        pose proof (proj1 (find_index_None _ _) Hfree _ _ Ej) as Hq. by apply Z.eqb_neq in Hq.
    + destruct (fill_tlb_ok sys (vaddr / PAGE_SIZE) (Z.shiftr pte 12) a Hok Hf) as (sys2 & -> & Hok2 & Hm2 & Hp2).
      cbn [mbind res_bind]. eexists _, sys2. split; [done|]. split; [done|]. split.
      { intros a' v' f H. by rewrite (frame_of_processes _ sys2 a' v' Hp2). }
      left. eexists. split; [by rewrite (frame_of_processes _ sys2 _ _ Hp2)|]. apply physical_eq. by eapply Hrange.
Qed.

(** C11.  Translation with demand allocation, for every process and address.  For a page
    that the page table of the address space covers, [translate_address] either gives
    the address in the frame that the page is then mapped to, or reports that no page
    is free and changes nothing; no frame is ever mapped twice, what was mapped stays
    mapped, and the TLB stays coherent.  A page beyond the table is read outside it, and
    an address space without a table, as every one is that the program starts with, is
    an access through a null pointer.  The invariant holds after [init_system] when no
    page is mapped yet. *)
Theorem translate_address_exclusive sys vaddr a p :
  sys_ok sys -> 0 <= vaddr -> zget (processes sys) a = Some p ->
  match page_table p with
  | None => translate_address sys vaddr a = Fault NullDeref
  | Some pt =>
      if vaddr / PAGE_SIZE <? len pt then
        exists pa sys', translate_address sys vaddr a = Ok (pa, sys') /\ sys_ok sys' /\ extends sys sys' /\
          ((exists f, frame_of sys' a (vaddr / PAGE_SIZE) = Some f /\ pa = f * PAGE_SIZE + vaddr mod PAGE_SIZE) \/
           (pa = NO_PAGE /\ sys' = sys /\ Forall (fun q => pin_count q <> 0) (memory sys)))
      else translate_address sys vaddr a = Fault OutOfBounds
  end.
Proof.
  intros Hok Hva Ep. destruct (page_table p) as [pt|] eqn:Ept; [destruct (Z.ltb_spec (vaddr / PAGE_SIZE) (len pt))|].
  - by apply (translate_covered sys vaddr a p pt).
  - unfold translate_address. rewrite (translate_uncovered sys vaddr a p) by (done || (intros ?; rewrite Ept; intros [= <-]; done)).
    unfold table_of. rewrite (arr_read_Ok _ _ _ Ep), bind_ret_l, Ept. cbn [mbind res_bind]. by rewrite arr_read_oob by lia.
  - unfold translate_address. rewrite (translate_uncovered sys vaddr a p) by (done || (intros ?; by rewrite Ept)).
    unfold table_of. by rewrite (arr_read_Ok _ _ _ Ep), bind_ret_l, Ept.
Qed.

(** The invariant after [init_system], when the tables that there are map nothing. *)
Lemma initial_system_ok procs current size sys : init_system true procs current size = Ok sys -> 0 <= size < 2 ^ 64 ->
  Forall (fun p => forall pt, page_table p = Some pt -> Forall (fun e => Z.land e PTE_PRESENT = 0) pt) procs -> sys_ok sys.
Proof.
  intros [= <-] Hsz Hp. assert (forall a v, frame_of (mkSystem (replicate (Z.to_nat (size / PAGE_SIZE)) (mkPage 0 0)) size procs
    (mkMMU (replicate (Z.to_nat TLB_SIZE) (mkEntry 0 0 0 false)) current) 1) a v = None) as Hnone.
  { intros a v. unfold frame_of. cbn [processes]. destruct (zget procs a) as [p|] eqn:E; [|done]. cbn [mbind option_bind]. destruct (page_table p) as [pt|] eqn:Ept; [|done].
    cbn [mbind option_bind]. destruct (zget pt v) as [e|] eqn:Ee; [|done]. cbn [mbind option_bind]. pose proof (Forall_zget _ _ _ _ (Forall_zget _ _ _ _ Hp E pt Ept) Ee) as H. simpl in H. by rewrite H. }
  pose proof (Z.div_pos size PAGE_SIZE ltac:(lia) ltac:(done)). assert (size / PAGE_SIZE < 2 ^ 52) by (apply Z.div_lt_upper_bound; [done|unfold PAGE_SIZE; lia]).
  constructor; cbn [memory memory_size sys_mmu tlb].
  - rewrite length_replicate. lia.
  - rewrite length_replicate. lia.
  - intros a v f. by rewrite Hnone.
  - intros a v a' v' f. by rewrite Hnone.
  - apply list.Forall_forall. intros e [-> _]%(elem_of_replicate (Z.to_nat TLB_SIZE)). done.
Qed.

(** Four pages and two address spaces with tables, as [init_system] leaves them. *)
Definition demo_processes : list process := [mkProcess None 0; mkProcess (Some (replicate 16 0)) 1; mkProcess (Some (replicate 16 0)) 2].

Definition demo_system : system :=
  mkSystem (replicate 4 (mkPage 0 0)) (4 * PAGE_SIZE) demo_processes (mkMMU (replicate 64 (mkEntry 0 0 0 false)) 1) 1.

Lemma demo_system_ok : sys_ok demo_system.
Proof.
  apply (initial_system_ok demo_processes 1 (4 * PAGE_SIZE)); [reflexivity|unfold PAGE_SIZE; lia|].
  repeat (apply list.Forall_cons; split); [done|..|done]; intros pt H; injection H as <-; apply list.Forall_forall; by intros e [-> _]%(elem_of_replicate 16).
Qed.

Lemma translate_address_exclusive_witness : init_system true demo_processes 1 (4 * PAGE_SIZE) = Ok demo_system /\
  (exists pa sys', translate_address demo_system 0x1004 1 = Ok (pa, sys') /\ sys_ok sys' /\ extends demo_system sys' /\
    ((exists f, frame_of sys' 1 1 = Some f /\ pa = f * PAGE_SIZE + 4) \/
     (pa = NO_PAGE /\ sys' = demo_system /\ Forall (fun q => pin_count q <> 0) (memory demo_system)))) /\
  translate_address demo_system 0x1004 0 = Fault NullDeref.
Proof.
  split; [reflexivity|]. split.
  - apply (translate_address_exclusive demo_system 0x1004 1 (mkProcess (Some (replicate 16 0)) 1) demo_system_ok); [discriminate|reflexivity].
  - apply (translate_address_exclusive demo_system 0x1004 0 (mkProcess None 0) demo_system_ok); [discriminate|reflexivity].
Defined.
End PageFlush.

(** [pageTable.c] *)
Module PageTable.

Definition PAGE_SIZE : Z := 4096.
Definition PAGE_TABLE_ENTRIES : Z := 1024.
Definition PHYSICAL_MEMORY_SIZE : Z := 100 * PAGE_SIZE.
Definition DISK_SIZE : Z := 1000 * PAGE_SIZE.
Definition TLB_SIZE : Z := 16.

Record PageTableEntry : Type := mkPTE { frame_number : Z; present : bool; dirty : bool; accessed : bool }.
Record TLBEntry : Type := mkEntry { page_number : Z; tlb_frame : Z }.

Record vm : Type := mkVM {
  physical_memory : list Z;
  disk : list Z;
  page_table : list PageTableEntry;
  tlb : list TLBEntry;
  tlb_count : Z
}.

Definition init_memory : vm :=
  mkVM (replicate (Z.to_nat PHYSICAL_MEMORY_SIZE) 0) (replicate (Z.to_nat DISK_SIZE) 0)
    (replicate (Z.to_nat PAGE_TABLE_ENTRIES) (mkPTE 0 false false false))
    (replicate (Z.to_nat TLB_SIZE) (mkEntry 0 0)) 0.

(** Append to the TLB, or shift it and replace the last entry. *)
Definition update_tlb (s : vm) (page frame : Z) : res vm :=
  if tlb_count s <? TLB_SIZE then
    l ← (tlb s).[tlb_count s <- mkEntry page frame];
    n ← iadd (tlb_count s) 1;
    Ok (mkVM (physical_memory s) (disk s) (page_table s) l n)
  else
    l ← shift_left (Z.to_nat (TLB_SIZE - 1)) (tlb s);
    l ← l.[TLB_SIZE - 1 <- mkEntry page frame];
    Ok (mkVM (physical_memory s) (disk s) (page_table s) l (tlb_count s)).

(** The first entry in use for the page. *)
Definition tlb_lookup (s : vm) (page : Z) : res (option Z) :=
  c ← for_ctl (Z.to_nat (tlb_count s)) 0
        (fun i (_ : unit) =>
           e ← (tlb s).[i];
           Ok (if page_number e =? page then Return (tlb_frame e) else Next tt)) tt;
  Ok (match c with Return f => Some f | Next _ => None end).

(** A frame counts as free when its first byte is 0; without one, frame 0 is
    taken. *)
Definition find_free_frame (s : vm) : res Z :=
  c ← for_ctl (Z.to_nat (PHYSICAL_MEMORY_SIZE / PAGE_SIZE)) 0
        (fun i (_ : unit) =>
           b ← (physical_memory s).[i * PAGE_SIZE];
           Ok (if b =? 0 then Return i else Next tt)) tt;
  Ok (match c with Return i => i | Next _ => 0 end).

(** Load the page into the frame and enter it into the page table. *)
Definition load_page (s : vm) (page frame : Z) : res vm :=
  bytes ← copy_from (disk s) (u32 (page * PAGE_SIZE)) (Z.to_nat PAGE_SIZE);
  mem ← copy_to (physical_memory s) (frame * PAGE_SIZE) bytes;
  e ← (page_table s).[page];
  pt ← (page_table s).[page <- mkPTE frame true (dirty e) true];
  Ok (mkVM mem (disk s) pt (tlb s) (tlb_count s)).

Definition translate_address (s : vm) (virtual_address : Z) : res (Z * vm) :=
  let page := virtual_address / PAGE_SIZE in
  let offset := virtual_address mod PAGE_SIZE in
  hit ← tlb_lookup s page;
  match hit with
  | Some f => Ok (u32 (u32 (f * PAGE_SIZE) + offset), s)
  | None =>
      pte ← (page_table s).[page];
      if present pte then
        s ← update_tlb s page (frame_number pte);
        Ok (u32 (u32 (frame_number pte * PAGE_SIZE) + offset), s)
      else
        free_frame ← find_free_frame s;
        s ← load_page s page free_frame;
        s ← update_tlb s page free_frame;
        Ok (u32 (free_frame * PAGE_SIZE + offset), s)
  end.

Definition write_memory (s : vm) (virtual_address value : Z) : res vm :=
  '(pa, s) ← translate_address s virtual_address;
  mem ← (physical_memory s).[pa <- value];
  let page := virtual_address / PAGE_SIZE in
  e ← (page_table s).[page];
  pt ← (page_table s).[page <- mkPTE (frame_number e) (present e) true (accessed e)];
  Ok (mkVM mem (disk s) pt (tlb s) (tlb_count s)).

Definition read_memory (s : vm) (virtual_address : Z) : res (Z * vm) :=
  '(pa, s) ← translate_address s virtual_address;
  b ← (physical_memory s).[pa];
  Ok (b, s).

(** The bytes [main] prints. *)
Definition page_main : res (list Z) :=
  s ← write_memory init_memory 0 65;
  s ← write_memory s 4096 66;
  s ← write_memory s 8192 67;
  '(a, s) ← read_memory s 0;
  '(b, s) ← read_memory s 4096;
  '(c, s) ← read_memory s 8192;
  Ok [a; b; c].

(** The frame of a page that is present. *)
Definition frame_of (s : vm) (page : Z) : option Z :=
  e ← zget (page_table s) page; if present e then Some (frame_number e) else None.

Record vm_ok (s : vm) : Prop := {
  v_memory : len (physical_memory s) = PHYSICAL_MEMORY_SIZE;
  v_disk : len (disk s) = DISK_SIZE;
  v_table : len (page_table s) = PAGE_TABLE_ENTRIES;
  v_tlb : len (tlb s) = TLB_SIZE;
  v_count : 0 <= tlb_count s <= TLB_SIZE;
  v_frames : forall p f, frame_of s p = Some f -> 0 <= f < 100;
  v_coherent : forall i e, i < tlb_count s -> zget (tlb s) i = Some e -> frame_of s (page_number e) = Some (tlb_frame e)
}.

Lemma update_tlb_ok s page f :
  vm_ok s -> frame_of s page = Some f ->
  exists s', update_tlb s page f = Ok s' /\ vm_ok s' /\ page_table s' = page_table s /\
    physical_memory s' = physical_memory s.
Proof.
  intros [Hm Hd Ht Hl Hc Hf Hco] Hpf. unfold update_tlb, TLB_SIZE in *.
  destruct (Z.ltb_spec (tlb_count s) 16) as [Hlt|Hge].
  - rewrite arr_write_Ok by lia. rewrite bind_ret_l, iadd_Ok by int_side. rewrite bind_ret_l.
    eexists. split; [done|]. split; [|done]. constructor; cbn [physical_memory disk page_table tlb tlb_count];
      rewrite ?length_zset; unfold TLB_SIZE; try done; [lia|].
    intros i e Hi. rewrite zget_zset. case_cond; [by intros [= <-]|]. intros E. apply (Hco i e); [|done].
    pose proof (zget_Some_range _ _ _ E). destruct (decide (i = tlb_count s)) as [->|]; [|lia].
    destruct Heqb as [?|?%in_range_false]; zbool; lia.
  - destruct (tlb s) as [|x l] eqn:El; [simpl in Hl; lia|]. cbn [length] in Hl.
    assert (length l = 15%nat) as Hl15 by lia. change (Z.to_nat (16 - 1)) with 15%nat. rewrite <- Hl15.
    pose proof (shift_left_ok x l []) as Hs. rewrite app_nil_r in Hs. rewrite Hs, bind_ret_l.
    change (16 - 1) with (Z.of_nat 15). rewrite <- Hl15.
    rewrite arr_write_Ok by (rewrite length_app; simpl; lia). rewrite zset_middle, bind_ret_l.
    eexists. split; [done|]. split; [|done]. constructor; cbn [physical_memory disk page_table tlb tlb_count];
      unfold TLB_SIZE; try done; [rewrite length_app; simpl; lia|].
    intros i e Hi. assert (tlb_count s = 16) as Hc16 by lia. rewrite Hc16 in Hi.
    unfold zget. destruct (Z.leb_spec 0 i); [|done]. destruct (decide (i = 15)) as [->|].
    + replace (Z.to_nat 15) with (length l) by (rewrite Hl15; done). rewrite list_lookup_middle by done. by intros [= <-].
    + rewrite lookup_app_l by lia. intros E. apply (Hco (i + 1) e); [lia|]. rewrite zget_cons.
      destruct (Z.eqb_spec (i + 1) 0); [lia|]. unfold zget. destruct (Z.leb_spec 0 (i + 1 - 1)); [|lia].
      by replace (i + 1 - 1) with i by lia.
Qed.

Lemma tlb_lookup_ok s page :
  vm_ok s -> exists o, tlb_lookup s page = Ok o /\ forall f, o = Some f -> frame_of s page = Some f.
Proof.
  intros [_ _ _ Hl Hc _ Hco]. unfold tlb_lookup.
  destruct (for_ctl_inv (fun _ (_ : unit) => True) (fun f => frame_of s page = Some f) (Z.to_nat (tlb_count s)) 0
    (fun i (_ : unit) => e ← (tlb s).[i]; Ok (if page_number e =? page then Return (tlb_frame e) else Next tt)) tt)
    as (c & -> & Hc'); [done| |].
  - intros j [] Hj _. destruct (zget_range (tlb s) j) as [e E]; [lia|]. rewrite (arr_read_Ok _ _ _ E), bind_ret_l.
    eexists. split; [done|]. destruct (Z.eqb_spec (page_number e) page) as [<-|]; [|done]. apply (Hco j); [lia|done].
  - eexists. split; [done|]. destruct c; [done|]. by intros f [= <-].
Qed.

Lemma find_free_frame_ok s : vm_ok s -> exists f, find_free_frame s = Ok f /\ 0 <= f < 100.
Proof.
  intros [Hm _ _ _ _ _ _]. unfold find_free_frame. change (Z.to_nat (PHYSICAL_MEMORY_SIZE / PAGE_SIZE)) with 100%nat.
  destruct (for_ctl_inv (fun _ (_ : unit) => True) (fun f => 0 <= f < 100) 100 0
    (fun i (_ : unit) => b ← (physical_memory s).[i * PAGE_SIZE]; Ok (if b =? 0 then Return i else Next tt)) tt)
    as (c & -> & Hc'); [done| |].
  - intros j [] Hj _. destruct (zget_range (physical_memory s) (j * PAGE_SIZE)) as [b E];
      [unfold PHYSICAL_MEMORY_SIZE, PAGE_SIZE in *; lia|].
    rewrite (arr_read_Ok _ _ _ E), bind_ret_l. eexists. split; [done|]. destruct (b =? 0); [lia|done].
  - eexists. split; [done|]. destruct c; [lia|done].
Qed.

Lemma load_page_ok s page f :
  vm_ok s -> 0 <= page < 1000 -> 0 <= f < 100 -> frame_of s page = None ->
  exists s', load_page s page f = Ok s' /\ vm_ok s' /\
    forall p, frame_of s' p = if p =? page then Some f else frame_of s p.
Proof.
  intros [Hm Hd Ht Hl Hc Hf Hco] Hp Hf100 Hnone. unfold load_page.
  unfold PHYSICAL_MEMORY_SIZE, DISK_SIZE, PAGE_TABLE_ENTRIES, PAGE_SIZE in *.
  rewrite u32_id by (unfold UINT32; lia). rewrite copy_from_Ok by lia. rewrite bind_ret_l.
  set (bytes := take _ _). assert (length bytes = Z.to_nat 4096) as Hb.
  { unfold bytes. rewrite length_take, length_drop. lia. }
  rewrite copy_to_Ok by lia. rewrite bind_ret_l. destruct (zget_range (page_table s) page) as [e E]; [lia|].
  rewrite (arr_read_Ok _ _ _ E), bind_ret_l, arr_write_Ok by lia. rewrite bind_ret_l. eexists. split; [done|].
  assert (forall p, frame_of (mkVM (take (Z.to_nat (f * 4096)) (physical_memory s) ++ bytes ++
      drop (Z.to_nat (f * 4096) + length bytes) (physical_memory s)) (disk s)
      (zset (page_table s) page (mkPTE f true (dirty e) true)) (tlb s) (tlb_count s)) p =
    if p =? page then Some f else frame_of s p) as Hfr.
  { intros p. unfold frame_of. cbn [page_table]. rewrite zget_zset, (proj2 (in_range_true page _)) by lia.
    rewrite andb_true_r. by case_cond. }
  split; [|done]. constructor; try done; cbn [physical_memory disk page_table tlb tlb_count].
  - unfold PHYSICAL_MEMORY_SIZE, PAGE_SIZE. rewrite !length_app, length_take, length_drop. lia.
  - by rewrite length_zset.
  - intros p g. rewrite Hfr. case_cond; [intros [= <-]; lia|apply Hf].
  - intros i x Hi Ex. rewrite Hfr. pose proof (Hco i x Hi Ex) as Hx.
    destruct (Z.eqb_spec (page_number x) page) as [Epg|]; [|done]. rewrite Epg in Hx. congruence.
Qed.

Lemma translate_ok s va :
  vm_ok s -> 0 <= va -> va / PAGE_SIZE < 1000 ->
  exists s' f, translate_address s va = Ok (f * PAGE_SIZE + va mod PAGE_SIZE, s') /\ vm_ok s' /\
    0 <= f < 100 /\ frame_of s' (va / PAGE_SIZE) = Some f /\
    (forall p g, frame_of s p = Some g -> frame_of s' p = Some g) /\
    (frame_of s (va / PAGE_SIZE) <> None -> physical_memory s' = physical_memory s).
Proof.
  intros Hok Hva Hpage. unfold translate_address. assert (0 <= va / PAGE_SIZE) as Hp0 by by apply Z.div_pos.
  pose proof (Z.mod_pos_bound va PAGE_SIZE ltac:(done)) as Hoff.
  assert (forall f, 0 <= f < 100 -> u32 (u32 (f * PAGE_SIZE) + va mod PAGE_SIZE) = f * PAGE_SIZE + va mod PAGE_SIZE /\
    u32 (f * PAGE_SIZE + va mod PAGE_SIZE) = f * PAGE_SIZE + va mod PAGE_SIZE) as Hpa.
  { intros f Hf. unfold PAGE_SIZE in *. rewrite (u32_id (f * 4096)) by (unfold UINT32; lia).
    rewrite u32_id by (unfold UINT32; lia). done. }
  destruct (tlb_lookup_ok s (va / PAGE_SIZE) Hok) as (o & -> & Ho). rewrite bind_ret_l. destruct o as [f|].
  { specialize (Ho f eq_refl). pose proof (v_frames _ Hok _ _ Ho) as Hf. rewrite (proj1 (Hpa f Hf)).
    exists s, f. split_and!; (done || lia). }
  destruct (zget_range (page_table s) (va / PAGE_SIZE)) as [e E]; [rewrite (v_table _ Hok); unfold PAGE_TABLE_ENTRIES; lia|].
  rewrite (arr_read_Ok _ _ _ E), bind_ret_l.
  assert (frame_of s (va / PAGE_SIZE) = if present e then Some (frame_number e) else None) as Hfr
    by (unfold frame_of; by rewrite E). destruct (present e).
  - destruct (update_tlb_ok s _ _ Hok Hfr) as (s' & -> & Hok' & Hpt & Hmem). rewrite bind_ret_l.
    pose proof (v_frames _ Hok _ _ Hfr) as Hf. rewrite (proj1 (Hpa _ Hf)). exists s', (frame_number e).
    assert (forall p, frame_of s' p = frame_of s p) as Heq by (intros p; unfold frame_of; by rewrite Hpt).
    split_and!; try done; try lia; [by rewrite Heq|]. intros p g. by rewrite Heq.
  - destruct (find_free_frame_ok s Hok) as (f & -> & Hf). rewrite bind_ret_l.
    destruct (load_page_ok s (va / PAGE_SIZE) f Hok) as (s1 & -> & Hok1 & Hfr1); [lia|done|done|]. rewrite bind_ret_l.
    destruct (update_tlb_ok s1 (va / PAGE_SIZE) f Hok1) as (s' & -> & Hok' & Hpt & Hmem);
      [by rewrite Hfr1, Z.eqb_refl|]. rewrite bind_ret_l, (proj2 (Hpa f Hf)). exists s', f.
    assert (forall p, frame_of s' p = frame_of s1 p) as Heq by (intros p; unfold frame_of; by rewrite Hpt).
    split_and!; try done; try lia.
    + by rewrite Heq, Hfr1, Z.eqb_refl.
    + intros p g Hg. rewrite Heq, Hfr1. destruct (Z.eqb_spec p (va / PAGE_SIZE)) as [->|]; [congruence|done].
Qed.

Lemma write_memory_ok s va x :
  vm_ok s -> 0 <= va -> va / PAGE_SIZE < 1000 ->
  exists s' f, write_memory s va x = Ok s' /\ vm_ok s' /\ frame_of s' (va / PAGE_SIZE) = Some f /\
    zget (physical_memory s') (f * PAGE_SIZE + va mod PAGE_SIZE) = Some x.
Proof.
  intros Hok Hva Hpage. unfold write_memory.
  destruct (translate_ok s va Hok Hva Hpage) as (s1 & f & -> & [Hm Hd Ht Hl Hc Hfr Hco] & Hf & Hfp & _). cbn [mbind res_bind].
  pose proof (Z.mod_pos_bound va PAGE_SIZE ltac:(done)) as Hoff.
  assert (0 <= f * PAGE_SIZE + va mod PAGE_SIZE < len (physical_memory s1)) as Hr.
  { rewrite Hm. unfold PHYSICAL_MEMORY_SIZE, PAGE_SIZE in *. lia. }
  rewrite (arr_write_Ok (physical_memory s1)) by done. cbn [mbind res_bind].
  pose proof Hfp as Hfp'. unfold frame_of in Hfp'. destruct (zget (page_table s1) (va / PAGE_SIZE)) as [e|] eqn:E; [|done].
  rewrite (arr_read_Ok _ _ _ E). cbn [mbind res_bind]. pose proof (zget_Some_range _ _ _ E).
  rewrite arr_write_Ok by done. cbn [mbind res_bind]. eexists _, f. split; [done|].
  set (s2 := mkVM _ _ _ _ _).
  assert (forall p, frame_of s2 p = frame_of s1 p) as Heq.
  { intros p. unfold frame_of, s2. cbn [page_table]. rewrite zget_zset, (proj2 (in_range_true _ _)) by done.
    rewrite andb_true_r. destruct (Z.eqb_spec p (va / PAGE_SIZE)) as [->|]; [|done]. by rewrite E. }
  split; [|split].
  - constructor; unfold s2; cbn [physical_memory disk page_table tlb tlb_count]; rewrite ?length_zset; try done.
    + intros p g. fold s2. rewrite Heq. apply Hfr.
    + intros i y Hi Ey. fold s2. rewrite Heq. by apply (Hco i).
  - by rewrite Heq.
  - unfold s2. cbn [physical_memory]. by apply zget_zset_eq.
Qed.

(** A byte written through the page table is read back: for any address
    of a page that is on disk, whatever is in memory, in the page table and in
    the TLB, [write_memory] succeeds and [read_memory] then returns the byte. *)
Theorem write_read_memory s va x :
  vm_ok s -> 0 <= va -> va / PAGE_SIZE < 1000 ->
  exists s1 s2, write_memory s va x = Ok s1 /\ read_memory s1 va = Ok (x, s2) /\ vm_ok s2.
Proof.
  intros Hok Hva Hpage. destruct (write_memory_ok s va x Hok Hva Hpage) as (s1 & f & Hw & Hok1 & Hf & Hx).
  destruct (translate_ok s1 va Hok1 Hva Hpage) as (s2 & f' & Ht & Hok2 & _ & Hf' & Hext & Hmem).
  exists s1, s2. split; [done|]. split; [|done]. unfold read_memory. rewrite Ht. cbn [mbind res_bind].
  rewrite (Hext _ _ Hf) in Hf'. injection Hf' as <-. rewrite Hmem by congruence.
  by rewrite (arr_read_Ok _ _ _ Hx).
Qed.

(** Two pages in one frame: as long as the first byte of frame 0 is 0, every
    page fault loads into frame 0, also when another page is there. *)
Lemma zero_first_byte_reused s page :
  vm_ok s -> zget (physical_memory s) 0 = Some 0 -> 0 <= page < 1000 -> frame_of s page = None ->
  find_free_frame s = Ok 0 /\
  exists s', load_page s page 0 = Ok s' /\ frame_of s' page = Some 0 /\
    forall p, frame_of s p = Some 0 -> p <> page /\ frame_of s' p = Some 0.
Proof.
  intros Hok H0 Hp Hnone. split.
  - unfold find_free_frame. change (Z.to_nat (PHYSICAL_MEMORY_SIZE / PAGE_SIZE)) with 100%nat. cbn [for_ctl].
    change (0 * PAGE_SIZE) with 0. by rewrite (arr_read_Ok _ _ _ H0).
  - destruct (load_page_ok s page 0 Hok Hp ltac:(lia) Hnone) as (s' & -> & _ & Hfr). exists s'. split; [done|].
    rewrite Hfr, Z.eqb_refl. split; [done|]. intros p Hpf. rewrite Hfr.
    destruct (Z.eqb_spec p page) as [->|]; [congruence|done].
Qed.

Lemma init_memory_ok : vm_ok init_memory.
Proof.
  assert (forall n : Z, 0 <= n -> forall A (x : A), len (replicate (Z.to_nat n) x) = n) as Hlen.
  { intros n Hn A x. rewrite length_replicate. by apply Z2Nat.id. }
  assert (forall p f, frame_of init_memory p <> Some f) as Hn.
  { intros p f. unfold frame_of, init_memory. cbn [page_table].
    destruct (zget _ p) as [e|] eqn:E; [|done]. apply zget_replicate in E as ->. done. }
  constructor; cbn [physical_memory disk page_table tlb tlb_count init_memory]; [by apply Hlen..|done| |].
  - intros p f H. by destruct (Hn p f).
  - intros i e Hi E. apply zget_Some_range in E. lia.
Qed.

Lemma write_read_memory_witness :
  exists s1 s2, write_memory init_memory 8193 66 = Ok s1 /\ read_memory s1 8193 = Ok (66, s2) /\ vm_ok s2.
Proof.
  apply (write_read_memory init_memory 8193 66); [apply init_memory_ok|discriminate|reflexivity].
Defined.
End PageTable.
