(* ===== verification/RwLocks.v ===== *)
(** * Readers-writer locks ([concurrency/threads/])

    [writeStarvation.c] and [aggressiveWriter.c] implement a lock that prefers
    writers with a mutex, two condition variables and counters.  The code
    between two points where a thread holds the mutex is one step; a thread
    blocked in [pthread_cond_wait] wakes up when it is signalled or for no
    reason.  The class [RwLock] has the critical sections of a lock, the class
    [RwLockLaws] what they promise about the number of threads in each state;
    the threads of the programs are modelled, and their theorems proved, for
    any lock with these laws, and both programs discharge them. *)
From Stdlib Require Import ZArith Lia.
From stdpp Require Import base tactics list numbers option relations.
From S2P Require Import Prelude.

#[local] Open Scope Z_scope.
#[local] Open Scope c_scope.

(** What a critical section does to the condition variables. *)
Inductive notify : Type := NoSignal | SignalWriters | BroadcastReaders.

(** ** The interface *)

(** A lock function is its part from taking the mutex to entering ([true]) or
    waiting ([false]), and the part from waking up to the same. *)
Class RwLock (L : Type) : Type := {
  lock_init : L;
  read_begin : L -> res (bool * L);
  read_resume : L -> res (bool * L);
  read_unlock : L -> res (notify * L);
  write_begin : L -> res (bool * L);
  write_resume : L -> res (bool * L);
  write_unlock : L -> res (notify * L)
}.

(** Numbers of threads: reading, waiting to read, writing, waiting to write. *)
Record counts : Type := mkCounts { c_reading : Z; c_rwait : Z; c_writing : Z; c_wwait : Z }.

Definition counts_ok (c : counts) : Prop :=
  0 <= c_reading c /\ 0 <= c_rwait c /\ 0 <= c_writing c /\ 0 <= c_wwait c /\
  c_reading c + c_rwait c + c_writing c + c_wwait c <= INT_MAX.

Class RwLockLaws (L : Type) `{RwLock L} : Type := {
  represents : L -> counts -> Prop;
  init_law : represents lock_init (mkCounts 0 0 0 0);
  read_begin_law : forall l r rw w ww, represents l (mkCounts r rw w ww) ->
    counts_ok (mkCounts (r + 1) rw w ww) ->
    exists b l', read_begin l = Ok (b, l') /\
      if b then w <= 0 /\ represents l' (mkCounts (r + 1) rw w ww)
      else (0 < w \/ 0 < ww) /\ represents l' (mkCounts r (rw + 1) w ww);
  read_resume_law : forall l r rw w ww, represents l (mkCounts r rw w ww) ->
    counts_ok (mkCounts r rw w ww) -> 0 < rw ->
    exists b l', read_resume l = Ok (b, l') /\
      if b then w <= 0 /\ represents l' (mkCounts (r + 1) (rw - 1) w ww)
      else (0 < w \/ 0 < ww) /\ represents l' (mkCounts r rw w ww);
  read_unlock_law : forall l r rw w ww, represents l (mkCounts r rw w ww) ->
    counts_ok (mkCounts r rw w ww) -> 0 < r ->
    exists n l', read_unlock l = Ok (n, l') /\ represents l' (mkCounts (r - 1) rw w ww) /\
      n = if (r - 1 =? 0) && (0 <? ww) then SignalWriters else NoSignal;
  write_begin_law : forall l r rw w ww, represents l (mkCounts r rw w ww) ->
    counts_ok (mkCounts r rw w (ww + 1)) -> w <= 1 -> 0 <= ww ->
    exists b l', write_begin l = Ok (b, l') /\
      if b then r <= 0 /\ w <= 0 /\ represents l' (mkCounts r rw (w + 1) ww)
      else (0 < r \/ 0 < w) /\ represents l' (mkCounts r rw w (ww + 1));
  write_resume_law : forall l r rw w ww, represents l (mkCounts r rw w ww) ->
    counts_ok (mkCounts r rw w ww) -> 0 < ww -> w <= 1 ->
    exists b l', write_resume l = Ok (b, l') /\
      if b then r <= 0 /\ w <= 0 /\ represents l' (mkCounts r rw (w + 1) (ww - 1))
      else (0 < r \/ 0 < w) /\ represents l' (mkCounts r rw w ww);
  write_unlock_law : forall l r rw w ww, represents l (mkCounts r rw w ww) ->
    counts_ok (mkCounts r rw w ww) -> 0 < w ->
    exists n l', write_unlock l = Ok (n, l') /\ represents l' (mkCounts r rw (w - 1) ww) /\
      if 0 <? ww then n = SignalWriters else n = BroadcastReaders \/ n = NoSignal /\ rw <= 0
}.

(** ** The programs *)

(** Where a thread is.  A writer adds one to [shared_data] between taking and
    releasing the lock: it loads the value, then stores the sum. *)
Inductive tstate : Type :=
| RdIdle
| WrIdle
| RdWait
| RdWoken
| Reading
| WrWait
| WrWoken
| Writing
| Loaded (v : Z)
| Written.
#[export] Instance tstate_eq_dec : EqDecision tstate.
Proof. solve_decision. Defined.

(** The state of a program; [writes] counts the increments finished. *)
Record sys (L : Type) : Type := mkSys { lk : L; threads : list tstate; shared_data : Z; writes : Z }.
Arguments mkSys {L} _ _ _ _.
Arguments lk {L} _.
Arguments threads {L} _.
Arguments shared_data {L} _.
Arguments writes {L} _.

Definition wake_reader (t : tstate) : tstate := match t with RdWait => RdWoken | _ => t end.

(** [pthread_cond_signal] wakes one of the threads blocked on the condition
    variable, if there is one; [pthread_cond_broadcast] wakes all. *)
Inductive notified : notify -> list tstate -> list tstate -> Prop :=
| notified_none ts : notified NoSignal ts ts
| notified_signal ts j : zget ts j = Some WrWait -> notified SignalWriters ts (zset ts j WrWoken)
| notified_lost ts : WrWait ∉ ts -> notified SignalWriters ts ts
| notified_broadcast ts : notified BroadcastReaders ts (wake_reader <$> ts).

Section programs.
Context {L : Type} `{RwLock L}.

Definition at_ (s : sys L) (i : Z) (t : tstate) : Prop := zget (threads s) i = Some t.

(** One thread takes one step.  The loop of [reader] starts again from
    [RdIdle], that of [writer] from [WrIdle]. *)
Inductive step (s : sys L) : sys L -> Prop :=
| step_read_begin i b l : at_ s i RdIdle -> read_begin (lk s) = Ok (b, l) ->
    step s (mkSys l (zset (threads s) i (if b then Reading else RdWait)) (shared_data s) (writes s))
| step_read_wake i : at_ s i RdWait ->
    step s (mkSys (lk s) (zset (threads s) i RdWoken) (shared_data s) (writes s))
| step_read_resume i b l : at_ s i RdWoken -> read_resume (lk s) = Ok (b, l) ->
    step s (mkSys l (zset (threads s) i (if b then Reading else RdWait)) (shared_data s) (writes s))
| step_read_unlock i n l ts : at_ s i Reading -> read_unlock (lk s) = Ok (n, l) ->
    notified n (zset (threads s) i RdIdle) ts -> step s (mkSys l ts (shared_data s) (writes s))
| step_write_begin i b l : at_ s i WrIdle -> write_begin (lk s) = Ok (b, l) ->
    step s (mkSys l (zset (threads s) i (if b then Writing else WrWait)) (shared_data s) (writes s))
| step_write_wake i : at_ s i WrWait ->
    step s (mkSys (lk s) (zset (threads s) i WrWoken) (shared_data s) (writes s))
| step_write_resume i b l : at_ s i WrWoken -> write_resume (lk s) = Ok (b, l) ->
    step s (mkSys l (zset (threads s) i (if b then Writing else WrWait)) (shared_data s) (writes s))
| step_load i : at_ s i Writing ->
    step s (mkSys (lk s) (zset (threads s) i (Loaded (shared_data s))) (shared_data s) (writes s))
| step_store i v v' : at_ s i (Loaded v) -> iadd v 1 = Ok v' ->
    step s (mkSys (lk s) (zset (threads s) i Written) v' (writes s + 1))
| step_write_unlock i n l ts : at_ s i Written -> write_unlock (lk s) = Ok (n, l) ->
    notified n (zset (threads s) i WrIdle) ts -> step s (mkSys l ts (shared_data s) (writes s)).

(** [main] initialises the lock and starts the readers, then the writers. *)
Definition start (num_readers num_writers : nat) : sys L :=
  mkSys lock_init (replicate num_readers RdIdle ++ replicate num_writers WrIdle) 0 0.

Definition reachable (num_readers num_writers : nat) (s : sys L) : Prop := rtc step (start num_readers num_writers) s.
End programs.

(** ** Counting threads *)

Definition is_reading (t : tstate) : Z := match t with Reading => 1 | _ => 0 end.
Definition is_rwait (t : tstate) : Z := match t with RdWait | RdWoken => 1 | _ => 0 end.
Definition is_rblocked (t : tstate) : Z := match t with RdWait => 1 | _ => 0 end.
Definition is_writing (t : tstate) : Z := match t with Writing | Loaded _ | Written => 1 | _ => 0 end.
Definition is_wwait (t : tstate) : Z := match t with WrWait | WrWoken => 1 | _ => 0 end.
Definition is_wwoken (t : tstate) : Z := match t with WrWoken => 1 | _ => 0 end.

Definition counts_of (ts : list tstate) : counts :=
  mkCounts (total is_reading ts) (total is_rwait ts) (total is_writing ts) (total is_wwait ts).

(** Readers and a writer, or two writers, never hold the lock together. *)
Definition exclusive (ts : list tstate) : Prop :=
  total is_writing ts <= 1 /\ (0 < total is_writing ts -> total is_reading ts = 0).

(** While nobody holds the lock, a thread that is blocked implies a writer that
    has been woken and will take it: no wakeup is lost. *)
Definition no_lost_wakeup (ts : list tstate) : Prop :=
  total is_reading ts = 0 -> total is_writing ts = 0 ->
  0 < total is_wwait ts \/ 0 < total is_rblocked ts -> 0 < total is_wwoken ts.

(** A thread that is not blocked in [pthread_cond_wait]. *)
Definition runnable (t : tstate) : bool := match t with RdWait | WrWait => false | _ => true end.

(** Every call of a lock function returns: no counter overflows. *)
Definition lock_returns {L} `{RwLock L} (s : sys L) : Prop :=
  forall i t, at_ s i t ->
    match t with
    | RdIdle => exists r, read_begin (lk s) = Ok r
    | RdWoken => exists r, read_resume (lk s) = Ok r
    | Reading => exists r, read_unlock (lk s) = Ok r
    | WrIdle => exists r, write_begin (lk s) = Ok r
    | WrWoken => exists r, write_resume (lk s) = Ok r
    | Written => exists r, write_unlock (lk s) = Ok r
    | _ => True
    end.

(** What a readers-writer lock has to guarantee in a state: readers and
    writers exclude each other, no increment of [shared_data] is lost, the
    threads are never all blocked, no wakeup is lost, and no call faults. *)
Definition lock_correct {L} `{RwLock L} (s : sys L) : Prop :=
  exclusive (threads s) /\ shared_data s = writes s /\ no_lost_wakeup (threads s) /\
  (threads s <> [] -> exists i t, at_ s i t /\ runnable t = true) /\ lock_returns s.

Lemma counts_bounds ts :
  0 <= total is_reading ts /\ 0 <= total is_rwait ts /\ 0 <= total is_writing ts /\ 0 <= total is_wwait ts /\
  total is_reading ts + total is_rwait ts + total is_writing ts + total is_wwait ts <= len ts /\
  0 <= total is_rblocked ts <= total is_rwait ts /\ 0 <= total is_wwoken ts <= total is_wwait ts.
Proof. induction ts as [|t ts IH]; simpl; [lia|]. destruct t; simpl; lia. Qed.

(** A thread that is in a state is counted in it; one that is in none leaves
    room for one more. *)
Lemma member_counts ts i t :
  zget ts i = Some t -> is_reading t <= total is_reading ts /\ is_rwait t <= total is_rwait ts /\
  is_writing t <= total is_writing ts /\ is_wwait t <= total is_wwait ts /\ is_rblocked t <= total is_rblocked ts.
Proof.
  intros E. split_and!; (apply (total_member _ _ i); [|exact E]);
    apply list.Forall_forall; intros x _; destruct x; simpl; lia.
Qed.

Lemma counts_room ts i t :
  zget ts i = Some t -> t = RdIdle \/ t = WrIdle ->
  total is_reading ts + total is_rwait ts + total is_writing ts + total is_wwait ts + 1 <= len ts.
Proof.
  intros E Ht. pose proof (counts_bounds (zset ts i Reading)) as Hc.
  rewrite length_zset, (total_zset is_reading _ _ _ _ E), (total_zset is_rwait _ _ _ _ E), (total_zset is_writing _ _ _ _ E), (total_zset is_wwait _ _ _ _ E) in Hc.
  destruct Ht as [-> | ->]; simpl in Hc; lia.
Qed.

(** Two different threads in a writing state are two writers. *)
Lemma two_writers ts i j t u :
  zget ts i = Some t -> zget ts j = Some u -> i <> j -> is_writing t = 1 -> is_writing u = 1 ->
  2 <= total is_writing ts.
Proof.
  intros Ei Ej Hne Ht Hu.
  assert (is_writing u <= total is_writing (zset ts i RdIdle)) as H.
  { apply (total_member is_writing _ j); [|by rewrite zget_zset_ne].
    apply list.Forall_forall. intros x _. destruct x; simpl; lia. }
  rewrite (total_zset _ _ _ _ _ Ei) in H. simpl in H. lia.
Qed.

Lemma notified_spec n ts ts' :
  notified n ts ts' ->
  length ts' = length ts /\
  (total is_reading ts' = total is_reading ts /\ total is_rwait ts' = total is_rwait ts /\
   total is_writing ts' = total is_writing ts /\ total is_wwait ts' = total is_wwait ts) /\
  total is_rblocked ts' <= total is_rblocked ts /\ total is_wwoken ts <= total is_wwoken ts' /\
  (n = BroadcastReaders -> total is_rblocked ts' = 0) /\
  (n = SignalWriters -> 0 < total is_wwait ts -> 0 < total is_wwoken ts') /\
  (forall j v, zget ts' j = Some (Loaded v) -> zget ts j = Some (Loaded v)).
Proof.
  intros [us|us k E|us Hno|us].
  - split_and!; (done || lia).
  - pose proof (counts_bounds us). rewrite length_zset, !(total_zset _ _ _ _ _ E). simpl. split_and!; try done; try lia.
    intros j v. rewrite zget_zset. case_cond; [done|done].
  - split_and!; try done; try lia. intros _ Hw.
    assert (total is_wwait us = total is_wwoken us) as Heq; [|lia]. clear Hw.
    induction us as [|t us IH]; simpl; [done|]. rewrite IH by (intros ?; apply Hno; by right).
    destruct t; try done. exfalso. apply Hno. left.
  - assert (forall f, (forall t, f (wake_reader t) = f t) -> total f (wake_reader <$> us) = total f us) as Hf.
    { intros f Hf. induction us as [|t us IH]; csimpl; [done|]. by rewrite Hf, IH. }
    rewrite length_fmap, (Hf is_reading), (Hf is_rwait), (Hf is_writing), (Hf is_wwait), (Hf is_wwoken) by (by intros []).
    assert (total is_rblocked (wake_reader <$> us) = 0) as Hz.
    { clear. induction us as [|t us IH]; csimpl; [done|]. rewrite IH. by destruct t. }
    pose proof (counts_bounds us). split_and!; try done; try lia.
    intros j v. rewrite zget_fmap. intros (t & E & Ht)%fmap_Some. by destruct t; simplify_eq/=.
Qed.

Section invariant.
Context {L : Type} `{RwLockLaws L}.

Record sys_inv (n : nat) (s : sys L) : Prop := {
  i_len : length (threads s) = n;
  i_rep : represents (lk s) (counts_of (threads s));
  i_excl : exclusive (threads s);
  i_readers : total is_writing (threads s) = 0 -> total is_wwait (threads s) = 0 -> total is_rblocked (threads s) = 0;
  i_writers : total is_reading (threads s) = 0 -> total is_writing (threads s) = 0 ->
    0 < total is_wwait (threads s) -> 0 < total is_wwoken (threads s);
  i_data : shared_data s = writes s;
  i_loaded : forall i v, at_ s i (Loaded v) -> v = shared_data s
}.

Lemma loaded_zset ts i t j v :
  zget (zset ts i t) j = Some (Loaded v) -> (forall w, t <> Loaded w) -> zget ts j = Some (Loaded v).
Proof. rewrite zget_zset. case_cond; [|done]. intros [= ->] Hn. by destruct (Hn v). Qed.

(** The numbers of threads after thread [i] went from [t] to [t']. *)
Lemma counts_zset ts i t t' :
  zget ts i = Some t ->
  counts_of (zset ts i t') =
    mkCounts (total is_reading ts - is_reading t + is_reading t') (total is_rwait ts - is_rwait t + is_rwait t')
      (total is_writing ts - is_writing t + is_writing t') (total is_wwait ts - is_wwait t + is_wwait t').
Proof. intros E. unfold counts_of. by rewrite !(total_zset _ _ _ _ _ E). Qed.

(** A thread that was not writing and now is in state [t']. *)
Lemma inv_move n s i t t' l :
  sys_inv n s -> at_ s i t -> is_writing t = 0 -> (forall v, t' <> Loaded v) ->
  represents l (counts_of (zset (threads s) i t')) -> exclusive (zset (threads s) i t') ->
  (total is_writing (zset (threads s) i t') = 0 -> total is_wwait (zset (threads s) i t') = 0 ->
   total is_rblocked (zset (threads s) i t') = 0) ->
  (total is_reading (zset (threads s) i t') = 0 -> total is_writing (zset (threads s) i t') = 0 ->
   0 < total is_wwait (zset (threads s) i t') -> 0 < total is_wwoken (zset (threads s) i t')) ->
  sys_inv n (mkSys l (zset (threads s) i t') (shared_data s) (writes s)).
Proof.
  intros [] Hi Ht Hnl Hrep Hex HQ HP. constructor; cbn [threads lk shared_data writes]; try done.
  - by rewrite length_zset.
  - intros j v E. apply (i_loaded0 j). by eapply loaded_zset.
Qed.

Ltac step_totals E :=
  repeat match goal with
  | |- context [total ?f (zset ?ts ?i ?t)] => rewrite (total_zset f ts i _ t E)
  end; cbn [is_reading is_rwait is_rblocked is_writing is_wwait is_wwoken].

Lemma read_enter_inv n s i t (b : bool) l :
  sys_inv n s -> at_ s i t -> t = RdIdle \/ t = RdWoken ->
  (if b then total is_writing (threads s) <= 0 /\
     represents l (counts_of (zset (threads s) i Reading))
   else (0 < total is_writing (threads s) \/ 0 < total is_wwait (threads s)) /\
     represents l (counts_of (zset (threads s) i RdWait))) ->
  sys_inv n (mkSys l (zset (threads s) i (if b then Reading else RdWait)) (shared_data s) (writes s)).
Proof.
  intros Hinv E Ht Hb. pose proof (counts_bounds (threads s)) as Hc. pose proof Hinv as [_ _ [Hx1 Hx2] HQ HP _ _].
  destruct b, Hb as [Hw Hrep]; (eapply inv_move; [exact Hinv|exact E|by destruct Ht as [-> | ->]|done|exact Hrep|..]);
    unfold exclusive; step_totals E; destruct Ht as [-> | ->];
    cbn [is_reading is_rwait is_rblocked is_writing is_wwait is_wwoken]; lia.
Qed.

Lemma write_enter_inv n s i t (b : bool) l :
  sys_inv n s -> at_ s i t -> t = WrIdle \/ t = WrWoken ->
  (if b then total is_reading (threads s) <= 0 /\ total is_writing (threads s) <= 0 /\
     represents l (counts_of (zset (threads s) i Writing))
   else (0 < total is_reading (threads s) \/ 0 < total is_writing (threads s)) /\
     represents l (counts_of (zset (threads s) i WrWait))) ->
  sys_inv n (mkSys l (zset (threads s) i (if b then Writing else WrWait)) (shared_data s) (writes s)).
Proof.
  intros Hinv E Ht Hb. pose proof (counts_bounds (threads s)) as Hc. pose proof Hinv as [_ _ [Hx1 Hx2] HQ HP _ _].
  destruct b; [destruct Hb as (Hw & Hw' & Hrep)|destruct Hb as [Hw Hrep]];
    (eapply inv_move; [exact Hinv|exact E|by destruct Ht as [-> | ->]|done|exact Hrep|..]);
    unfold exclusive; step_totals E; destruct Ht as [-> | ->];
    cbn [is_reading is_rwait is_rblocked is_writing is_wwait is_wwoken]; lia.
Qed.

(** A thread leaves: it becomes idle, then the others are notified. *)
Lemma leave_inv n s i t t' no l ts :
  sys_inv n s -> at_ s i t -> t = Reading /\ t' = RdIdle \/ t = Written /\ t' = WrIdle ->
  represents l (counts_of (zset (threads s) i t')) -> notified no (zset (threads s) i t') ts ->
  (t = Reading -> no = if (total is_reading (threads s) - 1 =? 0) && (0 <? total is_wwait (threads s))
                       then SignalWriters else NoSignal) ->
  (t = Written -> if 0 <? total is_wwait (threads s) then no = SignalWriters
                  else no = BroadcastReaders \/ no = NoSignal /\ total is_rwait (threads s) <= 0) ->
  sys_inv n (mkSys l ts (shared_data s) (writes s)).
Proof.
  intros Hinv E Ht Hrep Hno Hrd Hwr. pose proof (counts_bounds (threads s)) as Hc.
  pose proof Hinv as [Hlen _ [Hx1 Hx2] HQ HP Hd Hl].
  destruct (notified_spec _ _ _ Hno) as (Hlen' & (N1 & N2 & N3 & N4) & N5 & N6 & N7 & N8 & N9).
  assert (counts_of ts = counts_of (zset (threads s) i t')) as Hcts by (unfold counts_of; by rewrite N1, N2, N3, N4).
  rewrite length_zset in Hlen'. repeat match goal with H : context [total ?f (zset _ _ _)] |- _ => rewrite (total_zset f _ _ _ _ E) in H end.
  pose proof (counts_bounds ts) as Hc'.
  constructor; cbn [threads lk shared_data writes].
  - lia.
  - by rewrite Hcts.
  - unfold exclusive. destruct Ht as [[-> ->]|[-> ->]]; cbn in *; lia.
  - destruct Ht as [[-> ->]|[-> ->]]; cbn in *; [lia|]. specialize (Hwr eq_refl). intros H1 H2.
    destruct (Z.ltb_spec 0 (total is_wwait (threads s))); [lia|]. destruct Hwr as [Hwr|[Hwr ?]]; [auto|lia].
  - destruct Ht as [[-> ->]|[-> ->]]; cbn in *.
    + specialize (Hrd eq_refl). intros H1 H2 H3. apply N8; [|lia]. rewrite Hrd.
      destruct (Z.eqb_spec (total is_reading (threads s) - 1) 0); [|lia].
      destruct (Z.ltb_spec 0 (total is_wwait (threads s))); [done|lia].
    + specialize (Hwr eq_refl). intros H1 H2 H3. destruct (Z.ltb_spec 0 (total is_wwait (threads s))); [|lia].
      apply N8; [done|lia].
  - done.
  - intros j v Ej. apply (Hl j). apply N9 in Ej. eapply loaded_zset; [done|]. destruct Ht as [[-> ->]|[-> ->]]; done.
Qed.

Lemma start_inv nr nw : sys_inv (nr + nw) (start nr nw).
Proof.
  assert (forall f, f RdIdle = 0 -> f WrIdle = 0 -> total f (threads (start nr nw)) = 0) as Hz.
  { intros f Hr Hw. unfold start; cbn [threads]. rewrite field_total_app.
    assert (forall t k, f t = 0 -> total f (replicate k t) = 0) as Hk
      by (intros t k Ht; induction k as [|k IH]; simpl; lia).
    rewrite !Hk; done. }
  constructor; unfold exclusive, counts_of; rewrite ?Hz by done; try lia; try done.
  - simpl. by rewrite length_app, !length_replicate.
  - apply init_law.
  - intros i v E. exfalso. assert (Loaded v ∈ threads (start nr nw)) as Hin by (apply elem_of_zget; by exists i).
    revert Hin. unfold start; cbn [threads]. rewrite elem_of_app. intros [[? _]%elem_of_replicate|[? _]%elem_of_replicate]; done.
Qed.

(** The steps that do not touch the lock's fields: a wakeup, and the two
    halves of [shared_data++]. *)
Lemma wake_inv n s i t t' :
  sys_inv n s -> at_ s i t -> t = RdWait /\ t' = RdWoken \/ t = WrWait /\ t' = WrWoken ->
  sys_inv n (mkSys (lk s) (zset (threads s) i t') (shared_data s) (writes s)).
Proof.
  intros Hinv E Ht. pose proof (counts_bounds (threads s)) as Hc. pose proof (member_counts _ _ _ E) as Hm.
  pose proof Hinv as [_ Hrep [Hx1 Hx2] HQ HP _ _].
  eapply inv_move; [done|exact E|by destruct Ht as [[-> ->]|[-> ->]]|by destruct Ht as [[-> ->]|[-> ->]]|..];
    unfold exclusive; step_totals E.
  - rewrite (counts_zset _ _ _ _ E).
    replace (mkCounts _ _ _ _) with (counts_of (threads s)); [done|].
    unfold counts_of. destruct Ht as [[-> ->]|[-> ->]]; cbn; f_equal; lia.
  - destruct Ht as [[-> ->]|[-> ->]]; cbn in *; lia.
  - destruct Ht as [[-> ->]|[-> ->]]; cbn in *; lia.
  - destruct Ht as [[-> ->]|[-> ->]]; cbn in *; lia.
Qed.

(** A writer goes on: no count changes. *)
Lemma writer_inv n s i t t' d k :
  sys_inv n s -> at_ s i t -> is_writing t = 1 -> is_writing t' = 1 -> d = k ->
  (forall v, t' = Loaded v -> v = d) ->
  sys_inv n (mkSys (lk s) (zset (threads s) i t') d k).
Proof.
  intros Hinv E Ht Ht' -> Hv. pose proof Hinv as [Hlen Hrep [Hx1 Hx2] HQ HP Hd Hl].
  assert (forall f, f t = f t' -> total f (zset (threads s) i t') = total f (threads s)) as Hf
    by (intros f Hf; rewrite (total_zset _ _ _ _ _ E); lia).
  assert (counts_of (zset (threads s) i t') = counts_of (threads s)) as Hcts.
  { unfold counts_of. f_equal; apply Hf; by destruct t, t'. }
  constructor; cbn [threads lk shared_data writes]; rewrite ?Hcts; unfold exclusive;
    rewrite ?Hf by (by destruct t, t'); try done.
  - by rewrite length_zset.
  - intros j v Ej. unfold at_ in Ej; cbn [threads] in Ej. destruct (decide (i = j)) as [<-|Hne].
    + rewrite zget_zset_eq in Ej by (by eapply zget_Some_range). naive_solver.
    + rewrite zget_zset_ne in Ej by done. pose proof (two_writers _ _ _ _ _ E Ej Hne Ht eq_refl). lia.
Qed.

(** The operations of the lock, at the point where a thread of the program
    calls them: they return, and account for the thread. *)
Section operations.
Context (n : nat) (s : sys L) (i : Z) (Hn : Z.of_nat n <= INT_MAX) (Hinv : sys_inv n s).

Ltac at_point E :=
  pose proof (i_len _ _ Hinv); destruct (i_excl _ _ Hinv); pose proof (counts_bounds (threads s));
  let H := fresh in pose proof (member_counts _ _ _ E) as H;
  cbn [is_reading is_rwait is_rblocked is_writing is_wwait is_wwoken] in H.

Ltac use_law law E :=
  edestruct law as (? & ? & Hop & Hpost);
  [exact (i_rep _ _ Hinv)|unfold counts_ok; cbn; lia|lia..|];
  eexists _, _; split; [exact Hop|]; clear Hop;
  rewrite ?(counts_zset _ _ _ _ E); cbn [is_reading is_rwait is_rblocked is_writing is_wwait is_wwoken];
  rewrite ?Z.sub_0_r, ?Z.add_0_r, ?Z.sub_add.

Lemma read_begin_at : at_ s i RdIdle ->
  exists b l, read_begin (lk s) = Ok (b, l) /\
    if b then total is_writing (threads s) <= 0 /\ represents l (counts_of (zset (threads s) i Reading))
    else (0 < total is_writing (threads s) \/ 0 < total is_wwait (threads s)) /\
      represents l (counts_of (zset (threads s) i RdWait)).
Proof.
  intros E. at_point E. pose proof (counts_room _ _ _ E ltac:(by left)).
  use_law read_begin_law E. exact Hpost.
Qed.

Lemma read_resume_at : at_ s i RdWoken ->
  exists b l, read_resume (lk s) = Ok (b, l) /\
    if b then total is_writing (threads s) <= 0 /\ represents l (counts_of (zset (threads s) i Reading))
    else (0 < total is_writing (threads s) \/ 0 < total is_wwait (threads s)) /\
      represents l (counts_of (zset (threads s) i RdWait)).
Proof. intros E. at_point E. use_law read_resume_law E. exact Hpost. Qed.

Lemma read_unlock_at : at_ s i Reading ->
  exists no l, read_unlock (lk s) = Ok (no, l) /\ represents l (counts_of (zset (threads s) i RdIdle)) /\
    no = if (total is_reading (threads s) - 1 =? 0) && (0 <? total is_wwait (threads s))
         then SignalWriters else NoSignal.
Proof. intros E. at_point E. use_law read_unlock_law E. exact Hpost. Qed.

Lemma write_begin_at : at_ s i WrIdle ->
  exists b l, write_begin (lk s) = Ok (b, l) /\
    if b then total is_reading (threads s) <= 0 /\ total is_writing (threads s) <= 0 /\
      represents l (counts_of (zset (threads s) i Writing))
    else (0 < total is_reading (threads s) \/ 0 < total is_writing (threads s)) /\
      represents l (counts_of (zset (threads s) i WrWait)).
Proof.
  intros E. at_point E. pose proof (counts_room _ _ _ E ltac:(by right)).
  use_law write_begin_law E. exact Hpost.
Qed.

Lemma write_resume_at : at_ s i WrWoken ->
  exists b l, write_resume (lk s) = Ok (b, l) /\
    if b then total is_reading (threads s) <= 0 /\ total is_writing (threads s) <= 0 /\
      represents l (counts_of (zset (threads s) i Writing))
    else (0 < total is_reading (threads s) \/ 0 < total is_writing (threads s)) /\
      represents l (counts_of (zset (threads s) i WrWait)).
Proof. intros E. at_point E. use_law write_resume_law E. exact Hpost. Qed.

Lemma write_unlock_at : at_ s i Written ->
  exists no l, write_unlock (lk s) = Ok (no, l) /\ represents l (counts_of (zset (threads s) i WrIdle)) /\
    if 0 <? total is_wwait (threads s) then no = SignalWriters
    else no = BroadcastReaders \/ no = NoSignal /\ total is_rwait (threads s) <= 0.
Proof. intros E. at_point E. use_law write_unlock_law E. exact Hpost. Qed.
End operations.

(** Every step preserves the invariant. *)
Lemma step_inv n s s' : Z.of_nat n <= INT_MAX -> sys_inv n s -> step s s' -> sys_inv n s'.
Proof.
  intros Hn Hinv Hs. destruct Hs as [i b l E Hop|i E|i b l E Hop|i no l ts E Hop Hno|i b l E Hop|i E|i b l E Hop|i E
    |i v v' E Hv|i no l ts E Hop Hno].
  - destruct (read_begin_at n s i) as (? & ? & Hat & ?); [done..|]. rewrite Hat in Hop. simplify_eq.
    eapply read_enter_inv; [done|exact E|by left|done].
  - eapply wake_inv; [done|exact E|by left].
  - destruct (read_resume_at n s i) as (? & ? & Hat & ?); [done..|]. rewrite Hat in Hop. simplify_eq.
    eapply read_enter_inv; [done|exact E|by right|done].
  - destruct (read_unlock_at n s i) as (? & ? & Hat & ? & ?); [done..|]. rewrite Hat in Hop. simplify_eq.
    eapply leave_inv; [done|exact E|by left|done..].
  - destruct (write_begin_at n s i) as (? & ? & Hat & ?); [done..|]. rewrite Hat in Hop. simplify_eq.
    eapply write_enter_inv; [done|exact E|by left|done].
  - eapply wake_inv; [done|exact E|by right].
  - destruct (write_resume_at n s i) as (? & ? & Hat & ?); [done..|]. rewrite Hat in Hop. simplify_eq.
    eapply write_enter_inv; [done|exact E|by right|done].
  - eapply writer_inv; [done|exact E|done|done|apply Hinv|]. by intros v [= ->].
  - eapply writer_inv; [done|exact E|done|done| |done].
    pose proof (i_loaded _ _ Hinv i v E). pose proof (i_data _ _ Hinv). apply iadd_inv in Hv. lia.
  - destruct (write_unlock_at n s i) as (? & ? & Hat & ? & ?); [done..|]. rewrite Hat in Hop. simplify_eq.
    eapply leave_inv; [done|exact E|by right|done..].
Qed.

Lemma reachable_inv nr nw s :
  Z.of_nat (nr + nw) <= INT_MAX -> reachable nr nw s -> sys_inv (nr + nw) s.
Proof.
  intros Hn Hr. unfold reachable in Hr. pose proof (start_inv nr nw) as Hi. revert Hi.
  generalize (start nr nw) as s0, Hr. intros s0 Hr0. induction Hr0 as [|s1 s2 s3 Hs _ IH]; [done|].
  intros Hi. apply IH; [done|]. by eapply step_inv.
Qed.

Lemma all_blocked_counts ts :
  Forall (fun t => runnable t = false) ts ->
  total is_reading ts = 0 /\ total is_writing ts = 0 /\ total is_wwoken ts = 0 /\
  total is_wwait ts + total is_rblocked ts = len ts.
Proof. induction 1 as [|t ts Ht _ IH]; simpl; [lia|]. destruct t; simpl in *; (done || lia). Qed.

Lemma inv_correct n s : Z.of_nat n <= INT_MAX -> sys_inv n s -> lock_correct s.
Proof.
  intros Hn Hinv. pose proof Hinv as [Hlen Hrep Hx HQ HP Hd Hl].
  pose proof (counts_bounds (threads s)) as Hc.
  assert (no_lost_wakeup (threads s)) as Hno by (unfold no_lost_wakeup; lia).
  split_and!; [done..| |].
  - intros Hne. destruct (decide (Forall (fun t => runnable t = false) (threads s))) as [Hall|Hall].
    + destruct (all_blocked_counts _ Hall) as (? & ? & ? & ?).
      assert (0 < len (threads s)) by (destruct (threads s); [done|simpl; lia]).
      unfold no_lost_wakeup in Hno. lia.
    + apply not_Forall_Exists in Hall; [|apply _]. apply Exists_exists in Hall as (t & Ht & Hb).
      apply elem_of_zget in Ht as [i Hi]. exists i, t. split; [done|]. destruct (runnable t) eqn:Hrun; [done|]. by destruct Hb.
  - intros i t E. destruct t; try done.
    + destruct (read_begin_at n s i) as (? & ? & -> & _); eauto.
    + destruct (write_begin_at n s i) as (? & ? & -> & _); eauto.
    + destruct (read_resume_at n s i) as (? & ? & -> & _); eauto.
    + destruct (read_unlock_at n s i) as (? & ? & -> & _); eauto.
    + destruct (write_resume_at n s i) as (? & ? & -> & _); eauto.
    + destruct (write_unlock_at n s i) as (? & ? & -> & _); eauto.
Qed.
End invariant.

(** Evaluates an operation on counters that do not overflow. *)
Ltac run_op :=
  unfold counts_ok in *; cbn in *;
  repeat first
    [ rewrite iadd_Ok by (unfold INT_MIN, INT_MAX in *; lia)
    | rewrite isub_Ok by (unfold INT_MIN, INT_MAX in *; lia)
    | rewrite bind_ret_l | progress cbn | case_cond ];
  eexists _, _; (split; [reflexivity|]); cbn;
  split_and?; first [done | lia | f_equal; lia | left; done | right; split; [done|lia] | intros; (discriminate || lia) | solve [auto]].

(** ** [writeStarvation.c] *)
Module WritePref.

Record write_pref_rwlock_t : Type := mkLock {
  active_readers : Z;
  waiting_readers : Z;
  active_writers : Z;
  waiting_writers : Z
}.

Definition write_pref_rwlock_init : write_pref_rwlock_t := mkLock 0 0 0 0.

(** The loop of [read_lock], with the mutex held. *)
Definition read_lock_loop (l : write_pref_rwlock_t) : res (bool * write_pref_rwlock_t) :=
  if (0 <? active_writers l) || (0 <? waiting_writers l) then
    wr ← iadd (waiting_readers l) 1;
    Ok (false, mkLock (active_readers l) wr (active_writers l) (waiting_writers l))
  else
    ar ← iadd (active_readers l) 1;
    Ok (true, mkLock ar (waiting_readers l) (active_writers l) (waiting_writers l)).

Definition write_pref_rwlock_read_wake (l : write_pref_rwlock_t) : res (bool * write_pref_rwlock_t) :=
  wr ← isub (waiting_readers l) 1;
  read_lock_loop (mkLock (active_readers l) wr (active_writers l) (waiting_writers l)).

Definition write_pref_rwlock_read_unlock (l : write_pref_rwlock_t) : res (notify * write_pref_rwlock_t) :=
  ar ← isub (active_readers l) 1;
  let l' := mkLock ar (waiting_readers l) (active_writers l) (waiting_writers l) in
  Ok (if (ar =? 0) && (0 <? waiting_writers l) then SignalWriters else NoSignal, l').

(** The loop of [write_lock], with the mutex held. *)
Definition write_lock_loop (l : write_pref_rwlock_t) : res (bool * write_pref_rwlock_t) :=
  if (0 <? active_readers l) || (0 <? active_writers l) then
    ww ← iadd (waiting_writers l) 1;
    Ok (false, mkLock (active_readers l) (waiting_readers l) (active_writers l) ww)
  else
    aw ← iadd (active_writers l) 1;
    Ok (true, mkLock (active_readers l) (waiting_readers l) aw (waiting_writers l)).

Definition write_pref_rwlock_write_wake (l : write_pref_rwlock_t) : res (bool * write_pref_rwlock_t) :=
  ww ← isub (waiting_writers l) 1;
  write_lock_loop (mkLock (active_readers l) (waiting_readers l) (active_writers l) ww).

Definition write_pref_rwlock_write_unlock (l : write_pref_rwlock_t) : res (notify * write_pref_rwlock_t) :=
  aw ← isub (active_writers l) 1;
  let l' := mkLock (active_readers l) (waiting_readers l) aw (waiting_writers l) in
  Ok (if 0 <? waiting_writers l then SignalWriters
      else if 0 <? waiting_readers l then BroadcastReaders else NoSignal, l').

#[export] Instance write_pref_lock : RwLock write_pref_rwlock_t := {
  lock_init := write_pref_rwlock_init;
  read_begin := read_lock_loop;
  read_resume := write_pref_rwlock_read_wake;
  read_unlock := write_pref_rwlock_read_unlock;
  write_begin := write_lock_loop;
  write_resume := write_pref_rwlock_write_wake;
  write_unlock := write_pref_rwlock_write_unlock
}.

(** The counters are exactly the numbers of threads in each state. *)
Definition lock_of (l : write_pref_rwlock_t) (c : counts) : Prop :=
  l = mkLock (c_reading c) (c_rwait c) (c_writing c) (c_wwait c).

#[export] Instance write_pref_laws : RwLockLaws write_pref_rwlock_t.
Proof.
  apply (Build_RwLockLaws _ _ lock_of); unfold lock_of.
  - done.
  - intros l r rw w ww -> Hok. unfold read_begin, write_pref_lock, read_lock_loop. run_op.
  - intros l r rw w ww -> Hok Hrw. unfold read_resume, write_pref_lock, write_pref_rwlock_read_wake, read_lock_loop. run_op.
  - intros l r rw w ww -> Hok Hr. unfold read_unlock, write_pref_lock, write_pref_rwlock_read_unlock. run_op.
  - intros l r rw w ww -> Hok Hw Hww. unfold write_begin, write_pref_lock, write_lock_loop. run_op.
  - intros l r rw w ww -> Hok Hww Hw.
    unfold write_resume, write_pref_lock, write_pref_rwlock_write_wake, write_lock_loop. run_op.
  - intros l r rw w ww -> Hok Hw. unfold write_unlock, write_pref_lock, write_pref_rwlock_write_unlock. run_op.
Defined.

(** C14.  In every state the threads of [writeStarvation.c] can reach, whatever their
    interleaving and spurious wakeups: a writer excludes readers and other
    writers, no increment of [shared_data] is lost, blocked threads imply a
    woken writer once the lock is free, some thread is runnable, and no lock
    function overflows a counter. *)
Theorem write_pref_lock_correct nr nw (s : sys write_pref_rwlock_t) :
  Z.of_nat (nr + nw) <= INT_MAX -> reachable nr nw s -> lock_correct s.
Proof. intros Hn Hr. eapply inv_correct; [exact Hn|]. by apply reachable_inv. Qed.

Lemma write_pref_lock_correct_witness :
  let s := mkSys (mkLock 0 1 1 0) [RdWait; Loaded 0] 0 0 in reachable 1 1 s /\ lock_correct s.
Proof.
  intros s. assert (reachable 1 1 s) as Hr.
  { eapply rtc_l; [apply (step_write_begin _ 1 true (mkLock 0 0 1 0)); reflexivity|].
    eapply rtc_l; [apply (step_load _ 1); reflexivity|].
    eapply rtc_l; [apply (step_read_begin _ 0 false (mkLock 0 1 1 0)); reflexivity|]. apply rtc_refl. }
  split; [exact Hr|]. apply (write_pref_lock_correct 1 1); [discriminate|exact Hr].
Defined.
End WritePref.

(** ** [aggressiveWriter.c] *)
Module Aggressive.

Record aggressive_write_pref_rwlock_t : Type := mkLock {
  active_readers : Z;
  waiting_readers : Z;
  active_writers : Z;
  waiting_writers : Z;
  writer_waiting : bool
}.

Definition aggressive_write_pref_rwlock_init : aggressive_write_pref_rwlock_t := mkLock 0 0 0 0 false.

(** The loop of [read_lock], with the mutex held. *)
Definition read_lock_loop (l : aggressive_write_pref_rwlock_t) : res (bool * aggressive_write_pref_rwlock_t) :=
  if (0 <? active_writers l) || writer_waiting l then
    wr ← iadd (waiting_readers l) 1;
    Ok (false, mkLock (active_readers l) wr (active_writers l) (waiting_writers l) (writer_waiting l))
  else
    ar ← iadd (active_readers l) 1;
    Ok (true, mkLock ar (waiting_readers l) (active_writers l) (waiting_writers l) (writer_waiting l)).

Definition aggressive_read_wake (l : aggressive_write_pref_rwlock_t) : res (bool * aggressive_write_pref_rwlock_t) :=
  wr ← isub (waiting_readers l) 1;
  read_lock_loop (mkLock (active_readers l) wr (active_writers l) (waiting_writers l) (writer_waiting l)).

Definition aggressive_write_pref_rwlock_read_unlock (l : aggressive_write_pref_rwlock_t) :
    res (notify * aggressive_write_pref_rwlock_t) :=
  ar ← isub (active_readers l) 1;
  Ok (if (ar =? 0) && (0 <? waiting_writers l) then
        (SignalWriters, mkLock ar (waiting_readers l) (active_writers l) (waiting_writers l) true)
      else (NoSignal, mkLock ar (waiting_readers l) (active_writers l) (waiting_writers l) (writer_waiting l))).

(** The loop of [write_lock]: a waiting writer stays counted. *)
Definition write_lock_loop (l : aggressive_write_pref_rwlock_t) : res (bool * aggressive_write_pref_rwlock_t) :=
  if (0 <? active_readers l) || (0 <? active_writers l) then
    Ok (false, mkLock (active_readers l) (waiting_readers l) (active_writers l) (waiting_writers l) true)
  else
    ww ← isub (waiting_writers l) 1;
    aw ← iadd (active_writers l) 1;
    Ok (true, mkLock (active_readers l) (waiting_readers l) aw ww false).

Definition aggressive_write_pref_rwlock_write_lock (l : aggressive_write_pref_rwlock_t) :
    res (bool * aggressive_write_pref_rwlock_t) :=
  ww ← iadd (waiting_writers l) 1;
  write_lock_loop (mkLock (active_readers l) (waiting_readers l) (active_writers l) ww (writer_waiting l)).

Definition aggressive_write_pref_rwlock_write_unlock (l : aggressive_write_pref_rwlock_t) :
    res (notify * aggressive_write_pref_rwlock_t) :=
  aw ← isub (active_writers l) 1;
  let l' := mkLock (active_readers l) (waiting_readers l) aw (waiting_writers l) (writer_waiting l) in
  Ok (if 0 <? waiting_writers l then SignalWriters else BroadcastReaders, l').

#[export] Instance aggressive_lock : RwLock aggressive_write_pref_rwlock_t := {
  lock_init := aggressive_write_pref_rwlock_init;
  read_begin := read_lock_loop;
  read_resume := aggressive_read_wake;
  read_unlock := aggressive_write_pref_rwlock_read_unlock;
  write_begin := aggressive_write_pref_rwlock_write_lock;
  write_resume := write_lock_loop;
  write_unlock := aggressive_write_pref_rwlock_write_unlock
}.

(** The counters are the numbers of threads; the flag is only up while a
    writer waits. *)
Definition lock_of (l : aggressive_write_pref_rwlock_t) (c : counts) : Prop :=
  l = mkLock (c_reading c) (c_rwait c) (c_writing c) (c_wwait c) (writer_waiting l) /\
  (writer_waiting l = true -> 0 < c_wwait c).

Ltac intro_lock l :=
  intros l r rw w ww [Hl Hf]; destruct l as [x1 x2 x3 x4 f]; cbn in Hl, Hf; injection Hl as -> -> -> ->; intros Hok.

#[export] Instance aggressive_laws : RwLockLaws aggressive_write_pref_rwlock_t.
Proof.
  apply (Build_RwLockLaws _ _ lock_of); unfold lock_of.
  - done.
  - intro_lock l. unfold read_begin, aggressive_lock, read_lock_loop. destruct f; run_op.
  - intro_lock l. intros Hrw. unfold read_resume, aggressive_lock, aggressive_read_wake, read_lock_loop. destruct f; run_op.
  - intro_lock l. intros Hr. unfold read_unlock, aggressive_lock, aggressive_write_pref_rwlock_read_unlock. run_op.
  - intro_lock l. intros Hw Hww.
    unfold write_begin, aggressive_lock, aggressive_write_pref_rwlock_write_lock, write_lock_loop. run_op.
  - intro_lock l. intros Hww Hw. unfold write_resume, aggressive_lock, write_lock_loop. run_op.
  - intro_lock l. intros Hw. unfold write_unlock, aggressive_lock, aggressive_write_pref_rwlock_write_unlock. run_op.
Defined.

(** The same guarantees for [aggressiveWriter.c], in which readers wait on the
    flag [writer_waiting] instead of the number of waiting writers. *)
Theorem aggressive_lock_correct nr nw (s : sys aggressive_write_pref_rwlock_t) :
  Z.of_nat (nr + nw) <= INT_MAX -> reachable nr nw s -> lock_correct s.
Proof. intros Hn Hr. eapply inv_correct; [exact Hn|]. by apply reachable_inv. Qed.

Lemma aggressive_lock_correct_witness :
  let s := mkSys (mkLock 1 0 0 1 true) [Reading; WrWait] 0 0 in reachable 1 1 s /\ lock_correct s.
Proof.
  intros s. assert (reachable 1 1 s) as Hr.
  { eapply rtc_l; [apply (step_read_begin _ 0 true (mkLock 1 0 0 0 false)); reflexivity|].
    eapply rtc_l; [apply (step_write_begin _ 1 false (mkLock 1 0 0 1 true)); reflexivity|]. apply rtc_refl. }
  split; [exact Hr|]. apply (aggressive_lock_correct 1 1); [discriminate|exact Hr].
Defined.
End Aggressive.
