(* ===== verification/UpgradeLock.v ===== *)
(** * Upgradeable readers-writer lock ([concurrency/threads/upgradeableReadLocks.c])

    A thread takes the lock for reading and may upgrade to writing while it
    holds it.  As in [RwLocks], the code between two points where a thread
    holds the mutex is one step.  An upgraded thread excludes all others, and
    no increment is lost; but [writers] is never incremented, so that
    [read_unlock] signals nobody, and two threads that upgrade wait for each
    other for ever. *)
From Stdlib Require Import ZArith Lia.
From stdpp Require Import base tactics list numbers option relations.
From S2P Require Import Prelude.

#[local] Open Scope Z_scope.
#[local] Open Scope c_scope.

(** ** The lock *)

Record upgradeable_rwlock_t : Type := mkLock {
  readers : Z;
  writers : Z;
  upgraders : Z;
  is_writing : bool
}.

Definition upgradeable_rwlock_init : upgradeable_rwlock_t := mkLock 0 0 0 false.

(** The condition variable a critical section signals. *)
Inductive wakeup : Type := NoWakeup | SignalWritersCond | BroadcastReadersCond.

(** The loop of [read_lock] from a point where the mutex is held: enter
    ([true]), or wait on [readers_cond] ([false]). *)
Definition upgradeable_rwlock_read_lock (l : upgradeable_rwlock_t) : res (bool * upgradeable_rwlock_t) :=
  if (0 <? writers l) || is_writing l then Ok (false, l)
  else
    r ← iadd (readers l) 1;
    Ok (true, mkLock r (writers l) (upgraders l) (is_writing l)).

Definition upgradeable_rwlock_read_unlock (l : upgradeable_rwlock_t) : res (wakeup * upgradeable_rwlock_t) :=
  r ← isub (readers l) 1;
  Ok (if (r =? 0) && (0 <? writers l) then SignalWritersCond else NoWakeup,
      mkLock r (writers l) (upgraders l) (is_writing l)).

(** The loop of [upgrade] from a point where the mutex is held. *)
Definition upgrade_loop (l : upgradeable_rwlock_t) : res (bool * upgradeable_rwlock_t) :=
  if (1 <? readers l) || (0 <? writers l) || is_writing l then Ok (false, l)
  else
    r ← isub (readers l) 1;
    u ← isub (upgraders l) 1;
    Ok (true, mkLock r (writers l) u true).

Definition upgradeable_rwlock_upgrade (l : upgradeable_rwlock_t) : res (bool * upgradeable_rwlock_t) :=
  u ← iadd (upgraders l) 1;
  upgrade_loop (mkLock (readers l) (writers l) u (is_writing l)).

Definition upgradeable_rwlock_write_unlock (l : upgradeable_rwlock_t) : wakeup * upgradeable_rwlock_t :=
  (if 0 <? upgraders l then SignalWritersCond
   else if 0 <? writers l then SignalWritersCond else BroadcastReadersCond,
   mkLock (readers l) (writers l) (upgraders l) false).

(** ** The threads *)

Inductive ustate : Type :=
| UIdle
| URdWait
| URdWoken
| UReading
| UUpWait
| UUpWoken
| UWriting
| ULoaded (v : Z)
| UWritten.
#[export] Instance ustate_eq_dec : EqDecision ustate.
Proof. solve_decision. Defined.

Definition uwake_reader (t : ustate) : ustate := match t with URdWait => URdWoken | _ => t end.

Inductive woken : wakeup -> list ustate -> list ustate -> Prop :=
| woken_none ts : woken NoWakeup ts ts
| woken_signal ts j : zget ts j = Some UUpWait -> woken SignalWritersCond ts (zset ts j UUpWoken)
| woken_lost ts : UUpWait ∉ ts -> woken SignalWritersCond ts ts
| woken_broadcast ts : woken BroadcastReadersCond ts (uwake_reader <$> ts).

(** [uwrites] counts the increments finished. *)
Record usys : Type := mkUsys { ulk : upgradeable_rwlock_t; uthreads : list ustate; udata : Z; uwrites : Z }.

(** One step of [thread_func] in one thread.  Whether a reading thread upgrades
    is the outcome of [rand]. *)
Inductive ustep (s : usys) : usys -> Prop :=
| ustep_read i t b l : zget (uthreads s) i = Some t -> t = UIdle \/ t = URdWoken ->
    upgradeable_rwlock_read_lock (ulk s) = Ok (b, l) ->
    ustep s (mkUsys l (zset (uthreads s) i (if b then UReading else URdWait)) (udata s) (uwrites s))
| ustep_spurious i t t' : zget (uthreads s) i = Some t ->
    t = URdWait /\ t' = URdWoken \/ t = UUpWait /\ t' = UUpWoken ->
    ustep s (mkUsys (ulk s) (zset (uthreads s) i t') (udata s) (uwrites s))
| ustep_read_unlock i w l ts : zget (uthreads s) i = Some UReading ->
    upgradeable_rwlock_read_unlock (ulk s) = Ok (w, l) -> woken w (zset (uthreads s) i UIdle) ts ->
    ustep s (mkUsys l ts (udata s) (uwrites s))
| ustep_upgrade i b l : zget (uthreads s) i = Some UReading -> upgradeable_rwlock_upgrade (ulk s) = Ok (b, l) ->
    ustep s (mkUsys l (zset (uthreads s) i (if b then UWriting else UUpWait)) (udata s) (uwrites s))
| ustep_resume i b l : zget (uthreads s) i = Some UUpWoken -> upgrade_loop (ulk s) = Ok (b, l) ->
    ustep s (mkUsys l (zset (uthreads s) i (if b then UWriting else UUpWait)) (udata s) (uwrites s))
| ustep_load i : zget (uthreads s) i = Some UWriting ->
    ustep s (mkUsys (ulk s) (zset (uthreads s) i (ULoaded (udata s))) (udata s) (uwrites s))
| ustep_store i v v' : zget (uthreads s) i = Some (ULoaded v) -> iadd v 1 = Ok v' ->
    ustep s (mkUsys (ulk s) (zset (uthreads s) i UWritten) v' (uwrites s + 1))
| ustep_write_unlock i ts : zget (uthreads s) i = Some UWritten ->
    woken (upgradeable_rwlock_write_unlock (ulk s)).1 (zset (uthreads s) i UIdle) ts ->
    ustep s (mkUsys (upgradeable_rwlock_write_unlock (ulk s)).2 ts (udata s) (uwrites s)).

Definition ustart (n : nat) : usys := mkUsys upgradeable_rwlock_init (replicate n UIdle) 0 0.

Definition ureachable (n : nat) (s : usys) : Prop := rtc ustep (ustart n) s.

(** ** Exclusion *)

Definition u_holds (t : ustate) : Z := match t with UReading | UUpWait | UUpWoken => 1 | _ => 0 end.
Definition u_upgrades (t : ustate) : Z := match t with UUpWait | UUpWoken => 1 | _ => 0 end.
Definition u_writes (t : ustate) : Z := match t with UWriting | ULoaded _ | UWritten => 1 | _ => 0 end.

Lemma u_bounds ts :
  0 <= total u_holds ts /\ 0 <= total u_writes ts /\ 0 <= total u_upgrades ts <= total u_holds ts /\
  total u_holds ts + total u_writes ts <= len ts.
Proof. induction ts as [|t ts IH]; simpl; [lia|]. destruct t; simpl; lia. Qed.

Lemma u_member ts i t :
  zget ts i = Some t -> u_holds t <= total u_holds ts /\ u_upgrades t <= total u_upgrades ts /\
  u_writes t <= total u_writes ts.
Proof.
  intros E. split_and!; (apply (total_member _ _ i); [|exact E]);
    apply list.Forall_forall; intros x _; destruct x; simpl; lia.
Qed.

(** A wakeup changes no count and no loaded value. *)
Lemma woken_spec w ts ts' :
  woken w ts ts' ->
  length ts' = length ts /\
  (total u_holds ts' = total u_holds ts /\ total u_upgrades ts' = total u_upgrades ts /\
   total u_writes ts' = total u_writes ts) /\
  (forall j v, zget ts' j = Some (ULoaded v) -> zget ts j = Some (ULoaded v)).
Proof.
  intros [us|us k E|us Hno|us]; [done| |done|].
  - rewrite length_zset, !(total_zset _ _ _ _ _ E). simpl. split_and!; try lia.
    intros j v. rewrite zget_zset. by case_cond.
  - assert (forall f, (forall t, f (uwake_reader t) = f t) -> total f (uwake_reader <$> us) = total f us) as Hf.
    { intros f Hf. induction us as [|t us IH]; csimpl; [done|]. by rewrite Hf, IH. }
    rewrite length_fmap, !Hf by (by intros []). split_and!; try done.
    intros j v. rewrite zget_fmap. intros (t & E & Ht)%fmap_Some. by destruct t; simplify_eq/=.
Qed.

Record usys_inv (n : nat) (s : usys) : Prop := {
  u_len : length (uthreads s) = n;
  u_lock : ulk s = mkLock (total u_holds (uthreads s)) 0 (total u_upgrades (uthreads s))
                     (0 <? total u_writes (uthreads s));
  u_excl : total u_writes (uthreads s) <= 1 /\ (0 < total u_writes (uthreads s) -> total u_holds (uthreads s) = 0);
  u_data : udata s = uwrites s;
  u_loaded : forall i v, zget (uthreads s) i = Some (ULoaded v) -> v = udata s
}.

(** Thread [i] goes from [t] to [t'], then others are woken. *)
Lemma umove_inv n s i t t' w ts l :
  usys_inv n s -> zget (uthreads s) i = Some t -> (forall v, t' <> ULoaded v) ->
  woken w (zset (uthreads s) i t') ts ->
  let h := total u_holds (uthreads s) - u_holds t + u_holds t' in
  let u := total u_upgrades (uthreads s) - u_upgrades t + u_upgrades t' in
  let k := total u_writes (uthreads s) - u_writes t + u_writes t' in
  l = mkLock h 0 u (0 <? k) -> k <= 1 -> (0 < k -> h = 0) ->
  usys_inv n (mkUsys l ts (udata s) (uwrites s)).
Proof.
  intros [Hlen Hlk Hx Hd Hl] E Hnl Hw h u k -> Hk Hh.
  destruct (woken_spec _ _ _ Hw) as (Hlen' & (N1 & N2 & N3) & N4).
  rewrite length_zset in Hlen'. rewrite (total_zset u_holds _ _ _ _ E) in N1.
  rewrite (total_zset u_upgrades _ _ _ _ E) in N2. rewrite (total_zset u_writes _ _ _ _ E) in N3.
  constructor; cbn [ulk uthreads udata uwrites]; rewrite ?N1, ?N2, ?N3; try done; [congruence|].
  intros j v Ej%N4. apply (Hl j). rewrite zget_zset in Ej. revert Ej. case_cond; [|done].
  intros [= ->]. by destruct (Hnl v).
Qed.

(** The writer goes on with its increment. *)
Lemma uwriter_inv n s i t t' d k :
  usys_inv n s -> zget (uthreads s) i = Some t -> u_writes t = 1 -> u_writes t' = 1 -> d = k ->
  (forall v, t' = ULoaded v -> v = d) ->
  usys_inv n (mkUsys (ulk s) (zset (uthreads s) i t') d k).
Proof.
  intros [Hlen Hlk Hx Hd Hl] E Ht Ht' -> Hv.
  assert (forall f, f t = f t' -> total f (zset (uthreads s) i t') = total f (uthreads s)) as Hf
    by (intros f Hf; rewrite (total_zset _ _ _ _ _ E); lia).
  constructor; cbn [ulk uthreads udata uwrites]; rewrite ?Hf by (by destruct t, t'); try done.
  - by rewrite length_zset.
  - intros j v Ej. destruct (decide (i = j)) as [<-|Hne].
    + rewrite zget_zset_eq in Ej by (by eapply zget_Some_range). naive_solver.
    + rewrite zget_zset_ne in Ej by done. exfalso.
      pose proof (u_member (zset (uthreads s) i UIdle) j (ULoaded v)) as Hm.
      rewrite zget_zset_ne, (total_zset u_writes _ _ _ _ E) in Hm by done.
      destruct (Hm Ej) as (_ & _ & Hw). cbn in Hw. lia.
Qed.

Lemma ustart_inv n : usys_inv n (ustart n).
Proof.
  assert (forall f, f UIdle = 0 -> total f (replicate n UIdle) = 0) as Hz
    by (intros f Hf; induction n; simpl; lia).
  constructor; cbn [ulk uthreads udata uwrites ustart]; rewrite ?Hz by done; try done; try lia.
  - apply length_replicate.
  - intros i v E. assert (ULoaded v ∈ replicate n UIdle) as Hin by (apply elem_of_zget; by exists i).
    by apply elem_of_replicate in Hin as [? _].
Qed.

(** The operations on a lock whose [writers] is 0, as it always is. *)
Lemma read_lock_inv h u w b l :
  upgradeable_rwlock_read_lock (mkLock h 0 u w) = Ok (b, l) -> b = negb w /\ l = mkLock (if w then h else h + 1) 0 u w.
Proof.
  unfold upgradeable_rwlock_read_lock; cbn. destruct w; [by intros [= <- <-]|].
  intros (r & Hr%iadd_inv & [= <- <-])%bind_Ok. by destruct Hr as [-> _].
Qed.

Lemma read_unlock_inv h u w n l :
  upgradeable_rwlock_read_unlock (mkLock h 0 u w) = Ok (n, l) -> n = NoWakeup /\ l = mkLock (h - 1) 0 u w.
Proof.
  unfold upgradeable_rwlock_read_unlock; cbn. intros (r & Hr%int_of_inv & [= <- <-])%bind_Ok.
  rewrite andb_false_r. by destruct Hr as [-> _].
Qed.

Lemma upgrade_loop_inv h u w b l :
  upgrade_loop (mkLock h 0 u w) = Ok (b, l) ->
  b = negb ((1 <? h) || w) /\ l = if b then mkLock (h - 1) 0 (u - 1) true else mkLock h 0 u w.
Proof.
  unfold upgrade_loop; cbn. rewrite orb_false_r. destruct ((1 <? h) || w); [by intros [= <- <-]|].
  intros (r & Hr%int_of_inv & (v & Hv%int_of_inv & [= <- <-])%bind_Ok)%bind_Ok.
  by destruct Hr as [-> _], Hv as [-> _].
Qed.

Lemma upgrade_inv h u w b l :
  upgradeable_rwlock_upgrade (mkLock h 0 u w) = Ok (b, l) ->
  b = negb ((1 <? h) || w) /\ l = if b then mkLock (h - 1) 0 u true else mkLock h 0 (u + 1) w.
Proof.
  unfold upgradeable_rwlock_upgrade; cbn. intros (v & Hv%iadd_inv & [Hb Hl]%upgrade_loop_inv)%bind_Ok.
  destruct Hv as [-> _]. split; [done|]. rewrite Hl. destruct b; [f_equal; lia|done].
Qed.

Ltac u_move Hinv E :=
  eapply umove_inv; [exact Hinv|exact E| |eassumption || apply woken_none|..]; [by destruct_or?|..];
  cbn; try (f_equal; try (symmetry; apply Z.ltb_lt || apply Z.ltb_ge)); try lia.

(** Every step preserves the invariant. *)
Lemma ustep_inv n s s' : usys_inv n s -> ustep s s' -> usys_inv n s'.
Proof.
  intros Hinv Hs. pose proof Hinv as [_ Hlk [Hx1 Hx2] Hd Hl]. pose proof (u_bounds (uthreads s)) as Hb.
  destruct Hs as [i t b l E Ht Hop|i t t' E Ht|i w l ts E Hop Hw|i b l E Hop|i b l E Hop|i E|i v v' E Hv|i ts E Hw];
    pose proof (u_member _ _ _ E) as Hm; cbn in Hm; rewrite ?Hlk in *.
  - apply read_lock_inv in Hop as [-> ->]. destruct (Z.ltb_spec 0 (total u_writes (uthreads s)));
      destruct Ht as [-> | ->]; u_move Hinv E.
  - destruct Ht as [[-> ->]|[-> ->]]; cbn in Hm; u_move Hinv E.
  - apply read_unlock_inv in Hop as [-> ->]. u_move Hinv E.
  - apply upgrade_inv in Hop as [-> ->]. destruct (Z.ltb_spec 1 (total u_holds (uthreads s)));
      destruct (Z.ltb_spec 0 (total u_writes (uthreads s))); u_move Hinv E.
  - apply upgrade_loop_inv in Hop as [-> ->]. destruct (Z.ltb_spec 1 (total u_holds (uthreads s)));
      destruct (Z.ltb_spec 0 (total u_writes (uthreads s))); u_move Hinv E.
  - rewrite <-Hlk. eapply uwriter_inv; [exact Hinv|exact E|done|done|done|]. by intros v [= ->].
  - rewrite <-Hlk. eapply uwriter_inv; [exact Hinv|exact E|done|done| |done].
    apply iadd_inv in Hv as [-> _]. rewrite (Hl i v E). lia.
  - u_move Hinv E.
Qed.

Lemma ureachable_inv n s : ureachable n s -> usys_inv n s.
Proof.
  unfold ureachable. intros Hr. pose proof (ustart_inv n) as Hi. revert Hr Hi.
  generalize (ustart n) as s0. induction 1 as [|s1 s2 s3 Hs _ IH]; [done|]. eauto using ustep_inv.
Qed.

(** In every reachable state at most one thread writes and then no other
    thread holds the lock, the lock's fields are the numbers of threads, and
    no increment of [shared_data] has been lost. *)
Theorem upgrade_lock_exclusive n s :
  ureachable n s ->
  total u_writes (uthreads s) <= 1 /\ (0 < total u_writes (uthreads s) -> total u_holds (uthreads s) = 0) /\
  ulk s = mkLock (total u_holds (uthreads s)) 0 (total u_upgrades (uthreads s))
            (0 <? total u_writes (uthreads s)) /\
  udata s = uwrites s.
Proof. intros [Hlen Hlk [Hx1 Hx2] Hd Hl]%ureachable_inv. done. Qed.

(** Two threads wait in [upgrade]. *)
Definition two_upgraders : usys := mkUsys (mkLock 2 0 2 false) [UUpWait; UUpWait] 0 0.

Lemma two_upgraders_reachable : ureachable 2 two_upgraders.
Proof.
  eapply rtc_l; [apply (ustep_read _ 0 UIdle true (mkLock 1 0 0 false)); [done|by left|done]|].
  eapply rtc_l; [apply (ustep_read _ 1 UIdle true (mkLock 2 0 0 false)); [done|by left|done]|].
  eapply rtc_l; [apply (ustep_upgrade _ 0 false (mkLock 2 0 1 false)); done|].
  eapply rtc_l; [apply (ustep_upgrade _ 1 false (mkLock 2 0 2 false)); done|]. apply rtc_refl.
Defined.

Lemma upgrade_lock_exclusive_witness :
  ureachable 2 two_upgraders /\ udata two_upgraders = uwrites two_upgraders.
Proof. split; [apply two_upgraders_reachable|]. apply (upgrade_lock_exclusive 2 _ two_upgraders_reachable). Defined.

(** A step from a state with two upgraders keeps them, and writes nothing. *)
Lemma upgraders_stay n s s' :
  usys_inv n s -> 2 <= total u_upgrades (uthreads s) -> ustep s s' ->
  2 <= total u_upgrades (uthreads s') /\ uwrites s' = uwrites s.
Proof.
  intros Hinv H2 Hs. pose proof Hinv as [_ Hlk [Hx1 Hx2] Hd Hl]. pose proof (u_bounds (uthreads s)) as Hb.
  destruct Hs as [i t b l E Ht Hop|i t t' E Ht|i w l ts E Hop Hw|i b l E Hop|i b l E Hop|i E|i v v' E Hv|i ts E Hw];
    pose proof (u_member _ _ _ E) as Hm; cbn in Hm; rewrite ?Hlk in *; cbn [uthreads uwrites];
    rewrite ?(total_zset u_upgrades _ _ _ _ E).
  - split; [|done]. destruct b, Ht as [-> | ->]; cbn in *; lia.
  - split; [|done]. destruct Ht as [[-> ->]|[-> ->]]; cbn in *; lia.
  - destruct (woken_spec _ _ _ Hw) as (_ & (_ & -> & _) & _). rewrite (total_zset u_upgrades _ _ _ _ E). by cbn; split; [lia|].
  - apply upgrade_inv in Hop as [-> ->]. destruct (Z.ltb_spec 1 (total u_holds (uthreads s))); cbn; lia.
  - apply upgrade_loop_inv in Hop as [-> ->]. destruct (Z.ltb_spec 1 (total u_holds (uthreads s))); cbn; lia.
  - lia.
  - lia.
  - lia.
Qed.

(** Once two threads are upgrading, no thread ever writes again: each waits
    for the other's read lock. *)
Theorem upgraders_deadlock n s s' :
  ureachable n s -> 2 <= total u_upgrades (uthreads s) -> rtc ustep s s' ->
  uwrites s' = uwrites s /\ total u_writes (uthreads s') = 0.
Proof.
  intros Hinv%ureachable_inv H2 Hr. revert Hinv H2. induction Hr as [s|s1 s2 s3 Hs _ IH]; intros Hinv H2.
  - split; [done|]. pose proof (u_bounds (uthreads s)). destruct (u_excl _ _ Hinv). lia.
  - destruct (upgraders_stay _ _ _ Hinv H2 Hs) as [H2' <-]. apply IH; [by eapply ustep_inv|done].
Qed.

Lemma upgraders_deadlock_witness :
  ureachable 2 two_upgraders /\
  forall s', rtc ustep two_upgraders s' -> uwrites s' = 0 /\ total u_writes (uthreads s') = 0.
Proof.
  split; [apply two_upgraders_reachable|]. intros s' Hr.
  apply (upgraders_deadlock 2 two_upgraders s' two_upgraders_reachable); [discriminate|exact Hr].
Defined.
