(* ===== verification/BinarySearch.v ===== *)
(** * Binary search in C and in assembly ([performance/binary-search/])

    [binary_search_c] of [binary_search.c] is a loop over [int]s;
    [binary_search_asm] of [binary_search.asm] is a list of x86-64
    instructions on 32-bit registers and the flags ZF, SF and OF, run by
    [asm_step].  The C function is correct on sorted arrays, and the assembly
    returns what the C function returns on every array. *)
From Stdlib Require Import ZArith Lia.
From stdpp Require Import base tactics list numbers option.
From S2P Require Import Prelude.

#[local] Open Scope Z_scope.
#[local] Open Scope c_scope.

(** ** The C function *)

(** One pass of the [while] loop; the state is [left] and [right]. *)
Definition search_pass (arr : list Z) (target : Z) (s : Z * Z) : res (ctl (Z * Z) Z) :=
  let '(lo, hi) := s in
  if negb (lo <=? hi) then Ok (Return (-1))
  else
    sum ← iadd lo hi;
    let mid := Z.shiftr sum 1 in
    mid_val ← arr.[mid];
    if mid_val =? target then Ok (Return mid)
    else if mid_val <? target then
      lo' ← iadd mid 1;
      Ok (Next (lo', hi))
    else
      hi' ← isub mid 1;
      Ok (Next (lo, hi')).

(** Every pass shortens the interval: [size + 1] passes are enough. *)
Definition binary_search_c (arr : list Z) (size target : Z) : res Z :=
  hi ← isub size 1;
  loop (Z.to_nat size + 1) (search_pass arr target) (0, hi).

(** ** The assembly function *)

(** The registers the function uses; a value is in [0 .. 2^32 - 1]. *)
Inductive reg : Type := EAX | ECX | EDX | ESI | R8D | R9D | R10D | R11D.
#[export] Instance reg_eq_dec : EqDecision reg.
Proof. solve_decision. Defined.

(** Jump targets are indices into the list of instructions. *)
Inductive instr : Type :=
| Xor (d s : reg)
| Lea (d base : reg) (disp : Z)
| Cmp (a b : reg)
| Jg (target : nat)
| Mov (d s : reg)
| Add (d s : reg)
| Shr (d : reg) (k : Z)
| LoadElem (d index : reg)
| Je (target : nat)
| Cmovl (d s : reg)
| Cmovg (d s : reg)
| Jmp (target : nat)
| MovImm (d : reg) (v : Z)
| Ret.

Definition loop_label : nat := 2.
Definition found_label : nat := 15.
Definition not_found_label : nat := 17.

Definition binary_search_code : list instr :=
  [ Xor EAX EAX; Lea ECX ESI (-1);
    Cmp EAX ECX; Jg not_found_label;
    Mov R8D EAX; Add R8D ECX; Shr R8D 1;
    LoadElem R9D R8D; Cmp R9D EDX; Je found_label;
    Lea R10D R8D 1; Lea R11D R8D (-1); Cmovl EAX R10D; Cmovg ECX R11D; Jmp loop_label;
    Mov EAX R8D; Ret;
    MovImm EAX (-1); Ret ].

Record machine : Type := mkMachine { pc : nat; regs : reg -> Z; zf : bool; sf : bool; ovf : bool }.

(** A 32-bit pattern read as a signed number. *)
Definition signed32 (v : Z) : Z := if v <? 2147483648 then v else v - UINT32.

Definition set_reg (f : reg -> Z) (d : reg) (v : Z) : reg -> Z := fun r => if decide (r = d) then u32 v else f r.

Definition advance (m : machine) (f : reg -> Z) : machine := mkMachine (S (pc m)) f (zf m) (sf m) (ovf m).
Definition jump (m : machine) (taken : bool) (target : nat) : machine :=
  mkMachine (if taken then target else S (pc m)) (regs m) (zf m) (sf m) (ovf m).

(** ZF, SF and OF after an instruction with the 32-bit result [v]. *)
Definition set_flags (m : machine) (f : reg -> Z) (v : Z) (overflow : bool) : machine :=
  mkMachine (S (pc m)) f (v =? 0) (signed32 v <? 0) overflow.

Definition fits_signed (z : Z) : bool := (INT_MIN <=? z) && (z <=? INT_MAX).

(** One instruction; [arr] is the memory at [rdi], and [Ret] returns [eax]. *)
Definition asm_step (arr : list Z) (m : machine) : res (ctl machine Z) :=
  let r := regs m in
  match binary_search_code !! pc m with
  | None => Fault OutOfBounds
  | Some (Xor d s) =>
      let v := Z.lxor (r d) (r s) in Ok (Next (set_flags m (set_reg r d v) v false))
  | Some (Lea d base disp) => Ok (Next (advance m (set_reg r d (r base + disp))))
  | Some (Cmp a b) =>
      let v := u32 (r a - r b) in
      Ok (Next (set_flags m r v (negb (fits_signed (signed32 (r a) - signed32 (r b))))))
  | Some (Jg target) => Ok (Next (jump m (negb (zf m) && eqb (sf m) (ovf m)) target))
  | Some (Mov d s) => Ok (Next (advance m (set_reg r d (r s))))
  | Some (Add d s) =>
      let v := u32 (r d + r s) in
      Ok (Next (set_flags m (set_reg r d v) v (negb (fits_signed (signed32 (r d) + signed32 (r s))))))
  | Some (Shr d k) =>
      let v := Z.shiftr (r d) k in
      Ok (Next (set_flags m (set_reg r d v) v (signed32 (r d) <? 0)))
  | Some (LoadElem d index) =>
      v ← arr.[r index];
      Ok (Next (advance m (set_reg r d v)))
  | Some (Je target) => Ok (Next (jump m (zf m) target))
  | Some (Cmovl d s) =>
      Ok (Next (advance m (set_reg r d (if negb (eqb (sf m) (ovf m)) then r s else r d))))
  | Some (Cmovg d s) =>
      Ok (Next (advance m (set_reg r d (if negb (zf m) && eqb (sf m) (ovf m) then r s else r d))))
  | Some (Jmp target) => Ok (Next (jump m true target))
  | Some (MovImm d v) => Ok (Next (advance m (set_reg r d v)))
  | Some Ret => Ok (Return (signed32 (r EAX)))
  end.

(** Entry: size in [esi], target in [edx], anything else in the other
    registers and the flags.  A pass of the loop is 13 instructions. *)
Definition asm_entry (m0 : machine) (size target : Z) : machine :=
  mkMachine 0 (set_reg (set_reg (regs m0) ESI size) EDX target) (zf m0) (sf m0) (ovf m0).

Definition binary_search_asm (m0 : machine) (arr : list Z) (size target : Z) : res Z :=
  loop (13 * (Z.to_nat size + 1) + 16) (asm_step arr) (asm_entry m0 size target).

(** ** The driver *)

Definition generate_test_data (arr : list Z) (size : Z) : res (list Z) :=
  for_range (Z.to_nat size) 0 (fun i arr => v ← imul i 2; arr.[i <- v]) arr.

(** The two searches of one iteration, xored into the checksum. *)
Definition checksum_pass (search : Z -> res Z) (size i acc : Z) : res Z :=
  k ← imod i size;
  t ← imul k 2;
  r1 ← search t;
  t' ← iadd t 1;
  r2 ← search t';
  Ok (Z.lxor (Z.lxor acc r1) r2).

Definition warm_up_pass (search_c search_asm : Z -> res Z) (size i : Z) (u : unit) : res unit :=
  k ← imod i size;
  t ← imul k 2;
  _ ← search_c t;
  _ ← search_asm t;
  Ok tt.

(** [mem] is the block [aligned_alloc] returns, if it returns one; [m0 i] the
    registers and flags at the calls of iteration [i].  The result is the pair
    of checksums; the measured times are only printed. *)
Definition run_performance_test (m0 : Z -> machine) (mem : option (list Z)) (size : Z) : res (option (Z * Z)) :=
  match mem with
  | None => Ok None
  | Some arr =>
      arr ← generate_test_data arr size;
      let search_c := binary_search_c arr size in
      let search_asm i := binary_search_asm (m0 i) arr size in
      _ ← for_range 1000 0 (fun i => warm_up_pass search_c (search_asm i) size i) tt;
      result_c ← for_range (Z.to_nat 100000) 0 (checksum_pass search_c size) 0;
      result_asm ← for_range (Z.to_nat 100000) 0 (fun i => checksum_pass (search_asm i) size i) 0;
      Ok (Some (result_c, result_asm))
  end.

(** ** Signed comparison from the flags *)

Definition is_int (x : Z) : Prop := INT_MIN <= x <= INT_MAX.

Lemma u32_small v : 0 <= v < UINT32 -> u32 v = v.
Proof. apply Z.mod_small. Qed.

Lemma u32_of_int x : is_int x -> u32 x = if x <? 0 then x + UINT32 else x.
Proof.
  unfold is_int, INT_MIN, INT_MAX, u32. intros Hx. case_cond.
  - rewrite <-(Z.mod_add x 1 UINT32), Z.mul_1_l by done. apply Z.mod_small. unfold UINT32. lia.
  - apply Z.mod_small. unfold UINT32. lia.
Qed.

Lemma signed32_u32 x : is_int x -> signed32 (u32 x) = x.
Proof.
  intros Hx. rewrite u32_of_int by done. unfold is_int, INT_MIN, INT_MAX, signed32, UINT32 in *.
  repeat case_cond; lia.
Qed.

(** The three flags after [cmp], on two [int]s. *)
Lemma cmp_flags x y :
  is_int x -> is_int y ->
  let v := u32 (u32 x - u32 y) in
  let o := negb (fits_signed (signed32 (u32 x) - signed32 (u32 y))) in
  (v =? 0) = (x =? y) /\ eqb (signed32 v <? 0) o = negb (x <? y).
Proof.
  intros Hx Hy v o. subst o. rewrite !signed32_u32 by done.
  assert (v = u32 (x - y)) as Hv by (subst v; unfold u32; by rewrite <-Zminus_mod).
  assert (signed32 v = if fits_signed (x - y) then x - y else if x <? y then x - y + UINT32 else x - y - UINT32) as Hs.
  { rewrite Hv. unfold fits_signed. case_cond; [apply signed32_u32; unfold is_int; lia|].
    unfold is_int, INT_MIN, INT_MAX in *. case_cond.
    - unfold u32. rewrite <-(Z.mod_add (x - y) 1 UINT32), Z.mod_small by (unfold UINT32; lia).
      unfold signed32, UINT32. case_cond; lia.
    - unfold u32. rewrite Z.mod_small by (unfold UINT32; lia). unfold signed32. case_cond; lia. }
  split.
  - rewrite Hv. unfold u32, is_int, INT_MIN, INT_MAX, UINT32 in *. destruct (Z.eqb_spec x y) as [->|Hne].
    + by rewrite Z.sub_diag.
    + apply Z.eqb_neq. intros Hz%Z.mod_divide; [|done]. destruct Hz as [k Hk]. lia.
  - rewrite Hs. unfold fits_signed, is_int, INT_MIN, INT_MAX, UINT32 in *.
    destruct (Z.ltb_spec x y), (Z.leb_spec (-2147483648) (x - y)), (Z.leb_spec (x - y) 2147483647); cbn;
      try lia; repeat case_cond; try done; lia.
Qed.

(** ** One pass of the assembly loop *)

Lemma u32_u32 v : u32 (u32 v) = u32 v.
Proof. apply Z.mod_mod. done. Qed.

Lemma set_reg_eq f d v : set_reg f d v d = u32 v.
Proof. unfold set_reg. by rewrite decide_True. Qed.
Lemma set_reg_ne f d v r : r <> d -> set_reg f d v r = f r.
Proof. intros Hr. unfold set_reg. by rewrite decide_False. Qed.

(** [k] instructions take [m] to [m']. *)
Definition runs (arr : list Z) (k : nat) (m m' : machine) : Prop :=
  forall fuel, loop (k + fuel) (asm_step arr) m = loop fuel (asm_step arr) m'.

Lemma runs_trans arr k1 k2 m1 m2 m3 : runs arr k1 m1 m2 -> runs arr k2 m2 m3 -> runs arr (k1 + k2) m1 m3.
Proof. intros H1 H2 fuel. by rewrite <-Nat.add_assoc, H1, H2. Qed.

Lemma runs_step arr k m m' m'' : asm_step arr m = Ok (Next m') -> runs arr k m' m'' -> runs arr (S k) m m''.
Proof. intros H1 H2 fuel. cbn [Nat.add]. by rewrite loop_S, H1, bind_ret_l, H2. Qed.

Lemma runs_refl arr m : runs arr 0 m m.
Proof. by intros fuel. Qed.

Ltac run_block := repeat (eapply runs_step; [unfold asm_step; cbn; reflexivity|]); apply runs_refl.

Section blocks.
Context (arr : list Z) (target lo hi : Z).
Context (Ht : is_int target) (Hlo : 0 <= lo <= INT_MAX) (Hhi : -1 <= hi < INT_MAX).

(** The registers that hold the variables of the loop. *)
Definition holds (r : reg -> Z) : Prop := r EAX = u32 lo /\ r ECX = u32 hi /\ r EDX = u32 target.

(** [cmp eax, ecx; jg .not_found] *)
Lemma block_test r z s o :
  holds r -> exists z' s' o',
  runs arr 2 (mkMachine loop_label r z s o) (mkMachine (if hi <? lo then not_found_label else 4) r z' s' o').
Proof.
  intros (Ha & Hc & _). eexists _, _, _. eapply runs_step; [unfold asm_step; cbn; reflexivity|].
  eapply runs_step; [unfold asm_step; cbn [pc set_flags]; cbn; reflexivity|].
  rewrite Ha, Hc. destruct (cmp_flags lo hi) as [Hz Hs]; [unfold is_int, INT_MIN in *; lia..|].
  unfold jump, set_flags. cbn [zf sf ovf pc regs]. rewrite Hz, Hs.
  replace (negb (lo =? hi) && negb (lo <? hi)) with (hi <? lo) by (destruct (Z.ltb_spec hi lo); lia).
  apply runs_refl.
Qed.

(** [mov r8d, eax; add r8d, ecx; shr r8d, 1] *)
Lemma block_mid r z s o :
  holds r -> lo <= hi -> exists r' z' s' o',
  runs arr 3 (mkMachine 4 r z s o) (mkMachine 7 r' z' s' o') /\ holds r' /\ r' R8D = (lo + hi) / 2.
Proof.
  intros (Ha & Hc & Hd) Hle. eexists _, _, _, _. split_and!; [run_block|..].
  - unfold holds. by rewrite !set_reg_ne.
  - rewrite !set_reg_eq, (set_reg_ne _ R8D _ ECX), Ha, Hc, !u32_u32, Z.shiftr_div_pow2 by done.
    rewrite (u32_small lo), (u32_small hi) by (unfold INT_MAX, UINT32 in *; lia).
    rewrite (u32_small (lo + hi)) by (unfold INT_MAX, UINT32 in *; lia).
    apply u32_small. split; [apply Z.div_pos; lia|]. apply Z.div_lt_upper_bound; unfold INT_MAX, UINT32 in *; lia.
Qed.

(** [mov r9d, [rdi + r8*4]; cmp r9d, edx; je .found] *)
Lemma block_compare r z s o mid v :
  holds r -> r R8D = mid -> zget arr mid = Some v -> is_int v -> exists r' z' s' o',
  runs arr 3 (mkMachine 7 r z s o) (mkMachine (if v =? target then found_label else 10) r' z' s' o') /\
  holds r' /\ r' R8D = mid /\ z' = (v =? target) /\ eqb s' o' = negb (v <? target).
Proof.
  intros (Ha & Hc & Hd) H8 Hv Hint.
  destruct (cmp_flags v target) as [Hz Hs]; [done..|].
  eexists (set_reg r R9D v), _, _, _. split_and!.
  - eapply runs_step; [unfold asm_step; cbn; rewrite H8, (arr_read_Ok _ _ _ Hv); reflexivity|].
    eapply runs_step; [unfold asm_step; cbn; reflexivity|].
    eapply runs_step; [unfold asm_step; cbn; reflexivity|].
    unfold jump, set_flags. cbn [zf sf ovf pc regs]. rewrite set_reg_eq, set_reg_ne, Hd, Hz by done. apply runs_refl.
  - unfold holds. by rewrite !set_reg_ne.
  - by rewrite set_reg_ne.
  - done.
  - done.
Qed.
End blocks.

(** The two [lea]s, the conditional moves and the jump back. *)
Lemma block_update arr target lo hi r z s o mid v :
  holds target lo hi r -> r R8D = u32 mid -> v <> target -> z = (v =? target) -> eqb s o = negb (v <? target) ->
  exists r' z' s' o',
  runs arr 5 (mkMachine 10 r z s o) (mkMachine loop_label r' z' s' o') /\
  holds target (if v <? target then mid + 1 else lo) (if v <? target then hi else mid - 1) r'.
Proof.
  intros (Ha & Hc & Hd) H8 Hne Hz Hs. apply Z.eqb_neq in Hne. rewrite Hne in Hz. subst z.
  eexists _, _, _, _. split; [run_block|]. cbn [zf sf ovf pc regs advance jump]. rewrite Hs.
  assert (forall c, u32 (u32 mid + c) = u32 (mid + c)) as Hadd by (intros c; apply Zplus_mod_idemp_l).
  unfold holds. destruct (v <? target); cbn [negb andb];
    repeat (rewrite set_reg_eq || rewrite set_reg_ne by done); rewrite ?Ha, ?Hc, ?Hd, ?H8, ?u32_u32, ?Hadd; done.
Qed.

(** ** The assembly function runs the loop of the C function *)

Section simulation.
Context (arr : list Z) (target : Z) (Ht : is_int target) (Harr : Forall is_int arr).

(** What one pass of the C loop does. *)
Lemma search_pass_inv lo hi c :
  search_pass arr target (lo, hi) = Ok c ->
  if hi <? lo then c = Return (-1)
  else exists v, zget arr ((lo + hi) / 2) = Some v /\
    c = if v =? target then Return ((lo + hi) / 2)
        else if v <? target then Next ((lo + hi) / 2 + 1, hi) else Next (lo, (lo + hi) / 2 - 1).
Proof.
  unfold search_pass. rewrite Z.leb_antisym, negb_involutive. case_cond; [by intros [= <-]|].
  intros (sum & Hs%iadd_inv & (v & Hv%arr_read_inv & H)%bind_Ok)%bind_Ok. destruct Hs as [-> _].
  rewrite Z.shiftr_div_pow2 in * by done. change (2 ^ 1) with 2 in *. exists v. split; [done|]. revert H.
  repeat case_cond; [by intros [= <-]|..]; intros (w & Hw%int_of_inv & [= <-])%bind_Ok; by destruct Hw as [-> _].
Qed.

(** If the C loop returns, so does the assembly, with the same result. *)
Lemma asm_simulates n lo hi x r z s o :
  0 <= lo <= INT_MAX -> -1 <= hi < INT_MAX -> holds target lo hi r ->
  loop n (search_pass arr target) (lo, hi) = Ok x ->
  loop (13 * n + 4) (asm_step arr) (mkMachine loop_label r z s o) = Ok x.
Proof.
  revert lo hi r z s o. induction n as [|n IH]; intros lo hi r z s o Hlo Hhi Hr Hx; [done|].
  rewrite loop_S in Hx. apply bind_Ok in Hx as (c & Hc & Hx). apply search_pass_inv in Hc.
  destruct (block_test arr target lo hi Hlo Hhi r z s o Hr) as (z1 & s1 & o1 & H1).
  destruct (Z.ltb_spec hi lo) as [Hlt|Hge].
  - subst c. injection Hx as <-. replace (13 * S n + 4)%nat with (2 + (2 + (13 * n + 13)))%nat by lia.
    rewrite H1. done.
  - destruct Hc as (v & Hv & ->).
    destruct (block_mid arr target lo hi Hlo Hhi r z1 s1 o1 Hr Hge) as (r2 & z2 & s2 & o2 & H2 & Hr2 & H82).
    destruct (block_compare arr target lo hi Ht r2 z2 s2 o2 _ v Hr2 H82 Hv) as (r3 & z3 & s3 & o3 & H3 & Hr3 & H83 & Hz3 & Hs3);
      [by eapply Forall_zget|].
    pose proof (runs_trans _ _ _ _ _ _ (runs_trans _ _ _ _ _ _ H1 H2) H3) as H123. cbn [Nat.add] in H123.
    assert (lo <= (lo + hi) / 2 <= hi) as Hmid by (split; [apply Z.div_le_lower_bound|apply Z.div_le_upper_bound]; lia).
    assert (u32 ((lo + hi) / 2) = (lo + hi) / 2) as Hu by (apply u32_small; unfold INT_MAX, UINT32 in *; lia).
    destruct (Z.eqb_spec v target) as [->|Hne].
    + injection Hx as <-. replace (13 * S n + 4)%nat with (8 + (2 + (13 * n + 7)))%nat by lia.
      rewrite H123. cbn [Nat.add]. do 2 (rewrite loop_S; cbn -[loop signed32 set_reg]).
      f_equal. rewrite set_reg_eq, H83, signed32_u32; [done|]. unfold is_int, INT_MIN; lia.
    + replace (13 * S n + 4)%nat with (8 + (5 + (13 * n + 4)))%nat by lia. rewrite H123.
      rewrite <-Hu in H83.
      destruct (block_update arr target lo hi r3 z3 s3 o3 _ v Hr3 H83 Hne) as (r4 & z4 & s4 & o4 & H4 & Hr4);
        [by rewrite Hz3; destruct (Z.eqb_spec v target)|done|].
      rewrite H4. destruct (v <? target); (eapply IH; [..|exact Hr4|exact Hx]); lia.
Qed.
End simulation.

(** ** Correctness of the C function *)

(** The first [size] elements are in non-decreasing order. *)
Definition sorted_upto (arr : list Z) (size : Z) : Prop :=
  forall i j x y, 0 <= i <= j -> j < size -> zget arr i = Some x -> zget arr j = Some y -> x <= y.

Section search.
Context (arr : list Z) (size target : Z) (Hsize : 0 <= size <= len arr) (Hmax : size <= 2 ^ 30).

(** [P] holds of the positions already excluded. *)
Definition search_inv (P : Z -> Prop) (s : Z * Z) : Prop :=
  0 <= s.1 /\ s.1 <= s.2 + 1 /\ s.2 < size /\ (forall i, 0 <= i < size -> i < s.1 \/ s.2 < i -> P i).

Definition search_post (P : Z -> Prop) (r : Z) : Prop :=
  if r =? -1 then forall i, 0 <= i < size -> P i else 0 <= r < size /\ zget arr r = Some target.

Lemma search_loop (P : Z -> Prop) :
  (forall i m v, 0 <= i < size -> 0 <= m < size -> zget arr m = Some v ->
     v < target /\ i <= m \/ target < v /\ m <= i -> P i) ->
  exists r, binary_search_c arr size target = Ok r /\ search_post P r.
Proof.
  intros HP. unfold binary_search_c. rewrite isub_Ok by (unfold INT_MIN, INT_MAX; lia). rewrite bind_ret_l.
  apply (loop_total (search_inv P) (search_post P) (fun s => Z.to_nat (s.2 + 1 - s.1))); [| |cbn; lia];
    [|unfold search_inv; cbn; split_and!; lia].
  intros [lo hi] (H1 & H2 & H3 & H4). cbn in H1, H2, H3, H4. unfold search_pass.
  destruct (Z.leb_spec lo hi) as [Hle|Hlt]; cbn [negb].
  - assert (lo <= (lo + hi) / 2 <= hi) as Hmid by (split; [apply Z.div_le_lower_bound|apply Z.div_le_upper_bound]; lia).
    rewrite (iadd_Ok lo hi), bind_ret_l, Z.shiftr_div_pow2 by (unfold INT_MIN, INT_MAX; lia). change (2 ^ 1) with 2.
    destruct (zget_range arr ((lo + hi) / 2)) as [v Hv]; [lia|]. rewrite (arr_read_Ok _ _ _ Hv), bind_ret_l.
    destruct (Z.eqb_spec v target) as [->|Hne].
    { eexists. split; [done|]. unfold search_post. case_cond; [lia|]. split; [lia|done]. }
    case_cond; [rewrite iadd_Ok by (unfold INT_MIN, INT_MAX; lia)|rewrite isub_Ok by (unfold INT_MIN, INT_MAX; lia)];
      rewrite bind_ret_l; eexists; (split; [done|]); unfold search_inv; cbn; split_and!; try lia.
    + intros i Hi Hout. destruct (decide (i < lo \/ hi < i)); [by apply H4|].
      apply (HP i ((lo + hi) / 2) v); [lia|lia|done|lia].
    + intros i Hi Hout. destruct (decide (i < lo \/ hi < i)); [by apply H4|].
      apply (HP i ((lo + hi) / 2) v); [lia|lia|done|lia].
  - eexists. split; [done|]. unfold search_post. rewrite Z.eqb_refl. intros i Hi. apply H4; lia.
Qed.
End search.

(** C27.  On a sorted array of at most 2^30 elements [binary_search_c] returns within
    [size + 1] passes, without an access outside the array or an overflow: -1
    exactly if the target does not occur, and otherwise a position of it. *)
Theorem binary_search_c_correct arr size target :
  0 <= size <= len arr -> size <= 2 ^ 30 -> sorted_upto arr size ->
  exists r, binary_search_c arr size target = Ok r /\
    if r =? -1 then forall i, 0 <= i < size -> zget arr i <> Some target
    else 0 <= r < size /\ zget arr r = Some target.
Proof.
  intros Hsize Hmax Hsorted. apply (search_loop arr size target Hsize Hmax (fun i => zget arr i <> Some target)).
  intros i m v Hi Hm Hv Hside Hit. destruct Hside as [[Hlt Him]|[Hlt Him]].
  - pose proof (Hsorted i m target v ltac:(lia) ltac:(lia) Hit Hv). lia.
  - pose proof (Hsorted m i v target ltac:(lia) ltac:(lia) Hv Hit). lia.
Qed.

Lemma asm_equiv m0 arr size target :
  0 <= size <= len arr -> size <= 2 ^ 30 -> is_int target -> Forall is_int arr ->
  exists r, binary_search_c arr size target = Ok r /\ binary_search_asm m0 arr size target = Ok r.
Proof.
  intros Hsize Hmax Ht Harr.
  destruct (search_loop arr size target Hsize Hmax (fun _ => True)) as (r & Hr & _); [done|].
  exists r. split; [done|]. unfold binary_search_c in Hr.
  rewrite isub_Ok, bind_ret_l in Hr by (unfold INT_MIN, INT_MAX; lia).
  unfold binary_search_asm, asm_entry.
  replace (13 * (Z.to_nat size + 1) + 16)%nat with (2 + (13 * (Z.to_nat size + 1) + 4 + 10))%nat by lia.
  cbn [Nat.add]. do 2 (rewrite loop_S; cbn -[loop set_reg u32 Nat.add Nat.mul Z.lxor Z.add]).
  eapply loop_mono; [|eapply asm_simulates; [exact Ht|exact Harr| | | |exact Hr]];
    [lia|unfold INT_MAX; lia..|].
  unfold holds. repeat (rewrite set_reg_eq || rewrite set_reg_ne by done).
  rewrite Z.lxor_nilpotent. split_and!; [done|..]; unfold u32; [by rewrite Zplus_mod_idemp_l|done].
Qed.

(** C3.  [binary_search_asm] returns on every array of [int]s and for every size up to
    2^30 within it, sorted or not, what [binary_search_c] returns, whatever the registers and flags hold at entry. *)
Theorem binary_search_asm_equiv m0 arr size target :
  0 <= size <= len arr -> size <= 2 ^ 30 -> is_int target -> Forall is_int arr ->
  exists r, binary_search_c arr size target = Ok r /\ binary_search_asm m0 arr size target = Ok r.
Proof. apply asm_equiv. Qed.

Lemma binary_search_c_correct_witness :
  sorted_upto [2; 5; 7] 3 /\
  exists r, binary_search_c [2; 5; 7] 3 7 = Ok r /\
    if r =? -1 then forall i, 0 <= i < 3 -> zget [2; 5; 7] i <> Some 7
    else 0 <= r < 3 /\ zget [2; 5; 7] r = Some 7.
Proof.
  assert (sorted_upto [2; 5; 7] 3) as Hs.
  { intros i j x y Hi Hj. assert (i = 0 \/ i = 1 \/ i = 2) as [-> | [-> | ->]] by lia;
      assert (j = 0 \/ j = 1 \/ j = 2) as [-> | [-> | ->]] by lia; cbv; intros [= <-] [= <-]; try lia; discriminate. }
  split; [exact Hs|]. apply (binary_search_c_correct [2; 5; 7] 3 7); [cbn; lia|lia|exact Hs].
Defined.

Lemma binary_search_asm_equiv_witness :
  exists r, binary_search_c [5; -3; 9; 9] 4 9 = Ok r /\
    binary_search_asm (mkMachine 7 (fun _ => 99) true false true) [5; -3; 9; 9] 4 9 = Ok r.
Proof.
  apply (binary_search_asm_equiv (mkMachine 7 (fun _ => 99) true false true) [5; -3; 9; 9] 4 9);
    [cbn; lia|lia|unfold is_int, INT_MIN, INT_MAX; lia|repeat constructor; unfold is_int, INT_MIN, INT_MAX; lia].
Defined.

(** ** The driver compares equal searches *)

Lemma generate_test_data_spec arr size :
  0 <= size <= len arr -> size <= 2 ^ 30 -> Forall is_int arr ->
  exists arr', generate_test_data arr size = Ok arr' /\ length arr' = length arr /\ Forall is_int arr' /\
    forall i, 0 <= i < size -> zget arr' i = Some (2 * i).
Proof.
  intros Hsize Hmax Hint. unfold generate_test_data.
  destruct (for_range_inv (fun j a => length a = length arr /\ Forall is_int a /\
    forall i, 0 <= i < j -> zget a i = Some (2 * i)) (Z.to_nat size) 0
    (fun i a => v ← imul i 2; a.[i <- v]) arr) as (a & Ha & Hl & Hi & Hg).
  - split_and!; [done|done|lia].
  - intros j a Hj (Hl & Hi & Hg). rewrite imul_Ok by (unfold INT_MIN, INT_MAX; lia). rewrite bind_ret_l.
    unfold arr_write, in_range. case_cond; [|lia]. eexists. split; [done|].
    rewrite length_zset. split_and!; [done|apply Forall_zset; [done|unfold is_int, INT_MIN, INT_MAX; lia]|].
    intros i Hij. rewrite zget_zset. unfold in_range. case_cond; [f_equal; lia|]. apply Hg. lia.
  - exists a. split_and!; [done..|]. intros i Hi'. apply Hg. lia.
Qed.

(** With an allocated block the driver completes and its two checksums agree,
    so that a difference between the implementations would be seen. *)
Lemma performance_test_agrees m0 arr size :
  0 < size <= len arr -> size <= 2 ^ 30 -> Forall is_int arr ->
  exists x, run_performance_test m0 (Some arr) size = Ok (Some (x, x)).
Proof.
  intros Hsize Hmax Hint. cbn [run_performance_test].
  destruct (generate_test_data_spec arr size) as (a & -> & Hl & Hi & _); [lia|done..|]. rewrite bind_ret_l.
  assert (forall i, 0 <= i <= INT_MAX -> imod i size = Ok (i mod size) /\ imul (i mod size) 2 = Ok (i mod size * 2) /\
    iadd (i mod size * 2) 1 = Ok (i mod size * 2 + 1) /\ is_int (i mod size * 2) /\ is_int (i mod size * 2 + 1)) as Har.
  { intros i Hi'. pose proof (Z.mod_pos_bound i size). unfold is_int.
    rewrite imod_Ok, imul_Ok, iadd_Ok by (unfold INT_MIN, INT_MAX in *; lia). unfold INT_MIN, INT_MAX. split_and!; try done; lia. }
  assert (forall i t, is_int t -> exists r, binary_search_c a size t = Ok r /\ binary_search_asm (m0 i) a size t = Ok r) as Heq
    by (intros i t Ht; apply asm_equiv; [lia|done..]).
  destruct (for_range_inv (fun _ _ => True) 1000 0
    (fun i => warm_up_pass (binary_search_c a size) (binary_search_asm (m0 i) a size) size i) tt) as (u & -> & _); [done|..].
  { intros j v Hj _. destruct (Har j) as (E1 & E2 & _ & E4 & _); [unfold INT_MAX; lia|].
    unfold warm_up_pass. rewrite E1, bind_ret_l, E2, bind_ret_l. destruct (Heq j _ E4) as (r & -> & ->). by eexists. }
  rewrite bind_ret_l.
  destruct (for_range_inv (fun _ _ => True) (Z.to_nat 100000) 0 (checksum_pass (binary_search_c a size) size) 0)
    as (x & Hx & _); [done|..].
  { intros j acc Hj _. destruct (Har j) as (E1 & E2 & E3 & E4 & E5); [unfold INT_MAX; lia|].
    unfold checksum_pass. rewrite E1, bind_ret_l, E2, bind_ret_l. destruct (Heq j _ E4) as (r & -> & _).
    rewrite bind_ret_l, E3, bind_ret_l. destruct (Heq j _ E5) as (r' & -> & _). by eexists. }
  exists x. rewrite Hx, bind_ret_l.
  rewrite (for_range_ext _ _ _ (checksum_pass (binary_search_c a size) size)), Hx; [done|].
  intros j acc Hj. destruct (Har j) as (E1 & E2 & E3 & E4 & E5); [unfold INT_MAX; lia|].
  unfold checksum_pass. rewrite E1, !bind_ret_l, E2, !bind_ret_l.
  destruct (Heq j _ E4) as (r & -> & ->), (Heq j _ E5) as (r' & Hr1 & Hr2). rewrite !bind_ret_l, E3, !bind_ret_l.
  by rewrite Hr1, Hr2.
Qed.
