(* ===== verification/MatMul.v ===== *)
(** * Matrix multiplication ([utils/matrixMul/])

    The naive, the blocked and the two vectorised programs, over any
    arithmetic on the elements: nothing is assumed of addition and
    multiplication, so the theorems hold for [double]s with their rounding.
    The programs store matrices as rows ([double**]) or flat; the class
    [MatStore] has the accesses of both, [MatLaws] what they promise, and the
    loops are modelled and proved against it.  The blocked and the vectorised
    programs add the products of an element in the order of the naive one,
    which is why they compute the same matrix. *)
From Stdlib Require Import ZArith Lia.
From stdpp Require Import base tactics list numbers option.
From S2P Require Import Prelude.

#[local] Open Scope Z_scope.
#[local] Open Scope c_scope.

(** Arithmetic on the elements; [fma x y z] is [x * y + z] with one rounding. *)
Class Arith (F : Type) : Type := {
  zero : F;
  add : F -> F -> F;
  mul : F -> F -> F;
  fma : F -> F -> F -> F
}.

(** ** Storage of an [N] by [N] matrix *)

Class MatStore (M F : Type) : Type := {
  mat_read : Z -> M -> Z -> Z -> res F;
  mat_write : Z -> M -> Z -> Z -> F -> res M
}.

Definition in_mat (N i j : Z) : Prop := 0 <= i < N /\ 0 <= j < N.

Class MatLaws (M F : Type) `{MatStore M F} : Type := {
  mat_shape : Z -> M -> Prop;
  read_law : forall N m i j, mat_shape N m -> in_mat N i j -> exists x, mat_read N m i j = Ok x;
  write_law : forall N m i j x, mat_shape N m -> in_mat N i j ->
    exists m', mat_write N m i j x = Ok m' /\ mat_shape N m' /\ mat_read N m' i j = Ok x /\
      forall i' j', in_mat N i' j' -> (i', j') <> (i, j) -> mat_read N m' i' j' = mat_read N m i' j'
}.

(** [double**]: an array of rows. *)
Definition rows (F : Type) : Type := list (list F).
#[export] Typeclasses Opaque rows.
#[export] Instance rows_store F : MatStore (rows F) F := {
  mat_read N m i j := row ← m.[i]; row.[j];
  mat_write N m i j x := row ← m.[i]; row' ← row.[j <- x]; m.[i <- row']
}.

(** [double*]: element [i * N + j], computed in [int]. *)
Definition flat_index (N i j : Z) : res Z := p ← imul i N; iadd p j.
#[export] Instance flat_store F : MatStore (list F) F := {
  mat_read N m i j := k ← flat_index N i j; m.[k];
  mat_write N m i j x := k ← flat_index N i j; m.[k <- x]
}.

(** C's [min]. *)
Definition min (a b : Z) : Z := if a <? b then a else b.

(** ** The programs *)
Section programs.
Context {M F : Type} `{Arith F} `{MatStore M F}.

(** [C[i][j] += A[i][k] * B[k][j]] *)
Definition accumulate (N : Z) (A B : M) (i k j : Z) (C : M) : res M :=
  c ← mat_read N C i j;
  a ← mat_read N A i k;
  b ← mat_read N B k j;
  mat_write N C i j (add c (mul a b)).

(** [matrix_multiply] of [matrix_basic.c]. *)
Definition matrix_multiply (N : Z) (A B C : M) : res M :=
  for_range (Z.to_nat N) 0 (fun i C =>
    for_range (Z.to_nat N) 0 (fun j C =>
      C ← mat_write N C i j zero;
      for_range (Z.to_nat N) 0 (fun k C => accumulate N A B i k j C) C) C) C.

(** The three loops inside a block, with the innermost statement a parameter. *)
Definition clear (N : Z) (C : M) : res M :=
  for_range (Z.to_nat N) 0 (fun i C =>
    for_range (Z.to_nat N) 0 (fun j C => mat_write N C i j zero) C) C.

Definition block_row (N BLOCK_SIZE : Z) (A B : M) (j ii kk : Z) (C : M) : res M :=
  for_range (Z.to_nat (min (j + BLOCK_SIZE) N - j)) j (fun jj C => accumulate N A B ii kk jj C) C.

Definition block (row : Z -> Z -> M -> res M) (N BLOCK_SIZE i k : Z) (C : M) : res M :=
  for_range (Z.to_nat (min (i + BLOCK_SIZE) N - i)) i (fun ii C =>
    for_range (Z.to_nat (min (k + BLOCK_SIZE) N - k)) k (fun kk C => row ii kk C) C) C.

(** [matrix_multiply_blocked] of [matrix_cache.c]. *)
Definition matrix_multiply_blocked (N BLOCK_SIZE : Z) (A B C : M) : res M :=
  C ← clear N C;
  for_step (passes 0 N BLOCK_SIZE) 0 BLOCK_SIZE (fun i C =>
    for_step (passes 0 N BLOCK_SIZE) 0 BLOCK_SIZE (fun k C =>
      for_step (passes 0 N BLOCK_SIZE) 0 BLOCK_SIZE (fun j C =>
        block (block_row N BLOCK_SIZE A B j) N BLOCK_SIZE i k C) C) C) C.
End programs.

(** The vectorised programs work on flat matrices, four lanes at a time. *)
Section vectorised.
Context {F : Type} `{Arith F}.

Definition loadu (m : list F) (k : Z) : res (list F) :=
  x0 ← m.[k]; x1 ← m.[k + 1]; x2 ← m.[k + 2]; x3 ← m.[k + 3]; Ok [x0; x1; x2; x3].

Definition storeu (m : list F) (k : Z) (v : list F) : res (list F) :=
  x0 ← v.[0]; x1 ← v.[1]; x2 ← v.[2]; x3 ← v.[3];
  m ← m.[k <- x0]; m ← m.[k + 1 <- x1]; m ← m.[k + 2 <- x2]; m.[k + 3 <- x3].

(** [_mm256_fmadd_pd] with the first operand broadcast. *)
Definition fmadd (a : F) (b c : list F) : list F := zip_with (fma a) b c.

(** The loop over [jj].  [guard] is the test [jj + 4 <= N] that
    [matrix_optimized.c] has and [matrixOptimized.c] has not. *)
Definition simd_row (guard : bool) (N BLOCK_SIZE : Z) (A B : list F) (j ii kk : Z) (C : list F) : res (list F) :=
  a ← mat_read N A ii kk;
  for_step (passes j (min (j + BLOCK_SIZE) N) 4) j 4 (fun jj C =>
    if negb guard || (jj + 4 <=? N) then
      kb ← flat_index N kk jj;
      b ← loadu B kb;
      kc ← flat_index N ii jj;
      c ← loadu C kc;
      storeu C kc (fmadd a b c)
    else Ok C) C.

(** One iteration of the parallel loops over [i] and [j]. *)
Definition simd_tile (guard : bool) (N BLOCK_SIZE : Z) (A B : list F) (i j : Z) (C : list F) : res (list F) :=
  for_step (passes 0 N BLOCK_SIZE) 0 BLOCK_SIZE (fun k C =>
    block (simd_row guard N BLOCK_SIZE A B j) N BLOCK_SIZE i k C) C.

(** [memset(C, 0, N * N * sizeof(double))] *)
Definition memset_zero (N : Z) (C : list F) : res (list F) :=
  for_range (Z.to_nat (N * N)) 0 (fun k C => C.[k <- zero]) C.

Fixpoint run_tiles (guard : bool) (N BLOCK_SIZE : Z) (A B : list F) (tiles : list (Z * Z)) (C : list F) : res (list F) :=
  match tiles with
  | [] => Ok C
  | (i, j) :: tiles' => C ← simd_tile guard N BLOCK_SIZE A B i j C; run_tiles guard N BLOCK_SIZE A B tiles' C
  end.

(** [matrix_multiply_optimized]; [schedule] is the order in which the
    iterations of the parallel loops run.  A null matrix is not touched. *)
Definition matrix_multiply_optimized (guard : bool) (N BLOCK_SIZE : Z) (schedule : list (Z * Z))
    (A B C : option (list F)) : res (option (list F)) :=
  match A, B, C with
  | Some A, Some B, Some C =>
      C ← memset_zero N C;
      C ← run_tiles guard N BLOCK_SIZE A B schedule C;
      Ok (Some C)
  | _, _, _ => Ok C
  end.

(** The iterations of [collapse(2)] in source order. *)
Definition tile_origins (N BLOCK_SIZE : Z) : list Z := (fun m => m * BLOCK_SIZE) <$> seqZ 0 (Z.of_nat (passes 0 N BLOCK_SIZE)).
Definition all_tiles (N BLOCK_SIZE : Z) : list (Z * Z) :=
  i ← tile_origins N BLOCK_SIZE; j ← tile_origins N BLOCK_SIZE; [(i, j)].
End vectorised.

(** ** Drivers *)
Section drivers.
Context {F : Type} `{Arith F}.

(** [create_matrix]: [top] tells whether the array of rows could be allocated,
    [row_mem i] is the uninitialised row [i], [rnd i j] the random element.
    [matrix_basic.c] does not check the allocations ([fail] is [NullDeref]),
    [matrix_cache.c] exits with 1. *)
Definition create_matrix (fail : fault) (N : Z) (top : bool) (row_mem : Z -> option (list F)) (rnd : Z -> Z -> F) :
    res (rows F) :=
  if negb top then Fault fail
  else for_range (Z.to_nat N) 0 (fun i m =>
    match row_mem i with
    | None => Fault fail
    | Some row =>
        row ← for_range (Z.to_nat N) 0 (fun j row => row.[j <- rnd i j]) row;
        Ok (m ++ [row])
    end) [].

(** [main] of [matrix_basic.c] and of [matrix_cache.c]; the matrices differ in
    their memory and random elements. *)
Definition basic_main (N : Z) (row_mem : Z -> Z -> option (list F)) (rnd : Z -> Z -> Z -> F) : res (rows F) :=
  A ← create_matrix NullDeref N true (row_mem 0) (rnd 0);
  B ← create_matrix NullDeref N true (row_mem 1) (rnd 1);
  C ← create_matrix NullDeref N true (row_mem 2) (rnd 2);
  matrix_multiply N A B C.

Definition cache_main (N BLOCK_SIZE : Z) (row_mem : Z -> Z -> option (list F)) (rnd : Z -> Z -> Z -> F) : res (rows F) :=
  A ← create_matrix (Exit 1) N true (row_mem 0) (rnd 0);
  B ← create_matrix (Exit 1) N true (row_mem 1) (rnd 1);
  C ← create_matrix (Exit 1) N true (row_mem 2) (rnd 2);
  matrix_multiply_blocked N BLOCK_SIZE A B C.

(** [initialize_matrix] and [create_aligned_matrix] of the vectorised programs:
    [mem] is the block [posix_memalign] returns. *)
Definition initialize_matrix (N : Z) (rnd : Z -> F) (m : list F) : res (list F) :=
  for_range (Z.to_nat (N * N)) 0 (fun i m => m.[i <- rnd i]) m.

Definition create_aligned_matrix (N : Z) (mem : option (list F)) (rnd : Z -> F) : res (option (list F)) :=
  match mem with
  | None => Ok None
  | Some m => m ← initialize_matrix N rnd m; Ok (Some m)
  end.

(** [validate_result]: the number of elements in the top left corner that are
    [far] from the sum of products; [far x y] is [fabs(x - y) > 1e-5]. *)
Definition validate_pass (far : F -> F -> bool) (N : Z) (A B C : list F) (i j errors : Z) : res Z :=
  sum ← for_range (Z.to_nat N) 0 (fun k sum =>
    a ← mat_read N A i k; b ← mat_read N B k j; Ok (add sum (mul a b))) zero;
  c ← mat_read N C i j;
  if far sum c then iadd errors 1 else Ok errors.

Definition validate_result (far : F -> F -> bool) (N : Z) (A B C : list F) : res Z :=
  for_range (Z.to_nat (min 5 N)) 0 (fun i errors =>
    for_range (Z.to_nat (min 5 N)) 0 (fun j errors => validate_pass far N A B C i j errors) errors) 0.

(** [main] of the vectorised programs: exit status and number of errors. *)
Definition optimized_main (guard : bool) (far : F -> F -> bool) (N BLOCK_SIZE : Z) (schedule : list (Z * Z))
    (mem : Z -> option (list F)) (rnd : Z -> Z -> F) : res (Z * option Z) :=
  A ← create_aligned_matrix N (mem 0) (rnd 0);
  B ← create_aligned_matrix N (mem 1) (rnd 1);
  C ← create_aligned_matrix N (mem 2) (rnd 2);
  match A, B, C with
  | Some A', Some B', Some C' =>
      P ← matrix_multiply_optimized guard N BLOCK_SIZE schedule A B C;
      match P with
      | Some P' => errors ← validate_result far N A' B' P'; Ok (0, Some errors)
      | None => Ok (0, None)
      end
  | _, _, _ => Ok (1, None)
  end.

(** The constants of the four programs. *)
Definition matrix_basic := basic_main 1024.
Definition matrix_cache := cache_main 1024 32.
Definition matrix_optimized (far : F -> F -> bool) := optimized_main true far 1024 32.

(** [matrixOptimized.c] also checks that the size in bytes does not overflow. *)
Definition create_aligned_matrix_4096 (mem : option (list F)) (rnd : Z -> F) : res (option (list F)) :=
  if negb (u64 (4096 * 4096 * 8) / 8 =? 4096 * 4096) then Ok None else create_aligned_matrix 4096 mem rnd.

Definition matrix_multiply_4096 := matrix_multiply_optimized false 4096 64.

Definition matrixOptimized (far : F -> F -> bool) (schedule : list (Z * Z)) (mem : Z -> option (list F))
    (rnd : Z -> Z -> F) : res (Z * option Z) :=
  A ← create_aligned_matrix_4096 (mem 0) (rnd 0);
  B ← create_aligned_matrix_4096 (mem 1) (rnd 1);
  C ← create_aligned_matrix_4096 (mem 2) (rnd 2);
  match A, B, C with
  | Some A', Some B', Some C' =>
      P ← matrix_multiply_4096 schedule A B C;
      match P with
      | Some P' => errors ← validate_result far 4096 A' B' P'; Ok (0, Some errors)
      | None => Ok (0, None)
      end
  | _, _, _ => Ok (1, None)
  end.
End drivers.

(** ** The storage laws *)

#[export] Instance rows_laws F : MatLaws (rows F) F.
Proof.
  apply (Build_MatLaws _ _ _ (fun N m => len m = N /\ Forall (fun row => len row = N) m)).
  - intros N m i j [Hm Hrows] [Hi Hj]. cbn.
    destruct (zget_range m i) as [row Hrow]; [lia|]. rewrite (arr_read_Ok _ _ _ Hrow), bind_ret_l.
    pose proof (Forall_zget _ _ _ _ Hrows Hrow) as Hlen. destruct (zget_range row j) as [x Hx]; [cbn in Hlen; lia|].
    exists x. by apply arr_read_Ok.
  - intros N m i j x [Hm Hrows] [Hi Hj]. cbn.
    destruct (zget_range m i) as [row Hrow]; [lia|]. rewrite (arr_read_Ok _ _ _ Hrow), bind_ret_l.
    pose proof (Forall_zget _ _ _ _ Hrows Hrow) as Hlen. cbn in Hlen.
    rewrite arr_write_Ok, bind_ret_l, arr_write_Ok by lia. eexists. split; [done|]. rewrite length_zset. split_and!.
    + done.
    + apply Forall_zset; [done|]. by rewrite length_zset.
    + rewrite (arr_read_Ok _ _ (zset row j x)), bind_ret_l by (apply zget_zset_eq; lia).
      apply arr_read_Ok, zget_zset_eq. lia.
    + intros i' j' [Hi' Hj'] Hne. destruct (decide (i' = i)) as [->|Hni].
      * rewrite (arr_read_Ok _ _ (zset row j x)), (arr_read_Ok _ _ _ Hrow), !bind_ret_l by (apply zget_zset_eq; lia).
        unfold arr_read. rewrite zget_zset_ne; [done|congruence].
      * assert ((zset m i (zset row j x)).[i'] = m.[i']) as -> by (unfold arr_read; by rewrite zget_zset_ne). done.
Defined.

Lemma flat_index_Ok N i j : in_mat N i j -> N * N <= INT_MAX -> flat_index N i j = Ok (i * N + j).
Proof.
  intros [Hi Hj] HN. unfold flat_index. assert (0 <= i * N + j < N * N) by nia.
  rewrite imul_Ok, bind_ret_l, iadd_Ok; [done|unfold INT_MIN; nia..].
Qed.

Lemma flat_index_inj N i j i' j' : in_mat N i j -> in_mat N i' j' -> i * N + j = i' * N + j' -> (i, j) = (i', j').
Proof. intros [Hi Hj] [Hi' Hj'] He. assert (i = i') by nia. subst. f_equal. lia. Qed.

#[export] Instance flat_laws F : MatLaws (list F) F.
Proof.
  apply (Build_MatLaws _ _ _ (fun N m => len m = N * N /\ N * N <= INT_MAX)).
  - intros N m i j [Hm HN] Hij. cbn. rewrite flat_index_Ok, bind_ret_l by done.
    destruct (zget_range m (i * N + j)) as [x Hx]; [destruct Hij; nia|]. exists x. by apply arr_read_Ok.
  - intros N m i j x [Hm HN] Hij. cbn. assert (0 <= i * N + j < N * N) by (destruct Hij; nia).
    rewrite flat_index_Ok, bind_ret_l, arr_write_Ok by (done || lia).
    eexists. split; [done|]. rewrite length_zset. split_and!; [done|done|..].
    + rewrite bind_ret_l. apply arr_read_Ok, zget_zset_eq. lia.
    + intros i' j' Hij' Hne. rewrite flat_index_Ok, !bind_ret_l by done. unfold arr_read. rewrite zget_zset_ne; [done|].
      intros He. apply Hne. symmetry. by eapply flat_index_inj.
Defined.

(** ** What the loops compute *)

Section values.
Context {M F : Type} `{Arith F} `{MatLaws M F}.

(** The matrix [m] has the elements [f i j]. *)
Definition is_mat (N : Z) (m : M) (f : Z -> Z -> F) : Prop :=
  mat_shape N m /\ forall i j, in_mat N i j -> mat_read N m i j = Ok (f i j).

Lemma is_mat_ext N m f g : (forall i j, in_mat N i j -> f i j = g i j) -> is_mat N m f -> is_mat N m g.
Proof. intros Hfg [Hs Hf]. split; [done|]. intros i j Hij. by rewrite Hf, Hfg. Qed.

Definition upd (f : Z -> Z -> F) (i j : Z) (x : F) : Z -> Z -> F :=
  fun r c => if (r =? i) && (c =? j) then x else f r c.

Lemma write_mat N m f i j x :
  is_mat N m f -> in_mat N i j -> exists m', mat_write N m i j x = Ok m' /\ is_mat N m' (upd f i j x).
Proof.
  intros [Hs Hf] Hij. destruct (write_law N m i j x Hs Hij) as (m' & Hw & Hs' & Hr & Hne).
  exists m'. split; [done|]. split; [done|]. intros r c Hrc. unfold upd. case_cond.
  - by replace r with i by lia; replace c with j by lia.
  - rewrite Hne, Hf; [done..|]. intros [= -> ->]. lia.
Qed.

(** The first [n] terms of an element, added in order. *)
Fixpoint psum (step : Z -> F -> F) (n : nat) : F :=
  match n with
  | O => zero
  | S n' => step (Z.of_nat n') (psum step n')
  end.

(** [step i k j acc] adds the term [k] of element [i, j]. *)
Definition partial (step : Z -> Z -> Z -> F -> F) (n i j : Z) : F := psum (fun k => step i k j) (Z.to_nat n).

Lemma partial_0 step i j : partial step 0 i j = zero.
Proof. done. Qed.
Lemma partial_next step k i j : 0 <= k -> partial step (k + 1) i j = step i k j (partial step k i j).
Proof. intros Hk. unfold partial. rewrite Z2Nat.inj_add, Nat.add_1_r by lia. cbn [psum]. by rewrite Z2Nat.id. Qed.

Definition dot_step (a b : Z -> Z -> F) (i k j : Z) (acc : F) : F := add acc (mul (a i k) (b k j)).
Definition fma_step (a b : Z -> Z -> F) (i k j : Z) (acc : F) : F := fma (a i k) (b k j) acc.

(** The matrix product, with the terms in increasing order. *)
Definition dot (N : Z) (a b : Z -> Z -> F) (i j : Z) : F := partial (dot_step a b) N i j.
Definition dot_fma (N : Z) (a b : Z -> Z -> F) (i j : Z) : F := partial (fma_step a b) N i j.

(** Of element [r, c] the first [g r c] terms have been added; if [g r c] is
    negative the element still has its old value. *)
Definition counts (junk : Z -> Z -> F) (step : Z -> Z -> Z -> F -> F) (N : Z) (g : Z -> Z -> Z) (C : M) : Prop :=
  is_mat N C (fun r c => if g r c <? 0 then junk r c else partial step (g r c) r c).

Lemma counts_ext junk step N g g' C :
  (forall r c, in_mat N r c -> g r c = g' r c) -> counts junk step N g C -> counts junk step N g' C.
Proof. intros Hg. apply is_mat_ext. intros i j Hij. by rewrite Hg. Qed.

(** [g] with [v] at row [r0] and the columns [lo .. hi - 1]. *)
Definition set_row (g : Z -> Z -> Z) (r0 lo hi v : Z) : Z -> Z -> Z :=
  fun r c => if (r =? r0) && ((lo <=? c) && (c <? hi)) then v else g r c.

(** [g] with [v] in the rows [rlo .. rhi - 1] and the columns [lo .. hi - 1]. *)
Definition set_rect (g : Z -> Z -> Z) (rlo rhi lo hi v : Z) : Z -> Z -> Z :=
  fun r c => if ((rlo <=? r) && (r <? rhi)) && ((lo <=? c) && (c <? hi)) then v else g r c.

Lemma accumulate_counts junk N A B C a b g i k j :
  is_mat N A a -> is_mat N B b -> counts junk (dot_step a b) N g C -> in_mat N i j -> 0 <= k < N -> g i j = k ->
  exists C', accumulate N A B i k j C = Ok C' /\ counts junk (dot_step a b) N (set_row g i j (j + 1) (k + 1)) C'.
Proof.
  intros [_ HA] [_ HB] HC Hij Hk Hg. unfold accumulate. pose proof Hij as [Hi Hj].
  pose proof (proj2 HC i j Hij) as HCr. cbn beta in HCr. rewrite Hg in HCr. replace (k <? 0) with false in HCr by lia.
  rewrite HCr, HA, HB by (done || by split). rewrite !bind_ret_l.
  destruct (write_mat N C _ i j (add (partial (dot_step a b) k i j) (mul (a i k) (b k j))) HC Hij) as (C' & Hw & HC').
  exists C'. split; [done|]. eapply is_mat_ext; [|exact HC']. intros r c Hrc. unfold upd, set_row.
  destruct (Z.eqb_spec r i) as [->|Hr], (Z.eqb_spec c j) as [->|Hc]; cbn [andb].
  - replace ((j <=? j) && (j <? j + 1)) with true by lia. replace (k + 1 <? 0) with false by lia. by rewrite partial_next by lia.
  - by replace ((j <=? c) && (c <? j + 1)) with false by lia.
  - done.
  - done.
Qed.
End values.

Ltac cell := unfold set_rect, set_row; repeat case_cond; try lia.

Section blocks.
Context {M F : Type} `{Arith F} `{MatLaws M F}.
Context (N BS : Z) (HBS : 0 < BS) (junk : Z -> Z -> F) (step : Z -> Z -> Z -> F -> F).

(** [row ii kk] adds the term [kk] to the columns [lo .. hi - 1] of row [ii]. *)
Definition row_spec (row : Z -> Z -> M -> res M) (lo hi : Z) : Prop :=
  forall ii kk g C, 0 <= ii < N -> 0 <= kk < N -> counts junk step N g C -> (forall c, lo <= c < hi -> g ii c = kk) ->
  exists C', row ii kk C = Ok C' /\ counts junk step N (set_row g ii lo hi (kk + 1)) C'.

Lemma min_bounds i : 0 <= i < N -> i < min (i + BS) N <= N.
Proof. unfold min. case_cond; lia. Qed.

(** A block adds the terms [k .. kmax - 1] to its rectangle. *)
Lemma block_counts row lo hi i k g C :
  row_spec row lo hi -> 0 <= i < N -> 0 <= k < N -> counts junk step N g C ->
  (forall r c, i <= r < min (i + BS) N -> lo <= c < hi -> g r c = k) ->
  exists C', block row N BS i k C = Ok C' /\
    counts junk step N (set_rect g i (min (i + BS) N) lo hi (min (k + BS) N)) C'.
Proof.
  intros Hrow Hi Hk HC Hg. pose proof (min_bounds i Hi) as Hmi. pose proof (min_bounds k Hk) as Hmk.
  set (kmax := min (k + BS) N) in *. set (imax := min (i + BS) N) in *.
  destruct (for_range_inv (fun ii C => counts junk step N (set_rect g i ii lo hi kmax) C) (Z.to_nat (imax - i)) i
    (fun ii C => for_range (Z.to_nat (kmax - k)) k (fun kk C => row ii kk C) C) C) as (C' & HC' & HI).
  - eapply counts_ext; [|exact HC]. intros r c Hrc. cell.
  - intros ii C1 Hii HC1.
    destruct (for_range_inv (fun kk C => counts junk step N (set_row (set_rect g i ii lo hi kmax) ii lo hi kk) C)
      (Z.to_nat (kmax - k)) k (fun kk C => row ii kk C) C1) as (C2 & HC2 & HI2).
    + eapply counts_ext; [|exact HC1]. intros r c Hrc. cell. rewrite Hg by lia. lia.
    + intros kk C2 Hkk HC2. destruct (Hrow ii kk _ C2 ltac:(lia) ltac:(lia) HC2) as (C3 & HC3 & HI3).
      { intros c Hc. cell. }
      exists C3. split; [done|]. eapply counts_ext; [|exact HI3]. intros r c Hrc. cell.
    + exists C2. split; [done|]. eapply counts_ext; [|exact HI2]. intros r c Hrc. cell.
  - exists C'. split; [done|]. eapply counts_ext; [|exact HI]. intros r c Hrc.
    replace (i + Z.of_nat (Z.to_nat (imax - i))) with imax by lia. done.
Qed.

Lemma passes_block n m : 0 <= m < Z.of_nat (passes 0 n BS) -> 0 <= m * BS < n.
Proof.
  unfold passes. intros Hm. assert (0 <= n - 0 + BS - 1) by (destruct (Z.ltb_spec (n - 0 + BS - 1) 0); [|lia];
    assert ((n - 0 + BS - 1) / BS < 0) by (apply Z.div_lt_upper_bound; lia); lia).
  rewrite Z2Nat.id in Hm by (apply Z.div_pos; lia).
  pose proof (Z.mul_div_le (n - 0 + BS - 1) BS HBS). nia.
Qed.

Lemma passes_end n : 0 <= n -> n <= Z.of_nat (passes 0 n BS) * BS.
Proof.
  intros Hn. unfold passes. rewrite Z2Nat.id by (apply Z.div_pos; lia).
  pose proof (Z.mul_succ_div_gt (n - 0 + BS - 1) BS HBS). lia.
Qed.

Lemma next_block m : 0 <= m < Z.of_nat (passes 0 N BS) -> min (m * BS + BS) N = Z.min ((m + 1) * BS) N.
Proof. intros Hm. unfold min. case_cond; lia. Qed.
End blocks.

Section scalar.
Context {M F : Type} `{Arith F} `{MatLaws M F}.
Context (N : Z) (HN : 0 <= N) (A B : M) (a b : Z -> Z -> F) (HA : is_mat N A a) (HB : is_mat N B b).
Context (junk : Z -> Z -> F).

(** A range of columns, one [accumulate] each. *)
Lemma accumulate_range lo hi ii kk g C :
  0 <= lo <= hi -> hi <= N -> 0 <= ii < N -> 0 <= kk < N -> counts junk (dot_step a b) N g C ->
  (forall c, lo <= c < hi -> g ii c = kk) ->
  exists C', for_range (Z.to_nat (hi - lo)) lo (fun jj C => accumulate N A B ii kk jj C) C = Ok C' /\
    counts junk (dot_step a b) N (set_row g ii lo hi (kk + 1)) C'.
Proof.
  intros Hlo Hhi Hii Hkk HC Hg.
  destruct (for_range_inv (fun jj C => counts junk (dot_step a b) N (set_row g ii lo jj (kk + 1)) C) (Z.to_nat (hi - lo)) lo
    (fun jj C => accumulate N A B ii kk jj C) C) as (C' & HC' & HI).
  - eapply counts_ext; [|exact HC]. intros r c Hrc. cell.
  - intros jj C1 Hjj HC1.
    destruct (accumulate_counts junk N A B C1 a b _ ii kk jj HA HB HC1) as (C2 & HC2 & HI2); [split; lia|lia|..].
    { cell. apply Hg. lia. }
    exists C2. split; [done|]. eapply counts_ext; [|exact HI2]. intros r c Hrc. cell.
  - exists C'. split; [done|]. eapply counts_ext; [|exact HI]. intros r c Hrc.
    by replace (lo + Z.of_nat (Z.to_nat (hi - lo))) with hi by lia.
Qed.

(** All the terms of one element. *)
Lemma accumulate_all i j g C :
  in_mat N i j -> counts junk (dot_step a b) N g C -> g i j = 0 ->
  exists C', for_range (Z.to_nat N) 0 (fun k C => accumulate N A B i k j C) C = Ok C' /\
    counts junk (dot_step a b) N (set_row g i j (j + 1) N) C'.
Proof.
  intros Hij HC Hg.
  destruct (for_range_inv (fun k C => counts junk (dot_step a b) N (set_row g i j (j + 1) k) C) (Z.to_nat N) 0
    (fun k C => accumulate N A B i k j C) C) as (C' & HC' & HI).
  - eapply counts_ext; [|exact HC]. intros r c Hrc. cell. replace r with i by lia. replace c with j by lia. lia.
  - intros k C1 Hk HC1.
    destruct (accumulate_counts junk N A B C1 a b _ i k j HA HB HC1) as (C2 & HC2 & HI2); [done|lia|cell|].
    exists C2. split; [done|]. eapply counts_ext; [|exact HI2]. intros r c Hrc. cell.
  - exists C'. split; [done|]. by replace N with (0 + Z.of_nat (Z.to_nat N)) at 2 by lia.
Qed.

(** Writing zero resets the count. *)
Lemma write_zero step i j g C :
  in_mat N i j -> counts junk step N g C ->
  exists C', mat_write N C i j zero = Ok C' /\ counts junk step N (set_row g i j (j + 1) 0) C'.
Proof.
  intros Hij HC. destruct (write_mat N C _ i j zero HC Hij) as (C' & Hw & HC'). exists C'. split; [done|].
  eapply is_mat_ext; [|exact HC']. intros r c Hrc. unfold upd, set_row.
  destruct (Z.eqb_spec r i), (Z.eqb_spec c j); cbn [andb]; try done.
  - by replace ((j <=? c) && (c <? j + 1)) with true by lia.
  - by replace ((j <=? c) && (c <? j + 1)) with false by lia.
Qed.
End scalar.

Section products.
Context {M F : Type} `{Arith F} `{MatLaws M F}.
Context (N : Z) (HN : 0 <= N).

(** Two nested loops that treat each element once. *)
Lemma cells_loop junk step v (body : Z -> Z -> M -> res M) C :
  (forall i j g C, in_mat N i j -> counts junk step N g C -> g i j = -1 ->
     exists C', body i j C = Ok C' /\ counts junk step N (set_row g i j (j + 1) v) C') ->
  counts junk step N (fun _ _ => -1) C ->
  exists C', for_range (Z.to_nat N) 0 (fun i C => for_range (Z.to_nat N) 0 (fun j C => body i j C) C) C = Ok C' /\
    counts junk step N (fun _ _ => v) C'.
Proof.
  intros Hbody HC. set (g0 := fun _ _ : Z => -1) in *.
  destruct (for_range_inv (fun i C => counts junk step N (set_rect g0 0 i 0 N v) C) (Z.to_nat N) 0
    (fun i C => for_range (Z.to_nat N) 0 (fun j C => body i j C) C) C) as (C' & HC' & HI).
  - eapply counts_ext; [|exact HC]. intros r c Hrc. cell.
  - intros i C1 Hi HC1.
    destruct (for_range_inv (fun j C => counts junk step N (set_row (set_rect g0 0 i 0 N v) i 0 j v) C) (Z.to_nat N) 0
      (fun j C => body i j C) C1) as (C2 & HC2 & HI2).
    + eapply counts_ext; [|exact HC1]. intros r c Hrc. cell.
    + intros j C2 Hj HC2. destruct (Hbody i j _ C2 ltac:(split; lia) HC2) as (C3 & HC3 & HI3); [subst g0; cell|].
      exists C3. split; [done|]. eapply counts_ext; [|exact HI3]. intros r c Hrc. cell.
    + replace (0 + Z.of_nat (Z.to_nat N)) with N in HI2 by lia.
      exists C2. split; [done|]. eapply counts_ext; [|exact HI2]. intros r c [? ?]. cell.
  - replace (0 + Z.of_nat (Z.to_nat N)) with N in HI by lia.
    exists C'. split; [done|]. eapply counts_ext; [|exact HI]. intros r c [? ?]. cell.
Qed.

Lemma shape_counts step C : mat_shape N C -> exists junk, counts junk step N (fun _ _ => -1) C.
Proof.
  intros Hs. exists (fun i j => match mat_read N C i j with Ok x => x | Fault _ => zero end). split; [done|].
  intros i j Hij. destruct (read_law N C i j Hs Hij) as [x ->]. done.
Qed.

Lemma counts_done junk step n C : 0 <= n -> counts junk step N (fun _ _ => n) C -> is_mat N C (partial step n).
Proof. intros Hn. apply is_mat_ext. intros i j Hij. by replace (n <? 0) with false by lia. Qed.

Section inputs.
Context (A B : M) (a b : Z -> Z -> F) (HA : is_mat N A a) (HB : is_mat N B b).

Lemma naive_product C :
  mat_shape N C -> exists C', matrix_multiply N A B C = Ok C' /\ is_mat N C' (dot N a b).
Proof.
  intros Hs. destruct (shape_counts (dot_step a b) C Hs) as [junk HC].
  destruct (cells_loop junk (dot_step a b) N (fun i j C =>
    C ← mat_write N C i j zero; for_range (Z.to_nat N) 0 (fun k C => accumulate N A B i k j C) C) C) as (C' & Hrun & HC').
  - intros i j g C1 Hij HC1 _. destruct (write_zero N junk (dot_step a b) i j g C1 Hij HC1) as (C2 & -> & HC2).
    rewrite bind_ret_l. destruct (accumulate_all N HN A B a b HA HB junk i j _ C2 Hij HC2) as (C3 & HC3 & HI3); [cell|].
    exists C3. split; [done|]. eapply counts_ext; [|exact HI3]. intros r c Hrc. cell.
  - done.
  - exists C'. split; [done|]. by eapply counts_done.
Qed.

Lemma clear_counts step C :
  mat_shape N C -> exists junk C', clear N C = Ok C' /\ counts junk step N (fun _ _ => 0) C'.
Proof.
  intros Hs. destruct (shape_counts step C Hs) as [junk HC]. exists junk.
  apply (cells_loop junk step 0 (fun i j C => mat_write N C i j zero) C); [|done].
  intros i j g C1 Hij HC1 _. by apply write_zero.
Qed.

End inputs.

(** The loop over [k], for a rectangle whose counts are 0: each pass adds the
    terms of one block of [k]. *)
Lemma k_loop junk step BS (body : Z -> M -> res M) rlo rhi lo hi g C :
  0 < BS ->
  (forall k g C, 0 <= k < N -> counts junk step N g C ->
     (forall r c, rlo <= r < rhi -> lo <= c < hi -> g r c = k) ->
     exists C', body k C = Ok C' /\ counts junk step N (set_rect g rlo rhi lo hi (min (k + BS) N)) C') ->
  counts junk step N g C -> (forall r c, rlo <= r < rhi -> lo <= c < hi -> g r c = 0) ->
  exists C', for_step (passes 0 N BS) 0 BS body C = Ok C' /\ counts junk step N (set_rect g rlo rhi lo hi N) C'.
Proof.
  intros HBS Hbody HC Hg. pose proof (passes_end BS HBS N HN) as Hend. pose proof (passes_block BS HBS N) as Hblk.
  destruct (for_step_inv (fun m C => counts junk step N (set_rect g rlo rhi lo hi (Z.min (m * BS) N)) C)
    (passes 0 N BS) 0 BS body C) as (C' & HC' & HI).
  - eapply counts_ext; [|exact HC]. intros r c Hrc. cell. rewrite Hg by lia. lia.
  - intros m C1 Hm HC1. specialize (Hblk m Hm). rewrite Z.add_0_l.
    destruct (Hbody (m * BS) _ C1 ltac:(lia) HC1) as (C2 & HC2 & HI2).
    { intros r c Hr Hc. cell. }
    exists C2. split; [done|]. eapply counts_ext; [|exact HI2]. intros r c Hrc. unfold min. cell.
  - exists C'. split; [done|]. eapply counts_ext; [|exact HI]. intros r c Hrc. cell.
Qed.

Section blocked.
Context (A B : M) (a b : Z -> Z -> F) (HA : is_mat N A a) (HB : is_mat N B b).
Context (BS : Z) (HBS : 0 < BS) (junk : Z -> Z -> F).

Lemma block_row_spec j : 0 <= j < N -> row_spec N junk (dot_step a b) (block_row N BS A B j) j (min (j + BS) N).
Proof.
  intros Hj ii kk g C Hii Hkk HC Hg. pose proof (min_bounds N BS HBS j Hj).
  by apply (accumulate_range N A B a b HA HB junk); [lia..|done|done].
Qed.

(** The loop over [j]: a block of [k] for whole rows. *)
Lemma j_loop i k g C :
  0 <= i < N -> 0 <= k < N -> counts junk (dot_step a b) N g C ->
  (forall r c, i <= r < min (i + BS) N -> 0 <= c < N -> g r c = k) ->
  exists C', for_step (passes 0 N BS) 0 BS (fun j C => block (block_row N BS A B j) N BS i k C) C = Ok C' /\
    counts junk (dot_step a b) N (set_rect g i (min (i + BS) N) 0 N (min (k + BS) N)) C'.
Proof.
  intros Hi Hk HC Hg. pose proof (passes_end BS HBS N HN) as Hend. pose proof (passes_block BS HBS N) as Hblk.
  pose proof (min_bounds N BS HBS i Hi) as Hmi. set (imax := min (i + BS) N) in *. set (kmax := min (k + BS) N) in *.
  destruct (for_step_inv (fun m C => counts junk (dot_step a b) N (set_rect g i imax 0 (Z.min (m * BS) N) kmax) C)
    (passes 0 N BS) 0 BS (fun j C => block (block_row N BS A B j) N BS i k C) C) as (C' & HC' & HI).
  - eapply counts_ext; [|exact HC]. intros r c Hrc. cell.
  - intros m C1 Hm HC1. specialize (Hblk m Hm). rewrite Z.add_0_l. pose proof (min_bounds N BS HBS (m * BS) Hblk).
    destruct (block_counts N BS HBS junk (dot_step a b) (block_row N BS A B (m * BS)) (m * BS) (min (m * BS + BS) N) i k
      _ C1 (block_row_spec _ Hblk) Hi Hk HC1) as (C2 & HC2 & HI2).
    { intros r c Hr Hc. cell. apply Hg; lia. }
    exists C2. split; [done|]. rewrite (next_block N BS m Hm) in *. eapply counts_ext; [|exact HI2].
    intros r c Hrc. fold imax kmax. cell.
  - exists C'. split; [done|]. eapply counts_ext; [|exact HI]. intros r c [? ?]. cell.
Qed.

(** The three loops over blocks, in the order [i], [k], [j]. *)
Lemma i_loop C :
  counts junk (dot_step a b) N (fun _ _ => 0) C ->
  exists C', for_step (passes 0 N BS) 0 BS (fun i C => for_step (passes 0 N BS) 0 BS (fun k C =>
      for_step (passes 0 N BS) 0 BS (fun j C => block (block_row N BS A B j) N BS i k C) C) C) C = Ok C' /\
    counts junk (dot_step a b) N (fun _ _ => N) C'.
Proof.
  intros HC. pose proof (passes_end BS HBS N HN) as Hend. pose proof (passes_block BS HBS N) as Hblk.
  destruct (for_step_inv (fun m C => counts junk (dot_step a b) N (set_rect (fun _ _ => 0) 0 (Z.min (m * BS) N) 0 N N) C)
    (passes 0 N BS) 0 BS (fun i C => for_step (passes 0 N BS) 0 BS (fun k C =>
      for_step (passes 0 N BS) 0 BS (fun j C => block (block_row N BS A B j) N BS i k C) C) C) C) as (C' & HC' & HI).
  - eapply counts_ext; [|exact HC]. intros r c Hrc. cell.
  - intros m C1 Hm HC1. specialize (Hblk m Hm). rewrite Z.add_0_l. pose proof (min_bounds N BS HBS (m * BS) Hblk).
    destruct (k_loop junk (dot_step a b) BS (fun k C =>
      for_step (passes 0 N BS) 0 BS (fun j C => block (block_row N BS A B j) N BS (m * BS) k C) C)
      (m * BS) (min (m * BS + BS) N) 0 N (set_rect (fun _ _ => 0) 0 (Z.min (m * BS) N) 0 N N) C1 HBS) as (C2 & HC2 & HI2); [|exact HC1|..].
    { intros k g C2 Hk HC2 Hg. by apply j_loop. }
    { intros r c Hr Hc. cell. }
    exists C2. split; [done|]. rewrite (next_block N BS m Hm) in *. eapply counts_ext; [|exact HI2].
    intros r c Hrc. cell.
  - exists C'. split; [done|]. eapply counts_ext; [|exact HI]. intros r c [? ?]. cell.
Qed.

End blocked.

Lemma blocked_product A B a b BS C :
  is_mat N A a -> is_mat N B b -> 0 < BS -> mat_shape N C ->
  exists C', matrix_multiply_blocked N BS A B C = Ok C' /\ is_mat N C' (dot N a b).
Proof.
  intros HA HB HBS Hs. unfold matrix_multiply_blocked.
  destruct (clear_counts (dot_step a b) C Hs) as (junk & C0 & -> & HC0). rewrite bind_ret_l.
  destruct (i_loop A B a b HA HB BS HBS junk C0 HC0) as (C' & HC' & HI). exists C'. split; [done|].
  by eapply counts_done.
Qed.
End products.

(** ** The vectorised programs *)

Section simd.
Context {F : Type} `{Arith F}.
Context (N : Z) (HN : 0 <= N) (HNN : N * N <= INT_MAX) (HN4 : N mod 4 = 0).
Context (A B : list F) (a b : Z -> Z -> F) (HA : is_mat N A a) (HB : is_mat N B b).
Context (junk : Z -> Z -> F) (guard : bool).

Lemma flat_read (m : list F) f i j l :
  is_mat N m f -> in_mat N i (j + l) -> m.[i * N + j + l] = Ok (f i (j + l)).
Proof.
  intros [_ Hr] Hij. specialize (Hr i (j + l) Hij). cbn in Hr. rewrite flat_index_Ok, bind_ret_l in Hr by done.
  by rewrite <-Z.add_assoc.
Qed.

Lemma flat_write (m : list F) f i j l x :
  is_mat N m f -> in_mat N i (j + l) ->
  exists m', m.[i * N + j + l <- x] = Ok m' /\ is_mat N m' (upd f i (j + l) x).
Proof.
  intros Hm Hij. destruct (write_mat N m f i (j + l) x Hm Hij) as (m' & Hw & Hm'). exists m'. split; [|done].
  cbn in Hw. rewrite flat_index_Ok, bind_ret_l in Hw by done. by rewrite <-Z.add_assoc.
Qed.

Lemma loadu_Ok (m : list F) f i j :
  is_mat N m f -> 0 <= i < N -> 0 <= j -> j + 4 <= N ->
  loadu m (i * N + j) = Ok [f i j; f i (j + 1); f i (j + 2); f i (j + 3)].
Proof.
  intros Hm Hi Hj Hj4. unfold loadu. pose proof (flat_read m f i j 0 Hm) as H0. rewrite !Z.add_0_r in H0.
  rewrite H0, !bind_ret_l by (split; lia). by rewrite !(flat_read m f) by (done || split; lia).
Qed.

Lemma storeu_Ok (m : list F) f i j x0 x1 x2 x3 :
  is_mat N m f -> 0 <= i < N -> 0 <= j -> j + 4 <= N ->
  exists m', storeu m (i * N + j) [x0; x1; x2; x3] = Ok m' /\
    is_mat N m' (upd (upd (upd (upd f i (j + 0) x0) i (j + 1) x1) i (j + 2) x2) i (j + 3) x3).
Proof.
  intros Hm Hi Hj Hj4. unfold storeu. cbn [arr_read]. change ([x0; x1; x2; x3].[0]) with (Ok x0).
  change ([x0; x1; x2; x3].[1]) with (Ok x1). change ([x0; x1; x2; x3].[2]) with (Ok x2).
  change ([x0; x1; x2; x3].[3]) with (Ok x3). rewrite !bind_ret_l.
  destruct (flat_write m f i j 0 x0 Hm) as (m0 & H0 & Hm0); [split; lia|]. rewrite Z.add_0_r in H0. rewrite H0, bind_ret_l.
  destruct (flat_write m0 _ i j 1 x1 Hm0) as (m1 & -> & Hm1); [split; lia|]. rewrite bind_ret_l.
  destruct (flat_write m1 _ i j 2 x2 Hm1) as (m2 & -> & Hm2); [split; lia|]. rewrite bind_ret_l.
  apply (flat_write m2 _ i j 3 x3 Hm2). split; lia.
Qed.

(** Four lanes of one row. *)
Lemma lanes_counts ii kk jj g (C : list F) :
  0 <= ii < N -> 0 <= kk < N -> 0 <= jj -> jj + 4 <= N -> counts junk (fma_step a b) N g C ->
  (forall c, jj <= c < jj + 4 -> g ii c = kk) ->
  exists C', (kb ← flat_index N kk jj; b ← loadu B kb; kc ← flat_index N ii jj; c ← loadu C kc;
              storeu C kc (fmadd (a ii kk) b c)) = Ok C' /\
    counts junk (fma_step a b) N (set_row g ii jj (jj + 4) (kk + 1)) C'.
Proof.
  intros Hii Hkk Hjj Hjj4 HC Hg. unfold counts in HC. rewrite (flat_index_Ok N kk jj) by (done || split; lia). rewrite bind_ret_l.
  rewrite (loadu_Ok B b kk jj HB) by lia. rewrite bind_ret_l.
  rewrite (flat_index_Ok N ii jj) by (done || split; lia). rewrite bind_ret_l.
  rewrite (loadu_Ok C _ ii jj HC) by lia. rewrite bind_ret_l. unfold fmadd; cbn [zip_with].
  rewrite !Hg by lia. replace (kk <? 0) with false by lia.
  
  edestruct (storeu_Ok C) as (C' & HC' & HI); [exact HC|exact Hii|exact Hjj|exact Hjj4|]. exists C'. split; [exact HC'|].
  eapply is_mat_ext; [|exact HI]. intros r c Hrc. unfold upd, set_row.
  destruct (Z.eqb_spec r ii) as [->|]; cbn [andb]; [|done].
  destruct (Z.leb_spec jj c), (Z.ltb_spec c (jj + 4)); cbn [andb]; cycle 1;
    [repeat case_cond; (done || lia)..|].
  replace (kk + 1 <? 0) with false by lia. rewrite partial_next by lia. unfold fma_step.
  assert (c = jj + 0 \/ c = jj + 1 \/ c = jj + 2 \/ c = jj + 3) as [-> | [-> | [-> | ->]]] by lia;
    repeat case_cond; try lia; by rewrite ?Z.add_0_r.
Qed.

Context (BS : Z) (HBS : 0 < BS) (HB4 : BS mod 4 = 0).

Lemma min_mod4 j : j mod 4 = 0 -> min (j + BS) N mod 4 = 0.
Proof. intros Hj. unfold min. case_cond; [|done]. by rewrite Z.add_mod, Hj, HB4 by done. Qed.

Lemma simd_row_spec j :
  0 <= j < N -> j mod 4 = 0 ->
  row_spec N junk (fma_step a b) (simd_row guard N BS A B j) j (min (j + BS) N).
Proof.
  intros Hj Hj4 ii kk g C Hii Hkk HC Hg. unfold simd_row. rewrite (proj2 HA ii kk), bind_ret_l by (split; lia).
  pose proof (min_bounds N BS HBS j Hj) as Hmj. pose proof (min_mod4 j Hj4) as Hm4.
  set (jmax := min (j + BS) N) in *.
  assert (exists w, jmax = j + 4 * w) as [w Hw].
  { exists ((jmax - j) / 4). rewrite <-Z_div_exact_full_2; [lia|done|]. by rewrite Zminus_mod, Hm4, Hj4. }
  assert (Z.of_nat (passes j jmax 4) = w) as Hp.
  { unfold passes. replace (jmax - j + 4 - 1) with (3 + w * 4) by lia. rewrite Z.div_add, Z.add_0_l by done. lia. }
  destruct (for_step_inv (fun m C => counts junk (fma_step a b) N (set_row g ii j (j + 4 * m) (kk + 1)) C) (passes j jmax 4) j 4
    (fun jj C => if negb guard || (jj + 4 <=? N) then
      kb ← flat_index N kk jj; b ← loadu B kb; kc ← flat_index N ii jj; c ← loadu C kc;
      storeu C kc (fmadd (a ii kk) b c) else Ok C) C) as (C' & HC' & HI).
  - eapply counts_ext; [|exact HC]. intros r c Hrc. cell.
  - intros m C1 Hm HC1. replace (negb guard || (j + m * 4 + 4 <=? N)) with true by (destruct guard; cbn; lia).
    destruct (lanes_counts ii kk (j + m * 4) _ C1 Hii Hkk ltac:(lia) ltac:(lia) HC1) as (C2 & HC2 & HI2).
    { intros c Hc. cell. apply Hg. lia. }
    exists C2. split; [done|]. eapply counts_ext; [|exact HI2]. intros r c Hrc. cell.
  - exists C'. split; [done|]. eapply counts_ext; [|exact HI]. intros r c Hrc. by rewrite Hp, <-Hw.
Qed.

(** A tile adds all the terms of its elements. *)
Lemma simd_tile_counts i j g C :
  0 <= i < N -> 0 <= j < N -> j mod 4 = 0 -> counts junk (fma_step a b) N g C ->
  (forall r c, i <= r < min (i + BS) N -> j <= c < min (j + BS) N -> g r c = 0) ->
  exists C', simd_tile guard N BS A B i j C = Ok C' /\
    counts junk (fma_step a b) N (set_rect g i (min (i + BS) N) j (min (j + BS) N) N) C'.
Proof.
  intros Hi Hj Hj4 HC Hg.
  apply (k_loop N HN junk (fma_step a b) BS (fun k C => block (simd_row guard N BS A B j) N BS i k C)); [done| |done|done].
  intros k g' C1 Hk HC1 Hg'. apply block_counts; [done|by apply simd_row_spec|done..].
Qed.

(** The origin of the tile of an element. *)
Definition tile_of (r c : Z) : Z * Z := (r / BS * BS, c / BS * BS).

Lemma in_tile m r : 0 <= r < N -> m * BS <= r < min (m * BS + BS) N <-> r / BS * BS = m * BS.
Proof.
  intros Hr. pose proof (Z.mul_div_le r BS HBS). pose proof (Z.mul_succ_div_gt r BS HBS).
  unfold min. split.
  - intros Hin. assert (r / BS = m) as -> by (symmetry; apply Z.div_unique with (r - m * BS); case_match; lia). done.
  - intros Heq. assert (r / BS = m) by nia. subst m. case_cond; lia.
Qed.

Lemma run_tiles_counts ts g C :
  NoDup ts -> (forall t, t ∈ ts -> exists m n, t = (m * BS, n * BS) /\ 0 <= m * BS < N /\ 0 <= n * BS < N) ->
  counts junk (fma_step a b) N g C -> (forall r c, in_mat N r c -> tile_of r c ∈ ts -> g r c = 0) ->
  exists C', run_tiles guard N BS A B ts C = Ok C' /\
    counts junk (fma_step a b) N (fun r c => if decide (tile_of r c ∈ ts) then N else g r c) C'.
Proof.
  revert g C. induction ts as [|t ts IH]; intros g C Hnd Hts HC Hg; cbn [run_tiles].
  - exists C. split; [done|]. eapply counts_ext; [|exact HC]. intros r c _.
    rewrite decide_False; [done|]. apply not_elem_of_nil.
  - apply list.NoDup_cons in Hnd as [Hnin Hnd]. destruct (Hts t) as (m & n & -> & Hm & Hn); [left|].
    destruct (simd_tile_counts (m * BS) (n * BS) g C Hm Hn) as (C1 & -> & HC1); [|done|..].
    { rewrite Z.mul_mod, HB4, Z.mul_0_r by done. done. }
    { intros r c Hr Hc. assert (in_mat N r c) as Hrc by (pose proof (min_bounds N BS HBS _ Hm);
        pose proof (min_bounds N BS HBS _ Hn); split; lia).
      apply Hg; [done|]. destruct Hrc. apply in_tile in Hr, Hc; [|lia..]. unfold tile_of. rewrite Hr, Hc. left. }
    rewrite bind_ret_l.
    assert (forall r c, in_mat N r c -> (m * BS <= r < min (m * BS + BS) N /\ n * BS <= c < min (n * BS + BS) N)
      <-> tile_of r c = (m * BS, n * BS)) as Htile.
    { intros r c [Hr Hc]. rewrite (in_tile m r Hr), (in_tile n c Hc). unfold tile_of. split; [by intros [-> ->]|by intros [= -> ->]]. }
    set (g' := set_rect g _ _ _ _ N) in HC1.
    destruct (IH g' C1 Hnd) as (C2 & HC2 & HI2); [|exact HC1|..].
    { intros t Ht. apply Hts. by right. }
    { intros r c Hrc Hin. subst g'. cell.
      - exfalso. apply Hnin. rewrite <-(proj1 (Htile r c Hrc)); [done|lia].
      - apply Hg; [done|by right]. }
    exists C2. split; [done|]. eapply counts_ext; [|exact HI2]. intros r c Hrc. subst g'.
    pose proof (Htile r c Hrc) as Hrect. cbn beta.
    destruct (decide (tile_of r c ∈ ts)) as [Hin|Hout], (decide (tile_of r c ∈ (m * BS, n * BS) :: ts)) as [Hin'|Hout'].
    + done.
    + exfalso. apply Hout'. by right.
    + apply elem_of_cons in Hin' as [Heq|]; [|done]. apply Hrect in Heq. cell.
    + assert (tile_of r c <> (m * BS, n * BS)) as Hne by (intros Heq; apply Hout'; rewrite Heq; left).
      rewrite <-Hrect in Hne. cell.
Qed.
End simd.

(** ** Results *)

(** The element [i, j] of a stored matrix. *)
Definition elem {M F} `{Arith F} `{MatStore M F} (N : Z) (m : M) (i j : Z) : F :=
  match mat_read N m i j with Ok x => x | Fault _ => zero end.

Lemma shape_is_mat {M F} `{Arith F} `{MatLaws M F} N (m : M) : mat_shape N m -> is_mat N m (elem N m).
Proof.
  intros Hs. split; [done|]. intros i j Hij. unfold elem. by destruct (read_law N m i j Hs Hij) as [x ->].
Qed.

(** C5.  The blocked program of [matrix_cache.c] computes, for every block size, the
    matrix the naive program of [matrix_basic.c] computes, element by element
    and whatever the rounding of the arithmetic: both leave the sums of
    products taken in increasing order of [k].  No access leaves a row. *)
Theorem blocked_equals_naive {F} `{Arith F} N BS (A B C C' : rows F) :
  0 <= N -> 0 < BS -> mat_shape N A -> mat_shape N B -> mat_shape N C -> mat_shape N C' ->
  exists P P', matrix_multiply N A B C = Ok P /\ matrix_multiply_blocked N BS A B C' = Ok P' /\
    forall i j, in_mat N i j ->
      mat_read N P i j = Ok (dot N (elem N A) (elem N B) i j) /\ mat_read N P' i j = mat_read N P i j.
Proof.
  intros HN HBS HA HB HC HC'. apply shape_is_mat in HA, HB.
  destruct (naive_product N HN A B _ _ HA HB C HC) as (P & HP & _ & Hr).
  destruct (blocked_product N HN A B _ _ BS C' HA HB HBS HC') as (P' & HP' & _ & Hr').
  exists P, P'. split_and!; [done..|]. intros i j Hij. by rewrite Hr, Hr'.
Qed.

#[local] Instance z_arith : Arith Z := {| zero := 0; add := Z.add; mul := Z.mul; fma x y z := x * y + z |}.

Definition sample_rows : rows Z := [[1; 2; 3]; [4; 5; 6]; [7; 8; 9]].

Lemma blocked_equals_naive_witness :
  exists P P', matrix_multiply 3 sample_rows sample_rows sample_rows = Ok P /\
    matrix_multiply_blocked 3 2 sample_rows sample_rows sample_rows = Ok P' /\
    forall i j, in_mat 3 i j ->
      mat_read 3 P i j = Ok (dot 3 (elem 3 sample_rows) (elem 3 sample_rows) i j) /\ mat_read 3 P' i j = mat_read 3 P i j.
Proof.
  apply (blocked_equals_naive 3 2 sample_rows sample_rows sample_rows sample_rows); [lia|lia|..];
    (split; [reflexivity|repeat constructor]).
Defined.

Section vector_results.
Context {F : Type} `{Arith F}.

Lemma memset_counts step N (C : list F) :
  0 <= N -> mat_shape N C ->
  exists C', memset_zero N C = Ok C' /\ counts (fun _ _ => zero) step N (fun _ _ => 0) C'.
Proof.
  intros HN [Hlen HNN]. unfold memset_zero.
  destruct (for_range_inv (fun k D => len D = N * N /\ forall q, 0 <= q < k -> zget D q = Some zero) (Z.to_nat (N * N)) 0
    (fun k D => D.[k <- zero]) C) as (C' & HC' & Hl & Hz).
  - split; [done|lia].
  - intros k D Hk [Hl Hz]. rewrite arr_write_Ok by lia. eexists. split; [done|]. rewrite length_zset. split; [done|].
    intros q Hq. rewrite zget_zset. unfold in_range. case_cond; [done|]. apply Hz. lia.
  - exists C'. split; [done|]. split; [done|]. intros i j Hij. cbn. rewrite flat_index_Ok, bind_ret_l by done.
    apply arr_read_Ok, Hz. destruct Hij. nia.
Qed.

Lemma elem_of_origins N BS i :
  i ∈ tile_origins N BS <-> exists m, i = m * BS /\ 0 <= m < Z.of_nat (passes 0 N BS).
Proof.
  unfold tile_origins. rewrite list_elem_of_fmap. apply exist_proper. intros m. rewrite elem_of_seqZ. naive_solver lia.
Qed.

Lemma elem_of_all_tiles N BS i j :
  (i, j) ∈ all_tiles N BS <-> i ∈ tile_origins N BS /\ j ∈ tile_origins N BS.
Proof.
  unfold all_tiles. rewrite list_elem_of_bind. setoid_rewrite list_elem_of_bind. setoid_rewrite list_elem_of_singleton.
  naive_solver.
Qed.

Lemma all_tiles_NoDup N BS : 0 < BS -> NoDup (all_tiles N BS).
Proof.
  intros HBS. assert (NoDup (tile_origins N BS)) as Ho.
  { apply NoDup_fmap_2_strong; [|apply NoDup_seqZ]. intros x y _ _ Hxy. nia. }
  unfold all_tiles. apply NoDup_bind; [| |done].
  - intros x1 x2 y _ _. rewrite !list_elem_of_bind. setoid_rewrite list_elem_of_singleton. naive_solver.
  - intros x _. apply NoDup_bind; [| |done].
    + intros x1 x2 y _ _. rewrite !list_elem_of_singleton. naive_solver.
    + intros y _. apply NoDup_singleton.
Qed.

Lemma tile_of_all N BS r c : 0 < BS -> 0 <= N -> in_mat N r c -> tile_of BS r c ∈ all_tiles N BS.
Proof.
  intros HBS HN [Hr Hc]. unfold tile_of. pose proof (passes_end BS HBS N HN).
  apply elem_of_all_tiles. split; apply elem_of_origins; eexists; (split; [done|]).
  - split; [apply Z.div_pos; lia|apply Z.div_lt_upper_bound; lia].
  - split; [apply Z.div_pos; lia|apply Z.div_lt_upper_bound; lia].
Qed.
End vector_results.

Lemma optimized_product {F} `{Arith F} guard N BS schedule (A B C : list F) :
  0 <= N -> N mod 4 = 0 -> 0 < BS -> BS mod 4 = 0 -> schedule ≡ₚ all_tiles N BS ->
  mat_shape N A -> mat_shape N B -> mat_shape N C ->
  exists P, matrix_multiply_optimized guard N BS schedule (Some A) (Some B) (Some C) = Ok (Some P) /\
    is_mat N P (dot_fma N (elem N A) (elem N B)).
Proof.
  intros HN HN4 HBS HB4 Hsched HA HB HC. pose proof HC as [_ HNN]. apply shape_is_mat in HA, HB.
  cbn [matrix_multiply_optimized].
  destruct (memset_counts (fma_step (elem N A) (elem N B)) N C HN HC) as (C0 & -> & HC0). rewrite bind_ret_l.
  destruct (run_tiles_counts N HN HNN HN4 A B _ _ HA HB (fun _ _ => zero) guard BS HBS HB4 schedule (fun _ _ => 0) C0) as (P & -> & HP);
    [by rewrite Hsched; apply all_tiles_NoDup| |exact HC0|done|].
  - intros [i j]. rewrite Hsched. intros [Hi Hj]%elem_of_all_tiles. pose proof (passes_block BS HBS N) as Hblk.
    apply elem_of_origins in Hi as (m & -> & Hm), Hj as (n & -> & Hn). exists m, n. auto.
  - rewrite bind_ret_l. exists P. split; [done|]. eapply is_mat_ext; [|exact HP]. intros i j Hij. cbn beta.
    rewrite decide_True by (rewrite Hsched; by apply tile_of_all). by replace (N <? 0) with false by lia.
Qed.

(** C19.  For every order in which the iterations of the parallel loops run, the
    vectorised program (both variants) leaves in each element the sum of
    products taken with fused multiply-adds in increasing order of [k]; in
    particular the result does not depend on the schedule.  The dimension and
    the block size have to be multiples of 4, the number of lanes. *)
Theorem optimized_any_schedule {F} `{Arith F} guard N BS schedule (A B C : list F) :
  0 <= N -> N mod 4 = 0 -> 0 < BS -> BS mod 4 = 0 -> schedule ≡ₚ all_tiles N BS ->
  mat_shape N A -> mat_shape N B -> mat_shape N C ->
  exists P, matrix_multiply_optimized guard N BS schedule (Some A) (Some B) (Some C) = Ok (Some P) /\
    forall i j, in_mat N i j -> mat_read N P i j = Ok (dot_fma N (elem N A) (elem N B) i j).
Proof.
  intros HN HN4 HBS HB4 Hsched HA HB HC.
  destruct (optimized_product guard N BS schedule A B C) as (P & HP & _ & Hr); [done..|]. by exists P.
Qed.

Definition sample_flat : list Z := [1; 2; 3; 4; 5; 6; 7; 8; 9; 10; 11; 12; 13; 14; 15; 16].

Lemma optimized_any_schedule_witness :
  exists P, matrix_multiply_optimized true 4 4 [(0, 0)] (Some sample_flat) (Some sample_flat) (Some sample_flat) = Ok (Some P) /\
    forall i j, in_mat 4 i j -> mat_read 4 P i j = Ok (dot_fma 4 (elem 4 sample_flat) (elem 4 sample_flat) i j).
Proof.
  apply (optimized_any_schedule true 4 4 [(0, 0)] sample_flat sample_flat sample_flat);
    [lia|reflexivity|lia|reflexivity|reflexivity|..]; (split; [reflexivity|discriminate]).
Defined.

(** ** Drivers *)

Lemma create_matrix_is_mat {F} `{Arith F} fail N row_mem (rnd : Z -> Z -> F) :
  0 <= N -> (forall i, 0 <= i < N -> exists row, row_mem i = Some row /\ len row = N) ->
  exists m, create_matrix fail N true row_mem rnd = Ok m /\ is_mat N m rnd.
Proof.
  intros HN Hmem. unfold create_matrix; cbn [negb].
  destruct (for_range_inv (fun i m => m = (fun i => rnd i <$> seqZ 0 N) <$> seqZ 0 i) (Z.to_nat N) 0 (fun i m =>
    match row_mem i with
    | None => Fault fail
    | Some row => row ← for_range (Z.to_nat N) 0 (fun j row => row.[j <- rnd i j]) row; Ok (m ++ [row])
    end) []) as (m & -> & Hm).
  - done.
  - intros i m Hi ->. destruct (Hmem i) as (row & -> & Hlen); [lia|].
    rewrite (fill_row (rnd i)), bind_ret_l, Z2Nat.id by lia. eexists. split; [done|].
    rewrite seqZ_app, fmap_app by lia. done.
  - replace (0 + Z.of_nat (Z.to_nat N)) with N in Hm by lia. exists m. split; [done|]. subst m. split.
    + split; [rewrite length_fmap, length_seqZ; lia|]. apply list.Forall_forall. intros row (i & -> & _)%list_elem_of_fmap.
      rewrite length_fmap, length_seqZ. lia.
    + intros i j [Hi Hj]. cbn. rewrite (arr_read_Ok _ _ (rnd i <$> seqZ 0 N)), bind_ret_l
        by (by rewrite zget_fmap, zget_seqZ by lia). apply arr_read_Ok. by rewrite zget_fmap, zget_seqZ by lia.
Qed.

(** [main] of [matrix_basic.c] and [main] of [matrix_cache.c], given the same
    random elements and memory for the rows, leave the same product. *)
Lemma mains_agree {F} `{Arith F} N BS row_mem (rnd : Z -> Z -> Z -> F) :
  0 <= N -> 0 < BS -> (forall x i, 0 <= i < N -> exists row, row_mem x i = Some row /\ len row = N) ->
  exists P P', basic_main N row_mem rnd = Ok P /\ cache_main N BS row_mem rnd = Ok P' /\
    forall i j, in_mat N i j -> mat_read N P i j = Ok (dot N (rnd 0) (rnd 1) i j) /\ mat_read N P' i j = mat_read N P i j.
Proof.
  intros HN HBS Hmem. unfold basic_main, cache_main.
  destruct (create_matrix_is_mat NullDeref N (row_mem 0) (rnd 0) HN (Hmem 0)) as (A & -> & HA).
  destruct (create_matrix_is_mat NullDeref N (row_mem 1) (rnd 1) HN (Hmem 1)) as (B & -> & HB).
  destruct (create_matrix_is_mat NullDeref N (row_mem 2) (rnd 2) HN (Hmem 2)) as (C & -> & HC).
  destruct (create_matrix_is_mat (Exit 1) N (row_mem 0) (rnd 0) HN (Hmem 0)) as (A' & -> & HA').
  destruct (create_matrix_is_mat (Exit 1) N (row_mem 1) (rnd 1) HN (Hmem 1)) as (B' & -> & HB').
  destruct (create_matrix_is_mat (Exit 1) N (row_mem 2) (rnd 2) HN (Hmem 2)) as (C' & -> & HC').
  rewrite !bind_ret_l. destruct (naive_product N HN A B _ _ HA HB C (proj1 HC)) as (P & HP & _ & Hr).
  destruct (blocked_product N HN A' B' _ _ BS C' HA' HB' HBS (proj1 HC')) as (P' & HP' & _ & Hr').
  exists P, P'. split_and!; [done..|]. intros i j Hij. by rewrite Hr, Hr'.
Qed.

Section validation.
Context {F : Type} `{Arith F} (far : F -> F -> bool) (N : Z) (HN : 0 <= N).

Lemma validate_sum (A B : list F) a b i j :
  is_mat N A a -> is_mat N B b -> in_mat N i j ->
  for_range (Z.to_nat N) 0 (fun k sum =>
    x ← mat_read N A i k; y ← mat_read N B k j; Ok (add sum (mul x y))) zero = Ok (dot N a b i j).
Proof.
  intros [_ HA] [_ HB] [Hi Hj].
  destruct (for_range_inv (fun k sum => sum = partial (dot_step a b) k i j) (Z.to_nat N) 0 (fun k sum =>
    x ← mat_read N A i k; y ← mat_read N B k j; Ok (add sum (mul x y))) zero) as (r & -> & ->); [done|..].
  - intros k sum Hk ->. rewrite HA, HB, !bind_ret_l by (split; lia). eexists. split; [done|].
    by rewrite partial_next by lia.
  - by replace (0 + Z.of_nat (Z.to_nat N)) with N by lia.
Qed.

Lemma validate_no_errors (A B C : list F) a b :
  is_mat N A a -> is_mat N B b -> is_mat N C (dot N a b) -> (forall x, far x x = false) ->
  validate_result far N A B C = Ok 0.
Proof.
  intros HA HB HC Hfar. unfold validate_result. assert (min 5 N <= N) as Hmin by (unfold min; case_cond; lia).
  destruct (for_range_inv (fun _ errors => errors = 0) (Z.to_nat (min 5 N)) 0 (fun i errors =>
    for_range (Z.to_nat (min 5 N)) 0 (fun j errors => validate_pass far N A B C i j errors) errors) 0) as (r & -> & ->);
    [done| |done].
  intros i e Hi ->. destruct (for_range_inv (fun _ errors => errors = 0) (Z.to_nat (min 5 N)) 0
    (fun j errors => validate_pass far N A B C i j errors) 0) as (r & -> & ->); [done| |by exists 0].
  intros j e Hj ->. assert (in_mat N i j) as Hij by (split; lia). unfold validate_pass.
  rewrite (validate_sum A B a b) by done. rewrite bind_ret_l, (proj2 HC i j Hij), bind_ret_l, Hfar. by exists 0.
Qed.
End validation.

(** If fused and separate rounding agree, the vectorised programs report that
    the validation passed. *)
Lemma optimized_main_validates {F} `{Arith F} guard far N BS schedule mem (rnd : Z -> Z -> F) :
  (forall x y z, fma x y z = add z (mul x y)) -> (forall x, far x x = false) ->
  0 <= N -> N * N <= INT_MAX -> N mod 4 = 0 -> 0 < BS -> BS mod 4 = 0 -> schedule ≡ₚ all_tiles N BS ->
  (forall x, exists m, mem x = Some m /\ len m = N * N) ->
  optimized_main guard far N BS schedule mem rnd = Ok (0, Some 0).
Proof.
  intros Hfma Hfar HN HNN HN4 HBS HB4 Hsched Hmem. unfold optimized_main.
  assert (forall x, exists m, create_aligned_matrix N (mem x) (rnd x) = Ok (Some m) /\ mat_shape N m) as Hcreate.
  { intros x. destruct (Hmem x) as (m & -> & Hlen). cbn [create_aligned_matrix]. unfold initialize_matrix.
    rewrite (fill_row (rnd x)), bind_ret_l by lia. eexists. split; [done|]. split; [|done].
    rewrite length_fmap, length_seqZ. nia. }
  destruct (Hcreate 0) as (A & -> & HA), (Hcreate 1) as (B & -> & HB), (Hcreate 2) as (C & -> & HC). rewrite !bind_ret_l.
  destruct (optimized_product guard N BS schedule A B C) as (P & -> & HP); [done..|]. rewrite bind_ret_l.
  rewrite (validate_no_errors far N A B P (elem N A) (elem N B)); [done|by apply shape_is_mat..| |done].
  eapply is_mat_ext; [|exact HP]. intros i j _. unfold dot, dot_fma, partial.
  induction (Z.to_nat N) as [|n IH]; cbn [psum]; [done|]. unfold fma_step, dot_step in *. by rewrite IH, Hfma.
Qed.

(** The constants of [matrixOptimized.c]: 4096 is a multiple of 64 and of 4, and
    the overflow test never fires. *)
Lemma matrixOptimized_validates {F} `{Arith F} far schedule mem (rnd : Z -> Z -> F) :
  (forall x y z, fma x y z = add z (mul x y)) -> (forall x, far x x = false) -> schedule ≡ₚ all_tiles 4096 64 ->
  (forall x, exists m, mem x = Some m /\ len m = 4096 * 4096) ->
  matrixOptimized far schedule mem rnd = Ok (0, Some 0).
Proof.
  intros Hfma Hfar Hsched Hmem.
  apply (optimized_main_validates false far 4096 64 schedule mem rnd Hfma Hfar); [done..|exact Hsched|exact Hmem].
Qed.
