(* ===== verification/BoundedBuffer.v ===== *)
(** * Bounded buffer and readers-writer lock ([concurrency/threads/rwlock-buffer/rwlock_buffer.c])

    The buffer is a ring behind a mutex and two condition variables; it
    discharges the bounded-FIFO interface of [Ring].  The readers-writer lock
    is made of two mutexes: the first reader takes [write_lock], the last one
    releases it.  Readers and writers are threads of the step relation
    [bstep], one step per critical section, with spurious wakeups. *)
From Stdlib Require Import ZArith Lia.
From stdpp Require Import base tactics list numbers option relations.
From S2P Require Import Prelude Ring.

#[local] Open Scope Z_scope.
#[local] Open Scope c_scope.

(** ** The buffer *)

Record bounded_buffer_t : Type := mkBuffer {
  buffer : list Z;
  size : Z;
  count : Z;
  in_ : Z;
  out : Z
}.

(** [mem] is the block [malloc] returns. *)
Definition bb_init (mem : list Z) (size : Z) : bounded_buffer_t := mkBuffer mem size 0 0 0.

(** The critical section of [bb_produce] from a point where the mutex is held:
    wait on [not_full] ([None]), or return; [true] if the item was stored and
    [not_empty] signalled. *)
Definition bb_produce (running : bool) (bb : bounded_buffer_t) (item : Z) : res (option (bool * bounded_buffer_t)) :=
  if (count bb =? size bb) && running then Ok None
  else if negb running then Ok (Some (false, bb))
  else
    buf ← (buffer bb).[in_ bb <- item];
    i ← iadd (in_ bb) 1;
    i ← imod i (size bb);
    c ← iadd (count bb) 1;
    Ok (Some (true, mkBuffer buf (size bb) c i (out bb))).

(** The same for [bb_consume]; without a removal the item returned is -1. *)
Definition bb_consume (running : bool) (bb : bounded_buffer_t) : res (option (bool * Z * bounded_buffer_t)) :=
  if (count bb =? 0) && running then Ok None
  else if negb running then Ok (Some (false, -1, bb))
  else
    item ← (buffer bb).[out bb];
    o ← iadd (out bb) 1;
    o ← imod o (size bb);
    c ← isub (count bb) 1;
    Ok (Some (true, item, mkBuffer (buffer bb) (size bb) c (in_ bb) o)).

(** ** The threads *)

(** Where a thread is; [k] is the number of iterations left after this one,
    [v] the random value of the iteration. *)
Inductive bthread : Type :=
| RTop (k : Z)
| REnter (k : Z)
| RLocking (k : Z)
| RReading (k : Z)
| RConsume (k : Z)
| RBlocked (k : Z)
| RDone
| WTop (k : Z)
| WEnter (k : Z)
| WWriting (k v : Z)
| WProduce (k v : Z)
| WBlocked (k v : Z)
| WDone.

Record bsys : Type := mkBsys {
  counter_lock : option Z;
  write_lock : option Z;
  read_count : Z;
  shared_data : Z;
  bb : bounded_buffer_t;
  running : bool;
  bthreads : list bthread;
  produced : list Z;
  consumed : list Z
}.

Definition set_thread (s : bsys) (i : Z) (t : bthread) : bsys :=
  mkBsys (counter_lock s) (write_lock s) (read_count s) (shared_data s) (bb s) (running s) (zset (bthreads s) i t)
    (produced s) (consumed s).
Definition set_locks (s : bsys) (cl wl : option Z) (rc : Z) : bsys :=
  mkBsys cl wl rc (shared_data s) (bb s) (running s) (bthreads s) (produced s) (consumed s).
Definition set_shared (s : bsys) (v : Z) : bsys :=
  mkBsys (counter_lock s) (write_lock s) (read_count s) v (bb s) (running s) (bthreads s) (produced s) (consumed s).
Definition set_buffer (s : bsys) (b : bounded_buffer_t) (ts : list bthread) (p c : list Z) : bsys :=
  mkBsys (counter_lock s) (write_lock s) (read_count s) (shared_data s) b (running s) ts p c.
Definition stop (s : bsys) : bsys :=
  mkBsys (counter_lock s) (write_lock s) (read_count s) (shared_data s) (bb s) false (bthreads s) (produced s) (consumed s).

(** A blocked thread and the state in which it goes on. *)
Definition unblock (t : bthread) : option bthread :=
  match t with
  | RBlocked k => Some (RConsume k)
  | WBlocked k v => Some (WProduce k v)
  | _ => None
  end.

Definition is_rblocked (t : bthread) : bool := match t with RBlocked _ => true | _ => false end.
Definition is_wblocked (t : bthread) : bool := match t with WBlocked _ _ => true | _ => false end.

(** [pthread_cond_signal] on the condition the threads in [p] wait for. *)
Inductive signalled (p : bthread -> bool) (ts : list bthread) : list bthread -> Prop :=
| signal_one j t t' : zget ts j = Some t -> p t = true -> unblock t = Some t' -> signalled p ts (zset ts j t')
| signal_none : Forall (fun t => p t = false) ts -> signalled p ts ts.

Definition bat (s : bsys) (i : Z) (t : bthread) : Prop := zget (bthreads s) i = Some t.

Inductive bstep (s : bsys) : bsys -> Prop :=
| b_shutdown : bstep s (stop s)
| b_wake i t t' : bat s i t -> unblock t = Some t' -> bstep s (set_thread s i t')
(** [reader_thread] *)
| b_reader_top i k : bat s i (RTop k) ->
    bstep s (set_thread s i (if (0 <? k) && running s then REnter (k - 1) else RDone))
| b_read_lock i k rc : bat s i (REnter k) -> counter_lock s = None -> iadd (read_count s) 1 = Ok rc ->
    bstep s (if rc =? 1 then set_thread (set_locks s (Some i) (write_lock s) rc) i (RLocking k)
             else set_thread (set_locks s None (write_lock s) rc) i (RReading k))
| b_read_first i k : bat s i (RLocking k) -> write_lock s = None ->
    bstep s (set_thread (set_locks s None (Some i) (read_count s)) i (RReading k))
| b_read_unlock i k rc : bat s i (RReading k) -> counter_lock s = None -> isub (read_count s) 1 = Ok rc ->
    bstep s (set_thread (set_locks s None (if rc =? 0 then None else write_lock s) rc) i (RConsume k))
| b_consume_wait i k : bat s i (RConsume k) -> bb_consume (running s) (bb s) = Ok None ->
    bstep s (set_thread s i (RBlocked k))
| b_consume_stop i k v b : bat s i (RConsume k) -> bb_consume (running s) (bb s) = Ok (Some (false, v, b)) ->
    bstep s (set_thread s i (RTop k))
| b_consume i k v b ts : bat s i (RConsume k) -> bb_consume (running s) (bb s) = Ok (Some (true, v, b)) ->
    signalled is_wblocked (zset (bthreads s) i (RTop k)) ts ->
    bstep s (set_buffer s b ts (produced s) (consumed s ++ [v]))
(** [writer_thread] *)
| b_writer_top i k : bat s i (WTop k) ->
    bstep s (set_thread s i (if (0 <? k) && running s then WEnter (k - 1) else WDone))
| b_write_lock i k v : bat s i (WEnter k) -> 0 <= v < 100 -> write_lock s = None ->
    bstep s (set_thread (set_locks s (counter_lock s) (Some i) (read_count s)) i (WWriting k v))
| b_write i k v : bat s i (WWriting k v) ->
    bstep s (set_thread (set_shared (set_locks s (counter_lock s) None (read_count s)) v) i (WProduce k v))
| b_produce_wait i k v : bat s i (WProduce k v) -> bb_produce (running s) (bb s) v = Ok None ->
    bstep s (set_thread s i (WBlocked k v))
| b_produce_stop i k v b : bat s i (WProduce k v) -> bb_produce (running s) (bb s) v = Ok (Some (false, b)) ->
    bstep s (set_thread s i (WTop k))
| b_produce i k v b ts : bat s i (WProduce k v) -> bb_produce (running s) (bb s) v = Ok (Some (true, b)) ->
    signalled is_rblocked (zset (bthreads s) i (WTop k)) ts ->
    bstep s (set_buffer s b ts (produced s ++ [v]) (consumed s)).

Definition NUM_READERS : nat := 5.
Definition NUM_WRITERS : nat := 2.
Definition BUFFER_SIZE : Z := 10.
Definition NUM_ITERATIONS : Z := 20.

(** The state of [main] after it created the threads. *)
Definition bstart (nr nw : nat) (iters bufsize : Z) (mem : list Z) : bsys :=
  mkBsys None None 0 0 (bb_init mem bufsize) true (replicate nr (RTop iters) ++ replicate nw (WTop iters)) [] [].

Definition main_start (mem : list Z) : bsys := bstart NUM_READERS NUM_WRITERS NUM_ITERATIONS BUFFER_SIZE mem.

(** ** The buffer is a bounded FIFO *)

Record buffer_ok (b : bounded_buffer_t) : Prop := {
  bo_len : len (buffer b) = size b;
  bo_size : 0 < size b < INT_MAX;
  bo_count : 0 <= count b <= size b;
  bo_out : 0 <= out b < size b;
  bo_in : in_ b = (out b + count b) mod size b
}.

Definition contents (b : bounded_buffer_t) : list Z := window (buffer b) (out b) (Z.to_nat (count b)).

#[export] Instance buffer_fifo : BoundedFifo bounded_buffer_t Z := {|
  fifo_ok := buffer_ok;
  fifo_abs := contents;
  fifo_cap b := Z.to_nat (size b);
  fifo_enq b x :=
    r ← bb_produce true b x;
    Ok (match r with Some (_, b') => (true, b') | None => (false, b) end);
  fifo_deq b :=
    r ← bb_consume true b;
    Ok (match r with Some (_, x, b') => (Some x, b') | None => (None, b) end)
|}.

Lemma length_buffer_contents b : buffer_ok b -> len (contents b) = count b.
Proof. intros []. unfold contents. rewrite length_window by lia. lia. Qed.

(** [bb_produce] while the program runs. *)
Lemma bb_produce_running b x :
  buffer_ok b ->
  if count b =? size b then bb_produce true b x = Ok None
  else exists b', bb_produce true b x = Ok (Some (true, b')) /\ buffer_ok b' /\ size b' = size b /\
    count b' = count b + 1 /\ contents b' = contents b ++ [x].
Proof.
  intros Hok. pose proof Hok as [Hl Hs Hc Ho Hi]. unfold bb_produce. case_cond; [done|]. cbn [andb negb].
  pose proof (Z.mod_pos_bound (out b + count b) (size b) ltac:(lia)) as Hin. rewrite <-Hi in Hin.
  pose proof (Z.mod_pos_bound (in_ b + 1) (size b) ltac:(lia)).
  eexists. split; [by c_steps|]. split; [|split_and!; [done..|]].
  - constructor; cbn; rewrite ?length_zset; try lia. rewrite Hi, Zplus_mod_idemp_l. f_equal. lia.
  - unfold contents; cbn. rewrite Hi, <-Hl. replace (Z.to_nat (count b + 1)) with (S (Z.to_nat (count b))) by lia.
    rewrite <-(Z2Nat.id (count b)) at 1 by lia. apply window_enqueue; lia.
Qed.

(** [bb_consume] while the program runs. *)
Lemma bb_consume_running b :
  buffer_ok b ->
  if count b =? 0 then bb_consume true b = Ok None
  else exists x b', bb_consume true b = Ok (Some (true, x, b')) /\ buffer_ok b' /\ size b' = size b /\
    count b' = count b - 1 /\ contents b = x :: contents b'.
Proof.
  intros Hok. pose proof Hok as [Hl Hs Hc Ho Hi]. unfold bb_consume. case_cond; [done|]. cbn [andb negb].
  destruct (zget_range (buffer b) (out b)) as [x Hx]; [lia|].
  pose proof (Z.mod_pos_bound (out b + 1) (size b) ltac:(lia)).
  exists x. eexists. split; [by c_steps|]. split; [|split_and!; [done..|]].
  - constructor; cbn; try lia. rewrite Hi, Zplus_mod_idemp_l. f_equal. lia.
  - unfold contents; cbn. replace (Z.to_nat (count b)) with (S (Z.to_nat (count b - 1))) by lia.
    by rewrite (window_dequeue _ _ _ _ Hx), Hl.
Qed.

(** The three ways the critical sections end. *)
Lemma bb_produce_inv r b x o :
  bb_produce r b x = Ok o ->
  match o with None => r = true /\ count b = size b | Some (true, _) => r = true /\ count b <> size b | Some (false, _) => r = false end.
Proof.
  unfold bb_produce. destruct (Z.eqb_spec (count b) (size b)), r; cbn [andb negb]; intros H; inv_ok; done.
Qed.

Lemma bb_consume_inv r b o :
  bb_consume r b = Ok o ->
  match o with None => r = true /\ count b = 0 | Some (true, _, _) => r = true /\ count b <> 0 | Some (false, _, _) => r = false end.
Proof.
  unfold bb_consume. destruct (Z.eqb_spec (count b) 0), r; cbn [andb negb]; intros H; inv_ok; done.
Qed.

#[export] Instance buffer_laws : FifoLaws bounded_buffer_t Z.
Proof.
  constructor; intros b.
  - intros x Hok. pose proof (length_buffer_contents b Hok) as Hlen. pose proof (bb_produce_running b x Hok) as Hp.
    pose proof Hok as [Hl Hs Hc Ho Hi]. simpl. unfold spec_enq. destruct (Z.eqb_spec (count b) (size b)).
    + rewrite Hp. exists false, b. split_and!; [done..|].
      destruct (Nat.ltb_spec (length (contents b)) (Z.to_nat (size b))); [lia|done].
    + destruct Hp as (b' & -> & Hok' & Hs' & _ & Hcont). exists true, b'. rewrite Hs'. split_and!; [done..|].
      destruct (Nat.ltb_spec (length (contents b)) (Z.to_nat (size b))); [by rewrite Hcont|lia].
  - intros Hok. pose proof (bb_consume_running b Hok) as Hp. simpl. destruct (Z.eqb_spec (count b) 0) as [Hz|].
    + rewrite Hp. exists None, b. split_and!; [done..|]. unfold contents. by rewrite Hz.
    + destruct Hp as (x & b' & -> & Hok' & Hs' & _ & Hcont). exists (Some x), b'. rewrite Hs'. split_and!; [done..|].
      by rewrite Hcont.
Qed.

(** ** Counting threads *)

Definition c_reading (t : bthread) : Z := match t with RReading _ => 1 | _ => 0 end.
Definition c_locking (t : bthread) : Z := match t with RLocking _ => 1 | _ => 0 end.
Definition c_writing (t : bthread) : Z := match t with WWriting _ _ => 1 | _ => 0 end.
Definition c_consume (t : bthread) : Z := match t with RConsume _ => 1 | _ => 0 end.
Definition c_rblocked (t : bthread) : Z := match t with RBlocked _ => 1 | _ => 0 end.
Definition c_produce (t : bthread) : Z := match t with WProduce _ _ => 1 | _ => 0 end.
Definition c_wblocked (t : bthread) : Z := match t with WBlocked _ _ => 1 | _ => 0 end.

(** Items a reader still has to consume, a writer still has to produce. *)
Definition to_consume (t : bthread) : Z :=
  match t with
  | RTop k => k
  | REnter k | RLocking k | RReading k | RConsume k | RBlocked k => k + 1
  | _ => 0
  end.
Definition to_produce (t : bthread) : Z :=
  match t with
  | WTop k => k
  | WEnter k | WWriting k _ | WProduce k _ | WBlocked k _ => k + 1
  | _ => 0
  end.

Definition thread_ok (t : bthread) : Prop := 0 <= to_consume t /\ 0 <= to_produce t /\
  match t with
  | REnter k | RLocking k | RReading k | RConsume k | RBlocked k
  | WEnter k | WWriting k _ | WProduce k _ | WBlocked k _ => 0 <= k
  | _ => True
  end.

Lemma c_bounds ts :
  0 <= total c_reading ts /\ 0 <= total c_locking ts /\ 0 <= total c_writing ts /\ 0 <= total c_consume ts /\
  0 <= total c_rblocked ts /\ 0 <= total c_produce ts /\ 0 <= total c_wblocked ts.
Proof. induction ts as [|t ts IH]; simpl; [lia|]. destruct t; simpl; lia. Qed.

Lemma c_member ts i t :
  zget ts i = Some t -> c_reading t <= total c_reading ts /\ c_locking t <= total c_locking ts /\
  c_writing t <= total c_writing ts /\ c_consume t <= total c_consume ts /\ c_rblocked t <= total c_rblocked ts /\
  c_produce t <= total c_produce ts /\ c_wblocked t <= total c_wblocked ts.
Proof.
  intros E. split_and!; (apply (total_member _ _ i); [|exact E]);
    apply list.Forall_forall; intros x _; destruct x; simpl; lia.
Qed.

Ltac count_eval := cbn [c_reading c_locking c_writing c_consume c_rblocked c_produce c_wblocked to_consume to_produce].

Ltac count_thread E :=
  repeat match goal with
  | |- context [total ?f (zset ?ts ?i ?t)] => rewrite (total_zset f ts i _ t E)
  end; count_eval.

(** A signal changes only the numbers of blocked and of woken threads. *)
Lemma signalled_spec p ts ts' :
  signalled p ts ts' ->
  (total c_reading ts' = total c_reading ts /\ total c_locking ts' = total c_locking ts /\
   total c_writing ts' = total c_writing ts /\ total to_consume ts' = total to_consume ts /\
   total to_produce ts' = total to_produce ts) /\
  (total c_consume ts <= total c_consume ts' /\ total c_produce ts <= total c_produce ts' /\
   total c_rblocked ts' <= total c_rblocked ts /\ total c_wblocked ts' <= total c_wblocked ts) /\
  (p = is_rblocked -> 0 < total c_rblocked ts' -> total c_consume ts' = total c_consume ts + 1) /\
  (p = is_wblocked -> 0 < total c_wblocked ts' -> total c_produce ts' = total c_produce ts + 1) /\
  (Forall thread_ok ts -> Forall thread_ok ts') /\ length ts' = length ts.
Proof.
  intros [j t t' E Hp Hu|Hnone].
  - rewrite length_zset, !(total_zset _ _ _ _ _ E).
    assert (Forall thread_ok ts -> Forall thread_ok (zset ts j t')) as Hok.
    { intros Hok. apply Forall_zset; [done|]. pose proof (Forall_zget _ _ _ _ Hok E) as Ht.
      destruct t; simplify_eq/=; exact Ht. }
    destruct t; simplify_eq/=; split_and!; try lia; try done; intros ->; discriminate.
  - pose proof (c_bounds ts). split_and!; try done; try lia.
    + intros -> Hb. exfalso. assert (total c_rblocked ts = 0); [|lia]. clear - Hnone.
      induction Hnone as [|t ts Ht _ IH]; simpl; [done|]. destruct t; simpl in *; (done || lia).
    + intros -> Hb. exfalso. assert (total c_wblocked ts = 0); [|lia]. clear - Hnone.
      induction Hnone as [|t ts Ht _ IH]; simpl; [done|]. destruct t; simpl in *; (done || lia).
Qed.

(** ** The invariant *)

Definition held (l : option Z) : Z := match l with Some _ => 1 | None => 0 end.

Lemma held_range l : 0 <= held l <= 1.
Proof. destruct l; cbn; lia. Qed.

Record binv (n cons prod sz : Z) (s : bsys) : Prop := {
  v_len : len (bthreads s) = n;
  v_count : read_count s = total c_reading (bthreads s) + total c_locking (bthreads s);
  v_counter : held (counter_lock s) = total c_locking (bthreads s);
  v_first : 0 < total c_locking (bthreads s) -> total c_reading (bthreads s) = 0;
  v_write : held (write_lock s) =
    total c_writing (bthreads s) + (if 0 <? total c_reading (bthreads s) then 1 else 0);
  v_buffer : buffer_ok (bb s);
  v_size : size (bb s) = sz;
  v_fifo : consumed s ++ contents (bb s) = produced s;
  v_consumers : running s = true -> 0 < total c_rblocked (bthreads s) ->
    count (bb s) <= total c_consume (bthreads s);
  v_producers : running s = true -> 0 < total c_wblocked (bthreads s) ->
    sz - count (bb s) <= total c_produce (bthreads s);
  v_threads : Forall thread_ok (bthreads s);
  v_consumed : running s = true -> len (consumed s) + total to_consume (bthreads s) = cons;
  v_produced : running s = true -> len (produced s) + total to_produce (bthreads s) = prod
}.

Section step.
Context (n cons prod sz : Z) (s : bsys) (Hinv : binv n cons prod sz s).

(** One thread goes on, with the locks and the shared value changed; the
    conditions are on the numbers of threads. *)
Lemma bmove i t t' cl wl rc sd :
  bat s i t -> thread_ok t' ->
  let d f := total f (bthreads s) - f t + f t' in
  rc = d c_reading + d c_locking -> held cl = d c_locking -> (0 < d c_locking -> d c_reading = 0) ->
  held wl = d c_writing + (if 0 <? d c_reading then 1 else 0) ->
  (running s = true -> 0 < d c_rblocked -> count (bb s) <= d c_consume) ->
  (running s = true -> 0 < d c_wblocked -> sz - count (bb s) <= d c_produce) ->
  (running s = true -> to_consume t = to_consume t' /\ to_produce t = to_produce t') ->
  binv n cons prod sz (mkBsys cl wl rc sd (bb s) (running s) (zset (bthreads s) i t') (produced s) (consumed s)).
Proof.
  intros E Ht' d Hrc Hcl Hfirst Hwl Hc Hp Hrem. subst d. destruct Hinv.
  constructor; cbn [counter_lock write_lock read_count shared_data bb running bthreads produced consumed];
    rewrite ?length_zset, ?(total_zset _ _ _ _ _ E); try done.
  - by apply Forall_zset.
  - intros Hr. destruct (Hrem Hr). specialize (v_consumed0 Hr). lia.
  - intros Hr. destruct (Hrem Hr). specialize (v_produced0 Hr). lia.
Qed.

(** An item is stored or removed, and a thread waiting for that is woken. *)
Lemma bbuffer i t t' p ts b pr co :
  bat s i t -> thread_ok t' -> signalled p (zset (bthreads s) i t') ts ->
  c_reading t = c_reading t' -> c_locking t = c_locking t' -> c_writing t = c_writing t' ->
  buffer_ok b -> size b = sz -> co ++ contents b = pr ->
  (running s = true -> 0 < total c_rblocked ts -> count b <= total c_consume ts) ->
  (running s = true -> 0 < total c_wblocked ts -> sz - count b <= total c_produce ts) ->
  (running s = true -> len co - len (consumed s) = to_consume t - to_consume t' /\
     len pr - len (produced s) = to_produce t - to_produce t') ->
  binv n cons prod sz (mkBsys (counter_lock s) (write_lock s) (read_count s) (shared_data s) b (running s) ts pr co).
Proof.
  intros E Ht' Hsig H1 H2 H3 Hb Hs Hf Hc Hp Hrem. destruct Hinv.
  destruct (signalled_spec _ _ _ Hsig) as ((S1 & S2 & S3 & S4 & S5) & _ & _ & _ & S6 & S7).
  rewrite (total_zset _ _ _ _ _ E) in S1. rewrite (total_zset _ _ _ _ _ E) in S2. rewrite (total_zset _ _ _ _ _ E) in S3.
  rewrite (total_zset _ _ _ _ _ E) in S4. rewrite (total_zset _ _ _ _ _ E) in S5. rewrite length_zset in S7.
  assert (total c_reading ts = total c_reading (bthreads s)) as HR by lia.
  constructor; cbn [counter_lock write_lock read_count shared_data bb running bthreads produced consumed]; try done; try lia.
  - rewrite HR. lia.
  - apply S6, Forall_zset; done.
  - intros Hr. destruct (Hrem Hr). specialize (v_consumed0 Hr). lia.
  - intros Hr. destruct (Hrem Hr). specialize (v_produced0 Hr). lia.
Qed.

End step.

(** Goals about a program that still runs. *)
Ltac while_running :=
  let Hrun := fresh "Hrun" in intros Hrun;
  repeat match goal with H : running _ = true -> _ |- _ => specialize (H Hrun) end;
  repeat match goal with H : context [_ && running _] |- _ => rewrite Hrun, andb_true_r in H end;
  zbool; first [congruence | lia | split_and!; lia].

Ltac thread_moves Hinv E :=
  (eapply (bmove _ _ _ _ _ Hinv); [exact E|..]); unfold thread_ok in *; count_eval; rewrite ?Z.sub_0_r, ?Z.add_0_r;
  unfold set_locks, set_shared in *;
  cbn [held counter_lock write_lock read_count shared_data bb running bthreads produced consumed] in *;
  repeat match goal with
  | |- context [if 0 <? ?x then _ else _] => destruct (Z.ltb_spec 0 x)
  | H : context [if 0 <? ?x then _ else _] |- _ => destruct (Z.ltb_spec 0 x)
  end;
  try done; try (lia || (split_and!; lia)); while_running.

Lemma consume_inv n cons prod sz s i k v b ts :
  binv n cons prod sz s -> bat s i (RConsume k) -> bb_consume (running s) (bb s) = Ok (Some (true, v, b)) ->
  signalled is_wblocked (zset (bthreads s) i (RTop k)) ts ->
  binv n cons prod sz (set_buffer s b ts (produced s) (consumed s ++ [v])).
Proof.
  intros Hinv E Hop Hsig. pose proof Hinv as [_ _ _ _ _ Hbuf Hsz Hfifo Hcons Hprod Hthr _ _].
  pose proof (c_bounds (bthreads s)) as Hc. pose proof (Forall_zget _ _ _ _ Hthr E) as Hok.
  pose proof (bb_consume_inv _ _ _ Hop) as [Hr Hnz]. rewrite Hr in Hop. pose proof (bb_consume_running _ Hbuf) as Hrun.
  destruct (Z.eqb_spec (count (bb s)) 0); [done|]. destruct Hrun as (x & b' & Hop' & Hb' & Hs' & Hc' & Hcont).
  rewrite Hop' in Hop. injection Hop as <- <-.
  destruct (signalled_spec _ _ _ Hsig) as (_ & (S1 & S2 & S3 & S4) & _ & S5 & _).
  rewrite (total_zset _ _ _ _ _ E) in S1. rewrite (total_zset _ _ _ _ _ E) in S2. rewrite (total_zset c_produce _ _ _ _ E) in S5.
  rewrite (total_zset _ _ _ _ _ E) in S3. rewrite (total_zset _ _ _ _ _ E) in S4. cbn in S1, S2, S3, S4, S5.
  eapply (bbuffer _ _ _ _ _ Hinv); [exact E| |exact Hsig|..]; try done.
  - unfold thread_ok in *; cbn. lia.
  - lia.
  - by rewrite <-app_assoc, <-Hfifo, Hcont.
  - intros _ Hbl. specialize (Hcons Hr ltac:(lia)). lia.
  - intros _ Hbl. specialize (S5 eq_refl Hbl). specialize (Hprod Hr ltac:(lia)). lia.
  - intros _. rewrite length_app. cbn. lia.
Qed.

Lemma produce_inv n cons prod sz s i k v b ts :
  binv n cons prod sz s -> bat s i (WProduce k v) -> bb_produce (running s) (bb s) v = Ok (Some (true, b)) ->
  signalled is_rblocked (zset (bthreads s) i (WTop k)) ts ->
  binv n cons prod sz (set_buffer s b ts (produced s ++ [v]) (consumed s)).
Proof.
  intros Hinv E Hop Hsig. pose proof Hinv as [_ _ _ _ _ Hbuf Hsz Hfifo Hcons Hprod Hthr _ _].
  pose proof (c_bounds (bthreads s)) as Hc. pose proof (Forall_zget _ _ _ _ Hthr E) as Hok.
  pose proof (bb_produce_inv _ _ _ _ Hop) as [Hr Hnz]. rewrite Hr in Hop. pose proof (bb_produce_running _ v Hbuf) as Hrun.
  destruct (Z.eqb_spec (count (bb s)) (size (bb s))); [done|]. destruct Hrun as (b' & Hop' & Hb' & Hs' & Hc' & Hcont).
  rewrite Hop' in Hop. injection Hop as <-.
  destruct (signalled_spec _ _ _ Hsig) as (_ & (S1 & S2 & S3 & S4) & S5 & _ & _).
  rewrite (total_zset _ _ _ _ _ E) in S1. rewrite (total_zset _ _ _ _ _ E) in S2.
  rewrite (total_zset _ _ _ _ _ E) in S3. rewrite (total_zset _ _ _ _ _ E) in S4. rewrite (total_zset _ _ _ _ _ E) in S5.
  cbn in S1, S2, S3, S4, S5. eapply (bbuffer _ _ _ _ _ Hinv); [exact E| |exact Hsig|..]; try done.
  - unfold thread_ok in *; cbn. lia.
  - lia.
  - by rewrite Hcont, app_assoc, Hfifo.
  - intros _ Hbl. specialize (S5 eq_refl Hbl). specialize (Hcons Hr ltac:(lia)). lia.
  - intros _ Hbl. specialize (Hprod Hr ltac:(lia)). lia.
  - intros _. rewrite length_app. cbn. lia.
Qed.

Lemma bstep_inv n cons prod sz s s' : binv n cons prod sz s -> bstep s s' -> binv n cons prod sz s'.
Proof.
  intros Hinv Hs. pose proof Hinv as [Hlen Hrcount Hcounter Hfirst Hwrite Hbuf Hsz Hfifo Hcons Hprod Hthr Htc Htp].
  pose proof (c_bounds (bthreads s)) as Hc.
  pose proof (held_range (counter_lock s)). pose proof (held_range (write_lock s)).
  destruct Hs as [|i t t' E Hu|i k E|i k rc E Hcl Hrc|i k E Hwl|i k rc E Hcl Hrc|i k E Hop|i k v b E Hop|i k v b ts E Hop Hsig
    |i k E|i k v E Hv Hwl|i k v E|i k v E Hop|i k v b E Hop|i k v b ts E Hop Hsig];
    [constructor; done|..]; pose proof (c_member _ _ _ E) as Hm; pose proof (Forall_zget _ _ _ _ Hthr E) as Hok;
    unfold thread_ok in Hok; cbn in Hm, Hok.
  - destruct t; simplify_eq/=; thread_moves Hinv E.
  - destruct ((0 <? k) && running s) eqn:Hk; [apply andb_true_iff in Hk as [Hk%Z.ltb_lt _]|]; thread_moves Hinv E.
  - apply iadd_inv in Hrc as [-> _]. rewrite Hcl in *. cbn [held] in *.
    destruct (Z.eqb_spec (read_count s + 1) 1); thread_moves Hinv E.
  - rewrite Hwl in *. cbn [held] in *. thread_moves Hinv E.
  - apply int_of_inv in Hrc as [-> _]. rewrite Hcl in *. cbn [held] in *.
    destruct (Z.eqb_spec (read_count s - 1) 0); thread_moves Hinv E.
  - apply bb_consume_inv in Hop as [Hr Hz]. thread_moves Hinv E.
  - apply bb_consume_inv in Hop as Hr. thread_moves Hinv E.
  - by eapply consume_inv.
  - destruct ((0 <? k) && running s) eqn:Hk; [apply andb_true_iff in Hk as [Hk%Z.ltb_lt _]|]; thread_moves Hinv E.
  - rewrite Hwl in *. thread_moves Hinv E.
  - thread_moves Hinv E.
  - apply bb_produce_inv in Hop as [Hr Hz]. thread_moves Hinv E.
  - apply bb_produce_inv in Hop as Hr. thread_moves Hinv E.
  - by eapply produce_inv.
Qed.

Lemma bstart_inv nr nw iters sz mem :
  0 <= iters -> 0 < sz < INT_MAX -> len mem = sz ->
  binv (Z.of_nat nr + Z.of_nat nw) (Z.of_nat nr * iters) (Z.of_nat nw * iters) sz (bstart nr nw iters sz mem).
Proof.
  intros Hi Hsz Hmem.
  assert (forall f, total f (bthreads (bstart nr nw iters sz mem)) =
    Z.of_nat nr * f (RTop iters) + Z.of_nat nw * f (WTop iters)) as Hf.
  { intros f. cbn [bthreads bstart]. rewrite field_total_app.
    assert (forall k t, total f (replicate k t) = Z.of_nat k * f t) as Hk.
    { intros k t. induction k as [|k IH]; [done|]. cbn [replicate]. unfold total in *. cbn [foldr]. lia. }
    by rewrite !Hk. }
  constructor; rewrite ?Hf; count_eval; rewrite ?Z.mul_0_r; cbn [held counter_lock write_lock read_count bb consumed produced bstart];
    try done; try lia.
  - cbn. rewrite length_app, !length_replicate. lia.
  - constructor; cbn; try lia. by rewrite Z.mod_0_l by lia.
  - cbn. apply Forall_app. split; apply Forall_replicate; unfold thread_ok; cbn; lia.
  - intros _. cbn. lia.
Qed.

Lemma breachable_inv nr nw iters sz mem s :
  0 <= iters -> 0 < sz < INT_MAX -> len mem = sz -> rtc bstep (bstart nr nw iters sz mem) s ->
  binv (Z.of_nat nr + Z.of_nat nw) (Z.of_nat nr * iters) (Z.of_nat nw * iters) sz s.
Proof.
  intros Hi Hsz Hmem Hr. pose proof (bstart_inv nr nw iters sz mem Hi Hsz Hmem) as H0. revert H0.
  generalize (bstart nr nw iters sz mem) as s0, Hr. intros s0 Hr0. induction Hr0 as [|s1 s2 s3 Hs _ IH]; eauto using bstep_inv.
Qed.

(** What a critical section of [bb_produce] does: it gives up when the program is
    stopping, waits exactly when the buffer is full, and otherwise appends the item. *)
Definition produce_outcome (running : bool) (sz : Z) (b : bounded_buffer_t) (v : Z) (r : res (option (bool * bounded_buffer_t))) : Prop :=
  if negb running then r = Ok (Some (false, b))
  else if len (contents b) =? sz then r = Ok None
  else exists b', r = Ok (Some (true, b')) /\ contents b' = contents b ++ [v].

(** The same for [bb_consume]: it waits exactly when the buffer is empty, and otherwise
    takes the oldest item. *)
Definition consume_outcome (running : bool) (b : bounded_buffer_t) (r : res (option (bool * Z * bounded_buffer_t))) : Prop :=
  if negb running then r = Ok (Some (false, -1, b))
  else match contents b with
  | [] => r = Ok None
  | v :: rest => exists b', r = Ok (Some (true, v, b')) /\ contents b' = rest
  end.

Lemma produce_outcome_ok r b v : buffer_ok b -> produce_outcome r (size b) b v (bb_produce r b v).
Proof.
  intros Hb. unfold produce_outcome. pose proof (length_buffer_contents _ Hb) as ->. destruct r; cbn [negb]; [|unfold bb_produce; by rewrite andb_false_r].
  pose proof (bb_produce_running _ v Hb) as H. destruct (count b =? size b); [done|]. destruct H as (b' & -> & _ & _ & _ & Hc). by exists b'.
Qed.

Lemma consume_outcome_ok r b : buffer_ok b -> consume_outcome r b (bb_consume r b).
Proof.
  intros Hb. unfold consume_outcome. pose proof (length_buffer_contents _ Hb) as Hl. destruct r; cbn [negb]; [|unfold bb_consume; by rewrite andb_false_r].
  pose proof (bb_consume_running _ Hb) as H. destruct (Z.eqb_spec (count b) 0) as [E|E].
  - destruct (contents b); [done|cbn in Hl; lia].
  - destruct H as (x & b' & -> & _ & _ & _ & ->). by exists b'.
Qed.

(** C7.  In every state the threads can reach: a writer excludes readers and other
    writers; the items consumed, followed by those in the buffer, are the items
    produced, in order; the buffer holds at most [size] items; a critical section of
    [bb_produce] waits exactly when the buffer is full and one of [bb_consume] exactly
    when it is empty, otherwise the item is appended or the oldest one taken, and after
    a shutdown both return at once; and while the program runs no wakeup is lost: a
    consumer (producer) blocked while there is an item (room) implies another one that
    is about to run. *)
Theorem buffer_threads_correct nr nw iters sz mem s :
  0 <= iters -> 0 < sz < INT_MAX -> len mem = sz -> rtc bstep (bstart nr nw iters sz mem) s ->
  (total c_writing (bthreads s) <= 1 /\ (0 < total c_writing (bthreads s) -> total c_reading (bthreads s) = 0)) /\
  consumed s ++ contents (bb s) = produced s /\ len (contents (bb s)) <= sz /\
  (forall v, produce_outcome (running s) sz (bb s) v (bb_produce (running s) (bb s) v)) /\
  consume_outcome (running s) (bb s) (bb_consume (running s) (bb s)) /\
  (running s = true -> 0 < total c_rblocked (bthreads s) -> contents (bb s) <> [] -> 0 < total c_consume (bthreads s)) /\
  (running s = true -> 0 < total c_wblocked (bthreads s) -> len (contents (bb s)) < sz -> 0 < total c_produce (bthreads s)).
Proof.
  intros Hi Hsz Hmem Hr%breachable_inv; [|done..]. destruct Hr.
  pose proof (c_bounds (bthreads s)). pose proof (held_range (write_lock s)). pose proof (length_buffer_contents _ v_buffer0) as Hlen.
  pose proof (bo_count _ v_buffer0). split_and!.
  - destruct (0 <? total c_reading (bthreads s)); lia.
  - destruct (Z.ltb_spec 0 (total c_reading (bthreads s))); lia.
  - done.
  - lia.
  - intros v. rewrite <- v_size0. by apply produce_outcome_ok.
  - by apply consume_outcome_ok.
  - intros Hr Hb Hne. specialize (v_consumers0 Hr Hb). destruct (contents (bb s)); [done|]. cbn in Hlen. lia.
  - intros Hr Hb Hl. specialize (v_producers0 Hr Hb). lia.
Qed.

Definition bdone (t : bthread) : bool := match t with RDone | WDone => true | _ => false end.

(** The readers of [main] have to consume 100 items and its writers produce 40:
    unless the program is interrupted, [main] never joins all its threads. *)
Theorem buffer_main_never_joins mem s :
  len mem = BUFFER_SIZE -> rtc bstep (main_start mem) s -> running s = true ->
  exists i t, bat s i t /\ bdone t = false.
Proof.
  intros Hmem Hr Hrun. apply breachable_inv in Hr; [|done..]. destruct Hr as [_ _ _ _ _ _ _ Hfifo _ _ _ Hc Hp].
  specialize (Hc Hrun). specialize (Hp Hrun).
  change (Z.of_nat NUM_READERS * NUM_ITERATIONS) with 100 in Hc. change (Z.of_nat NUM_WRITERS * NUM_ITERATIONS) with 40 in Hp.
  apply (f_equal length) in Hfifo. rewrite length_app in Hfifo.
  destruct (decide (Forall (fun t => bdone t = true) (bthreads s))) as [Hall|Hnot].
  - exfalso. assert (total to_consume (bthreads s) = 0 /\ total to_produce (bthreads s) = 0) as [H1 H2]; [|lia].
    clear - Hall. induction Hall as [|t ts Ht _ IH]; cbn; [done|]. destruct t; cbn in *; (done || lia).
  - apply not_Forall_Exists in Hnot; [|apply _]. apply Exists_exists in Hnot as (t & Hin & Ht).
    apply elem_of_zget in Hin as [i Hi]. exists i, t. split; [done|]. by apply not_true_is_false.
Qed.

(** One step of a concrete run, with the state after it computed. *)
Ltac b_go c :=
  match goal with |- rtc _ ?s _ => eapply rtc_l; [apply (c s); first [reflexivity | lia | apply signal_none; repeat constructor]|] end;
  match goal with |- rtc _ ?x _ => let y := eval vm_compute in x in change x with y end.

(** A writer produces two items and a reader consumes the first of them. *)
Lemma buffer_threads_correct_witness :
  let s := mkBsys None None 0 8 (mkBuffer [7; 8; 0] 3 1 2 1) true [RTop 1; WTop 0] [7; 8] [7] in
  rtc bstep (bstart 1 1 2 3 [0; 0; 0]) s /\ consumed s ++ contents (bb s) = produced s /\
  produce_outcome true 3 (bb s) 9 (bb_produce true (bb s) 9) /\ consume_outcome true (bb s) (bb_consume true (bb s)).
Proof.
  intros s. assert (rtc bstep (bstart 1 1 2 3 [0; 0; 0]) s) as Hr.
  { b_go (fun s => b_writer_top s 1 2). b_go (fun s => b_write_lock s 1 1 7). b_go (fun s => b_write s 1 1 7).
    b_go (fun s => b_produce s 1 1 7 (mkBuffer [7; 0; 0] 3 1 1 0) [RTop 2; WTop 1]).
    b_go (fun s => b_reader_top s 0 2). b_go (fun s => b_read_lock s 0 1 1). b_go (fun s => b_read_first s 0 1). b_go (fun s => b_read_unlock s 0 1 0).
    b_go (fun s => b_consume s 0 1 7 (mkBuffer [7; 0; 0] 3 0 1 1) [RTop 1; WTop 1]).
    b_go (fun s => b_writer_top s 1 1). b_go (fun s => b_write_lock s 1 0 8). b_go (fun s => b_write s 1 0 8).
    b_go (fun s => b_produce s 1 0 8 (mkBuffer [7; 8; 0] 3 1 2 1) [RTop 1; WTop 0]). apply rtc_refl. }
  split; [exact Hr|].
  destruct (buffer_threads_correct 1 1 2 3 [0; 0; 0] s) as (_ & H2 & _ & H3 & H4 & _); [lia|unfold INT_MAX; lia|reflexivity|exact Hr|].
  split; [exact H2|]. split; [exact (H3 9)|exact H4].
Defined.

Lemma buffer_main_never_joins_witness :
  exists i t, bat (main_start (replicate 10 0)) i t /\ bdone t = false.
Proof. apply (buffer_main_never_joins (replicate 10 0)); [reflexivity|apply rtc_refl|reflexivity]. Defined.

(** The last reader may release [write_lock] although another thread locked it:
    here thread 1 is about to unlock the mutex that thread 0 holds. *)
Lemma foreign_unlock_reachable :
  let s := mkBsys None (Some 0) 1 0 (bb_init [0; 0; 0] 3) true [RConsume 0; RReading 0] [] [] in
  rtc bstep (bstart 2 0 1 3 [0; 0; 0]) s /\ exists rc, isub (read_count s) 1 = Ok rc /\ rc = 0 /\ write_lock s = Some 0.
Proof.
  intros s. split; [|by exists 0].
  eapply rtc_l; [apply (b_reader_top _ 0 1); reflexivity|].
  eapply rtc_l; [apply (b_reader_top _ 1 1); reflexivity|].
  eapply rtc_l; [apply (b_read_lock _ 0 0 1); reflexivity|].
  eapply rtc_l; [apply (b_read_first _ 0 0); reflexivity|].
  eapply rtc_l; [apply (b_read_lock _ 1 0 2); reflexivity|].
  eapply rtc_l; [apply (b_read_unlock _ 0 0 1); reflexivity|]. apply rtc_refl.
Qed.
