(* ===== verification/ContextSwitch.v ===== *)
(** * Context switch simulation ([concurrency/threads/contextSwitch/contextSwitchHandler.c])

    Process control blocks, the round-robin choice of the next process, the
    context switch with its accounting, and the timer interrupt.  A pointer to
    a process is its index in [processes].  [rand] and the clock are arguments:
    [rnd k] is the [k]-th random number, [clk k] the [k]-th reading of the
    monotonic clock in nanoseconds.  Fields of [struct pcb] that no function
    uses are left out. *)
From Stdlib Require Import ZArith Lia String.
From stdpp Require Import base tactics list numbers option.
From S2P Require Import Prelude.

#[local] Open Scope Z_scope.
#[local] Open Scope c_scope.

Inductive process_state : Type :=
| TASK_RUNNING
| TASK_INTERRUPTIBLE
| TASK_UNINTERRUPTIBLE
| TASK_STOPPED
| TASK_ZOMBIE.
#[export] Instance process_state_eq_dec : EqDecision process_state.
Proof. solve_decision. Defined.

Record cpu_registers : Type := mkRegs { rax : Z; rbx : Z; rcx : Z; fpu_used : bool; mxcsr : Z }.

Record sched_info : Type := mkSched { priority : Z; time_slice : Z; total_time : Z; last_ran : Z }.

Record pcb : Type := mkPcb {
  pid : Z;
  ppid : Z;
  uid : Z;
  gid : Z;
  name : string;
  state : process_state;
  regs : cpu_registers;
  pgd : Z;
  sched : sched_info;
  voluntary_switches : Z;
  involuntary_switches : Z
}.

Record perf_stats : Type := mkStats { context_switches : Z; avg_switch_time : Z; max_switch_time : Z }.

(** The globals, the static [current_index] of [scheduler_select_next], and the
    numbers of random numbers and clock readings used so far. *)
Record cstate : Type := mkC {
  global_stats : perf_stats;
  current_process : Z;
  processes : list pcb;
  num_processes : Z;
  current_index : Z;
  nrand : nat;
  nclock : nat
}.

Section setters.
Implicit Types (p : pcb) (c : cstate).
Definition set_state p s := mkPcb (pid p) (ppid p) (uid p) (gid p) (name p) s (regs p) (pgd p) (sched p)
  (voluntary_switches p) (involuntary_switches p).
Definition set_regs p r := mkPcb (pid p) (ppid p) (uid p) (gid p) (name p) (state p) r (pgd p) (sched p)
  (voluntary_switches p) (involuntary_switches p).
Definition set_sched p s := mkPcb (pid p) (ppid p) (uid p) (gid p) (name p) (state p) (regs p) (pgd p) s
  (voluntary_switches p) (involuntary_switches p).
Definition set_switches p v i := mkPcb (pid p) (ppid p) (uid p) (gid p) (name p) (state p) (regs p) (pgd p) (sched p) v i.
Definition with_procs c l := mkC (global_stats c) (current_process c) l (num_processes c) (current_index c) (nrand c) (nclock c).
Definition with_stats c s := mkC s (current_process c) (processes c) (num_processes c) (current_index c) (nrand c) (nclock c).
Definition with_current c i := mkC (global_stats c) i (processes c) (num_processes c) (current_index c) (nrand c) (nclock c).
Definition with_index c i := mkC (global_stats c) (current_process c) (processes c) (num_processes c) i (nrand c) (nclock c).
Definition with_count c n := mkC (global_stats c) (current_process c) (processes c) n (current_index c) (nrand c) (nclock c).
End setters.

Section simulation.
Context (rnd : nat -> Z) (clk : nat -> Z).

Definition rand (c : cstate) : Z * cstate :=
  (rnd (nrand c), mkC (global_stats c) (current_process c) (processes c) (num_processes c) (current_index c) (S (nrand c)) (nclock c)).
Definition get_current_time (c : cstate) : Z * cstate :=
  (u64 (clk (nclock c)), mkC (global_stats c) (current_process c) (processes c) (num_processes c) (current_index c) (nrand c) (S (nclock c))).

Definition calculate_time_slice (p : pcb) : res Z :=
  r ← imod (priority (sched p)) 5;
  d ← isub 5 r;
  Ok (u64 d).

(** The registers of [prev] get random values, as in the program. *)
Definition save_cpu_state (c : cstate) (r : cpu_registers) : cpu_registers * cstate :=
  let '(a, c) := rand c in
  let '(b, c) := rand c in
  let '(d, c) := rand c in
  (mkRegs (u64 (Z.rem a 1000)) (u64 (Z.rem b 1000)) (u64 (Z.rem d 1000)) (fpu_used r) (mxcsr r), c).

(** 0x1F80 *)
Definition save_fpu_state (r : cpu_registers) : cpu_registers :=
  if fpu_used r then mkRegs (rax r) (rbx r) (rcx r) true 8064 else r.

(** The [do ... while] loop: the first pass returns the next running process in
    cyclic order; after a full turn the current process is returned. *)
Definition select_pass (start : Z) (c : cstate) : res (ctl cstate (Z * cstate)) :=
  i ← iadd (current_index c) 1;
  i ← imod i (num_processes c);
  p ← (processes c).[i];
  let c := with_index c i in
  if decide (state p = TASK_RUNNING) then Ok (Return (i, c))
  else if negb (i =? start) then Ok (Next c)
  else Ok (Return (current_process c, c)).

Definition scheduler_select_next (c : cstate) : res (Z * cstate) :=
  loop (S (Z.to_nat (num_processes c))) (select_pass (current_index c)) c.

Definition update_process_accounting (prev next : Z) (c : cstate) : res cstate :=
  let '(current_time, c) := get_current_time c in
  p ← (processes c).[prev];
  let p := set_sched p (mkSched (priority (sched p)) (time_slice (sched p))
    (u64 (total_time (sched p) + u64 (current_time - last_ran (sched p)))) (last_ran (sched p))) in
  ps ← (processes c).[prev <- p];
  n ← ps.[next];
  slice ← calculate_time_slice n;
  ps ← ps.[next <- set_sched n (mkSched (priority (sched n)) slice (total_time (sched n)) current_time)];
  p ← ps.[prev];
  ps ← ps.[prev <- if decide (state p = TASK_INTERRUPTIBLE)
                  then set_switches p (u64 (voluntary_switches p + 1)) (involuntary_switches p)
                  else set_switches p (voluntary_switches p) (u64 (involuntary_switches p + 1))];
  Ok (with_procs c ps).

Definition update_perf_stats (switch_start_time : Z) (c : cstate) : res cstate :=
  let '(now, c) := get_current_time c in
  let switch_time := u64 (now - switch_start_time) in
  let g := global_stats c in
  let n := u64 (context_switches g + 1) in
  if n =? 0 then Fault DivByZero
  else
    let avg := u64 (u64 (avg_switch_time g * u64 (n - 1)) + switch_time) / n in
    let max := if max_switch_time g <? switch_time then switch_time else max_switch_time g in
    Ok (with_stats c (mkStats n avg max)).

(** [switch_mm_context] and the restore functions only print. *)
Definition context_switch (prev next : Z) (c : cstate) : res cstate :=
  let '(switch_start_time, c) := get_current_time c in
  p ← (processes c).[prev];
  let '(r, c) := save_cpu_state c (regs p) in
  ps ← (processes c).[prev <- set_state (set_regs p (save_fpu_state r)) TASK_INTERRUPTIBLE];
  n ← ps.[next];
  ps ← ps.[next <- set_state n TASK_RUNNING];
  c ← update_process_accounting prev next (with_procs c ps);
  update_perf_stats switch_start_time (with_current c next).

(** Whether the interrupt forces a scheduling decision: [rand] is called only
    if the time slice is not used up. *)
Definition slice_over (slice : Z) (c : cstate) : bool * cstate :=
  if slice =? 0 then (true, c) else let '(r, c) := rand c in (Z.rem r 3 =? 0, c).

Definition timer_interrupt_handler (c : cstate) : res cstate :=
  let prev := current_process c in
  p ← (processes c).[prev];
  let slice := u64 (time_slice (sched p) - 1) in
  let p := set_sched p (mkSched (priority (sched p)) slice (total_time (sched p)) (last_ran (sched p))) in
  ps ← (processes c).[prev <- p];
  let '(over, c) := slice_over slice (with_procs c ps) in
  if over then
    '(next, c) ← scheduler_select_next c;
    if negb (next =? prev) then context_switch prev next c
    else
      p ← (processes c).[prev];
      slice ← calculate_time_slice p;
      ps ← (processes c).[prev <- set_sched p (mkSched (priority (sched p)) slice (total_time (sched p)) (last_ran (sched p)))];
      Ok (with_procs c ps)
  else Ok c.

(** [pids] are the results of [getpid], [getppid], [getuid] and [getgid].  The
    two calls of [rand] in the page directory are unsequenced in C; the left
    one is first here. *)
Definition initialize_process (pids : Z * Z * Z * Z) (proc : Z) (nm : string) (prio : Z) (c : cstate) : res cstate :=
  let '(p1, p2, p3, p4) := pids in
  p ← (processes c).[proc];
  newpid ← iadd p1 (num_processes c);
  let p := mkPcb newpid p2 p3 p4 (String.substring 0 15 nm) TASK_RUNNING (regs p) (pgd p)
    (mkSched prio (time_slice (sched p)) (total_time (sched p)) (last_ran (sched p))) (voluntary_switches p) (involuntary_switches p) in
  slice ← calculate_time_slice p;
  let '(t, c) := get_current_time c in
  let '(hi, c) := rand c in
  let '(lo, c) := rand c in
  let '(f, c) := rand c in
  let p := mkPcb (pid p) (ppid p) (uid p) (gid p) (name p) (state p)
    (mkRegs (rax (regs p)) (rbx (regs p)) (rcx (regs p)) (Z.rem f 2 =? 0) (mxcsr (regs p)))
    (Z.lor (u64 (Z.shiftl hi 32)) (u64 lo)) (mkSched prio slice (total_time (sched p)) t)
    (voluntary_switches p) (involuntary_switches p) in
  ps ← (processes c).[proc <- p];
  n ← iadd (num_processes c) 1;
  Ok (with_count (with_procs c ps) n).

Definition MAX_PROCESSES : Z := 4.

Definition zero_pcb : pcb :=
  mkPcb 0 0 0 0 EmptyString TASK_RUNNING (mkRegs 0 0 0 false 0) 0 (mkSched 0 0 0 0) 0 0.

(** [current_process] is [NULL], which is no index. *)
Definition initial : cstate := mkC (mkStats 0 0 0) (-1) (replicate (Z.to_nat MAX_PROCESSES) zero_pcb) 0 0 0 0.

Definition ticks (n : nat) (c : cstate) : res cstate := for_range n 0 (fun _ => timer_interrupt_handler) c.

Definition boot (pids : Z * Z * Z * Z) : res cstate :=
  c ← initialize_process pids 0 "Init" 2 initial;
  c ← initialize_process pids 1 "Web_Server" 1 c;
  c ← initialize_process pids 2 "Database" 0 c;
  c ← initialize_process pids 3 "Backup" 3 c;
  Ok (with_current c 0).

Definition context_main (pids : Z * Z * Z * Z) : res cstate :=
  c ← boot pids;
  ticks 10 c.
End simulation.

(** ** Correctness *)

Definition running (p : pcb) : Z := if decide (state p = TASK_RUNNING) then 1 else 0.

Lemma calculate_time_slice_ok p : 0 <= priority (sched p) ->
  calculate_time_slice p = Ok (5 - priority (sched p) mod 5).
Proof.
  intros H. unfold calculate_time_slice, imod. simpl. rewrite Z.rem_mod_nonneg by lia.
  pose proof (Z.mod_pos_bound (priority (sched p)) 5). rewrite int_of_Ok by (unfold INT_MIN, INT_MAX; lia).
  rewrite bind_ret_l, isub_Ok, bind_ret_l by (unfold INT_MIN, INT_MAX; lia). rewrite u64_id; [done|]. unfold UINT64. lia.
Qed.

Lemma cyclic_back i k n : 0 <= i < n -> 1 <= k <= n -> (i + k) mod n = i <-> k = n.
Proof.
  intros Hi Hk. destruct (decide (i + k < n)); [rewrite Z.mod_small; lia|].
  replace (i + k) with (i + k - n + 1 * n) by lia. rewrite Z_mod_plus_full, Z.mod_small; lia.
Qed.

(** The next running process in cyclic order after [current_index]; the current
    process if none is running. *)
Definition selects (c : cstate) (i : Z) (c' : cstate) : Prop :=
  let n := num_processes c in
  let at_ k := zget (processes c) ((current_index c + k) mod n) in
  exists k, 1 <= k <= n /\ c' = with_index c ((current_index c + k) mod n) /\
    (forall j, 1 <= j < k -> exists p, at_ j = Some p /\ state p <> TASK_RUNNING) /\
    exists p, at_ k = Some p /\
      (state p = TASK_RUNNING /\ i = (current_index c + k) mod n \/
       state p <> TASK_RUNNING /\ k = n /\ i = current_process c).

Lemma scheduler_select_next_spec c :
  0 < num_processes c <= INT_MAX -> len (processes c) = num_processes c -> 0 <= current_index c < num_processes c ->
  exists i c', scheduler_select_next c = Ok (i, c') /\ selects c i c'.
Proof.
  intros Hn Hlen Hi. unfold scheduler_select_next. set (n := num_processes c) in *. set (i0 := current_index c) in *.
  set (I := fun d : cstate => exists k, 0 <= k < n /\ d = with_index c ((i0 + k) mod n) /\
    forall j, 1 <= j <= k -> exists p, zget (processes c) ((i0 + j) mod n) = Some p /\ state p <> TASK_RUNNING).
  set (m := fun d : cstate => Z.to_nat (n - (current_index d - i0) mod n)).
  assert (I c) as Ic.
  { exists 0. split; [lia|]. rewrite Z.add_0_r, Z.mod_small by lia. split; [by destruct c|]. intros j Hj. lia. }
  destruct (loop_total I (fun r : Z * cstate => selects c r.1 r.2) m (select_pass i0)) with (fuel := S (Z.to_nat n)) (s := c)
    as ([i c'] & Hl & Hs); [| done | unfold m; replace (current_index c - i0) with 0 by (unfold i0; lia); rewrite Z.mod_0_l; lia | by exists i, c'].
  intros d (k & Hk & -> & Hno). unfold select_pass. simpl. fold n.
  pose proof (Z.mod_pos_bound (i0 + k) n ltac:(lia)) as Hb.
  rewrite iadd_Ok, bind_ret_l, imod_Ok, bind_ret_l by (unfold INT_MAX, INT_MIN in *; lia).
  rewrite Zplus_mod_idemp_l. replace (i0 + k + 1) with (i0 + (k + 1)) by lia.
  pose proof (Z.mod_pos_bound (i0 + (k + 1)) n ltac:(lia)) as Hb'.
  destruct (zget_range (processes c) ((i0 + (k + 1)) mod n)) as [p Hp]; [lia|].
  erewrite arr_read_Ok, bind_ret_l by done. destruct (decide (state p = TASK_RUNNING)) as [Hr|Hr].
  - eexists. split; [done|]. exists (k + 1). fold n i0. split; [lia|]. split; [done|].
    split; [intros j Hj; apply Hno; lia|]. exists p. split; [done|]. by left.
  - assert ((i0 + (k + 1)) mod n = i0 <-> k + 1 = n) as Hwrap by (apply cyclic_back; lia).
    case_cond; eexists; (split; [done|]); simpl.
    + assert (k + 1 < n) by lia. split.
      * exists (k + 1). split; [lia|]. split; [done|]. intros j Hj. destruct (decide (j = k + 1)) as [->|]; [by eauto|]. apply Hno. lia.
      * unfold m. simpl. rewrite !Zminus_mod_idemp_l. replace (i0 + (k + 1) - i0) with (k + 1) by lia.
        replace (i0 + k - i0) with k by lia. rewrite !Z.mod_small by lia. lia.
    + exists (k + 1). fold n i0. split; [lia|]. split; [done|]. split; [intros j Hj; apply Hno; lia|].
      exists p. split; [done|]. right. repeat split; [done|lia].
Qed.

Section switching.
Context (rnd clk : nat -> Z) (T : Z).
(** A monotonic clock that does not overflow 64 bits. *)
Context (Hmono : forall j k : nat, (j <= k)%nat -> clk j <= clk k) (Hclk : forall k, 0 <= clk k <= T) (HT : T < UINT64).

Lemma clock_id k : u64 (clk k) = clk k.
Proof. apply u64_id. specialize (Hclk k). lia. Qed.

(** The process that loses and the one that gets the processor. *)
Definition charge (now : Z) (p : pcb) : pcb :=
  mkPcb (pid p) (ppid p) (uid p) (gid p) (name p) TASK_INTERRUPTIBLE (regs p) (pgd p)
    (mkSched (priority (sched p)) (time_slice (sched p)) (u64 (total_time (sched p) + u64 (now - last_ran (sched p)))) (last_ran (sched p)))
    (u64 (voluntary_switches p + 1)) (involuntary_switches p).
Definition dispatch (now : Z) (q : pcb) : pcb :=
  mkPcb (pid q) (ppid q) (uid q) (gid q) (name q) TASK_RUNNING (regs q) (pgd q)
    (mkSched (priority (sched q)) (5 - priority (sched q) mod 5) (total_time (sched q)) now)
    (voluntary_switches q) (involuntary_switches q).

Definition record_switch (t : Z) (g : perf_stats) : perf_stats :=
  mkStats (context_switches g + 1) ((avg_switch_time g * context_switches g + t) / (context_switches g + 1))
    (Z.max (max_switch_time g) t).

Lemma update_perf_stats_ok start c :
  let g := global_stats c in
  let t := clk (nclock c) - start in
  0 <= start <= clk (nclock c) -> 0 <= context_switches g -> 0 <= avg_switch_time g <= T -> (context_switches g + 1) * T < UINT64 ->
  context_switches g + 1 < UINT64 ->
  update_perf_stats clk start c = Ok (mkC (record_switch t g) (current_process c) (processes c) (num_processes c) (current_index c)
    (nrand c) (S (nclock c))).
Proof.
  intros g t Hs Hc Ha Hb Hc'. unfold update_perf_stats. cbn [get_current_time global_stats]. rewrite clock_id. fold g t.
  pose proof (Hclk (nclock c)). assert (0 <= t <= T) by lia.
  rewrite (u64_id (context_switches g + 1)), (u64_id t) by lia. case_cond; [lia|].
  rewrite (u64_id (context_switches g + 1 - 1)) by lia. replace (context_switches g + 1 - 1) with (context_switches g) by lia.
  assert (0 <= avg_switch_time g * context_switches g /\ avg_switch_time g * context_switches g + t < UINT64) by nia.
  rewrite (u64_id (avg_switch_time g * context_switches g)), u64_id by lia.
  unfold with_stats, record_switch; simpl. do 3 f_equal. case_cond; lia.
Qed.

Lemma context_switch_ok prev next p q c :
  let now := clk (S (nclock c)) in
  let g := global_stats c in
  prev <> next -> zget (processes c) prev = Some p -> zget (processes c) next = Some q -> 0 <= priority (sched q) ->
  0 <= context_switches g -> 0 <= avg_switch_time g <= T -> (context_switches g + 1) * T < UINT64 -> context_switches g + 1 < UINT64 ->
  exists r k t, context_switch rnd clk prev next c = Ok (mkC (record_switch t g) next
    (zset (zset (processes c) prev (charge now (set_regs p r))) next (dispatch now q)) (num_processes c) (current_index c) k (3 + nclock c)) /\
    0 <= t <= T.
Proof.
  intros now g Hne Hp Hq Hpr Hc Ha Hb Hc'. pose proof (zget_Some_range _ _ _ Hp). pose proof (zget_Some_range _ _ _ Hq).
  unfold context_switch. cbn [get_current_time processes]. rewrite (arr_read_Ok _ _ _ Hp), bind_ret_l.
  cbn [save_cpu_state rand processes]. set (r := save_fpu_state _). exists r.
  rewrite arr_write_Ok, bind_ret_l by lia. erewrite arr_read_Ok, bind_ret_l by (rewrite zget_zset_ne by done; exact Hq).
  rewrite arr_write_Ok, bind_ret_l by int_side. unfold update_process_accounting. cbn [get_current_time processes with_procs nclock].
  rewrite !clock_id. fold now.
  erewrite arr_read_Ok, bind_ret_l by (rewrite zget_zset_ne, zget_zset_eq by (done || lia); done).
  rewrite arr_write_Ok, bind_ret_l by int_side.
  erewrite arr_read_Ok, bind_ret_l by (rewrite zget_zset_ne, zget_zset_eq by (done || int_side); done).
  rewrite calculate_time_slice_ok, bind_ret_l by done. rewrite arr_write_Ok, bind_ret_l by int_side.
  erewrite arr_read_Ok, bind_ret_l by (rewrite zget_zset_ne, zget_zset_eq by (done || int_side); done).
  rewrite arr_write_Ok, bind_ret_l by int_side. simpl.
  rewrite update_perf_stats_ok; simpl; fold g; [|pose proof (Hclk (nclock c)); pose proof (Hmono (nclock c) (S (S (nclock c)))); lia|done..].
  eexists _, _. split.
  - do 2 f_equal. rewrite (zset_zset_ne (zset (processes c) prev _) next prev), zset_zset_eq by done. rewrite zset_zset_eq.
    rewrite zset_zset_ne, zset_zset_eq by done. done.
  - pose proof (Hclk (nclock c)). pose proof (Hmono (nclock c) (S (S (nclock c)))). pose proof (Hclk (S (S (nclock c)))). lia.
Qed.

(** *** The invariant *)

Record proc_ok (p : pcb) : Prop := {
  k_priority : 0 <= priority (sched p);
  k_total : 0 <= total_time (sched p);
  k_vol : 0 <= voluntary_switches p;
  k_invol : involuntary_switches p = 0
}.

(** [t0] is when the first process was started.  [strict] is false while the
    timer interrupt has not yet renewed the time slice of the current process. *)
Record cinv (strict : bool) (t0 : Z) (c : cstate) : Prop := {
  i_len : len (processes c) = num_processes c;
  i_n : 0 < num_processes c <= INT_MAX /\ num_processes c * T < UINT64;
  i_index : 0 <= current_index c < num_processes c;
  i_current : exists p, zget (processes c) (current_process c) = Some p /\ state p = TASK_RUNNING /\
    last_ran (sched p) = t0 + total (fun p => total_time (sched p)) (processes c) /\ last_ran (sched p) <= clk (nclock c);
  i_procs : Forall proc_ok (processes c);
  i_slices : forall i p, zget (processes c) i = Some p -> state p = TASK_RUNNING -> strict = true \/ i <> current_process c ->
    1 <= time_slice (sched p) <= 5;
  i_running : total running (processes c) + context_switches (global_stats c) = num_processes c;
  i_switches : total voluntary_switches (processes c) = context_switches (global_stats c);
  i_stats : 0 <= avg_switch_time (global_stats c) <= max_switch_time (global_stats c) /\ max_switch_time (global_stats c) <= T
}.

Lemma running_range p : 0 <= running p <= 1.
Proof. unfold running. case_decide; lia. Qed.

Lemma record_switch_ok t g : 0 <= t <= T -> 0 <= context_switches g -> 0 <= avg_switch_time g <= max_switch_time g /\ max_switch_time g <= T ->
  0 <= avg_switch_time (record_switch t g) <= max_switch_time (record_switch t g) /\ max_switch_time (record_switch t g) <= T.
Proof.
  intros Ht Hc Ha. simpl. split; [split|lia].
  - apply Z.div_pos; nia.
  - apply Z.div_le_upper_bound; nia.
Qed.

(** An update of the time slice of the current process. *)
Lemma cinv_slice strict strict' t0 c p slice :
  cinv strict t0 c -> zget (processes c) (current_process c) = Some p -> (strict' = true -> 1 <= slice <= 5) ->
  cinv strict' t0 (with_procs c (zset (processes c) (current_process c)
    (set_sched p (mkSched (priority (sched p)) slice (total_time (sched p)) (last_ran (sched p)))))).
Proof.
  intros [] Hp Hs. destruct i_current0 as (p' & Hp' & Hr & Ht & Hl). assert (p' = p) as -> by congruence.
  pose proof (zget_Some_range _ _ _ Hp). pose proof (Forall_zget _ _ _ _ i_procs0 Hp) as [].
  constructor; simpl; rewrite ?length_zset, ?(total_zset _ _ _ p) by done; [done|done|done| | | | |simpl; lia|done].
  - eexists. split; [by rewrite zget_zset_eq by lia|]. simpl. split; [done|]. split; [lia|done].
  - apply Forall_zset; [done|]. by constructor.
  - intros i q [[-> ->]|[Hi Hq]]%zget_zset_inv Hrq Hst; [|apply (i_slices0 i); [done..|by right]].
    destruct Hst as [->|]; [by apply Hs|done].
  - change (running (set_sched p _)) with (running p). lia.
Qed.

Lemma context_switch_inv t0 c next q :
  0 <= t0 -> cinv false t0 c -> zget (processes c) next = Some q -> state q = TASK_RUNNING -> current_process c <> next ->
  exists c', context_switch rnd clk (current_process c) next c = Ok c' /\ cinv true t0 c' /\ num_processes c' = num_processes c.
Proof.
  intros Ht0 Hinv Hq Hrun Hne. pose proof Hinv as []. destruct i_current0 as (p & Hp & Hr & Ht & Hl).
  pose proof (Forall_zget _ _ _ _ i_procs0 Hp) as Kp. pose proof (Forall_zget _ _ _ _ i_procs0 Hq) as Kq.
  set (g := global_stats c) in *. set (cs := context_switches g) in *.
  assert (0 <= cs) as Hcs. { rewrite <- i_switches0. apply field_total_nonneg. by eapply Forall_impl; [|exact i_procs0]; intros ? []. }
  assert (running p = 1) as Rp by (unfold running; by rewrite Hr). assert (running q = 1) as Rq by (unfold running; by rewrite Hrun).
  assert (total running (processes c) >= 2) as H2.
  { pose proof (total_zset running _ _ _ (charge 0 p) Hp) as E. pose proof (total_member running (zset (processes c) (current_process c) (charge 0 p)) next q) as M.
    rewrite zget_zset_ne in M by done. specialize (M ltac:(apply Forall_true; intros; apply running_range) Hq).
    rewrite Rp, (eq_refl : running (charge 0 p) = 0) in E. rewrite Rq in M. lia. }
  assert ((cs + 1) * T < UINT64) by nia. assert (cs + 1 < UINT64) by (unfold INT_MAX, UINT64 in *; lia). assert (0 <= avg_switch_time g <= T) by lia.
  destruct (context_switch_ok (current_process c) next p q c) as (r & k & t & Hcs' & Htr); [done|done|done|apply Kq|done..|].
  eexists. split; [exact Hcs'|]. split; [|done].
  set (now := clk (S (nclock c))). pose proof (Hmono (nclock c) (S (nclock c))). pose proof (Hclk (S (nclock c))).
  pose proof (zget_Some_range _ _ _ Hp). pose proof (zget_Some_range _ _ _ Hq). pose proof Kp as []. pose proof Kq as [].
  assert (total_time (sched p) <= total (fun p => total_time (sched p)) (processes c)) as Hle.
  { apply (total_member (fun p => total_time (sched p)) _ (current_process c)); [|done]. by eapply Forall_impl; [|exact i_procs0]; intros ? []. }
  assert (voluntary_switches p <= cs) as Hv.
  { rewrite <- i_switches0. apply (total_member voluntary_switches _ (current_process c)); [|done]. by eapply Forall_impl; [|exact i_procs0]; intros ? []. }
  assert (total_time (sched (charge now (set_regs p r))) = total_time (sched p) + now - last_ran (sched p)) as Et.
  { simpl. rewrite (u64_id (now - _)), u64_id by lia. lia. }
  assert (voluntary_switches (charge now (set_regs p r)) = voluntary_switches p + 1) as Ev.
  { simpl. apply u64_id. unfold INT_MAX, UINT64 in *. lia. }
  assert (zget (zset (processes c) (current_process c) (charge now (set_regs p r))) next = Some q) as Hq' by by rewrite zget_zset_ne.
  assert (forall f, total f (zset (zset (processes c) (current_process c) (charge now (set_regs p r))) next (dispatch now q)) =
    total f (processes c) - f p + f (charge now (set_regs p r)) - f q + f (dispatch now q)) as Etot.
  { intros f. rewrite (total_zset f _ _ _ _ Hq'), (total_zset f _ _ _ _ Hp). lia. }
  constructor; simpl; rewrite ?length_zset, ?Etot; try done.
  - exists (dispatch now q). rewrite zget_zset_eq by int_side. repeat split; [|simpl; apply Hmono; lia].
    rewrite Et. simpl. lia.
  - repeat apply Forall_zset; [done| |]; constructor; rewrite ?Et, ?Ev; simpl; (done || lia).
  - intros i x [[-> ->]|[_ [[-> ->]|[Hi Hx]]%zget_zset_inv]]%zget_zset_inv Hrx _; [|done|apply (i_slices0 i x Hx Hrx); by right].
    pose proof (Z.mod_pos_bound (priority (sched q)) 5). simpl. lia.
  - rewrite Rp, Rq, (eq_refl : running (charge now (set_regs p r)) = 0), (eq_refl : running (dispatch now q) = 1). fold g cs. lia.
  - rewrite Ev. simpl. fold g cs. lia.
  - by apply record_switch_ok.
Qed.

(** The random numbers and the scheduler's index are free. *)
Lemma cinv_index strict t0 c i k : cinv strict t0 c -> 0 <= i < num_processes c ->
  cinv strict t0 (mkC (global_stats c) (current_process c) (processes c) (num_processes c) i k (nclock c)).
Proof. intros [] Hi. by constructor. Qed.

Lemma slice_over_ok slice c : exists over k,
  slice_over rnd slice c = (over, mkC (global_stats c) (current_process c) (processes c) (num_processes c) (current_index c) k (nclock c)) /\
  (slice = 0 -> over = true).
Proof.
  unfold slice_over. destruct (Z.eqb_spec slice 0).
  - exists true, (nrand c). by destruct c.
  - eexists _, _. split; [done|]. lia.
Qed.

Lemma selected_running strict t0 c i c' : cinv strict t0 c -> selects c i c' ->
  exists q, zget (processes c) i = Some q /\ state q = TASK_RUNNING.
Proof.
  intros [] (k & Hk & -> & _ & p & Hp & [[Hr ->]|(Hr & -> & ->)]); [by eauto|].
  destruct i_current0 as (q & Hq & Hrq & _). by eauto.
Qed.

Lemma timer_interrupt_handler_inv t0 c : 0 <= t0 -> cinv true t0 c ->
  exists c', timer_interrupt_handler rnd clk c = Ok c' /\ cinv true t0 c' /\ num_processes c' = num_processes c.
Proof.
  intros Ht0 Hinv. pose proof Hinv as []. destruct i_current0 as (p & Hp & Hr & _).
  pose proof (zget_Some_range _ _ _ Hp) as Hcur. pose proof (i_slices0 _ _ Hp Hr (or_introl eq_refl)) as Hs.
  unfold timer_interrupt_handler. erewrite arr_read_Ok, bind_ret_l by done. rewrite (u64_id (time_slice (sched p) - 1)) by (unfold UINT64; lia).
  set (slice := time_slice (sched p) - 1). set (p1 := set_sched p _). rewrite arr_write_Ok, bind_ret_l by done.
  destruct (slice_over_ok slice (with_procs c (zset (processes c) (current_process c) p1))) as (over & k & -> & Hover).
  destruct over.
  2: { eexists. split; [done|]. split; [|done]. apply cinv_index; [|done]. apply (cinv_slice true); [done..|].
       intros _. assert (slice <> 0) by (intros E; by specialize (Hover E)). lia. }
  set (c1 := mkC _ _ _ _ _ _ _).
  assert (cinv false t0 c1) as Hinv1 by (apply cinv_index; [|done]; by apply (cinv_slice true)).
  destruct (scheduler_select_next_spec c1) as (next & c2 & -> & Hsel); [by apply Hinv1..|]. rewrite bind_ret_l.
  destruct (selected_running _ _ _ _ _ Hinv1 Hsel) as (q & Hq & Hrq).
  destruct Hsel as (d & Hd & -> & _). assert (cinv false t0 (with_index c1 ((current_index c1 + d) mod num_processes c1))) as Hinv2.
  { apply cinv_index; [done|]. apply Z.mod_pos_bound. simpl. lia. }
  destruct (Z.eqb_spec next (current_process c)) as [->|Hne]; simpl negb; cbv iota.
  - assert (zget (processes c1) (current_process c) = Some p1) as Hp1 by (apply zget_zset_eq; lia).
    erewrite arr_read_Ok, bind_ret_l by exact Hp1. pose proof (Forall_zget _ _ _ _ i_procs0 Hp) as [].
    rewrite calculate_time_slice_ok, bind_ret_l by done. rewrite arr_write_Ok, bind_ret_l by (simpl; int_side).
    eexists. split; [done|]. split; [|done]. apply (cinv_slice false true t0 (with_index c1 _) p1 _ Hinv2 Hp1). pose proof (Z.mod_pos_bound (priority (sched p1)) 5). lia.
  - destruct (context_switch_inv t0 _ next q Ht0 Hinv2 Hq Hrq) as (c' & Hc' & ? & ?); [by apply not_eq_sym|]. by exists c'.
Qed.

Lemma ticks_inv t0 n c : 0 <= t0 -> cinv true t0 c ->
  exists c', ticks rnd clk n c = Ok c' /\ cinv true t0 c' /\ num_processes c' = num_processes c.
Proof.
  intros Ht0 Hinv. unfold ticks. destruct (for_range_inv (fun _ d => cinv true t0 d /\ num_processes d = num_processes c) n 0
    (fun _ => timer_interrupt_handler rnd clk) c) as (c' & Hc & ? & ?); [done| |by exists c'].
  intros _ d _ [Hd <-]. by apply timer_interrupt_handler_inv.
Qed.

Lemma initialize_process_ok pids i nm prio c :
  0 <= i < len (processes c) -> zget (processes c) i = Some zero_pcb -> 0 <= num_processes c < 4 -> 0 <= pids.1.1.1 <= INT_MAX - 4 -> 0 <= prio ->
  exists pg f k, initialize_process rnd clk pids i nm prio c = Ok (mkC (global_stats c) (current_process c)
    (zset (processes c) i (mkPcb (pids.1.1.1 + num_processes c) pids.1.1.2 pids.1.2 pids.2 (String.substring 0 15 nm) TASK_RUNNING
      (mkRegs 0 0 0 f 0) pg (mkSched prio (5 - prio mod 5) 0 (clk (nclock c))) 0 0))
    (num_processes c + 1) (current_index c) k (S (nclock c))).
Proof.
  intros Hi Hz Hn Hp Hpr. destruct pids as [[[p1 p2] p3] p4]. simpl in Hp. unfold initialize_process.
  erewrite arr_read_Ok, bind_ret_l by done. rewrite iadd_Ok, bind_ret_l by (unfold INT_MIN, INT_MAX in *; lia).
  rewrite calculate_time_slice_ok, bind_ret_l by done. cbn [get_current_time rand processes num_processes].
  rewrite arr_write_Ok, bind_ret_l by done. rewrite iadd_Ok, bind_ret_l by (unfold INT_MIN, INT_MAX in *; lia).
  eexists _, _, _. unfold with_count, with_procs. simpl. rewrite clock_id. done.
Qed.

Lemma boot_inv pids : 0 <= pids.1.1.1 <= INT_MAX - 4 -> 4 * T < UINT64 ->
  exists c, boot rnd clk pids = Ok c /\ cinv true (clk 0%nat) c /\ num_processes c = 4.
Proof.
  intros Hp H4. unfold boot.
  destruct (initialize_process_ok pids 0 "Init" 2 initial) as (g0 & f0 & k0 & ->); [done..|]. rewrite bind_ret_l.
  set (c0 := mkC _ _ _ _ _ _ _). destruct (initialize_process_ok pids 1 "Web_Server" 1 c0) as (g1 & f1 & k1 & ->); [done..|]. rewrite bind_ret_l.
  set (c1 := mkC _ _ _ _ _ _ _). destruct (initialize_process_ok pids 2 "Database" 0 c1) as (g2 & f2 & k2 & ->); [done..|]. rewrite bind_ret_l.
  set (c2 := mkC _ _ _ _ _ _ _). destruct (initialize_process_ok pids 3 "Backup" 3 c2) as (g3 & f3 & k3 & ->); [done..|]. rewrite bind_ret_l.
  eexists. split; [done|]. split; [|done]. pose proof (Hclk 0).
  constructor; [done|simpl; unfold INT_MAX; lia|simpl; lia| | | |done|done|simpl; lia].
  - eexists. split; [done|]. simpl. split; [done|]. split; [lia|]. apply Hmono. lia.
  - repeat constructor; done.
  - intros i p Hi _ _. revert Hi. apply (Forall_zget (fun p => 1 <= time_slice (sched p) <= 5)). repeat constructor; done.
Qed.
End switching.

(** The clock hypotheses of the properties: a monotonic clock in nanoseconds that
    stays below [T]. *)
Definition clock_ok (clk : nat -> Z) (T : Z) : Prop :=
  (forall j k : nat, (j <= k)%nat -> clk j <= clk k) /\ forall k, 0 <= clk k <= T.

(** C39.  Every run of the simulation, over any number of timer interrupts,
    returns; each context switch puts one process to sleep and nothing wakes it
    again, so that there are at most three switches, and exactly four minus that
    many processes are still runnable, the current one among them; every runnable
    process has a time slice of 1 to 5 ticks. *)
Theorem context_switches_bounded rnd clk T pids n :
  clock_ok clk T -> 4 * T < UINT64 -> 0 <= pids.1.1.1 <= INT_MAX - 4 ->
  exists c, (c ← boot rnd clk pids; ticks rnd clk n c) = Ok c /\
    0 <= context_switches (global_stats c) <= 3 /\
    total running (processes c) = 4 - context_switches (global_stats c) /\
    (exists p, zget (processes c) (current_process c) = Some p /\ state p = TASK_RUNNING) /\
    (forall i p, zget (processes c) i = Some p -> state p = TASK_RUNNING -> 1 <= time_slice (sched p) <= 5).
Proof.
  intros [Hm Hc] HT Hp. assert (T < UINT64) as HT' by (specialize (Hc O); lia).
  destruct (boot_inv rnd clk T Hm Hc HT' pids Hp HT) as (c0 & -> & Hinv & Hn). rewrite bind_ret_l.
  destruct (ticks_inv rnd clk T Hm Hc HT' (clk O) n c0) as (c & Hr & Hinv' & Hn'); [apply Hc|done|]. exists c. split; [done|].
  destruct Hinv' as [? ? ? (p & Hcur & Hrun & _) Hpr Hsl Hrc Hsw _]. rewrite Hn', Hn in *.
  pose proof (total_member running (processes c) (current_process c) p ltac:(apply Forall_true; intros; apply running_range) Hcur) as H1.
  unfold running in H1 at 1. rewrite Hrun in H1. simpl in H1.
  assert (0 <= context_switches (global_stats c)).
  { rewrite <- Hsw. apply field_total_nonneg. by eapply Forall_impl; [|exact Hpr]; intros ? []. }
  split; [lia|]. split; [lia|]. split; [by eauto|]. intros i q Hq Hrq. apply (Hsl i q Hq Hrq). by left.
Qed.

Lemma context_switches_bounded_witness :
  exists c, (c ← boot (fun _ => 3) (fun k => Z.of_nat k `min` 100) (1, 1, 0, 0); ticks (fun _ => 3) (fun k => Z.of_nat k `min` 100) 30 c) = Ok c /\
    0 <= context_switches (global_stats c) <= 3.
Proof.
  destruct (context_switches_bounded (fun _ => 3) (fun k => Z.of_nat k `min` 100) 100 (1, 1, 0, 0) 30) as (c & H1 & H2 & _).
  - split; intros; lia.
  - reflexivity.
  - unfold INT_MAX. simpl. lia.
  - exists c. by split.
Defined.

(** The accounts of the simulation balance after any number of timer
    interrupts: the CPU time charged to the processes is the time from the start
    of the first process to the last switch, each switch is counted once with the
    process that lost the processor, always as voluntary, and the average switch
    time is at most the maximum. *)
Theorem cpu_time_accounted rnd clk T pids n :
  clock_ok clk T -> 4 * T < UINT64 -> 0 <= pids.1.1.1 <= INT_MAX - 4 ->
  exists c p, (c ← boot rnd clk pids; ticks rnd clk n c) = Ok c /\
    zget (processes c) (current_process c) = Some p /\
    total (fun p => total_time (sched p)) (processes c) = last_ran (sched p) - clk 0%nat /\
    total voluntary_switches (processes c) = context_switches (global_stats c) /\
    Forall (fun p => involuntary_switches p = 0) (processes c) /\
    0 <= avg_switch_time (global_stats c) <= max_switch_time (global_stats c).
Proof.
  intros [Hm Hc] HT Hp. assert (T < UINT64) as HT' by (specialize (Hc O); lia).
  destruct (boot_inv rnd clk T Hm Hc HT' pids Hp HT) as (c0 & -> & Hinv & Hn). rewrite bind_ret_l.
  destruct (ticks_inv rnd clk T Hm Hc HT' (clk O) n c0) as (c & Hr & Hinv' & Hn'); [apply Hc|done|].
  destruct Hinv' as [? ? ? (p & Hcur & Hrun & Hl & _) Hpr _ _ Hsw Hst]. exists c, p.
  split; [done|]. split; [done|]. split; [lia|]. split; [done|]. split; [|lia].
  by eapply Forall_impl; [|exact Hpr]; intros ? [].
Qed.

Lemma cpu_time_accounted_witness :
  exists c p, (c ← boot (fun _ => 3) (fun k => Z.of_nat k `min` 100) (1, 1, 0, 0); ticks (fun _ => 3) (fun k => Z.of_nat k `min` 100) 2 c) = Ok c /\
    zget (processes c) (current_process c) = Some p /\
    total (fun p => total_time (sched p)) (processes c) = last_ran (sched p).
Proof.
  destruct (cpu_time_accounted (fun _ => 3) (fun k => Z.of_nat k `min` 100) 100 (1, 1, 0, 0) 2) as (c & p & H1 & H2 & H3 & _).
  - split; intros; lia.
  - reflexivity.
  - unfold INT_MAX. simpl. lia.
  - exists c, p. split; [done|]. split; [done|]. rewrite H3. simpl. lia.
Defined.
