(* ===== verification/CHeap.v ===== *)
(** * The C heap

    Allocated blocks as a finite map from addresses to contents.  [malloc] is
    not modelled: an allocator is any function that finds a place for a block or
    fails, with the promises of the C library as the laws of [MallocLaws]. *)
From Stdlib Require Import ZArith Lia.
From stdpp Require Import base tactics numbers option gmap.
From S2P Require Import Prelude.

#[local] Open Scope Z_scope.
#[local] Open Scope c_scope.

Notation heap := (gmap Z).

(** Where the next block goes; [None] is [malloc]'s [NULL]. *)
Definition allocator (V : Type) : Type := heap V -> option Z.

Class MallocLaws {V} (alloc : allocator V) : Prop := {
  malloc_fresh h a : alloc h = Some a -> h !! a = None;
  malloc_range h a : alloc h = Some a -> 0 < a < UINT64;
  malloc_aligned h a : alloc h = Some a -> a mod 16 = 0
}.

Section operations.
Context {V : Type}.
Implicit Types (h : heap V) (a : Z) (v : V).

Definition load h a : res V :=
  if a =? 0 then Fault NullDeref else match h !! a with Some v => Ok v | None => Fault BadAddress end.

Definition store h a v : res (heap V) :=
  if a =? 0 then Fault NullDeref else match h !! a with Some _ => Ok (<[a := v]> h) | None => Fault BadAddress end.

(** [free(NULL)] does nothing; freeing a block twice is undefined. *)
Definition free h a : res (heap V) :=
  if a =? 0 then Ok h else match h !! a with Some _ => Ok (delete a h) | None => Fault BadAddress end.

Lemma load_Ok h a v : a <> 0 -> h !! a = Some v -> load h a = Ok v.
Proof. intros Ha E. unfold load. destruct (Z.eqb_spec a 0); [done|]. by rewrite E. Qed.

Lemma store_Ok h a v v' : a <> 0 -> h !! a = Some v' -> store h a v = Ok (<[a := v]> h).
Proof. intros Ha E. unfold store. destruct (Z.eqb_spec a 0); [done|]. by rewrite E. Qed.

Lemma free_Ok h a v : a <> 0 -> h !! a = Some v -> free h a = Ok (delete a h).
Proof. intros Ha E. unfold free. destruct (Z.eqb_spec a 0); [done|]. by rewrite E. Qed.

(** Allocating and freeing leaves the heap as it was. *)
Lemma free_fresh h a v : a <> 0 -> h !! a = None -> free (<[a := v]> h) a = Ok h.
Proof. intros Ha E. rewrite (free_Ok _ _ v) by (done || by rewrite lookup_insert_eq). by rewrite delete_insert_id. Qed.

Lemma load_insert h a v : a <> 0 -> load (<[a := v]> h) a = Ok v.
Proof. intros Ha. apply load_Ok; [done|]. by rewrite lookup_insert_eq. Qed.
End operations.

(** A first-fit allocator for a heap of blocks of 16 bytes, which shows that the
    laws can hold: the first free multiple of 16 among the first [n]. *)
Definition bump {V} (n : nat) : allocator V := fun h =>
  list_find (fun a => h !! a = None) ((fun i => 16 * (i + 1)) <$> seqZ 0 (Z.of_nat n)) ≫= fun p => Some p.2.

Lemma bump_laws {V} (n : nat) : Z.of_nat n < 1000000 -> MallocLaws (@bump V n).
Proof.
  intros Hn. assert (forall (h : heap V) a, bump n h = Some a -> h !! a = None /\ exists i, a = 16 * (i + 1) /\ 0 <= i < Z.of_nat n) as H.
  { unfold bump. intros h a ([i b] & (Hi & Hb & _)%list_find_Some & [= <-])%bind_Some. split; [done|].
    apply list_lookup_fmap_Some_1 in Hi as (x & -> & Hx). apply lookup_seqZ in Hx. exists x. lia. }
  split; intros h a (Ha & i & -> & Hi)%H; [done| |].
  - unfold UINT64. lia.
  - rewrite Z.mul_comm. apply Z.mod_mul. lia.
Qed.

(** The allocator finds place for the next [n] blocks. *)
Definition room {V} (alloc : allocator V) (h : heap V) (n : nat) : Prop :=
  forall h', (size h' < size h + n)%nat -> is_Some (alloc h').

Lemma room_alloc {V} (alloc : allocator V) h n : room alloc h (S n) -> is_Some (alloc h).
Proof. intros H. apply H. lia. Qed.

(** One block less after an allocation. *)
Lemma room_insert {V} (alloc : allocator V) h n a v : room alloc h (S n) -> h !! a = None -> room alloc (<[a := v]> h) n.
Proof. intros H Ha h' Hh. apply H. rewrite map_size_insert_None in Hh by done. lia. Qed.

Lemma room_le {V} (alloc : allocator V) h h' n n' : room alloc h n -> (size h' + n' <= size h + n)%nat -> room alloc h' n'.
Proof. intros H Hle h2 Hh. apply H. lia. Qed.

Lemma bump_room {V} (n : nat) (h : heap V) (k : nat) : (size h + k <= n)%nat -> room (@bump V n) h k.
Proof.
  intros Hk h' Hh. unfold bump. set (l := (fun i => 16 * (i + 1)) <$> seqZ 0 (Z.of_nat n)).
  destruct (list_find (fun a => h' !! a = None) l) as [p|] eqn:Hf; [by eexists|exfalso].
  rewrite list_find_None in Hf. assert (NoDup l) as Hnd by (apply NoDup_fmap; [intros x y; lia|apply NoDup_seqZ]).
  assert (list_to_set l ⊆ dom h') as Hsub.
  { intros a Ha%elem_of_list_to_set. apply elem_of_dom. rewrite list.Forall_forall in Hf. specialize (Hf a Ha).
    by destruct (h' !! a). }
  apply subseteq_size in Hsub. rewrite size_list_to_set, size_dom in Hsub by done.
  unfold l in Hsub. rewrite length_fmap, length_seqZ in Hsub. lia.
Qed.
