(* ===== verification/Pointers.v ===== *)
(** * Pointers with bookkeeping ([memory/allocation])

    [pointerTagging.c] keeps the type of an object in the low bits of its
    address, [uniquePointer.c] gives a block one owner, [smartPointer.c] counts
    the references to a block that threads share. *)
From Stdlib Require Import ZArith Lia String.
From stdpp Require Import base tactics list numbers option gmap relations.
From S2P Require Import Prelude CHeap.

#[local] Open Scope Z_scope.
#[local] Open Scope c_scope.

(** ** Tagged pointers ([pointerTagging.c]) *)
Module Tagged.

Definition TAG_BITS : Z := 3.
Definition TAG_MASK : Z := u64 (Z.shiftl 1 TAG_BITS - 1).
Definition POINTER_MASK : Z := u64 (Z.lnot TAG_MASK).

Inductive ObjectType : Type := TYPE_INT | TYPE_FLOAT | TYPE_STRING | TYPE_CUSTOM.

Definition type_code (t : ObjectType) : Z :=
  match t with TYPE_INT => 0 | TYPE_FLOAT => 1 | TYPE_STRING => 2 | TYPE_CUSTOM => 3 end.

(** The union, as the member last stored; a [float] is its bits. *)
Inductive data : Type :=
| int_value (z : Z)
| float_value (bits : Z)
| string_value (a : Z)
| custom_value (a : Z).

Record Object : Type := mkObject { type : ObjectType; payload : data }.

(** What a block of memory holds. *)
Inductive cell : Type :=
| CInt (z : Z)
| CFloat (bits : Z)
| CStr (s : string)
| CObject (o : Object).

Definition as_int (c : cell) : res Z := match c with CInt z => Ok z | _ => Fault BadAddress end.
Definition as_float (c : cell) : res Z := match c with CFloat z => Ok z | _ => Fault BadAddress end.
Definition as_str (c : cell) : res string := match c with CStr s => Ok s | _ => Fault BadAddress end.
Definition as_object (c : cell) : res Object := match c with CObject o => Ok o | _ => Fault BadAddress end.

Definition tag_pointer (ptr tag : Z) : res Z :=
  if Z.land ptr TAG_MASK =? 0 then Ok (Z.lor (Z.land ptr POINTER_MASK) (Z.land tag TAG_MASK))
  else Fault AssertFail.

Definition untag_pointer (tagged_ptr : Z) : Z := Z.land tagged_ptr POINTER_MASK.

Definition get_tag (tagged_ptr : Z) : Z := Z.land tagged_ptr TAG_MASK.

(** What [print_object] prints. *)
Inductive output : Type :=
| PrintInt (z : Z)
| PrintFloat (bits : Z)
| PrintString (s : string)
| PrintCustom (a : Z).

Section objects.
Context (alloc : allocator cell).

Definition strdup (h : heap cell) (a : Z) : res (heap cell * Z) :=
  c ← load h a;
  s ← as_str c;
  match alloc h with None => Ok (h, 0) | Some b => Ok (<[b := CStr s]> h, b) end.

(** The block of [obj] exists, without its contents, while the [switch] runs. *)
Definition create_object (h : heap cell) (ty : ObjectType) (value : Z) : res (heap cell * Z) :=
  match alloc h with
  | None => Ok (h, 0)
  | Some obj =>
      let done (h : heap cell) (d : data) :=
        h ← store h obj (CObject (mkObject ty d));
        t ← tag_pointer obj (type_code ty);
        Ok (h, t) in
      let h := <[obj := CObject (mkObject ty (custom_value 0))]> h in
      match ty with
      | TYPE_INT => c ← load h value; z ← as_int c; done h (int_value z)
      | TYPE_FLOAT => c ← load h value; z ← as_float c; done h (float_value z)
      | TYPE_STRING =>
          '(h, s) ← strdup h value;
          if s =? 0 then h ← free h obj; Ok (h, 0) else done h (string_value s)
      | TYPE_CUSTOM => done h (custom_value value)
      end
  end.

(** A member that is not the one stored is not read: the model stops. *)
Definition free_object (h : heap cell) (tagged_ptr : Z) : res (heap cell) :=
  let obj := untag_pointer tagged_ptr in
  h ← (if get_tag tagged_ptr =? type_code TYPE_STRING then
         c ← load h obj;
         o ← as_object c;
         match payload o with string_value a => free h a | _ => Fault BadAddress end
       else Ok h);
  free h obj.

Definition print_object (h : heap cell) (tagged_ptr : Z) : res (option output) :=
  let obj := untag_pointer tagged_ptr in
  let tag := get_tag tagged_ptr in
  if tag =? type_code TYPE_INT then
    c ← load h obj; o ← as_object c;
    match payload o with int_value z => Ok (Some (PrintInt z)) | _ => Fault BadAddress end
  else if tag =? type_code TYPE_FLOAT then
    c ← load h obj; o ← as_object c;
    match payload o with float_value z => Ok (Some (PrintFloat z)) | _ => Fault BadAddress end
  else if tag =? type_code TYPE_STRING then
    c ← load h obj; o ← as_object c;
    match payload o with
    | string_value a => c ← load h a; s ← as_str c; Ok (Some (PrintString s))
    | _ => Fault BadAddress
    end
  else if tag =? type_code TYPE_CUSTOM then
    c ← load h obj; o ← as_object c;
    match payload o with custom_value a => Ok (Some (PrintCustom a)) | _ => Fault BadAddress end
  else Ok None.

(** [iv], [fv] and [sv] are the addresses of the local variables and of the
    string literal.  The result is the exit status, what was printed and the
    heap at the end. *)
Definition tagged_main (h : heap cell) (iv fv sv : Z) : res (Z * list (option output) * heap cell) :=
  match alloc h with
  | None => Ok (1, [], h)
  | Some cv =>
      let h := <[cv := CInt 100]> h in
      '(h, int_obj) ← create_object h TYPE_INT iv;
      '(h, float_obj) ← create_object h TYPE_FLOAT fv;
      '(h, string_obj) ← create_object h TYPE_STRING sv;
      '(h, custom_obj) ← create_object h TYPE_CUSTOM cv;
      if (int_obj =? 0) || (float_obj =? 0) || (string_obj =? 0) || (custom_obj =? 0) then
        h ← free h cv; Ok (1, [], h)
      else
        o1 ← print_object h int_obj;
        o2 ← print_object h float_obj;
        o3 ← print_object h string_obj;
        o4 ← print_object h custom_obj;
        h ← free_object h int_obj;
        h ← free_object h float_obj;
        h ← free_object h string_obj;
        h ← free_object h custom_obj;
        h ← free h cv;
        Ok (0, [o1; o2; o3; o4], h)
  end.
End objects.

(** *** Tags *)

Lemma TAG_MASK_ones : TAG_MASK = Z.ones 3.
Proof. done. Qed.

Lemma POINTER_MASK_shifted : POINTER_MASK = Z.shiftl (Z.ones 61) 3.
Proof. done. Qed.

Lemma get_tag_mod p : get_tag p = p mod 8.
Proof. unfold get_tag. rewrite TAG_MASK_ones. apply Z.land_ones. lia. Qed.

Lemma untag_pointer_div p : 0 <= p < UINT64 -> untag_pointer p = 8 * (p / 8).
Proof.
  intros Hp. unfold untag_pointer. rewrite POINTER_MASK_shifted. replace (8 * (p / 8)) with (Z.shiftl (Z.shiftr p 3) 3).
  2: { rewrite Z.shiftl_mul_pow2, Z.shiftr_div_pow2 by lia. change (2 ^ 3) with 8. lia. }
  apply Z.bits_inj'. intros n Hn. rewrite Z.land_spec, !Z.shiftl_spec by lia.
  destruct (Z.lt_ge_cases n 3); [rewrite !(Z.testbit_neg_r _ (n - 3)) by lia; apply andb_false_r|].
  rewrite Z.shiftr_spec by lia. replace (n - 3 + 3) with n by lia. rewrite Z.testbit_ones_nonneg by lia.
  destruct (Z.ltb_spec (n - 3) 61); [apply andb_true_r|]. rewrite andb_false_r. symmetry.
  rewrite <- (Z.mod_small p (2 ^ 64)) by (unfold UINT64 in Hp; lia). apply Z.mod_pow2_bits_high. lia.
Qed.

(** A pointer from [malloc], its tag and its address. *)
Lemma tag_pointer_ok p ty : 0 < p < UINT64 -> p mod 16 = 0 ->
  tag_pointer p (type_code ty) = Ok (p + type_code ty) /\ get_tag (p + type_code ty) = type_code ty /\ untag_pointer (p + type_code ty) = p.
Proof.
  intros Hp H16. assert (exists q, p = 16 * q) as [q ->] by (exists (p / 16); dlia).
  assert (0 <= type_code ty <= 3) as Ht by (destruct ty; simpl; lia).
  split; [|split; [rewrite get_tag_mod; dlia|rewrite untag_pointer_div by (unfold UINT64 in *; lia); dlia]].
  pose proof (get_tag_mod (16 * q)) as H1. unfold tag_pointer, get_tag in *. rewrite H1.
  replace (16 * q mod 8) with 0 by dlia. simpl. pose proof (untag_pointer_div (16 * q)) as H2. unfold untag_pointer in H2.
  rewrite H2 by lia. rewrite TAG_MASK_ones, Z.land_ones by lia. rewrite (Z.mod_small (type_code ty)) by lia.
  replace (8 * (16 * q / 8)) with (Z.shiftl (2 * q) 3) by (rewrite Z.shiftl_mul_pow2 by lia; dlia).
  rewrite lor_shifted by lia. f_equal. lia.
Qed.

(** *** Objects *)

(** What a [value] argument stands for. *)
Inductive reads (h : heap cell) : ObjectType -> Z -> output -> Prop :=
| reads_int a z : a <> 0 -> h !! a = Some (CInt z) -> reads h TYPE_INT a (PrintInt z)
| reads_float a z : a <> 0 -> h !! a = Some (CFloat z) -> reads h TYPE_FLOAT a (PrintFloat z)
| reads_string a s : a <> 0 -> h !! a = Some (CStr s) -> reads h TYPE_STRING a (PrintString s)
| reads_custom a : reads h TYPE_CUSTOM a (PrintCustom a).

(** The blocks an object consists of. *)
Inductive blocks (obj : Z) : ObjectType -> output -> heap cell -> Prop :=
| blocks_int z : blocks obj TYPE_INT (PrintInt z) {[obj := CObject (mkObject TYPE_INT (int_value z))]}
| blocks_float z : blocks obj TYPE_FLOAT (PrintFloat z) {[obj := CObject (mkObject TYPE_FLOAT (float_value z))]}
| blocks_string s a : a <> 0 -> a <> obj ->
    blocks obj TYPE_STRING (PrintString s) (<[obj := CObject (mkObject TYPE_STRING (string_value a))]> {[a := CStr s]})
| blocks_custom a : blocks obj TYPE_CUSTOM (PrintCustom a) {[obj := CObject (mkObject TYPE_CUSTOM (custom_value a))]}.

Record object_at (t : Z) (ty : ObjectType) (out : output) (m : heap cell) : Prop := {
  at_address : 0 < untag_pointer t < UINT64;
  at_aligned : untag_pointer t mod 16 = 0;
  at_tag : t = untag_pointer t + type_code ty;
  at_blocks : blocks (untag_pointer t) ty out m
}.

Lemma object_tag t ty out m : object_at t ty out m -> get_tag t = type_code ty /\ t <> 0.
Proof.
  intros [H1 H2 H3 _]. destruct (tag_pointer_ok _ ty H1 H2) as (_ & Ht & _). rewrite <- H3 in Ht. split; [done|].
  intros ->. change (untag_pointer 0) with 0 in H1. lia.
Qed.

Lemma object_created (alloc : allocator cell) `{!MallocLaws alloc} h obj ty out m :
  alloc h = Some obj -> blocks obj ty out m -> object_at (obj + type_code ty) ty out m.
Proof.
  intros Ha Hb. pose proof (malloc_range _ _ Ha). pose proof (malloc_aligned _ _ Ha).
  destruct (tag_pointer_ok obj ty) as (_ & _ & Hu); [done..|]. split; by rewrite Hu.
Qed.

Lemma create_object_spec (alloc : allocator cell) `{!MallocLaws alloc} h ty v out : reads h ty v out ->
  exists h' t, create_object alloc h ty v = Ok (h', t) /\
    ((t = 0 /\ h' = h) \/ exists m, object_at t ty out m /\ m ##ₘ h /\ h' = m ∪ h).
Proof.
  intros Hr. unfold create_object. destruct (alloc h) as [obj|] eqn:Ha; [|by eexists _, _; split; [done|left]].
  pose proof (malloc_fresh _ _ Ha) as Hf. pose proof (malloc_range _ _ Ha) as Hrg. pose proof (malloc_aligned _ _ Ha) as Hal.
  destruct (tag_pointer_ok obj ty Hrg Hal) as (Htag & _).
  assert (forall d m c, blocks obj ty out m -> m = {[obj := CObject (mkObject ty d)]} ->
    exists h' t, (h0 ← store (<[obj := c]> h) obj (CObject (mkObject ty d)); t ← tag_pointer obj (type_code ty); Ok (h0, t)) = Ok (h', t) /\
      ((t = 0 /\ h' = h) \/ exists m, object_at t ty out m /\ m ##ₘ h /\ h' = m ∪ h)) as Hdone.
  { intros d m c Hb ->. rewrite (store_Ok _ _ _ c) by (lia || by rewrite lookup_insert_eq). rewrite bind_ret_l, Htag, bind_ret_l.
    eexists _, _. split; [done|]. right. eexists. split; [by apply (object_created alloc h)|].
    split; [by apply map_disjoint_singleton_l|]. by rewrite insert_insert_eq, insert_union_singleton_l. }
  assert (forall c a x, h !! a = Some x -> a <> 0 -> load (<[obj := c]> h) a = Ok x) as Hload.
  { intros c a x Hx H0. apply load_Ok; [done|]. rewrite lookup_insert_ne; [done|]. by intros ->; rewrite Hf in Hx. }
  destruct Hr as [a z H0 Hx|a z H0 Hx|a s H0 Hx|a].
  - erewrite Hload, bind_ret_l by done. simpl as_int. rewrite bind_ret_l. eapply Hdone; [constructor|done].
  - erewrite Hload, bind_ret_l by done. simpl as_float. rewrite bind_ret_l. eapply Hdone; [constructor|done].
  - unfold strdup. erewrite Hload, bind_ret_l by done. simpl as_str. rewrite bind_ret_l.
    set (h1 := <[obj := _]> h). destruct (alloc h1) as [b|] eqn:Hb; rewrite bind_ret_l.
    + pose proof (malloc_range _ _ Hb). pose proof (malloc_fresh _ _ Hb) as [Hb0 Hne]%lookup_insert_None.
      case_cond; [lia|]. rewrite (store_Ok _ _ _ (CObject (mkObject TYPE_STRING (custom_value 0)))).
      2: lia. 2: { rewrite lookup_insert_ne by congruence. apply lookup_insert_eq. }
      rewrite bind_ret_l, Htag, bind_ret_l. eexists _, _. split; [done|]. right. eexists.
      split; [apply (object_created alloc h); [done|]; apply (blocks_string obj s b); [lia|congruence]|].
      split; [apply map_disjoint_insert_l_2; [done|]; by apply map_disjoint_singleton_l|].
      rewrite <- insert_union_l, <- insert_union_singleton_l. unfold h1. rewrite (insert_insert_ne _ b obj) by congruence.
      by rewrite insert_insert_eq.
    + unfold h1. simpl. rewrite free_fresh by (lia || done). eexists _, _. split; [done|]. by left.
  - eapply Hdone; [constructor|done].
Qed.

Lemma print_object_spec t ty out m h : object_at t ty out m -> m ⊆ h -> print_object h t = Ok (Some out).
Proof.
  intros Hat Hsub. destruct (object_tag _ _ _ _ Hat) as [Ht _]. destruct Hat as [Hr _ _ Hb]. unfold print_object. rewrite Ht.
  destruct Hb as [z|z|s a H0 Hne|a]; simpl;
    (erewrite load_Ok; [|lia|eapply lookup_weaken; [apply lookup_insert_eq|done]]); simpl; try done.
  rewrite (load_Ok h a (CStr s)); [done|done|]. eapply lookup_weaken; [|done].
  rewrite lookup_insert_ne by done. apply lookup_insert_eq.
Qed.

Lemma free_object_spec t ty out m h : object_at t ty out m -> m ⊆ h -> free_object h t = Ok (h ∖ m).
Proof.
  intros Hat Hsub. destruct (object_tag _ _ _ _ Hat) as [Ht _]. destruct Hat as [Hr _ _ Hb]. unfold free_object. rewrite Ht.
  assert (forall a (c : cell), delete a h = h ∖ {[a := c]}) as Hdel.
  { intros a c. rewrite <- (map_difference_empty h) at 1. apply delete_difference. }
  assert (forall c, m !! untag_pointer t = Some c -> h !! untag_pointer t = Some c) as Hobj by (intros; by eapply lookup_weaken).
  destruct Hb as [z|z|s a H0 Hne|a]; simpl.
  3: { erewrite load_Ok; [|lia|apply Hobj, lookup_insert_eq]. simpl.
       erewrite free_Ok; [|done|eapply lookup_weaken; [|done]; rewrite lookup_insert_ne by done; apply lookup_insert_eq]. simpl.
       erewrite free_Ok; [|lia|rewrite lookup_delete_ne by done; apply Hobj, lookup_insert_eq]. f_equal.
       rewrite (Hdel _ (CStr s)). apply delete_difference. }
  all: (erewrite free_Ok; [|lia|apply Hobj, lookup_insert_eq]); by rewrite <- Hdel.
Qed.

Lemma union_remove (m k : heap cell) : m ##ₘ k -> (m ∪ k) ∖ m = k.
Proof.
  intros H. rewrite map_difference_union_distr_l, map_difference_diag, map_difference_disjoint by done. apply map_empty_union.
Qed.

Lemma union_remove_under (n m k : heap cell) : n ##ₘ m -> (n ∪ k) ∖ m = n ∪ (k ∖ m).
Proof. intros Hn. rewrite map_difference_union_distr_l. f_equal. by apply map_difference_disjoint. Qed.

(** C35.  Life of a tagged object, for any allocator that keeps [malloc]'s
    promises: [create_object] returns [NULL] and leaves the heap as it was, or
    returns a pointer that carries the type of the object, from which
    [print_object] reads the value back, and [free_object] gives back exactly
    the memory the object took. *)
Theorem tagged_object_lifetime (alloc : allocator cell) h ty v out :
  MallocLaws alloc -> reads h ty v out ->
  exists h' t, create_object alloc h ty v = Ok (h', t) /\
    ((t = 0 /\ h' = h) \/
     (t <> 0 /\ get_tag t = type_code ty /\ print_object h' t = Ok (Some out) /\ free_object h' t = Ok h)).
Proof.
  intros Hal Hr. destruct (create_object_spec alloc h ty v out Hr) as (h' & t & Hc & Hres). exists h', t. split; [done|].
  destruct Hres as [?|(m & Hat & Hd & ->)]; [by left|right]. destruct (object_tag _ _ _ _ Hat) as [Ht H0].
  split; [done|]. split; [done|]. split; [apply (print_object_spec t ty out m); [done|apply map_union_subseteq_l]|].
  rewrite (free_object_spec t ty out m) by (done || apply map_union_subseteq_l). by rewrite union_remove.
Qed.

Lemma tagged_object_lifetime_witness :
  exists h' t, create_object (bump 10) {[16 := CStr "abc"]} TYPE_STRING 16 = Ok (h', t) /\
    t = 34 /\ print_object h' t = Ok (Some (PrintString "abc")) /\ free_object h' t = Ok {[16 := CStr "abc"]}.
Proof.
  destruct (tagged_object_lifetime (bump 10) {[16 := CStr "abc"]} TYPE_STRING 16 (PrintString "abc")) as (h' & t & Hc & Hres).
  - apply bump_laws. reflexivity.
  - apply reads_string; [discriminate|reflexivity].
  - exists h', t. split; [done|]. destruct Hres as [[-> ->]|(_ & _ & Hp & Hf)]; [vm_compute in Hc; discriminate|].
    split; [vm_compute in Hc; congruence|]. by split.
Defined.

(** A heap to which objects were added one after the other. *)
Inductive built (k : heap cell) : list (Z * ObjectType * output) -> heap cell -> Prop :=
| built_nil : built k [] k
| built_cons t ty out m objs h : object_at t ty out m -> m ##ₘ k -> built (m ∪ k) objs h -> built k ((t, ty, out) :: objs) h.

(** The objects are independent of what is below them. *)
Lemma built_base k objs h : built k objs h ->
  exists n, h = n ∪ k /\ n ##ₘ k /\ forall k', k' ⊆ k -> built k' objs (n ∪ k').
Proof.
  induction 1 as [k|k t ty out m objs h Hat Hd Hb (n & -> & Hn & IH)].
  - exists ∅. rewrite (left_id_L ∅ (∪)). split; [done|]. split; [apply map_disjoint_empty_l|]. intros k' _.
    rewrite (left_id_L ∅ (∪)). constructor.
  - apply map_disjoint_union_r in Hn as [Hnm Hnk]. exists (n ∪ m). rewrite <- (assoc_L (∪)). split; [done|].
    split; [by apply map_disjoint_union_l_2|]. intros k' Hk. rewrite <- (assoc_L (∪)).
    apply (built_cons _ _ _ _ m); [done|by eapply map_disjoint_weaken_r|]. apply IH. by apply map_union_mono_l.
Qed.

Lemma free_oldest k t ty out objs h : built k ((t, ty, out) :: objs) h ->
  print_object h t = Ok (Some out) /\ exists h', free_object h t = Ok h' /\ built k objs h'.
Proof.
  intros Hb. inversion Hb as [|? ? ? m ? ? Hat Hd Hb']; subst. apply built_base in Hb' as (n & -> & [Hn _]%map_disjoint_union_r & Hbase).
  assert (m ⊆ n ∪ (m ∪ k)) as Hs.
  { rewrite (assoc_L (∪)). apply map_union_subseteq_l'. by apply map_union_subseteq_r. }
  split; [by apply (print_object_spec t ty out m)|]. exists (n ∪ k). split.
  - rewrite (free_object_spec t ty out m) by done. by rewrite union_remove_under, union_remove.
  - apply Hbase. by apply map_union_subseteq_r.
Qed.

Lemma print_built k objs h t ty out : built k objs h -> (t, ty, out) ∈ objs -> print_object h t = Ok (Some out).
Proof.
  induction 1 as [k|k t' ty' out' m objs h Hat Hd Hb IH]; intros Hin; [by apply not_elem_of_nil in Hin|].
  apply elem_of_cons in Hin as [[= -> -> ->]|Hin]; [|by apply IH].
  apply (free_oldest k t' ty' out' objs). by econstructor.
Qed.

(** Later blocks do not disturb what is there. *)
Lemma create_object_extends (alloc : allocator cell) `{!MallocLaws alloc} h ty v out : reads h ty v out ->
  exists h' t, create_object alloc h ty v = Ok (h', t) /\ h ⊆ h' /\
    (t <> 0 -> exists m, object_at t ty out m /\ m ##ₘ h /\ h' = m ∪ h).
Proof.
  intros Hr. destruct (create_object_spec alloc h ty v out Hr) as (h' & t & Hc & Hres). exists h', t. split; [done|].
  destruct Hres as [[-> ->]|(m & Hat & Hd & ->)]; [by split|]. split; [by apply map_union_subseteq_r|]. by eauto.
Qed.

Lemma reads_weaken h h' ty v out : h ⊆ h' -> reads h ty v out -> reads h' ty v out.
Proof. intros Hs Hr. destruct Hr; constructor; try done; by eapply lookup_weaken. Qed.

(** The program prints the four values and ends with the memory it started
    with, unless an allocation fails; then it exits with status 1. *)
Lemma tagged_main_frees (alloc : allocator cell) `{!MallocLaws alloc} h iv fv sv z f s :
  reads h TYPE_INT iv (PrintInt z) -> reads h TYPE_FLOAT fv (PrintFloat f) -> reads h TYPE_STRING sv (PrintString s) ->
  exists st out h', tagged_main alloc h iv fv sv = Ok (st, out, h') /\ h ⊆ h' /\
    (st = 1 \/ (st = 0 /\ h' = h /\ exists cv, out = [Some (PrintInt z); Some (PrintFloat f); Some (PrintString s); Some (PrintCustom cv)])).
Proof.
  intros Hi Hf Hs. unfold tagged_main. destruct (alloc h) as [cv|] eqn:Ha; [|by eexists _, _, _; split; [done|]; split; [|left]].
  pose proof (malloc_fresh _ _ Ha) as Hfr. pose proof (malloc_range _ _ Ha) as Hrg. set (h0 := <[cv := CInt 100]> h).
  assert (h ⊆ h0) as S0 by by apply insert_subseteq.
  destruct (create_object_extends alloc h0 TYPE_INT iv (PrintInt z)) as (h1 & t1 & -> & S1 & R1); [by eapply reads_weaken|]. rewrite bind_ret_l.
  assert (h ⊆ h1) as S01 by (by transitivity h0).
  destruct (create_object_extends alloc h1 TYPE_FLOAT fv (PrintFloat f)) as (h2 & t2 & -> & S2 & R2); [by eapply reads_weaken|]. rewrite bind_ret_l.
  assert (h ⊆ h2) as S02 by (by transitivity h1).
  destruct (create_object_extends alloc h2 TYPE_STRING sv (PrintString s)) as (h3 & t3 & -> & S3 & R3);
    [by eapply reads_weaken|]. rewrite bind_ret_l.
  destruct (create_object_extends alloc h3 TYPE_CUSTOM cv (PrintCustom cv)) as (h4 & t4 & -> & S4 & R4); [constructor|]. rewrite bind_ret_l.
  assert (h0 ⊆ h4) as S by (etrans; [exact S1|etrans; [exact S2|by etrans]]).
  assert (h4 !! cv = Some (CInt 100)) as Hcv by (eapply lookup_weaken; [apply lookup_insert_eq|exact S]).
  case_cond.
  - rewrite (free_Ok _ _ (CInt 100)) by (lia || done). eexists _, _, _. split; [done|]. split; [|by left].
    apply map_subseteq_spec. intros a c Hc. rewrite lookup_delete_ne by congruence. eapply lookup_weaken; [exact Hc|by transitivity h0].
  - destruct R1 as (m1 & A1 & D1 & ->); [done|]. destruct R2 as (m2 & A2 & D2 & ->); [done|].
    destruct R3 as (m3 & A3 & D3 & ->); [done|]. destruct R4 as (m4 & A4 & D4 & ->); [done|].
    assert (built h0 [(t1, TYPE_INT, PrintInt z); (t2, TYPE_FLOAT, PrintFloat f); (t3, TYPE_STRING, PrintString s); (t4, TYPE_CUSTOM, PrintCustom cv)]
      (m4 ∪ (m3 ∪ (m2 ∪ (m1 ∪ h0))))) as Hb by (do 4 (eapply built_cons; [eassumption|eassumption|]); constructor).
    rewrite (print_built _ _ _ t1 TYPE_INT (PrintInt z) Hb), bind_ret_l by set_solver. rewrite (print_built _ _ _ t2 TYPE_FLOAT (PrintFloat f) Hb), bind_ret_l by set_solver.
    rewrite (print_built _ _ _ t3 TYPE_STRING (PrintString s) Hb), bind_ret_l by set_solver. rewrite (print_built _ _ _ t4 TYPE_CUSTOM (PrintCustom cv) Hb), bind_ret_l by set_solver.
    do 4 (apply free_oldest in Hb as (_ & ? & -> & Hb); rewrite bind_ret_l). inversion Hb; subst.
    unfold h0. rewrite free_fresh by (lia || done). eexists _, _, _. split; [done|]. split; [done|]. right. by eauto.
Qed.
End Tagged.

(** ** Unique pointers ([uniquePointer.c]) *)
Module Unique.

Record unique_ptr : Type := mkUnique { ptr : Z; deleter : heap Z -> Z -> res (heap Z); is_owned : bool }.

Definition unique_ptr_create (p : Z) (d : option (heap Z -> Z -> res (heap Z))) : unique_ptr :=
  mkUnique p (match d with Some d => d | None => free end) true.

Definition unique_ptr_destroy (h : heap Z) (up : unique_ptr) : res (heap Z * unique_ptr) :=
  if is_owned up then
    let up := mkUnique (ptr up) (deleter up) false in
    if negb (ptr up =? 0) then
      h ← deleter up h (ptr up);
      Ok (h, mkUnique 0 (deleter up) false)
    else Ok (h, up)
  else Ok (h, up).

Definition unique_ptr_get (up : unique_ptr) : Z := ptr up.

Definition unique_ptr_release (up : unique_ptr) : Z * unique_ptr :=
  let tmp := ptr up in
  if is_owned up then (tmp, mkUnique 0 (deleter up) false) else (0, up).

Definition unique_ptr_reset (h : heap Z) (up : unique_ptr) (p : Z) : res (heap Z * unique_ptr) :=
  if is_owned up then
    let old := ptr up in
    let up := mkUnique p (deleter up) (is_owned up) in
    if negb (old =? 0) then h ← deleter up h old; Ok (h, up) else Ok (h, up)
  else Ok (h, up).

(** The new pointer, and what is left of the old one. *)
Definition unique_ptr_move (up : unique_ptr) : unique_ptr * unique_ptr :=
  let new_up := up in
  if is_owned up then (new_up, mkUnique 0 (deleter up) false)
  else (mkUnique 0 (deleter new_up) false, up).

Definition custom_int_deleter (h : heap Z) (p : Z) : res (heap Z) :=
  _ ← load h p;
  free h p.

(** [main]; the result is what the pointers hold after the move, and the heap.
    A failed [malloc] is not checked: the store through it stops. *)
Definition unique_main (alloc : allocator Z) (h : heap Z) : res (Z * Z * heap Z) :=
  match alloc h with
  | None => Fault NullDeref
  | Some raw_ptr =>
      let h := <[raw_ptr := 42]> h in
      let up1 := unique_ptr_create raw_ptr (Some custom_int_deleter) in
      v1 ← load h (unique_ptr_get up1);
      let '(up2, up1) := unique_ptr_move up1 in
      v2 ← load h (unique_ptr_get up2);
      let g1 := unique_ptr_get up1 in
      '(h, up1) ← unique_ptr_destroy h up1;
      '(h, up2) ← unique_ptr_destroy h up2;
      Ok (g1, v2, h)
  end.

(** *** Clients

    A client has unique pointers and raw pointers to blocks it owns itself.  An
    operation on a pointer it does not have does nothing.  A raw pointer passed
    to [unique_ptr_create] or [unique_ptr_reset] is handed over; [lost] are those
    that [unique_ptr_reset] ignored. *)
Record client : Type := mkClient { hp : heap Z; ups : list unique_ptr; raws : list Z; lost : list Z }.

Inductive op : Type :=
| OMalloc (v : Z)
| OCreate (r : nat) (custom : bool)
| ODestroy (k : Z)
| ORelease (k : Z)
| OReset (k : Z) (r : option nat)
| OMove (k : Z).

Definition run_op (alloc : allocator Z) (s : client) (o : op) : res client :=
  match o with
  | OMalloc v =>
      match alloc (hp s) with
      | None => Ok s
      | Some a => Ok (mkClient (<[a := v]> (hp s)) (ups s) (a :: raws s) (lost s))
      end
  | OCreate r custom =>
      match raws s !! r with
      | None => Ok s
      | Some a =>
          Ok (mkClient (hp s) (ups s ++ [unique_ptr_create a (if custom then Some custom_int_deleter else None)]) (delete r (raws s)) (lost s))
      end
  | ODestroy k =>
      match zget (ups s) k with
      | None => Ok s
      | Some up =>
          '(h, up) ← unique_ptr_destroy (hp s) up;
          Ok (mkClient h (zset (ups s) k up) (raws s) (lost s))
      end
  | ORelease k =>
      match zget (ups s) k with
      | None => Ok s
      | Some up =>
          let '(p, up) := unique_ptr_release up in
          Ok (mkClient (hp s) (zset (ups s) k up) (if p =? 0 then raws s else p :: raws s) (lost s))
      end
  | OReset k r =>
      match zget (ups s) k, (match r with None => Some 0 | Some r => raws s !! r end) with
      | Some up, Some p =>
          let raws' := match r with None => raws s | Some r => delete r (raws s) end in
          let lost' := if is_owned up || (p =? 0) then lost s else p :: lost s in
          '(h, up) ← unique_ptr_reset (hp s) up p;
          Ok (mkClient h (zset (ups s) k up) raws' lost')
      | _, _ => Ok s
      end
  | OMove k =>
      match zget (ups s) k with
      | None => Ok s
      | Some up =>
          let '(new_up, up) := unique_ptr_move up in
          Ok (mkClient (hp s) (zset (ups s) k up ++ [new_up]) (raws s) (lost s))
      end
  end.

Fixpoint run (alloc : allocator Z) (s : client) (ops : list op) : res client :=
  match ops with
  | [] => Ok s
  | o :: ops => s ← run_op alloc s o; run alloc s ops
  end.

Definition empty_client : client := mkClient ∅ [] [] [].

(** *** Ownership *)

Definition owned (up : unique_ptr) : list Z := if ptr up =? 0 then [] else [ptr up].

(** The pointers to the blocks that a unique pointer or the client owns. *)
Definition owners (s : client) : list Z := (ups s ≫= owned) ++ raws s.

(** Those, and the pointers to the blocks that nobody owns any more. *)
Definition claims (s : client) : list Z := (ups s ≫= owned) ++ raws s ++ lost s.

Definition up_ok (up : unique_ptr) : Prop :=
  (is_owned up = false -> ptr up = 0) /\ (deleter up = free \/ deleter up = custom_int_deleter).

Record client_ok (s : client) : Prop := {
  o_ups : Forall up_ok (ups s);
  o_nodup : NoDup (claims s);
  o_live a : a ∈ claims s <-> is_Some (hp s !! a);
  o_null : hp s !! 0 = None
}.

Lemma deleter_frees up h a v : up_ok up -> a <> 0 -> h !! a = Some v -> deleter up h a = Ok (delete a h).
Proof.
  intros [_ [->| ->]] Ha Hv; [by eapply free_Ok|]. unfold custom_int_deleter. erewrite load_Ok, bind_ret_l by done. by eapply free_Ok.
Qed.

(** The pointers apart from one pointer variable. *)
Lemma owners_split l k up : zget l k = Some up ->
  exists rest, l ≫= owned ≡ₚ owned up ++ rest /\ forall up', zset l k up' ≫= owned ≡ₚ owned up' ++ rest.
Proof.
  unfold zget, zset. case_cond; [|done]. intros (l1 & l2 & -> & Hl)%list_elem_of_split_length.
  exists ((l1 ≫= owned) ++ (l2 ≫= owned)). split.
  - rewrite bind_app. simpl. rewrite !(assoc_L (++)). apply Permutation_app_tail, Permutation_app_comm.
  - intros up'. rewrite Hl, insert_app_r_alt, Nat.sub_diag by lia. rewrite bind_app. simpl. rewrite !(assoc_L (++)).
    apply Permutation_app_tail, Permutation_app_comm.
Qed.

Lemma ok_perm s s' : client_ok s -> Forall up_ok (ups s') -> hp s' = hp s -> claims s' ≡ₚ claims s -> client_ok s'.
Proof. intros [] Hup Hh Hp. split; [done|by rewrite Hp| |by rewrite Hh]. intros a. by rewrite Hh, Hp. Qed.

Lemma ok_delete s s' a : client_ok s -> Forall up_ok (ups s') -> hp s' = delete a (hp s) -> claims s ≡ₚ a :: claims s' -> client_ok s'.
Proof.
  intros [_ Hnd Hl Hn] Hup Hh Hp. rewrite Hp in Hnd. apply list.NoDup_cons in Hnd as [Ha Hnd]. split; [done|done| |].
  - intros b. rewrite Hh. destruct (decide (b = a)) as [->|Hne].
    + rewrite lookup_delete_eq. split; [done|]. intros [? [=]].
    + rewrite lookup_delete_ne, <- Hl, Hp, list.elem_of_cons by done. naive_solver.
  - rewrite Hh. by apply lookup_delete_None; right.
Qed.

(** What [unique_ptr_reset] and [unique_ptr_destroy] do with the old block. *)
Lemma owned_live s k up : client_ok s -> zget (ups s) k = Some up -> ptr up <> 0 -> exists v, hp s !! ptr up = Some v.
Proof.
  intros [] Hk H0. apply o_live0. unfold claims. apply elem_of_app. left. apply list_elem_of_bind. exists up.
  unfold owned. destruct (Z.eqb_spec (ptr up) 0); [done|]. split; [set_solver|]. apply elem_of_zget. by exists k.
Qed.

Lemma owners_update s k up : zget (ups s) k = Some up -> exists rest, claims s ≡ₚ owned up ++ rest ++ raws s ++ lost s /\
  forall h up' rs ls, claims (mkClient h (zset (ups s) k up') rs ls) ≡ₚ owned up' ++ rest ++ rs ++ ls.
Proof.
  intros (rest & H1 & H2)%owners_split. exists rest. unfold claims. simpl. split; [by rewrite H1, <- (assoc_L (++))|].
  intros h up' rs ls. by rewrite H2, <- (assoc_L (++)).
Qed.

Lemma owned_null up : ptr up = 0 -> owned up = [].
Proof. unfold owned. by intros ->. Qed.

Lemma owned_ptr up : ptr up <> 0 -> owned up = [ptr up].
Proof. unfold owned. intros H. by destruct (Z.eqb_spec (ptr up) 0). Qed.

(** A variable is given another block, after its own was freed. *)
Lemma ok_replace s k up p rs ls :
  client_ok s -> zget (ups s) k = Some up -> raws s ++ lost s ≡ₚ (if p =? 0 then [] else [p]) ++ rs ++ ls ->
  forall b, (b = false -> p = 0) -> let up' := mkUnique p (deleter up) b in
  exists h, (if negb (ptr up =? 0) then deleter up (hp s) (ptr up) else Ok (hp s)) = Ok h /\
    client_ok (mkClient h (zset (ups s) k up') rs ls).
Proof.
  intros Hok Hk Hp b Hb up'. pose proof (Forall_zget _ _ _ _ (o_ups _ Hok) Hk) as Hup.
  destruct (owners_update s k up Hk) as (rest & H1 & H2). rewrite Hp in H1.
  assert (claims (mkClient (hp s) (zset (ups s) k up') rs ls) ≡ₚ rest ++ (if p =? 0 then [] else [p]) ++ rs ++ ls) as H3.
  { rewrite H2. change (owned up') with (if p =? 0 then [] else [p]). solve_Permutation. }
  assert (Forall up_ok (zset (ups s) k up')) as Hups by (apply Forall_zset; [by apply Hok|]; split; [done|apply Hup]).
  destruct (Z.eqb_spec (ptr up) 0) as [E|E]; simpl.
  - exists (hp s). split; [done|]. apply (ok_perm s); [done..|]. by rewrite H3, H1, owned_null.
  - destruct (owned_live s k up Hok Hk E) as [v Hv]. exists (delete (ptr up) (hp s)). split; [by eapply deleter_frees|].
    apply (ok_delete s _ (ptr up)); [done..|]. rewrite H1, owned_ptr by done. simpl. constructor.
    change (claims (mkClient (delete (ptr up) (hp s)) (zset (ups s) k up') rs ls)) with (claims (mkClient (hp s) (zset (ups s) k up') rs ls)).
    by rewrite H3.
Qed.

Lemma client_malloc_ok (alloc : allocator Z) `{!MallocLaws alloc} s a v : client_ok s -> alloc (hp s) = Some a ->
  client_ok (mkClient (<[a := v]> (hp s)) (ups s) (a :: raws s) (lost s)).
Proof.
  intros [] Ha. pose proof (malloc_fresh _ _ Ha) as Hf. pose proof (malloc_range _ _ Ha).
  assert (claims (mkClient (<[a := v]> (hp s)) (ups s) (a :: raws s) (lost s)) ≡ₚ a :: claims s) as Hp by (unfold claims; simpl; solve_Permutation).
  split; [done| | |simpl; rewrite lookup_insert_ne by lia; done].
  - rewrite Hp. apply list.NoDup_cons. split; [|done]. rewrite o_live0, Hf. by intros [? [=]].
  - intros b. simpl. rewrite Hp, list.elem_of_cons, o_live0. destruct (decide (b = a)) as [->|].
    + rewrite lookup_insert_eq. split; [by eauto|by left].
    + rewrite lookup_insert_ne by done. split; [by intros [|]|by right].
Qed.

Lemma raw_nonnull s r a : client_ok s -> raws s !! r = Some a -> a <> 0 /\ raws s ≡ₚ a :: delete r (raws s).
Proof.
  intros Hok Hr. pose proof (delete_Permutation _ _ _ Hr) as Hp. split; [|done]. intros ->.
  assert (is_Some (hp s !! 0)) as [? Hx]; [|by rewrite (o_null _ Hok) in Hx].
  apply (o_live _ Hok). unfold claims. apply list_elem_of_lookup_2 in Hr. set_solver.
Qed.

Lemma owners_snoc h l up rs ls : claims (mkClient h (l ++ [up]) rs ls) ≡ₚ owned up ++ claims (mkClient h l rs ls).
Proof. unfold claims. simpl. rewrite bind_app. simpl. solve_Permutation. Qed.

Lemma reset_op_ok s k up p rs ls : client_ok s -> zget (ups s) k = Some up ->
  raws s ++ lost s ≡ₚ (if p =? 0 then [] else [p]) ++ rs ++ ls ->
  exists s', ('(h, up') ← unique_ptr_reset (hp s) up p;
    Ok (mkClient h (zset (ups s) k up') rs (if is_owned up || (p =? 0) then ls else p :: ls))) = Ok s' /\ client_ok s'.
Proof.
  intros Hok Hk Hp. pose proof (Forall_zget _ _ _ _ (o_ups _ Hok) Hk) as Hup. pose proof Hup as [Hnull Hd]. unfold unique_ptr_reset.
  destruct (is_owned up) eqn:Ho; simpl.
  - destruct (ok_replace s k up p rs ls Hok Hk Hp true ltac:(done)) as (h & Hh & Hok'). eexists. split; [|exact Hok'].
    destruct (negb (ptr up =? 0)); [by rewrite Hh|]. by injection Hh as ->.
  - eexists. split; [done|]. destruct (owners_update s k up Hk) as (rest & H1 & H2). apply (ok_perm s); [done| |done|].
    + apply Forall_zset; [by apply Hok|]. done.
    + rewrite H2, H1, Hp. destruct (p =? 0); simpl; solve_Permutation.
Qed.

Lemma run_op_ok (alloc : allocator Z) `{!MallocLaws alloc} s o : client_ok s -> exists s', run_op alloc s o = Ok s' /\ client_ok s'.
Proof.
  intros Hok. destruct o as [v|r custom|k|k|k r|k]; simpl.
  - destruct (alloc (hp s)) as [a|] eqn:Ha; [|by eauto]. eexists. split; [done|]. by apply (client_malloc_ok alloc).
  - destruct (raws s !! r) as [a|] eqn:Hr; [|by eauto]. eexists. split; [done|]. destruct (raw_nonnull s r a Hok Hr) as [Ha Hp].
    apply (ok_perm s); [done| |done|].
    + simpl. apply Forall_app. split; [by apply Hok|]. constructor; [|done]. split; [done|]. destruct custom; simpl; by auto.
    + generalize dependent (delete r (raws s)). intros rs Hp. rewrite owners_snoc. unfold claims. simpl. rewrite Hp, owned_ptr by done.
      simpl. solve_Permutation.
  - destruct (zget (ups s) k) as [up|] eqn:Hk; [|by eauto]. pose proof (Forall_zget _ _ _ _ (o_ups _ Hok) Hk) as Hup. pose proof Hup as [Hnull Hd].
    destruct (ok_replace s k up 0 (raws s) (lost s) Hok Hk ltac:(done) false ltac:(done)) as (h & Hh & Hok').
    eexists. split; [|exact Hok']. unfold unique_ptr_destroy. destruct (is_owned up) eqn:Ho; simpl.
    + destruct (Z.eqb_spec (ptr up) 0) as [E|E]; simpl in *; [|by rewrite Hh]. injection Hh as ->. by rewrite E.
    + rewrite Hnull in Hh by done. simpl in Hh. injection Hh as ->. destruct up as [q d b]. simpl in *. by rewrite Ho, (Hnull eq_refl).
  - destruct (zget (ups s) k) as [up|] eqn:Hk; [|by eauto]. pose proof (Forall_zget _ _ _ _ (o_ups _ Hok) Hk) as Hup. pose proof Hup as [Hnull Hd].
    destruct (owners_update s k up Hk) as (rest & H1 & H2). unfold unique_ptr_release. destruct (is_owned up) eqn:Ho; simpl.
    + eexists. split; [done|]. apply (ok_perm s); [done|by apply Forall_zset; [apply Hok|]|done|]. rewrite H2, H1. simpl. unfold owned.
      destruct (ptr up =? 0); simpl; [done|]. solve_Permutation.
    + eexists. split; [done|]. apply (ok_perm s); [done|by apply Forall_zset; [apply Hok|]|done|]. by rewrite H2, H1.
  - destruct (zget (ups s) k) as [up|] eqn:Hk; [|by eauto]. destruct r as [r|].
    + destruct (raws s !! r) as [p|] eqn:Hr; [|by eauto]. destruct (raw_nonnull s r p Hok Hr) as [Ha Hp].
      destruct (reset_op_ok s k up p (delete r (raws s)) (lost s) Hok Hk) as (s' & Hs & ?); [|by exists s'].
      generalize dependent (delete r (raws s)). intros rs Hp. rewrite Hp. destruct (Z.eqb_spec p 0); [done|]. done.
    + destruct (reset_op_ok s k up 0 (raws s) (lost s) Hok Hk) as (s' & Hs & ?); [done|by exists s'].
  - destruct (zget (ups s) k) as [up|] eqn:Hk; [|by eauto]. pose proof (Forall_zget _ _ _ _ (o_ups _ Hok) Hk) as Hup. pose proof Hup as [Hnull Hd].
    destruct (owners_update s k up Hk) as (rest & H1 & H2). unfold unique_ptr_move. destruct (is_owned up) eqn:Ho.
    + eexists. split; [done|]. apply (ok_perm s); [done| |done|by rewrite owners_snoc, H2, H1].
      simpl. apply Forall_app. split; [apply Forall_zset; [apply Hok|by split]|]. by apply list.Forall_singleton.
    + eexists. split; [done|]. apply (ok_perm s); [done| |done|by rewrite owners_snoc, H2, H1].
      simpl. apply Forall_app. split; [by apply Forall_zset; [apply Hok|]|]. apply list.Forall_singleton. by split.
Qed.

Lemma empty_client_ok : client_ok empty_client.
Proof.
  split; [constructor|constructor| |done]. intros a. unfold claims. simpl. split; [by intros ?%not_elem_of_nil|].
  rewrite lookup_empty. by intros [? [=]].
Qed.

Definition hands_over (o : op) : bool := match o with OReset _ (Some _) => true | _ => false end.

Lemma run_op_lost alloc s o s' : hands_over o = false -> run_op alloc s o = Ok s' -> lost s' = lost s.
Proof.
  destruct o as [v|r custom|k|k|k [r|]|k]; simpl; intros Hh Hr; try done; repeat case_match; simplify_eq/=; try done.
  all: apply bind_Ok in Hr as ([h up] & _ & Hr); injection Hr as <-; simpl; try done.
  match goal with H : (_ || _)%bool = false |- _ => by rewrite orb_true_r in H end.
Qed.

Lemma claims_owners s : claims s = owners s ++ lost s.
Proof. unfold claims, owners. by rewrite (assoc_L (++)). Qed.

(** C21.  Whatever a client does with unique pointers, no operation frees a block twice or
    touches a freed one, and a pointer variable that does not own a block is null.  No
    block has two owners (unique pointers, or the client that has a raw pointer), and a
    block in memory has an owner unless it was lost: handed to [unique_ptr_reset] of a
    pointer that had been released, moved or destroyed, and then nobody owns it.  If no
    raw pointer is handed to [unique_ptr_reset], every block in memory has exactly one
    owner. *)
Theorem unique_ptr_single_owner (alloc : allocator Z) ops :
  MallocLaws alloc ->
  exists s, run alloc empty_client ops = Ok s /\
    NoDup (owners s) /\ (forall a, a ∈ owners s -> is_Some (hp s !! a)) /\
    (forall a, is_Some (hp s !! a) -> a ∈ owners s \/ a ∈ lost s) /\
    (forall a, a ∈ lost s -> a ∉ owners s) /\
    Forall (fun up => is_owned up = false -> unique_ptr_get up = 0) (ups s) /\
    (forallb (fun o => negb (hands_over o)) ops = true -> lost s = []).
Proof.
  intros Hal. assert (forall s, client_ok s -> exists s', run alloc s ops = Ok s' /\ client_ok s' /\
    (forallb (fun o => negb (hands_over o)) ops = true -> lost s' = lost s)) as H.
  { induction ops as [|o ops IH]; intros s Hok; simpl; [by eauto|]. destruct (run_op_ok alloc s o Hok) as (s1 & Hs & Hok1).
    rewrite Hs, bind_ret_l. destruct (IH s1 Hok1) as (s' & Hr & Hok' & Hl). exists s'. split; [done|]. split; [done|].
    intros [Ho ?]%andb_true_iff. rewrite Hl by done. eapply run_op_lost; [|done]. by apply negb_true_iff. }
  destruct (H empty_client empty_client_ok) as (s & Hr & [Hu Hn Hlive _] & Hl). exists s. rewrite claims_owners in Hn, Hlive.
  apply list.NoDup_app in Hn as (Hn & Hd & _). split; [done|]. split; [done|]. split; [intros a Ha; apply Hlive, elem_of_app; by left|].
  split; [intros a Ha; by apply elem_of_app, Hlive|]. split; [intros a Ha Hb; by apply (Hd a)|].
  split; [|done]. eapply list.Forall_impl; [exact Hu|]. by intros ? [].
Qed.

Lemma unique_ptr_single_owner_witness :
  (exists s, run (bump 10) empty_client [OMalloc 7; OCreate 0 true; OMove 0; ODestroy 1; ODestroy 0] = Ok s /\ hp s = ∅) /\
  (exists s, run (bump 10) empty_client [OMalloc 1; OMalloc 2; OCreate 0 false; OMove 0] = Ok s /\ owners s = [32; 16] /\ lost s = []).
Proof.
  split.
  - destruct (unique_ptr_single_owner (bump 10) [OMalloc 7; OCreate 0 true; OMove 0; ODestroy 1; ODestroy 0]) as (s & Hs & _).
    + apply bump_laws. reflexivity.
    + exists s. split; [done|]. vm_compute in Hs. injection Hs as <-. reflexivity.
  - destruct (unique_ptr_single_owner (bump 10) [OMalloc 1; OMalloc 2; OCreate 0 false; OMove 0]) as (s & Hs & _ & _ & _ & _ & _ & Hl).
    + apply bump_laws. reflexivity.
    + exists s. split; [done|]. split; [|by apply Hl]. vm_compute in Hs. injection Hs as <-. reflexivity.
Defined.

Lemma unique_main_frees (alloc : allocator Z) `{!MallocLaws alloc} h a : alloc h = Some a -> unique_main alloc h = Ok (0, 42, h).
Proof.
  intros Ha. pose proof (malloc_fresh _ _ Ha) as Hf. pose proof (malloc_range _ _ Ha). unfold unique_main. rewrite Ha.
  cbn [unique_ptr_create unique_ptr_get unique_ptr_move ptr is_owned deleter]. rewrite !load_insert, !bind_ret_l by lia.
  unfold unique_ptr_destroy. cbn [unique_ptr_create is_owned ptr deleter]. rewrite bind_ret_l.
  destruct (Z.eqb_spec a 0); [lia|]. cbn [negb]. unfold custom_int_deleter. rewrite load_insert, bind_ret_l by lia.
  by rewrite free_fresh by (lia || done).
Qed.

(** A pointer that was released does not take another block. *)
Lemma reset_loses_block :
  exists s, run (bump 10) empty_client [OMalloc 1; OMalloc 2; OCreate 0 false; ORelease 0; OReset 0 (Some 0%nat)] = Ok s /\ lost s = [32].
Proof. eexists. split; vm_compute; reflexivity. Qed.
End Unique.

(** ** Shared pointers ([smartPointer.c]) *)
Module Shared.

(** The blocks of a [shared_ptr_int]. *)
Inductive cell : Type :=
| CControl (data ref_count : Z)
| CCount (n : Z)
| CData (v : Z).

(** [mutex_ok] is whether [pthread_mutex_init] succeeds. *)
Definition create_shared (alloc : allocator cell) (mutex_ok : bool) (h : heap cell) (value : Z) : res (heap cell * Z) :=
  match alloc h with
  | None => Ok (h, 0)
  | Some ptr =>
      let h := <[ptr := CControl 0 0]> h in
      match alloc h with
      | None => h ← free h ptr; Ok (h, 0)
      | Some data =>
          h ← store (<[data := CData 0]> h) ptr (CControl data 0);
          h ← store h data (CData value);
          match alloc h with
          | None => h ← free h data; h ← free h ptr; Ok (h, 0)
          | Some ref_count =>
              h ← store (<[ref_count := CCount 0]> h) ptr (CControl data ref_count);
              h ← store h ref_count (CCount 1);
              if negb mutex_ok then
                h ← free h ref_count; h ← free h data; h ← free h ptr; Ok (h, 0)
              else Ok (h, ptr)
          end
      end
  end.

(** *** Threads sharing one pointer *)

(** Where a thread is: outside, or after a statement of
    [shared_ptr_inc_ref] or [shared_ptr_dec_ref]. *)
Inductive pc : Type :=
| Out
| IncLocked
| IncAdded
| DecLocked
| DecMore
| DecLast
| DecUnlocked
| DecDeleted
| DecCountFreed
| DecMutexDestroyed.
#[export] Instance pc_eq_dec : EqDecision pc.
Proof. solve_decision. Defined.

(** Each thread has a number of references of its own.  The flags tell which of
    the blocks are allocated and whether the mutex exists; [deletes] counts the
    calls of the deleter. *)
Record shared : Type := mkShared {
  ref_count : Z;
  locked : bool;
  control_live : bool;
  data_live : bool;
  count_live : bool;
  mutex_live : bool;
  deletes : Z;
  threads : list (Z * pc)
}.

Inductive action : Type :=
| Inc
| Dec
| Get
| Give (to : Z)
| Run.

Definition set_thread (s : shared) (i : Z) (t : Z * pc) : shared :=
  mkShared (ref_count s) (locked s) (control_live s) (data_live s) (count_live s) (mutex_live s) (deletes s) (zset (threads s) i t).
Definition set_count (s : shared) (n : Z) : shared :=
  mkShared n (locked s) (control_live s) (data_live s) (count_live s) (mutex_live s) (deletes s) (threads s).
Definition set_locked (s : shared) (b : bool) : shared :=
  mkShared (ref_count s) b (control_live s) (data_live s) (count_live s) (mutex_live s) (deletes s) (threads s).

(** [ptr && ptr->ref_count], then [pthread_mutex_lock]. *)
Definition enter (s : shared) (i k : Z) (p : pc) : option (res shared) :=
  if negb (control_live s && mutex_live s) then Some (Fault BadAddress)
  else if locked s then None
  else Some (Ok (set_thread (set_locked s true) i (k, p))).

Definition touch (live : bool) (s : shared) : option (res shared) :=
  if live then Some (Ok s) else Some (Fault BadAddress).

(** One statement of [shared_ptr_inc_ref] or [shared_ptr_dec_ref] in thread
    [i], which has [k] references.  A count of [2^64] references does not
    occur. *)
Definition continue (s : shared) (i k : Z) (p : pc) : option (res shared) :=
  match p with
  | Out => None
  | IncLocked =>
      if UINT64 <=? ref_count s + 1 then None
      else touch (control_live s && count_live s) (set_thread (set_count s (u64 (ref_count s + 1))) i (k, IncAdded))
  | IncAdded => touch (control_live s && mutex_live s) (set_thread (set_locked s false) i (k + 1, Out))
  | DecLocked =>
      touch (control_live s && count_live s)
        (set_thread (set_count s (u64 (ref_count s - 1))) i (k - 1, if ref_count s =? 1 then DecLast else DecMore))
  | DecMore => touch (control_live s && mutex_live s) (set_thread (set_locked s false) i (k, Out))
  | DecLast => touch (control_live s && mutex_live s) (set_thread (set_locked s false) i (k, DecUnlocked))
  | DecUnlocked =>
      touch (control_live s && data_live s)
        (mkShared (ref_count s) (locked s) (control_live s) false (count_live s) (mutex_live s) (deletes s + 1) (zset (threads s) i (k, DecDeleted)))
  | DecDeleted =>
      touch (control_live s && count_live s)
        (mkShared (ref_count s) (locked s) (control_live s) (data_live s) false (mutex_live s) (deletes s) (zset (threads s) i (k, DecCountFreed)))
  | DecCountFreed =>
      touch (control_live s && mutex_live s && negb (locked s))
        (mkShared (ref_count s) (locked s) (control_live s) (data_live s) (count_live s) false (deletes s) (zset (threads s) i (k, DecMutexDestroyed)))
  | DecMutexDestroyed =>
      touch (control_live s)
        (mkShared (ref_count s) (locked s) false (data_live s) (count_live s) (mutex_live s) (deletes s) (zset (threads s) i (k, Out)))
  end.

(** What thread [i] may do: use, copy, drop or hand over a reference it has, or
    go on with the operation it is in.  [None] is what it cannot do now. *)
Definition act (s : shared) (i : Z) (a : action) : option (res shared) :=
  match zget (threads s) i with
  | None => None
  | Some (k, p) =>
      match a with
      | Run => continue s i k p
      | _ =>
          if negb (bool_decide (p = Out)) || (k <=? 0) then None
          else match a with
          | Inc => enter s i k IncLocked
          | Dec => enter s i k DecLocked
          | Get => touch (control_live s && data_live s) s
          | Give j =>
              match zget (threads s) j with
              | Some (k', p') => if j =? i then None else Some (Ok (set_thread (set_thread s i (k - 1, p)) j (k' + 1, p')))
              | None => None
              end
          | Run => None
          end
      end
  end.

(** The creating thread has the first reference, [n] others have none yet. *)
Definition start (n : nat) : shared := mkShared 1 false true true true true 0 ((1, Out) :: replicate n (0, Out)).

Inductive reach (n : nat) : shared -> Prop :=
| reach_start : reach n (start n)
| reach_act s i a s' : reach n s -> act s i a = Some (Ok s') -> reach n s'.

Definition held (s : shared) : Z := total fst (threads s).

Fixpoint run_acts (s : shared) (i : Z) (l : list action) : option (res shared) :=
  match l with
  | [] => Some (Ok s)
  | a :: l => match act s i a with Some (Ok s') => run_acts s' i l | r => r end
  end.

(** [main] with its first pointer: two references, dropped one after the
    other. *)
Definition main_acts : list action :=
  [Get; Inc; Run; Run; Dec; Run; Run; Dec; Run; Run; Run; Run; Run; Run].

(** *** Creation *)

(** [create_shared] returns [NULL] and leaves no block behind, or a control block
    with the value and a count of one. *)
Lemma create_shared_spec (alloc : allocator cell) `{!MallocLaws alloc} ok h v :
  exists h' p, create_shared alloc ok h v = Ok (h', p) /\
    ((p = 0 /\ h' = h) \/
     (p <> 0 /\ ok = true /\ exists d c, NoDup [p; d; c] /\ h !! p = None /\ h !! d = None /\ h !! c = None /\
        h' = <[p := CControl d c]> (<[d := CData v]> (<[c := CCount 1]> h)))).
Proof.
  assert (forall b : heap cell, forall a c, a <> 0 -> b !! a = Some c -> free b a = Ok (delete a b)) as Hfree by (intros; by eapply free_Ok).
  unfold create_shared. destruct (alloc h) as [p|] eqn:Hp; [|eexists _, _; split; [done|by left]].
  pose proof (malloc_fresh _ _ Hp) as Fp. pose proof (malloc_range _ _ Hp).
  destruct (alloc (<[p := CControl 0 0]> h)) as [d|] eqn:Hd; [|rewrite free_fresh by (lia || done); eexists _, _; split; [done|by left]].
  pose proof (malloc_fresh _ _ Hd) as [Fd Npd]%lookup_insert_None. pose proof (malloc_range _ _ Hd).
  erewrite store_Ok, bind_ret_l by (lia || by simplify_map_eq). erewrite store_Ok, bind_ret_l by (lia || by simplify_map_eq).
  set (h2 := <[d := CData v]> _). assert (forall i, i <> p -> i <> d -> h2 !! i = h !! i) as H2 by (intros; unfold h2; by simplify_map_eq).
  assert (h2 !! p = Some (CControl d 0)) as Hp2 by (unfold h2; by simplify_map_eq).
  assert (h2 !! d = Some (CData v)) as Hd2 by (unfold h2; by simplify_map_eq). clearbody h2.
  destruct (alloc h2) as [c|] eqn:Hc.
  - pose proof (malloc_fresh _ _ Hc) as Fc. pose proof (malloc_range _ _ Hc).
    assert (c <> p) by (intros ->; congruence). assert (c <> d) by (intros ->; congruence).
    erewrite store_Ok, bind_ret_l by (lia || by simplify_map_eq). erewrite store_Ok, bind_ret_l by (lia || by simplify_map_eq).
    destruct ok; simpl negb; cbv iota.
    + eexists _, _. split; [done|]. right. split; [lia|]. split; [done|]. exists d, c. rewrite H2 in Fc by done.
      split; [repeat constructor; set_solver|]. do 3 (split; [done|]). apply map_eq. intros i.
      destruct (decide (i = p)), (decide (i = d)), (decide (i = c)); subst; simplify_map_eq; try done. by apply H2.
    + erewrite Hfree, bind_ret_l by (lia || by simplify_map_eq). erewrite Hfree, bind_ret_l by (lia || by simplify_map_eq).
      erewrite Hfree, bind_ret_l by (lia || by simplify_map_eq). eexists _, _. split; [done|]. left. split; [done|]. apply map_eq. intros i.
      destruct (decide (i = p)), (decide (i = d)), (decide (i = c)); subst; simplify_map_eq; try done; [|by apply H2].
      by rewrite <- H2.
  - erewrite Hfree, bind_ret_l by (lia || by simplify_map_eq). erewrite Hfree, bind_ret_l by (lia || by simplify_map_eq).
    eexists _, _. split; [done|]. left. split; [done|]. apply map_eq. intros i.
    destruct (decide (i = p)), (decide (i = d)); subst; simplify_map_eq; try done. by apply H2.
Qed.

(** *** Safety *)

Definition alive (s : shared) : Prop :=
  control_live s = true /\ data_live s = true /\ count_live s = true /\ mutex_live s = true /\ deletes s = 0.

(** The one thread inside an operation has [k] references. *)
Definition busy_ok (s : shared) (k : Z) (p : pc) : Prop :=
  match p with
  | Out => False
  | IncLocked | DecLocked => locked s = true /\ alive s /\ ref_count s = held s /\ 1 <= k
  | IncAdded => locked s = true /\ alive s /\ ref_count s = held s + 1 /\ 1 <= k
  | DecMore => locked s = true /\ alive s /\ ref_count s = held s /\ 1 <= held s
  | DecLast => locked s = true /\ alive s /\ held s = 0
  | DecUnlocked => locked s = false /\ alive s /\ held s = 0
  | DecDeleted => locked s = false /\ control_live s = true /\ data_live s = false /\ count_live s = true /\ mutex_live s = true /\
      deletes s = 1 /\ held s = 0
  | DecCountFreed => locked s = false /\ control_live s = true /\ data_live s = false /\ count_live s = false /\ mutex_live s = true /\
      deletes s = 1 /\ held s = 0
  | DecMutexDestroyed => locked s = false /\ control_live s = true /\ data_live s = false /\ count_live s = false /\ mutex_live s = false /\
      deletes s = 1 /\ held s = 0
  end.

(** The threads other than [i] are outside. *)
Definition others_out (s : shared) (i : Z) : Prop := forall j t, j <> i -> zget (threads s) j = Some t -> 0 <= t.1 /\ t.2 = Out.

Inductive phase (s : shared) : Prop :=
| phase_idle : others_out s (-1) -> locked s = false -> alive s -> ref_count s = held s -> 1 <= held s -> phase s
| phase_busy i k p : zget (threads s) i = Some (k, p) -> 0 <= k -> others_out s i -> busy_ok s k p -> phase s
| phase_dead : others_out s (-1) -> locked s = false -> control_live s = false -> data_live s = false -> count_live s = false ->
    mutex_live s = false -> deletes s = 1 -> held s = 0 -> phase s.

Definition shared_inv (s : shared) : Prop := phase s /\ 0 <= ref_count s < UINT64.

Lemma held_member s i k p : (forall j t, zget (threads s) j = Some t -> 0 <= t.1) -> zget (threads s) i = Some (k, p) -> k <= held s.
Proof.
  intros Hn Hi. apply (total_member fst (threads s) i (k, p)); [|done]. apply list.Forall_forall. intros t [j Hj]%elem_of_zget. by apply (Hn j).
Qed.

Lemma held_set s i k p t : zget (threads s) i = Some (k, p) -> held (set_thread s i t) = held s - k + t.1.
Proof. intros Hi. unfold held. simpl. by rewrite (total_zset fst _ _ _ _ Hi). Qed.

Lemma others_set s i t : others_out s i -> others_out (set_thread s i t) i.
Proof. intros H j u Hj. simpl. rewrite zget_zset_ne by done. by apply H. Qed.

Lemma others_all s i t : others_out s i -> 0 <= t.1 -> t.2 = Out -> others_out (set_thread s i t) (-1).
Proof. intros H H1 H2 j u _ [[-> ->]|[Hj Hu]]%zget_zset_inv; [done|]. by apply (H j). Qed.

Lemma others_nonneg s i k p : others_out s i -> zget (threads s) i = Some (k, p) -> 0 <= k -> forall j t, zget (threads s) j = Some t -> 0 <= t.1.
Proof. intros H Hi Hk j t Hj. destruct (decide (j = i)) as [->|]; [|by eapply H]. rewrite Hi in Hj. by injection Hj as <-. Qed.

(** Handing over a reference changes nothing but who has it. *)
Lemma give_inv s i k p j k' p' : shared_inv s -> zget (threads s) i = Some (k, p) -> p = Out -> 0 < k -> zget (threads s) j = Some (k', p') -> j <> i ->
  shared_inv (set_thread (set_thread s i (k - 1, p)) j (k' + 1, p')).
Proof.
  intros [Hph Hr] Hi -> Hk Hj Hne. set (s' := set_thread _ _ _). split; [|done].
  assert (held s' = held s) as Hh.
  { unfold s'. rewrite (held_set _ j k' p'), (held_set _ i k Out) by (done || by simpl; rewrite zget_zset_ne). simpl. lia. }
  assert (forall b, others_out s b -> others_out s' b) as Ho.
  { intros b H m t Hm [[-> ->]|[Hmj [[-> ->]|[Hmi Ht]]%zget_zset_inv]]%zget_zset_inv; simpl; [|split; [lia|done]|by apply (H m)].
    destruct (H j _ Hm Hj) as [? Hp']. simpl in *. split; [lia|done]. }
  destruct Hph as [H1 H2 H3 H4 H5|b kb pb H1 H2 H3 H4|H1 H2 H3 H4 H5 H6 H7 H8].
  - apply phase_idle; [by apply Ho|done..| |]; by rewrite Hh.
  - assert (b <> i) as Hbi by (intros ->; rewrite Hi in H1; by injection H1 as <- <-).
    destruct (decide (b = j)) as [->|Hbj].
    + rewrite Hj in H1. injection H1 as <- <-. apply (phase_busy _ j (k' + 1) p'); [|lia|by apply Ho|].
      * simpl. apply zget_zset_eq. pose proof (zget_Some_range _ _ _ Hj). by rewrite length_zset.
      * destruct p'; try done; simpl busy_ok; rewrite Hh; change (alive s') with (alive s); simpl in H4; intuition lia.
    + apply (phase_busy _ b kb pb); [|done|by apply Ho|].
      * simpl. by rewrite !zget_zset_ne.
      * destruct pb; try done; simpl busy_ok; by rewrite Hh.
  - apply phase_dead; [by apply Ho|done..|]. by rewrite Hh.
Qed.

(** A step of the thread inside the operation. *)
Definition good (m : option (res shared)) : Prop :=
  match m with Some (Ok s') => shared_inv s' | Some (Fault _) => False | None => True end.

Lemma touch_good live s : live = true -> shared_inv s -> good (touch live s).
Proof. by intros -> H. Qed.

Lemma move_busy s s' i k p t : zget (threads s) i = Some (k, p) -> others_out s i -> threads s' = zset (threads s) i t -> 0 <= t.1 ->
  busy_ok s' t.1 t.2 -> 0 <= ref_count s' < UINT64 -> shared_inv s'.
Proof.
  intros Hi Ho Ht Hk Hb Hr. split; [|done]. destruct t as [k' p']. apply (phase_busy _ i k' p'); [|done| |done].
  - rewrite Ht. apply zget_zset_eq. by eapply zget_Some_range.
  - intros j u Hj. rewrite Ht, zget_zset_ne by done. by apply Ho.
Qed.

Lemma held_update s s' i k p t : zget (threads s) i = Some (k, p) -> threads s' = zset (threads s) i t -> held s' = held s - k + t.1.
Proof. intros Hi Ht. unfold held. by rewrite Ht, (total_zset fst _ _ _ _ Hi). Qed.

Lemma continue_good s i k p : zget (threads s) i = Some (k, p) -> 0 <= k -> others_out s i -> busy_ok s k p -> 0 <= ref_count s < UINT64 ->
  good (continue s i k p).
Proof.
  intros Hi Hk Ho Hb Hr. pose proof (held_member s i k p (others_nonneg s i k p Ho Hi Hk) Hi) as Hkh.
  destruct p; simpl in Hb; [done|..]; unfold continue, alive in Hb |- *; destruct_and?; try (destruct (Z.leb_spec UINT64 (ref_count s + 1)); [done|]);
    (apply touch_good; [by (repeat match goal with H : _ = _ |- _ => rewrite H end)|]); rewrite ?u64_id by lia.
  all: try (eapply move_busy; [done|done|done|simpl; lia| |simpl; lia]; simpl; unfold alive; simpl;
    erewrite (held_update s _ i k _) by done; simpl; repeat split; (done || lia)).
  - split; [|done]. apply phase_idle; [by apply others_all; simpl; [|lia|]|done|done|..]; erewrite (held_update s _ i k _) by done; simpl; lia.
  - eapply move_busy; [done|done|done|simpl; lia| |simpl; lia]. destruct (Z.eqb_spec (ref_count s) 1); simpl; unfold alive; simpl;
      erewrite (held_update s _ i k _) by done; simpl; repeat split; (done || lia).
  - split; [|done]. apply phase_idle; [by apply others_all|done|done|..]; erewrite (held_update s _ i k _) by done; simpl; lia.
  - split; [|done]. apply phase_dead; try done; [by apply (others_all s i)|]. erewrite (held_update s _ i k _) by done. simpl. lia.
Qed.

(** A thread outside that has a reference finds everything allocated. *)
Lemma entitled s i k : shared_inv s -> zget (threads s) i = Some (k, Out) -> 0 < k ->
  alive s /\ (locked s = false -> others_out s (-1) /\ ref_count s = held s).
Proof.
  intros [[Ho Hl Ha Hrc H1|b kb pb Hb Hkb Ho Hok|Ho Hl _ _ _ _ _ H0] Hr] Hi Hk; [done| |].
  - pose proof (held_member s i k Out (others_nonneg s b kb pb Ho Hb Hkb) Hi). destruct pb; simpl in Hok; destruct_and?; (done || lia || (split; [done|congruence])).
  - assert (k <= held s); [|lia]. apply (held_member s i k Out); [|done]. intros j t Hj. pose proof (zget_Some_range _ _ _ Hj). by apply (Ho j); [lia|].
Qed.

Lemma act_good s i a : shared_inv s -> good (act s i a).
Proof.
  intros Hinv. unfold act. destruct (zget (threads s) i) as [[k p]|] eqn:Hi; [|done].
  assert (good (continue s i k p)) as Hrun.
  { destruct Hinv as [[Ho _ _ _ _|b kb pb Hb Hk Ho Hok|Ho] Hr];
      [pose proof (zget_Some_range _ _ _ Hi); by destruct (Ho i _ ltac:(lia) Hi) as [_ [= ->]]| |
       pose proof (zget_Some_range _ _ _ Hi); by destruct (Ho i _ ltac:(lia) Hi) as [_ [= ->]]].
    destruct (decide (i = b)) as [->|Hne]; [|by destruct (Ho i _ Hne Hi) as [_ [= ->]]].
    rewrite Hi in Hb. injection Hb as <- <-. by apply continue_good. }
  assert (forall p', p' = IncLocked \/ p' = DecLocked -> p = Out -> 0 < k -> good (enter s i k p')) as Henter.
  { intros p' Hp' -> Hk. destruct (entitled s i k Hinv Hi Hk) as [Hal Hfree]. unfold enter. pose proof Hal as (-> & _ & _ & -> & _). simpl.
    destruct (locked s) eqn:Hl; [done|]. destruct (Hfree eq_refl) as [Ho Hrc]. simpl.
    eapply (move_busy s); [done| |done|simpl; lia| |by apply Hinv].
    - intros j t _ Hj. pose proof (zget_Some_range _ _ _ Hj). by apply (Ho j); [lia|].
    - destruct Hp' as [-> | ->]; simpl; erewrite (held_update s _ i k Out) by done; simpl; repeat split; try apply Hal; lia. }
  destruct a as [| | |j|]; [..|done]; (destruct (decide (p = Out)) as [->|Hp]; [|by rewrite (bool_decide_eq_false_2 (p = Out))]);
    simpl; (destruct (Z.leb_spec k 0); [done|]).
  - by apply Henter; [left|..].
  - by apply Henter; [right|..].
  - destruct (entitled s i k Hinv Hi) as [(-> & -> & _) _]; done.
  - destruct (zget (threads s) j) as [[k' p']|] eqn:Hj; [|done]. destruct (Z.eqb_spec j i); [done|]. simpl. by apply give_inv.
Qed.

Lemma shared_start_inv n : shared_inv (start n).
Proof.
  assert (total fst (replicate n (0, Out)) = 0) as Ht by (induction n; simpl; lia).
  split; [|simpl; unfold UINT64; lia]. apply phase_idle; [|done|done|..].
  - intros j t _. simpl. rewrite zget_cons. case_cond; [by intros [= <-]|]. by intros ->%zget_replicate.
  - unfold held. simpl. rewrite Ht. lia.
  - unfold held. simpl. rewrite Ht. lia.
Qed.

Lemma reach_inv n s : reach n s -> shared_inv s.
Proof. induction 1 as [|s i a s' _ IH Ha]; [apply shared_start_inv|]. pose proof (act_good s i a IH) as Hg. by rewrite Ha in Hg. Qed.

Lemma run_acts_reach n s i l s' : reach n s -> run_acts s i l = Some (Ok s') -> reach n s'.
Proof.
  revert s. induction l as [|a l IH]; intros s Hs; simpl; [by intros [= <-]|].
  destruct (act s i a) as [[s1|f]|] eqn:Ha; [|done|done]. apply IH. by eapply reach_act.
Qed.

Lemma phase_cases s : shared_inv s ->
  0 <= deletes s <= 1 /\ (1 <= held s -> alive s) /\
  (Forall (fun t => t.2 = Out) (threads s) -> held s = 0 ->
     deletes s = 1 /\ control_live s = false /\ data_live s = false /\ count_live s = false /\ mutex_live s = false).
Proof.
  intros [[Ho Hl Ha Hrc H1|b kb pb Hb Hkb Ho Hok|Ho Hl ? ? ? ? Hd H0] _].
  - destruct Ha as (? & ? & ? & ? & Hd). rewrite Hd. split; [lia|]. split; [done|]. lia.
  - split; [|split].
    + destruct pb; simpl in Hok; unfold alive in *; destruct_and?; (done || lia).
    + intros H1. destruct pb; simpl in Hok; destruct_and?; (done || lia).
    + intros Hall _. pose proof (Forall_zget _ _ _ _ Hall Hb) as E. simpl in E. by subst pb.
  - split; [lia|]. split; [lia|]. done.
Qed.

(** C8.  Threads that share a pointer and only use, copy, drop or hand over
    references they have never touch a block that was freed, in any
    interleaving; the deleter is called at most once and not while a reference
    is left; and when the last reference is dropped and the threads are done,
    the deleter was called and every block was freed. *)
Theorem shared_ptr_safe n s : reach n s ->
  (forall i a f, act s i a <> Some (Fault f)) /\
  0 <= deletes s <= 1 /\ (1 <= held s -> data_live s = true /\ deletes s = 0) /\
  (Forall (fun t => t.2 = Out) (threads s) -> held s = 0 ->
     deletes s = 1 /\ control_live s = false /\ data_live s = false /\ count_live s = false /\ mutex_live s = false).
Proof.
  intros Hinv%reach_inv. split.
  - intros i a f E. pose proof (act_good s i a Hinv) as Hg. by rewrite E in Hg.
  - destruct (phase_cases s Hinv) as (H1 & H2 & H3). split; [done|]. split; [|done]. intros H. by destruct (H2 H) as (_ & ? & _ & _ & ?).
Qed.

Lemma shared_ptr_safe_witness : exists s, run_acts (start 1) 0 [Inc; Run; Run; Give 1; Dec; Run] = Some (Ok s) /\ 0 <= deletes s <= 1.
Proof.
  eexists. split; [vm_compute; reflexivity|]. apply (shared_ptr_safe 1).
  apply (run_acts_reach 1 (start 1) 0 [Inc; Run; Run; Give 1; Dec; Run]); [apply reach_start|vm_compute; reflexivity].
Defined.

(** [main] ends with everything freed. *)
Lemma smart_main_frees : exists s, run_acts (start 0) 0 main_acts = Some (Ok s) /\
  deletes s = 1 /\ control_live s = false /\ data_live s = false /\ count_live s = false.
Proof. eexists. split; [vm_compute; reflexivity|]. done. Qed.
End Shared.
