(* ===== verification/Prefetch.v ===== *)
(** * Prefetching ([accessPatterns])

    [prefetching.c]: a cache over an array that prefetches along a stride.
    [stridePrefetcher.c]: a table of strides indexed by a hash of the address.
    [softwarePrefetching.c]: traversals of arrays, lists and trees with prefetch
    instructions, which do not change what is computed. *)
From Stdlib Require Import ZArith Lia Sorted.
From stdpp Require Import base tactics list numbers option gmap.
From S2P Require Import Prelude CHeap.

#[local] Open Scope Z_scope.
#[local] Open Scope c_scope.

(** ** Cache with stride prefetching ([prefetching.c]) *)
Module StrideCache.

Definition ARRAY_SIZE : Z := 10000.
Definition CACHE_SIZE : Z := 100.
Definition PREFETCH_DISTANCE : Z := 10.

Record Cache : Type := mkCache { data : list Z; tags : list Z; lru : list Z }.

(** The globals; [ticks] counts the calls of [time]. *)
Record state : Type := mkState {
  cache : Cache;
  main_memory : list Z;
  prefetch_stride : Z;
  last_address : Z;
  ticks : nat
}.

Definition with_cache (s : state) (c : Cache) : state := mkState c (main_memory s) (prefetch_stride s) (last_address s) (ticks s).

(** [rnd i] is the [i]-th random number. *)
Definition init_memory (rnd : Z -> Z) (mem : list Z) : res (list Z) :=
  for_range (Z.to_nat ARRAY_SIZE) 0 (fun i mem => v ← imod (rnd i) 1000; mem.[i <- v]) mem.

Definition init_cache (c : Cache) : res Cache :=
  for_range (Z.to_nat CACHE_SIZE) 0 (fun i c =>
    t ← (tags c).[i <- -1];
    l ← (lru c).[i <- 0];
    Ok (mkCache (data c) t l)) c.

Definition find_in_cache (s : state) (address : Z) : res Z :=
  r ← for_ctl (Z.to_nat CACHE_SIZE) 0 (fun i (_ : unit) =>
        t ← (tags (cache s)).[i];
        if t =? address then Ok (Return i) else Ok (Next tt)) tt;
  match r with Return i => Ok i | Next _ => Ok (-1) end.

Definition find_lru (s : state) : res Z :=
  for_range (Z.to_nat (CACHE_SIZE - 1)) 1 (fun i lru_index =>
    a ← (lru (cache s)).[i];
    b ← (lru (cache s)).[lru_index];
    Ok (if a <? b then i else lru_index)) 0.

Section clock.
(** What [time(NULL)] converts to, at each call. *)
Context (time : nat -> Z).

Definition update_lru (s : state) (index : Z) : res state :=
  l ← (lru (cache s)).[index <- time (ticks s)];
  Ok (mkState (mkCache (data (cache s)) (tags (cache s)) l) (main_memory s) (prefetch_stride s) (last_address s) (S (ticks s))).

Definition bring_to_cache (s : state) (address : Z) : res state :=
  index ← find_lru s;
  v ← (main_memory s).[address];
  d ← (data (cache s)).[index <- v];
  t ← (tags (cache s)).[index <- address];
  update_lru (with_cache s (mkCache d t (lru (cache s)))) index.

Definition prefetch (s : state) (address : Z) : res state :=
  prefetch_address ← iadd address (prefetch_stride s);
  if prefetch_address <? ARRAY_SIZE then
    i ← find_in_cache s prefetch_address;
    if i =? -1 then bring_to_cache s prefetch_address else Ok s
  else Ok s.

Definition access_memory (s : state) (address : Z) : res (Z * state) :=
  cache_index ← find_in_cache s address;
  if negb (cache_index =? -1) then
    s ← update_lru s cache_index;
    v ← (data (cache s)).[cache_index];
    Ok (v, s)
  else
    s ← bring_to_cache s address;
    s ← (if negb (last_address s =? -1) then
           new_stride ← isub address (last_address s);
           if new_stride =? prefetch_stride s then
             for_range (Z.to_nat PREFETCH_DISTANCE) 1 (fun i s =>
               d ← imul i (prefetch_stride s);
               a ← iadd address d;
               prefetch s a) s
           else Ok (mkState (cache s) (main_memory s) new_stride (last_address s) (ticks s))
         else Ok s);
    v ← (main_memory s).[address];
    Ok (v, mkState (cache s) (main_memory s) (prefetch_stride s) address (ticks s)).

(** The accesses of a program, with the values they return. *)
Fixpoint access_all (s : state) (l : list Z) : res (list Z * state) :=
  match l with
  | [] => Ok ([], s)
  | a :: l =>
      '(v, s) ← access_memory s a;
      '(vs, s) ← access_all s l;
      Ok (v :: vs, s)
  end.

(** The globals start out as zeros. *)
Definition boot (rnd : Z -> Z) : res state :=
  let z := replicate (Z.to_nat CACHE_SIZE) 0 in
  mem ← init_memory rnd (replicate (Z.to_nat ARRAY_SIZE) 0);
  c ← init_cache (mkCache z z z);
  Ok (mkState c mem 0 (-1) 0).

Definition prefetching_main (rnd : Z -> Z) : res (list Z * state) :=
  s ← boot rnd;
  access_all s ((fun k => 2 * k) <$> seqZ 0 25).
End clock.

(** *** Transparency *)

(** The lines in use hold what is in memory; the stride is that of a stream that
    goes up. *)
Record coherent (s : state) : Prop := {
  h_data : len (data (cache s)) = CACHE_SIZE;
  h_tags : len (tags (cache s)) = CACHE_SIZE;
  h_lru : len (lru (cache s)) = CACHE_SIZE;
  h_mem : len (main_memory s) = ARRAY_SIZE;
  h_lines i t : zget (tags (cache s)) i = Some t -> t <> -1 -> 0 <= t < ARRAY_SIZE /\ zget (data (cache s)) i = zget (main_memory s) t;
  h_stride : 0 <= prefetch_stride s <= ARRAY_SIZE;
  h_last : -1 <= last_address s < ARRAY_SIZE
}.

Lemma find_in_cache_spec s a : len (tags (cache s)) = CACHE_SIZE ->
  exists i, find_in_cache s a = Ok i /\ (zget (tags (cache s)) i = Some a \/ i = -1).
Proof.
  intros Hlen. unfold find_in_cache.
  destruct (for_ctl_inv (fun _ (_ : unit) => True) (fun i => zget (tags (cache s)) i = Some a) (Z.to_nat CACHE_SIZE) 0
    (fun i (_ : unit) => t ← (tags (cache s)).[i]; if t =? a then Ok (Return i) else Ok (Next tt)) tt) as (c & -> & Hc); [done| |].
  - intros j [] Hj _. destruct (zget_range (tags (cache s)) j) as [t Ht]; [rewrite Hlen; unfold CACHE_SIZE in *; lia|].
    erewrite arr_read_Ok, bind_ret_l by done. destruct (Z.eqb_spec t a) as [->|]; by eexists.
  - rewrite bind_ret_l. destruct c as [|i]; eexists; (split; [done|]); by auto.
Qed.

Lemma find_lru_spec s : len (lru (cache s)) = CACHE_SIZE -> exists i, find_lru s = Ok i /\ 0 <= i < CACHE_SIZE.
Proof.
  intros Hlen. unfold find_lru. destruct (for_range_inv (fun _ k => 0 <= k < CACHE_SIZE) (Z.to_nat (CACHE_SIZE - 1)) 1
    (fun i k => a ← (lru (cache s)).[i]; b ← (lru (cache s)).[k]; Ok (if a <? b then i else k)) 0) as (r & Hr & Hb).
  - unfold CACHE_SIZE. lia.
  - intros j k Hj Hk. destruct (zget_range (lru (cache s)) j) as [x Hx]; [rewrite Hlen; unfold CACHE_SIZE in *; lia|].
    destruct (zget_range (lru (cache s)) k) as [y Hy]; [lia|]. rewrite (arr_read_Ok _ _ _ Hx), bind_ret_l.
    rewrite (arr_read_Ok _ _ _ Hy), bind_ret_l. eexists. split; [done|]. case_match; unfold CACHE_SIZE in *; lia.
  - by exists r.
Qed.

Section transparency.
Context (time : nat -> Z).

Lemma update_lru_ok s i : coherent s -> 0 <= i < CACHE_SIZE ->
  exists s', update_lru time s i = Ok s' /\ coherent s' /\ main_memory s' = main_memory s /\
    prefetch_stride s' = prefetch_stride s /\ last_address s' = last_address s /\ data (cache s') = data (cache s).
Proof.
  intros [] Hi. unfold update_lru. rewrite arr_write_Ok, bind_ret_l by lia. eexists. split; [done|]. split; [|done].
  constructor; simpl; rewrite ?length_zset; done.
Qed.

Lemma bring_to_cache_ok s a : coherent s -> 0 <= a < ARRAY_SIZE ->
  exists s', bring_to_cache time s a = Ok s' /\ coherent s' /\ main_memory s' = main_memory s /\
    prefetch_stride s' = prefetch_stride s /\ last_address s' = last_address s.
Proof.
  intros Hc Ha. pose proof Hc as []. unfold bring_to_cache. destruct (find_lru_spec s h_lru0) as (i & -> & Hi). rewrite bind_ret_l.
  destruct (zget_range (main_memory s) a) as [v Hv]; [lia|]. erewrite arr_read_Ok, bind_ret_l by done.
  rewrite (arr_write_Ok (data _)), bind_ret_l, (arr_write_Ok (tags _)), bind_ret_l by lia.
  set (s1 := with_cache s _). assert (coherent s1) as Hs1.
  { constructor; simpl; rewrite ?length_zset; try done. intros k t Ht Hne.
    apply zget_zset_inv in Ht as [[-> ->]|[Hki Ht]]; [rewrite zget_zset_eq by lia; by split|].
    rewrite zget_zset_ne by done. by apply h_lines0. }
  destruct (update_lru_ok s1 i Hs1 Hi) as (s' & -> & Hs' & ? & ? & ? & _). by exists s'.
Qed.

Lemma prefetch_ok s a : coherent s -> 0 <= a <= 200000 ->
  exists s', prefetch time s a = Ok s' /\ coherent s' /\ main_memory s' = main_memory s /\
    prefetch_stride s' = prefetch_stride s /\ last_address s' = last_address s.
Proof.
  intros Hc Ha. pose proof Hc as []. unfold prefetch. rewrite iadd_Ok, bind_ret_l by (unfold INT_MIN, INT_MAX, ARRAY_SIZE in *; lia).
  case_cond; [|by exists s]. destruct (find_in_cache_spec s (a + prefetch_stride s) h_tags0) as (i & -> & _). rewrite bind_ret_l.
  case_cond; [|by exists s]. apply bring_to_cache_ok; [done|lia].
Qed.

Lemma access_memory_ok s a v : coherent s -> last_address s <= a -> zget (main_memory s) a = Some v ->
  exists s', access_memory time s a = Ok (v, s') /\ coherent s' /\ last_address s' <= a /\ main_memory s' = main_memory s.
Proof.
  intros Hc Hl Hv. pose proof Hc as []. pose proof (zget_Some_range _ _ _ Hv) as Ha. unfold access_memory.
  destruct (find_in_cache_spec s a h_tags0) as (i & -> & Hi). rewrite bind_ret_l. case_cond.
  - destruct Hi as [Hi| ->]; [|done]. pose proof (zget_Some_range _ _ _ Hi) as Hri. destruct (h_lines0 i a Hi) as [_ Hd]; [lia|].
    destruct (update_lru_ok s i Hc) as (s' & -> & Hs' & Hm & _ & Hla & Hda); [lia|]. rewrite bind_ret_l.
    erewrite arr_read_Ok, bind_ret_l by (rewrite Hda, Hd; exact Hv). exists s'. split; [done|]. split; [done|]. split; [lia|done].
  - destruct (bring_to_cache_ok s a Hc) as (s1 & -> & Hs1 & Hm1 & Hst1 & Hla1); [lia|]. rewrite bind_ret_l.
    assert (exists s2, (if negb (last_address s1 =? -1) then
        new_stride ← isub a (last_address s1);
        if new_stride =? prefetch_stride s1 then
          for_range (Z.to_nat PREFETCH_DISTANCE) 1 (fun i s => d ← imul i (prefetch_stride s); x ← iadd a d; prefetch time s x) s1
        else Ok (mkState (cache s1) (main_memory s1) new_stride (last_address s1) (ticks s1))
      else Ok s1) = Ok s2 /\ coherent s2 /\ main_memory s2 = main_memory s) as (s2 & -> & Hs2 & Hm2).
    { case_cond; [|by exists s1]. pose proof Hs1 as []. rewrite isub_Ok, bind_ret_l by (unfold INT_MIN, INT_MAX, ARRAY_SIZE in *; lia).
      case_cond; [|eexists; split; [done|]; split; [|done]; constructor; simpl; (done || lia)].
      destruct (for_range_inv (fun _ s' => coherent s' /\ main_memory s' = main_memory s) (Z.to_nat PREFETCH_DISTANCE) 1
        (fun i s => d ← imul i (prefetch_stride s); x ← iadd a d; prefetch time s x) s1) as (s2 & ? & ? & ?); [done| |by exists s2].
      intros j t Hj [Ht Hmt]. pose proof Ht as []. unfold PREFETCH_DISTANCE, ARRAY_SIZE in *.
      rewrite imul_Ok, bind_ret_l by (unfold INT_MIN, INT_MAX; nia). rewrite iadd_Ok, bind_ret_l by (unfold INT_MIN, INT_MAX; nia).
      destruct (prefetch_ok t (a + j * prefetch_stride t) Ht) as (t' & ? & ? & Hmt' & _); [nia|]. exists t'. by rewrite Hmt'. }
    rewrite bind_ret_l. erewrite arr_read_Ok, bind_ret_l by (rewrite Hm2; exact Hv). eexists. split; [done|]. split; [|simpl; by split; [lia|]].
    destruct Hs2. constructor; simpl; (done || lia).
Qed.

Lemma access_all_ok s l : coherent s -> Forall (fun a => 0 <= a < ARRAY_SIZE) l -> StronglySorted Z.le l -> Forall (Z.le (last_address s)) l ->
  exists vs s', access_all time s l = Ok (vs, s') /\ coherent s' /\ Forall2 (fun a v => zget (main_memory s) a = Some v) l vs.
Proof.
  revert s. induction l as [|a l IH]; intros s Hc Hr Hs Hl; simpl.
  - eexists _, _. split; [done|]. split; [done|constructor].
  - apply Forall_cons in Hr as [Ha Hr]. apply Forall_cons in Hl as [Hla Hl]. inversion Hs as [|? ? Hs' Hle]; subst.
    destruct (zget_range (main_memory s) a) as [v Hv]; [rewrite (h_mem _ Hc); lia|].
    destruct (access_memory_ok s a v Hc Hla Hv) as (s1 & -> & Hc1 & Hl1 & Hm1). rewrite bind_ret_l.
    destruct (IH s1 Hc1 Hr Hs') as (vs & s' & -> & Hc' & Hvs); [eapply list.Forall_impl; [exact Hle|simpl; lia]|]. rewrite bind_ret_l.
    eexists _, _. split; [done|]. split; [done|]. constructor; [done|]. by rewrite Hm1 in Hvs.
Qed.
End transparency.

Lemma stride_memory_ok rnd : (forall i, 0 <= rnd i <= INT_MAX) ->
  exists mem, init_memory rnd (replicate (Z.to_nat ARRAY_SIZE) 0) = Ok mem /\ len mem = ARRAY_SIZE.
Proof.
  intros Hr. unfold init_memory. destruct (for_range_inv (fun _ mem => len mem = ARRAY_SIZE) (Z.to_nat ARRAY_SIZE) 0
    (fun i mem => v ← imod (rnd i) 1000; mem.[i <- v]) (replicate (Z.to_nat ARRAY_SIZE) 0)) as (mem & Hm & Hl); [| |by exists mem].
  - rewrite length_replicate. unfold ARRAY_SIZE. lia.
  - intros j t Hj Ht. rewrite imod_Ok, bind_ret_l by (done || apply Hr). rewrite arr_write_Ok by (unfold ARRAY_SIZE in *; lia).
    eexists. split; [done|]. by rewrite length_zset.
Qed.

Lemma init_cache_ok : let z := replicate (Z.to_nat CACHE_SIZE) 0 in
  exists c, init_cache (mkCache z z z) = Ok c /\ len (data c) = CACHE_SIZE /\ len (tags c) = CACHE_SIZE /\ len (lru c) = CACHE_SIZE /\
    forall i t, zget (tags c) i = Some t -> t = -1.
Proof.
  assert (exists c, init_cache (mkCache (replicate 100 0) (replicate 100 0) (replicate 100 0)) = Ok c /\
    c = mkCache (replicate 100 0) (replicate 100 (-1)) (replicate 100 0)) as (c & Hc & ->) by (eexists; split; vm_compute; reflexivity).
  eexists. split; [exact Hc|]. do 3 (split; [done|]). intros i t Ht. by apply zget_replicate in Ht.
Qed.

Lemma boot_ok rnd : (forall i, 0 <= rnd i <= INT_MAX) -> exists s, boot rnd = Ok s /\ coherent s /\ last_address s = -1.
Proof.
  intros Hr. unfold boot. destruct (stride_memory_ok rnd Hr) as (mem & -> & Hm). rewrite bind_ret_l.
  destruct init_cache_ok as (c & -> & H1 & H2 & H3 & H4). rewrite bind_ret_l. eexists. split; [done|]. split; [|done].
  constructor; simpl; try done. intros i t Ht%H4 Hne. congruence.
Qed.

(** The cache is transparent: whatever the clock, accesses that go upwards
    through the array, as those of [main], never leave the bounds of an array
    and return what is in memory, hit or miss, prefetched or not. *)
Theorem prefetch_cache_transparent (time : nat -> Z) rnd l :
  (forall i, 0 <= rnd i <= INT_MAX) -> Forall (fun a => 0 <= a < ARRAY_SIZE) l -> StronglySorted Z.le l ->
  exists s0 vs s, boot rnd = Ok s0 /\ access_all time s0 l = Ok (vs, s) /\
    Forall2 (fun a v => zget (main_memory s0) a = Some v) l vs.
Proof.
  intros Hr Hl Hs. destruct (boot_ok rnd Hr) as (s0 & H0 & Hc & Hla).
  destruct (access_all_ok time s0 l Hc Hl Hs) as (vs & s & ? & _ & ?).
  - eapply list.Forall_impl; [exact Hl|]. simpl. rewrite Hla. lia.
  - by exists s0, vs, s.
Qed.

Lemma prefetch_cache_transparent_witness :
  exists s0 vs s, boot (fun _ => 3) = Ok s0 /\ access_all (fun _ => 5) s0 [0; 2; 4; 9999] = Ok (vs, s).
Proof.
  destruct (prefetch_cache_transparent (fun _ => 5) (fun _ => 3) [0; 2; 4; 9999]) as (s0 & vs & s & H1 & H2 & _).
  - unfold INT_MAX. lia.
  - repeat constructor; done.
  - repeat constructor; done.
  - exists s0, vs, s. exact (conj H1 H2).
Defined.

(** Downwards, the stride is negative and the prefetch reads before the array. *)
Lemma descending_out_of_bounds :
  let z := replicate 100 0 in
  access_all (fun _ => 0) (mkState (mkCache z (replicate 100 (-1)) z) (replicate (Z.to_nat ARRAY_SIZE) 0) 0 (-1) 0) [4; 2; 0] = Fault OutOfBounds.
Proof. vm_compute. reflexivity. Qed.
End StrideCache.

(** ** Stride table ([stridePrefetcher.c]) *)
Module StrideTable.

Definition TABLE_SIZE : Z := 16.
Definition CONFIDENCE_THRESHOLD : Z := 3.
Definition MAX_PREFETCH_DISTANCE : Z := 4.

Inductive entry_state : Type := INITIAL | STEADY | NO_PREDICTION.

Record PrefetchEntry : Type := mkEntry {
  base_address : Z;
  stride : Z;
  prev_address : Z;
  confidence : Z;
  state : entry_state
}.

Definition INT64_MAX : Z := 9223372036854775807.

(** Conversion to [intptr_t], and multiplication in it. *)
Definition s64 (z : Z) : Z := let w := u64 z in if w <=? INT64_MAX then w else w - UINT64.
Definition lmul (a b : Z) : res Z :=
  if (- INT64_MAX - 1 <=? a * b) && (a * b <=? INT64_MAX) then Ok (a * b) else Fault IntOverflow.

Definition hash_address (address : Z) : Z := Z.land (Z.shiftr address 6) (TABLE_SIZE - 1).

Definition update_prefetch_entry (t : list PrefetchEntry) (address : Z) : res (list PrefetchEntry) :=
  let index := hash_address address in
  e ← t.[index];
  if base_address e =? 0 then t.[index <- mkEntry address (stride e) address (confidence e) INITIAL]
  else
    let current_stride := s64 (address - prev_address e) in
    if current_stride =? stride e then
      c ← iadd (confidence e) 1;
      t.[index <- mkEntry (base_address e) (stride e) address c (if CONFIDENCE_THRESHOLD <=? c then STEADY else state e)]
    else t.[index <- mkEntry (base_address e) current_stride address 1 INITIAL].

(** The addresses passed to [issue_prefetch]. *)
Definition handle_memory_access (t : list PrefetchEntry) (address : Z) : res (list Z * list PrefetchEntry) :=
  t ← update_prefetch_entry t address;
  e ← t.[hash_address address];
  match state e with
  | STEADY =>
      l ← for_range (Z.to_nat MAX_PREFETCH_DISTANCE) 1 (fun i l =>
            d ← lmul (stride e) i;
            Ok (l ++ [u64 (address + d)])) [];
      Ok (l, t)
  | _ => Ok ([], t)
  end.

Fixpoint handle_all (t : list PrefetchEntry) (l : list Z) : res (list (list Z) * list PrefetchEntry) :=
  match l with
  | [] => Ok ([], t)
  | a :: l =>
      '(p, t) ← handle_memory_access t a;
      '(ps, t) ← handle_all t l;
      Ok (p :: ps, t)
  end.

Definition prefetch_table : list PrefetchEntry := replicate (Z.to_nat TABLE_SIZE) (mkEntry 0 0 0 0 INITIAL).

Definition stride_main : res (list (list Z) * list PrefetchEntry) :=
  handle_all prefetch_table ((fun i => 4096 + i * 64) <$> seqZ 0 20).

(** [main] goes through the table entry by entry and never comes to a
    prefetch. *)
Lemma stride_main_no_prefetch : exists t, stride_main = Ok (replicate 20 [], t).
Proof. eexists. vm_compute. reflexivity. Qed.

(** A stream whose stride keeps it on one entry. *)
Section stream.
Context (base s n : Z).
Context (Hbase : 0 < base) (Hs : s mod 1024 = 0) (Hs0 : s <> 0) (H4 : - INT64_MAX <= 4 * s <= INT64_MAX).
Context (Hn : 0 <= n < INT_MAX) (Hrange : forall k, 0 <= k <= n + 4 -> 0 < base + k * s < UINT64).

Definition addr (k : Z) : Z := base + k * s.

Lemma s64_stride : s64 s = s.
Proof.
  unfold s64, u64, INT64_MAX, UINT64 in *. destruct (Z.lt_ge_cases s 0).
  - replace (s mod 18446744073709551616) with (s + 18446744073709551616) by dlia. case_cond; lia.
  - rewrite Z.mod_small by lia. case_cond; lia.
Qed.

Lemma hash_stream k : hash_address (addr k) = hash_address base.
Proof.
  unfold hash_address, addr. change (TABLE_SIZE - 1) with (Z.ones 4). rewrite !Z.land_ones, !Z.shiftr_div_pow2 by lia.
  change (2 ^ 6) with 64. change (2 ^ 4) with 16. assert (exists q, s = 1024 * q) as [q ->] by (exists (s / 1024); dlia).
  replace (base + k * (1024 * q)) with (base + (k * q * 16) * 64) by ring. rewrite Z.div_add by lia. by rewrite Z_mod_plus_full.
Qed.

Lemma hash_range : 0 <= hash_address base < TABLE_SIZE.
Proof.
  unfold hash_address. change (TABLE_SIZE - 1) with (Z.ones 4). rewrite Z.land_ones by lia. change (2 ^ 4) with TABLE_SIZE.
  apply Z.mod_pos_bound. done.
Qed.

Lemma predict k i : 0 <= k < n -> 1 <= i <= 4 -> lmul s i = Ok (s * i) /\ u64 (addr k + s * i) = addr (k + i).
Proof.
  intros Hk Hi. unfold lmul. destruct ((_ <=? _) && _) eqn:E.
  - split; [done|]. replace (addr k + s * i) with (addr (k + i)) by (unfold addr; ring). apply u64_id. specialize (Hrange (k + i)). unfold addr. lia.
  - apply andb_false_iff in E. rewrite !Z.leb_gt in E. unfold INT64_MAX in *. nia.
Qed.

(** The entry of the stream after [k] accesses. *)
Definition entry_after (k : Z) (e : PrefetchEntry) : Prop :=
  if k =? 0 then base_address e = 0 /\ stride e = 0
  else base_address e = base /\ prev_address e = addr (k - 1) /\ (k = 1 -> stride e = 0 /\ state e = INITIAL) /\
    (2 <= k -> stride e = s /\ confidence e = k - 1 /\ state e = if k <? 4 then INITIAL else STEADY).

Definition predicted (k : Z) : list Z := if k <? 3 then [] else [addr (k + 1); addr (k + 2); addr (k + 3); addr (k + 4)].

Lemma stream_step t k e : len t = TABLE_SIZE -> 0 <= k < n -> zget t (hash_address base) = Some e -> entry_after k e ->
  exists t' e', handle_memory_access t (addr k) = Ok (predicted k, t') /\ len t' = TABLE_SIZE /\
    zget t' (hash_address base) = Some e' /\ entry_after (k + 1) e'.
Proof.
  intros Hlen Hk He Hent. pose proof hash_range as Hh.
  assert (exists e', update_prefetch_entry t (addr k) = Ok (zset t (hash_address base) e') /\ entry_after (k + 1) e') as (e' & Hu & He').
  { unfold update_prefetch_entry. rewrite hash_stream. erewrite arr_read_Ok, bind_ret_l by done. unfold entry_after in Hent.
    destruct (Z.eqb_spec k 0) as [->|Hk0].
    - destruct Hent as [-> Hst]. simpl. rewrite arr_write_Ok by lia. eexists. split; [done|].
      unfold entry_after. simpl. unfold addr. rewrite Hst. repeat split; try lia.
    - destruct Hent as (Hb & Hp & H1 & H2). rewrite Hb. destruct (Z.eqb_spec base 0); [lia|]. rewrite Hp.
      replace (addr k - addr (k - 1)) with s by (unfold addr; ring). rewrite s64_stride. destruct (Z.eq_dec k 1) as [->|].
      + destruct (H1 eq_refl) as [Hst _]. rewrite Hst. destruct (Z.eqb_spec s 0); [done|]. rewrite arr_write_Ok by lia. eexists. split; [done|].
        unfold entry_after. simpl. repeat split; lia.
      + destruct H2 as (Hst & Hc & Hstate); [lia|]. rewrite Hst, Z.eqb_refl. rewrite iadd_Ok, bind_ret_l by (unfold INT_MIN, INT_MAX in *; lia).
        rewrite arr_write_Ok by lia. eexists. split; [done|]. unfold entry_after. destruct (Z.eqb_spec (k + 1) 0); [lia|]. simpl.
        replace (k + 1 - 1) with k by lia. repeat split; try lia. rewrite Hstate, Hc. unfold CONFIDENCE_THRESHOLD. repeat case_match; zbool; (done || lia). }
  unfold handle_memory_access. rewrite Hu, bind_ret_l, hash_stream.
  assert (zget (zset t (hash_address base) e') (hash_address base) = Some e') as He'' by (apply zget_zset_eq; lia).
  erewrite arr_read_Ok, bind_ret_l by done. exists (zset t (hash_address base) e'), e'. rewrite length_zset. split; [|done].
  unfold predicted. unfold entry_after in He'. destruct (Z.eqb_spec (k + 1) 0); [lia|]. destruct He' as (_ & _ & H1 & H2).
  destruct (Z.eq_dec k 0) as [->|]; [by destruct (H1 eq_refl) as [_ ->]|]. destruct H2 as (-> & _ & ->); [lia|].
  destruct (Z.ltb_spec (k + 1) 4), (Z.ltb_spec k 3); [done|lia|lia|]. change (Z.to_nat MAX_PREFETCH_DISTANCE) with 4%nat.
  do 4 (rewrite for_range_S; match goal with |- context [lmul s ?i] => destruct (predict k i ltac:(lia) ltac:(lia)) as [E1 E2] end; rewrite E1, !bind_ret_l, E2; clear E1 E2).
  done.
Qed.

Lemma stream_run m : forall t k e, len t = TABLE_SIZE -> 0 <= k -> k + Z.of_nat m <= n ->
  zget t (hash_address base) = Some e -> entry_after k e ->
  exists t', handle_all t (addr <$> seqZ k (Z.of_nat m)) = Ok (predicted <$> seqZ k (Z.of_nat m), t').
Proof.
  induction m as [|m IH]; intros t k e Hlen Hk Hm He Hent; [by eexists|].
  rewrite seqZ_cons by lia. replace (Z.pred (Z.of_nat (S m))) with (Z.of_nat m) by lia. csimpl.
  destruct (stream_step t k e) as (t1 & e1 & -> & Hlen1 & He1 & Hent1); [done|lia|done|done|]. rewrite bind_ret_l.
  destruct (IH t1 (Z.succ k) e1) as (t' & ->); [done|lia|lia|done|done|]. by eexists.
Qed.
End stream.

(** A stream of accesses with a constant stride that stays on one table
    entry is recognised at its fourth access; from then on each access
    prefetches exactly the next four addresses of the stream, and the first
    three accesses prefetch nothing. *)
Theorem stride_stream_predicted base s (n : nat) :
  0 < base -> s mod 1024 = 0 -> s <> 0 -> - INT64_MAX <= 4 * s <= INT64_MAX -> Z.of_nat n < INT_MAX ->
  (forall k, 0 <= k <= Z.of_nat n + 4 -> 0 < base + k * s < UINT64) ->
  exists t, handle_all prefetch_table ((fun k => base + k * s) <$> seqZ 0 (Z.of_nat n)) =
    Ok ((fun k => if k <? 3 then [] else (fun i => base + (k + i) * s) <$> [1; 2; 3; 4]) <$> seqZ 0 (Z.of_nat n), t).
Proof.
  intros Hb Hs Hs0 H4 Hn Hr. pose proof (hash_range base) as Hh.
  destruct (stream_run base s (Z.of_nat n) Hb Hs Hs0 H4 ltac:(lia) Hr n prefetch_table 0 (mkEntry 0 0 0 0 INITIAL)) as (t & Ht); [done|done|lia| |done|by exists t].
  destruct (zget_range prefetch_table (hash_address base)) as [e He]; [done|]. rewrite He. f_equal. by apply zget_replicate in He.
Qed.

Lemma stride_stream_predicted_witness :
  exists t, handle_all prefetch_table ((fun k => 4096 + k * 1024) <$> seqZ 0 (Z.of_nat 5)) =
    Ok ([[]; []; []; [8192; 9216; 10240; 11264]; [9216; 10240; 11264; 12288]], t).
Proof.
  destruct (stride_stream_predicted 4096 1024 5) as (t & Ht).
  - reflexivity.
  - reflexivity.
  - discriminate.
  - unfold INT64_MAX. lia.
  - reflexivity.
  - intros k Hk. unfold UINT64. lia.
  - exists t. rewrite Ht. reflexivity.
Defined.
End StrideTable.

(** ** Software prefetching ([softwarePrefetching.c])

    [_mm_prefetch] is a hint: only the arithmetic and the loads of its argument
    are part of the model. *)
Module SoftPrefetch.

Definition DISTANCE : Z := 10.

Definition incr (arr : list Z) (i : Z) : res (list Z) :=
  v ← arr.[i];
  v ← iadd v 1;
  arr.[i <- v].

Definition traverse_no_prefetch (arr : list Z) (size : Z) : res (list Z) :=
  for_range (Z.to_nat size) 0 (fun i arr => incr arr i) arr.

Definition traverse_with_prefetch (arr : list Z) (size : Z) : res (list Z) :=
  for_range (Z.to_nat size) 0 (fun i arr => _ ← iadd i DISTANCE; incr arr i) arr.

(** A stride of at least one needs at most [size] passes. *)
Definition strided_access_prefetch (arr : list Z) (size stride : Z) : res (list Z) :=
  loop (S (Z.to_nat size)) (fun '(i, arr) =>
    if i <? size then
      d ← imul stride DISTANCE;
      _ ← iadd i d;
      arr ← incr arr i;
      i ← iadd i stride;
      Ok (Next (i, arr))
    else Ok (Return arr)) (0, arr).

(** The [value] fields of the matrix. *)
Definition complex_structure_prefetch (matrix : list (list Z)) (rows cols : Z) : res (list (list Z)) :=
  for_range (Z.to_nat rows) 0 (fun i matrix =>
    for_range (Z.to_nat cols) 0 (fun j matrix =>
      _ ← iadd j DISTANCE;
      row ← matrix.[i];
      row ← incr row j;
      matrix.[i <- row]) matrix) matrix.

Record Node : Type := mkNode { value : Z; next : Z }.

(** A traversal that does not end within [fuel] nodes is stopped. *)
Definition linked_list_prefetch (fuel : nat) (h : heap Node) (head : Z) : res (heap Node) :=
  loop fuel (fun '(h, current) =>
    if current =? 0 then Ok (Return h)
    else
      n ← load h current;
      _ ← (if negb (next n =? 0) then _ ← load h (next n); Ok tt else Ok tt);
      v ← iadd (value n) 1;
      h ← store h current (mkNode v (next n));
      Ok (Next (h, next n))) (h, head).

Definition free_list (fuel : nat) (h : heap Node) (list : Z) : res (heap Node) :=
  loop fuel (fun '(h, current) =>
    if current =? 0 then Ok (Return h)
    else
      n ← load h current;
      h ← free h current;
      Ok (Next (h, next n))) (h, list).

(** A failed [malloc] is not checked; the first store through it stops. *)
Definition create_linked_list (alloc : allocator Node) (h : heap Node) (size : Z) : res (heap Node * Z) :=
  '(h, head, _) ← for_range (Z.to_nat size) 0 (fun i '(h, head, current) =>
    match alloc h with
    | None => Fault NullDeref
    | Some new_node =>
        let h := <[new_node := mkNode i 0]> h in
        if head =? 0 then Ok (h, new_node, new_node)
        else
          c ← load h current;
          h ← store h current (mkNode (value c) new_node);
          Ok (h, head, new_node)
    end) (h, 0, 0);
  Ok (h, head).

Record TreeNode : Type := mkTree { tvalue : Z; left_ : Z; right_ : Z }.

(** The recursion goes at most [fuel] levels down. *)
Fixpoint tree_prefetch (fuel : nat) (h : heap TreeNode) (root : Z) : res (heap TreeNode) :=
  if root =? 0 then Ok h
  else match fuel with
  | O => Fault OutOfFuel
  | S fuel =>
      n ← load h root;
      v ← iadd (tvalue n) 1;
      h ← store h root (mkTree v (left_ n) (right_ n));
      h ← tree_prefetch fuel h (left_ n);
      tree_prefetch fuel h (right_ n)
  end.

(** [rnd] are the random numbers to come; the rest of them is returned. *)
Fixpoint create_binary_tree (alloc : allocator TreeNode) (depth : nat) (rnd : nat -> Z) (k : nat) (h : heap TreeNode) :
    res (heap TreeNode * Z * nat) :=
  match depth with
  | O => Ok (h, 0, k)
  | S depth =>
      match alloc h with
      | None => Fault NullDeref
      | Some root =>
          v ← imod (rnd k) 100;
          '(h, l, k) ← create_binary_tree alloc depth rnd (S k) (<[root := mkTree v 0 0]> h);
          n ← load h root;
          h ← store h root (mkTree (tvalue n) l (right_ n));
          '(h, r, k) ← create_binary_tree alloc depth rnd k h;
          n ← load h root;
          h ← store h root (mkTree (tvalue n) (left_ n) r);
          Ok (h, root, k)
      end
  end.

Fixpoint free_binary_tree (fuel : nat) (h : heap TreeNode) (root : Z) : res (heap TreeNode) :=
  if root =? 0 then Ok h
  else match fuel with
  | O => Fault OutOfFuel
  | S fuel =>
      n ← load h root;
      h ← free_binary_tree fuel h (left_ n);
      n ← load h root;
      h ← free_binary_tree fuel h (right_ n);
      free h root
  end.

(** *** Arrays *)

Lemma prefetch_same_traversal arr size : size + DISTANCE <= INT_MAX -> traverse_with_prefetch arr size = traverse_no_prefetch arr size.
Proof.
  intros Hs. unfold traverse_with_prefetch, traverse_no_prefetch. apply for_range_ext. intros j t Hj.
  by rewrite iadd_Ok, bind_ret_l by (unfold DISTANCE, INT_MIN, INT_MAX in *; lia).
Qed.

Lemma incr_ok arr i v : zget arr i = Some v -> v < INT_MAX -> INT_MIN <= v -> incr arr i = Ok (zset arr i (v + 1)).
Proof.
  intros Hv H1 H2. pose proof (zget_Some_range _ _ _ Hv). unfold incr. erewrite arr_read_Ok, bind_ret_l by done.
  rewrite iadd_Ok, bind_ret_l by lia. by apply arr_write_Ok.
Qed.

Lemma traverse_increments arr size : size = len arr -> Forall (fun v => INT_MIN <= v < INT_MAX) arr ->
  traverse_no_prefetch arr size = Ok (Z.succ <$> arr).
Proof.
  intros -> Hall. unfold traverse_no_prefetch.
  destruct (for_range_inv (fun i a => length a = length arr /\ forall k v, zget arr k = Some v -> zget a k = Some (if k <? i then v + 1 else v))
    (Z.to_nat (len arr)) 0 (fun i arr => incr arr i) arr) as (a & -> & Hla & Ha).
  - split; [done|]. intros k v Hv. pose proof (zget_Some_range _ _ _ Hv). case_cond; [lia|done].
  - intros j t Hj [Hl Ht]. destruct (zget_range arr j) as [v Hv]; [lia|]. pose proof (Ht j v Hv) as Htj.
    rewrite Z.ltb_irrefl in Htj. pose proof (Forall_zget _ _ _ _ Hall Hv) as Hr. simpl in Hr.
    rewrite (incr_ok t j v) by (done || lia). eexists. split; [done|]. rewrite length_zset. split; [done|]. intros k w Hw.
    destruct (decide (k = j)) as [->|Hkj].
    + rewrite zget_zset_eq by lia. rewrite Hv in Hw. injection Hw as <-. case_cond; [done|lia].
    + rewrite zget_zset_ne by done. rewrite (Ht k w Hw). repeat case_cond; (done || lia).
  - f_equal. apply list_eq_zget; [by rewrite length_fmap|]. intros i Hi. rewrite zget_fmap. destruct (zget_range arr i) as [v Hv]; [lia|].
    rewrite (Ha i v Hv), Hv. simpl. case_cond; [done|lia].
Qed.

(** The strided traversal increments the elements at the multiples of the
    stride. *)
Lemma strided_increments arr size stride : 0 < stride -> 0 <= size -> size <= len arr -> size + stride * DISTANCE <= INT_MAX ->
  Forall (fun v => INT_MIN <= v < INT_MAX) arr ->
  exists a, strided_access_prefetch arr size stride = Ok a /\ length a = length arr /\
    forall k v, zget arr k = Some v -> zget a k = Some (if (k <? size) && (k mod stride =? 0) then v + 1 else v).
Proof.
  intros Hst Hsz Hlen Hmax Hall. unfold strided_access_prefetch, DISTANCE in *.
  set (I := fun '(i, a) => 0 <= i /\ i mod stride = 0 /\ length a = length arr /\
    forall k v, zget arr k = Some v -> zget a k = Some (if (k <? i) && (k <? size) && (k mod stride =? 0) then v + 1 else v)).
  apply (loop_total I (fun a => length a = length arr /\ forall k v, zget arr k = Some v ->
    zget a k = Some (if (k <? size) && (k mod stride =? 0) then v + 1 else v)) (fun '(i, a) => Z.to_nat (size - i))); [| |lia].
  - intros [i a] (Hi & Hmod & Hla & Ha). case_cond.
    + rewrite imul_Ok, bind_ret_l, (iadd_Ok i (stride * 10)), bind_ret_l by (unfold INT_MIN, INT_MAX in *; lia).
      destruct (zget_range arr i) as [v Hv]; [lia|]. pose proof (Ha i v Hv) as Hav. rewrite Z.ltb_irrefl in Hav. simpl in Hav.
      pose proof (Forall_zget _ _ _ _ Hall Hv) as Hr. simpl in Hr. rewrite (incr_ok a i v), bind_ret_l by (done || lia).
      rewrite iadd_Ok, bind_ret_l by (unfold INT_MIN, INT_MAX in *; lia). eexists. split; [done|]. split; [|lia].
      split; [lia|]. split; [rewrite Z.add_mod, Hmod, Z.mod_same, Z.mod_0_l by lia; done|]. rewrite length_zset. split; [done|].
      intros k w Hw. destruct (decide (k = i)) as [->|Hki].
      * rewrite zget_zset_eq by lia. rewrite Hv in Hw. injection Hw as <-. rewrite Hmod.
        destruct (Z.ltb_spec i (i + stride)), (Z.ltb_spec i size); (done || lia).
      * rewrite zget_zset_ne by done. rewrite (Ha k w Hw). f_equal. assert (i < k < i + stride -> k mod stride <> 0) as Hno.
        { intros Hk E. pose proof (Z.div_mod i stride ltac:(lia)) as Ei. pose proof (Z.div_mod k stride ltac:(lia)) as Ek.
          rewrite Hmod in Ei. rewrite E in Ek. assert (i / stride < k / stride < i / stride + 1) by nia. lia. }
        destruct (Z.ltb_spec k i), (Z.ltb_spec k (i + stride)); try lia; try done; simpl. destruct (Z.eqb_spec (k mod stride) 0); [|by rewrite andb_false_r].
        exfalso. apply Hno; [lia|done].
    + eexists. split; [done|]. split; [done|]. intros k v Hv. rewrite (Ha k v Hv). f_equal. destruct (Z.ltb_spec k size); [|by rewrite andb_false_r].
      destruct (Z.ltb_spec k i); [done|lia].
  - unfold I. split; [lia|]. split; [apply Z.mod_0_l; lia|]. split; [done|]. intros k v Hv. pose proof (zget_Some_range _ _ _ Hv). by destruct (Z.ltb_spec k 0); [lia|].
Qed.

(** *** Linked lists *)

(** A list at address [a] with the addresses and values of [l]. *)
Fixpoint is_list (h : heap Node) (a : Z) (l : list (Z * Z)) : Prop :=
  match l with
  | [] => a = 0
  | (b, v) :: l => a = b /\ a <> 0 /\ exists nx, h !! a = Some (mkNode v nx) /\ is_list h nx l
  end.

Lemma is_list_frame h h' a l : (forall b, b ∈ l.*1 -> h' !! b = h !! b) -> is_list h a l -> is_list h' a l.
Proof.
  revert a. induction l as [|[b v] l IH]; intros a Hf; csimpl; [done|]. intros (-> & H0 & nx & Hb & Hl).
  split; [done|]. split; [done|]. exists nx. rewrite Hf by set_solver. split; [done|]. apply IH; [|done]. intros c Hc. apply Hf. set_solver.
Qed.

Lemma is_list_head h a l : is_list h a l -> a <> 0 -> exists n, h !! a = Some n.
Proof. destruct l as [|[b v] l]; simpl; [done|]. intros (-> & _ & nx & Hn & _) _. by eauto. Qed.

Lemma linked_list_prefetch_ok l : forall fuel h a, is_list h a l -> NoDup l.*1 -> Forall (fun v => INT_MIN <= v < INT_MAX) l.*2 ->
  (length l < fuel)%nat ->
  exists h', linked_list_prefetch fuel h a = Ok h' /\ is_list h' a (prod_map id Z.succ <$> l) /\ (forall b, b ∉ l.*1 -> h' !! b = h !! b).
Proof.
  unfold linked_list_prefetch. induction l as [|[b v] l IH]; intros fuel h a Hl Hnd Hv Hf; csimpl in *.
  - subst a. destruct fuel; [lia|]. by exists h.
  - destruct Hl as (-> & H0 & nx & Hb & Hl). apply list.NoDup_cons in Hnd as [Hnb Hnd]. apply Forall_cons in Hv as [Hvb Hv].
    destruct fuel as [|fuel]; [lia|]. rewrite loop_S. destruct (Z.eqb_spec b 0); [done|]. rewrite (load_Ok h b (mkNode v nx)), bind_ret_l by done. simpl next.
    assert ((if negb (nx =? 0) then _ ← load h nx; Ok tt else Ok tt) = Ok tt) as Hpre.
    { destruct (Z.eqb_spec nx 0); [done|]. simpl. destruct (is_list_head h nx l Hl) as [n' Hn']; [done|]. by rewrite (load_Ok h nx n') by done. }
    rewrite Hpre, bind_ret_l. simpl value. rewrite iadd_Ok, bind_ret_l by lia. rewrite (store_Ok _ _ _ (mkNode v nx)), bind_ret_l by done.
    rewrite bind_ret_l. destruct (IH fuel (<[b := mkNode (v + 1) nx]> h) nx) as (h' & Hr & Hl' & Hfr); [|done|done|lia|].
    + eapply is_list_frame; [|exact Hl]. intros c Hc. rewrite lookup_insert_ne; [done|]. by intros ->.
    + exists h'. split; [exact Hr|]. split.
      * split; [done|]. split; [done|]. exists nx. split; [|done]. rewrite Hfr by done. by rewrite lookup_insert_eq.
      * intros c Hc. rewrite Hfr by set_solver. rewrite lookup_insert_ne; [done|]. set_solver.
Qed.

Lemma free_list_ok l : forall fuel h a, is_list h a l -> NoDup l.*1 -> (length l < fuel)%nat ->
  exists h', free_list fuel h a = Ok h' /\ forall b, h' !! b = if decide (b ∈ l.*1) then None else h !! b.
Proof.
  unfold free_list. induction l as [|[b v] l IH]; intros fuel h a Hl Hnd Hf; csimpl in *.
  - subst a. destruct fuel; [lia|]. by exists h.
  - destruct Hl as (-> & H0 & nx & Hb & Hl). apply list.NoDup_cons in Hnd as [Hnb Hnd].
    destruct fuel as [|fuel]; [lia|]. rewrite loop_S. destruct (Z.eqb_spec b 0); [done|]. rewrite (load_Ok h b (mkNode v nx)), bind_ret_l by done. simpl next.
    rewrite (free_Ok _ _ (mkNode v nx)), bind_ret_l by done. rewrite bind_ret_l.
    destruct (IH fuel (delete b h) nx) as (h' & Hr & Hfr); [|done|lia|].
    + eapply is_list_frame; [|exact Hl]. intros c Hc. rewrite lookup_delete_ne; [done|]. by intros ->.
    + exists h'. split; [exact Hr|]. intros c. rewrite Hfr. destruct (decide (c = b)) as [->|].
      * rewrite lookup_delete_eq, decide_False by done. by rewrite decide_True by set_solver.
      * rewrite lookup_delete_ne by done. repeat case_decide; set_solver.
Qed.

Lemma is_list_last h a l c v : is_list h a (l ++ [(c, v)]) -> c <> 0 /\ h !! c = Some (mkNode v 0) /\ a <> 0.
Proof.
  revert a. induction l as [|[b w] l IH]; intros a; simpl.
  - intros (-> & H0 & nx & Hc & ->). done.
  - intros (-> & H0 & nx & _ & Hl). by destruct (IH nx Hl) as (? & ? & _).
Qed.

Lemma is_list_snoc h a l c v n w : is_list h a (l ++ [(c, v)]) -> NoDup (l ++ [(c, v)]).*1 -> n ∉ (l ++ [(c, v)]).*1 -> n <> 0 ->
  is_list (<[c := mkNode v n]> (<[n := mkNode w 0]> h)) a (l ++ [(c, v); (n, w)]).
Proof.
  revert a. induction l as [|[b u] l IH]; intros a; csimpl.
  - intros (-> & H0 & nx & Hc & ->) _ Hn Hn0. split; [done|]. split; [done|]. exists n. rewrite lookup_insert_eq. split; [done|].
    split; [done|]. split; [done|]. exists 0. rewrite lookup_insert_ne by set_solver. by rewrite lookup_insert_eq.
  - intros (-> & H0 & nx & Hb & Hl) [Hnb Hnd]%list.NoDup_cons Hn Hn0. split; [done|]. split; [done|]. exists nx.
    apply not_elem_of_cons in Hn as [Hnb' Hn]. rewrite !lookup_insert_ne; [|done|].
    + split; [done|]. by apply IH.
    + intros ->. apply Hnb. rewrite fmap_app. apply elem_of_app. right. csimpl. by apply list_elem_of_singleton.
Qed.

(** What [create_linked_list] has built after [i] nodes. *)
Record building (h0 h : heap Node) (i head current : Z) (l : list (Z * Z)) : Prop := {
  b_list : is_list h head l;
  b_values : l.*2 = seqZ 0 i;
  b_nodup : NoDup l.*1;
  b_new : forall b, b ∈ l.*1 -> h0 !! b = None;
  b_old : forall b, b ∉ l.*1 -> h !! b = h0 !! b;
  b_last : (l = [] /\ head = 0) \/ exists l' v, l = l' ++ [(current, v)]
}.

Lemma building_fresh h0 h i head current l a : building h0 h i head current l -> h !! a = None -> (a ∉ l.*1) /\ h0 !! a = None.
Proof.
  intros [Hl _ _ _ Hold _] Ha. assert (a ∉ l.*1) as Hal; [|by rewrite <- Hold].
  clear -Hl Ha. revert head Hl. induction l as [|[b v] l IH]; intros head; csimpl; [set_solver|]. intros (-> & _ & nx & Hb & Hl).
  apply not_elem_of_cons. split; [congruence|by apply (IH nx)].
Qed.

Lemma building_first h0 h i current a : building h0 h i 0 current [] -> 0 <= i -> h0 !! a = None -> a <> 0 ->
  building h0 (<[a := mkNode i 0]> h) (i + 1) a a [(a, i)].
Proof.
  intros [_ Hv _ _ Hold _] Hi Ha H0. assert (i = 0) as ->.
  { assert (length (seqZ 0 i) = O) as El by (by rewrite <- Hv). rewrite length_seqZ in El. lia. }
  split; csimpl; try done.
  - split; [done|]. split; [done|]. exists 0. by rewrite lookup_insert_eq.
  - apply NoDup_singleton.
  - intros b ->%list_elem_of_singleton. done.
  - intros b Hb%not_elem_of_cons. rewrite lookup_insert_ne by (by apply not_eq_sym, Hb). apply Hold. apply not_elem_of_nil.
  - right. by exists [], 0.
Qed.

Lemma building_next h0 h i head current l v a : building h0 h i head current (l ++ [(current, v)]) -> 0 <= i ->
  h0 !! a = None -> a ∉ (l ++ [(current, v)]).*1 -> a <> 0 ->
  building h0 (<[current := mkNode v a]> (<[a := mkNode i 0]> h)) (i + 1) head a ((l ++ [(current, v)]) ++ [(a, i)]).
Proof.
  intros [Hl Hv Hnd Hnew Hold _] Hi Ha Hal H0. split.
  - rewrite <- (assoc_L (++)). by apply is_list_snoc.
  - rewrite fmap_app, Hv. csimpl. rewrite seqZ_app by lia. done.
  - rewrite fmap_app. csimpl. apply NoDup_app. split; [done|]. split; [|apply NoDup_singleton]. intros b Hb ->%list_elem_of_singleton. done.
  - rewrite fmap_app. csimpl. intros b [Hb| ->%list_elem_of_singleton]%elem_of_app; [by apply Hnew|done].
  - rewrite fmap_app. csimpl. intros b [Hb Hba%not_elem_of_cons]%not_elem_of_app. rewrite !lookup_insert_ne; [by apply Hold| |].
    + by apply not_eq_sym, Hba.
    + intros ->. apply Hb. rewrite fmap_app. apply elem_of_app. right. csimpl. by apply list_elem_of_singleton.
  - right. by exists (l ++ [(current, v)]), i.
Qed.

Lemma create_linked_list_ok (alloc : allocator Node) `{!MallocLaws alloc} h0 n : 0 <= n -> room alloc h0 (Z.to_nat n) ->
  exists h head current l, create_linked_list alloc h0 n = Ok (h, head) /\ building h0 h n head current l.
Proof.
  intros Hn Hroom. unfold create_linked_list.
  match goal with |- context [for_range _ 0 ?b _] => set (body := b) end.
  destruct (for_range_inv (fun i '(h, head, current) => (exists l, building h0 h i head current l) /\ room alloc h (Z.to_nat (n - i)))
    (Z.to_nat n) 0 body (h0, 0, 0)) as ([[h head] current] & -> & (l & Hl) & _).
  - split; [|by rewrite Z.sub_0_r]. exists []. split; try done; [constructor|by intros b ?%not_elem_of_nil|by left].
  - intros i [[h head] current] Hi [(l & Hbl) Hr]. unfold body. replace (Z.to_nat (n - i)) with (S (Z.to_nat (n - (i + 1)))) in Hr by lia.
    destruct (room_alloc _ _ _ Hr) as [a Ha]. rewrite Ha. pose proof (malloc_fresh _ _ Ha) as Hfr. pose proof (malloc_range _ _ Ha).
    destruct (building_fresh _ _ _ _ _ _ a Hbl Hfr) as [Hal Ha0]. pose proof (room_insert _ _ _ a (mkNode i 0) Hr Hfr) as Hr'.
    destruct (b_last _ _ _ _ _ _ Hbl) as [[-> ->]|(l' & v & ->)].
    + rewrite Z.eqb_refl. eexists. split; [done|]. split; [|done]. eexists. apply (building_first h0 h i current); (done || lia).
    + destruct (is_list_last _ _ _ _ _ (b_list _ _ _ _ _ _ Hbl)) as (Hc0 & Hc & Hh0). destruct (Z.eqb_spec head 0); [done|].
      assert (a <> current) as Hac by congruence. assert (<[a := mkNode i 0]> h !! current = Some (mkNode v 0)) as Hc' by by rewrite lookup_insert_ne.
      rewrite (load_Ok _ _ _ Hc0 Hc'), bind_ret_l, (store_Ok _ _ _ _ Hc0 Hc'), bind_ret_l. eexists. split; [done|]. split.
      * eexists. apply building_next; (done || lia).
      * eapply room_le; [exact Hr'|]. rewrite (map_size_insert_Some _ _ _ (mk_is_Some _ _ Hc')). lia.
  - exists h, head, current, l. rewrite bind_ret_l. split; [done|]. by replace n with (0 + Z.of_nat (Z.to_nat n)) by lia.
Qed.

(** The list of [main]: after the traversal every value is one more, and freeing
    the nodes gives back exactly the memory they took. *)
Lemma linked_list_lifetime (alloc : allocator Node) `{!MallocLaws alloc} h0 n fuel :
  0 <= n < INT_MAX -> room alloc h0 (Z.to_nat n) -> (Z.to_nat n < fuel)%nat ->
  exists h head h' l, create_linked_list alloc h0 n = Ok (h, head) /\ linked_list_prefetch fuel h head = Ok h' /\
    is_list h' head l /\ l.*2 = seqZ 1 n /\ free_list fuel h' head = Ok h0.
Proof.
  intros Hn Hroom Hf. destruct (create_linked_list_ok alloc h0 n) as (h & head & current & l & Hc & [Hl Hv Hnd Hnew Hold _]); [lia|done|].
  assert (length l = Z.to_nat n) as Hlen by (rewrite <- (length_fmap snd), Hv; apply length_seqZ).
  destruct (linked_list_prefetch_ok l fuel h head Hl Hnd) as (h' & Hp & Hl' & Hfr); [|lia|].
  - rewrite Hv. apply list.Forall_forall. intros v Hv'%elem_of_seqZ. unfold INT_MIN. lia.
  - assert ((prod_map id Z.succ <$> l).*1 = l.*1) as H1 by (rewrite <- list_fmap_compose; apply list_fmap_ext; done).
    destruct (free_list_ok (prod_map id Z.succ <$> l) fuel h' head Hl') as (h2 & Hfree & Hh2); [by rewrite H1|rewrite length_fmap; lia|].
    exists h, head, h', (prod_map id Z.succ <$> l). split; [done|]. split; [done|]. split; [done|]. split.
    + rewrite <- list_fmap_compose. transitivity (Z.succ <$> l.*2); [by rewrite <- list_fmap_compose|]. rewrite Hv.
      transitivity (Z.add 1 <$> seqZ 0 n); [apply list_fmap_ext; intros; lia|]. by rewrite fmap_add_seqZ.
    + rewrite Hfree. f_equal. apply map_eq. intros b. rewrite Hh2, H1. case_decide as Hb; [symmetry; by apply Hnew|]. by rewrite Hfr, Hold.
Qed.

(** *** Trees *)

Inductive tree : Type := Leaf | Bin (a v : Z) (l r : tree).

Fixpoint addrs (t : tree) : list Z := match t with Leaf => [] | Bin a _ l r => a :: addrs l ++ addrs r end.
Fixpoint values (t : tree) : list Z := match t with Leaf => [] | Bin _ v l r => v :: values l ++ values r end.
Fixpoint height (t : tree) : nat := match t with Leaf => O | Bin _ _ l r => S (height l `max` height r) end.
Fixpoint incr_tree (t : tree) : tree := match t with Leaf => Leaf | Bin a v l r => Bin a (v + 1) (incr_tree l) (incr_tree r) end.
(** All levels of a tree of this depth are there. *)
Fixpoint full (depth : nat) (t : tree) : Prop :=
  match depth, t with O, Leaf => True | S d, Bin _ _ l r => full d l /\ full d r | _, _ => False end.

Fixpoint is_tree (h : heap TreeNode) (a : Z) (t : tree) : Prop :=
  match t with
  | Leaf => a = 0
  | Bin b v l r => a = b /\ a <> 0 /\ exists x y, h !! a = Some (mkTree v x y) /\ is_tree h x l /\ is_tree h y r
  end.

Lemma is_tree_frame h h' a t : (forall b, b ∈ addrs t -> h' !! b = h !! b) -> is_tree h a t -> is_tree h' a t.
Proof.
  revert a. induction t as [|b v l IHl r IHr]; intros a Hf; simpl; [done|]. intros (-> & H0 & x & y & Hb & Hl & Hr).
  split; [done|]. split; [done|]. exists x, y. rewrite Hf by (simpl; by apply elem_of_cons; left). split; [done|].
  split; [apply IHl|apply IHr]; try done; intros c Hc; apply Hf; simpl; apply elem_of_cons; right; apply elem_of_app; by auto.
Qed.

(** Two subtrees and their root do not overlap. *)
Lemma tree_disjoint a v l r : NoDup (addrs (Bin a v l r)) ->
  (a ∉ addrs l) /\ (a ∉ addrs r) /\ NoDup (addrs l) /\ NoDup (addrs r) /\ (forall b, b ∈ addrs l -> b ∉ addrs r).
Proof. simpl. rewrite list.NoDup_cons, not_elem_of_app, NoDup_app. intros ((? & ?) & ? & ? & ?). done. Qed.

Lemma addrs_incr t : addrs (incr_tree t) = addrs t.
Proof. induction t as [|a v l IHl r IHr]; simpl; [done|]. by rewrite IHl, IHr. Qed.

Lemma height_incr t : height (incr_tree t) = height t.
Proof. induction t as [|a v l IHl r IHr]; simpl; [done|]. by rewrite IHl, IHr. Qed.

Lemma height_full d t : full d t -> height t = d.
Proof.
  revert t. induction d as [|d IH]; intros [|a v l r]; simpl; try done. intros [Hl Hr]. rewrite (IH l Hl), (IH r Hr). lia.
Qed.

Lemma tree_prefetch_ok t : forall fuel h a, is_tree h a t -> NoDup (addrs t) -> Forall (fun v => INT_MIN <= v < INT_MAX) (values t) ->
  (height t <= fuel)%nat ->
  exists h', tree_prefetch fuel h a = Ok h' /\ is_tree h' a (incr_tree t) /\ forall b, b ∉ addrs t -> h' !! b = h !! b.
Proof.
  induction t as [|b v l IHl r IHr]; intros fuel h a Ht Hnd Hv Hf; simpl in Ht.
  - subst a. exists h. by destruct fuel.
  - destruct Ht as (-> & H0 & x & y & Hb & Hl & Hr). destruct (tree_disjoint _ _ _ _ Hnd) as (Nl & Nr & Dl & Dr & Dlr).
    simpl in Hv, Hf. apply Forall_cons in Hv as [Hvb [Hvl Hvr]%Forall_app].
    destruct fuel as [|fuel]; [lia|]. simpl tree_prefetch. destruct (Z.eqb_spec b 0); [done|].
    rewrite (load_Ok _ _ _ H0 Hb), bind_ret_l. simpl tvalue. rewrite iadd_Ok, bind_ret_l by lia. rewrite (store_Ok _ _ _ _ H0 Hb), bind_ret_l. simpl.
    set (h1 := <[b := mkTree (v + 1) x y]> h).
    assert (forall c, c <> b -> h1 !! c = h !! c) as Hh1 by (intros; unfold h1; by rewrite lookup_insert_ne).
    destruct (IHl fuel h1 x) as (h2 & -> & Hl2 & Hfr2); [|done|done|lia|]. { eapply is_tree_frame; [|exact Hl]. intros c Hc. apply Hh1. by intros ->. }
    rewrite bind_ret_l. destruct (IHr fuel h2 y) as (h3 & -> & Hr3 & Hfr3); [|done|done|lia|].
    { eapply is_tree_frame; [|exact Hr]. intros c Hc. rewrite Hfr2 by (intros Hcl; by apply (Dlr c)). apply Hh1. by intros ->. }
    exists h3. split; [done|]. split.
    + simpl. split; [done|]. split; [done|]. exists x, y. rewrite Hfr3, Hfr2 by done. unfold h1. rewrite lookup_insert_eq. split; [done|].
      split; [|done]. eapply is_tree_frame; [|exact Hl2]. intros c Hc. rewrite addrs_incr in Hc. apply Hfr3. by apply Dlr.
    + simpl. intros c [Hcb [Hcl Hcr]%not_elem_of_app]%not_elem_of_cons. by rewrite Hfr3, Hfr2, Hh1.
Qed.

Lemma free_binary_tree_ok t : forall fuel h a, is_tree h a t -> NoDup (addrs t) -> (height t <= fuel)%nat ->
  exists h', free_binary_tree fuel h a = Ok h' /\ (forall b, b ∈ addrs t -> h' !! b = None) /\ forall b, b ∉ addrs t -> h' !! b = h !! b.
Proof.
  induction t as [|b v l IHl r IHr]; intros fuel h a Ht Hnd Hf; simpl in Ht.
  - subst a. exists h. split; [by destruct fuel|]. split; [by intros b ?%not_elem_of_nil|done].
  - destruct Ht as (-> & H0 & x & y & Hb & Hl & Hr). destruct (tree_disjoint _ _ _ _ Hnd) as (Nl & Nr & Dl & Dr & Dlr). simpl in Hf.
    destruct fuel as [|fuel]; [lia|]. simpl free_binary_tree. destruct (Z.eqb_spec b 0); [done|]. rewrite (load_Ok _ _ _ H0 Hb), bind_ret_l. simpl.
    destruct (IHl fuel h x Hl Dl) as (h1 & -> & Hn1 & Hfr1); [lia|]. rewrite bind_ret_l.
    assert (h1 !! b = Some (mkTree v x y)) as Hb1 by (by rewrite Hfr1). rewrite (load_Ok _ _ _ H0 Hb1), bind_ret_l. simpl.
    destruct (IHr fuel h1 y) as (h2 & -> & Hn2 & Hfr2); [|done|lia|].
    { eapply is_tree_frame; [|exact Hr]. intros c Hc. apply Hfr1. intros Hcl. by apply (Dlr c). }
    rewrite bind_ret_l. assert (h2 !! b = Some (mkTree v x y)) as Hb2 by (by rewrite Hfr2). rewrite (free_Ok _ _ _ H0 Hb2).
    eexists. split; [done|]. split.
    + simpl. intros c. destruct (decide (c = b)) as [->|Hcb]; [by rewrite lookup_delete_eq|]. rewrite lookup_delete_ne by done.
      intros [?|[Hc|Hc]%elem_of_app]%elem_of_cons; [done| |by apply Hn2]. rewrite Hfr2 by (by apply Dlr). by apply Hn1.
    + simpl. intros c [Hcb [Hcl Hcr]%not_elem_of_app]%not_elem_of_cons. by rewrite lookup_delete_ne, Hfr2, Hfr1.
Qed.

(** What [create_binary_tree] adds to a heap. *)
Record grown (depth : nat) (h h' : heap TreeNode) (a : Z) (t : tree) : Prop := {
  g_tree : is_tree h' a t;
  g_full : full depth t;
  g_nodup : NoDup (addrs t);
  g_values : Forall (fun v => 0 <= v < 100) (values t);
  g_new b : b ∈ addrs t -> h !! b = None;
  g_old b : b ∉ addrs t -> h' !! b = h !! b;
  g_size : (size h' + 1 = size h + 2 ^ depth)%nat
}.

Section creation.
Context (alloc : allocator TreeNode) `{!MallocLaws alloc} (rnd : nat -> Z) (Hrnd : forall k, 0 <= rnd k <= INT_MAX).

(** The root goes around its subtrees. *)
Lemma grown_root depth h root v x y l r h2 h4 :
  h !! root = None -> root <> 0 -> 0 <= v < 100 ->
  grown depth (<[root := mkTree v 0 0]> h) h2 x l -> grown depth (<[root := mkTree v x 0]> h2) h4 y r ->
  grown (S depth) h (<[root := mkTree v x y]> h4) root (Bin root v l r).
Proof.
  intros Hroot H0 Hv Gl Gr. pose proof Gl as [Tl Fl Dl Vl Nl Ol Sl]. pose proof Gr as [Tr Fr Dr Vr Nr Or Sr].
  assert (root ∉ addrs l) as Rl by (intros Hin%Nl; by rewrite lookup_insert_eq in Hin).
  assert (root ∉ addrs r) as Rr by (intros Hin%Nr; by rewrite lookup_insert_eq in Hin).
  assert (h2 !! root = Some (mkTree v 0 0)) as H2r by (rewrite Ol by done; apply lookup_insert_eq).
  assert (h4 !! root = Some (mkTree v x 0)) as H4r by (rewrite Or by done; apply lookup_insert_eq).
  assert (forall b, b ∈ addrs l -> b ∉ addrs r) as Dlr.
  { intros b Hbl Hbr. assert (b <> root) by (by intros ->). specialize (Nr b Hbr). rewrite lookup_insert_ne in Nr by done.
    assert (is_Some (h2 !! b)) as [? Hs]; [|congruence]. clear -Tl Hbl. revert x Tl. induction l as [|c w l1 IH1 l2 IH2]; intros x; simpl in *; [by apply not_elem_of_nil in Hbl|].
    intros (-> & _ & x1 & y1 & Hc & H1 & H2). apply elem_of_cons in Hbl as [->|[Hb|Hb]%elem_of_app]; [by eauto|by eapply IH1|by eapply IH2]. }
  split.
  - simpl. split; [done|]. split; [done|]. exists x, y. rewrite lookup_insert_eq. split; [done|]. split.
    + eapply is_tree_frame; [|exact Tl]. intros c Hc. assert (c <> root) by (by intros ->). rewrite lookup_insert_ne, Or, lookup_insert_ne by (done || by apply Dlr). done.
    + eapply is_tree_frame; [|exact Tr]. intros c Hc. rewrite lookup_insert_ne by (by intros ->). done.
  - by simpl.
  - simpl. rewrite list.NoDup_cons, not_elem_of_app, NoDup_app. done.
  - simpl. constructor; [done|]. by apply Forall_app.
  - simpl. intros b. destruct (decide (b = root)) as [->|Hbr]; [done|]. intros [?|[Hb|Hb]%elem_of_app]%elem_of_cons; [done| |].
    + specialize (Nl b Hb). by rewrite lookup_insert_ne in Nl.
    + specialize (Nr b Hb). rewrite lookup_insert_ne in Nr by done. rewrite Ol in Nr; [by rewrite lookup_insert_ne in Nr|]. intros Hbl. by apply (Dlr b).
  - simpl. intros b [Hb [Hbl Hbr]%not_elem_of_app]%not_elem_of_cons. by rewrite lookup_insert_ne, Or, lookup_insert_ne, Ol, lookup_insert_ne.
  - rewrite (map_size_insert_Some _ _ _ (mk_is_Some _ _ H4r)). rewrite (map_size_insert_Some _ _ _ (mk_is_Some _ _ H2r)) in Sr.
    rewrite map_size_insert_None in Sl by done. simpl. lia.
Qed.

Lemma create_binary_tree_ok depth : forall k h, room alloc h (2 ^ depth - 1) ->
  exists h' a t k', create_binary_tree alloc depth rnd k h = Ok (h', a, k') /\ grown depth h h' a t.
Proof.
  induction depth as [|depth IH]; intros k h Hroom.
  - exists h, 0, Leaf, k. split; [done|]. split; simpl; try done; [constructor|by intros b ?%not_elem_of_nil].
  - assert (2 ^ S depth - 1 = S (2 ^ depth - 1 + (2 ^ depth - 1)))%nat as Hpow by (simpl; pose proof (Nat.pow_nonzero 2 depth); lia).
    rewrite Hpow in Hroom. simpl. destruct (room_alloc _ _ _ Hroom) as [root Ha]. rewrite Ha.
    pose proof (malloc_fresh _ _ Ha) as Hf. pose proof (malloc_range _ _ Ha). rewrite imod_Ok, bind_ret_l by (done || apply Hrnd).
    pose proof (Z.mod_pos_bound (rnd k) 100 ltac:(lia)) as Hv. set (v := rnd k mod 100) in *.
    pose proof (room_insert _ _ _ root (mkTree v 0 0) Hroom Hf) as Hr1.
    destruct (IH (S k) (<[root := mkTree v 0 0]> h)) as (h2 & x & l & k2 & -> & Gl); [eapply room_le; [exact Hr1|]; lia|]. rewrite bind_ret_l.
    assert (h2 !! root = Some (mkTree v 0 0)) as H2r.
    { rewrite (g_old _ _ _ _ _ Gl); [apply lookup_insert_eq|]. intros Hin%(g_new _ _ _ _ _ Gl). by rewrite lookup_insert_eq in Hin. }
    assert (root <> 0) as Hr0 by lia. rewrite (load_Ok _ _ _ Hr0 H2r), bind_ret_l, (store_Ok _ _ _ _ Hr0 H2r), bind_ret_l. simpl.
    destruct (IH k2 (<[root := mkTree v x 0]> h2)) as (h4 & y & r & k4 & -> & Gr).
    { eapply room_le; [exact Hr1|]. rewrite (map_size_insert_Some _ _ _ (mk_is_Some _ _ H2r)). pose proof (g_size _ _ _ _ _ Gl) as Hsz.
      pose proof (Nat.pow_nonzero 2 depth). lia. }
    rewrite bind_ret_l. assert (h4 !! root = Some (mkTree v x 0)) as H4r.
    { rewrite (g_old _ _ _ _ _ Gr); [apply lookup_insert_eq|]. intros Hin%(g_new _ _ _ _ _ Gr). by rewrite lookup_insert_eq in Hin. }
    rewrite (load_Ok _ _ _ Hr0 H4r), bind_ret_l, (store_Ok _ _ _ _ Hr0 H4r), bind_ret_l.
    eexists _, _, _, _. split; [done|]. simpl. by apply (grown_root depth h root v x y l r h2 h4); [|lia|..].
Qed.
End creation.

(** The tree of [main], for any depth: [create_binary_tree] builds a full
    tree of new nodes, [tree_prefetch] visits every node once and adds one to
    its value, and [free_binary_tree] gives back exactly the memory the tree
    took. *)
Theorem tree_lifetime (alloc : allocator TreeNode) rnd depth k h0 :
  MallocLaws alloc -> (forall k, 0 <= rnd k <= INT_MAX) -> room alloc h0 (2 ^ depth - 1) ->
  exists h a t k' h', create_binary_tree alloc depth rnd k h0 = Ok (h, a, k') /\ is_tree h a t /\ full depth t /\
    tree_prefetch depth h a = Ok h' /\ is_tree h' a (incr_tree t) /\ free_binary_tree depth h' a = Ok h0.
Proof.
  intros Hlaws Hr Hroom. destruct (create_binary_tree_ok alloc rnd Hr depth k h0 Hroom) as (h & a & t & k' & Hc & [T F D V N O _]).
  destruct (tree_prefetch_ok t depth h a T D) as (h' & Hp & T' & O').
  - eapply list.Forall_impl; [exact V|]. simpl. unfold INT_MIN, INT_MAX. lia.
  - by rewrite (height_full depth t F).
  - destruct (free_binary_tree_ok (incr_tree t) depth h' a T') as (h2 & Hf & N2 & O2).
    + by rewrite addrs_incr.
    + by rewrite height_incr, (height_full depth t F).
    + exists h, a, t, k', h'. repeat (split; [done|]). rewrite Hf. f_equal. apply map_eq. intros b. rewrite addrs_incr in *.
      destruct (decide (b ∈ addrs t)) as [Hb|Hb]; [by rewrite N2, N|by rewrite O2, O', O].
Qed.

Lemma tree_lifetime_witness :
  exists h a t k' h', create_binary_tree (bump 10) 2 (fun k => Z.of_nat k `min` 5) 0 ∅ = Ok (h, a, k') /\ is_tree h a t /\ full 2 t /\
    tree_prefetch 2 h a = Ok h' /\ free_binary_tree 2 h' a = Ok ∅.
Proof.
  destruct (tree_lifetime (bump 10) (fun k => Z.of_nat k `min` 5) 2 0 ∅) as (h & a & t & k' & h' & H1 & H2 & H3 & H4 & _ & H6).
  - apply bump_laws. reflexivity.
  - intros k. unfold INT_MAX. lia.
  - apply bump_room. rewrite map_size_empty. vm_compute. lia.
  - exists h, a, t, k', h'. exact (conj H1 (conj H2 (conj H3 (conj H4 H6)))).
Defined.
End SoftPrefetch.
