(* ===== verification/Election.v ===== *)
(** * Leader election ([concurrency/threads/leaderElection.c])

    Threads that follow a master and promote themselves when it stops or its
    heartbeats fail to appear.  A step is a critical section of a thread or the
    passing of time; [time(NULL)] is [now]. *)
From Stdlib Require Import ZArith Lia.
From stdpp Require Import base tactics list numbers option relations.
From S2P Require Import Prelude.

#[local] Open Scope Z_scope.
#[local] Open Scope c_scope.

Definition HEARTBEAT_TIMEOUT : Z := 3.

(** A thread in the loop of [follower_thread], in [master_thread] after [k]
    heartbeats, or returned. *)
Inductive role : Type :=
| Follower
| Master (k : Z)
| Done.

Record election : Type := mkElection {
  master_id : Z;
  master_alive : bool;
  last_heartbeat_time : Z;
  now : Z;
  roles : list role
}.

(** The critical section of [follower_thread] in thread [id].  The clock may
    advance to [later] between its two calls of [time]. *)
Definition follower_check (id later : Z) (s : election) : election :=
  let alive := if master_alive s && (HEARTBEAT_TIMEOUT <? now s - last_heartbeat_time s) then false else master_alive s in
  if negb alive then mkElection id true later later (zset (roles s) id (Master 0))
  else mkElection (master_id s) alive (last_heartbeat_time s) (now s) (roles s).

(** One pass of the loop of [master_thread]. *)
Definition heartbeat (id k : Z) (s : election) : election :=
  mkElection (master_id s) (master_alive s) (now s) (now s) (zset (roles s) id (Master (k + 1))).

Definition master_stops (id : Z) (s : election) : election :=
  mkElection (master_id s) false (last_heartbeat_time s) (now s) (zset (roles s) id Done).

Definition advance (later : Z) (s : election) : election :=
  mkElection (master_id s) (master_alive s) (last_heartbeat_time s) later (roles s).

(** [on_time] tells which readings of the clock are possible in a state. *)
Inductive estep (on_time : election -> Z -> Prop) (s : election) : election -> Prop :=
| estep_time later : now s <= later -> on_time s later -> estep on_time s (advance later s)
| estep_follow id later : zget (roles s) id = Some Follower -> now s <= later -> on_time s later -> estep on_time s (follower_check id later s)
| estep_beat id k : zget (roles s) id = Some (Master k) -> k < 3 -> estep on_time s (heartbeat id k s)
| estep_stop id : zget (roles s) id = Some (Master 3) -> estep on_time s (master_stops id s).

(** [main] with [n] threads, from time [t]: the first one is the master. *)
Definition estart (n : nat) (t : Z) : election := mkElection 0 true t t (Master 0 :: replicate n Follower).

Definition any_time (s : election) (later : Z) : Prop := True.

(** A master that runs sends a heartbeat before the timeout. *)
Definition punctual (s : election) (later : Z) : Prop :=
  (exists id k, zget (roles s) id = Some (Master k)) -> later - last_heartbeat_time s <= HEARTBEAT_TIMEOUT.

Definition is_master (r : role) : Z := match r with Master _ => 1 | _ => 0 end.
Definition masters (s : election) : Z := total is_master (roles s).

(** ** One master at a time *)

Lemma masters_nonneg s : 0 <= masters s.
Proof. apply field_total_nonneg, Forall_true. intros []; simpl; lia. Qed.

Lemma masters_zset s id r r' : zget (roles s) id = Some r ->
  total is_master (zset (roles s) id r') = masters s - is_master r + is_master r'.
Proof. apply total_zset. Qed.

Lemma master_counted s id k : zget (roles s) id = Some (Master k) -> 1 <= masters s.
Proof. intros H. apply (total_member is_master _ id (Master k)); [|done]. apply Forall_true. intros []; simpl; lia. Qed.

Definition single (s : election) : Prop :=
  last_heartbeat_time s <= now s /\
  if master_alive s then
    masters s = 1 /\ (exists k, zget (roles s) (master_id s) = Some (Master k)) /\ now s - last_heartbeat_time s <= HEARTBEAT_TIMEOUT
  else masters s = 0.

Lemma single_step s s' : single s -> estep punctual s s' -> single s'.
Proof.
  intros [Hle Hs] Hstep. destruct Hstep as [later Ht Hp|id later Hid Ht Hp|id k Hid Hk|id Hid].
  - unfold single, advance. simpl. split; [lia|]. destruct (master_alive s); [|done]. destruct Hs as (Hm & [k Hk] & _).
    split; [done|]. split; [by eauto|]. apply Hp. by eauto.
  - unfold follower_check. pose proof (zget_Some_range _ _ _ Hid). destruct (master_alive s) eqn:Hal; simpl.
    + destruct Hs as (Hm & Hk & Hd). destruct (Z.ltb_spec HEARTBEAT_TIMEOUT (now s - last_heartbeat_time s)); [lia|]. simpl.
      unfold single. simpl. by rewrite ?Hal.
    + unfold single. simpl. split; [lia|]. unfold masters in *. simpl. rewrite (masters_zset s id Follower) by done. unfold masters. simpl.
      split; [lia|]. split; [exists 0; by apply zget_zset_eq|]. unfold HEARTBEAT_TIMEOUT. lia.
  - unfold heartbeat, single. simpl. split; [lia|]. pose proof (master_counted _ _ _ Hid). pose proof (zget_Some_range _ _ _ Hid).
    destruct (master_alive s); [|lia]. destruct Hs as (Hm & [k' Hk'] & _). unfold masters in *. simpl. rewrite (masters_zset s id (Master k)) by done.
    unfold masters. simpl. split; [lia|]. split; [|unfold HEARTBEAT_TIMEOUT; lia]. destruct (decide (master_id s = id)) as [->|Hne].
    + exists (k + 1). by apply zget_zset_eq.
    + exists k'. by rewrite zget_zset_ne.
  - unfold master_stops, single. simpl. split; [lia|]. pose proof (master_counted _ _ _ Hid). unfold masters in *. simpl.
    rewrite (masters_zset s id (Master 3)) by done. unfold masters. simpl. destruct (master_alive s); lia.
Qed.

Lemma masters_followers n : total is_master (replicate n Follower) = 0.
Proof. induction n; simpl; lia. Qed.

Lemma single_start n t : single (estart n t).
Proof.
  unfold single, masters. simpl. rewrite masters_followers. split; [lia|]. split; [lia|]. split; [by exists 0|].
  unfold HEARTBEAT_TIMEOUT. lia.
Qed.

(** C29.  As long as a running master sends its heartbeats in time, there is never
    more than one master, and while [master_alive] is set it is the thread
    [master_id] names. *)
Theorem election_single_master n t s : rtc (estep punctual) (estart n t) s ->
  masters s <= 1 /\ (master_alive s = true -> exists k, zget (roles s) (master_id s) = Some (Master k)).
Proof.
  intros Hr. assert (single s) as [_ Hs].
  { apply (rtc_ind_r (R := estep punctual) single (estart n t)); [apply single_start| |done]. intros a b _ Hab Ha. by eapply single_step. }
  destruct (master_alive s); [|split; [lia|done]]. destruct Hs as (Hm & Hk & _). split; [lia|done].
Qed.

Lemma election_single_master_witness :
  exists s, rtc (estep punctual) (estart 1 0) s /\ masters s <= 1.
Proof.
  assert (rtc (estep punctual) (estart 1 0) (heartbeat 0 0 (advance 1 (estart 1 0)))) as Hr.
  { apply (rtc_l _ _ (advance 1 (estart 1 0))); [|apply rtc_once].
    - apply estep_time; [simpl; lia|]. intros _. unfold HEARTBEAT_TIMEOUT. simpl. lia.
    - by apply estep_beat. }
  exists (heartbeat 0 0 (advance 1 (estart 1 0))). split; [exact Hr|]. apply (election_single_master 1 0 _ Hr).
Defined.

(** A master that is late is replaced while it runs. *)
Lemma late_master_doubled : exists s, rtc (estep any_time) (estart 1 0) s /\ masters s = 2.
Proof.
  exists (follower_check 1 4 (advance 4 (estart 1 0))). split; [|reflexivity].
  apply (rtc_l _ _ (advance 4 (estart 1 0))); [apply estep_time; [simpl; lia|done]|]. apply rtc_once. apply estep_follow; [done|simpl; lia|done].
Qed.

(** ** The program ends *)

Definition work (r : role) : Z := match r with Follower => 5 | Master k => 4 - k | Done => 0 end.
Definition remaining (s : election) : Z := total work (roles s).

Definition settled (s : election) : Prop :=
  Forall (fun r => match r with Master k => 0 <= k <= 3 | _ => True end) (roles s) /\ (master_alive s = true -> 1 <= masters s).

Lemma settled_step s s' : settled s -> estep any_time s s' ->
  settled s' /\ (roles s' = roles s \/ remaining s' = remaining s - 1).
Proof.
  intros [Hr Ha] Hstep. destruct Hstep as [later _ _|id later Hid _ _|id k Hid Hk|id Hid].
  - split; [by split|by left].
  - unfold follower_check. pose proof (zget_Some_range _ _ _ Hid) as Hrg.
    destruct (if master_alive s && (HEARTBEAT_TIMEOUT <? now s - last_heartbeat_time s) then false else master_alive s) eqn:Hal; simpl.
    + split; [split|by left]; simpl; [done|]. intros _. apply Ha. by destruct (master_alive s).
    + split; [split|right]; simpl.
      * apply Forall_zset; [done|lia].
      * intros _. apply (master_counted (mkElection id true later later (zset (roles s) id (Master 0))) id 0). simpl. by apply zget_zset_eq.
      * unfold remaining. simpl. rewrite (total_zset work _ _ _ _ Hid). simpl. lia.
  - pose proof (Forall_zget _ _ _ _ Hr Hid) as Hk0. pose proof (zget_Some_range _ _ _ Hid) as Hrg. simpl in Hk0. split; [split|right]; simpl.
    + apply Forall_zset; [done|lia].
    + intros _. apply (master_counted (heartbeat id k s) id (k + 1)). simpl. by apply zget_zset_eq.
    + unfold remaining. simpl. rewrite (total_zset work _ _ _ _ Hid). simpl. lia.
  - split; [split|right]; simpl; [by apply Forall_zset|done|]. unfold remaining. simpl. rewrite (total_zset work _ _ _ _ Hid). simpl. lia.
Qed.

Lemma settled_start n t : settled (estart n t).
Proof.
  split; simpl; [constructor; [lia|]|].
  - by apply Forall_replicate.
  - intros _. unfold masters. simpl. rewrite masters_followers. lia.
Qed.

Lemma settled_reachable n t s : rtc (estep any_time) (estart n t) s -> settled s.
Proof.
  intros Hr. apply (rtc_ind_r (R := estep any_time) settled (estart n t)); [apply settled_start| |done]. intros a b _ Hab Ha. by eapply settled_step.
Qed.

Lemma no_masters_settled s : settled s -> Forall (fun r => is_master r = 0) (roles s) -> master_alive s = false.
Proof.
  intros [_ Ha] H0. destruct (master_alive s); [|done]. specialize (Ha eq_refl). unfold masters in Ha.
  assert (total is_master (roles s) = 0); [|lia]. clear Ha. induction H0 as [|r l Hr _ IH]; simpl; lia.
Qed.

Lemma enabled s : settled s -> Exists (fun r => r <> Done) (roles s) ->
  exists s', estep any_time s s' /\ remaining s' = remaining s - 1.
Proof.
  intros Hset Hex. pose proof Hset as [Hr _]. destruct (decide (Exists (fun r => is_master r <> 0) (roles s))) as [Hm|Hm].
  - apply list.Exists_exists in Hm as (r & [i Hi]%elem_of_zget & Hr0). destruct r as [|k|]; try done.
    pose proof (Forall_zget _ _ _ _ Hr Hi) as Hk. simpl in Hk. destruct (decide (k = 3)) as [->|].
    + exists (master_stops i s). split; [by apply estep_stop|]. unfold remaining. simpl. rewrite (total_zset work _ _ _ _ Hi). simpl. lia.
    + exists (heartbeat i k s). split; [apply estep_beat; [done|lia]|]. unfold remaining. simpl. rewrite (total_zset work _ _ _ _ Hi). simpl. lia.
  - apply not_Exists_Forall in Hm; [|solve_decision]. assert (Forall (fun r => is_master r = 0) (roles s)) as H0.
    { eapply list.Forall_impl; [exact Hm|]. simpl. intros r Hr0. destruct r; simpl in *; try done. exfalso. by apply Hr0. }
    pose proof (no_masters_settled s Hset H0) as Hal. apply list.Exists_exists in Hex as (r & [i Hi]%elem_of_zget & Hd).
    pose proof (Forall_zget _ _ _ _ H0 Hi) as Hr0. destruct r; [|done|done].
    exists (follower_check i (now s) s). split; [by apply estep_follow|]. unfold follower_check. rewrite Hal. simpl.
    unfold remaining. simpl. rewrite (total_zset work _ _ _ _ Hi). simpl. lia.
Qed.

(** Whatever the timing, the election comes to an end: every step of a
    thread other than a check that finds the master alive uses up one unit of
    the remaining work, which is never negative; and until all threads have
    returned some thread can make such a step. *)
Theorem election_terminates n t s : rtc (estep any_time) (estart n t) s ->
  0 <= remaining s /\
  (forall s', estep any_time s s' -> roles s' = roles s \/ remaining s' = remaining s - 1) /\
  (Exists (fun r => r <> Done) (roles s) -> exists s', estep any_time s s' /\ remaining s' = remaining s - 1).
Proof.
  intros Hr%settled_reachable. split; [|split].
  - apply field_total_nonneg. destruct Hr as [Hr _]. eapply list.Forall_impl; [exact Hr|]. intros []; simpl; lia.
  - intros s' Hs. by apply settled_step.
  - by apply enabled.
Qed.

Lemma election_terminates_witness : exists s, rtc (estep any_time) (estart 4 100) s /\ remaining s = 24 /\ exists s', estep any_time s s'.
Proof.
  exists (estart 4 100). split; [apply rtc_refl|]. split; [reflexivity|].
  destruct (election_terminates 4 100 (estart 4 100)) as (_ & _ & H).
  - apply rtc_refl.
  - destruct H as (s' & Hs & _); [|exists s'; exact Hs]. simpl. by left.
Defined.
