(* ===== verification/Shell.v ===== *)
(** * Shell ([utils/sh.c])

    A line is split at bars into commands and each command at blanks into
    arguments, with [strtok]; the commands are run with pipes between them.  The
    file descriptors of the shell and of its children are tables from
    descriptors to what they are open on.  [fork], [exec], [wait] and the prompt
    are not modelled beyond that. *)
From Stdlib Require Import ZArith Lia Ascii.
From stdpp Require Import base tactics list numbers option gmap.
From S2P Require Import Prelude.

#[local] Open Scope Z_scope.
#[local] Open Scope c_scope.

Definition MAX_ARGS : Z := 64.

Definition str : Type := list ascii.

(** ** Splitting a line *)

Fixpoint skip (d : ascii) (s : str) : str :=
  match s with
  | [] => []
  | c :: s' => if Ascii.eqb c d then skip d s' else s
  end.

(** The characters before the first [d], and those after it. *)
Fixpoint span (d : ascii) (s : str) : str * str :=
  match s with
  | [] => ([], [])
  | c :: s' => if Ascii.eqb c d then ([], s') else let '(t, r) := span d s' in (c :: t, r)
  end.

(** [strtok] with one delimiter, from the place where it stopped before. *)
Definition strtok (d : ascii) (s : str) : option str * str :=
  match skip d s with
  | [] => (None, [])
  | s => let '(t, r) := span d s in (Some t, r)
  end.

(** The tokens are stored one after the other and a [NULL] after the last: both
    the loop for [commands] and the loop for [args].  The fuel is the length of
    the string and one. *)
Fixpoint collect (fuel : nat) (d : ascii) (n : Z) (arr : list (option str)) (s : str) : res (Z * list (option str)) :=
  match fuel with
  | O => Fault OutOfFuel
  | S fuel =>
      let '(token, s) := strtok d s in
      arr ← arr.[n <- token];
      match token with
      | None => Ok (n, arr)
      | Some _ => collect fuel d (n + 1) arr s
      end
  end.

Definition BAR : ascii := "|".
Definition BLANK : ascii := " ".

(** [mem] is what is in the array before. *)
Definition split_commands (mem : list (option str)) (input : str) : res (Z * list (option str)) :=
  collect (S (length input)) BAR 0 mem input.

Definition split_args (mem : list (option str)) (command : str) : res (Z * list (option str)) :=
  collect (S (length command)) BLANK 0 mem command.

(** ** Pipelines *)

Inductive endpoint : Type :=
| Terminal
| PipeRead (k : Z)
| PipeWrite (k : Z)
| File (k : Z).

Notation fds := (gmap Z endpoint).

Definition STDIN_FILENO : Z := 0.
Definition STDOUT_FILENO : Z := 1.

Definition dup2 (t : fds) (from to : Z) : fds := match t !! from with Some e => <[to := e]> t | None => t end.
Definition close (t : fds) (fd : Z) : fds := delete fd t.

(** The descriptors of the child of [execute_command] when it calls [execvp]. *)
Definition execute_command (t : fds) (input_fd output_fd : Z) : fds :=
  let t := if negb (input_fd =? STDIN_FILENO) then close (dup2 t input_fd STDIN_FILENO) input_fd else t in
  if negb (output_fd =? STDOUT_FILENO) then close (dup2 t output_fd STDOUT_FILENO) output_fd else t.

Section pipeline.
(** The two descriptors the next call of [pipe] returns; [None] when it fails. *)
Context (pipe : fds -> option (Z * Z)).

(** One pass of the loop over the commands: the children started so far, the
    table of the shell, [pipes] and [input_fd]. *)
Definition run_command (n i : Z) '((children, t, pipes, input_fd) : list fds * fds * (Z * Z) * Z) : res (list fds * fds * (Z * Z) * Z) :=
  '(t, pipes) ← (if i <? n - 1 then
                   match pipe t with
                   | None => Fault (Exit 1)
                   | Some (r, w) => Ok (<[w := PipeWrite i]> (<[r := PipeRead i]> t), (r, w))
                   end
                 else Ok (t, pipes));
  let output_fd := if i =? n - 1 then STDOUT_FILENO else pipes.2 in
  let child := execute_command t input_fd output_fd in
  let t := if negb (input_fd =? STDIN_FILENO) then close t input_fd else t in
  let t := if negb (output_fd =? STDOUT_FILENO) then close t output_fd else t in
  Ok (children ++ [child], t, pipes, pipes.1).

(** [garbage] is what the array [pipes] holds at first. *)
Definition run_pipeline (n : Z) (garbage : Z * Z) (t : fds) : res (list fds * fds * (Z * Z) * Z) :=
  for_range (Z.to_nat n) 0 (run_command n) ([], t, garbage, STDIN_FILENO).
End pipeline.

(** ** Tokens *)

Fixpoint split_on (d : ascii) (s : str) : list str :=
  match s with
  | [] => [[]]
  | c :: s' =>
      if Ascii.eqb c d then [] :: split_on d s'
      else match split_on d s' with t :: ts => (c :: t) :: ts | [] => [[c]] end
  end.

Definition nonempty (t : str) : bool := match t with [] => false | _ => true end.

(** The non-empty pieces between the delimiters. *)
Definition tokens (d : ascii) (s : str) : list str := List.filter nonempty (split_on d s).

Lemma tokens_skip d s : tokens d (skip d s) = tokens d s.
Proof. induction s as [|c s IH]; simpl; [done|]. unfold tokens. simpl. destruct (Ascii.eqb c d) eqn:E; simpl; [exact IH|by rewrite E]. Qed.

Lemma skip_head d s c s' : skip d s = c :: s' -> Ascii.eqb c d = false.
Proof. induction s as [|b s IH]; simpl; [done|]. destruct (Ascii.eqb b d) eqn:E; [done|]. by intros [= <- <-]. Qed.

Lemma length_skip d s : (length (skip d s) <= length s)%nat.
Proof. induction s as [|c s IH]; simpl; [done|]. destruct (Ascii.eqb c d); simpl; lia. Qed.

Lemma span_split d s : exists ts, split_on d s = (span d s).1 :: ts /\ List.filter nonempty ts = tokens d (span d s).2 /\
  (length (span d s).2 <= length s)%nat.
Proof.
  induction s as [|c s (ts & H1 & H2 & H3)]; simpl; [by exists []|]. destruct (Ascii.eqb c d); simpl; [exists (split_on d s); split; [done|split; [done|lia]]|].
  rewrite H1. destruct (span d s) as [t r]. simpl in *. exists ts. split; [done|]. split; [done|]. lia.
Qed.

Lemma strtok_tokens d s :
  match strtok d s with
  | (None, _) => tokens d s = []
  | (Some t, r) => tokens d s = t :: tokens d r /\ (length r < length s)%nat
  end.
Proof.
  unfold strtok. rewrite <- (tokens_skip d s). pose proof (length_skip d s) as Hlen. destruct (skip d s) as [|c s'] eqn:E; [done|].
  pose proof (skip_head d s c s' E) as Hc. destruct (span_split d s') as (ts & H1 & H2 & H3). simpl. rewrite Hc. destruct (span d s') as [t r].
  simpl in *. unfold tokens. simpl. rewrite Hc, H1. simpl. rewrite H2. split; [done|]. lia.
Qed.

Lemma collect_ok fuel d : forall n arr s, (length s < fuel)%nat -> 0 <= n <= len arr ->
  collect fuel d n arr s =
    let ts := tokens d s in
    if n + len ts <? len arr then Ok (n + len ts, take (Z.to_nat n) arr ++ (Some <$> ts) ++ None :: drop (Z.to_nat (n + len ts + 1)) arr)
    else Fault OutOfBounds.
Proof.
  induction fuel as [|fuel IH]; intros n arr s Hf Hn; [lia|]. simpl. pose proof (strtok_tokens d s) as Ht.
  destruct (strtok d s) as [[t|] r].
  - destruct Ht as [-> Hr]. simpl. destruct (decide (n < len arr)) as [Hlt|].
    + rewrite arr_write_Ok, bind_ret_l by lia. rewrite IH by (rewrite ?length_zset; lia). simpl. rewrite length_zset.
      replace (n + 1 + len (tokens d r)) with (n + Z.of_nat (S (length (tokens d r)))) by lia. case_cond; [|done]. do 2 f_equal.
      rewrite (take_S_zget _ n (Some t)) by (apply zget_zset_eq; lia). unfold zset. destruct (Z.leb_spec 0 n); [|lia].
      rewrite take_insert_ge, drop_insert_lt by lia. rewrite <- (assoc_L (++)). csimpl. done.
    + rewrite arr_write_oob by lia. simpl. case_cond; [lia|done].
  - rewrite Ht. simpl. destruct (decide (n < len arr)) as [Hlt|].
    + rewrite arr_write_Ok, bind_ret_l by lia. rewrite Z.add_0_r. case_cond; [|lia]. do 2 f_equal.
      unfold zset. destruct (Z.leb_spec 0 n); [|lia]. rewrite insert_take_drop by lia. do 3 f_equal. lia.
    + rewrite arr_write_oob by lia. rewrite Z.add_0_r. case_cond; [lia|done].
Qed.

(** A line is split into exactly its non-empty pieces between bars, and a
    command into its non-empty pieces between blanks, followed by a [NULL], as
    long as there are less than 64 of them; with 64 or more the shell writes
    past the end of the array. *)
Theorem shell_splits (mem : list (option str)) (s : str) : len mem = MAX_ARGS ->
  split_commands mem s =
    (let ts := tokens BAR s in
     if len ts <? MAX_ARGS then Ok (len ts, (Some <$> ts) ++ None :: drop (Z.to_nat (len ts + 1)) mem) else Fault OutOfBounds) /\
  split_args mem s =
    (let ts := tokens BLANK s in
     if len ts <? MAX_ARGS then Ok (len ts, (Some <$> ts) ++ None :: drop (Z.to_nat (len ts + 1)) mem) else Fault OutOfBounds).
Proof.
  intros Hmem. unfold split_commands, split_args. rewrite !collect_ok by lia. rewrite Hmem. simpl. done.
Qed.

Lemma shell_splits_witness :
  exists n arr, split_commands (replicate 64 None) (["a"; "|"; "|"; "b"; " "]%char) = Ok (n, arr) /\ n = 2.
Proof.
  destruct (shell_splits (replicate 64 None) (["a"; "|"; "|"; "b"; " "]%char)) as [H _].
  - reflexivity.
  - rewrite H. eexists _, _. split; [reflexivity|reflexivity].
Defined.

(** ** Wiring *)

(** What [pipe] promises: two new descriptors. *)
Class PipeLaws (pipe : fds -> option (Z * Z)) : Prop := {
  pipe_fresh t r w : pipe t = Some (r, w) -> t !! r = None /\ t !! w = None /\ r <> w
}.

(** The child of command [i]: its input and output, and the read end [r] of the
    pipe it writes to, which it does not close. *)
Definition child_table (n i r : Z) (t : fds) : fds :=
  let t := if i =? 0 then t else <[STDIN_FILENO := PipeRead (i - 1)]> t in
  if i <? n - 1 then <[r := PipeRead i]> (<[STDOUT_FILENO := PipeWrite i]> t) else t.

(** The table of the shell between two commands. *)
Definition shell_table (i r : Z) (t : fds) : fds := if i =? 0 then t else <[r := PipeRead (i - 1)]> t.

Section wiring.
Context (pipe : fds -> option (Z * Z)) `{!PipeLaws pipe} (Hpipe : forall t, is_Some (pipe t)).
Context (t0 : fds) (Hin : is_Some (t0 !! STDIN_FILENO)) (Hout : is_Some (t0 !! STDOUT_FILENO)).

Record wired (n i : Z) (s : list fds * fds * (Z * Z) * Z) : Prop := {
  w_len : len s.1.1.1 = i;
  w_children k c : zget s.1.1.1 k = Some c -> exists r, t0 !! r = None /\ c = child_table n k r t0;
  w_shell : if i =? n then s.1.1.2 = t0
            else exists r, t0 !! r = None /\ s.1.1.2 = shell_table i r t0 /\ s.2 = (if i =? 0 then STDIN_FILENO else r)
}.

Lemma fresh_not_std r : t0 !! r = None -> r <> STDIN_FILENO /\ r <> STDOUT_FILENO.
Proof. intros Hr. split; intros ->; [destruct Hin|destruct Hout]; congruence. Qed.

(** Closing what was opened. *)
Lemma shell_closes i r : t0 !! r = None ->
  (if negb ((if i =? 0 then STDIN_FILENO else r) =? STDIN_FILENO) then close (shell_table i r t0) (if i =? 0 then STDIN_FILENO else r)
   else shell_table i r t0) = t0.
Proof.
  intros Hr. destruct (fresh_not_std r Hr) as [Hr0 _]. unfold shell_table. destruct (i =? 0); simpl; [done|].
  destruct (Z.eqb_spec r STDIN_FILENO); [done|]. simpl. unfold close. by apply delete_insert_id.
Qed.

(** The last child reads from the pipe and writes to the output of the shell. *)
Lemma last_child i r : t0 !! r = None ->
  execute_command (shell_table i r t0) (if i =? 0 then STDIN_FILENO else r) STDOUT_FILENO = child_table (i + 1) i r t0.
Proof.
  intros Hr. destruct (fresh_not_std r Hr) as [Hr0 Hr1]. unfold execute_command, shell_table, child_table.
  destruct (Z.ltb_spec i (i + 1 - 1)); [lia|]. destruct (i =? 0); simpl; [done|]. destruct (Z.eqb_spec r STDIN_FILENO); [done|]. simpl.
  unfold dup2, close. rewrite lookup_insert_eq. rewrite delete_insert_ne by done. by rewrite delete_insert_id.
Qed.

(** A child in the middle, with its own pipe. *)
Lemma middle_child n i r r' w : i < n - 1 -> t0 !! r = None -> t0 !! r' = None -> t0 !! w = None -> r' <> w ->
  ((i =? 0) = false -> r <> r' /\ r <> w) ->
  let t := <[w := PipeWrite i]> (<[r' := PipeRead i]> (shell_table i r t0)) in
  execute_command t (if i =? 0 then STDIN_FILENO else r) w = child_table n i r' t0 /\
  close (if negb ((if i =? 0 then STDIN_FILENO else r) =? STDIN_FILENO) then close t (if i =? 0 then STDIN_FILENO else r) else t) w =
    <[r' := PipeRead i]> t0.
Proof.
  intros Hi Hr Hr' Hw Hne Hrr. destruct (fresh_not_std r Hr) as [Hr0 Hr1]. destruct (fresh_not_std r' Hr') as [Hr0' Hr1'].
  destruct (fresh_not_std w Hw) as [Hw0 Hw1]. unfold execute_command, shell_table, child_table, close, dup2.
  destruct (Z.ltb_spec i (n - 1)); [|lia]. destruct (Z.eqb_spec w STDOUT_FILENO); [done|]. destruct (i =? 0); simpl.
  - split; apply map_eq; intros x; destruct (decide (x = w)), (decide (x = r')), (decide (x = STDOUT_FILENO)); subst; by simplify_map_eq.
  - destruct (Hrr eq_refl). destruct (Z.eqb_spec r STDIN_FILENO); [done|]. simpl.
    split; apply map_eq; intros x; destruct (decide (x = w)), (decide (x = r')), (decide (x = r)), (decide (x = STDOUT_FILENO)), (decide (x = STDIN_FILENO)); subst; by simplify_map_eq.
Qed.

Lemma children_snoc n i (cs : list fds) c : len cs = i ->
  (forall k c, zget cs k = Some c -> exists r, t0 !! r = None /\ c = child_table n k r t0) ->
  (exists r, t0 !! r = None /\ c = child_table n i r t0) ->
  forall k c', zget (cs ++ [c]) k = Some c' -> exists r, t0 !! r = None /\ c' = child_table n k r t0.
Proof.
  intros Hlen Hcs Hc k c' Hk. pose proof (zget_Some_range _ _ _ Hk) as Hr. rewrite length_app in Hr. simpl in Hr.
  unfold zget in *. destruct (Z.leb_spec 0 k); [|done]. destruct (decide (k = i)) as [->|].
  - rewrite lookup_app_r in Hk by lia. replace (Z.to_nat i - length cs)%nat with O in Hk by lia. by injection Hk as <-.
  - rewrite lookup_app_l in Hk by lia. apply Hcs. destruct (Z.leb_spec 0 k); [done|lia].
Qed.

Lemma run_command_ok n i s : 0 <= i < n -> wired n i s -> exists s', run_command pipe n i s = Ok s' /\ wired n (i + 1) s'.
Proof.
  intros Hi. destruct s as [[[cs t] pipes] input]. intros [Hlen Hcs Hsh]. simpl in *. destruct (Z.eqb_spec i n); [lia|].
  destruct Hsh as (r & Hr & -> & ->). unfold run_command. destruct (Z.ltb_spec i (n - 1)).
  - destruct (Hpipe (shell_table i r t0)) as [[r' w] Hp]. rewrite Hp, bind_ret_l. destruct (pipe_fresh _ _ _ Hp) as (Fr & Fw & Hne).
    assert (t0 !! r' = None /\ t0 !! w = None /\ ((i =? 0) = false -> r <> r' /\ r <> w)) as (Hr' & Hw & Hrr).
    { unfold shell_table in Fr, Fw. destruct (i =? 0); [done|]. apply lookup_insert_None in Fr as [? ?], Fw as [? ?]. done. }
    destruct (Z.eqb_spec i (n - 1)); [lia|]. destruct (fresh_not_std w Hw) as [_ Hw1]. simpl. destruct (Z.eqb_spec w STDOUT_FILENO); [done|]. simpl.
    destruct (middle_child n i r r' w) as [-> ->]; [done..|]. eexists. split; [done|]. split; simpl.
    + rewrite length_app. simpl. lia.
    + apply (children_snoc n i); [done|done|by exists r'].
    + destruct (Z.eqb_spec (i + 1) n); [lia|]. exists r'. split; [done|]. unfold shell_table. destruct (Z.eqb_spec (i + 1) 0); [lia|].
      by replace (i + 1 - 1) with i by lia.
  - assert (n = i + 1) as -> by lia. rewrite bind_ret_l. replace (i =? i + 1 - 1) with true by lia. rewrite (last_child i r Hr). simpl.
    rewrite (shell_closes i r Hr). eexists. split; [done|]. split; simpl.
    + rewrite length_app. simpl. lia.
    + apply (children_snoc _ i); [done|done|by exists r].
    + by rewrite Z.eqb_refl.
Qed.

Lemma run_pipeline_ok n garbage : 1 <= n -> exists cs pipes input,
  run_pipeline pipe n garbage t0 = Ok (cs, t0, pipes, input) /\ len cs = n /\
  forall k c, zget cs k = Some c -> exists r, t0 !! r = None /\ c = child_table n k r t0.
Proof.
  intros Hn. unfold run_pipeline. destruct (for_range_inv (fun i s => wired n i s) (Z.to_nat n) 0 (run_command pipe n) ([], t0, garbage, STDIN_FILENO))
    as ([[[cs t] pipes] input] & -> & [Hlen Hcs Hsh]).
  - split; cbn [fst snd]; [done|by intros k c; rewrite zget_nil|]. destruct (Z.eqb_spec 0 n); [lia|].
    destruct (Hpipe t0) as [[r w] Hp]. destruct (pipe_fresh _ _ _ Hp) as (Fr & _ & _). by exists r.
  - intros i s Hi Hs. apply run_command_ok; [lia|done].
  - simpl in *. replace (0 + Z.of_nat (Z.to_nat n)) with n in * by lia. rewrite Z.eqb_refl in Hsh. subst t. by exists cs, pipes, input.
Qed.
End wiring.

(** A pipeline of [n] commands is wired as written: the first command reads
    from the input of the shell and every other one from the pipe before it,
    the last one writes to the output of the shell and every other one to the
    pipe after it, and afterwards the shell has no pipe open.  A command that is
    not the last keeps the read end of the pipe it writes to. *)
Theorem pipeline_wired pipe n garbage (t0 : fds) :
  PipeLaws pipe -> (forall t, is_Some (pipe t)) -> is_Some (t0 !! STDIN_FILENO) -> is_Some (t0 !! STDOUT_FILENO) -> 1 <= n ->
  exists cs pipes input, run_pipeline pipe n garbage t0 = Ok (cs, t0, pipes, input) /\ len cs = n /\
    forall k c, zget cs k = Some c ->
      c !! STDIN_FILENO = (if k =? 0 then t0 !! STDIN_FILENO else Some (PipeRead (k - 1))) /\
      c !! STDOUT_FILENO = (if k =? n - 1 then t0 !! STDOUT_FILENO else Some (PipeWrite k)) /\
      (k < n - 1 -> exists r, r <> STDIN_FILENO /\ r <> STDOUT_FILENO /\ c !! r = Some (PipeRead k)).
Proof.
  intros Hl Hp Hin Hout Hn. destruct (run_pipeline_ok pipe Hp t0 Hin Hout n garbage Hn) as (cs & pipes & input & Hr & Hlen & Hcs).
  exists cs, pipes, input. split; [done|]. split; [done|]. intros k c Hk. pose proof (zget_Some_range _ _ _ Hk) as Hrg.
  destruct (Hcs k c Hk) as (r & Hr0 & ->). destruct (fresh_not_std t0 Hin Hout r Hr0) as [Hs0 Hs1]. unfold child_table.
  destruct (Z.eqb_spec k 0), (Z.ltb_spec k (n - 1)), (Z.eqb_spec k (n - 1)); try lia; (split; [by simplify_map_eq|]; split; [by simplify_map_eq|]);
    intros ?; try lia; exists r; by simplify_map_eq.
Qed.

(** The next two descriptors after the largest one in use. *)
Definition next_pipe (t : fds) : option (Z * Z) :=
  let m := foldr Z.max 1 (map_to_list t).*1 in Some (m + 1, m + 2).

Lemma next_pipe_laws : PipeLaws next_pipe.
Proof.
  constructor. intros t r w [= <- <-]. set (m := foldr Z.max 1 _). assert (forall x, m < x -> t !! x = None) as H.
  { intros x Hx. destruct (t !! x) as [e|] eqn:E; [exfalso|done]. apply elem_of_map_to_list in E.
    assert (x ∈ (map_to_list t).*1) as Hin by (apply list_elem_of_fmap; by exists (x, e)).
    unfold m in Hx. clear E m. induction (map_to_list t).*1 as [|y l IH]; [by apply not_elem_of_nil in Hin|].
    simpl in Hx. apply elem_of_cons in Hin as [->|Hin]; [lia|]. apply IH; [lia|done]. }
  split; [apply H; lia|]. split; [apply H; lia|lia].
Qed.

Lemma pipeline_wired_witness :
  exists cs pipes input, run_pipeline next_pipe 2 (0, 0) (<[0 := Terminal]> {[1 := Terminal]}) = Ok (cs, <[0 := Terminal]> {[1 := Terminal]}, pipes, input) /\ len cs = 2.
Proof.
  destruct (pipeline_wired next_pipe 2 (0, 0) (<[0 := Terminal]> {[1 := Terminal]})) as (cs & pipes & input & H1 & H2 & _).
  - exact next_pipe_laws.
  - intros t. by eexists.
  - by eexists.
  - by eexists.
  - lia.
  - exists cs, pipes, input. exact (conj H1 H2).
Defined.
