(* ===== verification/FileBuffers.v ===== *)
(** * Buffered output and a database file ([os/filesystem])

    [customBuffer.c] collects output and writes it in blocks;
    [databaseOperationWithMMAP.c] keeps records in a mapped file. *)
From Stdlib Require Import ZArith Lia.
From stdpp Require Import base tactics list numbers option.
From S2P Require Import Prelude.

#[local] Open Scope Z_scope.
#[local] Open Scope c_scope.

(** ** Output buffer ([customBuffer.c]) *)
Module OutBuffer.

Definition BUFFER_SIZE : Z := 1024.

Record CustomBuffer : Type := mkBuffer { buffer : list Z; size : Z; position : Z }.

(** The buffer, what was written to the descriptor, and the number of calls of
    [write]. *)
Record io : Type := mkIo { buf : CustomBuffer; written : list Z; calls : nat }.

(** [mem] is what [malloc] returned, [None] for [NULL]. *)
Definition create_buffer (mem : option (list Z)) : option CustomBuffer :=
  match mem with
  | None => None
  | Some mem => Some (mkBuffer mem BUFFER_SIZE 0)
  end.

Section device.
(** How many of [n] bytes the [k]-th call of [write] writes; [-1] is an error. *)
Context (write : nat -> Z -> Z).

Definition flush_buffer (s : io) : res (Z * io) :=
  let b := buf s in
  if position b =? 0 then Ok (0, s)
  else
    data ← copy_from (buffer b) 0 (Z.to_nat (position b));
    let n := write (calls s) (position b) in
    if n =? -1 then Ok (-1, mkIo b (written s) (S (calls s)))
    else Ok (0, mkIo (mkBuffer (buffer b) (size b) 0) (written s ++ take (Z.to_nat n) data) (S (calls s))).

Definition write_pass '((s, data) : io * list Z) : res (ctl (io * list Z) (Z * io)) :=
  if 0 <? len data then
    let b := buf s in
    let available := u64 (size b - position b) in
    let to_write := if len data <? available then len data else available in
    mem ← copy_to (buffer b) (position b) (take (Z.to_nat to_write) data);
    let b := mkBuffer mem (size b) (u64 (position b + to_write)) in
    let data := drop (Z.to_nat to_write) data in
    let s := mkIo b (written s) (calls s) in
    if position b =? size b then
      '(r, s) ← flush_buffer s;
      if r =? -1 then Ok (Return (-1, s)) else Ok (Next (s, data))
    else Ok (Next (s, data))
  else Ok (Return (0, s)).

(** Each pass stores a byte or empties a full buffer. *)
Definition write_to_buffer (s : io) (data : list Z) : res (Z * io) :=
  loop (2 * length data + 2) write_pass (s, data).

(** [message] is what [main] prints. *)
Definition buffer_main (mem : option (list Z)) (message : list Z) : res (Z * list Z) :=
  match create_buffer mem with
  | None => Ok (1, [])
  | Some b =>
      '(r, s) ← write_to_buffer (mkIo b [] 0) message;
      if r =? -1 then Ok (1, written s)
      else '(_, s) ← flush_buffer s; Ok (0, written s)
  end.
End device.

(** *** The stream *)

(** What was written and what is waiting. *)
Definition stream (s : io) : list Z := written s ++ take (Z.to_nat (position (buf s))) (buffer (buf s)).

Record buffer_ok (s : io) : Prop := {
  f_size : 0 < size (buf s) < INT_MAX;
  f_len : len (buffer (buf s)) = size (buf s);
  f_pos : 0 <= position (buf s) <= size (buf s)
}.

Definition full (s : io) : nat := if position (buf s) =? size (buf s) then 1%nat else 0%nat.

(** [write] writes all of it or fails. *)
Definition all_or_error (write : nat -> Z -> Z) : Prop := forall k n, write k n = n \/ write k n = -1.

Section faithful.
Context (write : nat -> Z -> Z) (Hwrite : all_or_error write).

Lemma flush_buffer_ok s : buffer_ok s -> exists r s', flush_buffer write s = Ok (r, s') /\ buffer_ok s' /\ stream s' = stream s /\
  size (buf s') = size (buf s) /\ ((r = 0 /\ position (buf s') = 0) \/ r = -1).
Proof.
  intros Hok. pose proof Hok as []. unfold flush_buffer. destruct (Z.eqb_spec (position (buf s)) 0) as [E|E].
  - exists 0, s. repeat (split; [done|]). by left.
  - rewrite copy_from_Ok, bind_ret_l by lia. destruct (Z.eqb_spec (write (calls s) (position (buf s))) (-1)) as [Ew|Ew].
    + eexists _, _. split; [done|]. split; [by constructor|]. repeat (split; [done|]). by right.
    + destruct (Hwrite (calls s) (position (buf s))) as [->|]; [|done]. eexists _, _. split; [done|].
      split; [constructor; simpl; lia|]. split; [|split; [done|by left]]. unfold stream. simpl.
      by rewrite app_nil_r, drop_0, take_take, Nat.min_id.
Qed.

(** One pass takes the next piece of the data. *)
Lemma write_pass_ok s0 data0 s data : buffer_ok s -> (exists k, stream s = s0 ++ take k data0 /\ data = drop k data0) ->
  exists c, write_pass write (s, data) = Ok c /\
    match c with
    | Next (s', data') => buffer_ok s' /\ (exists k, stream s' = s0 ++ take k data0 /\ data' = drop k data0) /\
        (2 * length data' + full s' < 2 * length data + full s)%nat
    | Return (r, s') => buffer_ok s' /\ (exists k, stream s' = s0 ++ take k data0 /\ ((r = 0 /\ drop k data0 = []) \/ r = -1))
    end.
Proof.
  intros Hok (k & Hst & ->). pose proof Hok as []. unfold write_pass. set (data := drop k data0).
  destruct (Z.ltb_spec 0 (len data)) as [Hd|Hd].
  2: { eexists. split; [done|]. split; [done|]. exists k. split; [done|]. left. split; [done|]. apply nil_length_inv. fold data. lia. }
  rewrite (u64_id (size (buf s) - position (buf s))) by (unfold UINT64, INT_MAX in *; lia).
  set (n := if len data <? size (buf s) - position (buf s) then len data else size (buf s) - position (buf s)).
  assert (0 <= n /\ n <= len data /\ position (buf s) + n <= size (buf s) /\ (n = 0 -> position (buf s) = size (buf s))) as (Hn0 & Hnd & Hns & Hnz)
    by (unfold n; destruct (Z.ltb_spec (len data) (size (buf s) - position (buf s))); lia).
  clearbody n. assert (len (take (Z.to_nat n) data) = n) as Hlt by (rewrite length_take; lia).
  rewrite copy_to_Ok, bind_ret_l by lia. rewrite (u64_id (position (buf s) + n)) by (unfold UINT64, INT_MAX in *; lia).
  set (mem := take (Z.to_nat (position (buf s))) (buffer (buf s)) ++ _). set (s1 := mkIo _ _ _).
  assert (buffer_ok s1) as Hok1.
  { constructor; simpl; [done| |lia]. unfold mem. rewrite !length_app, length_take, length_drop. lia. }
  assert (stream s1 = s0 ++ take (k + Z.to_nat n) data0) as Hst1.
  { unfold stream in *. simpl. unfold mem. rewrite (app_assoc (take _ (buffer (buf s)))).
    rewrite take_app_length' by (rewrite length_app, length_take; lia). rewrite app_assoc, Hst, <- app_assoc. f_equal. apply take_take_drop. }
  assert (drop (Z.to_nat n) data = drop (k + Z.to_nat n) data0) as Hdrop by (unfold data; apply drop_drop).
  assert (length (drop (Z.to_nat n) data) = (length data - Z.to_nat n)%nat) as Hld by apply length_drop.
  cbn [position size].
  destruct (Z.eqb_spec (position (buf s) + n) (size (buf s))) as [Ef|Ef].
  - destruct (flush_buffer_ok s1 Hok1) as (r & s2 & -> & Hok2 & Hst2 & Hsz2 & Hr). rewrite bind_ret_l. rewrite Hst1 in Hst2.
    destruct Hr as [[-> Hp2]| ->]; (eexists; split; [reflexivity|]); (split; [done|]).
    + split; [eexists; by split|]. unfold full. rewrite Hp2, Hsz2. destruct (Z.eqb_spec 0 (size (buf s1))); [simpl in *; lia|].
      destruct (Z.eqb_spec (position (buf s)) (size (buf s))); lia.
    + eexists. split; [done|by right].
  - eexists. split; [reflexivity|]. split; [done|]. split; [eexists; by split|]. unfold full. simpl. destruct (Z.eqb_spec (position (buf s) + n) (size (buf s))); [done|].
    destruct (Z.eqb_spec (position (buf s)) (size (buf s))); lia.
Qed.

Lemma write_to_buffer_ok s data : buffer_ok s ->
  exists r s' k, write_to_buffer write s data = Ok (r, s') /\ buffer_ok s' /\ stream s' = stream s ++ take k data /\
    ((r = 0 /\ take k data = data) \/ r = -1).
Proof.
  intros Hok. unfold write_to_buffer.
  destruct (loop_total (fun '(s', d) => buffer_ok s' /\ exists k, stream s' = stream s ++ take k data /\ d = drop k data)
    (fun '(r, s') => buffer_ok s' /\ exists k, stream s' = stream s ++ take k data /\ ((r = 0 /\ drop k data = []) \/ r = -1))
    (fun '(s', d) => 2 * length d + full s')%nat (write_pass write))
    with (fuel := (2 * length data + 2)%nat) (s := (s, data)) as ([r s'] & Hl & Hok' & k & Hst & Hr).
  - intros [s' d] [Hok' Hk]. destruct (write_pass_ok (stream s) data s' d Hok' Hk) as (c & Hc & Hpost). exists c. split; [done|].
    destruct c as [[s2 d2]|[r s2]]; [|done]. destruct Hpost as (? & ? & ?). done.
  - split; [done|]. exists O. by rewrite app_nil_r.
  - unfold full. destruct (position (buf s) =? size (buf s)); lia.
  - exists r, s', k. split; [done|]. split; [done|]. split; [done|]. destruct Hr as [[-> Hd]| ->]; [left|by right]. split; [done|].
    rewrite <- (take_drop k data) at 2. by rewrite Hd, app_nil_r.
Qed.
End faithful.

(** With a device that writes all or reports an error, the buffer loses and
    reorders nothing: [write_to_buffer] always returns, what was written and
    what still waits in the buffer are the earlier bytes followed by the new
    ones, all of them if it returns 0 and the first of them if it returns -1, and
    [flush_buffer] leaves the stream as it is and, if it succeeds, the buffer
    empty. *)
Theorem buffered_stream_faithful write s data : all_or_error write -> buffer_ok s ->
  (exists r s' k, write_to_buffer write s data = Ok (r, s') /\ buffer_ok s' /\ stream s' = stream s ++ take k data /\
     ((r = 0 /\ take k data = data) \/ r = -1)) /\
  (exists r s', flush_buffer write s = Ok (r, s') /\ stream s' = stream s /\ ((r = 0 /\ written s' = stream s) \/ r = -1)).
Proof.
  intros Hw Hok. split; [by apply write_to_buffer_ok|].
  destruct (flush_buffer_ok write Hw s Hok) as (r & s' & Hf & _ & Hst & _ & Hr). exists r, s'. split; [done|]. split; [done|].
  destruct Hr as [[-> Hp]| ->]; [left|by right]. split; [done|]. rewrite <- Hst. unfold stream. rewrite Hp. simpl. by rewrite app_nil_r.
Qed.

Lemma buffered_stream_faithful_witness :
  exists r s' k, write_to_buffer (fun _ n => n) (mkIo (mkBuffer [0; 0] 2 0) [] 0) [7; 8; 9] = Ok (r, s') /\
    stream s' = stream (mkIo (mkBuffer [0; 0] 2 0) [] 0) ++ take k [7; 8; 9].
Proof.
  destruct (buffered_stream_faithful (fun _ n => n) (mkIo (mkBuffer [0; 0] 2 0) [] 0) [7; 8; 9]) as [(r & s' & k & H1 & _ & H3 & _) _].
  - intros k n. by left.
  - constructor; simpl; unfold INT_MAX; lia.
  - exists r, s', k. exact (conj H1 H3).
Defined.

(** A short count from [write] is taken for success: the rest is lost. *)
Lemma short_write_loses : exists s', flush_buffer (fun _ n => n - 1) (mkIo (mkBuffer [7; 8] 2 2) [] 0) = Ok (0, s') /\
  written s' = [7] /\ position (buf s') = 0.
Proof. eexists. split; [reflexivity|]. done. Qed.
End OutBuffer.

(** ** Records in a mapped file ([databaseOperationWithMMAP.c]) *)
Module Database.

Definition MAX_RECORDS : Z := 100.

(** [name] is the array of 50 characters. *)
Record Record_ : Type := mkRecord { id : Z; name : list Z }.

Record Database : Type := mkDb { record_count : Z; records : list Record_ }.

Definition insert_record (db : Database) (i : Z) (s : list Z) : res (Z * Database) :=
  if MAX_RECORDS <=? record_count db then Ok (0, db)
  else
    rs ← (records db).[record_count db <- mkRecord i (stored_name s)];
    n ← iadd (record_count db) 1;
    Ok (1, mkDb n rs).

(** The index of the record, or [None]. *)
Definition find_record (db : Database) (i : Z) : res (option Z) :=
  r ← for_ctl (Z.to_nat (record_count db)) 0 (fun k (_ : unit) =>
        rc ← (records db).[k];
        if id rc =? i then Ok (Return k) else Ok (Next tt)) tt;
  Ok match r with Return k => Some k | Next _ => None end.

(** [main] on a mapped file: what it finds for 2, and the file afterwards. *)
Definition db_main (db : Database) (alice bob charlie : list Z) : res (option Z * Database) :=
  '(_, db) ← insert_record db 1 alice;
  '(_, db) ← insert_record db 2 bob;
  '(_, db) ← insert_record db 3 charlie;
  r ← find_record db 2;
  Ok (r, db).

(** A new file: zeros. *)
Definition empty_file : Database := mkDb 0 (replicate 100 (mkRecord 0 (replicate 50 0))).

(** *** The file as a list of records *)

Definition contents (db : Database) : list Record_ := take (Z.to_nat (record_count db)) (records db).

Record db_ok (db : Database) : Prop := {
  d_count : 0 <= record_count db <= MAX_RECORDS;
  d_len : len (records db) = MAX_RECORDS
}.

Lemma length_records db : db_ok db -> len (contents db) = record_count db.
Proof. intros []. unfold contents. rewrite length_take. lia. Qed.

Lemma zget_contents db k : db_ok db -> 0 <= k < record_count db -> zget (records db) k = zget (contents db) k.
Proof.
  intros [] Hk. unfold contents, zget. destruct (Z.leb_spec 0 k); [|done]. by rewrite lookup_take_lt by lia.
Qed.

Lemma insert_record_ok db i s : db_ok db ->
  if len (contents db) <? MAX_RECORDS then
    exists db', insert_record db i s = Ok (1, db') /\ db_ok db' /\ contents db' = contents db ++ [mkRecord i (stored_name s)]
  else insert_record db i s = Ok (0, db).
Proof.
  intros Hok. rewrite (length_records db Hok). destruct Hok as [Hc Hl]. unfold insert_record, MAX_RECORDS in *.
  destruct (Z.ltb_spec (record_count db) 100), (Z.leb_spec 100 (record_count db)); try lia; [|done].
  rewrite arr_write_Ok, bind_ret_l by lia. rewrite iadd_Ok, bind_ret_l by (unfold INT_MIN, INT_MAX; lia).
  eexists. split; [done|]. split; [constructor; simpl; rewrite ?length_zset; unfold MAX_RECORDS; lia|].
  unfold contents. simpl. rewrite (take_S_zget _ _ (mkRecord i (stored_name s))) by (apply zget_zset_eq; lia). f_equal.
  unfold zset. destruct (Z.leb_spec 0 (record_count db)); [|lia]. by rewrite take_insert_ge by lia.
Qed.

Lemma find_record_ok db i : db_ok db -> find_record db i = Ok (find_index (fun r => id r =? i) (contents db)).
Proof.
  intros Hok. pose proof (length_records db Hok) as Hlen. pose proof Hok as [Hc Hl]. unfold find_record.
  destruct (for_ctl_inv (fun k (_ : unit) => forall j r, 0 <= j < k -> zget (contents db) j = Some r -> (id r =? i) = false)
    (fun k => find_index (fun r => id r =? i) (contents db) = Some k) (Z.to_nat (record_count db)) 0
    (fun k (_ : unit) => rc ← (records db).[k]; if id rc =? i then Ok (Return k) else Ok (Next tt)) tt) as (c & -> & Hc').
  - intros j r Hj. lia.
  - intros k [] Hk Hno. destruct (zget_range (contents db) k) as [r Hr]; [lia|]. pose proof Hr as Hr'. rewrite <- zget_contents in Hr' by (done || lia).
    erewrite arr_read_Ok, bind_ret_l by done. destruct (id r =? i) eqn:E; eexists; (split; [done|]).
    + apply find_index_Some. exists r. split; [done|]. split; [done|]. intros j y Hj Hy. by apply (Hno j).
    + intros j y Hj Hy. destruct (decide (j = k)) as [->|]; [congruence|]. apply (Hno j); [lia|done].
  - rewrite bind_ret_l. destruct c as [[]|k]; [|by rewrite Hc']. f_equal. symmetry. apply find_index_None.
    intros j r Hr. pose proof (zget_Some_range _ _ _ Hr). apply (Hc' j); [lia|done].
Qed.

(** On a well-formed file the operations are those of a list of at most 100
    records: [insert_record] appends one with the name cut to 49 characters and
    refuses when the list is full, leaving the file as it was, and
    [find_record] returns the first record with the number. *)
Theorem database_refines_list db i s : db_ok db -> Forall (fun c => c <> 0) s ->
  (if len (contents db) <? MAX_RECORDS then
     exists db', insert_record db i s = Ok (1, db') /\ db_ok db' /\ contents db' = contents db ++ [mkRecord i (stored_name s)]
   else insert_record db i s = Ok (0, db)) /\
  c_string (stored_name s) = take 49 s /\
  find_record db i = Ok (find_index (fun r => id r =? i) (contents db)).
Proof.
  intros Hok Hs. split; [by apply insert_record_ok|]. split; [by apply stored_name_string|by apply find_record_ok].
Qed.

Lemma database_refines_list_witness :
  (exists db', insert_record empty_file 1 [65; 66] = Ok (1, db') /\ contents db' = [mkRecord 1 (stored_name [65; 66])]) /\
  find_record empty_file 1 = Ok None.
Proof.
  destruct (database_refines_list empty_file 1 [65; 66]) as (H1 & _ & H3).
  - constructor; [unfold MAX_RECORDS; simpl; lia|reflexivity].
  - repeat constructor; discriminate.
  - split; [|exact H3]. destruct H1 as (db' & Hi & _ & Hc). exists db'. exact (conj Hi Hc).
Defined.

Lemma db_main_ok alice bob charlie : exists db, db_main empty_file alice bob charlie = Ok (Some 1, db) /\ record_count db = 3.
Proof. eexists. split; vm_compute; reflexivity. Qed.

(** A count read from a damaged file leads past the records. *)
Lemma damaged_count_out_of_bounds : find_record (mkDb 101 (records empty_file)) 7 = Fault OutOfBounds.
Proof. vm_compute. reflexivity. Qed.
End Database.
