(* ===== verification/Packets.v ===== *)
(** * Instruction bytes and packets ([unix/decode.c], [os/kernel/network_stack.c])

    The decoder of x86 instruction prefixes, and the layers of the network stack
    that process data. *)
From Stdlib Require Import ZArith Lia.
From stdpp Require Import base tactics list numbers option.
From S2P Require Import Prelude.

#[local] Open Scope Z_scope.
#[local] Open Scope c_scope.

(** ** Decoder ([decode.c]) *)
Module Decode.

Record x86_instruction : Type := mkInst {
  has_rex : Z;
  rex_w : Z;
  rex_r : Z;
  rex_x : Z;
  rex_b : Z;
  modrm : Z;
  sib : Z;
  opcode : Z
}.

Definition decode_instruction (bytes : list Z) (length : Z) (inst : x86_instruction) : res x86_instruction :=
  b ← bytes.[0];
  let '(inst, index) :=
    if Z.land b 240 =? 64 then
      (mkInst 1 (Z.shiftr (Z.land b 8) 3) (Z.shiftr (Z.land b 4) 2) (Z.shiftr (Z.land b 2) 1) (Z.land b 1)
         (modrm inst) (sib inst) (opcode inst), 1)
    else (inst, 0) in
  op ← bytes.[index];
  let inst := mkInst (has_rex inst) (rex_w inst) (rex_r inst) (rex_x inst) (rex_b inst) (modrm inst) (sib inst) op in
  let index := index + 1 in
  if index <? length then
    m ← bytes.[index];
    let index := index + 1 in
    let inst := mkInst (has_rex inst) (rex_w inst) (rex_r inst) (rex_x inst) (rex_b inst) m (sib inst) (opcode inst) in
    let mod_ := Z.land (Z.shiftr m 6) 3 in
    let rm := Z.land m 7 in
    if negb (mod_ =? 3) && (rm =? 4) then
      s ← bytes.[index];
      Ok (mkInst (has_rex inst) (rex_w inst) (rex_r inst) (rex_x inst) (rex_b inst) m s (opcode inst))
    else Ok inst
  else Ok inst.

Definition zero_inst : x86_instruction := mkInst 0 0 0 0 0 0 0 0.

(** 0x48 0x89 0xC8 *)
Definition decode_main : res x86_instruction := decode_instruction [72; 137; 200] 3 zero_inst.

(** *** Encoding *)

(** An instruction as it is put together: the bits of a prefix, if there is one,
    the opcode, and a ModRM byte with the SIB byte it asks for. *)
Record parts : Type := mkParts {
  rex : option (bool * bool * bool * bool);
  op : Z;
  rm_byte : option (Z * Z)
}.

Definition needs_sib (m : Z) : bool := negb (Z.land (Z.shiftr m 6) 3 =? 3) && (Z.land m 7 =? 4).

Definition encode (p : parts) : list Z :=
  match rex p with
  | Some (w, r, x, b) => [64 + 8 * Z.b2z w + 4 * Z.b2z r + 2 * Z.b2z x + Z.b2z b]
  | None => []
  end ++ [op p] ++
  match rm_byte p with
  | Some (m, s) => if needs_sib m then [m; s] else [m]
  | None => []
  end.

Definition decoded (p : parts) : x86_instruction :=
  let '(h, (w, r, x, b)) := match rex p with Some f => (1, f) | None => (0, (false, false, false, false)) end in
  let '(m, s) := match rm_byte p with Some (m, s) => (m, if needs_sib m then s else 0) | None => (0, 0) end in
  mkInst h (Z.b2z w) (Z.b2z r) (Z.b2z x) (Z.b2z b) m s (op p).

(** Decoding the bytes of an instruction gives back its parts: the bits of
    the prefix, the opcode, the ModRM byte and the SIB byte exactly when the
    ModRM byte asks for one. *)
Theorem decode_instruction_encode p : (rex p = None -> Z.land (op p) 240 <> 64) ->
  decode_instruction (encode p) (len (encode p)) zero_inst = Ok (decoded p).
Proof.
  intros Hop. unfold decode_instruction, encode, decoded. destruct p as [[[[[w r] x] b]|] o rmb]; simpl in *.
  - destruct rmb as [[m s]|]; [destruct (needs_sib m) eqn:E|]; destruct w, r, x, b; unfold arr_read, zget; simpl; try done;
      unfold needs_sib in E; by rewrite E.
  - specialize (Hop eq_refl). destruct rmb as [[m s]|]; [destruct (needs_sib m) eqn:E|]; unfold arr_read, zget; simpl;
      (destruct (Z.eqb_spec (Z.land o 240) 64); [done|]); simpl; try done; unfold needs_sib in E; by rewrite E.
Qed.

Lemma decode_instruction_encode_witness :
  decode_instruction (encode (mkParts None 139 (Some (4, 37)))) 3 zero_inst = Ok (mkInst 0 0 0 0 0 4 37 139).
Proof. apply (decode_instruction_encode (mkParts None 139 (Some (4, 37)))). discriminate. Defined.

(** The SIB byte, and an opcode after a prefix, are read without a look at the
    length. *)
Lemma decode_past_end :
  decode_instruction [139; 4] 2 zero_inst = Fault OutOfBounds /\ decode_instruction [72] 1 zero_inst = Fault OutOfBounds.
Proof. done. Qed.
End Decode.

(** ** Network stack ([network_stack.c]) *)
Module Stack.

Record application_layer : Type := mkApp { buffer : list Z; buf_len : Z }.
Record transport_layer : Type := mkTransport { src_port : Z; dst_port : Z; seq_num : Z; ack_num : Z; checksum : Z }.
Record network_layer : Type := mkNetwork { src_ip : Z; dst_ip : Z; protocol : Z; ttl : Z }.
Record link_layer : Type := mkLink { src_mac : list Z; dst_mac : list Z; ethertype : Z }.

(** [strncpy] of a string into the first [n] places of an array. *)
Definition strncpy (dst src : list Z) (n : nat) : res (list Z) :=
  copy_to dst 0 (take n src ++ replicate (n - length (take n src)) 0).

(** [data] is a string: the characters before its terminator. *)
Definition process_application_layer (app : application_layer) (data : list Z) : res application_layer :=
  b ← strncpy (buffer app) data 1023;
  Ok (mkApp b (len data)).

Definition process_transport_layer (app : application_layer) : res transport_layer :=
  sum ← for_range (Z.to_nat (buf_len app)) 0 (fun i sum => c ← (buffer app).[i]; Ok (u16 (sum + c))) 0;
  Ok (mkTransport 12345 80 1000 0 sum).

(** The arguments are the results of [inet_addr]. *)
Definition process_network_layer (src dst : Z) : network_layer := mkNetwork src dst 6 64.

(** [ETH_P_IP] is 0x0800. *)
Definition process_link_layer : link_layer := mkLink [0; 17; 34; 51; 68; 85] (replicate 6 255) 2048.

Definition stack_main (src dst : Z) (user_data : list Z) : res (transport_layer * network_layer * link_layer) :=
  app ← process_application_layer (mkApp (replicate 1024 0) 0) user_data;
  t ← process_transport_layer app;
  Ok (t, process_network_layer src dst, process_link_layer).

Lemma checksum_loop b n : (n <= length b)%nat ->
  for_range n 0 (fun i sum => c ← b.[i]; Ok (u16 (sum + c))) 0 = Ok (u16 (total (fun c => c) (take n b))).
Proof.
  intros Hn. destruct (for_range_inv (fun i sum => sum = u16 (total (fun c => c) (take (Z.to_nat i) b))) n 0
    (fun i sum => c ← b.[i]; Ok (u16 (sum + c))) 0) as (s & -> & ->).
  - done.
  - intros i sum Hi ->. destruct (zget_range b i) as [c Hc]; [lia|]. erewrite arr_read_Ok, bind_ret_l by done. eexists. split; [done|].
    rewrite (take_S_zget _ _ _ Hc), field_total_app. simpl. rewrite Z.add_0_r. unfold u16. by rewrite Zplus_mod_idemp_l.
  - by rewrite Z.add_0_l, Nat2Z.id.
Qed.

Lemma stored_data n data : strncpy (replicate (S n) 0) data n = Ok (take n data ++ replicate (S n - length (take n data)) 0).
Proof.
  unfold strncpy. assert (length (take n data) <= n)%nat as Hl by (rewrite length_take; lia).
  rewrite copy_to_Ok; [|lia|rewrite length_app, !length_replicate; lia]. f_equal. rewrite length_app, length_replicate.
  change (take (Z.to_nat 0) (replicate (S n) 0)) with (@nil Z). change (Z.to_nat 0) with O. rewrite app_nil_l, <- app_assoc. f_equal.
  rewrite drop_replicate, <- replicate_add. f_equal. lia.
Qed.

Lemma total_zeros n : total (fun c : Z => c) (replicate n 0) = 0.
Proof. induction n; simpl; lia. Qed.

(** The checksum of the transport layer is that of the data if the data is
    shorter than the buffer; one character more is not counted, and with longer
    data the sum runs past the end of the buffer. *)
Theorem stack_checksum src dst data :
  (len data <= 1024 -> exists t, stack_main src dst data = Ok (t, process_network_layer src dst, process_link_layer) /\
     checksum t = u16 (total (fun c => c) (take 1023 data))) /\
  (1024 < len data -> stack_main src dst data = Fault OutOfBounds).
Proof.
  unfold stack_main, process_application_layer. cbn [buffer]. rewrite (stored_data 1023 data), !bind_ret_l.
  unfold process_transport_layer. cbn [buffer buf_len]. set (b := take 1023 data ++ _). rewrite Nat2Z.id.
  assert (length b = 1024)%nat as Hb by (unfold b; rewrite length_app, length_replicate, length_take; lia).
  split; intros Hd.
  - rewrite checksum_loop, !bind_ret_l by lia. eexists. split; [done|]. cbn [checksum]. f_equal. unfold b. rewrite take_app, field_total_app.
    rewrite take_replicate, total_zeros, Z.add_0_r.
    f_equal. apply take_ge. rewrite length_take. lia.
  - assert (forall m i (s : Z), 0 <= i <= 1024 -> 1024 < i + Z.of_nat m -> for_range m i (fun i sum => c ← b.[i]; Ok (u16 (sum + c))) s = Fault OutOfBounds) as Hf.
    { induction m as [|m IH]; intros i s Hi Hm; [lia|]. rewrite for_range_S. destruct (decide (i = 1024)) as [->|].
      - rewrite arr_read_oob; [done|lia].
      - destruct (zget_range b i) as [c Hc]; [lia|]. erewrite arr_read_Ok, !bind_ret_l by done. apply IH; lia. }
    by rewrite Hf by lia.
Qed.

Lemma stack_checksum_witness :
  exists t, stack_main 1 2 [72; 105] = Ok (t, process_network_layer 1 2, process_link_layer) /\ checksum t = 177.
Proof.
  destruct (stack_checksum 1 2 [72; 105]) as [H _]. destruct H as (t & Ht & Hc); [simpl; lia|]. exists t. split; [exact Ht|]. rewrite Hc. reflexivity.
Defined.
End Stack.
