(* ===== verification/Dram.v ===== *)
(** * DRAM ([accessPatterns])

    [DRAMtiming.c] and [SimulatingDRAMTiming.c] count the cycles of accesses to
    banks with an open row, [addressTranslation.c] splits addresses into bank,
    row and column, [cpuDataProcess.c] translates addresses with a page table and
    reads and writes cells through the registers MAR and MDR. *)
From Stdlib Require Import ZArith Lia.
From stdpp Require Import base tactics list numbers option.
From S2P Require Import Prelude.

#[local] Open Scope Z_scope.
#[local] Open Scope c_scope.

(** ** Row activation timing ([DRAMtiming.c]) *)
Module Timing.

Definition NUM_BANKS : Z := 8.
Definition tCAS : Z := 14.
Definition tRAS : Z := 32.
Definition tRP : Z := 14.
Definition tRCD : Z := 14.

(** The data arrays of a bank are never accessed. *)
Record DRAMBank : Type := mkBank { active_row : Z; is_row_active : bool; last_activation_cycle : Z }.

Record DRAMChip : Type := mkChip { banks : list DRAMBank; current_cycle : Z }.

Definition access_dram (chip : DRAMChip) (bank row column : Z) : res (Z * DRAMChip) :=
  b ← (banks chip).[bank];
  '(cycles, b) ← (if negb (is_row_active b) || negb (active_row b =? row) then
      cycles ← (if is_row_active b then
          since ← isub (current_cycle chip) (last_activation_cycle b);
          c ← (if since <? tRAS then isub tRAS since else Ok 0);
          iadd c tRP
        else Ok 0);
      cycles ← iadd cycles tRCD;
      last ← iadd (current_cycle chip) cycles;
      Ok (cycles, mkBank row true last)
    else Ok (0, b));
  bs ← (banks chip).[bank <- b];
  cycles ← iadd cycles tCAS;
  now ← iadd (current_cycle chip) cycles;
  Ok (cycles, mkChip bs now).

(** Accesses (bank, row, column) one after the other, with their costs. *)
Fixpoint access_all (chip : DRAMChip) (l : list (Z * Z * Z)) : res (list Z * DRAMChip) :=
  match l with
  | [] => Ok ([], chip)
  | (b, r, c) :: l =>
      '(n, chip) ← access_dram chip b r c;
      '(ns, chip) ← access_all chip l;
      Ok (n :: ns, chip)
  end.

Definition chip0 : DRAMChip := mkChip (replicate (Z.to_nat NUM_BANKS) (mkBank 0 false 0)) 0.

Definition timing_main : res (list Z * DRAMChip) := access_all chip0 [(0, 0, 0); (0, 0, 1); (0, 1, 0); (1, 0, 0)].

Lemma timing_main_costs : exists chip, timing_main = Ok ([28; 14; 46; 28], chip).
Proof. eexists. vm_compute. reflexivity. Qed.

(** *** The constraints *)

(** The last activation of an open bank is over. *)
Definition chip_ok (chip : DRAMChip) : Prop :=
  len (banks chip) = NUM_BANKS /\ 0 <= current_cycle chip /\
  Forall (fun b => 0 <= last_activation_cycle b /\ (is_row_active b = true -> last_activation_cycle b + tCAS <= current_cycle chip)) (banks chip).

(** What an access may do to the bank: nothing but a column access to the open
    row; or an activation, after the open row was kept for [tRAS] and a precharge
    of [tRP]. *)
Definition timed (chip chip' : DRAMChip) (bank row n : Z) : Prop :=
  exists b b', zget (banks chip) bank = Some b /\ zget (banks chip') bank = Some b' /\
    current_cycle chip' = current_cycle chip + n /\ active_row b' = row /\ is_row_active b' = true /\
    (forall k, k <> bank -> zget (banks chip') k = zget (banks chip) k) /\
    if is_row_active b && (active_row b =? row) then b' = b /\ n = tCAS
    else last_activation_cycle b' + tCAS = current_cycle chip' /\
      current_cycle chip + tRCD <= last_activation_cycle b' /\
      (is_row_active b = true -> last_activation_cycle b + tRAS + tRP + tRCD <= last_activation_cycle b').

(** The cycles until the row is open: none, [tRCD], or also the rest of [tRAS] and
    [tRP]. *)
Definition activation (now : Z) (b : DRAMBank) (row : Z) : Z :=
  if is_row_active b then
    if active_row b =? row then 0
    else Z.max 0 (tRAS - (now - last_activation_cycle b)) + tRP + tRCD
  else tRCD.

Definition opened (now : Z) (b : DRAMBank) (row : Z) : DRAMBank :=
  if is_row_active b && (active_row b =? row) then b else mkBank row true (now + activation now b row).

Lemma activation_range now b row : (is_row_active b = true -> last_activation_cycle b + tCAS <= now) -> 0 <= activation now b row <= 46.
Proof. unfold activation, tCAS, tRAS, tRP, tRCD. intros H. destruct (is_row_active b); [specialize (H eq_refl)|]; repeat case_cond; lia. Qed.

Lemma access_dram_eq chip bank row column b :
  zget (banks chip) bank = Some b -> 0 <= current_cycle chip -> current_cycle chip + 60 <= INT_MAX -> 0 <= last_activation_cycle b ->
  (is_row_active b = true -> last_activation_cycle b + tCAS <= current_cycle chip) ->
  access_dram chip bank row column = Ok (activation (current_cycle chip) b row + tCAS,
    mkChip (zset (banks chip) bank (opened (current_cycle chip) b row)) (current_cycle chip + (activation (current_cycle chip) b row + tCAS))).
Proof.
  intros Hb Hc Hmax Hl0 Hl. pose proof (activation_range _ b row Hl) as Hr. pose proof (zget_Some_range _ _ _ Hb) as Hrange.
  set (k := activation (current_cycle chip) b row) in *. unfold access_dram. c_step. rewrite bind_ret_l.
  assert ((if negb (is_row_active b) || negb (active_row b =? row) then
      cycles ← (if is_row_active b then
          since ← isub (current_cycle chip) (last_activation_cycle b);
          c ← (if since <? tRAS then isub tRAS since else Ok 0);
          iadd c tRP
        else Ok 0);
      cycles ← iadd cycles tRCD;
      last ← iadd (current_cycle chip) cycles;
      Ok (cycles, mkBank row true last)
    else Ok (0, b)) = Ok (k, opened (current_cycle chip) b row)) as ->.
  { unfold opened. fold k. unfold activation, tCAS, tRAS, tRP, tRCD in *. destruct (is_row_active b) eqn:Ha; simpl.
    - specialize (Hl eq_refl). destruct (active_row b =? row) eqn:Hrow; simpl; [done|].
      rewrite isub_Ok, bind_ret_l by int_side. case_cond.
      + rewrite isub_Ok, bind_ret_l by int_side. rewrite iadd_Ok, bind_ret_l by int_side. c_steps. repeat f_equal; lia.
      + rewrite bind_ret_l, iadd_Ok, bind_ret_l by int_side. c_steps. repeat f_equal; lia.
    - c_steps. done. }
  unfold tCAS in *. c_steps. done.
Qed.

Lemma access_dram_ok chip bank row column : chip_ok chip -> 0 <= bank < NUM_BANKS -> current_cycle chip + 60 <= INT_MAX ->
  exists n chip', access_dram chip bank row column = Ok (n, chip') /\ chip_ok chip' /\ tCAS <= n <= 60 /\ timed chip chip' bank row n.
Proof.
  intros (Hlen & Hc & Hall) Hb Hmax. destruct (zget_range (banks chip) bank) as [b Hzb]; [unfold NUM_BANKS in *; lia|].
  pose proof (Forall_zget _ _ _ _ Hall Hzb) as [Hl0 Hl]. pose proof (activation_range _ b row Hl) as Hr.
  eexists _, _. split; [by apply access_dram_eq|]. set (now := current_cycle chip) in *.
  split; [|split; [unfold tCAS; lia|]].
  - split; [simpl; by rewrite length_zset|]. split; [simpl; unfold tCAS; lia|]. simpl. apply Forall_zset.
    + eapply list.Forall_impl; [exact Hall|]. simpl. intros x [? Hx]. split; [done|]. intros Ha%Hx. unfold tCAS in *. lia.
    + unfold opened. destruct (is_row_active b && (active_row b =? row)); simpl; [|lia]. split; [done|]. intros Ha%Hl. unfold tCAS in *. lia.
  - eexists b, _. split; [done|]. simpl. rewrite zget_zset_eq by (unfold NUM_BANKS in *; lia). split; [done|]. split; [done|].
    assert (active_row (opened now b row) = row /\ is_row_active (opened now b row) = true) as [H1 H2].
    { unfold opened. destruct (is_row_active b) eqn:Ha; simpl; [|done]. destruct (Z.eqb_spec (active_row b) row); done. }
    split; [done|]. split; [done|]. split; [by intros k Hk; apply zget_zset_ne|].
    unfold opened, activation, tCAS, tRAS, tRP, tRCD in *. destruct (is_row_active b) eqn:Ha; simpl in *; [|lia].
    destruct (Z.eqb_spec (active_row b) row); simpl; [split; [done|lia]|]. lia.
Qed.

Fixpoint timed_run (chip : DRAMChip) (l : list (Z * Z * Z)) (ns : list Z) (chip' : DRAMChip) : Prop :=
  match l, ns with
  | [], [] => chip' = chip
  | (b, r, _) :: l, n :: ns => exists chip1, timed chip chip1 b r n /\ timed_run chip1 l ns chip'
  | _, _ => False
  end.

Lemma timed_all_ok l chip : chip_ok chip -> Forall (fun a => 0 <= a.1.1 < NUM_BANKS) l -> current_cycle chip + 60 * len l <= INT_MAX ->
  exists ns chip', access_all chip l = Ok (ns, chip') /\ Forall (fun n => tCAS <= n <= 60) ns /\ timed_run chip l ns chip'.
Proof.
  revert chip. induction l as [|[[b r] c] l IH]; intros chip Hok Hl Hmax; simpl.
  - by exists [], chip.
  - apply list.Forall_cons in Hl as [Hb Hl]. simpl in Hb, Hmax.
    destruct (access_dram_ok chip b r c) as (n & chip1 & -> & Hok1 & Hn & Ht); [done|done|lia|]. rewrite bind_ret_l.
    pose proof Ht as (? & ? & ? & ? & Hcur & ?).
    destruct (IH chip1) as (ns & chip2 & -> & Hns & Hrun); [done|done|lia|]. rewrite bind_ret_l.
    exists (n :: ns), chip2. split; [done|]. split; [by constructor|]. by exists chip1.
Qed.

Lemma chip0_ok : chip_ok chip0.
Proof. split; [done|]. split; [done|]. simpl. repeat constructor; simpl; done. Qed.

(** DRAM timing: any sequence of accesses to banks of the chip, as long as the
    cycle counter has room, is served; every access costs from 14 (row open) to 60
    cycles, the cycle counter advances by the cost, the row asked for is open after
    it, the other banks are as before, and an access that needs another row opens
    it no earlier than [tRAS] + [tRP] + [tRCD] cycles after the previous activation
    of that bank. *)
Theorem access_dram_timing (l : list (Z * Z * Z)) :
  Forall (fun a => 0 <= a.1.1 < NUM_BANKS) l -> 60 * len l <= INT_MAX ->
  exists ns chip, access_all chip0 l = Ok (ns, chip) /\ Forall (fun n => tCAS <= n <= 60) ns /\ timed_run chip0 l ns chip.
Proof. intros Hl Hmax. apply timed_all_ok; [apply chip0_ok|done|done]. Qed.

Lemma access_dram_timing_witness : exists ns chip, access_all chip0 [(7, 3, 0); (7, 4, 0)] = Ok (ns, chip) /\
  Forall (fun n => tCAS <= n <= 60) ns /\ timed_run chip0 [(7, 3, 0); (7, 4, 0)] ns chip.
Proof. apply access_dram_timing; [repeat constructor; simpl; unfold NUM_BANKS; lia|unfold INT_MAX; simpl; lia]. Defined.
End Timing.

(** ** Auto-precharge ([SimulatingDRAMTiming.c]) *)
Module AutoPrecharge.

Definition NUM_BANKS : Z := 8.
Definition COLS_PER_ROW : Z := 1024.
Definition tCAS : Z := 10.
Definition tRAS : Z := 28.
Definition tRP : Z := 10.

Record BankState : Type := mkBankState { open_row : Z; cycle_opened : Z }.

Record timing : Type := mkTiming { bank_states : list BankState; current_cycle : Z }.

(** The initialiser of [bank_states] gives a value to its first element only: the
    others are zero, that is, their row 0 counts as open. *)
Definition timing0 : timing :=
  mkTiming (mkBankState (-1) 0 :: replicate (Z.to_nat NUM_BANKS - 1) (mkBankState 0 0)) 0.

Definition memory_access (address : Z) (s : timing) : res timing :=
  let bank := (address / COLS_PER_ROW) mod NUM_BANKS in
  let row := (address / COLS_PER_ROW) / NUM_BANKS in
  b ← (bank_states s).[bank];
  '(b, now) ← (if negb (open_row b =? row) then
      now ← (if negb (open_row b =? -1) then iadd (current_cycle s) tRP else Ok (current_cycle s));
      now ← iadd now tRAS;
      Ok (mkBankState row now, now)
    else Ok (b, current_cycle s));
  now ← iadd now tCAS;
  d ← isub now (cycle_opened b);
  '(b, now) ← (if tRAS <=? d then now ← iadd now tRP; Ok (mkBankState (-1) (cycle_opened b), now) else Ok (b, now));
  bs ← (bank_states s).[bank <- b];
  Ok (mkTiming bs now).

Fixpoint memory_accesses (l : list Z) (s : timing) : res timing :=
  match l with [] => Ok s | a :: l => s ← memory_access a s; memory_accesses l s end.

Definition precharge_main : res timing := memory_accesses [0; 1; COLS_PER_ROW * NUM_BANKS; COLS_PER_ROW] timing0.

(** The first access to row 0 of any bank but the first skips the activation,
    where a closed row costs [tRAS] more. *)
Lemma zero_row_counts_as_open bank col : 0 < bank < NUM_BANKS -> 0 <= col < COLS_PER_ROW ->
  memory_access (bank * COLS_PER_ROW + col) timing0 = Ok (mkTiming (bank_states timing0) tCAS).
Proof.
  intros Hb Hc. unfold memory_access. unfold COLS_PER_ROW, NUM_BANKS in *.
  assert ((bank * 1024 + col) / 1024 = bank) as -> by dlia. rewrite Z.mod_small, Z.div_small by lia.
  assert (bank = 1 \/ bank = 2 \/ bank = 3 \/ bank = 4 \/ bank = 5 \/ bank = 6 \/ bank = 7) as Hcases by lia.
  by repeat (destruct Hcases as [->|Hcases]; [vm_compute; reflexivity|]); subst.
Qed.

Definition timing_ok (s : timing) : Prop :=
  len (bank_states s) = NUM_BANKS /\ 0 <= current_cycle s /\
  Forall (fun b => -1 <= open_row b /\ 0 <= cycle_opened b <= current_cycle s) (bank_states s).

(** An access costs from [tCAS] to [tRP] + [tRAS] + [tCAS] cycles, the precharge
    that may follow it included, and leaves the row open for less than [tRAS]. *)
Lemma precharge_access_ok address s : 0 <= address < UINT32 -> timing_ok s -> current_cycle s + 48 <= INT_MAX ->
  exists s', memory_access address s = Ok s' /\ timing_ok s' /\ current_cycle s + tCAS <= current_cycle s' <= current_cycle s + 48 /\
    exists b, zget (bank_states s') ((address / COLS_PER_ROW) mod NUM_BANKS) = Some b /\
      (open_row b = -1 \/ (open_row b = address / COLS_PER_ROW / NUM_BANKS /\ current_cycle s' - cycle_opened b < tRAS)).
Proof.
  intros Ha (Hlen & Hc & Hall) Hmax. unfold memory_access. set (bank := (address / COLS_PER_ROW) mod NUM_BANKS).
  set (row := address / COLS_PER_ROW / NUM_BANKS).
  assert (0 <= bank < NUM_BANKS) as Hbank by (apply Z.mod_pos_bound; done).
  assert (0 <= row) as Hrow by (unfold row, COLS_PER_ROW, NUM_BANKS; dlia). clearbody bank row.
  unfold NUM_BANKS, tCAS, tRAS, tRP, INT_MAX in *.
  destruct (zget_range (bank_states s) bank) as [b Hb]; [lia|]. rewrite (arr_read_Ok _ _ _ Hb), bind_ret_l.
  pose proof (Forall_zget _ _ _ _ Hall Hb) as [Hr Ho].
  assert (forall b' now, -1 <= open_row b' -> 0 <= cycle_opened b' <= now -> current_cycle s + 10 <= now <= current_cycle s + 48 ->
    open_row b' = -1 \/ (open_row b' = row /\ now - cycle_opened b' < 28) ->
    exists s', (bs ← (bank_states s).[bank <- b']; Ok (mkTiming bs now)) = Ok s' /\ timing_ok s' /\
      current_cycle s + 10 <= current_cycle s' <= current_cycle s + 48 /\
      exists b, zget (bank_states s') bank = Some b /\ (open_row b = -1 \/ (open_row b = row /\ current_cycle s' - cycle_opened b < 28))) as Hfin.
  { intros b' now ? ? ? ?. rewrite arr_write_Ok, bind_ret_l by lia. eexists. split; [done|]. split; [|split; [simpl; lia|]].
    - split; [simpl; by rewrite length_zset|]. split; [simpl; lia|]. apply Forall_zset; [|done]. eapply list.Forall_impl; [exact Hall|]. simpl. lia.
    - exists b'. simpl. by rewrite zget_zset_eq by lia. }
  destruct (Z.eqb_spec (open_row b) row) as [Hrb|Hrb]; simpl.
  - rewrite iadd_Ok, bind_ret_l by int_side. rewrite isub_Ok, bind_ret_l by int_side. case_cond.
    + rewrite iadd_Ok, !bind_ret_l by int_side. apply Hfin; simpl; lia.
    + rewrite bind_ret_l. apply Hfin; simpl; lia.
  - set (d := if open_row b =? -1 then 0 else 10). assert (0 <= d <= 10) as Hd by (unfold d; case_cond; lia).
    assert ((if negb (open_row b =? -1) then iadd (current_cycle s) 10 else Ok (current_cycle s)) = Ok (current_cycle s + d)) as ->.
    { unfold d. destruct (open_row b =? -1); simpl; [f_equal; lia|]. apply iadd_Ok. int_side. }
    rewrite bind_ret_l. rewrite iadd_Ok, !bind_ret_l by int_side. rewrite iadd_Ok, bind_ret_l by int_side. simpl.
    rewrite isub_Ok, bind_ret_l by int_side. case_cond; [lia|]. rewrite bind_ret_l. apply Hfin; simpl; lia.
Qed.
End AutoPrecharge.

(** ** Bank, row and column ([addressTranslation.c]) *)
Module Address.

Definition BANK_BITS : Z := 2.
Definition ROW_BITS : Z := 14.
Definition COL_BITS : Z := 10.

Record DRAMAddress : Type := mkAddr { bank : Z; row : Z; column : Z }.

Definition translate_address (logical_address : Z) : DRAMAddress :=
  mkAddr (Z.land (Z.shiftr logical_address (ROW_BITS + COL_BITS)) (Z.shiftl 1 BANK_BITS - 1))
         (Z.land (Z.shiftr logical_address COL_BITS) (Z.shiftl 1 ROW_BITS - 1))
         (Z.land logical_address (Z.shiftl 1 COL_BITS - 1)).

Lemma field_mod a n : 0 <= n -> Z.land a (Z.shiftl 1 n - 1) = a mod 2 ^ n.
Proof. intros Hn. rewrite Z.shiftl_1_l, Z.sub_1_r, <- Z.ones_equiv. by apply Z.land_ones. Qed.

(** The fields are in range and give back the low 26 bits of the address; the six
    bits above them have no influence. *)
Lemma dram_fields a : 0 <= a < UINT32 ->
  let d := translate_address a in
  0 <= bank d < 4 /\ 0 <= row d < 16384 /\ 0 <= column d < 1024 /\
  bank d * 2 ^ 24 + row d * 2 ^ 10 + column d = a mod 2 ^ 26.
Proof.
  intros Ha. unfold translate_address, BANK_BITS, ROW_BITS, COL_BITS. simpl bank; simpl row; simpl column.
  rewrite !field_mod, !Z.shiftr_div_pow2 by lia. change (2 ^ (14 + 10)) with 16777216. change (2 ^ 2) with 4.
  change (2 ^ 14) with 16384. change (2 ^ 10) with 1024. change (2 ^ 24) with 16777216. change (2 ^ 26) with 67108864. dlia.
Qed.

(** [0x12345678], the address of [main], shares its cell with a smaller one. *)
Lemma main_address_aliases : translate_address 0x12345678 = translate_address (0x12345678 mod 2 ^ 26).
Proof. vm_compute. reflexivity. Qed.
End Address.

(** ** Page table and cell array ([cpuDataProcess.c]) *)
Module CpuData.

Definition MAX_PAGES : Z := 1024.
Definition DRAM_ROWS : Z := 8192.
Definition DRAM_COLS : Z := 512.

Record page_table_entry_t : Type := mkPte { physical_page_frame : Z; valid : bool }.

Record machine : Type := mkMachine {
  mar : Z; mdr : Z; page_table : list page_table_entry_t; dram : list (list Z)
}.

Definition translate_address (m : machine) (logical_address : Z) : res Z :=
  let page_number := Z.land (Z.shiftr logical_address 12) 0x3FF in
  let page_offset := Z.land logical_address 0xFFF in
  e ← (page_table m).[page_number];
  if valid e then Ok (Z.lor (u32 (Z.shiftl (physical_page_frame e) 12)) page_offset)
  else Ok 0xFFFFFFFF.

Definition read_dram_data (m : machine) : res Z :=
  let row_address := Z.land (Z.shiftr (mar m) 9) 0x1FFF in
  let col_address := Z.land (mar m) 0x1FF in
  r ← (dram m).[row_address]; r.[col_address].

Definition write_dram_data (m : machine) (data : Z) : res machine :=
  let row_address := Z.land (Z.shiftr (mar m) 9) 0x1FFF in
  let col_address := Z.land (mar m) 0x1FF in
  r ← (dram m).[row_address];
  r ← r.[col_address <- data];
  d ← (dram m).[row_address <- r];
  Ok (mkMachine (mar m) (mdr m) (page_table m) d).

(** [select_row_column] only prints. *)
Definition read_from_dram (m : machine) (physical_address : Z) : res machine :=
  let m := mkMachine physical_address (mdr m) (page_table m) (dram m) in
  v ← read_dram_data m;
  Ok (mkMachine (mar m) v (page_table m) (dram m)).

Definition write_to_dram (m : machine) (physical_address data : Z) : res machine :=
  let m := mkMachine physical_address data (page_table m) (dram m) in
  write_dram_data m (mdr m).

(** The cells hold what [malloc] left in them. *)
Definition cpu_main (cells : list (list Z)) : res machine :=
  let m := mkMachine 0 0 ((fun i => mkPte i true) <$> seqZ 0 MAX_PAGES) cells in
  let logical_address := 0x12345678 in
  physical_address ← translate_address m logical_address;
  m ← read_from_dram m physical_address;
  write_to_dram m physical_address 0xDEADBEEF.

(** *** Laws *)

Definition machine_ok (m : machine) : Prop :=
  len (page_table m) = MAX_PAGES /\ len (dram m) = DRAM_ROWS /\ Forall (fun r => len r = DRAM_COLS) (dram m).

(** The cell of a physical address: its low 22 bits. *)
Definition cell (m : machine) (p : Z) : option Z :=
  r ← zget (dram m) ((p / 512) mod 8192); zget r (p mod 512).

Lemma row_column p : Z.land (Z.shiftr p 9) 0x1FFF = (p / 512) mod 8192 /\ Z.land p 0x1FF = p mod 512.
Proof.
  split; [rewrite Z.shiftr_div_pow2 by lia; change 0x1FFF with (Z.ones 13)|change 0x1FF with (Z.ones 9)];
    rewrite Z.land_ones by lia; done.
Qed.

Lemma cell_Some m p : machine_ok m -> exists r x, zget (dram m) ((p / 512) mod 8192) = Some r /\ zget r (p mod 512) = Some x.
Proof.
  intros (_ & Hd & Hr). destruct (zget_range (dram m) ((p / 512) mod 8192)) as [r Hz].
  { unfold DRAM_ROWS in Hd. rewrite Hd. apply Z.mod_pos_bound. lia. }
  pose proof (Forall_zget _ _ _ _ Hr Hz) as Hl. simpl in Hl. destruct (zget_range r (p mod 512)) as [x Hx].
  { rewrite Hl. apply Z.mod_pos_bound. done. }
  by exists r, x.
Qed.

Lemma read_from_dram_ok m p : machine_ok m -> exists x, cell m p = Some x /\
  read_from_dram m p = Ok (mkMachine p x (page_table m) (dram m)).
Proof.
  intros Hm. destruct (cell_Some m p Hm) as (r & x & Hr & Hx). exists x. unfold cell. rewrite Hr. simpl. split; [done|].
  unfold read_from_dram, read_dram_data. simpl. destruct (row_column p) as [-> ->].
  rewrite (arr_read_Ok _ _ _ Hr), bind_ret_l. rewrite (arr_read_Ok _ _ _ Hx), bind_ret_l. done.
Qed.

Lemma write_to_dram_ok m p v : machine_ok m -> exists m', write_to_dram m p v = Ok m' /\ machine_ok m' /\
  mdr m' = v /\ page_table m' = page_table m /\
  forall q, cell m' q = if (q mod 2 ^ 22 =? p mod 2 ^ 22) then Some v else cell m q.
Proof.
  intros Hm. destruct (cell_Some m p Hm) as (r & x & Hr & Hx). destruct Hm as (Hp & Hd & Hall).
  pose proof (zget_Some_range _ _ _ Hr) as Hr'. pose proof (zget_Some_range _ _ _ Hx) as Hx'.
  unfold write_to_dram, write_dram_data. simpl. destruct (row_column p) as [-> ->].
  rewrite (arr_read_Ok _ _ _ Hr), bind_ret_l. rewrite arr_write_Ok, bind_ret_l by done. rewrite arr_write_Ok, bind_ret_l by done.
  eexists. split; [done|]. split.
  { split; [done|]. split; [simpl; by rewrite length_zset|]. simpl. apply Forall_zset; [done|].
    rewrite length_zset. exact (Forall_zget _ _ _ _ Hall Hr). }
  split; [done|]. split; [done|]. intros q. unfold cell. cbn [dram].
  change (2 ^ 22) with 4194304.
  destruct (Z.eqb_spec (q mod 4194304) (p mod 4194304)) as [E|E].
  - assert ((q / 512) mod 8192 = (p / 512) mod 8192 /\ q mod 512 = p mod 512) as [-> ->] by (clear - E; dlia).
    rewrite zget_zset_eq by done. simpl. rewrite zget_zset_eq by exact Hx'. done.
  - destruct (decide ((p / 512) mod 8192 = (q / 512) mod 8192)) as [Er|Er].
    + rewrite <- Er, zget_zset_eq, Hr by done. simpl. rewrite zget_zset_ne; [done|]. clear - E Er. dlia.
    + by rewrite zget_zset_ne.
Qed.

(** The cell array behaves as a memory of 2^22 words: whatever the address
    asked for, row and column are within the array; a read after a write gives the
    value written if the addresses agree modulo 2^22, and what was there before
    otherwise; MAR and MDR hold the address and the data of the last access. *)
Theorem dram_read_after_write (m : machine) (p v q : Z) : machine_ok m ->
  exists m' m'' x, write_to_dram m p v = Ok m' /\ read_from_dram m' q = Ok m'' /\ cell m q = Some x /\
    mar m'' = q /\ mdr m'' = (if q mod 2 ^ 22 =? p mod 2 ^ 22 then v else x).
Proof.
  intros Hm. destruct (write_to_dram_ok m p v Hm) as (m' & Hw & Hm' & _ & _ & Hcell).
  destruct (read_from_dram_ok m' q Hm') as (y & Hy & Hread). destruct (read_from_dram_ok m q Hm) as (x & Hx & _).
  eexists m', _, x. split; [exact Hw|]. split; [exact Hread|]. split; [exact Hx|]. split; [done|]. cbn [mdr].
  rewrite Hcell in Hy. destruct (q mod 2 ^ 22 =? p mod 2 ^ 22); congruence.
Qed.

(** A machine whose cells are all zero. *)
Definition blank : machine :=
  mkMachine 0 0 (replicate (Z.to_nat MAX_PAGES) (mkPte 0 false)) (replicate (Z.to_nat DRAM_ROWS) (replicate (Z.to_nat DRAM_COLS) 0)).

Lemma blank_ok : machine_ok blank.
Proof.
  split; [unfold blank, page_table; by rewrite length_replicate|]. split; [unfold blank, dram; by rewrite length_replicate|].
  unfold blank, dram. apply Forall_replicate. by rewrite length_replicate.
Qed.

Lemma dram_read_after_write_witness : exists m' m'' x, write_to_dram blank 5 7 = Ok m' /\ read_from_dram m' (5 + 2 ^ 22) = Ok m'' /\
  cell blank (5 + 2 ^ 22) = Some x /\ mar m'' = 5 + 2 ^ 22 /\ mdr m'' = (if (5 + 2 ^ 22) mod 2 ^ 22 =? 5 mod 2 ^ 22 then 7 else x).
Proof. apply (dram_read_after_write blank 5 7 (5 + 2 ^ 22)). apply blank_ok. Defined.

(** The address of a page fault is not told from others: without a valid page, the
    last cell of the array is read and written. *)
Lemma page_fault_is_an_address m a e : machine_ok m ->
  zget (page_table m) (Z.land (Z.shiftr a 12) 0x3FF) = Some e -> valid e = false ->
  translate_address m a = Ok 0xFFFFFFFF /\ exists m' r, read_from_dram m 0xFFFFFFFF = Ok m' /\
    zget (dram m) (DRAM_ROWS - 1) = Some r /\ zget r (DRAM_COLS - 1) = Some (mdr m').
Proof.
  intros Hm He Hv. split.
  - unfold translate_address. rewrite (arr_read_Ok _ _ _ He), bind_ret_l, Hv. done.
  - destruct (read_from_dram_ok m 0xFFFFFFFF Hm) as (x & Hx & ->). unfold cell in Hx. 
    destruct (zget (dram m) ((0xFFFFFFFF / 512) mod 8192)) as [r|] eqn:Hr; simpl in Hx; [|done]. eexists _, r. done.
Qed.

(** [main] runs to its end, for any contents of the cells. *)
Lemma cpu_main_ok cells : len cells = DRAM_ROWS -> Forall (fun r => len r = DRAM_COLS) cells ->
  exists m, cpu_main cells = Ok m /\ cell m 0x345678 = Some 0xDEADBEEF.
Proof.
  intros Hl Hr. unfold cpu_main. set (m0 := mkMachine _ _ _ _). cbv zeta.
  assert (translate_address m0 0x12345678 = Ok 0x345678) as -> by (vm_compute; reflexivity). rewrite bind_ret_l.
  assert (machine_ok m0) as Hm. { split; [|done]. unfold m0, page_table. rewrite length_fmap, length_seqZ. done. }
  destruct (read_from_dram_ok m0 0x345678 Hm) as (x & _ & ->). rewrite bind_ret_l.
  destruct (write_to_dram_ok (mkMachine 0x345678 x (page_table m0) (dram m0)) 0x345678 0xDEADBEEF) as (m' & -> & _ & _ & _ & Hc); [exact Hm|].
  exists m'. split; [done|]. by rewrite Hc.
Qed.
End CpuData.
