(* ===== verification/ZeroCopy.v ===== *)
(** * io_uring echo server ([unix/zero_copy_server])

    The connection table, the requests queued in the ring and the handler of
    completions ([zero_copy_server.c]), driven by the loop of [main.c]. The kernel
    completes submitted requests in any order and at any time; the results of
    [malloc], [mmap], [accept] and [readv] are chosen by the environment. *)
From Stdlib Require Import ZArith Lia.
From stdpp Require Import base tactics list numbers option gmap relations.
From S2P Require Import Prelude.

#[local] Open Scope Z_scope.
#[local] Open Scope c_scope.

(** ** Data *)

Definition QUEUE_DEPTH : Z := 256.
Definition READ_SZ : Z := 4096.
Definition MAX_CONNECTIONS : Z := 1024.
Definition EVENT_TYPE_ACCEPT : Z := 0.
Definition EVENT_TYPE_READ : Z := 1.
Definition MAP_FAILED : Z := -1.

Record conn_info : Type := mkConn { fd : Z; in_use : bool; buf : Z; buf_size : Z }.

(** [conn] is the index of the connection in the table. *)
Record io_data : Type := mkData { event_type : Z; data_fd : Z; iov_base : Z; iov_len : Z; conn : Z }.

(** What the program holds of the system: open client descriptors, mapped buffers
    with their bytes, live blocks of [malloc], and the logs of the bytes read by the
    kernel and of the calls of [write], each with its descriptor. *)
Record world : Type := mkWorld {
  open_fds : list Z;
  mapped : gmap Z (list Z);
  live : Z;
  received : list (Z * list Z);
  writes : list (Z * list Z)
}.

(** The ring: requests queued but not submitted, submitted ones, completions. *)
Record server : Type := mkServer {
  conn_table : list conn_info;
  sq : list io_data;
  inflight : list io_data;
  cq : list (io_data * Z);
  sys : world
}.

Definition set_table (s : server) t := mkServer t (sq s) (inflight s) (cq s) (sys s).
Definition set_sys (s : server) w := mkServer (conn_table s) (sq s) (inflight s) (cq s) w.

(** Results of the calls a handler makes. *)
Record results : Type := mkResults { malloc_read : bool; mmap_read : Z; malloc_accept : bool }.

(** ** Library and system calls *)

Definition close (f : Z) (w : world) : world :=
  mkWorld (filter (fun g => g <> f) (open_fds w)) (mapped w) (live w) (received w) (writes w).

Definition munmap (a : Z) (w : world) : world :=
  mkWorld (open_fds w) (delete a (mapped w)) (live w) (received w) (writes w).

Definition mmap (a : Z) (w : world) : world :=
  mkWorld (open_fds w) (<[a := replicate (Z.to_nat READ_SZ) 0]> (mapped w)) (live w) (received w) (writes w).

Definition add_live (n : Z) (w : world) : world :=
  mkWorld (open_fds w) (mapped w) (live w + n) (received w) (writes w).

Definition write (f : Z) (a n : Z) (w : world) : res world :=
  match mapped w !! a with
  | Some l => Ok (mkWorld (open_fds w) (mapped w) (live w) (received w) (writes w ++ [(f, take (Z.to_nat n) l)]))
  | None => Fault BadAddress
  end.

(** [io_uring_get_sqe] and the preparation of the entry: there is none when the
    submission queue is full. *)
Definition queue_sqe (d : io_data) (s : server) : res server :=
  if len (sq s) <? QUEUE_DEPTH then Ok (mkServer (conn_table s) (sq s ++ [d]) (inflight s) (cq s) (sys s))
  else Fault (Exit 1).

(** ** Operations *)

Definition init_conn_table : list conn_info := replicate (Z.to_nat MAX_CONNECTIONS) (mkConn 0 false 0 0).

Definition cleanup_conn (c : option Z) (s : server) : res server :=
  match c with
  | None => Ok s
  | Some i =>
      c ← (conn_table s).[i];
      let '(c, w) := if 0 <=? fd c then (mkConn (-1) (in_use c) (buf c) (buf_size c), close (fd c) (sys s)) else (c, sys s) in
      let '(c, w) := if negb (buf c =? 0) then (mkConn (fd c) (in_use c) 0 (buf_size c), munmap (buf c) w) else (c, w) in
      t ← (conn_table s).[i <- mkConn (fd c) false (buf c) 0];
      Ok (set_sys (set_table s t) w)
  end.

(** The vector of an accept request is never read. *)
Definition add_accept_request (malloc_ok : bool) (server_socket : Z) (s : server) : res server :=
  if negb malloc_ok then Fault (Exit 1)
  else queue_sqe (mkData EVENT_TYPE_ACCEPT server_socket 0 0 0) (set_sys s (add_live 1 (sys s))).

Definition add_read_request (malloc_ok : bool) (mapping : Z) (i : Z) (s : server) : res server :=
  if negb malloc_ok then Fault (Exit 1) else
  let s := set_sys s (add_live 1 (sys s)) in
  c ← (conn_table s).[i];
  '(c, w) ← (if buf c =? 0 then
      if mapping =? MAP_FAILED then Fault (Exit 1)
      else Ok (mkConn (fd c) (in_use c) mapping READ_SZ, mmap mapping (sys s))
    else Ok (c, sys s));
  t ← (conn_table s).[i <- c];
  queue_sqe (mkData EVENT_TYPE_READ (fd c) (buf c) (buf_size c) i) (set_sys (set_table s t) w).

Definition handle_accept (o : results) (d : io_data) (client_fd : Z) (s : server) : res server :=
  s ← (if client_fd <? 0 then Ok s else
    match find_index (fun c => negb (in_use c)) (conn_table s) with
    | Some i =>
        c ← (conn_table s).[i];
        t ← (conn_table s).[i <- mkConn client_fd true (buf c) (buf_size c)];
        add_read_request (malloc_read o) (mmap_read o) i (set_table s t)
    | None => Ok (set_sys s (close client_fd (sys s)))
    end);
  add_accept_request (malloc_accept o) (data_fd d) s.

Definition handle_read (o : results) (d : io_data) (r : Z) (s : server) : res server :=
  if r <? 0 then cleanup_conn (Some (conn d)) s
  else if r =? 0 then cleanup_conn (Some (conn d)) s
  else
    c ← (conn_table s).[conn d];
    w ← write (data_fd d) (buf c) r (sys s);
    add_read_request (malloc_read o) (mmap_read o) (conn d) (set_sys s w).

Definition handle_completion (o : results) (data : option io_data) (r : Z) (s : server) : res server :=
  match data with
  | None => Ok s
  | Some d =>
      s ← (if event_type d =? EVENT_TYPE_ACCEPT then handle_accept o d r s
           else if event_type d =? EVENT_TYPE_READ then handle_read o d r s
           else Ok s);
      Ok (set_sys s (add_live (-1) (sys s)))
  end.

(** [main] up to its loop. *)
Definition boot (malloc_ok : bool) (server_socket : Z) : res server :=
  add_accept_request malloc_ok server_socket (mkServer init_conn_table [] [] [] (mkWorld [] ∅ 0 [] [])).

(** ** The loop and the kernel *)

(** The kernel completes the [k]-th submitted request with result [r]; a read
    stores its bytes at the start of the buffer. An accepted descriptor is not open
    yet; a read gives an error, the end of the stream, or as many bytes as fit. *)
Definition complete (k : nat) (r : Z) (bytes : list Z) (s : server) : option server :=
  d ← inflight s !! k;
  let w := sys s in
  let done w := Some (mkServer (conn_table s) (sq s) (delete k (inflight s)) (cq s ++ [(d, r)]) w) in
  if event_type d =? EVENT_TYPE_ACCEPT then
    if r <? 0 then done w
    else if bool_decide (r ∈ open_fds w) then None
    else done (mkWorld (r :: open_fds w) (mapped w) (live w) (received w) (writes w))
  else
    if r <=? 0 then done w
    else if negb (r =? len bytes) || negb (r <=? iov_len d) then None
    else l ← mapped w !! iov_base d;
      done (mkWorld (open_fds w) (<[iov_base d := bytes ++ drop (length bytes) l]> (mapped w)) (live w)
                    (received w ++ [(data_fd d, bytes)]) (writes w)).

Inductive act : Type :=
  | Complete (k : nat) (r : Z) (bytes : list Z)
  | Handle (o : results)
  | Submit.

(** A new mapping is at no address in use. *)
Definition mapping_ok (o : results) (s : server) : bool :=
  (mmap_read o =? MAP_FAILED) || ((0 <? mmap_read o) && bool_decide (mapped (sys s) !! mmap_read o = None)).

(** [None]: the action is not possible. The loop handles completions while it sees
    some, then submits what is queued. *)
Definition run_act (a : act) (s : server) : option (res server) :=
  match a with
  | Complete k r bytes => s ← complete k r bytes s; Some (Ok s)
  | Handle o =>
      match cq s with
      | [] => None
      | (d, r) :: q =>
          if mapping_ok o s then Some (handle_completion o (Some d) r (mkServer (conn_table s) (sq s) (inflight s) q (sys s)))
          else None
      end
  | Submit => Some (Ok (mkServer (conn_table s) [] (inflight s ++ sq s) (cq s) (sys s)))
  end.

Definition step (s s' : server) : Prop := exists a, run_act a s = Some (Ok s').

Fixpoint run_acts (l : list act) (s : server) : option (res server) :=
  match l with
  | [] => Some (Ok s)
  | a :: l => match run_act a s with Some (Ok s) => run_acts l s | r => r end
  end.

(** ** The invariant *)

(** Connections in use, with their indices. *)
Fixpoint used_from (i : Z) (t : list conn_info) : list (Z * conn_info) :=
  match t with
  | [] => []
  | c :: t => (if in_use c then [(i, c)] else []) ++ used_from (i + 1) t
  end.

Definition used (s : server) : list (Z * conn_info) := used_from 0 (conn_table s).

Definition request (p : Z * conn_info) : io_data := mkData EVENT_TYPE_READ (fd p.2) (buf p.2) (buf_size p.2) p.1.

Definition accept_request (server_socket : Z) : io_data := mkData EVENT_TYPE_ACCEPT server_socket 0 0 0.

Definition pending (s : server) : list io_data := sq s ++ inflight s ++ (cq s).*1.

(** Descriptors accepted by the kernel that the loop has not seen yet. *)
Definition accepted (q : list (io_data * Z)) : list Z :=
  omap (fun p => if (event_type p.1 =? EVENT_TYPE_ACCEPT) && (0 <=? p.2) then Some p.2 else None) q.

(** Bytes read that the loop has not seen yet. *)
Definition waiting (m : gmap Z (list Z)) (q : list (io_data * Z)) : list (Z * list Z) :=
  omap (fun p => if (event_type p.1 =? EVENT_TYPE_READ) && (0 <? p.2)
                 then Some (data_fd p.1, take (Z.to_nat p.2) (default [] (m !! iov_base p.1))) else None) q.

(** What concerns a descriptor. *)
Definition on (f : Z) (l : list (Z * list Z)) : list (list Z) :=
  omap (fun p => if p.1 =? f then Some p.2 else None) l.

Record server_ok (server_socket : Z) (s : server) : Prop := mkOk {
  ok_len : len (conn_table s) = MAX_CONNECTIONS;
  ok_sq : len (sq s) <= QUEUE_DEPTH;
  ok_pending : pending s ≡ₚ accept_request server_socket :: (request <$> used s);
  ok_fds : open_fds (sys s) ≡ₚ ((fun p => fd p.2) <$> used s) ++ accepted (cq s);
  ok_fds_nodup : NoDup (open_fds (sys s));
  ok_fds_nonneg : Forall (fun f => 0 <= f) (open_fds (sys s));
  ok_free : Forall (fun c => in_use c = false -> buf c = 0) (conn_table s);
  ok_bufs : Forall (fun p => 0 < buf p.2 /\ buf_size p.2 = READ_SZ) (used s);
  ok_bufs_nodup : NoDup ((fun p => buf p.2) <$> used s);
  ok_mapped : forall a, is_Some (mapped (sys s) !! a) <-> a ∈ ((fun p => buf p.2) <$> used s);
  ok_live : live (sys s) = len (pending s);
  ok_echo : forall f, on f (received (sys s)) = on f (writes (sys s)) ++ on f (waiting (mapped (sys s)) (cq s))
}.

Lemma used_from_split t : forall i (n : nat) c, t !! n = Some c -> exists A B,
  used_from i t = A ++ (if in_use c then [(i + Z.of_nat n, c)] else []) ++ B /\
  forall c', used_from i (<[n := c']> t) = A ++ (if in_use c' then [(i + Z.of_nat n, c')] else []) ++ B.
Proof.
  induction t as [|x t IH]; intros i n c Hn; [done|]. destruct n as [|n]; simpl in Hn.
  - injection Hn as <-. exists [], (used_from (i + 1) t). rewrite Z.add_0_r. split; [done|]. intros c'. done.
  - destruct (IH (i + 1) n c Hn) as (A & B & HA & HB).
    exists ((if in_use x then [(i, x)] else []) ++ A), B. replace (i + Z.of_nat (S n)) with (i + 1 + Z.of_nat n) by lia.
    split; [by simpl; rewrite HA, app_assoc|]. intros c'. simpl. by rewrite HB, app_assoc.
Qed.

(** Changing one entry of the table. *)
Lemma used_split t k c : zget t k = Some c -> exists A,
  used_from 0 t ≡ₚ (if in_use c then [(k, c)] else []) ++ A /\
  forall c', used_from 0 (zset t k c') ≡ₚ (if in_use c' then [(k, c')] else []) ++ A.
Proof.
  intros Hk. pose proof (zget_Some_range _ _ _ Hk) as Hr. assert (exists n : nat, k = Z.of_nat n) as [n ->] by (exists (Z.to_nat k); lia).
  rewrite zget_nat in Hk. destruct (used_from_split t 0 n c Hk) as (A & B & HA & HB). exists (A ++ B). split.
  - rewrite HA, Z.add_0_l. solve_Permutation.
  - intros c'. unfold zset. destruct (Z.leb_spec 0 (Z.of_nat n)); [|lia]. rewrite Nat2Z.id, HB, Z.add_0_l. solve_Permutation.
Qed.

Lemma elem_of_used t k c : (k, c) ∈ used_from 0 t <-> zget t k = Some c /\ in_use c = true.
Proof.
  split.
  - assert (forall i, (k, c) ∈ used_from i t -> exists n : nat, k = i + Z.of_nat n /\ t !! n = Some c /\ in_use c = true) as H.
    { induction t as [|x t IH]; intros i; simpl; [by rewrite elem_of_nil|]. rewrite elem_of_app. intros [H|H].
      - destruct (in_use x) eqn:Hx; [|by apply not_elem_of_nil in H]. apply list_elem_of_singleton in H as [= -> ->]. exists 0%nat. by rewrite Z.add_0_r.
      - apply IH in H as (n & -> & ? & ?). exists (S n). split; [lia|done]. }
    intros (n & -> & ? & ?)%H. by rewrite Z.add_0_l, zget_nat.
  - intros [Hk Hu]. destruct (used_split t k c Hk) as (A & -> & _). rewrite Hu. simpl. apply list_elem_of_here.
Qed.

(** ** Effects of the operations *)

Lemma queue_sqe_inv d s s' : queue_sqe d s = Ok s' ->
  s' = mkServer (conn_table s) (sq s ++ [d]) (inflight s) (cq s) (sys s) /\ len (sq s) < QUEUE_DEPTH.
Proof. unfold queue_sqe. case_cond; [|done]. by intros [= <-]. Qed.

Lemma add_accept_inv ok sock s s' : add_accept_request ok sock s = Ok s' ->
  s' = mkServer (conn_table s) (sq s ++ [accept_request sock]) (inflight s) (cq s) (add_live 1 (sys s)) /\ len (sq s) < QUEUE_DEPTH.
Proof. unfold add_accept_request. destruct ok; simpl; [|done]. intros [-> ?]%queue_sqe_inv. done. Qed.

Lemma add_read_fresh_inv ok m i s s' c : zget (conn_table s) i = Some c -> buf c = 0 -> add_read_request ok m i s = Ok s' ->
  let c' := mkConn (fd c) (in_use c) m READ_SZ in
  s' = mkServer (zset (conn_table s) i c') (sq s ++ [request (i, c')]) (inflight s) (cq s) (mmap m (add_live 1 (sys s))) /\
  len (sq s) < QUEUE_DEPTH /\ m <> MAP_FAILED.
Proof.
  intros Hc Hb. unfold add_read_request. destruct ok; simpl; [|done]. rewrite (arr_read_Ok _ _ _ Hc), bind_ret_l, Hb, Z.eqb_refl.
  destruct (Z.eqb_spec m MAP_FAILED); [done|]. rewrite bind_ret_l. rewrite arr_write_Ok, bind_ret_l by (by eapply zget_Some_range).
  intros [-> ?]%queue_sqe_inv. done.
Qed.

Lemma add_read_again_inv ok m i s s' c : zget (conn_table s) i = Some c -> buf c <> 0 -> add_read_request ok m i s = Ok s' ->
  s' = mkServer (conn_table s) (sq s ++ [request (i, c)]) (inflight s) (cq s) (add_live 1 (sys s)) /\ len (sq s) < QUEUE_DEPTH.
Proof.
  intros Hc Hb. unfold add_read_request. destruct ok; simpl; [|done]. rewrite (arr_read_Ok _ _ _ Hc), bind_ret_l.
  destruct (Z.eqb_spec (buf c) 0); [done|]. rewrite bind_ret_l. rewrite arr_write_Ok, bind_ret_l by (by eapply zget_Some_range).
  intros [-> ?]%queue_sqe_inv. simpl in *. by rewrite zset_id.
Qed.

Lemma cleanup_eq i s c : zget (conn_table s) i = Some c -> 0 <= fd c -> buf c <> 0 ->
  cleanup_conn (Some i) s = Ok (set_sys (set_table s (zset (conn_table s) i (mkConn (-1) false 0 0))) (munmap (buf c) (close (fd c) (sys s)))).
Proof.
  intros Hc Hf Hb. unfold cleanup_conn. rewrite (arr_read_Ok _ _ _ Hc), bind_ret_l.
  destruct (Z.leb_spec 0 (fd c)); [|lia]. simpl. destruct (Z.eqb_spec (buf c) 0); [done|]. simpl.
  rewrite arr_write_Ok, bind_ret_l by (by eapply zget_Some_range). done.
Qed.

(** ** Preservation *)

Section invariant.
Context (server_socket : Z).

Lemma pending_cases s d : server_ok server_socket s -> d ∈ pending s ->
  d = accept_request server_socket \/ exists p, p ∈ used s /\ d = request p.
Proof.
  intros Hok. rewrite (ok_pending _ _ Hok), elem_of_cons, list_elem_of_fmap. naive_solver.
Qed.

Lemma pending_bases s : server_ok server_socket s -> NoDup (iov_base <$> pending s).
Proof.
  intros Hok. rewrite (ok_pending _ _ Hok). simpl. apply NoDup_cons. rewrite <- list_fmap_compose. split.
  - intros ([k c] & H0 & Hin)%list_elem_of_fmap. pose proof (ok_bufs _ _ Hok) as Hb. rewrite Forall_forall in Hb. apply Hb in Hin. simpl in *. lia.
  - exact (ok_bufs_nodup _ _ Hok).
Qed.

Lemma waiting_ext m1 m2 q : (forall p, p ∈ q -> m1 !! iov_base p.1 = m2 !! iov_base p.1) -> waiting m1 q = waiting m2 q.
Proof.
  induction q as [|p q IH]; intros H; [done|]. simpl. rewrite (H p) by apply list_elem_of_here. rewrite IH; [done|].
  intros p' Hp'. apply H. by apply list_elem_of_further.
Qed.

Lemma filter_out (l k : list Z) x : NoDup l -> l ≡ₚ x :: k -> filter (fun g => g <> x) l ≡ₚ k.
Proof.
  intros Hl Hp. rewrite Hp in Hl |- *. apply NoDup_cons in Hl as [Hx _]. rewrite filter_cons_False by naive_solver.
  rewrite filter_all; [done|]. apply Forall_forall. naive_solver.
Qed.

Lemma filter_nonneg (l : list Z) x : Forall (fun f => 0 <= f) l -> Forall (fun f => 0 <= f) (filter (fun g => g <> x) l).
Proof. rewrite !Forall_forall. intros H f [_ Hf]%list_elem_of_filter. by apply H. Qed.

Lemma submit_ok s : server_ok server_socket s ->
  server_ok server_socket (mkServer (conn_table s) [] (inflight s ++ sq s) (cq s) (sys s)).
Proof.
  intros [? ? Hp ? ? ? ? ? ? ? Hl ?]. unfold pending in *. split; try done; unfold pending; simpl.
  - rewrite <- Hp. solve_Permutation.
  - rewrite Hl, !length_app. simpl. lia.
Qed.

(** Bytes stored by the kernel for one request leave those of the others. *)
Lemma complete_echo s p r bytes l rest f : server_ok server_socket s -> inflight s ≡ₚ request p :: rest -> 0 < r -> r = len bytes ->
  on f (received (sys s) ++ [(fd p.2, bytes)]) =
  on f (writes (sys s)) ++ on f (waiting (<[buf p.2 := bytes ++ drop (length bytes) l]> (mapped (sys s))) (cq s ++ [(request p, r)])).
Proof.
  intros Hok Hperm Hr Hlen. pose proof (pending_bases s Hok) as Hnd. unfold on at 1. rewrite omap_app. fold (on f (received (sys s))).
  rewrite (ok_echo _ _ Hok f). unfold waiting at 2. rewrite omap_app.
  fold (waiting (<[buf p.2 := bytes ++ drop (length bytes) l]> (mapped (sys s))) (cq s)).
  rewrite (waiting_ext (<[buf p.2 := bytes ++ drop (length bytes) l]> (mapped (sys s))) (mapped (sys s))).
  - simpl. destruct (Z.ltb_spec 0 r); [|lia]. simpl. rewrite lookup_insert_eq. simpl.
    rewrite take_app_length' by lia. unfold on. rewrite omap_app, app_assoc. done.
  - intros [d' r'] Hd'. rewrite lookup_insert_ne; [done|]. simpl. intros E.
    unfold pending in Hnd. rewrite !fmap_app, Hperm in Hnd. apply NoDup_app in Hnd as (_ & _ & Hnd).
    apply NoDup_app in Hnd as (_ & Hnd & _). apply (Hnd (buf p.2)); [simpl; apply list_elem_of_here|].
    rewrite E. apply list_elem_of_fmap. exists d'. split; [done|]. apply list_elem_of_fmap. by exists (d', r').
Qed.

Lemma complete_ok k r bytes s s' : server_ok server_socket s -> complete k r bytes s = Some s' -> server_ok server_socket s'.
Proof.
  intros Hok Hc. unfold complete in Hc. destruct (inflight s !! k) as [d|] eqn:Hd; simpl in Hc; [|done].
  pose proof (delete_Permutation _ _ _ Hd) as Hperm. set (rest := delete k (inflight s)) in *. clearbody rest.
  assert (d ∈ pending s) as Hin by (unfold pending; rewrite Hperm, elem_of_app, elem_of_app; right; left; apply list_elem_of_here).
  pose proof Hok as [Hlen Hsq Hp Hf Hfn Hf0 Hfree Hb Hbn Hm Hl He].
  assert (forall w, pending (mkServer (conn_table s) (sq s) rest (cq s ++ [(d, r)]) w) ≡ₚ pending s) as Hpend.
  { intros w. unfold pending. simpl. rewrite fmap_app. simpl. rewrite Hperm. solve_Permutation. }
  assert (forall w, live (sys s) = len (pending (mkServer (conn_table s) (sq s) rest (cq s ++ [(d, r)]) w))) as Hlive.
  { intros w. by rewrite Hpend. }
  destruct (pending_cases s d Hok Hin) as [->|(p & Hpu & ->)]; simpl in Hc.
  - destruct (Z.ltb_spec r 0).
    + injection Hc as <-. split; try done; simpl.
      * by rewrite Hpend.
      * unfold accepted. rewrite omap_app. simpl. destruct (Z.leb_spec 0 r); [lia|]. by rewrite app_nil_r.
      * intros f. unfold waiting. rewrite omap_app. simpl. by rewrite app_nil_r.
    + case_bool_decide as Hr; [done|]. injection Hc as <-. split; try done; simpl.
      * by rewrite Hpend.
      * unfold accepted. rewrite omap_app. simpl. destruct (Z.leb_spec 0 r); [|lia].
        etrans; [by apply Permutation_skip, Hf|]. unfold accepted, used. simpl. solve_Permutation.
      * by apply NoDup_cons.
      * by constructor.
      * intros f. unfold waiting. rewrite omap_app. simpl. by rewrite app_nil_r.
  - destruct (Z.leb_spec r 0).
    + injection Hc as <-. split; try done; simpl.
      * by rewrite Hpend.
      * unfold accepted. rewrite omap_app. simpl. by rewrite app_nil_r.
      * intros f. unfold waiting. rewrite omap_app. simpl. destruct (Z.ltb_spec 0 r); [lia|]. by rewrite app_nil_r.
    + destruct (negb (r =? len bytes) || negb (r <=? buf_size p.2)) eqn:Hr; [done|]. zbool.
      destruct (mapped (sys s) !! buf p.2) as [l|] eqn:Hl'; simpl in Hc; [|done]. injection Hc as <-.
      split; try done; simpl.
      * by rewrite Hpend.
      * unfold accepted. rewrite omap_app. simpl. by rewrite app_nil_r.
      * intros a. rewrite <- Hm. destruct (decide (a = buf p.2)) as [->|]; [by rewrite lookup_insert_eq, Hl'|by rewrite lookup_insert_ne].
      * intros f. by apply (complete_echo s p r bytes l rest).
Qed.

(** The handlers run on the state without the completion they handle. *)
Definition popped (s : server) (q : list (io_data * Z)) : server := mkServer (conn_table s) (sq s) (inflight s) q (sys s).

Lemma request_of_other s d r q p : server_ok server_socket s -> cq s = (d, r) :: q -> p ∈ q -> iov_base p.1 <> iov_base d.
Proof.
  intros Hok Hq Hp E. pose proof (pending_bases s Hok) as Hnd. unfold pending in Hnd. rewrite Hq, !fmap_app in Hnd. simpl in Hnd.
  apply NoDup_app in Hnd as (_ & _ & Hnd). apply NoDup_app in Hnd as (_ & _ & Hnd). apply NoDup_cons in Hnd as [Hnd _].
  apply Hnd. rewrite <- E. apply list_elem_of_fmap. exists p.1. split; [done|]. apply list_elem_of_fmap. by exists p.
Qed.

(** Buffers that the waiting completions use are mapped, or of an accept request. *)
Lemma base_mapped s d r : server_ok server_socket s -> (d, r) ∈ cq s -> iov_base d = 0 \/ is_Some (mapped (sys s) !! iov_base d).
Proof.
  intros Hok Hin. assert (d ∈ pending s) as Hp.
  { unfold pending. rewrite !elem_of_app. right. right. apply list_elem_of_fmap. by exists (d, r). }
  destruct (pending_cases s d Hok Hp) as [->|(p & Hu & ->)]; [by left|]. right. apply (ok_mapped _ _ Hok). apply list_elem_of_fmap. by exists p.
Qed.

Lemma popped_pending s d r q : server_ok server_socket s -> cq s = (d, r) :: q -> d :: pending (popped s q) ≡ₚ accept_request server_socket :: (request <$> used s).
Proof. intros Hok Hq. rewrite <- (ok_pending _ _ Hok). unfold pending. rewrite Hq. simpl. solve_Permutation. Qed.

(** A new connection in a free slot. *)
Lemma accept_slot_ok s r q i c m : server_ok server_socket s -> cq s = (accept_request server_socket, r) :: q -> 0 <= r ->
  zget (conn_table s) i = Some c -> in_use c = false -> 0 < m -> mapped (sys s) !! m = None -> len (sq s) + 2 <= QUEUE_DEPTH ->
  let c' := mkConn r true m READ_SZ in
  server_ok server_socket (mkServer (zset (conn_table s) i c') (sq s ++ [request (i, c')] ++ [accept_request server_socket]) (inflight s) q
    (add_live (-1) (add_live 1 (mmap m (add_live 1 (sys s)))))).
Proof.
  intros Hok Hq Hr Hi Hc Hm Hnm Hsq c'. pose proof (popped_pending _ _ _ _ Hok Hq) as Hpop. pose proof (base_mapped s) as Hbase.
  destruct (used_split _ _ _ Hi) as (A & HA & HA'). rewrite Hc in HA. simpl in HA. specialize (HA' c'). simpl in HA'.
  pose proof Hok as [Hlen _ Hp Hf Hfn Hf0 Hfree Hb Hbn Hmap Hl He]. unfold used in *. setoid_rewrite HA in Hmap. rewrite HA in *.
  apply Permutation.Permutation_cons_inv in Hpop.
  rewrite Hq in *. split; simpl.
  - by rewrite length_zset.
  - rewrite !length_app. simpl. lia.
  - unfold pending, used in *. simpl in *. rewrite HA'. simpl. rewrite <- Hpop. solve_Permutation.
  - unfold used. simpl. rewrite Hf, HA'. unfold accepted. simpl. destruct (Z.leb_spec 0 r); [|lia]. solve_Permutation.
  - done.
  - done.
  - by apply Forall_zset.
  - unfold used. simpl. rewrite HA'. by constructor.
  - unfold used. simpl. rewrite HA'. simpl. apply NoDup_cons. split; [|done]. rewrite <- Hmap, Hnm. by intros [? ?].
  - intros a. unfold used. simpl. rewrite HA'. simpl. rewrite elem_of_cons, <- Hmap. destruct (decide (a = m)) as [->|].
    + rewrite lookup_insert_eq. naive_solver.
    + rewrite lookup_insert_ne by done. naive_solver.
  - rewrite Hl. unfold pending. rewrite Hq. cbn [sq inflight cq]. rewrite !length_app, !length_fmap. simpl. lia.
  - intros f. rewrite He. f_equal. f_equal. unfold waiting at 1. simpl. apply waiting_ext. intros [d' r'] Hin. simpl. rewrite lookup_insert_ne; [done|].
    intros ->. destruct (Hbase d' r' Hok) as [H0|H0]; [by apply list_elem_of_further|lia|]. rewrite Hnm in H0. by destruct H0.
Qed.

(** A completion of the accept request that gives no connection. *)
Lemma accept_none_ok s r q fds : server_ok server_socket s -> cq s = (accept_request server_socket, r) :: q ->
  fds ≡ₚ ((fun p => fd p.2) <$> used s) ++ accepted q -> NoDup fds -> Forall (fun f => 0 <= f) fds -> len (sq s) < QUEUE_DEPTH ->
  server_ok server_socket (mkServer (conn_table s) (sq s ++ [accept_request server_socket]) (inflight s) q
    (mkWorld fds (mapped (sys s)) (live (sys s) + 1 + -1) (received (sys s)) (writes (sys s)))).
Proof.
  intros Hok Hq Hfds Hnd H0 Hsq. pose proof (popped_pending _ _ _ _ Hok Hq) as Hpop. apply Permutation.Permutation_cons_inv in Hpop.
  pose proof Hok as [Hlen _ Hp Hf Hfn Hf0 Hfree Hb Hbn Hmap Hl He]. split; simpl; try done.
  - rewrite length_app. simpl. lia.
  - unfold used. simpl. fold (used s). rewrite <- Hpop. unfold pending. simpl. solve_Permutation.
  - rewrite Hl. unfold pending. rewrite Hq. cbn [sq inflight cq]. rewrite !length_app, !length_fmap. simpl. lia.
  - intros f. by rewrite He, Hq.
Qed.

(** The end of a connection. *)
Lemma cleanup_ok s r q i c : server_ok server_socket s -> cq s = (request (i, c), r) :: q -> r <= 0 -> (i, c) ∈ used s ->
  server_ok server_socket (mkServer (zset (conn_table s) i (mkConn (-1) false 0 0)) (sq s) (inflight s) q
    (add_live (-1) (munmap (buf c) (close (fd c) (sys s))))).
Proof.
  intros Hok Hq Hr Hin. pose proof (popped_pending _ _ _ _ Hok Hq) as Hpop. pose proof (fun p => request_of_other s _ _ _ p Hok Hq) as Hoth.
  pose proof Hin as [Hi Hc]%elem_of_used. destruct (used_split _ _ _ Hi) as (A & HA & HA'). rewrite Hc in HA. simpl in HA.
  specialize (HA' (mkConn (-1) false 0 0)). simpl in HA'.
  pose proof Hok as [Hlen Hsq Hp Hf Hfn Hf0 Hfree Hb Hbn Hmap Hl He]. unfold used in *. setoid_rewrite HA in Hmap. rewrite HA in Hp, Hf, Hb, Hbn, Hpop.
  simpl in Hf, Hbn. apply NoDup_cons in Hbn as [Hbc Hbn]. apply list.Forall_cons in Hb as [_ Hb].
  assert (filter (fun g => g <> fd c) (open_fds (sys s)) ≡ₚ ((fun p => fd p.2) <$> A) ++ accepted q) as Hfil.
  { apply filter_out; [done|]. rewrite Hf, Hq. done. }
  split; simpl.
  - by rewrite length_zset.
  - done.
  - unfold used. simpl. rewrite HA'. simpl in Hpop. rewrite Permutation_swap in Hpop. by apply Permutation.Permutation_cons_inv in Hpop.
  - unfold used. simpl. by rewrite HA'.
  - by apply NoDup_filter.
  - by apply filter_nonneg.
  - by apply Forall_zset.
  - unfold used. simpl. by rewrite HA'.
  - unfold used. simpl. by rewrite HA'.
  - intros a. unfold used. simpl. rewrite HA'. specialize (Hmap a). simpl in Hmap. rewrite elem_of_cons in Hmap. destruct (decide (a = buf c)) as [->|].
    + rewrite lookup_delete_eq. split; [by intros [? ?]|done].
    + rewrite lookup_delete_ne by done. rewrite Hmap. naive_solver.
  - rewrite Hl. unfold pending. rewrite Hq. cbn [sq inflight cq]. rewrite !length_app, !length_fmap. simpl. lia.
  - intros f. rewrite He, Hq. f_equal. f_equal. unfold waiting at 1. simpl. destruct (Z.ltb_spec 0 r); [lia|]. simpl. apply waiting_ext.
    intros p Hp'. rewrite lookup_delete_ne; [done|]. intros E. by apply (Hoth p Hp').
Qed.

(** Bytes of a connection, written back. *)
Lemma echo_ok s r q i c l : server_ok server_socket s -> cq s = (request (i, c), r) :: q -> 0 < r -> mapped (sys s) !! buf c = Some l ->
  len (sq s) < QUEUE_DEPTH ->
  server_ok server_socket (mkServer (conn_table s) (sq s ++ [request (i, c)]) (inflight s) q
    (mkWorld (open_fds (sys s)) (mapped (sys s)) (live (sys s) + 1 + -1) (received (sys s)) (writes (sys s) ++ [(fd c, take (Z.to_nat r) l)]))).
Proof.
  intros Hok Hq Hr Hl' Hsq. pose proof (popped_pending _ _ _ _ Hok Hq) as Hpop.
  pose proof Hok as [Hlen _ Hp Hf Hfn Hf0 Hfree Hb Hbn Hmap Hl He]. split; simpl; try done.
  - rewrite length_app. simpl. lia.
  - unfold used. simpl. fold (used s). rewrite <- Hpop. unfold pending. simpl. solve_Permutation.
  - by rewrite Hq in Hf.
  - rewrite Hl. unfold pending. rewrite Hq. cbn [sq inflight cq]. rewrite !length_app, !length_fmap. simpl. lia.
  - intros f. rewrite He, Hq. unfold on at 3. rewrite omap_app. fold (on f (writes (sys s))). rewrite <- app_assoc. f_equal.
    unfold waiting at 1. simpl. destruct (Z.ltb_spec 0 r); [|lia]. simpl. rewrite Hl'. simpl. by case_cond.
Qed.

Lemma handle_ok o d r q s s' : server_ok server_socket s -> cq s = (d, r) :: q -> mapping_ok o s = true ->
  handle_completion o (Some d) r (popped s q) = Ok s' -> server_ok server_socket s'.
Proof.
  intros Hok Hq Ho Hh. assert (d ∈ pending s) as Hd.
  { unfold pending. rewrite Hq, !elem_of_app. right. right. apply list_elem_of_here. }
  destruct (pending_cases s d Hok Hd) as [->|([i c] & Hu & ->)]; simpl in Hh.
  - unfold handle_accept in Hh. apply bind_Ok in Hh as (s1 & Hh & [= <-]). apply bind_Ok in Hh as (s0 & Hs0 & [-> Hsq]%add_accept_inv).
    simpl in Hs0. destruct (Z.ltb_spec r 0).
    + injection Hs0 as <-. simpl in *. apply (accept_none_ok s r q (open_fds (sys s))); try done; try apply Hok.
      rewrite (ok_fds _ _ Hok), Hq. unfold accepted at 1. simpl. destruct (Z.leb_spec 0 r); [lia|done].
    + destruct (find_index _ _) as [i|] eqn:Hfind.
      * apply find_index_Some_fwd in Hfind as (c & Hc & Hfree & _). apply negb_true_iff in Hfree.
        assert (buf c = 0) as Hb0 by exact (Forall_zget _ _ _ _ (ok_free _ _ Hok) Hc Hfree). pose proof (zget_Some_range _ _ _ Hc) as Hr.
        simpl in Hs0. rewrite (arr_read_Ok _ _ _ Hc), bind_ret_l, arr_write_Ok, bind_ret_l in Hs0 by done.
        eapply add_read_fresh_inv in Hs0; [|simpl; by apply zget_zset_eq|done]. destruct Hs0 as (-> & Hsq0 & Hm). simpl in *.
        rewrite zset_zset_eq. rewrite length_app in Hsq. simpl in Hsq. unfold mapping_ok in Ho. apply orb_true_iff in Ho as [Ho|Ho]; zbool; [done|].
        case_bool_decide; [|done]. rewrite <- app_assoc. apply (accept_slot_ok s r q i c (mmap_read o)); (done || lia).
      * injection Hs0 as <-. simpl in *. apply (accept_none_ok s r q (filter (fun g => g <> r) (open_fds (sys s)))); try done.
        -- apply filter_out; [apply Hok|]. rewrite (ok_fds _ _ Hok), Hq. unfold accepted at 1. simpl. destruct (Z.leb_spec 0 r); [|lia]. simpl. solve_Permutation.
        -- apply NoDup_filter, Hok.
        -- apply filter_nonneg, Hok.
  - pose proof Hu as [Hi Hc]%elem_of_used. pose proof (ok_bufs _ _ Hok) as Hb. rewrite Forall_forall in Hb. specialize (Hb _ Hu). simpl in Hb.
    assert (0 <= fd c) as Hfd. { pose proof (ok_fds_nonneg _ _ Hok) as H0. rewrite (ok_fds _ _ Hok), Forall_app in H0.
      destruct H0 as [H0 _]. rewrite Forall_fmap, Forall_forall in H0. exact (H0 _ Hu). }
    apply bind_Ok in Hh as (s1 & Hh & [= <-]). unfold handle_read in Hh. destruct (Z.ltb_spec r 0); [|destruct (Z.eqb_spec r 0)].
    + erewrite cleanup_eq in Hh by (done || lia). injection Hh as <-. apply (cleanup_ok s r q i c); (done || lia).
    + erewrite cleanup_eq in Hh by (done || lia). injection Hh as <-. apply (cleanup_ok s r q i c); (done || lia).
    + simpl in Hh. rewrite (arr_read_Ok _ _ _ Hi), bind_ret_l in Hh. unfold write in Hh. simpl in Hh.
      destruct (mapped (sys s) !! buf c) as [l|] eqn:Hl; [|done]. rewrite bind_ret_l in Hh.
      eapply add_read_again_inv in Hh; [|done|lia]. destruct Hh as [-> Hsq]. apply (echo_ok s r q i c l); (done || lia).
Qed.

Lemma step_ok s s' : server_ok server_socket s -> step s s' -> server_ok server_socket s'.
Proof.
  intros Hok [a Ha]. destruct a as [k r bytes|o|]; simpl in Ha.
  - destruct (complete k r bytes s) as [s1|] eqn:Hc; simpl in Ha; [|done]. injection Ha as <-. by eapply complete_ok.
  - destruct (cq s) as [|[d r] q] eqn:Hq; [done|]. destruct (mapping_ok o s) eqn:Ho; [|done]. injection Ha as Ha. by eapply handle_ok.
  - injection Ha as <-. by apply submit_ok.
Qed.
End invariant.

(** ** Theorems *)

Lemma used_from_free i n c : in_use c = false -> used_from i (replicate n c) = [].
Proof. intros Hc. revert i. induction n as [|n IH]; intros i; simpl; [done|]. by rewrite Hc, IH. Qed.

Lemma server_boot_ok ok sock s0 : boot ok sock = Ok s0 -> server_ok sock s0.
Proof.
  unfold boot. intros [-> _]%add_accept_inv. assert (used_from 0 init_conn_table = []) as Hu by by apply used_from_free.
  split; unfold used, pending; cbn [conn_table sq inflight cq sys open_fds mapped live received writes add_live]; rewrite ?Hu; try done.
  - constructor.
  - apply Forall_replicate. done.
  - constructor.
  - intros a. rewrite lookup_empty. split; [by intros [? ?]|by intros ?%not_elem_of_nil].
Qed.

Lemma server_reachable_ok ok sock s0 s : boot ok sock = Ok s0 -> rtc step s0 s -> server_ok sock s.
Proof.
  intros Hb. apply (rtc_ind_r (R := step) (fun s => server_ok sock s)); [by eapply server_boot_ok|]. intros y z _ Hs Hok. by eapply step_ok.
Qed.

(** C15.  Bookkeeping of the server, whatever the order of completions: there is
    always exactly one accept request, exactly one read request for every
    connection in use, with its descriptor and buffer, and no other request; the
    open descriptors are, once each, those of the connections in use and those
    accepted and not seen yet; the mapped buffers are those of the connections in
    use, each with its own; the blocks allocated are those of the requests. So
    nothing leaks and nothing is shared. *)
Theorem server_accounts (ok : bool) (sock : Z) (s0 s : server) : boot ok sock = Ok s0 -> rtc step s0 s ->
  pending s ≡ₚ accept_request sock :: (request <$> used s) /\
  open_fds (sys s) ≡ₚ ((fun p => fd p.2) <$> used s) ++ accepted (cq s) /\ NoDup (open_fds (sys s)) /\
  (forall a, is_Some (mapped (sys s) !! a) <-> a ∈ ((fun p => buf p.2) <$> used s)) /\ NoDup ((fun p => buf p.2) <$> used s) /\
  live (sys s) = len (used s) + 1.
Proof.
  intros Hb Hs. pose proof (server_reachable_ok _ _ _ _ Hb Hs) as [_ _ Hp Hf Hfn _ _ _ Hbn Hm Hl _].
  do 5 (split; [done|]). rewrite Hl, Hp. simpl. rewrite length_fmap. lia.
Qed.

(** C22.  Echo: for every descriptor, the bytes the kernel has read from it are the
    bytes given to [write] on it, in order, and then those of the completions not
    handled yet; when no completion waits, everything read has been given back. *)
Theorem server_echoes (ok : bool) (sock : Z) (s0 s : server) (f : Z) : boot ok sock = Ok s0 -> rtc step s0 s ->
  on f (received (sys s)) = on f (writes (sys s)) ++ on f (waiting (mapped (sys s)) (cq s)) /\
  (cq s = [] -> on f (received (sys s)) = on f (writes (sys s))).
Proof.
  intros Hb Hs. pose proof (ok_echo _ _ (server_reachable_ok _ _ _ _ Hb Hs) f) as He. split; [done|].
  intros Hq. rewrite Hq in He. simpl in He. by rewrite app_nil_r in He.
Qed.

(** *** A run: one client, which sends two bytes and leaves *)

Definition results_ok (a : Z) : results := mkResults true a true.

Definition one_client : list act :=
  [Submit; Complete 0 7 []; Handle (results_ok 4096); Submit; Complete 0 2 [104; 105]; Handle (results_ok 8192); Submit;
   Complete 1 0 []; Handle (results_ok 8192)].

Lemma run_acts_rtc l : forall s s', run_acts l s = Some (Ok s') -> rtc step s s'.
Proof.
  induction l as [|a l IH]; intros s s' H; simpl in H; [by injection H as <-|].
  destruct (run_act a s) as [[s1|]|] eqn:Ha; [|done|done]. apply rtc_l with s1; [by exists a|]. by apply IH.
Qed.

Definition ran (l : list act) : option server :=
  match boot true 3 with Ok s => match run_acts l s with Some (Ok s') => Some s' | _ => None end | Fault _ => None end.

Lemma ran_reachable l s : ran l = Some s -> exists s0, boot true 3 = Ok s0 /\ rtc step s0 s.
Proof.
  unfold ran. destruct (boot true 3) as [s0|]; [|done]. destruct (run_acts l s0) as [[s'|]|] eqn:H; [|done|done].
  intros [= <-]. exists s0. split; [done|]. by eapply run_acts_rtc.
Qed.

Lemma one_client_runs : exists s, ran one_client = Some s /\ used s = [] /\ open_fds (sys s) = [] /\ writes (sys s) = [(7, [104; 105])] /\ cq s = [].
Proof. eexists. split; [vm_compute; reflexivity|]. by vm_compute. Qed.

Lemma server_accounts_witness : exists s, ran one_client = Some s /\ live (sys s) = len (used s) + 1.
Proof.
  destruct one_client_runs as (s & Hs & _). destruct (ran_reachable _ _ Hs) as (s0 & Hb & Hr).
  exists s. split; [exact Hs|]. apply (server_accounts true 3 s0 s Hb Hr).
Defined.

Lemma server_echoes_witness : exists s, ran one_client = Some s /\ on 7 (received (sys s)) = on 7 (writes (sys s)).
Proof.
  destruct one_client_runs as (s & Hs & _ & _ & _ & Hq). destruct (ran_reachable _ _ Hs) as (s0 & Hb & Hr).
  exists s. split; [exact Hs|]. apply (server_echoes true 3 s0 s 7 Hb Hr). exact Hq.
Defined.

(** *** Overload *)

Definition accept_client (n : nat) : list act := [Complete n (10 + Z.of_nat n) []; Handle (results_ok (4096 * (1 + Z.of_nat n))); Submit].

(** [n] clients connect one by one; then all of them send a byte before the loop
    looks at the completions. *)
Definition burst (n : nat) : list act :=
  Submit :: concat (accept_client <$> seq 0 n) ++ replicate n (Complete 0 1 [65]) ++ replicate n (Handle (results_ok (4096 * 5000))).

(** Overload: up to 256 connections whose reads complete together are served,
    but with 257 the server exits although every system call succeeds, because the
    read requests to queue outnumber the entries of the submission queue before the
    loop submits them. *)
Theorem server_overload_exits : exists s0 s, boot true 3 = Ok s0 /\
  run_acts (burst 256) s0 = Some (Ok s) /\ len (writes (sys s)) = 256 /\
  run_acts (burst 257) s0 = Some (Fault (Exit 1)).
Proof.
  assert (exists s0, boot true 3 = Ok s0) as [s0 Hb] by (eexists; vm_compute; reflexivity).
  assert ((fun s => len (writes (sys s))) <$> ran (burst 256) = Some 256) as Hs by (vm_compute; reflexivity).
  apply fmap_Some in Hs as (s & Hs & Hlen). unfold ran in Hs. rewrite Hb in Hs.
  destruct (run_acts (burst 256) s0) as [[s'|]|] eqn:Hr; [|done|done]. injection Hs as ->.
  exists s0, s. split; [done|]. split; [done|]. split; [done|].
  assert (match boot true 3 with Ok s => match run_acts (burst 257) s with Some (Fault (Exit c)) => c | _ => 0 end | _ => 0 end = 1) as H by (vm_compute; reflexivity).
  rewrite Hb in H. destruct (run_acts (burst 257) s0) as [[|e]|]; [done| |done]. destruct e; try done. by subst.
Qed.

(** *** Progress *)

Lemma queue_sqe_total d s : len (sq s) < QUEUE_DEPTH -> exists s', queue_sqe d s = Ok s' /\ len (sq s') = len (sq s) + 1.
Proof. intros H. unfold queue_sqe. destruct (Z.ltb_spec (len (sq s)) QUEUE_DEPTH); [|lia]. eexists. split; [done|]. simpl. rewrite length_app. simpl. lia. Qed.

Lemma add_read_total a i s c : zget (conn_table s) i = Some c -> 0 < a -> len (sq s) < QUEUE_DEPTH ->
  exists s', add_read_request true a i s = Ok s' /\ len (sq s') = len (sq s) + 1.
Proof.
  intros Hc Ha Hs. unfold add_read_request. simpl. rewrite (arr_read_Ok _ _ _ Hc), bind_ret_l. pose proof (zget_Some_range _ _ _ Hc) as Hr.
  destruct (buf c =? 0).
  - unfold MAP_FAILED. destruct (Z.eqb_spec a (-1)); [lia|]. rewrite bind_ret_l, arr_write_Ok, bind_ret_l by done. edestruct queue_sqe_total as (s' & -> & Hq); [exact Hs|by exists s'].
  - rewrite bind_ret_l, arr_write_Ok, bind_ret_l by done. edestruct queue_sqe_total as (s' & -> & Hq); [exact Hs|by exists s'].
Qed.

(** No completion stops the server: in every reachable state, while allocation
    and mapping succeed and the submission queue has two free entries, the handler
    returns; it dereferences no null or unmapped address and stays in the table. *)
Theorem server_handles (ok : bool) (sock : Z) (s0 s : server) (d : io_data) (r a : Z) (q : list (io_data * Z)) :
  boot ok sock = Ok s0 -> rtc step s0 s -> cq s = (d, r) :: q ->
  0 < a -> mapped (sys s) !! a = None -> len (sq s) + 2 <= QUEUE_DEPTH ->
  exists s', run_act (Handle (results_ok a)) s = Some (Ok s').
Proof.
  intros Hb Hs Hq Ha Hna Hsq. pose proof (server_reachable_ok _ _ _ _ Hb Hs) as Hok. simpl. rewrite Hq. unfold mapping_ok. simpl.
  destruct (Z.ltb_spec 0 a); [|lia]. rewrite bool_decide_eq_true_2 by done. rewrite orb_true_r.
  assert (d ∈ pending s) as Hd by (unfold pending; rewrite Hq, !elem_of_app; right; right; apply list_elem_of_here).
  destruct (pending_cases sock s d Hok Hd) as [->|([i c] & Hu & ->)]; simpl.
  - unfold handle_accept. cbn [malloc_read mmap_read malloc_accept results_ok conn_table].
    assert (forall s1, len (sq s1) < QUEUE_DEPTH -> exists s', (s ← add_accept_request true sock s1; Ok (set_sys s (add_live (-1) (sys s)))) = Ok s') as Hfin.
    { intros s1 H1. unfold add_accept_request. simpl. destruct (queue_sqe_total (mkData EVENT_TYPE_ACCEPT sock 0 0 0) (set_sys s1 (add_live 1 (sys s1)))) as (s2 & -> & _); [done|].
      rewrite bind_ret_l. by eexists. }
    destruct (r <? 0); [rewrite bind_ret_l; destruct (Hfin (popped s q)) as [s' Hs']; [simpl; lia|]; exists s'; f_equal; exact Hs'|].
    destruct (find_index _ _) as [i|] eqn:Hf.
    + apply find_index_Some_fwd in Hf as (c & Hc & _). pose proof (zget_Some_range _ _ _ Hc) as Hr.
      rewrite (arr_read_Ok _ _ _ Hc), bind_ret_l, arr_write_Ok, bind_ret_l by done.
      edestruct (add_read_total a i) as (s1 & -> & Hlen); [by apply zget_zset_eq|done|simpl; lia|].
      rewrite bind_ret_l. destruct (Hfin s1) as [s' Hs']; [simpl in Hlen; lia|]. exists s'. f_equal. exact Hs'.
    + rewrite bind_ret_l. edestruct Hfin as [s' Hs']; [|exists s'; f_equal; exact Hs']. simpl. lia.
  - pose proof Hu as [Hi Hc]%elem_of_used. assert (is_Some (mapped (sys s) !! buf c)) as [l Hl].
    { apply (ok_mapped _ _ Hok). apply list_elem_of_fmap. by exists (i, c). }
    assert (exists s', cleanup_conn (Some i) (popped s q) = Ok s') as [s' Hcl].
    { unfold cleanup_conn. simpl. rewrite (arr_read_Ok _ _ _ Hi), bind_ret_l. pose proof (zget_Some_range _ _ _ Hi).
      destruct (0 <=? fd c); simpl; destruct (negb (buf c =? 0)); rewrite arr_write_Ok, bind_ret_l by done; by eexists. }
    unfold handle_read. cbn [conn request fst snd]. fold (popped s q). destruct (r <? 0); [rewrite Hcl, bind_ret_l; by eexists|].
    destruct (r =? 0); [rewrite Hcl, bind_ret_l; by eexists|]. cbn [conn_table popped]. rewrite (arr_read_Ok _ _ _ Hi), bind_ret_l. unfold write. simpl. rewrite Hl, bind_ret_l.
    edestruct (add_read_total a i) as (s1 & -> & _); [exact Hi|done|simpl; lia|]. rewrite bind_ret_l. by eexists.
Qed.

Definition first_bytes : list act := [Submit; Complete 0 7 []; Handle (results_ok 4096); Submit; Complete 0 2 [104; 105]].

Lemma server_handles_witness : exists s s', ran first_bytes = Some s /\ run_act (Handle (results_ok 8192)) s = Some (Ok s').
Proof.
  assert (exists s d r, ran first_bytes = Some s /\ cq s = [(d, r)] /\ mapped (sys s) !! 8192 = None /\ len (sq s) + 2 <= QUEUE_DEPTH) as (s & d & r & Hs & Hq & Hm & Hsq).
  { eexists _, _, _. split; [vm_compute; reflexivity|]. split; [reflexivity|]. split; [vm_compute; reflexivity|]. discriminate. }
  destruct (ran_reachable _ _ Hs) as (s0 & Hb & Hr).
  destruct (server_handles true 3 s0 s d r 8192 [] Hb Hr Hq) as [s' Hs']; [lia|exact Hm|exact Hsq|]. exists s, s'. exact (conj Hs Hs').
Defined.
