(* ===== verification/Sync.v ===== *)
(** * Futex mutex, semaphores and counters ([concurrency], [accessPatterns])

    [Futex]: the mutex of [synchronization/preemmtibleCriticalSections.c], built
    from compare-and-swap and [FUTEX_WAIT]/[FUTEX_WAKE], with the threads that use
    it. [Semaphores]: the processes of [threads/semaphores/], which pass messages
    through shared memory with two semaphores. [Counters]: threads that increment
    shared counters. One step is one access to shared memory or one system call. *)
From Stdlib Require Import ZArith Lia.
From stdpp Require Import base tactics list numbers option relations.
From S2P Require Import Prelude.

#[local] Open Scope Z_scope.
#[local] Open Scope c_scope.

(** ** Futex mutex *)
Module Futex.

(** A thread, with the critical sections it has still to enter: the loop of
    [rt_mutex_lock] (compare-and-swap, wait, asleep in the kernel), [owner = tid],
    the two halves of [shared_counter++], then [rt_mutex_unlock] ([owner = -1],
    [lock = 0], wake). *)
Inductive thread : Type :=
  | Try (k : Z) | Wait (k : Z) | Asleep (k : Z)
  | SetOwner (k : Z) | Load (k : Z) | Store (k v : Z)
  | ClearOwner (k : Z) | Release (k : Z) | Wake (k : Z)
  | Finished.

#[export] Instance thread_eq_dec : EqDecision thread.
Proof. solve_decision. Defined.

Record state : Type := mkState { lock : Z; owner : Z; shared_counter : Z; threads : list thread }.

Definition ROUNDS : Z := 3.

(** What [thread_func] does next. *)
Definition next_round (k : Z) : thread := if k =? 1 then Finished else Try (k - 1).

Definition put (s : state) (i : Z) (t : thread) : list thread := zset (threads s) i t.

(** The step of thread [i]; a wake-up call wakes thread [j] if it sleeps, and may
    do nothing only when no thread does. *)
Definition asleep (t : thread) : bool := match t with Asleep _ => true | _ => false end.

Definition thread_step (i j : Z) (s : state) : option state :=
  t ← zget (threads s) i;
  match t with
  | Try k =>
      if lock s =? 0 then Some (mkState 1 (owner s) (shared_counter s) (put s i (SetOwner k)))
      else Some (mkState (lock s) (owner s) (shared_counter s) (put s i (Wait k)))
  | Wait k =>
      Some (mkState (lock s) (owner s) (shared_counter s) (put s i (if lock s =? 1 then Asleep k else Try k)))
  | SetOwner k => Some (mkState (lock s) i (shared_counter s) (put s i (Load k)))
  | Load k => Some (mkState (lock s) (owner s) (shared_counter s) (put s i (Store k (shared_counter s))))
  | Store k v => Some (mkState (lock s) (owner s) (v + 1) (put s i (ClearOwner k)))
  | ClearOwner k => Some (mkState (lock s) (-1) (shared_counter s) (put s i (Release k)))
  | Release k => Some (mkState 0 (owner s) (shared_counter s) (put s i (Wake k)))
  | Wake k =>
      let ts := put s i (next_round k) in
      match zget ts j with
      | Some (Asleep k') => Some (mkState (lock s) (owner s) (shared_counter s) (zset ts j (Try k')))
      | _ => if existsb asleep ts then None else Some (mkState (lock s) (owner s) (shared_counter s) ts)
      end
  | Asleep _ | Finished => None
  end.

(** [FUTEX_WAIT] may also return without a wake-up call, after a signal. *)
Definition interrupted (i : Z) (s : state) : option state :=
  t ← zget (threads s) i;
  match t with
  | Asleep k => Some (mkState (lock s) (owner s) (shared_counter s) (put s i (Try k)))
  | _ => None
  end.

Definition step (s s' : state) : Prop := exists i j, thread_step i j s = Some s' \/ interrupted i s = Some s'.

(** After [rt_mutex_init], with [n] threads started. *)
Definition start (n : nat) : state := mkState 0 (-1) 0 (replicate n (Try ROUNDS)).

(** *** Invariant *)

Definition holds (t : thread) : Z :=
  match t with SetOwner _ | Load _ | Store _ _ | ClearOwner _ | Release _ => 1 | _ => 0 end.

(** Increments a thread has made. *)
Definition made (t : thread) : Z :=
  match t with
  | Try k | Wait k | Asleep k | SetOwner k | Load k | Store k _ => ROUNDS - k
  | ClearOwner k | Release k | Wake k => ROUNDS - k + 1
  | Finished => ROUNDS
  end.

Definition thread_ok (s : state) (i : Z) (t : thread) : Prop :=
  match t with
  | Load _ | ClearOwner _ => owner s = i
  | Store _ v => owner s = i /\ v = shared_counter s
  | _ => True
  end.

Definition active (t : thread) : bool := match t with Asleep _ | Finished => false | _ => true end.

Record ok (s : state) : Prop := mkOk {
  ok_lock : lock s = total holds (threads s);
  ok_lock01 : 0 <= lock s <= 1;
  ok_threads : forall i t, zget (threads s) i = Some t -> thread_ok s i t;
  ok_counter : shared_counter s = total made (threads s);
  ok_wake : (exists i t, zget (threads s) i = Some t /\ asleep t = true) -> exists i t, zget (threads s) i = Some t /\ active t = true
}.

Lemma holds_nonneg l : Forall (fun t => 0 <= holds t) l.
Proof. apply Forall_forall. intros t _. by destruct t. Qed.

Lemma total_pos_member {A} (f : A -> Z) l : 0 < total f l -> exists i x, zget l i = Some x /\ 0 < f x.
Proof.
  induction l as [|x l IH]; simpl; intros H; [lia|]. destruct (Z.ltb_spec 0 (f x)); [by exists 0, x|].
  destruct IH as (i & y & Hi & Hy); [lia|]. pose proof (zget_Some_range _ _ _ Hi). exists (i + 1), y. rewrite zget_cons. case_cond; [lia|].
  by replace (i + 1 - 1) with i by lia.
Qed.

Lemma only_holder s i t j u : ok s -> zget (threads s) i = Some t -> holds t = 1 -> j <> i -> zget (threads s) j = Some u -> holds u = 0.
Proof.
  intros Hok Hi Ht Hij Hj. assert (Forall (fun x => holds x = 0) (zset (threads s) i Finished)) as Hz.
  { apply total_zero_all; [apply holds_nonneg|]. rewrite (total_zset holds _ _ t), <- (ok_lock _ Hok) by done. simpl. pose proof (ok_lock01 _ Hok). lia. }
  exact (Forall_zget _ _ j _ Hz ltac:(by rewrite zget_zset_ne)).
Qed.

Lemma holder_exists s : ok s -> lock s = 1 -> exists i t, zget (threads s) i = Some t /\ holds t = 1.
Proof.
  intros Hok Hl. destruct (total_pos_member holds (threads s)) as (i & t & Hi & Ht); [rewrite <- (ok_lock _ Hok); lia|].
  exists i, t. split; [done|]. destruct t; simpl in *; lia.
Qed.

(** One thread moves from [t] to [t']; only the holder changes owner and counter. *)
Lemma ok_update s i t t' l o c : ok s -> zget (threads s) i = Some t ->
  l = lock s - holds t + holds t' -> 0 <= l <= 1 -> c = shared_counter s - made t + made t' ->
  holds t = 1 \/ (o = owner s /\ c = shared_counter s) ->
  thread_ok (mkState l o c (put s i t')) i t' ->
  active t' = true \/ (exists j u, j <> i /\ zget (threads s) j = Some u /\ active u = true) \/
    (forall j u, zget (put s i t') j = Some u -> asleep u = false) ->
  ok (mkState l o c (put s i t')).
Proof.
  intros Hok Hi Hl Hl01 Hc Hown Hti Hact. pose proof (zget_Some_range _ _ _ Hi) as Hr. split; simpl; unfold put in *.
  - rewrite (total_zset holds _ _ t), <- (ok_lock _ Hok) by done. done.
  - done.
  - intros j u Hj. destruct (decide (j = i)) as [->|Hij]; [rewrite zget_zset_eq in Hj by done; by injection Hj as <-|].
    rewrite zget_zset_ne in Hj by done. pose proof (ok_threads _ Hok j u Hj) as Hu. destruct Hown as [Hh|[-> ->]]; [|exact Hu].
    pose proof (only_holder s i t j u Hok Hi Hh Hij Hj) as H0. destruct u; simpl in *; (done || lia).
  - rewrite (total_zset made _ _ t), <- (ok_counter _ Hok) by done. done.
  - intros (j & u & Hj & Hs). destruct Hact as [Ha|[(j' & u' & Hne & Hj' & Ha)|Hnone]].
    + exists i, t'. by rewrite zget_zset_eq.
    + exists j', u'. by rewrite zget_zset_ne.
    + by rewrite (Hnone j u Hj) in Hs.
Qed.

Lemma interrupted_ok i s s' : ok s -> interrupted i s = Some s' -> ok s'.
Proof.
  intros Hok H. unfold interrupted in H. destruct (zget (threads s) i) as [t|] eqn:Hi; simpl in H; [|done].
  destruct t; try done. injection H as <-. pose proof (ok_lock01 _ Hok). apply (ok_update s i (Asleep k)); simpl; auto; lia.
Qed.

Lemma next_round_made k : made (next_round k) = ROUNDS - k + 1.
Proof. unfold next_round. case_cond; simpl; lia. Qed.

Lemma next_round_holds k : holds (next_round k) = 0 /\ asleep (next_round k) = false.
Proof. unfold next_round. by case_cond. Qed.

Lemma wake_ok s i k : ok s -> zget (threads s) i = Some (Wake k) ->
  (exists j u, j <> i /\ zget (threads s) j = Some u /\ active u = true) \/ (forall j u, zget (put s i (next_round k)) j = Some u -> asleep u = false) ->
  ok (mkState (lock s) (owner s) (shared_counter s) (put s i (next_round k))).
Proof.
  intros Hok Hi Hact. pose proof (ok_lock01 _ Hok). destruct (next_round_holds k) as [Hh _].
  apply (ok_update s i (Wake k)); rewrite ?Hh, ?next_round_made; simpl; auto; try lia. unfold next_round. by case_cond.
Qed.

Ltac move_thread :=
  (eapply ok_update; [eassumption|eassumption|..]); simpl; auto; try lia.

Lemma thread_step_ok i j s s' : ok s -> thread_step i j s = Some s' -> ok s'.
Proof.
  intros Hok H. unfold thread_step in H. destruct (zget (threads s) i) as [t|] eqn:Hi; simpl in H; [|done].
  pose proof (ok_lock01 _ Hok) as Hl01. pose proof (ok_threads _ Hok i t Hi) as Ht.
  assert (holds t <= lock s) as Hhl by (rewrite (ok_lock _ Hok); eapply total_member; [apply holds_nonneg|done]).
  destruct t; simpl in *; try done.
  - destruct (Z.eqb_spec (lock s) 0) as [Hl|Hl]; injection H as <-; move_thread.
  - injection H as <-. destruct (Z.eqb_spec (lock s) 1) as [Hl|Hl]; move_thread.
    right. left. destruct (holder_exists s Hok Hl) as (j' & u & Hj & Hu). exists j', u.
    split; [intros ->; rewrite Hi in Hj; by injection Hj as <-|]. split; [done|]. by destruct u.
  - injection H as <-. move_thread.
  - injection H as <-. move_thread.
  - injection H as <-. destruct Ht as [Ho ->]. move_thread.
  - injection H as <-. move_thread.
  - injection H as <-. move_thread.
  - assert (forall l : list thread, existsb asleep l = false -> forall j u, zget l j = Some u -> asleep u = false) as Hnone.
    { intros l He j' u Hu. destruct (asleep u) eqn:Hs; [|done]. assert (existsb asleep l = true); [|congruence].
      apply existsb_exists. exists u. split; [|done]. apply list_elem_of_In, elem_of_zget. by exists j'. }
    assert (existsb asleep (put s i (next_round k)) = false -> ok (mkState (lock s) (owner s) (shared_counter s) (put s i (next_round k)))) as Hquiet.
    { intros He. apply wake_ok; [done|done|]. right. by apply Hnone. }
    destruct (zget (put s i (next_round k)) j) as [u|] eqn:Hj;
      [|destruct (existsb asleep _); [done|]; injection H as <-; by apply Hquiet].
    destruct u; try (destruct (existsb asleep _); [done|]; injection H as <-; by apply Hquiet).
    injection H as <-. assert (j <> i) as Hji. { intros ->. unfold put in Hj. rewrite zget_zset_eq in Hj by (by eapply zget_Some_range).
      injection Hj as Hj. pose proof (next_round_holds k) as [_ Ha]. by rewrite Hj in Ha. }
    unfold put in *. rewrite zget_zset_ne in Hj by done. rewrite zset_zset_ne by done.
    apply (wake_ok (mkState (lock s) (owner s) (shared_counter s) (zset (threads s) j (Try k0)))); simpl.
    + apply (interrupted_ok j s); [done|]. unfold interrupted. by rewrite Hj.
    + by rewrite zget_zset_ne.
    + left. exists j, (Try k0). rewrite zget_zset_eq by (by eapply zget_Some_range). done.
Qed.

Lemma start_ok n : ok (start n).
Proof.
  assert (forall f, f (Try ROUNDS) = 0 -> total f (replicate n (Try ROUNDS)) = 0) as H0.
  { intros f Hf. induction n as [|n IH]; simpl; [done|]. rewrite IH, Hf. done. }
  split; simpl.
  - by rewrite H0.
  - lia.
  - intros i t Hi%zget_replicate. by subst.
  - by rewrite H0.
  - intros (i & t & Hi%zget_replicate & Ha). by subst.
Qed.

Lemma step_len s s' : step s s' -> length (threads s') = length (threads s).
Proof.
  intros (i & j & [H|H]); [unfold thread_step in H|unfold interrupted in H]; destruct (zget (threads s) i) as [t|]; simpl in H; try done.
  - destruct t; repeat case_match; simplify_eq; simpl; unfold put; rewrite ?length_zset; done.
  - destruct t; simplify_eq; simpl; unfold put; by rewrite length_zset.
Qed.

Lemma futex_reachable n s : rtc step (start n) s -> ok s /\ length (threads s) = n.
Proof.
  apply (rtc_ind_r (R := step) (fun s => ok s /\ length (threads s) = n)).
  - split; [apply start_ok|simpl; apply length_replicate].
  - intros y z _ Hstep [Hok Hlen]. rewrite (step_len _ _ Hstep). split; [|done].
    destruct Hstep as (i & j & [H|H]); [by eapply thread_step_ok|by eapply interrupted_ok].
Qed.

Lemma active_steps s i t : zget (threads s) i = Some t -> active t = true -> exists j s', thread_step i j s = Some s'.
Proof.
  intros Hi Ha. unfold thread_step. rewrite Hi. simpl. destruct t; try done; try (by exists 0; eexists); [exists 0; case_match; by eexists|].
  destruct (existsb asleep (put s i (next_round k))) eqn:He.
  - apply existsb_exists in He as (u & [j Hj]%list_elem_of_In%elem_of_zget & Hu). exists j. rewrite Hj. destruct u; try done. by eexists.
  - exists i. destruct (zget (put s i (next_round k)) i) as [u|]; [|by eexists]. destruct u; by eexists.
Qed.

(** C17.  The mutex: whatever the schedule of any number of threads, wake-ups and
    interruptions included, at most one thread is between [rt_mutex_lock] and the
    release; when all threads are finished the counter is three times their
    number, no increment being lost; and until then some thread can go on, so no
    wake-up is lost. *)
Theorem futex_mutex_correct (n : nat) (s : state) : rtc step (start n) s ->
  (forall i j t u, zget (threads s) i = Some t -> zget (threads s) j = Some u -> holds t = 1 -> holds u = 1 -> i = j) /\
  ((forall i t, zget (threads s) i = Some t -> t = Finished) -> shared_counter s = ROUNDS * Z.of_nat n) /\
  ((forall i t, zget (threads s) i = Some t -> t = Finished) \/ exists i j s', thread_step i j s = Some s').
Proof.
  intros [Hok Hlen]%futex_reachable. split; [|split].
  - intros i j t u Hi Hj Ht Hu. destruct (decide (j = i)) as [->|Hne]; [done|].
    by rewrite (only_holder s i t j u Hok Hi Ht Hne Hj) in Hu.
  - intros Hfin. rewrite (ok_counter _ Hok), <- Hlen. clear Hlen Hok. induction (threads s) as [|t l IH]; [simpl; lia|].
    rewrite (Hfin 0 t) by (rewrite zget_cons; done). simpl. rewrite IH; [lia|].
    intros i u Hi. pose proof (zget_Some_range _ _ _ Hi). apply (Hfin (i + 1)). rewrite zget_cons. case_cond; [lia|]. by replace (i + 1 - 1) with i by lia.
  - destruct (decide (Forall (fun t => t = Finished) (threads s))) as [Hf|Hf].
    + left. intros i t Hi. exact (Forall_zget _ _ _ _ Hf Hi).
    + right. apply not_Forall_Exists in Hf; [|apply _].
      apply Exists_exists in Hf as (t & [i Hi]%elem_of_zget & Ht).
      assert (exists i t, zget (threads s) i = Some t /\ active t = true) as (i' & t' & Hi' & Ha).
      { destruct (active t) eqn:Ha; [by exists i, t|]. apply (ok_wake _ Hok). exists i, t. destruct t; try done. by destruct Ht. }
      exists i'. by eapply active_steps.
Qed.

Lemma futex_mutex_correct_witness : exists s, rtc step (start 2) s /\ lock s = 1 /\ exists i j s', thread_step i j s = Some s'.
Proof.
  assert (rtc step (start 2) (mkState 1 (-1) 0 [SetOwner ROUNDS; Wait ROUNDS])) as Hr.
  { apply rtc_l with (mkState 1 (-1) 0 [SetOwner ROUNDS; Try ROUNDS]); [exists 0, 0; by left|].
    apply rtc_once. exists 1, 0. by left. }
  eexists. split; [exact Hr|]. split; [reflexivity|].
  destruct (futex_mutex_correct 2 _ Hr) as (_ & _ & [H|H]); [|exact H]. discriminate (H 0 (SetOwner ROUNDS) eq_refl).
Defined.
End Futex.

(** ** Two semaphores *)
Module Semaphores.

Definition MAX_MESSAGE_SIZE : Z := 256.
Definition MESSAGES : Z := 10.

(** [producer.c] in its loop: [sem_wait(sem_cons)], [snprintf], [sem_post(sem_prod)]. *)
Inductive producer : Type := PWait (i : Z) | PWrite (i : Z) | PPost (i : Z) | PDone.

(** [consumer.c] in its loop: [sem_wait(sem_prod)], [printf], [memset],
    [sem_post(sem_cons)]. *)
Inductive consumer : Type := CWait (i : Z) | CPrint (i : Z) | CClear (i : Z) | CPost (i : Z) | CDone.

(** [consumed] is what the consumer has printed. *)
Record state : Type := mkState {
  sem_prod : Z; sem_cons : Z; message : list Z;
  prod_at : producer; cons_at : consumer; consumed : list (list Z)
}.

(** "Message %d" with a number of one digit. *)
Definition text (i : Z) : list Z := [77; 101; 115; 115; 97; 103; 101; 32; 48 + i].

Definition snprintf_text (l : list Z) (i : Z) : list Z :=
  let t := take (Z.to_nat MAX_MESSAGE_SIZE - 1) (text i) ++ [0] in t ++ drop (length t) l.

(** The string that starts an array. *)
Fixpoint cstring (l : list Z) : list Z :=
  match l with [] => [] | c :: l => if c =? 0 then [] else c :: cstring l end.

Definition producer_step (s : state) : option state :=
  match prod_at s with
  | PWait i =>
      if 0 <? sem_cons s then Some (mkState (sem_prod s) (sem_cons s - 1) (message s) (PWrite i) (cons_at s) (consumed s)) else None
  | PWrite i => Some (mkState (sem_prod s) (sem_cons s) (snprintf_text (message s) i) (PPost i) (cons_at s) (consumed s))
  | PPost i =>
      Some (mkState (sem_prod s + 1) (sem_cons s) (message s) (if i + 1 <? MESSAGES then PWait (i + 1) else PDone) (cons_at s) (consumed s))
  | PDone => None
  end.

Definition consumer_step (s : state) : option state :=
  match cons_at s with
  | CWait i =>
      if 0 <? sem_prod s then Some (mkState (sem_prod s - 1) (sem_cons s) (message s) (prod_at s) (CPrint i) (consumed s)) else None
  | CPrint i => Some (mkState (sem_prod s) (sem_cons s) (message s) (prod_at s) (CClear i) (consumed s ++ [cstring (message s)]))
  | CClear i =>
      Some (mkState (sem_prod s) (sem_cons s) (replicate (Z.to_nat MAX_MESSAGE_SIZE) 0) (prod_at s) (CPost i) (consumed s))
  | CPost i =>
      Some (mkState (sem_prod s) (sem_cons s + 1) (message s) (prod_at s) (if i + 1 <? MESSAGES then CWait (i + 1) else CDone) (consumed s))
  | CDone => None
  end.

Definition step (s s' : state) : Prop := producer_step s = Some s' \/ consumer_step s = Some s'.

(** The consumer creates the semaphores with 0 and 1; the memory is zero. *)
Definition start : state :=
  mkState 0 1 (replicate (Z.to_nat MAX_MESSAGE_SIZE) 0) (PWait 0) (CWait 0) [].

(** *** Invariant *)

(** Messages posted, messages freed, and who is between its wait and its post. *)
Definition sent (s : state) : Z := match prod_at s with PWait i | PWrite i | PPost i => i | PDone => MESSAGES end.
Definition freed (s : state) : Z := match cons_at s with CWait j | CPrint j | CClear j | CPost j => j | CDone => MESSAGES end.
Definition producing (s : state) : Z := match prod_at s with PWrite _ | PPost _ => 1 | _ => 0 end.
Definition consuming (s : state) : Z := match cons_at s with CPrint _ | CClear _ | CPost _ => 1 | _ => 0 end.
Definition printed (s : state) : Z := match cons_at s with CClear j | CPost j => j + 1 | _ => freed s end.

Record ok (s : state) : Prop := mkOk {
  ok_prod : sem_prod s = sent s - freed s - consuming s;
  ok_cons : sem_cons s = 1 - (sent s - freed s) - producing s;
  ok_nonneg : 0 <= sem_prod s /\ 0 <= sem_cons s;
  ok_range : 0 <= sent s <= MESSAGES /\ 0 <= freed s <= MESSAGES;
  ok_at : match prod_at s with PDone => True | _ => sent s < MESSAGES end /\ match cons_at s with CDone => True | _ => freed s < MESSAGES end;
  ok_written : match prod_at s with PPost i => cstring (message s) = text i | _ => True end;
  ok_message : match cons_at s with CWait j | CPrint j => j < sent s -> cstring (message s) = text j | _ => True end;
  ok_consumed : consumed s = text <$> seqZ 0 (printed s)
}.

Lemma cstring_snprintf l i : 0 <= i -> cstring (snprintf_text l i) = text i.
Proof.
  intros Hi. unfold snprintf_text. change (take (Z.to_nat MAX_MESSAGE_SIZE - 1) (text i)) with (text i).
  simpl. destruct (Z.eqb_spec (48 + i) 0); [lia|]. done.
Qed.

Ltac sem_unfold := unfold printed in *; unfold sent, freed, producing, consuming, MESSAGES in *; simpl in *.

Lemma producer_ok s s' : ok s -> producer_step s = Some s' -> ok s'.
Proof.
  intros [Hp Hc Hn Hr Ha Hw Hm Hco] H. destruct s as [sp sc msg p c out]. unfold producer_step in H. simpl in H.
  destruct p as [i|i|i|]; simpl in *.
  - destruct (Z.ltb_spec 0 sc); [|done]. injection H as <-. split; sem_unfold; (done || lia).
  - injection H as <-. split; sem_unfold; try (done || lia); [apply (cstring_snprintf msg i); lia|]. destruct c; try done; intros; lia.
  - injection H as <-. destruct (Z.ltb_spec (i + 1) MESSAGES); split; sem_unfold; try (done || lia || (split; [done || lia|by apply Ha]));
      (destruct c; try done; intros; rewrite Hw; f_equal; lia).
  - done.
Qed.

Lemma consumer_ok s s' : ok s -> consumer_step s = Some s' -> ok s'.
Proof.
  intros [Hp Hc Hn Hr Ha Hw Hm Hco] H. destruct s as [sp sc msg p c out]. unfold consumer_step in H. simpl in H.
  destruct c as [j|j|j|j|]; simpl in *.
  - destruct (Z.ltb_spec 0 sp); [|done]. injection H as <-. split; sem_unfold; (done || lia).
  - injection H as <-. split; sem_unfold; try (done || lia). rewrite Hco, Hm by (destruct p; lia).
    rewrite seqZ_app by lia. rewrite fmap_app. simpl. by rewrite Z.add_0_l.
  - injection H as <-. split; sem_unfold; try (done || lia). destruct p; try done. lia.
  - injection H as <-. destruct (Z.ltb_spec (j + 1) MESSAGES); split; sem_unfold; try (done || lia || (split; [by apply Ha|done || lia])); try (intros; destruct p; lia).
    rewrite Hco. by replace (j + 1) with 10 by lia.
  - done.
Qed.

(** Steps left. *)
Definition left_to_do (s : state) : Z :=
  match prod_at s with PWait i => 3 * (MESSAGES - i) | PWrite i => 3 * (MESSAGES - i) - 1 | PPost i => 3 * (MESSAGES - i) - 2 | PDone => 0 end +
  match cons_at s with CWait j => 4 * (MESSAGES - j) | CPrint j => 4 * (MESSAGES - j) - 1 | CClear j => 4 * (MESSAGES - j) - 2
                     | CPost j => 4 * (MESSAGES - j) - 3 | CDone => 0 end.

Lemma step_left s s' : ok s -> step s s' -> left_to_do s' = left_to_do s - 1.
Proof.
  intros Hok Hs. pose proof (ok_at _ Hok) as [Hap Hac]. destruct s as [sp sc msg p c out].
  destruct Hs as [H|H]; [unfold producer_step in H; destruct p|unfold consumer_step in H; destruct c]; simpl in H; try done;
    repeat case_match; simplify_eq; unfold left_to_do; sem_unfold; zbool; lia.
Qed.

Lemma sem_reachable n s : nsteps step n start s -> ok s /\ left_to_do s = 70 - Z.of_nat n.
Proof.
  revert s. induction n as [|n IH]; intros s H.
  - inversion H. subst. split; [|done]. split; sem_unfold; (done || lia).
  - apply nsteps_inv_r in H as (y & Hy & Hs). apply IH in Hy as [Hok Hl]. split; [|rewrite (step_left y) by done; lia].
    destruct Hs; [by eapply producer_ok|by eapply consumer_ok].
Qed.

(** The two processes, whatever the schedule: they are never both between
    their wait and their post; what the consumer prints are the messages in order,
    none lost, repeated or torn; until both are done one of them can go on; and
    they are done after 70 steps, with the ten messages printed. *)
Theorem semaphores_in_turn (n : nat) (s : state) : nsteps step n start s ->
  producing s + consuming s <= 1 /\ consumed s = text <$> seqZ 0 (printed s) /\ Z.of_nat n <= 70 /\
  (if bool_decide (n = 70%nat) then consumed s = text <$> seqZ 0 MESSAGES else exists s', step s s').
Proof.
  intros [Hok Hl]%sem_reachable. pose proof Hok as [Hp Hc Hn Hr Ha Hw Hm Hco]. destruct s as [sp sc msg p c out].
  unfold left_to_do in Hl. split; [|split; [done|]].
  - destruct p, c; sem_unfold; lia.
  - split; [destruct p, c; sem_unfold; lia|]. case_bool_decide.
    + assert (printed (mkState sp sc msg p c out) = MESSAGES) as <-; [|done].
      replace (70 - Z.of_nat n) with 0 in Hl by lia. destruct p, c; sem_unfold; lia.
    + unfold step, producer_step, consumer_step. destruct p, c; sem_unfold; try lia; try (by eexists; left); try (by eexists; right);
        (destruct (Z.ltb_spec 0 sc); [by eexists; left|]; destruct (Z.ltb_spec 0 sp); [by eexists; right|lia]) ||
        (destruct (Z.ltb_spec 0 sc); [by eexists; left|lia]) || (destruct (Z.ltb_spec 0 sp); [by eexists; right|lia]).
Qed.

Lemma semaphores_in_turn_witness : exists s s', nsteps step 1 start s /\ step s s'.
Proof.
  assert (nsteps step 1 start (mkState 0 0 (replicate (Z.to_nat MAX_MESSAGE_SIZE) 0) (PWrite 0) (CWait 0) [])) as Hs.
  { apply nsteps_once. left. reflexivity. }
  eexists. destruct (semaphores_in_turn 1 _ Hs) as (_ & _ & _ & [s' Hs']). exists s'. exact (conj Hs Hs').
Defined.
End Semaphores.

(** ** Shared counters

    Threads that increment an atomic counter a number of times
    ([accessPatterns/sharedCounter.c], [concurrency/threads/multiThreading.c]); in
    [accessPatterns/memoryBarrier.c] they also increment a plain variable, in a load
    and a store, and compare it with the counter. *)
Module Counters.

(** A thread with the iterations it has still to finish: the atomic increment, the
    two halves of [data++], the comparison (which only prints). *)
Inductive thread : Type := Add (k : Z) | LoadData (k : Z) | StoreData (k v : Z) | Compare (k : Z) | Finished.

Record state : Type := mkState { counter : Z; data : Z; threads : list thread }.

Definition next_iteration (k : Z) : thread := if k =? 1 then Finished else Add (k - 1).

(** [plain]: the program has the plain variable. *)
Definition thread_step (plain : bool) (i : Z) (s : state) : option state :=
  t ← zget (threads s) i;
  match t with
  | Add k => Some (mkState (counter s + 1) (data s) (zset (threads s) i (if plain then LoadData k else next_iteration k)))
  | LoadData k => Some (mkState (counter s) (data s) (zset (threads s) i (StoreData k (data s))))
  | StoreData k v => Some (mkState (counter s) (v + 1) (zset (threads s) i (Compare k)))
  | Compare k => Some (mkState (counter s) (data s) (zset (threads s) i (next_iteration k)))
  | Finished => None
  end.

Definition step (plain : bool) (s s' : state) : Prop := exists i, thread_step plain i s = Some s'.

Definition start (n : nat) (iterations : Z) : state := mkState 0 0 (replicate n (Add iterations)).

(** *** The atomic counter *)

(** Increments of the counter still to come. *)
Definition to_add (t : thread) : Z := match t with Add k => k | LoadData k | StoreData k _ | Compare k => k - 1 | Finished => 0 end.

(** Increments of the variable that follow one of the counter already made. *)
Definition to_store (t : thread) : Z := match t with LoadData _ | StoreData _ _ => 1 | _ => 0 end.

Definition thread_ok (s : state) (t : thread) : Prop :=
  match t with
  | Add k | LoadData k | Compare k => 1 <= k
  | StoreData k v => 1 <= k /\ 0 <= v /\ v + total to_store (threads s) <= counter s
  | Finished => True
  end.

Record ok (total_count : Z) (s : state) : Prop := mkOk {
  ok_count : counter s + total to_add (threads s) = total_count;
  ok_data : 0 <= data s /\ data s + total to_store (threads s) <= counter s;
  ok_threads : Forall (thread_ok s) (threads s)
}.

Lemma next_iteration_ok s k : 1 <= k -> to_add (next_iteration k) = k - 1 /\ to_store (next_iteration k) = 0 /\ thread_ok s (next_iteration k).
Proof. intros Hk. unfold next_iteration. case_cond; simpl; lia. Qed.

(** A thread moves from [t] to [t'] with new values of the variables. *)
Lemma counters_update c s i t t' n d : ok c s -> zget (threads s) i = Some t ->
  n + to_add t' = counter s + to_add t -> counter s <= n -> to_store t' - n <= to_store t - counter s ->
  0 <= d /\ d + total to_store (threads s) - to_store t + to_store t' <= n ->
  thread_ok (mkState n d (zset (threads s) i t')) t' -> ok c (mkState n d (zset (threads s) i t')).
Proof.
  intros [Hc Hd Ht] Hi Hadd Hn Hst Hd' Hok. split; simpl.
  - rewrite (total_zset to_add _ _ t) by done. lia.
  - rewrite (total_zset to_store _ _ t) by done. lia.
  - apply Forall_zset; [|done]. eapply list.Forall_impl; [exact Ht|]. intros u Hu. destruct u; simpl in *; try done.
    rewrite (total_zset to_store _ _ t) by done. lia.
Qed.

Lemma counters_step_ok plain c s s' : ok c s -> step plain s s' -> ok c s'.
Proof.
  intros Hok [i H]. pose proof Hok as [Hc [Hd0 Hd] Ht]. unfold thread_step in H. destruct (zget (threads s) i) as [t|] eqn:Hi; simpl in H; [|done].
  pose proof (Forall_zget _ _ _ _ Ht Hi) as Hti. destruct t; simpl in *; try done; injection H as <-.
  - destruct plain; [eapply counters_update; [exact Hok|exact Hi|..]; simpl; lia|].
    destruct (next_iteration_ok (mkState (counter s + 1) (data s) (zset (threads s) i (next_iteration k))) k Hti) as (H1 & H2 & H3).
    eapply counters_update; [exact Hok|exact Hi|..]; rewrite ?H1, ?H2; simpl; (exact H3 || lia).
  - eapply counters_update; [exact Hok|exact Hi|..]; simpl; try lia. rewrite (total_zset to_store _ _ (LoadData k)) by done. simpl. lia.
  - eapply counters_update; [exact Hok|exact Hi|..]; simpl; lia.
  - destruct (next_iteration_ok (mkState (counter s) (data s) (zset (threads s) i (next_iteration k))) k Hti) as (H1 & H2 & H3).
    eapply counters_update; [exact Hok|exact Hi|..]; rewrite ?H1, ?H2; simpl; (exact H3 || lia).
Qed.

Lemma counters_start_ok n k : 1 <= k -> ok (Z.of_nat n * k) (start n k).
Proof.
  intros Hk. assert (forall f, total f (replicate n (Add k)) = Z.of_nat n * f (Add k)) as Ht.
  { intros f. induction n as [|n IH]; simpl; [done|]. rewrite IH. lia. }
  split; simpl; rewrite ?Ht; simpl; [lia|lia|]. by apply Forall_replicate.
Qed.

(** Shared counters: whatever the schedule, when all threads are finished the
    atomic counter is the number of threads times the number of iterations, and the
    plain variable is at most that. *)
Theorem atomic_counter_exact (plain : bool) (n : nat) (iterations : Z) (s : state) : 1 <= iterations -> rtc (step plain) (start n iterations) s ->
  (forall i t, zget (threads s) i = Some t -> t = Finished) ->
  counter s = Z.of_nat n * iterations /\ 0 <= data s <= counter s.
Proof.
  intros Hk Hs Hfin. assert (ok (Z.of_nat n * iterations) s) as [Hc Hd _].
  { revert s Hs Hfin. intros s Hs _. revert s Hs. apply (rtc_ind_r (R := step plain)); [by apply counters_start_ok|]. intros y z _ Hyz Hok. by eapply counters_step_ok. }
  assert (forall f, f Finished = 0 -> total f (threads s) = 0) as H0.
  { intros f Hf. assert (Forall (fun t => t = Finished) (threads s)) as Hall.
    { apply Forall_forall. intros t [i Hi]%elem_of_zget. by apply (Hfin i). }
    clear -Hall Hf. induction Hall as [|t l -> _ IH]; simpl; [done|]. lia. }
  rewrite H0 in Hc, Hd by done. lia.
Qed.

(** *** The plain variable *)

(** An iteration of a thread alone. *)
Lemma run_iteration s i k : zget (threads s) i = Some (Add k) ->
  rtc (step true) s (mkState (counter s + 1) (data s + 1) (zset (threads s) i (next_iteration k))).
Proof.
  intros Hi. pose proof (zget_Some_range _ _ _ Hi) as Hr.
  apply rtc_l with (mkState (counter s + 1) (data s) (zset (threads s) i (LoadData k))); [exists i; unfold thread_step; by rewrite Hi|].
  eapply rtc_l; [exists i; unfold thread_step; simpl; rewrite zget_zset_eq by done; simpl; reflexivity|]. rewrite zset_zset_eq.
  eapply rtc_l; [exists i; unfold thread_step; simpl; rewrite zget_zset_eq by done; simpl; reflexivity|]. rewrite zset_zset_eq.
  eapply rtc_l; [exists i; unfold thread_step; simpl; rewrite zget_zset_eq by done; simpl; reflexivity|]. simpl. rewrite zset_zset_eq. done.
Qed.

Lemma run_thread (m : nat) : forall s i, zget (threads s) i = Some (Add (Z.of_nat (S m))) ->
  rtc (step true) s (mkState (counter s + Z.of_nat (S m)) (data s + Z.of_nat (S m)) (zset (threads s) i Finished)).
Proof.
  induction m as [|m IH]; intros s i Hi; (etrans; [by apply run_iteration|]).
  - done.
  - pose proof (zget_Some_range _ _ _ Hi) as Hr. unfold next_iteration. destruct (Z.eqb_spec (Z.of_nat (S (S m))) 1); [lia|].
    replace (Z.of_nat (S (S m)) - 1) with (Z.of_nat (S m)) by lia.
    etrans; [apply (IH _ i); simpl; by rewrite zget_zset_eq|]. simpl. rewrite zset_zset_eq.
    replace (counter s + 1 + Z.of_nat (S m)) with (counter s + Z.of_nat (S (S m))) by lia.
    by replace (data s + 1 + Z.of_nat (S m)) with (data s + Z.of_nat (S (S m))) by lia.
Qed.

Lemma run_rest (m : nat) s i k : k = Z.of_nat m + 1 -> zget (threads s) i = Some (next_iteration k) ->
  rtc (step true) s (mkState (counter s + Z.of_nat m) (data s + Z.of_nat m) (zset (threads s) i Finished)).
Proof.
  intros -> Hi. unfold next_iteration in Hi. destruct m as [|m].
  - rewrite !Z.add_0_r. simpl in Hi. assert (zset (threads s) i Finished = threads s) as ->; [|by destruct s].
    by apply zset_id.
  - destruct (Z.eqb_spec (Z.of_nat (S m) + 1) 1); [lia|]. apply run_thread. rewrite Hi. do 2 f_equal. lia.
Qed.

(** The fences of [memoryBarrier.c] do not protect [data]: with two threads and any
    number of iterations there is a schedule in which an increment is lost. *)
Lemma plain_increment_lost (m : nat) : let k := Z.of_nat m + 1 in
  exists s, rtc (step true) (start 2 k) s /\ threads s = [Finished; Finished] /\ counter s = 2 * k /\ data s = 2 * k - 1.
Proof.
  intros k. eexists. split.
  - do 4 (eapply rtc_l; [exists 0; reflexivity|]; eapply rtc_l; [exists 1; reflexivity|]).
    etrans; [apply (run_rest m _ 0 k); [done|reflexivity]|]. apply (run_rest m _ 1 k); [done|reflexivity].
  - simpl. split; [done|]. lia.
Qed.

Lemma atomic_counter_exact_witness : exists s, rtc (step true) (start 2 1) s /\ counter s = 2 * 1 /\ 0 <= data s <= counter s.
Proof.
  destruct (plain_increment_lost 0) as (s & Hs & Hf & _). exists s. split; [exact Hs|].
  apply (atomic_counter_exact true 2 1 s); [lia|exact Hs|]. intros i t Hi. rewrite Hf in Hi.
  apply (Forall_zget (fun t => t = Finished) _ i t) in Hi; [exact Hi|repeat constructor].
Defined.
End Counters.
