(* ===== verification/MultiCpu.v ===== *)
(** * Scheduling threads over processors ([concurrency/threads/multiThreadingInMultiCPU.c])

    Four processor threads share a table of eight threads. Each of them, in turns,
    schedules threads on its processor and finishes them; both parts run under
    [scheduler_mutex], so a run is a sequence of such parts. *)
From Stdlib Require Import ZArith Lia.
From stdpp Require Import base tactics list numbers option.
From S2P Require Import Prelude.

#[local] Open Scope Z_scope.
#[local] Open Scope c_scope.

(** ** Data *)

Definition NUM_CPUS : Z := 4.
Definition NUM_THREADS : Z := 8.
Definition MAX_LOAD : Z := 100.

(** [id] is the index in the table. *)
Record Thread : Type := mkThread { last_cpu : Z; priority : Z; is_running : bool }.

(** [loads] are the fields [current_load] of the processors; [working] says which
    processor threads are between their two parts. *)
Record system : Type := mkSystem { threads : list Thread; loads : list Z; working : list bool }.

(** ** Operations *)

(** [rnd] gives the results of [rand]. *)
Definition init_system (rnd : Z -> Z) : system :=
  mkSystem ((fun i => mkThread (Z.rem (rnd (2 * i)) NUM_CPUS) (Z.rem (rnd (2 * i + 1)) 10) false) <$> seqZ 0 NUM_THREADS)
           (replicate (Z.to_nat NUM_CPUS) 0) (replicate (Z.to_nat NUM_CPUS) false).

Definition min_pass (ls : list Z) (i : Z) (st : Z * Z) : res (Z * Z) :=
  let '(selected_cpu, min_load) := st in
  l ← ls.[i];
  if l <? min_load then Ok (i, l) else Ok (selected_cpu, min_load).

Definition select_cpu (ls : list Z) (t : Thread) : res Z :=
  l ← ls.[last_cpu t];
  if l <? MAX_LOAD then Ok (last_cpu t)
  else '(selected_cpu, _) ← for_range (Z.to_nat NUM_CPUS) 0 (min_pass ls) (-1, INT_MAX); Ok selected_cpu.

(** The first part of the body of [cpu_thread]. *)
Definition schedule_pass (cpu_id i : Z) (s : list Thread * list Z) : res (list Thread * list Z) :=
  let '(ts, ls) := s in
  t ← ts.[i];
  if is_running t then Ok (ts, ls) else
  selected_cpu ← select_cpu ls t;
  if selected_cpu =? cpu_id then
    l ← ls.[cpu_id];
    l ← iadd l (priority t);
    ls ← ls.[cpu_id <- l];
    ts ← ts.[i <- mkThread cpu_id (priority t) true];
    Ok (ts, ls)
  else Ok (ts, ls).

(** The second part. *)
Definition finish_pass (cpu_id i : Z) (ts : list Thread) : res (list Thread) :=
  t ← ts.[i];
  if is_running t && (last_cpu t =? cpu_id) then ts.[i <- mkThread (last_cpu t) (priority t) false] else Ok ts.

Definition cpu_thread_part (cpu_id : Z) (s : system) : res system :=
  w ← (working s).[cpu_id];
  if negb w then
    '(ts, ls) ← for_range (Z.to_nat NUM_THREADS) 0 (schedule_pass cpu_id) (threads s, loads s);
    ws ← (working s).[cpu_id <- true];
    Ok (mkSystem ts ls ws)
  else
    l ← (loads s).[cpu_id];
    ls ← (loads s).[cpu_id <- if 0 <? l then l - 1 else 0];
    ts ← for_range (Z.to_nat NUM_THREADS) 0 (finish_pass cpu_id) (threads s);
    ws ← (working s).[cpu_id <- false];
    Ok (mkSystem ts ls ws).

(** The parts that the processor threads run, in the order they get the mutex. *)
Fixpoint run_parts (cpus : list Z) (s : system) : res system :=
  match cpus with [] => Ok s | c :: cpus => s ← cpu_thread_part c s; run_parts cpus s end.

(** ** Choice of a processor *)

Definition loads_ok (bound : Z) (ls : list Z) : Prop := len ls = NUM_CPUS /\ Forall (fun l => 0 <= l <= bound) ls.

Lemma select_cpu_ok bound ls t : loads_ok bound ls -> bound < INT_MAX -> 0 <= last_cpu t < NUM_CPUS ->
  exists c l, select_cpu ls t = Ok c /\ zget ls c = Some l /\ 0 <= c < NUM_CPUS /\
    ((l < MAX_LOAD /\ c = last_cpu t) \/ (Forall (fun x => l <= x) ls /\ exists x, zget ls (last_cpu t) = Some x /\ MAX_LOAD <= x)).
Proof.
  intros [Hlen Hls] Hb Ht. destruct (zget_range ls (last_cpu t)) as [l Hl]; [lia|]. unfold select_cpu.
  rewrite (arr_read_Ok _ _ _ Hl), bind_ret_l. destruct (Z.ltb_spec l MAX_LOAD) as [Hlow|Hhigh]; [exists (last_cpu t), l; by auto 6|].
  destruct (for_range_inv (fun i st => (forall k x, 0 <= k < i -> zget ls k = Some x -> st.2 <= x) /\
      ((i = 0 /\ st = (-1, INT_MAX)) \/ (0 <= st.1 < i /\ zget ls st.1 = Some st.2))) (Z.to_nat NUM_CPUS) 0 (min_pass ls) (-1, INT_MAX)) as ([c m] & -> & Hmin & Hc).
  - split; [intros; lia|by left].
  - intros j [c m] Hj [Hmin Hc]. unfold NUM_CPUS in *. simpl in *. destruct (zget_range ls j) as [x Hx]; [lia|].
    unfold min_pass. rewrite (arr_read_Ok _ _ _ Hx), bind_ret_l. pose proof (Forall_zget _ _ _ _ Hls Hx) as Hxb. simpl in Hxb.
    destruct (Z.ltb_spec x m); (eexists; split; [done|]); simpl.
    + split; [|right; split; [lia|done]]. intros k y Hk Hy. destruct (decide (k = j)) as [->|]; [rewrite Hx in Hy; injection Hy; lia|].
      specialize (Hmin k y ltac:(lia) Hy). lia.
    + split; [|].
      * intros k y Hk Hy. destruct (decide (k = j)) as [->|]; [rewrite Hx in Hy; injection Hy; lia|]. apply (Hmin k y); [lia|done].
      * right. destruct Hc as [[-> [= -> ->]]|[Hc Hcm]]; [lia|]. split; [lia|done].
  - simpl in *. destruct Hc as [[H0 _]|[Hc Hcm]]; [unfold NUM_CPUS in H0; lia|]. unfold NUM_CPUS in *.
    exists c, m. split; [done|]. split; [done|]. split; [lia|]. right. split; [|by exists l].
    apply Forall_forall. intros x [k Hk]%list_elem_of_In%elem_of_zget. pose proof (zget_Some_range _ _ _ Hk). apply (Hmin k x); [lia|done].
Qed.

(** ** The invariant *)

Definition thread_ok (t : Thread) : Prop := 0 <= last_cpu t < NUM_CPUS /\ 0 <= priority t <= 9.

(** A running thread is on a processor that will finish it. *)
Definition placed (ws : list bool) (ts : list Thread) : Prop :=
  Forall (fun t => is_running t = true -> zget ws (last_cpu t) = Some true) ts.

Record system_ok (bound : Z) (s : system) : Prop := mkSystemOk {
  so_threads : len (threads s) = NUM_THREADS /\ Forall thread_ok (threads s);
  so_loads : loads_ok bound (loads s);
  so_working : len (working s) = NUM_CPUS;
  so_placed : placed (working s) (threads s)
}.

(** One pass of the scheduling loop adds at most a priority. *)
Lemma place_pass_ok bound cpu_id ws i ts ls : 0 <= cpu_id < NUM_CPUS -> zget ws cpu_id = Some true ->
  len ts = NUM_THREADS -> Forall thread_ok ts -> placed ws ts -> loads_ok bound ls -> 0 <= bound < INT_MAX - 9 -> 0 <= i < NUM_THREADS ->
  exists ts' ls', schedule_pass cpu_id i (ts, ls) = Ok (ts', ls') /\
    len ts' = NUM_THREADS /\ Forall thread_ok ts' /\ placed ws ts' /\ loads_ok (bound + 9) ls'.
Proof.
  intros Hc Hw Hlen Hts Hp Hls Hb Hi. assert (loads_ok (bound + 9) ls) as Hls'.
  { destruct Hls as [? Hall]. split; [done|]. eapply list.Forall_impl; [exact Hall|]. simpl. lia. }
  destruct (zget_range ts i) as [t Ht]; [lia|]. pose proof (Forall_zget _ _ _ _ Hts Ht) as [Hlast Hprio].
  unfold schedule_pass. rewrite (arr_read_Ok _ _ _ Ht), bind_ret_l. destruct (is_running t) eqn:Hr; [by exists ts, ls|].
  destruct (select_cpu_ok bound ls t) as (c & l & -> & Hl & Hcr & _); [done|lia|done|]. rewrite bind_ret_l.
  destruct (Z.eqb_spec c cpu_id) as [->|]; [|by exists ts, ls]. rewrite (arr_read_Ok _ _ _ Hl), bind_ret_l.
  destruct Hls as [Hll Hall]. pose proof (Forall_zget _ _ _ _ Hall Hl) as Hlb. simpl in Hlb.
  rewrite iadd_Ok, bind_ret_l by int_side. rewrite (arr_write_Ok ls), bind_ret_l by lia. rewrite (arr_write_Ok ts), bind_ret_l by lia.
  eexists _, _. split; [done|]. split; [by rewrite length_zset|]. split; [by apply Forall_zset|]. split.
  - apply Forall_zset; done.
  - destruct Hls' as [_ Hall']. split; [by rewrite length_zset|]. apply Forall_zset; [done|lia].
Qed.

Lemma finish_pass_ok cpu_id i ts : len ts = NUM_THREADS -> Forall thread_ok ts -> 0 <= i < NUM_THREADS ->
  (forall k t, 0 <= k < i -> zget ts k = Some t -> is_running t = true -> last_cpu t <> cpu_id) ->
  exists ts', finish_pass cpu_id i ts = Ok ts' /\ len ts' = NUM_THREADS /\ Forall thread_ok ts' /\
    (forall k t, 0 <= k < i + 1 -> zget ts' k = Some t -> is_running t = true -> last_cpu t <> cpu_id) /\
    (forall k t', zget ts' k = Some t' -> is_running t' = true -> zget ts k = Some t').
Proof.
  intros Hlen Hts Hi Hdone. destruct (zget_range ts i) as [t Ht]; [lia|]. pose proof (Forall_zget _ _ _ _ Hts Ht) as Htok.
  unfold finish_pass. rewrite (arr_read_Ok _ _ _ Ht), bind_ret_l. destruct (is_running t && (last_cpu t =? cpu_id)) eqn:Hc.
  - rewrite arr_write_Ok by lia. eexists. split; [done|]. split; [by rewrite length_zset|]. split; [by apply Forall_zset|]. split.
    + intros k u Hk Hu Hrun. apply zget_zset_inv in Hu as [[-> ->]|[Hne Hu]]; [done|]. apply (Hdone k); (done || lia).
    + intros k u Hu Hrun. apply zget_zset_inv in Hu as [[-> ->]|[Hne Hu]]; done.
  - exists ts. do 3 (split; [done|]). split; [|done]. intros k u Hk Hu Hrun. destruct (decide (k = i)) as [->|].
    + rewrite Ht in Hu. injection Hu as <-. rewrite Hrun in Hc. simpl in Hc. by apply Z.eqb_neq in Hc.
    + apply (Hdone k); (done || lia).
Qed.

Lemma schedule_part_ok bound cpu_id s : system_ok bound s -> 0 <= cpu_id < NUM_CPUS -> 0 <= bound < INT_MAX - 72 ->
  zget (working s) cpu_id = Some false -> exists s', cpu_thread_part cpu_id s = Ok s' /\ system_ok (bound + 72) s'.
Proof.
  intros [[Hlt Hts] Hls Hws Hp] Hc Hb Hw. unfold cpu_thread_part. rewrite (arr_read_Ok _ _ _ Hw), bind_ret_l. cbn [negb].
  set (ws := zset (working s) cpu_id true).
  assert (zget ws cpu_id = Some true) as Hws' by (apply zget_zset_eq; lia).
  assert (placed ws (threads s)) as Hp'.
  { eapply list.Forall_impl; [exact Hp|]. simpl. intros t Ht Hr. unfold ws. rewrite zget_zset. case_match; [done|by apply Ht]. }
  destruct (for_range_inv (fun i st => len st.1 = NUM_THREADS /\ Forall thread_ok st.1 /\ placed ws st.1 /\ loads_ok (bound + 9 * i) st.2)
    (Z.to_nat NUM_THREADS) 0 (schedule_pass cpu_id) (threads s, loads s)) as ([ts ls] & -> & H1 & H2 & H3 & H4).
  - simpl. rewrite Z.add_0_r. done.
  - intros j [ts ls] Hj (H1 & H2 & H3 & H4). assert (0 <= j < 8) as Hj8 by (unfold NUM_THREADS in Hj; lia). cbn [fst snd] in *.
    destruct (place_pass_ok (bound + 9 * j) cpu_id ws j ts ls) as (ts' & ls' & He & ? & ? & ? & ?); try done; [lia|].
    exists (ts', ls'). split; [done|]. simpl. do 3 (split; [done|]). by replace (bound + 9 * (j + 1)) with (bound + 9 * j + 9) by lia.
  - rewrite bind_ret_l. rewrite arr_write_Ok, bind_ret_l by lia. eexists. split; [done|]. split; simpl in *; try done. unfold ws. by rewrite length_zset.
Qed.

Lemma finish_part_ok bound cpu_id s : system_ok bound s -> 0 <= cpu_id < NUM_CPUS -> 0 <= bound ->
  zget (working s) cpu_id = Some true -> exists s', cpu_thread_part cpu_id s = Ok s' /\ system_ok bound s'.
Proof.
  intros [[Hlt Hts] [Hll Hls] Hws Hp] Hc Hb Hw. unfold cpu_thread_part. rewrite (arr_read_Ok _ _ _ Hw), bind_ret_l. cbn [negb].
  destruct (zget_range (loads s) cpu_id) as [l Hl]; [lia|]. rewrite (arr_read_Ok _ _ _ Hl), bind_ret_l. rewrite (arr_write_Ok (loads s)), bind_ret_l by lia.
  pose proof (Forall_zget _ _ _ _ Hls Hl) as Hlb. simpl in Hlb.
  destruct (for_range_inv (fun i ts => len ts = NUM_THREADS /\ Forall thread_ok ts /\
      (forall k t, 0 <= k < i -> zget ts k = Some t -> is_running t = true -> last_cpu t <> cpu_id) /\
      (forall k t, zget ts k = Some t -> is_running t = true -> zget (threads s) k = Some t))
    (Z.to_nat NUM_THREADS) 0 (finish_pass cpu_id) (threads s)) as (ts & -> & H1 & H2 & H3 & H4).
  - do 2 (split; [done|]). split; [intros; lia|done].
  - intros j ts Hj (H1 & H2 & H3 & H4). assert (0 <= j < 8) as Hj8 by (unfold NUM_THREADS in Hj; lia).
    destruct (finish_pass_ok cpu_id j ts) as (ts' & He & ? & ? & ? & H5); try done. exists ts'. split; [done|].
    do 3 (split; [done|]). intros k t Hk Hr. apply H4; [by apply H5|done].
  - rewrite bind_ret_l. rewrite arr_write_Ok, bind_ret_l by lia. eexists. split; [done|]. split; simpl; try done.
    + split; [by rewrite length_zset|]. apply Forall_zset; [done|]. case_cond; lia.
    + by rewrite length_zset.
    + apply Forall_forall. intros t [k Hk]%list_elem_of_In%elem_of_zget Hr. rewrite zget_zset_ne.
      * exact (Forall_zget _ _ _ _ Hp (H4 k t Hk Hr) Hr).
      * apply not_eq_sym. apply (H3 k); [|done|done]. pose proof (zget_Some_range _ _ _ Hk). unfold NUM_THREADS in *. simpl. lia.
Qed.

Lemma run_parts_ok cpus : forall bound s, system_ok bound s -> Forall (fun c => 0 <= c < NUM_CPUS) cpus -> 0 <= bound -> bound + 72 * len cpus < INT_MAX ->
  exists s', run_parts cpus s = Ok s' /\ system_ok (bound + 72 * len cpus) s'.
Proof.
  induction cpus as [|c cpus IH]; intros bound s Hok Hcs Hb Hmax; simpl.
  - exists s. split; [done|]. by rewrite Z.mul_0_r, Z.add_0_r.
  - apply list.Forall_cons in Hcs as [Hc Hcs]. simpl in Hmax. assert (exists s', cpu_thread_part c s = Ok s' /\ system_ok (bound + 72) s') as (s1 & -> & Hok1).
    { destruct (zget_range (working s) c) as [w Hw]; [by rewrite (so_working _ _ Hok)|]. destruct w.
      - destruct (finish_part_ok bound c s) as (s1 & He & [H1 [H2 H2'] H3 H4]); [done|done|done|done|]. exists s1. split; [done|]. split; try done. split; [done|].
        eapply list.Forall_impl; [exact H2'|]. simpl. lia.
      - apply schedule_part_ok; (done || lia). }
    rewrite bind_ret_l. destruct (IH (bound + 72) s1) as (s2 & -> & Hok2); [done|done|lia|lia|]. exists s2. split; [done|].
    by replace (bound + 72 * Z.of_nat (S (length cpus))) with (bound + 72 + 72 * len cpus) by lia.
Qed.

Lemma init_system_ok rnd : (forall i, 0 <= rnd i) -> system_ok 0 (init_system rnd).
Proof.
  intros Hr. split.
  - unfold init_system. cbn [threads]. split; [by rewrite length_fmap, length_seqZ|]. apply Forall_fmap, Forall_forall. intros i _. simpl.
    unfold thread_ok, NUM_CPUS. simpl. pose proof (Hr (2 * i)). pose proof (Hr (2 * i + 1)). rewrite !Z.rem_mod_nonneg by lia.
    pose proof (Z.mod_pos_bound (rnd (2 * i)) 4). pose proof (Z.mod_pos_bound (rnd (2 * i + 1)) 10). lia.
  - split; [done|]. by apply Forall_replicate.
  - done.
  - unfold init_system, placed. cbn [threads]. apply Forall_fmap, Forall_forall. done.
Qed.

(** Scheduling over processors: for any results of [rand] and any order in which
    the processor threads get the mutex, as long as the loads cannot overflow, the
    run goes on without fault; every thread that is marked as running is on a
    processor whose thread will finish it, so when no processor thread is between
    its two parts no thread is left running; loads stay between 0 and 72 for each
    part run. *)
Theorem multi_cpu_schedules (rnd : Z -> Z) (cpus : list Z) : (forall i, 0 <= rnd i) -> Forall (fun c => 0 <= c < NUM_CPUS) cpus ->
  72 * len cpus < INT_MAX ->
  exists s, run_parts cpus (init_system rnd) = Ok s /\
    Forall (fun t => is_running t = true -> zget (working s) (last_cpu t) = Some true) (threads s) /\
    (Forall (fun w => w = false) (working s) -> Forall (fun t => is_running t = false) (threads s)) /\
    Forall (fun l => 0 <= l <= 72 * len cpus) (loads s).
Proof.
  intros Hr Hc Hmax. destruct (run_parts_ok cpus 0 (init_system rnd)) as (s & -> & [_ [_ Hls] _ Hp]); [by apply init_system_ok|done|lia|lia|].
  exists s. split; [done|]. split; [done|]. split; [|done]. intros Hw. eapply list.Forall_impl; [exact Hp|]. simpl. intros t Ht.
  destruct (is_running t); [|done]. by pose proof (Forall_zget _ _ _ _ Hw (Ht eq_refl)).
Qed.

Lemma multi_cpu_schedules_witness : exists s, run_parts [0; 1; 1; 0; 3] (init_system (fun i => 7 * i)) = Ok s /\ Forall (fun l => 0 <= l <= 72 * 5) (loads s).
Proof.
  destruct (multi_cpu_schedules (fun i => Z.abs (7 * i)) [0; 1; 1; 0; 3]) as (s & Hs & _ & _ & Hl).
  - intros i. apply Z.abs_nonneg.
  - repeat constructor; unfold NUM_CPUS; lia.
  - reflexivity.
  - exists s. split; [exact Hs|exact Hl].
Defined.

(** A thread adds its priority to the load each time it is scheduled, but finishing
    takes off one for the whole processor: a processor on which nothing is left
    running keeps its load. *)
Lemma load_not_returned : exists s, run_parts [0; 0] (init_system (fun i => if Z.even i then 0 else 9)) = Ok s /\
  Forall (fun t => is_running t = false) (threads s) /\ loads s = [71; 0; 0; 0].
Proof. eexists. split; [vm_compute; reflexivity|]. split; [repeat constructor|done]. Qed.
