(* ===== verification/Sse.v ===== *)
(** * Scalar floating-point instructions of x86-64

    The part of SSE2 the programs of [ml/] use: four registers, the cells of the
    data section, and the flags set by a comparison.  Instructions are data, run by
    [sse_step].  The arithmetic is an argument (class [Sse]), so what is proved of
    the programs holds for every rounding; [binary64] is the one of the processor. *)
From Stdlib Require Import ZArith Lia.
From Corelib Require Import SpecFloat.
From stdpp Require Import base tactics list numbers option.
From S2P Require Import Prelude Float.

#[local] Open Scope Z_scope.
#[local] Open Scope c_scope.

(** [lit n k] is the constant [n / 10^k] of the assembler; [s_compare] gives nothing
    on operands that are not ordered. *)
Class Sse (F : Type) : Type := {
  lit : Z -> Z -> F;
  s_add : F -> F -> F;
  s_sub : F -> F -> F;
  s_mul : F -> F -> F;
  s_div : F -> F -> F;
  s_compare : F -> F -> option comparison;
  s_of_int : Z -> F
}.

#[export] Instance binary64 : Sse cfloat := {
  lit n k := f64_div (f64_of_int n) (f64_of_int (10 ^ k));
  s_add := f64_add;
  s_sub := f64_sub;
  s_mul := f64_mul;
  s_div := f64_div;
  s_compare := SFcompare;
  s_of_int := f64_of_int
}.

Inductive xmm : Type := X0 | X1 | X2 | X3.

(** A register, or a cell of the data section by its number. *)
Inductive operand : Type := Xmm (r : xmm) | Cell (c : nat).

(** [Xorpd] is used on twice the same register, to set it to zero. *)
Inductive sse : Type :=
| Movsd (d s : operand)
| Addsd (d : xmm) (s : operand)
| Subsd (d : xmm) (s : operand)
| Mulsd (d : xmm) (s : operand)
| Divsd (d : xmm) (s : operand)
| Maxsd (d : xmm) (s : operand)
| Xorpd (d : xmm)
| Ucomisd (a b : xmm).

Record flags : Type := mkFlags { zf : bool; cf : bool }.

Section machine.
Context {F : Type} `{!Sse F}.

Record registers : Type := mkRegs { x0 : F; x1 : F; x2 : F; x3 : F }.

Record fpu : Type := mkFpu { xmms : registers; cells : list F; fl : flags }.

Definition get_xmm (r : xmm) (g : registers) : F :=
  match r with X0 => x0 g | X1 => x1 g | X2 => x2 g | X3 => x3 g end.

Definition set_xmm (r : xmm) (v : F) (g : registers) : registers :=
  match r with
  | X0 => mkRegs v (x1 g) (x2 g) (x3 g)
  | X1 => mkRegs (x0 g) v (x2 g) (x3 g)
  | X2 => mkRegs (x0 g) (x1 g) v (x3 g)
  | X3 => mkRegs (x0 g) (x1 g) (x2 g) v
  end.

Definition read_operand (o : operand) (s : fpu) : res F :=
  match o with
  | Xmm r => Ok (get_xmm r (xmms s))
  | Cell c => match cells s !! c with Some v => Ok v | None => Fault BadAddress end
  end.

Definition write_operand (o : operand) (v : F) (s : fpu) : res fpu :=
  match o with
  | Xmm r => Ok (mkFpu (set_xmm r v (xmms s)) (cells s) (fl s))
  | Cell c =>
      if (c <? length (cells s))%nat then Ok (mkFpu (xmms s) (<[c := v]> (cells s)) (fl s)) else Fault BadAddress
  end.

(** The larger operand; the second one when they are equal or not ordered. *)
Definition s_max (a b : F) : F := match s_compare a b with Some Gt => a | _ => b end.

(** Flags of a comparison: below sets CF, equal ZF, not ordered both. *)
Definition compare_flags (a b : F) : flags :=
  match s_compare a b with
  | Some Gt => mkFlags false false
  | Some Lt => mkFlags false true
  | Some Eq => mkFlags true false
  | None => mkFlags true true
  end.

Definition arith (f : F -> F -> F) (d : xmm) (o : operand) (s : fpu) : res fpu :=
  v ← read_operand o s;
  Ok (mkFpu (set_xmm d (f (get_xmm d (xmms s)) v) (xmms s)) (cells s) (fl s)).

Definition s_zero : F := lit 0 0.

Definition sse_step (i : sse) (s : fpu) : res fpu :=
  match i with
  | Movsd d o => v ← read_operand o s; write_operand d v s
  | Addsd d o => arith s_add d o s
  | Subsd d o => arith s_sub d o s
  | Mulsd d o => arith s_mul d o s
  | Divsd d o => arith s_div d o s
  | Maxsd d o => arith s_max d o s
  | Xorpd d => Ok (mkFpu (set_xmm d s_zero (xmms s)) (cells s) (fl s))
  | Ucomisd a b => Ok (mkFpu (xmms s) (cells s) (compare_flags (get_xmm a (xmms s)) (get_xmm b (xmms s))))
  end.
End machine.

#[global] Arguments registers : clear implicits.
#[global] Arguments fpu : clear implicits.

(** ** Steps of a machine *)

Section steps.
Context {M R : Type} (step : M -> res (ctl M R)).

(** [n] instructions, none of which ends the run. *)
Fixpoint steps (n : nat) (m : M) : res M :=
  match n with
  | O => Ok m
  | S n => c ← step m; match c with Next m => steps n m | Return _ => Fault OutOfFuel end
  end.

Lemma steps_app n k m m' : steps n m = Ok m' -> steps (n + k) m = steps k m'.
Proof.
  revert m. induction n as [|n IH]; intros m; simpl; [by intros [= ->]|].
  destruct (step m) as [[m1|r]|e]; simpl; [apply IH|done|done].
Qed.

Lemma steps_trans n k m m' m'' : steps n m = Ok m' -> steps k m' = Ok m'' -> steps (n + k) m = Ok m''.
Proof. intros H1 H2. by rewrite (steps_app _ _ _ _ H1). Qed.

Lemma loop_steps n fuel m m' : steps n m = Ok m' -> loop (n + fuel) step m = loop fuel step m'.
Proof.
  revert m. induction n as [|n IH]; intros m; simpl; [by intros [= ->]|].
  destruct (step m) as [[m1|r]|e]; simpl; [apply IH|done|done].
Qed.
End steps.
