(* ===== verification/Mlp.v ===== *)
(** * A multi-layer perceptron in assembly ([ml/mlp.asm])

    Two inputs, four hidden neurons and one output, trained for a thousand epochs on
    one example.  The program is a list of instructions, routine by routine as in
    the source; the theorem compares it with a network of lists of neurons, for any
    arithmetic. *)
From Stdlib Require Import ZArith Lia.
From stdpp Require Import base tactics list numbers option.
From S2P Require Import Prelude Float Sse.

#[local] Open Scope Z_scope.
#[local] Open Scope c_scope.

(** ** The data section *)

Definition learning_rate : nat := 0.
Definition one : nat := 1.
Definition hidden_w (k : nat) : nat := 2 + k.
Definition hidden_b (k : nat) : nat := 10 + k.
Definition output_w (k : nat) : nat := 14 + k.
Definition output_bias : nat := 19.
Definition input1 : nat := 20.
Definition input2 : nat := 21.
Definition hidden_out (k : nat) : nat := 21 + k.
Definition hidden_delta (k : nat) : nat := 25 + k.
Definition output : nat := 30.
Definition output_delta : nat := 31.
Definition target : nat := 32.
Definition error : nat := 33.
Definition num_epochs : Z := 1000.

(** ** The program *)

Inductive label : Type :=
| train_loop | skip_print | forward_pass | backward_pass | update_weights
| relu | relu_derivative | positive | sigmoid | sigmoid_derivative | usage_error.

(** [Enter] is [push rbp; mov rbp, rsp].  [LoadArg k] is [mov rdi, [r12 + 8 * k]] and
    [LoadName] is [mov rsi, [r12]].  [TestEpoch] is the division of [r13d] by 100
    and the test of the remainder; [SetTarget] is [setnz al; movzx rax, al; cvtsi2sd
    xmm2, rax]. *)
Inductive instr : Type :=
| Fp (i : sse)
| Enter | Leave | Call (l : label) | Ret
| CmpRdi (v : Z) | Jne (l : label) | Jnz (l : label) | Ja (l : label)
| SaveArgv | LoadArg (k : Z) | Atof | LoadName
| SetTarget | MovR13 (v : Z) | TestEpoch | DecR13
| PrintEpoch | PrintFinal | PrintUsage | ExitWith (code : Z).

Definition main_code : list instr :=
  [ Enter; CmpRdi 3; Jne usage_error; SaveArgv;
    LoadArg 1; Atof; Fp (Movsd (Cell input1) (Xmm X0));
    LoadArg 2; Atof; Fp (Movsd (Cell input2) (Xmm X0));
    Fp (Movsd (Xmm X0) (Cell input1)); Fp (Movsd (Xmm X1) (Cell input2)); Fp (Xorpd X2); Fp (Ucomisd X0 X1);
    SetTarget; Fp (Movsd (Cell target) (Xmm X2)); MovR13 num_epochs ].

Definition train_code : list instr :=
  [ Call forward_pass; Call backward_pass; Call update_weights;
    TestEpoch; Jnz skip_print; Fp (Movsd (Xmm X0) (Cell error)); PrintEpoch ].

Definition skip_code : list instr :=
  [ DecR13; Jnz train_loop; Fp (Movsd (Xmm X0) (Cell output)); PrintFinal; ExitWith 0 ].

(** One hidden neuron of [forward_pass]; its weights are 2 * k - 1 and 2 * k. *)
Definition forward_neuron (k : nat) : list instr :=
  [ Fp (Movsd (Xmm X0) (Cell input1)); Fp (Mulsd X0 (Cell (hidden_w (2 * k - 1))));
    Fp (Movsd (Xmm X1) (Cell input2)); Fp (Mulsd X1 (Cell (hidden_w (2 * k))));
    Fp (Addsd X0 (Xmm X1)); Fp (Addsd X0 (Cell (hidden_b k))); Call relu; Fp (Movsd (Cell (hidden_out k)) (Xmm X0)) ].

Definition forward_code : list instr :=
  [Enter] ++ forward_neuron 1 ++ forward_neuron 2 ++ forward_neuron 3 ++ forward_neuron 4 ++
  [ Fp (Movsd (Xmm X0) (Cell (hidden_out 1))); Fp (Mulsd X0 (Cell (output_w 1)));
    Fp (Movsd (Xmm X1) (Cell (hidden_out 2))); Fp (Mulsd X1 (Cell (output_w 2))); Fp (Addsd X0 (Xmm X1));
    Fp (Movsd (Xmm X1) (Cell (hidden_out 3))); Fp (Mulsd X1 (Cell (output_w 3))); Fp (Addsd X0 (Xmm X1));
    Fp (Movsd (Xmm X1) (Cell (hidden_out 4))); Fp (Mulsd X1 (Cell (output_w 4))); Fp (Addsd X0 (Xmm X1));
    Fp (Addsd X0 (Cell output_bias)); Call sigmoid; Fp (Movsd (Cell output) (Xmm X0)); Leave; Ret ].

Definition backward_neuron (k : nat) : list instr :=
  [ Fp (Movsd (Xmm X0) (Cell output_delta)); Fp (Mulsd X0 (Cell (output_w k))); Fp (Movsd (Xmm X1) (Cell (hidden_out k)));
    Call relu_derivative; Fp (Mulsd X0 (Xmm X1)); Fp (Movsd (Cell (hidden_delta k)) (Xmm X0)) ].

Definition backward_code : list instr :=
  [ Enter; Fp (Movsd (Xmm X0) (Cell output)); Fp (Movsd (Xmm X1) (Cell target)); Fp (Subsd X1 (Xmm X0)); Fp (Movsd (Cell error) (Xmm X1));
    Call sigmoid_derivative; Fp (Mulsd X0 (Cell error)); Fp (Movsd (Cell output_delta) (Xmm X0)) ] ++
  backward_neuron 1 ++ backward_neuron 2 ++ backward_neuron 3 ++ backward_neuron 4 ++ [Leave; Ret].

(** [factor * xmm0 + weight] into a weight. *)
Definition update_weight (factor weight : nat) : list instr :=
  [ Fp (Movsd (Xmm X1) (Cell factor)); Fp (Mulsd X1 (Xmm X0)); Fp (Addsd X1 (Cell weight)); Fp (Movsd (Cell weight) (Xmm X1)) ].

Definition update_hidden (k : nat) : list instr :=
  [ Fp (Movsd (Xmm X0) (Cell learning_rate)); Fp (Mulsd X0 (Cell (hidden_delta k))) ] ++
  update_weight input1 (hidden_w (2 * k - 1)) ++ update_weight input2 (hidden_w (2 * k)).

Definition update_hidden_bias (k : nat) : list instr :=
  [ Fp (Movsd (Xmm X0) (Cell learning_rate)); Fp (Mulsd X0 (Cell (hidden_delta k)));
    Fp (Addsd X0 (Cell (hidden_b k))); Fp (Movsd (Cell (hidden_b k)) (Xmm X0)) ].

Definition update_code : list instr :=
  [ Enter; Fp (Movsd (Xmm X0) (Cell learning_rate)); Fp (Mulsd X0 (Cell output_delta)) ] ++
  update_weight (hidden_out 1) (output_w 1) ++ update_weight (hidden_out 2) (output_w 2) ++
  update_weight (hidden_out 3) (output_w 3) ++ update_weight (hidden_out 4) (output_w 4) ++
  [ Fp (Addsd X0 (Cell output_bias)); Fp (Movsd (Cell output_bias) (Xmm X0)) ] ++
  update_hidden 1 ++ update_hidden 2 ++ update_hidden 3 ++ update_hidden 4 ++
  update_hidden_bias 1 ++ update_hidden_bias 2 ++ update_hidden_bias 3 ++ update_hidden_bias 4 ++ [Leave; Ret].

Definition relu_code : list instr := [ Fp (Xorpd X1); Fp (Maxsd X0 (Xmm X1)); Ret ].

Definition relu_derivative_code : list instr := [ Fp (Xorpd X1); Fp (Ucomisd X0 X1); Ja positive; Fp (Xorpd X1); Ret ].

Definition positive_code : list instr := [ Fp (Movsd (Xmm X1) (Cell one)); Ret ].

Definition sigmoid_code : list instr :=
  [ Enter; Fp (Movsd (Xmm X1) (Cell one)); Fp (Addsd X0 (Xmm X1)); Fp (Movsd (Xmm X1) (Cell one)); Fp (Divsd X1 (Xmm X0));
    Fp (Movsd (Xmm X0) (Xmm X1)); Leave; Ret ].

Definition sigmoid_derivative_code : list instr :=
  [ Enter; Fp (Movsd (Xmm X1) (Cell one)); Fp (Subsd X1 (Xmm X0)); Fp (Mulsd X0 (Xmm X1)); Leave; Ret ].

Definition usage_code : list instr := [ LoadName; PrintUsage; ExitWith 1 ].

(** The text section, with the address of each label. *)
Definition sections : list (list instr) :=
  [ main_code; train_code; skip_code; forward_code; backward_code; update_code; relu_code; relu_derivative_code; positive_code;
    sigmoid_code; sigmoid_derivative_code; usage_code ].

Definition text : list instr := Eval vm_compute in concat sections.

Definition section_of (l : label) : nat :=
  match l with
  | train_loop => 1 | skip_print => 2 | forward_pass => 3 | backward_pass => 4 | update_weights => 5
  | relu => 6 | relu_derivative => 7 | positive => 8 | sigmoid => 9 | sigmoid_derivative => 10 | usage_error => 11
  end.

Definition address (l : label) : nat := length (concat (take (section_of l) sections)).

(** ** The machine *)

Inductive frame : Type := Rbp | RetTo (pc : nat).

Inductive event (F : Type) : Type := Epoch (n : Z) (err : F) | Final (out : F) | Usage.
#[global] Arguments Epoch {F}.
#[global] Arguments Final {F}.
#[global] Arguments Usage {F}.

Section program.
Context {F : Type} `{!Sse F}.

Record machine : Type := mkMachine {
  pc : nat; fp : fpu F; rdi : Z; r12 : Z; r13 : Z; stack : list frame; out : list (event F)
}.

(** [argv] is its address; [atof k] is what [atof] returns for argument [k]; a call
    of the C library leaves [junk] in the registers it need not keep. *)
Context (argv : Z) (atof : Z -> F) (junk : registers F) (junk_flags : flags) (junk_rdi : Z).

Definition next (m : machine) (s : fpu F) : machine :=
  mkMachine (S (pc m)) s (rdi m) (r12 m) (r13 m) (stack m) (out m).

Definition goto (p : nat) (m : machine) : machine := mkMachine p (fp m) (rdi m) (r12 m) (r13 m) (stack m) (out m).

Definition branch (taken : bool) (l : label) (m : machine) : machine := goto (if taken then address l else S (pc m)) m.

Definition with_flags (f : flags) (s : fpu F) : fpu F := mkFpu (xmms s) (cells s) f.

Definition after_call (s : fpu F) (m : machine) (o : list (event F)) : machine :=
  mkMachine (S (pc m)) (mkFpu junk (cells s) junk_flags) junk_rdi (r12 m) (r13 m) (stack m) (out m ++ o).

Definition mlp_step (m : machine) : res (ctl machine (Z * list (event F))) :=
  let s := fp m in
  match text !! pc m with
  | None => Fault BadAddress
  | Some (Fp i) => s ← sse_step i s; Ok (Next (next m s))
  | Some Enter => Ok (Next (mkMachine (S (pc m)) s (rdi m) (r12 m) (r13 m) (Rbp :: stack m) (out m)))
  | Some Leave =>
      match stack m with
      | Rbp :: st => Ok (Next (mkMachine (S (pc m)) s (rdi m) (r12 m) (r13 m) st (out m)))
      | _ => Fault BadAddress
      end
  | Some (Call l) => Ok (Next (mkMachine (address l) s (rdi m) (r12 m) (r13 m) (RetTo (S (pc m)) :: stack m) (out m)))
  | Some Ret =>
      match stack m with
      | RetTo p :: st => Ok (Next (mkMachine p s (rdi m) (r12 m) (r13 m) st (out m)))
      | _ => Fault BadAddress
      end
  | Some (CmpRdi v) => Ok (Next (next m (with_flags (mkFlags (rdi m =? v) (rdi m <? v)) s)))
  | Some (Jne l) | Some (Jnz l) => Ok (Next (branch (negb (zf (fl s))) l m))
  | Some (Ja l) => Ok (Next (branch (negb (zf (fl s)) && negb (cf (fl s))) l m))
  | Some SaveArgv => Ok (Next (mkMachine (S (pc m)) s (rdi m) argv (r13 m) (stack m) (out m)))
  | Some (LoadArg k) =>
      if r12 m =? argv then Ok (Next (mkMachine (S (pc m)) s k (r12 m) (r13 m) (stack m) (out m))) else Fault BadAddress
  | Some Atof =>
      Ok (Next (mkMachine (S (pc m)) (mkFpu (set_xmm X0 (atof (rdi m)) junk) (cells s) junk_flags) junk_rdi (r12 m) (r13 m) (stack m) (out m)))
  | Some LoadName => if r12 m =? argv then Ok (Next (next m s)) else Fault BadAddress
  | Some SetTarget =>
      Ok (Next (next m (mkFpu (set_xmm X2 (s_of_int (if zf (fl s) then 0 else 1)) (xmms s)) (cells s) (fl s))))
  | Some (MovR13 v) => Ok (Next (mkMachine (S (pc m)) s (rdi m) (r12 m) v (stack m) (out m)))
  | Some TestEpoch => Ok (Next (next m (with_flags (mkFlags (Z.rem (r13 m) 100 =? 0) false) s)))
  | Some DecR13 =>
      let v := r13 m - 1 in
      Ok (Next (mkMachine (S (pc m)) (with_flags (mkFlags (v =? 0) (cf (fl s))) s) (rdi m) (r12 m) v (stack m) (out m)))
  | Some PrintEpoch => Ok (Next (after_call s m [Epoch (r13 m) (x0 (xmms s))]))
  | Some PrintFinal => Ok (Next (after_call s m [Final (x0 (xmms s))]))
  | Some PrintUsage => Ok (Next (after_call s m [Usage]))
  | Some (ExitWith c) => Ok (Return (c, out m))
  end.

(** The contents of the data section; the rest is zero at first. *)
Definition data0 : list F :=
  [ lit 1 1; lit 10 1; lit 0 1;
    lit 15 2; lit 25 2; lit 20 2; lit 30 2; lit 25 2; lit 35 2; lit 30 2; lit 40 2;
    lit 1 1; lit 1 1; lit 1 1; lit 1 1;
    lit 40 2; lit 45 2; lit 50 2; lit 55 2; lit 1 1 ] ++ replicate 14 s_zero.

(** Entry of [main] with [argc]; what the registers hold is arbitrary. *)
Definition entry (argc r12_0 r13_0 : Z) (regs0 : registers F) (fl0 : flags) : machine :=
  mkMachine 0 (mkFpu regs0 data0 fl0) argc r12_0 r13_0 [] [].

Definition mlp_main (fuel : nat) (argc r12_0 r13_0 : Z) (regs0 : registers F) (fl0 : flags) : res (Z * list (event F)) :=
  loop fuel mlp_step (entry argc r12_0 r13_0 regs0 fl0).

(** ** The network it computes *)

(** A hidden neuron, with the weight of its output. *)
Record neuron : Type := mkNeuron { in_w1 : F; in_w2 : F; bias : F; out_w : F }.

Record network : Type := mkNetwork { hidden : list neuron; out_bias : F }.

Definition rate : F := lit 1 1.
Definition f_one : F := lit 10 1.

Definition rectify (v : F) : F := s_max v s_zero.
Definition slope (v : F) : F := match s_compare v s_zero with Some Gt => f_one | _ => s_zero end.
Definition squash (v : F) : F := s_div f_one (s_add v f_one).

Definition activation (a b : F) (n : neuron) : F :=
  rectify (s_add (s_add (s_mul a (in_w1 n)) (s_mul b (in_w2 n))) (bias n)).

Definition sum (l : list F) : F := match l with [] => s_zero | v :: l => foldl s_add v l end.

Definition evaluate (a b : F) (w : network) : F :=
  squash (s_add (sum ((fun n => s_mul (activation a b n) (out_w n)) <$> hidden w)) (out_bias w)).

(** The gradient of the output, and what a hidden neuron gets of it. *)
Definition gradient (t o : F) : F := s_mul (s_mul o (s_sub f_one o)) (s_sub t o).

Definition back_propagated (g : F) (n : neuron) : F := let d := s_mul g (out_w n) in s_mul d (slope d).

Definition improve (a b g : F) (n : neuron) : neuron :=
  let h := s_mul rate (back_propagated g n) in
  mkNeuron (s_add (s_mul a h) (in_w1 n)) (s_add (s_mul b h) (in_w2 n)) (s_add h (bias n))
           (s_add (s_mul (activation a b n) (s_mul rate g)) (out_w n)).

Definition train_once (a b t : F) (w : network) : network :=
  let g := gradient t (evaluate a b w) in
  mkNetwork (improve a b g <$> hidden w) (s_add (s_mul rate g) (out_bias w)).

(** [n] more epochs: the events printed, and the last output. *)
Fixpoint train (n : nat) (a b t : F) (w : network) : list (event F) * F :=
  match n with
  | O => ([], s_zero)
  | S k =>
      let o := evaluate a b w in
      let report := if Z.rem (Z.of_nat n) 100 =? 0 then [Epoch (Z.of_nat n) (s_sub t o)] else [] in
      match k with
      | O => (report, o)
      | _ => let '(l, r) := train k a b t (train_once a b t w) in (report ++ l, r)
      end
  end.

Definition network0 : network :=
  mkNetwork [ mkNeuron (lit 15 2) (lit 25 2) (lit 1 1) (lit 40 2); mkNeuron (lit 20 2) (lit 30 2) (lit 1 1) (lit 45 2);
              mkNeuron (lit 25 2) (lit 35 2) (lit 1 1) (lit 50 2); mkNeuron (lit 30 2) (lit 40 2) (lit 1 1) (lit 55 2) ] (lit 1 1).

(** One for inputs that differ, zero for equal ones and for those not ordered. *)
Definition xor_target (a b : F) : F := s_of_int (match s_compare a b with Some Lt | Some Gt => 1 | _ => 0 end).

(** ** The routines *)

(** The data section that holds a network, the inputs and the scratch cells. *)
Definition image (w : network) (a b : F) (hs ds : list F) (o od t e : F) : list F :=
  [rate; f_one; lit 0 1] ++ concat ((fun n => [in_w1 n; in_w2 n]) <$> hidden w) ++ (bias <$> hidden w) ++ (out_w <$> hidden w) ++
  [out_bias w; a; b] ++ hs ++ ds ++ [o; od; t; e].

(** A machine that differs from another in the floating-point registers, the flags
    and what is given. *)
Definition at_ (m : machine) (p : nat) (c : list F) (st : list frame) (m' : machine) : Prop :=
  pc m' = p /\ cells (fp m') = c /\ stack m' = st /\ rdi m' = rdi m /\ r12 m' = r12 m /\ r13 m' = r13 m /\ out m' = out m.

#[local] Abbreviation run := (steps mlp_step).

(** Lists of four made explicit. *)
Ltac four l := do 4 (destruct l as [|? l]; [done|]); destruct l; [|done].

Ltac open_machine m w :=
  destruct m as [? [[? ? ? ?] ? ?] ? ? ? ? ?]; destruct w as [l ?]; cbn [pc fp cells stack hidden] in *; subst; four l;
  repeat match goal with n : neuron |- _ => destruct n end.

Lemma forward_runs m w a b hs ds o od t e p st :
  length (hidden w) = 4%nat -> length hs = 4%nat -> length ds = 4%nat ->
  at_ m (address forward_pass) (image w a b hs ds o od t e) (RetTo p :: st) m ->
  exists m', run 69 m = Ok m' /\ at_ m p (image w a b (activation a b <$> hidden w) ds (evaluate a b w) od t e) st m'.
Proof.
  intros Hw Hhs Hds (Hp & Hc & Hst & _). open_machine m w. four hs. four ds.
  eexists. split; [vm_compute; reflexivity|]. vm_compute. by repeat split.
Qed.

Lemma relu_derivative_runs m g c f p st :
  pc m = address relu_derivative -> fp m = mkFpu g c f -> c !! one = Some f_one -> stack m = RetTo p :: st ->
  run 5 m = Ok (mkMachine p (mkFpu (set_xmm X1 (slope (x0 g)) g) c (compare_flags (x0 g) s_zero)) (rdi m) (r12 m) (r13 m) st (out m)).
Proof.
  intros Hp Hf Hc Hst. destruct m as [p0 s0 ? ? ? st0 ?]. simpl in Hp, Hf, Hst. subst. unfold one in Hc.
  change (address relu_derivative) with 194%nat. unfold slope, compare_flags. cbn. unfold compare_flags.
  destruct g as [g0 g1 g2 g3]. cbn. destruct (s_compare g0 s_zero) as [[]|]; cbn; rewrite ?Hc; done.
Qed.

Ltac plain_steps := eapply steps_trans; [vm_compute; reflexivity|].
Ltac derivative_steps := eapply steps_trans; [eapply relu_derivative_runs; reflexivity|].

Lemma backward_runs m w a b hs ds o od t e p st :
  length (hidden w) = 4%nat -> length hs = 4%nat -> length ds = 4%nat ->
  at_ m (address backward_pass) (image w a b hs ds o od t e) (RetTo p :: st) m ->
  exists m', run 60 m = Ok m' /\
    at_ m p (image w a b hs (back_propagated (gradient t o) <$> hidden w) o (gradient t o) t (s_sub t o)) st m'.
Proof.
  intros Hw Hhs Hds (Hp & Hc & Hst & _). open_machine m w. four hs. four ds. eexists. split.
  - change 60%nat with (18 + (5 + (6 + (5 + (6 + (5 + (6 + (5 + 4))))))))%nat.
    plain_steps. derivative_steps. plain_steps. derivative_steps. plain_steps. derivative_steps. plain_steps. derivative_steps.
    vm_compute. reflexivity.
  - vm_compute. by repeat split.
Qed.

Lemma update_runs m w a b ds o g t e p st :
  length (hidden w) = 4%nat -> ds = back_propagated g <$> hidden w ->
  at_ m (address update_weights) (image w a b (activation a b <$> hidden w) ds o g t e) (RetTo p :: st) m ->
  exists m', run 79 m = Ok m' /\
    at_ m p (image (mkNetwork (improve a b g <$> hidden w) (s_add (s_mul rate g) (out_bias w))) a b (activation a b <$> hidden w) ds o g t e) st m'.
Proof.
  intros Hw -> (Hp & Hc & Hst & _). open_machine m w. eexists. split; [vm_compute; reflexivity|]. vm_compute. by repeat split.
Qed.

(** ** Training *)

(** At [p] in [main], with network [w], last output [o], epoch counter [n] and
    output so far. *)
Definition trained (a b t : F) (p : label) (w : network) (o : F) (n : Z) (l : list (event F)) (m : machine) : Prop :=
  pc m = address p /\ stack m = [Rbp] /\ r13 m = n /\ out m = l /\ length (hidden w) = 4%nat /\
  exists hs ds od e, length hs = 4%nat /\ length ds = 4%nat /\ cells (fp m) = image w a b hs ds o od t e.

Definition report (t o : F) (n : Z) : list (event F) := if Z.rem n 100 =? 0 then [Epoch n (s_sub t o)] else [].

(** A call of a routine from the training loop. *)
Lemma call_runs m l q : pc m = q -> text !! q = Some (Call l) ->
  run 1 m = Ok (mkMachine (address l) (fp m) (rdi m) (r12 m) (r13 m) (RetTo (S q) :: stack m) (out m)).
Proof. intros <- Hq. simpl. unfold mlp_step. by rewrite Hq. Qed.

Lemma passes_run a b t w o n l m : trained a b t train_loop w o n l m ->
  exists m', run 211 m = Ok m' /\ pc m' = (address train_loop + 3)%nat /\ stack m' = [Rbp] /\ r13 m' = n /\ out m' = l /\
    let o' := evaluate a b w in
    cells (fp m') = image (train_once a b t w) a b (activation a b <$> hidden w) (back_propagated (gradient t o') <$> hidden w) o' (gradient t o') t (s_sub t o').
Proof.
  intros (Hp & Hst & Hr & Hout & Hw & hs & ds & od & e & Hhs & Hds & Hc).
  destruct (forward_runs (mkMachine (address forward_pass) (fp m) (rdi m) (r12 m) (r13 m) (RetTo (S (address train_loop)) :: stack m) (out m))
    w a b hs ds o od t e (S (address train_loop)) (stack m)) as (m1 & H1 & P1 & C1 & S1 & _ & _ & R1 & O1); [done|done|done|by repeat split|].
  destruct (backward_runs (mkMachine (address backward_pass) (fp m1) (rdi m1) (r12 m1) (r13 m1) (RetTo (S (S (address train_loop))) :: stack m1) (out m1))
    w a b (activation a b <$> hidden w) ds (evaluate a b w) od t e (S (S (address train_loop))) (stack m1)) as (m2 & H2 & P2 & C2 & S2 & _ & _ & R2 & O2);
    [done|by rewrite length_fmap|done|by repeat split|].
  destruct (update_runs (mkMachine (address update_weights) (fp m2) (rdi m2) (r12 m2) (r13 m2) (RetTo (S (S (S (address train_loop)))) :: stack m2) (out m2))
    w a b (back_propagated (gradient t (evaluate a b w)) <$> hidden w) (evaluate a b w) (gradient t (evaluate a b w)) t (s_sub t (evaluate a b w))
    (S (S (S (address train_loop)))) (stack m2)) as (m3 & H3 & P3 & C3 & S3 & _ & _ & R3 & O3); [done|done|by repeat split|].
  exists m3. simpl in S1, S2, S3, R1, R2, R3, O1, O2, O3. split.
  - change 211%nat with (1 + (69 + (1 + (60 + (1 + 79)))))%nat.
    eapply steps_trans; [by apply (call_runs m forward_pass _ Hp)|]. eapply steps_trans; [exact H1|].
    eapply steps_trans; [by apply (call_runs m1 backward_pass _ P1)|]. eapply steps_trans; [exact H2|].
    eapply steps_trans; [by apply (call_runs m2 update_weights _ P2)|]. exact H3.
  - rewrite P3, S3, S2, S1, R3, R2, R1, O3, O2, O1, C3. by repeat split.
Qed.

Lemma report_runs a b t w o n l m hs ds od : length (hidden w) = 4%nat -> length hs = 4%nat -> length ds = 4%nat ->
  pc m = (address train_loop + 3)%nat -> stack m = [Rbp] -> r13 m = n -> out m = l -> cells (fp m) = image w a b hs ds o od t (s_sub t o) ->
  exists k m', (k <= 4)%nat /\ run k m = Ok m' /\ trained a b t skip_print w o n (l ++ report t o n) m'.
Proof.
  intros Hw Hhs Hds Hp Hst Hr Hout Hc. assert (cells (fp m) !! error = Some (s_sub t o)) as He.
  { rewrite Hc. destruct w as [u ?]. cbn [hidden] in *. four u. four hs. four ds. reflexivity. }
  destruct m as [p0 [g c f] ? ? n0 st0 l0]. cbn [pc fp cells stack r13 out] in *. subst p0 st0 n0 l0. unfold report.
  change (address train_loop + 3)%nat with 20%nat. unfold error in He. destruct (Z.rem n 100 =? 0) eqn:E.
  - eexists 4%nat, _. split; [lia|]. split.
    + cbn. rewrite E. cbn. rewrite He. cbn. reflexivity.
    + unfold trained. cbn [pc fp cells stack r13 out]. repeat split; try done. by exists hs, ds, od, (s_sub t o).
  - eexists 2%nat, _. split; [lia|]. split.
    + cbn. rewrite E. cbn. reflexivity.
    + unfold trained. cbn [pc fp cells stack r13 out]. rewrite app_nil_r. repeat split; try done. by exists hs, ds, od, (s_sub t o).
Qed.

(** One turn of the loop, up to the test of the counter. *)
Lemma epoch_runs a b t w o n l m : trained a b t train_loop w o n l m ->
  exists k m', (k <= 215)%nat /\ run k m = Ok m' /\
    trained a b t skip_print (train_once a b t w) (evaluate a b w) n (l ++ report t (evaluate a b w) n) m'.
Proof.
  intros Ht. destruct (passes_run _ _ _ _ _ _ _ _ Ht) as (m1 & H1 & P1 & S1 & R1 & O1 & C1). destruct Ht as (_ & _ & _ & _ & Hw & _).
  destruct (report_runs a b t (train_once a b t w) (evaluate a b w) n l m1 (activation a b <$> hidden w)
    (back_propagated (gradient t (evaluate a b w)) <$> hidden w) (gradient t (evaluate a b w))) as (k & m2 & Hk & H2 & Ht2);
    [by simpl; rewrite length_fmap|by rewrite length_fmap|by rewrite length_fmap|done..|].
  exists (211 + k)%nat, m2. split; [lia|]. split; [by eapply steps_trans|done].
Qed.

(** The end of a turn. *)
Lemma skip_runs a b t w o n l m : trained a b t skip_print w o n l m -> n <> 1 ->
  exists m', run 2 m = Ok m' /\ trained a b t train_loop w o (n - 1) l m'.
Proof.
  intros (Hp & Hst & Hr & Hout & Hw & hs & ds & od & e & Hhs & Hds & Hc) Hn. destruct m as [p0 [g c f] ? ? n0 st0 l0].
  cbn [pc fp cells stack r13 out] in *. subst p0 st0 n0 l0. eexists. split.
  - change (address skip_print) with 24%nat. cbn. destruct (Z.eqb_spec (n - 1) 0); [lia|]. cbn. reflexivity.
  - unfold trained. cbn [pc fp cells stack r13 out]. repeat split; try done. by exists hs, ds, od, e.
Qed.

Lemma exit_runs a b t w o l m fuel : trained a b t skip_print w o 1 l m -> (5 <= fuel)%nat -> loop fuel mlp_step m = Ok (0, l ++ [Final o]).
Proof.
  intros (Hp & Hst & Hr & Hout & Hw & hs & ds & od & e & Hhs & Hds & Hc) Hf.
  assert (cells (fp m) !! output = Some o) as He.
  { rewrite Hc. destruct w as [u ?]. cbn [hidden] in *. four u. four hs. four ds. reflexivity. }
  destruct m as [p0 [g c f] ? ? n0 st0 l0]. cbn [pc fp cells stack r13 out] in *. subst p0 st0 n0 l0. unfold output in He.
  match goal with |- loop _ _ ?m = _ =>
    assert (exists m', run 4 m = Ok m' /\ text !! pc m' = Some (ExitWith 0) /\ out m' = l ++ [Final o]) as (m' & H4 & Hx & Ho) end.
  { change (address skip_print) with 24%nat. eexists. split; [cbn; change (1 - 1 =? 0) with true; cbn; rewrite He; cbn; reflexivity|done]. }
  replace fuel with (4 + S (fuel - 5))%nat by lia. rewrite (loop_steps _ _ _ _ _ H4), loop_S. unfold mlp_step. by rewrite Hx, Ho.
Qed.

Lemma training_runs a b t (n : nat) : forall w o l m fuel, trained a b t train_loop w o (Z.of_nat (S n)) l m -> (220 * S n <= fuel)%nat ->
  loop fuel mlp_step m = Ok (0, l ++ (train (S n) a b t w).1 ++ [Final (train (S n) a b t w).2]).
Proof.
  induction n as [|n IH]; intros w o l m fuel Ht Hf; destruct (epoch_runs _ _ _ _ _ _ _ _ Ht) as (k & m1 & Hk & H1 & Ht1);
    replace fuel with (k + (fuel - k))%nat by lia; rewrite (loop_steps _ _ _ _ _ H1).
  - erewrite exit_runs; [|exact Ht1|lia]. by rewrite <- app_assoc.
  - destruct (skip_runs _ _ _ _ _ _ _ _ Ht1) as (m2 & H2 & Ht2); [lia|].
    replace (fuel - k)%nat with (2 + (fuel - k - 2))%nat by lia. rewrite (loop_steps _ _ _ _ _ H2).
    replace (Z.of_nat (S (S n)) - 1) with (Z.of_nat (S n)) in Ht2 by lia. rewrite (IH _ _ _ _ _ Ht2) by lia.
    change (train (S (S n)) a b t w) with (let o' := evaluate a b w in let '(l, r) := train (S n) a b t (train_once a b t w) in (report t o' (Z.of_nat (S (S n))) ++ l, r)).
    cbv zeta. destruct (train (S n) a b t (train_once a b t w)) as [l' r]. simpl. by rewrite <- !app_assoc.
Qed.

Lemma main_runs r12_0 r13_0 regs0 fl0 : exists m, run 17 (entry 3 r12_0 r13_0 regs0 fl0) = Ok m /\
  trained (atof 1) (atof 2) (xor_target (atof 1) (atof 2)) train_loop network0 s_zero num_epochs [] m.
Proof.
  assert (xor_target (atof 1) (atof 2) = s_of_int (if zf (compare_flags (atof 1) (atof 2)) then 0 else 1)) as ->.
  { unfold xor_target, compare_flags. by destruct (s_compare (atof 1) (atof 2)) as [[]|]. }
  destruct regs0 as [g0 g1 g2 g3], junk as [j0 j1 j2 j3] eqn:Hj, junk_flags as [jz jc]. eexists. split.
  - cbn. rewrite ?Z.eqb_refl. cbn. rewrite ?Z.eqb_refl. cbn. reflexivity.
  - unfold trained. cbn [pc fp cells stack r13 out]. split; [reflexivity|]. do 4 (split; [reflexivity|]).
    exists (replicate 4 s_zero), (replicate 4 s_zero), s_zero, s_zero. by repeat split.
Qed.

(** The derivative is taken of the gradient, not of the output of the neuron: a
    gradient that is not positive does not reach the weights of the neuron. *)
Lemma back_propagated_blocked g n : s_compare (s_mul g (out_w n)) s_zero <> Some Gt ->
  back_propagated g n = s_mul (s_mul g (out_w n)) s_zero.
Proof. intros H. unfold back_propagated, slope. by destruct (s_compare (s_mul g (out_w n)) s_zero) as [[]|]. Qed.

(** With a wrong number of arguments [r12] is read before it is set. *)
Lemma usage_reads_r12 argc r12_0 r13_0 regs0 fl0 fuel : argc <> 3 -> r12_0 <> argv -> (4 <= fuel)%nat ->
  mlp_main fuel argc r12_0 r13_0 regs0 fl0 = Fault BadAddress.
Proof.
  intros Ha Hr Hf. unfold mlp_main. do 4 (destruct fuel as [|fuel]; [lia|]). cbn. destruct (Z.eqb_spec argc 3); [done|]. cbn.
  by destruct (Z.eqb_spec r12_0 argv).
Qed.

(** C18.  The assembly program is the network: with two arguments, for every
    arithmetic, every content of the registers at entry and after calls of the C
    library, and any inputs, it runs without fault and exits with 0 after printing what
    [train] gives for a thousand epochs of the network with the initial weights of the
    data section: the error of every hundredth epoch and the last output.  With another
    number of arguments it reads the program name through the value [r12] had at
    entry, and faults unless that happens to be [argv]. *)
Theorem mlp_equals_network (fuel : nat) (argc r12_0 r13_0 : Z) (regs0 : registers F) (fl0 : flags) : 220 * num_epochs + 17 <= Z.of_nat fuel ->
  if argc =? 3 then
    mlp_main fuel argc r12_0 r13_0 regs0 fl0 =
      Ok (0, let '(l, o) := train (Z.to_nat num_epochs) (atof 1) (atof 2) (xor_target (atof 1) (atof 2)) network0 in l ++ [Final o])
  else r12_0 <> argv -> mlp_main fuel argc r12_0 r13_0 regs0 fl0 = Fault BadAddress.
Proof.
  intros Hf. destruct (Z.eqb_spec argc 3) as [->|Ha]; [|intros Hr; apply usage_reads_r12; [done|done|unfold num_epochs in Hf; lia]].
  destruct (main_runs r12_0 r13_0 regs0 fl0) as (m & H1 & Ht). unfold mlp_main, num_epochs in *.
  replace fuel with (17 + (fuel - 17))%nat by lia. rewrite (loop_steps _ _ _ _ _ H1).
  change (Z.to_nat 1000) with (S 999). rewrite (training_runs _ _ _ 999 _ _ _ _ _ Ht) by lia.
  generalize (train (S 999) (atof 1) (atof 2) (xor_target (atof 1) (atof 2)) network0). intros [l o]. reflexivity.
Qed.
End program.

Definition blank_regs : registers cfloat := mkRegs s_zero s_zero s_zero s_zero.

Lemma mlp_equals_network_witness : (exists l, mlp_main 4096 f64_of_int blank_regs (mkFlags true true) 0 (Z.to_nat 220017) 3 0 0 blank_regs (mkFlags false false) = Ok (0, l)) /\
  mlp_main 4096 f64_of_int blank_regs (mkFlags true true) 0 (Z.to_nat 220017) 1 0 0 blank_regs (mkFlags false false) = Fault BadAddress.
Proof.
  split.
  - eexists. apply (mlp_equals_network 4096 f64_of_int blank_regs (mkFlags true true) 0 (Z.to_nat 220017) 3 0 0 blank_regs (mkFlags false false)).
    unfold num_epochs. rewrite Z2Nat.id; lia.
  - apply (mlp_equals_network 4096 f64_of_int blank_regs (mkFlags true true) 0 (Z.to_nat 220017) 1 0 0 blank_regs (mkFlags false false)); [|done].
    unfold num_epochs. rewrite Z2Nat.id; lia.
Defined.

(** [sigmoid] computes 1 / (1 + x) without the exponential: at 0 it gives 1, and the
    derivative used in training is then 0. *)
Lemma sigmoid_not_logistic : s_compare (squash (F := cfloat) s_zero) (lit 5 1) = Some Gt /\
  s_compare (s_mul (squash (F := cfloat) s_zero) (s_sub f_one (squash s_zero))) s_zero = Some Eq.
Proof. vm_compute. done. Qed.
