(* ===== verification/Perceptron.v ===== *)
(** * A perceptron in assembly ([ml/neural.asm])

    One neuron with two inputs given as decimal arguments, trained for a thousand
    epochs.  The program is a list of instructions; the theorem says what it prints,
    for any arithmetic. *)
From Stdlib Require Import ZArith Lia.
From stdpp Require Import base tactics list numbers option.
From S2P Require Import Prelude Float Sse.

#[local] Open Scope Z_scope.
#[local] Open Scope c_scope.

(** ** The data section *)

Definition input1 : nat := 0.
Definition input2 : nat := 1.
Definition target_true : nat := 2.
Definition target_false : nat := 3.
Definition weight1 : nat := 4.
Definition weight2 : nat := 5.
Definition bias : nat := 6.
Definition learning_rate : nat := 7.
Definition output : nat := 8.
Definition error : nat := 9.
Definition num_epochs : Z := 1000.

Definition epoch_msg : list Z := [69; 112; 111; 99; 104; 58; 32].
Definition newline : list Z := [10].
Definition true_msg : list Z := [84; 114; 117; 101; 10].
Definition false_msg : list Z := [70; 97; 108; 115; 101; 10].
Definition usage_msg : list Z :=
  [85; 115; 97; 103; 101; 58; 32; 46; 47; 110; 101; 117; 114; 97; 108; 32; 60; 105; 110; 112; 117; 116; 49; 62; 32;
   60; 105; 110; 112; 117; 116; 50; 62; 10; 0].

(** ** The program *)

Inductive label : Type :=
| train_loop | set_false_target | continue_training | zero | update_weights | skip_print_epoch | false_ | exit_ | usage_error
| atoi | atoi_loop | atoi_done.

(** [LoadArg k] is [mov rsi, [rsp + 8 * (k + 1)]].  [Write] and [WriteNum] are the four
    moves and the [syscall] of a write to standard output, [Exit] those of an exit.
    [TestEpoch] is [mov ecx, r12d; and ecx, 0x63].  [finit] has no effect on the
    registers used; [push r12] and [pop r12] save a register that the code between
    them leaves as it is. *)
Inductive instr : Type :=
| Fp (i : sse)
| CmpArgc (v : Z) | LoadArg (k : nat) | Call (l : label) | Ret
| Jne (l : label) | Jb (l : label) | Ja (l : label) | Jz (l : label) | Jnz (l : label) | Jmp (l : label)
| MovR12 (v : Z) | DecR12 | TestEpoch
| Write (msg : list Z) | WriteNum | Exit (code : Z)
| MovRcx (v : Z) | XorRdx | DivRcx | AddAl (v : Z) | AddAh (v : Z) | StoreAl | MovEaxEdx | StoreAx1 | StoreZero3
| XorRax | LoadByte | TestCl | CmpCl (v : Z) | SubCl (v : Z) | ImulRax (v : Z) | AddRaxRcx | IncRsi | Cvtsi2sd.

Definition start_code : list instr :=
  [ CmpArgc 3; Jne usage_error;
    LoadArg 1; Call atoi; Fp (Movsd (Cell input1) (Xmm X0));
    LoadArg 2; Call atoi; Fp (Movsd (Cell input2) (Xmm X0));
    MovR12 num_epochs ].

Definition train_code : list instr :=
  [ Fp (Movsd (Xmm X0) (Cell input1)); Fp (Movsd (Xmm X1) (Cell input2)); Fp (Ucomisd X0 X1); Jne set_false_target;
    Fp (Movsd (Xmm X2) (Cell target_true)); Jmp continue_training ].

Definition false_target_code : list instr := [ Fp (Movsd (Xmm X2) (Cell target_false)) ].

Definition continue_code : list instr :=
  [ Fp (Mulsd X0 (Cell weight1)); Fp (Mulsd X1 (Cell weight2)); Fp (Addsd X0 (Xmm X1)); Fp (Addsd X0 (Cell bias));
    Fp (Xorpd X1); Fp (Ucomisd X0 X1); Jb zero; Fp (Movsd (Cell output) (Xmm X2)); Jmp update_weights ].

Definition zero_code : list instr := [ Fp (Movsd (Cell output) (Xmm X1)) ].

Definition update_code : list instr :=
  [ Fp (Movsd (Xmm X3) (Xmm X2)); Fp (Subsd X3 (Cell output)); Fp (Movsd (Cell error) (Xmm X3));
    Fp (Mulsd X3 (Cell learning_rate)); Fp (Mulsd X3 (Cell input1)); Fp (Addsd X3 (Cell weight1)); Fp (Movsd (Cell weight1) (Xmm X3));
    Fp (Mulsd X3 (Cell learning_rate)); Fp (Mulsd X3 (Cell input2)); Fp (Addsd X3 (Cell weight2)); Fp (Movsd (Cell weight2) (Xmm X3));
    Fp (Mulsd X3 (Cell learning_rate)); Fp (Addsd X3 (Cell bias)); Fp (Movsd (Cell bias) (Xmm X3)) ].

Definition print_epoch_code : list instr :=
  [ TestEpoch; Jnz skip_print_epoch; Write epoch_msg;
    MovRcx 100; XorRdx; DivRcx; AddAl 48; StoreAl; MovEaxEdx; MovRcx 10; XorRdx; DivRcx; AddAl 48; AddAh 48; StoreAx1; StoreZero3;
    WriteNum; Write newline ].

Definition final_code : list instr :=
  [ DecR12; Jnz train_loop;
    Fp (Movsd (Xmm X0) (Cell input1)); Fp (Movsd (Xmm X1) (Cell input2)); Fp (Mulsd X0 (Cell weight1)); Fp (Mulsd X1 (Cell weight2));
    Fp (Addsd X0 (Xmm X1)); Fp (Addsd X0 (Cell bias)); Fp (Xorpd X1); Fp (Ucomisd X0 X1); Jb false_; Write true_msg; Jmp exit_ ].

Definition false_code : list instr := [ Write false_msg ].
Definition exit_code : list instr := [ Exit 0 ].
Definition usage_code : list instr := [ Write usage_msg; Exit 1 ].

Definition atoi_code : list instr := [ XorRax ].
Definition atoi_loop_code : list instr :=
  [ LoadByte; TestCl; Jz atoi_done; CmpCl 48; Jb atoi_done; CmpCl 57; Ja atoi_done; SubCl 48; ImulRax 10; AddRaxRcx; IncRsi; Jmp atoi_loop ].
Definition atoi_done_code : list instr := [ Cvtsi2sd; Ret ].

Definition sections : list (list instr) :=
  [ start_code; train_code; false_target_code; continue_code; zero_code; update_code ++ print_epoch_code; final_code; false_code; exit_code;
    usage_code; atoi_code; atoi_loop_code; atoi_done_code ].

Definition text : list instr := Eval vm_compute in concat sections.

Definition section_of (l : label) : nat :=
  match l with
  | train_loop => 1 | set_false_target => 2 | continue_training => 3 | zero => 4 | update_weights => 5 | skip_print_epoch => 6
  | false_ => 7 | exit_ => 8 | usage_error => 9 | atoi => 10 | atoi_loop => 11 | atoi_done => 12
  end.

Definition address (l : label) : nat := length (concat (take (section_of l) sections)).

(** ** The machine *)

(** A 64-bit pattern read as a signed number. *)
Definition signed64 (v : Z) : Z := if v <? 9223372036854775808 then v else v - UINT64.

Section program.
Context {F : Type} `{!Sse F}.

(** [rsi] points to the first byte of [str]; [out] has the bytes of each write. *)
Record machine : Type := mkMachine {
  pc : nat; fp : fpu F; rax : Z; rcx : Z; rdx : Z; r12 : Z; str : list Z; stack : list nat; epoch_num : list Z; out : list (list Z)
}.

(** [args k] are the bytes of argument [k]; [written n] is the result of a write of
    [n] bytes, after which [rcx] holds [junk]. *)
Context (args : nat -> list Z) (written : Z -> Z) (junk : Z).

Definition set_fp (m : machine) (s : fpu F) : machine :=
  mkMachine (S (pc m)) s (rax m) (rcx m) (rdx m) (r12 m) (str m) (stack m) (epoch_num m) (out m).

Definition set_ints (m : machine) (a c d : Z) : machine :=
  mkMachine (S (pc m)) (fp m) a c d (r12 m) (str m) (stack m) (epoch_num m) (out m).

Definition set_flags (m : machine) (f : flags) : machine :=
  mkMachine (pc m) (mkFpu (xmms (fp m)) (cells (fp m)) f) (rax m) (rcx m) (rdx m) (r12 m) (str m) (stack m) (epoch_num m) (out m).

Definition goto (p : nat) (m : machine) : machine :=
  mkMachine p (fp m) (rax m) (rcx m) (rdx m) (r12 m) (str m) (stack m) (epoch_num m) (out m).

Definition branch (taken : bool) (l : label) (m : machine) : machine := goto (if taken then address l else S (pc m)) m.

Definition set_num (m : machine) (l : list Z) : machine :=
  mkMachine (S (pc m)) (fp m) (rax m) (rcx m) (rdx m) (r12 m) (str m) (stack m) l (out m).

Definition set_r12 (m : machine) (v : Z) : machine :=
  mkMachine (S (pc m)) (fp m) (rax m) (rcx m) (rdx m) v (str m) (stack m) (epoch_num m) (out m).

Definition set_str (m : machine) (l : list Z) : machine :=
  mkMachine (S (pc m)) (fp m) (rax m) (rcx m) (rdx m) (r12 m) l (stack m) (epoch_num m) (out m).

Definition write_out (m : machine) (l : list Z) : machine :=
  mkMachine (S (pc m)) (fp m) (written (len l)) junk (len l) (r12 m) (str m) (stack m) (epoch_num m) (out m ++ [l]).

Definition al (v : Z) : Z := v mod 256.
Definition ah (v : Z) : Z := (v / 256) mod 256.

Definition neural_step (argc : Z) (m : machine) : res (ctl machine (Z * list (list Z))) :=
  let z := zf (fl (fp m)) in
  let c := cf (fl (fp m)) in
  match text !! pc m with
  | None => Fault BadAddress
  | Some (Fp i) => s ← sse_step i (fp m); Ok (Next (set_fp m s))
  | Some (CmpArgc v) => Ok (Next (goto (S (pc m)) (set_flags m (mkFlags (argc =? v) (argc <? v)))))
  | Some (LoadArg k) => Ok (Next (set_str m (args k)))
  | Some (Call l) =>
      Ok (Next (mkMachine (address l) (fp m) (rax m) (rcx m) (rdx m) (r12 m) (str m) (S (pc m) :: stack m) (epoch_num m) (out m)))
  | Some Ret =>
      match stack m with
      | p :: st => Ok (Next (mkMachine p (fp m) (rax m) (rcx m) (rdx m) (r12 m) (str m) st (epoch_num m) (out m)))
      | [] => Fault BadAddress
      end
  | Some (Jne l) | Some (Jnz l) => Ok (Next (branch (negb z) l m))
  | Some (Jz l) => Ok (Next (branch z l m))
  | Some (Jb l) => Ok (Next (branch c l m))
  | Some (Ja l) => Ok (Next (branch (negb z && negb c) l m))
  | Some (Jmp l) => Ok (Next (branch true l m))
  | Some (MovR12 v) => Ok (Next (set_r12 m v))
  | Some DecR12 => let v := u32 (r12 m - 1) in Ok (Next (set_r12 (set_flags m (mkFlags (v =? 0) c)) v))
  | Some TestEpoch => let v := Z.land (r12 m) 0x63 in Ok (Next (set_ints (set_flags m (mkFlags (v =? 0) false)) (rax m) v (rdx m)))
  | Some (Write l) => Ok (Next (write_out m l))
  | Some WriteNum => Ok (Next (write_out m (take 3 (epoch_num m))))
  | Some (Exit code) => Ok (Return (code, out m))
  | Some (MovRcx v) => Ok (Next (set_ints m (rax m) v (rdx m)))
  | Some XorRdx => Ok (Next (set_ints (set_flags m (mkFlags true false)) (rax m) (rcx m) 0))
  | Some DivRcx =>
      if rcx m =? 0 then Fault DivByZero else
      let n := rdx m * UINT64 + rax m in
      let q := n / rcx m in
      if UINT64 <=? q then Fault IntOverflow else Ok (Next (set_ints m q (rcx m) (n mod rcx m)))
  | Some (AddAl v) =>
      let b := (al (rax m) + v) mod 256 in
      Ok (Next (set_ints (set_flags m (mkFlags (b =? 0) (256 <=? al (rax m) + v))) (rax m - al (rax m) + b) (rcx m) (rdx m)))
  | Some (AddAh v) =>
      let b := (ah (rax m) + v) mod 256 in
      Ok (Next (set_ints (set_flags m (mkFlags (b =? 0) (256 <=? ah (rax m) + v))) (rax m - 256 * ah (rax m) + 256 * b) (rcx m) (rdx m)))
  | Some StoreAl => Ok (Next (set_num m (<[0%nat := al (rax m)]> (epoch_num m))))
  | Some MovEaxEdx => Ok (Next (set_ints m (u32 (rdx m)) (rcx m) (rdx m)))
  | Some StoreAx1 => Ok (Next (set_num m (<[1%nat := al (rax m)]> (<[2%nat := ah (rax m)]> (epoch_num m)))))
  | Some StoreZero3 => Ok (Next (set_num m (<[3%nat := 0]> (epoch_num m))))
  | Some XorRax => Ok (Next (set_ints (set_flags m (mkFlags true false)) 0 (rcx m) (rdx m)))
  | Some LoadByte => match str m with b :: _ => Ok (Next (set_ints m (rax m) b (rdx m))) | [] => Fault OutOfBounds end
  | Some TestCl => Ok (Next (goto (S (pc m)) (set_flags m (mkFlags (al (rcx m) =? 0) false))))
  | Some (CmpCl v) => Ok (Next (goto (S (pc m)) (set_flags m (mkFlags (al (rcx m) =? v) (al (rcx m) <? v)))))
  | Some (SubCl v) =>
      let b := (al (rcx m) - v) mod 256 in
      Ok (Next (set_ints (set_flags m (mkFlags (b =? 0) (al (rcx m) <? v))) (rax m) (rcx m - al (rcx m) + b) (rdx m)))
  | Some (ImulRax v) => Ok (Next (set_ints m (u64 (rax m * v)) (rcx m) (rdx m)))
  | Some AddRaxRcx => Ok (Next (set_ints m (u64 (rax m + rcx m)) (rcx m) (rdx m)))
  | Some IncRsi => Ok (Next (set_str m (tail (str m))))
  | Some Cvtsi2sd => Ok (Next (set_fp m (mkFpu (set_xmm X0 (s_of_int (signed64 (rax m))) (xmms (fp m))) (cells (fp m)) (fl (fp m)))))
  end.

Definition data0 : list F :=
  [ lit 0 1; lit 0 1; lit 10 1; lit 0 1; lit 5 1; lit 5 1; lit (-5) 1; lit 1 1; s_zero; s_zero ].

Definition entry (m0 : machine) : machine :=
  mkMachine 0 (mkFpu (xmms (fp m0)) data0 (fl (fp m0))) (rax m0) (rcx m0) (rdx m0) (r12 m0) (str m0) [] (replicate 4 0) [].

(** The registers at entry are those of [m0]. *)
Definition neural_main (fuel : nat) (argc : Z) (m0 : machine) : res (Z * list (list Z)) := loop fuel (neural_step argc) (entry m0).

(** ** What it computes *)

(** The decimal digits a string starts with, modulo 2^64. *)
Definition is_digit (b : Z) : bool := (48 <=? b) && (b <=? 57).

Fixpoint decimal (acc : Z) (s : list Z) : Z :=
  match s with
  | b :: s => if is_digit b then decimal (acc * 10 + (b - 48)) s else acc
  | [] => acc
  end.

Definition argument (k : nat) : F := s_of_int (signed64 (u64 (decimal 0 (args k)))).

Record neuron : Type := mkNeuron { w1 : F; w2 : F; wb : F }.

Definition rate : F := lit 1 1.

Definition fires (a b : F) (n : neuron) : bool :=
  negb (cf (compare_flags (s_add (s_add (s_mul a (w1 n)) (s_mul b (w2 n))) (wb n)) s_zero)).

Definition target (a b : F) : F := if zf (compare_flags a b) then lit 10 1 else lit 0 1.

(** The second and third change are computed from the new weights, not from the
    error. *)
Definition learn (a b : F) (n : neuron) : neuron :=
  let t := target a b in
  let e := s_sub t (if fires a b n then t else s_zero) in
  let v1 := s_add (s_mul (s_mul e rate) a) (w1 n) in
  let v2 := s_add (s_mul (s_mul v1 rate) b) (w2 n) in
  mkNeuron v1 v2 (s_add (s_mul v2 rate) (wb n)).

Definition neuron0 : neuron := mkNeuron (lit 5 1) (lit 5 1) (lit (-5) 1).

(** Epochs are counted down; the progress message is printed when four bits of the
    counter are clear, and its number is always 000. *)
Fixpoint epochs (n : nat) (a b : F) (u : neuron) : list (list Z) * neuron :=
  match n with
  | O => ([], u)
  | S k =>
      let report := if Z.land (Z.of_nat n) 0x63 =? 0 then [epoch_msg; [48; 48; 48]; newline] else [] in
      let '(l, v) := epochs k a b (learn a b u) in (report ++ l, v)
  end.

(** ** The routines *)

Section proofs.
Context (argc : Z).
#[local] Arguments u64 : simpl never.
#[local] Arguments u32 : simpl never.
#[local] Abbreviation run := (steps (neural_step argc)).

(** A label made a number. *)
Ltac addr l := let p := eval vm_compute in (address l) in change (address l) with p.

(** The three tests of the loop, each with the place it goes to. *)
Lemma atoi_test_end g c f a x d n b s p st e l : 0 <= b < 256 ->
  run 3 (mkMachine (address atoi_loop) (mkFpu g c f) a x d n (b :: s) (p :: st) e l) =
    Ok (mkMachine (if b =? 0 then address atoi_done else address atoi_loop + 3) (mkFpu g c (mkFlags (b =? 0) false)) a b d n (b :: s) (p :: st) e l).
Proof. intros Hb. assert (al b = b) as Hal by (unfold al; rewrite Z.mod_small; lia). rewrite <- Hal at 2 3. reflexivity. Qed.

Lemma atoi_test_low g c f a d n b s p st e l : 0 <= b < 256 ->
  run 2 (mkMachine (address atoi_loop + 3) (mkFpu g c f) a b d n (b :: s) (p :: st) e l) =
    Ok (mkMachine (if b <? 48 then address atoi_done else address atoi_loop + 5) (mkFpu g c (mkFlags (b =? 48) (b <? 48))) a b d n (b :: s) (p :: st) e l).
Proof. intros Hb. assert (al b = b) as Hal by (unfold al; rewrite Z.mod_small; lia). rewrite <- Hal at 3 4 5. reflexivity. Qed.

Lemma atoi_test_high g c f a d n b s p st e l : 0 <= b < 256 ->
  run 2 (mkMachine (address atoi_loop + 5) (mkFpu g c f) a b d n (b :: s) (p :: st) e l) =
    Ok (mkMachine (if negb (b =? 57) && negb (b <? 57) then address atoi_done else address atoi_loop + 7)
          (mkFpu g c (mkFlags (b =? 57) (b <? 57))) a b d n (b :: s) (p :: st) e l).
Proof. intros Hb. assert (al b = b) as Hal by (unfold al; rewrite Z.mod_small; lia). rewrite <- Hal at 3 4 5 6. reflexivity. Qed.

Lemma atoi_returns g c f a x d n s p st e l :
  run 2 (mkMachine (address atoi_done) (mkFpu g c f) a x d n s (p :: st) e l) =
    Ok (mkMachine p (mkFpu (set_xmm X0 (s_of_int (signed64 a)) g) c f) a x d n s st e l).
Proof. reflexivity. Qed.

Lemma atoi_stops g c f a x d n b s p st e l : 0 <= b < 256 -> is_digit b = false ->
  exists k g' f' x', (k <= 9)%nat /\
    run k (mkMachine (address atoi_loop) (mkFpu g c f) a x d n (b :: s) (p :: st) e l) =
      Ok (mkMachine p (mkFpu (set_xmm X0 (s_of_int (signed64 a)) g') c f') a x' d n (b :: s) st e l).
Proof.
  intros Hb Hd. unfold is_digit in Hd. pose proof (atoi_test_end g c f a x d n b s p st e l Hb) as H1.
  destruct (Z.eqb_spec b 0) as [_|Hb0].
  { eexists (3 + 2)%nat, g, _, _. split; [lia|]. eapply steps_trans; [exact H1|apply atoi_returns]. }
  pose proof (steps_trans _ _ _ _ _ _ H1 (atoi_test_low g c _ a d n b s p st e l Hb)) as H2. destruct (Z.ltb_spec b 48) as [_|Hge].
  { eexists (3 + 2 + 2)%nat, g, _, _. split; [lia|]. eapply steps_trans; [exact H2|apply atoi_returns]. }
  pose proof (steps_trans _ _ _ _ _ _ H2 (atoi_test_high g c _ a d n b s p st e l Hb)) as H3.
  destruct (Z.leb_spec 48 b), (Z.leb_spec b 57); [done| |lia..].
  replace (negb (b =? 57) && negb (b <? 57)) with true in H3 by (destruct (Z.eqb_spec b 57), (Z.ltb_spec b 57); (done || lia)).
  eexists (3 + 2 + 2 + 2)%nat, g, _, _. split; [lia|]. eapply steps_trans; [exact H3|apply atoi_returns].
Qed.

Lemma u64_digit a v : u64 (u64 (u64 a * 10) + v) = u64 (a * 10 + v).
Proof. unfold u64. rewrite Z.mul_mod_idemp_l by done. by rewrite Z.add_mod_idemp_l by done. Qed.

Lemma atoi_digit g c f a d n b s p st e l : 48 <= b <= 57 ->
  exists f', run 5 (mkMachine (address atoi_loop + 7) (mkFpu g c f) (u64 a) b d n (b :: s) (p :: st) e l) =
    Ok (mkMachine (address atoi_loop) (mkFpu g c f') (u64 (a * 10 + (b - 48))) (b - 48) d n s (p :: st) e l).
Proof.
  intros Hb. assert (b - al b + (al b - 48) mod 256 = b - 48) as Hsub by (unfold al; rewrite (Z.mod_small b), Z.mod_small by lia; lia).
  eexists. rewrite <- u64_digit, <- Hsub. reflexivity.
Qed.

Lemma atoi_scans g c f a x d n b s p st e l : 48 <= b <= 57 ->
  exists f', run 7 (mkMachine (address atoi_loop) (mkFpu g c f) a x d n (b :: s) (p :: st) e l) =
    Ok (mkMachine (address atoi_loop + 7) (mkFpu g c f') a b d n (b :: s) (p :: st) e l).
Proof.
  intros Hb. assert (0 <= b < 256) as Hb' by lia. pose proof (atoi_test_end g c f a x d n b s p st e l Hb') as H1.
  destruct (Z.eqb_spec b 0) as [|_]; [lia|].
  pose proof (steps_trans _ _ _ _ _ _ H1 (atoi_test_low g c _ a d n b s p st e l Hb')) as H2. destruct (Z.ltb_spec b 48) as [|_]; [lia|].
  pose proof (steps_trans _ _ _ _ _ _ H2 (atoi_test_high g c _ a d n b s p st e l Hb')) as H3.
  replace (negb (b =? 57) && negb (b <? 57)) with false in H3 by (destruct (Z.eqb_spec b 57), (Z.ltb_spec b 57); (done || lia)).
  eexists. exact H3.
Qed.

Lemma atoi_continues g c f a x d n b s p st e l : is_digit b = true ->
  exists f', run 12 (mkMachine (address atoi_loop) (mkFpu g c f) (u64 a) x d n (b :: s) (p :: st) e l) =
    Ok (mkMachine (address atoi_loop) (mkFpu g c f') (u64 (a * 10 + (b - 48))) (b - 48) d n s (p :: st) e l).
Proof.
  intros Hd. apply andb_true_iff in Hd as [H1%Z.leb_le H2%Z.leb_le].
  destruct (atoi_scans g c f (u64 a) x d n b s p st e l) as [f1 H3]; [lia|]. destruct (atoi_digit g c f1 a d n b s p st e l) as [f2 H4]; [lia|].
  exists f2. exact (steps_trans _ 7 5 _ _ _ H3 H4).
Qed.

(** A string that ends. *)
Definition ends (s : list Z) : Prop := Forall (fun b => 0 <= b < 256) s /\ Exists (fun b => is_digit b = false) s.

Lemma atoi_loop_runs s : forall g c f a x d n p st e l, ends s ->
  exists k m' g' f', (k <= 12 * length s)%nat /\ run k (mkMachine (address atoi_loop) (mkFpu g c f) (u64 a) x d n s (p :: st) e l) = Ok m' /\
    pc m' = p /\ fp m' = mkFpu (set_xmm X0 (s_of_int (signed64 (u64 (decimal a s)))) g') c f' /\ r12 m' = n /\ stack m' = st /\ epoch_num m' = e /\ out m' = l.
Proof.
  induction s as [|b s IH]; intros g c f a x d n p st e l [Hb Hx]; [by apply Exists_nil in Hx|].
  apply list.Forall_cons in Hb as [Hb0 Hb]. simpl decimal. destruct (is_digit b) eqn:Hd.
  - apply Exists_cons in Hx as [Hx|Hx]; [congruence|]. destruct (atoi_continues g c f a x d n b s p st e l Hd) as (f' & H1).
    destruct (IH g c f' (a * 10 + (b - 48)) (b - 48) d n p st e l) as (k & m' & g' & f'' & Hk & H2 & Hrest); [done|].
    exists (12 + k)%nat, m', g', f''. split; [simpl; lia|]. split; [by eapply steps_trans|done].
  - destruct (atoi_stops g c f (u64 a) x d n b s p st e l Hb0 Hd) as (k & g' & f' & x' & Hk & H1).
    eexists k, _, g', f'. split; [simpl; lia|]. split; [exact H1|]. done.
Qed.

Lemma atoi_runs g c f a x d n s p st e l : ends s ->
  exists k m' g' f', (k <= 12 * length s + 1)%nat /\ run k (mkMachine (address atoi) (mkFpu g c f) a x d n s (p :: st) e l) = Ok m' /\
    pc m' = p /\ fp m' = mkFpu (set_xmm X0 (s_of_int (signed64 (u64 (decimal 0 s)))) g') c f' /\ r12 m' = n /\ stack m' = st /\ epoch_num m' = e /\ out m' = l.
Proof.
  intros Hs. destruct (atoi_loop_runs s g c (mkFlags true false) 0 x d n p st e l Hs) as (k & m' & g' & f' & Hk & H & Hrest).
  exists (1 + k)%nat, m', g', f'. split; [lia|]. split; [|done]. eapply steps_trans; [|exact H]. reflexivity.
Qed.
(** ** An epoch *)

Definition cells_of (a b : F) (u : neuron) (o er : F) : list F :=
  [a; b; lit 10 1; lit 0 1; w1 u; w2 u; wb u; rate; o; er].

Lemma epoch_target y0 y1 y2 y3 f A x d n s e l a b u o er :
  exists k f', (k <= 6)%nat /\
    run k (mkMachine (address train_loop) (mkFpu (mkRegs y0 y1 y2 y3) (cells_of a b u o er) f) A x d n s [] e l) =
    Ok (mkMachine (address continue_training) (mkFpu (mkRegs a b (target a b) y3) (cells_of a b u o er) f') A x d n s [] e l).
Proof.
  assert (run 4 (mkMachine (address train_loop) (mkFpu (mkRegs y0 y1 y2 y3) (cells_of a b u o er) f) A x d n s [] e l) =
    Ok (mkMachine (if negb (zf (compare_flags a b)) then address set_false_target else address train_loop + 4)
          (mkFpu (mkRegs a b y2 y3) (cells_of a b u o er) (compare_flags a b)) A x d n s [] e l)) as H1 by reflexivity.
  unfold target. destruct (zf (compare_flags a b)).
  - eexists (4 + 2)%nat, _. split; [lia|]. eapply steps_trans; [exact H1|]. reflexivity.
  - eexists (4 + 1)%nat, _. split; [lia|]. eapply steps_trans; [exact H1|]. reflexivity.
Qed.

Lemma epoch_output y3 f A x d n s e l a b u o er t :
  exists k y0 y1 f', (k <= 9)%nat /\
    run k (mkMachine (address continue_training) (mkFpu (mkRegs a b t y3) (cells_of a b u o er) f) A x d n s [] e l) =
    Ok (mkMachine (address update_weights) (mkFpu (mkRegs y0 y1 t y3) (cells_of a b u (if fires a b u then t else s_zero) er) f') A x d n s [] e l).
Proof.
  set (v := s_add (s_add (s_mul a (w1 u)) (s_mul b (w2 u))) (wb u)).
  assert (run 7 (mkMachine (address continue_training) (mkFpu (mkRegs a b t y3) (cells_of a b u o er) f) A x d n s [] e l) =
    Ok (mkMachine (if cf (compare_flags v s_zero) then address zero else address continue_training + 7)
          (mkFpu (mkRegs v s_zero t y3) (cells_of a b u o er) (compare_flags v s_zero)) A x d n s [] e l)) as H1 by reflexivity.
  unfold fires. fold v. destruct (cf (compare_flags v s_zero)).
  - eexists (7 + 1)%nat, _, _, _. split; [lia|]. eapply steps_trans; [exact H1|]. reflexivity.
  - eexists (7 + 2)%nat, _, _, _. split; [lia|]. eapply steps_trans; [exact H1|]. reflexivity.
Qed.

Lemma epoch_update y0 y1 y3 f A x d n s e l a b u er :
  let o := if fires a b u then target a b else s_zero in
  exists y3' er', run 16 (mkMachine (address update_weights) (mkFpu (mkRegs y0 y1 (target a b) y3) (cells_of a b u o er) f) A x d n s [] e l) =
    Ok (mkMachine (if negb (Z.land n 0x63 =? 0) then address skip_print_epoch else address update_weights + 16)
          (mkFpu (mkRegs y0 y1 (target a b) y3') (cells_of a b (learn a b u) o er') (mkFlags (Z.land n 0x63 =? 0) false)) A (Z.land n 0x63) d n s [] e l).
Proof.
  intros o. exists (wb (learn a b u)), (s_sub (target a b) o). unfold learn. fold o. generalize (target a b), o. intros t o'. destruct u as [v1 v2 v3].
  cbn [w1 w2 wb]. vm_compute. reflexivity.
Qed.

Lemma epoch_digits w fpu0 x d n s e0 e1 e2 e3 l : 0 <= w <= 7 ->
  exists fpu' A' x' d', run 15 (mkMachine (address update_weights + 17) fpu0 w x d n s [] [e0; e1; e2; e3] l) =
    Ok (mkMachine (address skip_print_epoch) fpu' A' x' d' n s [] [48; 48; 48; 0] ((l ++ [[48; 48; 48]]) ++ [newline])) /\
    cells fpu' = cells fpu0.
Proof.
  intros Hw. assert (w = 0 \/ w = 1 \/ w = 2 \/ w = 3 \/ w = 4 \/ w = 5 \/ w = 6 \/ w = 7) as Hc by lia. clear Hw.
  destruct fpu0 as [g c f]. destruct_or! Hc; subst w; vm_compute; eexists _, _, _, _; split; reflexivity.
Qed.

(** The number printed is computed from the result of the first write. *)
Lemma epoch_report fpu0 A x d n s e0 e1 e2 e3 l : 0 <= written 7 <= 7 ->
  exists fpu' A' x' d', run (1 + 15) (mkMachine (address update_weights + 16) fpu0 A x d n s [] [e0; e1; e2; e3] l) =
    Ok (mkMachine (address skip_print_epoch) fpu' A' x' d' n s [] [48; 48; 48; 0] (l ++ [epoch_msg; [48; 48; 48]; newline])) /\
    cells fpu' = cells fpu0.
Proof.
  intros Hw. assert (run 1 (mkMachine (address update_weights + 16) fpu0 A x d n s [] [e0; e1; e2; e3] l) =
    Ok (mkMachine (address update_weights + 17) fpu0 (written 7) junk 7 n s [] [e0; e1; e2; e3] (l ++ [epoch_msg]))) as H1 by reflexivity.
  destruct (epoch_digits (written 7) fpu0 junk 7 n s e0 e1 e2 e3 (l ++ [epoch_msg]) Hw) as (f' & A' & x' & d' & H2 & Hc).
  exists f', A', x', d'. split; [|exact Hc]. rewrite <- !app_assoc in H2. exact (steps_trans _ 1 15 _ _ _ H1 H2).
Qed.

Definition report (n : Z) : list (list Z) := if Z.land n 0x63 =? 0 then [epoch_msg; [48; 48; 48]; newline] else [].

(** A machine at [p], with the neuron [u] in its cells. *)
Definition trained (p : nat) (a b : F) (u : neuron) (n : Z) (l : list (list Z)) (m : machine) : Prop :=
  exists g f o er A x d s e, length e = 4%nat /\ m = mkMachine p (mkFpu g (cells_of a b u o er) f) A x d n s [] e l.

Lemma perceptron_epoch_runs a b u n l m : 0 <= written 7 <= 7 -> trained (address train_loop) a b u n l m ->
  exists k m', (k <= 47)%nat /\ run k m = Ok m' /\ trained (address skip_print_epoch) a b (learn a b u) n (l ++ report n) m'.
Proof.
  intros Hw ([y0 y1 y2 y3] & f & o & er & A & x & d & s & e & He & ->).
  destruct (epoch_target y0 y1 y2 y3 f A x d n s e l a b u o er) as (k1 & f1 & Hk1 & H1).
  destruct (epoch_output y3 f1 A x d n s e l a b u o er (target a b)) as (k2 & z0 & z1 & f2 & Hk2 & H2).
  destruct (epoch_update z0 z1 y3 f2 A x d n s e l a b u er) as (z3 & er' & H3). unfold report.
  pose proof (steps_trans _ _ _ _ _ _ (steps_trans _ _ _ _ _ _ H1 H2) H3) as H4. clear H1 H2 H3. destruct (Z.land n 0x63 =? 0).
  - destruct e as [|e0 [|e1 [|e2 [|e3 [|]]]]]; try discriminate He.
    edestruct epoch_report as (p & A' & x' & d' & H5 & Hc); [exact Hw|].
    eexists (k1 + k2 + 16 + (1 + 15))%nat, _. split; [lia|]. split; [eapply steps_trans; [exact H4|exact H5]|].
    destruct p as [g c f']. cbn [cells] in Hc. subst c. eexists g, f', _, _, A', x', d', s, _. split; [|reflexivity]. reflexivity.
  - eexists (k1 + k2 + 16)%nat, _. split; [lia|]. split; [exact H4|]. rewrite app_nil_r. by eexists _, _, _, _, _, _, _, _, _.
Qed.

Lemma count_down a b u n l m : 1 <= n <= 1000 -> trained (address skip_print_epoch) a b u n l m ->
  exists m', run 2 m = Ok m' /\ trained (if n =? 1 then address skip_print_epoch + 2 else address train_loop) a b u (n - 1) l m'.
Proof.
  intros Hn (g & f & o & er & A & x & d & s & e & He & ->).
  assert (u32 (n - 1) = n - 1) as Hu by (unfold u32, UINT32; rewrite Z.mod_small; lia).
  assert (run 2 (mkMachine (address skip_print_epoch) (mkFpu g (cells_of a b u o er) f) A x d n s [] e l) =
    Ok (mkMachine (if negb (u32 (n - 1) =? 0) then address train_loop else address skip_print_epoch + 2)
          (mkFpu g (cells_of a b u o er) (mkFlags (u32 (n - 1) =? 0) (cf f))) A x d (u32 (n - 1)) s [] e l)) as H by reflexivity.
  rewrite Hu in H. replace (n - 1 =? 0) with (n =? 1) in H by (destruct (Z.eqb_spec n 1), (Z.eqb_spec (n - 1) 0); lia).
  eexists. split; [exact H|]. destruct (n =? 1); eexists _, _, _, _, _, _, _, _, _; (split; [exact He|reflexivity]).
Qed.

Lemma epochs_run a b (Hw : 0 <= written 7 <= 7) (n : nat) : forall u l m, (1 <= n <= 1000)%nat ->
  trained (address train_loop) a b u (Z.of_nat n) l m ->
  exists k m', (k <= 49 * n)%nat /\ run k m = Ok m' /\
    trained (address skip_print_epoch + 2) a b (epochs n a b u).2 0 (l ++ (epochs n a b u).1) m'.
Proof.
  induction n as [|n IH]; intros u l m Hn Hm; [lia|].
  destruct (perceptron_epoch_runs a b u _ l m Hw Hm) as (k1 & m1 & Hk1 & H1 & Hm1).
  destruct (count_down a b _ (Z.of_nat (S n)) _ m1 ltac:(lia) Hm1) as (m2 & H2 & Hm2).
  assert (epochs (S n) a b u = (report (Z.of_nat (S n)) ++ (epochs n a b (learn a b u)).1, (epochs n a b (learn a b u)).2)) as ->.
  { cbn [epochs]. unfold report. by destruct (epochs n a b (learn a b u)). }
  cbn [fst snd]. rewrite app_assoc. destruct (Z.eqb_spec (Z.of_nat (S n)) 1) as [Hn1|Hn1].
  - assert (n = 0%nat) as -> by lia. exists (k1 + 2)%nat, m2. split; [lia|]. split; [by eapply steps_trans|].
    cbn [epochs fst snd]. rewrite app_nil_r. by replace 0 with (Z.of_nat 1 - 1) by lia.
  - replace (Z.of_nat (S n) - 1) with (Z.of_nat n) in Hm2 by lia.
    destruct (IH _ _ _ ltac:(lia) Hm2) as (k3 & m3 & Hk3 & H3 & Hm3).
    exists (k1 + 2 + k3)%nat, m3. split; [lia|]. split; [|exact Hm3]. eapply steps_trans; [by eapply steps_trans|exact H3].
Qed.

Lemma verdict_runs a b u l m fuel : trained (address skip_print_epoch + 2) a b u 0 l m -> (12 <= fuel)%nat ->
  loop fuel (neural_step argc) m = Ok (0, l ++ [if fires a b u then true_msg else false_msg]).
Proof.
  intros (g & f & o & er & A & x & d & s & e & He & ->) Hf.
  set (v := s_add (s_add (s_mul a (w1 u)) (s_mul b (w2 u))) (wb u)). destruct g as [y0 y1 y2 y3].
  assert (run 9 (mkMachine (address skip_print_epoch + 2) (mkFpu (mkRegs y0 y1 y2 y3) (cells_of a b u o er) f) A x d 0 s [] e l) =
    Ok (mkMachine (if cf (compare_flags v s_zero) then address false_ else address skip_print_epoch + 11)
          (mkFpu (mkRegs v s_zero y2 y3) (cells_of a b u o er) (compare_flags v s_zero)) A x d 0 s [] e l)) as H by reflexivity.
  replace fuel with (9 + (3 + (fuel - 12)))%nat by lia. rewrite (loop_steps _ _ _ _ _ H). unfold fires. fold v.
  destruct (cf (compare_flags v s_zero)); reflexivity.
Qed.

Lemma argc_test g c f a x d n s st e l :
  run 2 (mkMachine 0 (mkFpu g c f) a x d n s st e l) =
    Ok (mkMachine (if negb (argc =? 3) then address usage_error else 2) (mkFpu g c (mkFlags (argc =? 3) (argc <? 3))) a x d n s st e l).
Proof. reflexivity. Qed.

Lemma argument_runs (k : nat) p y1 y2 c f g a x d n s e l : (k = 1 \/ k = 2)%nat -> p = (3 * k - 1)%nat -> ends (args k) ->
  exists j g' f' a' x' d' s', (j <= 12 * length (args k) + 4)%nat /\
    run j (mkMachine p (mkFpu g (y1 :: y2 :: c) f) a x d n s [] e l) =
    Ok (mkMachine (p + 3) (mkFpu g' (<[(k - 1)%nat := argument k]> (y1 :: y2 :: c)) f') a' x' d' n s' [] e l).
Proof.
  intros Hk -> He. assert (run 2 (mkMachine (3 * k - 1) (mkFpu g (y1 :: y2 :: c) f) a x d n s [] e l) =
    Ok (mkMachine (address atoi) (mkFpu g (y1 :: y2 :: c) f) a x d n (args k) [(3 * k + 1)%nat] e l)) as H1 by (destruct Hk as [-> | ->]; reflexivity).
  destruct (atoi_runs g (y1 :: y2 :: c) f a x d n (args k) (3 * k + 1) [] e l He)
    as (j & [p q A x' d' n' t st e' l'] & g1 & f1 & Hj & H2 & Hp & Hq & Hn & Hst & He' & Hl).
  cbn [pc fp r12 stack epoch_num out] in *. subst. exists (2 + j + 1)%nat. fold (argument k) in H2.
  destruct Hk as [-> | ->]; (eexists _, _, _, _, _, _; split; [lia|]; eapply steps_trans; [by eapply steps_trans|]; reflexivity).
Qed.

Lemma start_runs m0 : argc = 3 -> ends (args 1) -> ends (args 2) ->
  exists k m, (k <= 12 * length (args 1) + 12 * length (args 2) + 11)%nat /\ run k (entry m0) = Ok m /\
    trained (address train_loop) (argument 1) (argument 2) neuron0 num_epochs [] m.
Proof.
  intros Hargc Ha Hb. unfold entry, data0. pose proof (argc_test (xmms (fp m0)) data0 (fl (fp m0)) (rax m0) (rcx m0) (rdx m0) (r12 m0) (str m0) [] (replicate 4 0) []) as H1.
  unfold data0 in H1. replace (argc =? 3) with true in H1 by (symmetry; by apply Z.eqb_eq).
  edestruct (argument_runs 1 2) as (k1 & g1 & f1 & a1 & x1 & d1 & s1 & Hk1 & H2); [by left|done|exact Ha|].
  edestruct (argument_runs 2 5) as (k2 & g2 & f2 & a2 & x2 & d2 & s2 & Hk2 & H3); [by right|done|exact Hb|].
  eexists (2 + k1 + k2 + 1)%nat, _. split; [lia|]. split.
  - eapply steps_trans; [eapply steps_trans; [eapply steps_trans; [exact H1|exact H2]|exact H3]|reflexivity].
  - eexists _, _, _, _, _, _, _, _, _. split; [|reflexivity]. reflexivity.
Qed.

End proofs.

(** With two decimal arguments the program of [neural.asm] prints one progress
    report at every counter value with four bits clear, then [True] or [False] as the
    trained neuron decides, and exits with 0; with another number of arguments it
    prints the usage and exits with 1.  This holds for any arithmetic and any start of
    the registers. *)
Theorem neural_equals_epochs m0 fuel argc : ends (args 1) -> ends (args 2) -> 0 <= written 7 <= 7 ->
  (49 * 1000 + 12 * length (args 1) + 12 * length (args 2) + 23 <= fuel)%nat ->
  let '(l, u) := epochs 1000 (argument 1) (argument 2) neuron0 in
  neural_main fuel argc m0 =
    if argc =? 3 then Ok (0, l ++ [if fires (argument 1) (argument 2) u then true_msg else false_msg]) else Ok (1, [usage_msg]).
Proof.
  intros Ha Hb Hw Hf. rewrite (surjective_pairing (epochs 1000 _ _ _)). unfold neural_main. destruct (Z.eqb_spec argc 3) as [Hargc|Hargc].
  - destruct (start_runs argc m0 Hargc Ha Hb) as (k1 & m1 & Hk1 & H1 & Hm1).
    destruct (epochs_run argc (argument 1) (argument 2) Hw 1000 neuron0 [] m1 ltac:(lia) Hm1) as (k2 & m2 & Hk2 & H2 & Hm2).
    replace fuel with (k1 + k2 + (fuel - k1 - k2))%nat by lia. rewrite (loop_steps _ _ _ _ _ (steps_trans _ _ _ _ _ _ H1 H2)).
    apply verdict_runs; [exact Hm2|lia].
  - unfold entry. replace fuel with (2 + (2 + (fuel - 4)))%nat by lia. rewrite (loop_steps _ _ _ _ _ (argc_test _ _ _ _ _ _ _ _ _ _ _ _)).
    rewrite (proj2 (Z.eqb_neq argc 3) Hargc). reflexivity.
Qed.
End program.

(** The arguments [1] and [0], and a start of the machine. *)
Definition example_args (k : nat) : list Z := match k with 1%nat => [49; 0] | _ => [48; 0] end.

Definition example_machine : machine :=
  mkMachine 0 (mkFpu (mkRegs s_zero s_zero s_zero s_zero) [] (mkFlags false false)) 0 0 0 0 [] [] [] [].

Lemma neural_equals_epochs_witness :
  exists l msg, neural_main (F := cfloat) example_args id 0 (50 * 1000) 3 example_machine = Ok (0, l ++ [msg]) /\
    neural_main (F := cfloat) example_args id 0 (50 * 1000) 2 example_machine = Ok (1, [usage_msg]).
Proof.
  assert (forall k, ends (example_args k)) as He.
  { intros k. unfold ends, example_args. destruct k as [|[|k]]; (split; [repeat constructor; simpl; lia|apply Exists_cons_tl, Exists_cons_hd; reflexivity]). }
  pose proof (neural_equals_epochs example_args id 0 example_machine (50 * 1000) 3 (He _) (He _) ltac:(unfold id; lia) ltac:(simpl length; lia)) as H.
  pose proof (neural_equals_epochs example_args id 0 example_machine (50 * 1000) 2 (He _) (He _) ltac:(unfold id; lia) ltac:(simpl length; lia)) as H2.
  rewrite (surjective_pairing (epochs _ _ _ _)) in H, H2.
  rewrite Z.eqb_refl in H. rewrite (proj2 (Z.eqb_neq 2 3)) in H2 by lia. revert H H2. generalize (epochs (F := cfloat) 1000 (argument example_args 1) (argument example_args 2) neuron0).
  intros p. generalize (fires (argument example_args 1) (argument example_args 2) p.2). intros b H H2.
  exists p.1, (if b then true_msg else false_msg). split; [exact H|exact H2].
Defined.

(** The target of the inputs 1 and 0 is [False], and the trained neuron fires on them. *)
Lemma xor_not_learned : fires (s_of_int 1) (s_of_int 0) (epochs (F := cfloat) 1000 (s_of_int 1) (s_of_int 0) neuron0).2 = true.
Proof. vm_compute. reflexivity. Qed.
