(* ===== verification/BoundaryTags.v ===== *)
(** * Heap with boundary tags ([memory/allocation/allocator.c])

    Each block of the heap has a header word in front of it and a footer word at its
    end, both with its size, an allocated bit and a mark bit.  The operations work on
    words; they are related to a list of blocks. *)
From Stdlib Require Import ZArith Lia.
From stdpp Require Import base tactics list numbers option gmap.
From S2P Require Import Prelude.

#[local] Open Scope Z_scope.
#[local] Open Scope c_scope.

(** ** The code *)

(** The words that can be accessed, by address, and the three pointers of the file. *)
Record heap : Type := mkHeap { words : gmap Z Z; heap_start : Z; heap_end : Z; current_break : Z }.

Definition NULL : Z := 0.
Definition SIZE_T_SIZE : Z := 8.
Definition ALIGN (size : Z) : Z := Z.land (u64 (size + 7)) (u64 (Z.lnot 7)).

Definition GET (h : heap) (p : Z) : res Z := match words h !! p with Some v => Ok v | None => Fault BadAddress end.

Definition PUT (h : heap) (p v : Z) : res heap :=
  match words h !! p with
  | Some _ => Ok (mkHeap (<[p := u32 v]> (words h)) (heap_start h) (heap_end h) (current_break h))
  | None => Fault BadAddress
  end.

Definition PACK (size alloc : Z) : Z := Z.lor size alloc.
Definition GET_SIZE (h : heap) (p : Z) : res Z := v ← GET h p; Ok (Z.land v (u32 (Z.lnot 7))).
Definition GET_ALLOC (h : heap) (p : Z) : res Z := v ← GET h p; Ok (Z.land v 1).
Definition GET_MARK (h : heap) (p : Z) : res Z := v ← GET h p; Ok (Z.land v 2).
Definition SET_MARK (h : heap) (p : Z) : res heap := v ← GET h p; PUT h p (Z.lor v 2).
Definition RESET_MARK (h : heap) (p : Z) : res heap := v ← GET h p; PUT h p (Z.land v (u32 (Z.lnot 2))).

Definition HDRP (bp : Z) : Z := bp - SIZE_T_SIZE.
Definition FTRP (h : heap) (bp : Z) : res Z := s ← GET_SIZE h (HDRP bp); Ok (bp + s - 2 * SIZE_T_SIZE).
Definition NEXT_BLKP (h : heap) (bp : Z) : res Z := s ← GET_SIZE h (bp - SIZE_T_SIZE); Ok (bp + s).
Definition PREV_BLKP (h : heap) (bp : Z) : res Z := s ← GET_SIZE h (bp - 2 * SIZE_T_SIZE); Ok (bp - s).

(** [PUT(HDRP(bp), v)] and [PUT(FTRP(bp), v)]. *)
Definition put_header (h : heap) (bp v : Z) : res heap := PUT h (HDRP bp) v.
Definition put_footer (h : heap) (bp v : Z) : res heap := p ← FTRP h bp; PUT h p v.

(** [block] is what [malloc] returned, [m] the words that can be accessed then. *)
Definition m_init (m : gmap Z Z) (block size : Z) : res heap :=
  if block =? NULL then Fault (Exit 1) else
  let h := mkHeap m block (block + size) block in
  h ← put_header h block (PACK size 0);
  put_footer h block (PACK size 0).

Definition ptr_step (h : heap) (p block : Z) : res (ctl Z Z) :=
  if block <? heap_end h then
    size ← GET_SIZE h (HDRP block);
    if (block <=? p) && (p <? block + size) then Ok (Return block) else Ok (Next (block + size))
  else Ok (Return NULL).

Definition is_ptr (fuel : nat) (h : heap) (p : Z) : res Z :=
  if (p <? heap_start h) || (heap_end h <=? p) then Ok NULL else loop fuel (ptr_step h p) (heap_start h).

Definition coalesce (h : heap) (bp : Z) : res (heap * Z) :=
  prev ← PREV_BLKP h bp; pf ← FTRP h prev; prev_alloc ← GET_ALLOC h pf;
  next ← NEXT_BLKP h bp; next_alloc ← GET_ALLOC h (HDRP next);
  size ← GET_SIZE h (HDRP bp);
  match negb (prev_alloc =? 0), negb (next_alloc =? 0) with
  | true, true => Ok (h, bp)
  | true, false =>
      next ← NEXT_BLKP h bp; s ← GET_SIZE h (HDRP next);
      h ← put_header h bp (PACK (size + s) 0);
      h ← put_footer h bp (PACK (size + s) 0);
      Ok (h, bp)
  | false, true =>
      prev ← PREV_BLKP h bp; s ← GET_SIZE h (HDRP prev);
      h ← put_footer h bp (PACK (size + s) 0);
      prev ← PREV_BLKP h bp;
      h ← put_header h prev (PACK (size + s) 0);
      bp ← PREV_BLKP h bp; Ok (h, bp)
  | false, false =>
      prev ← PREV_BLKP h bp; s1 ← GET_SIZE h (HDRP prev);
      next ← NEXT_BLKP h bp; nf ← FTRP h next; s2 ← GET_SIZE h nf;
      h ← put_header h prev (PACK (size + u32 (s1 + s2)) 0);
      next ← NEXT_BLKP h bp;
      h ← put_footer h next (PACK (size + u32 (s1 + s2)) 0);
      bp ← PREV_BLKP h bp; Ok (h, bp)
  end.

Definition split_block (h : heap) (bp asize : Z) : res (heap * Z) :=
  csize ← GET_SIZE h (HDRP bp);
  if 2 * SIZE_T_SIZE <=? u64 (csize - asize) then
    h ← put_header h bp (PACK asize 1);
    h ← put_footer h bp (PACK asize 1);
    bp ← NEXT_BLKP h bp;
    h ← put_header h bp (PACK (u64 (csize - asize)) 0);
    h ← put_footer h bp (PACK (u64 (csize - asize)) 0);
    Ok (h, bp)
  else
    h ← put_header h bp (PACK csize 1);
    h ← put_footer h bp (PACK csize 1);
    Ok (h, bp).

Definition fit_step (h : heap) (asize bp : Z) : res (ctl Z Z) :=
  size ← GET_SIZE h (HDRP bp);
  if 0 <? size then
    alloc ← GET_ALLOC h (HDRP bp);
    if (alloc =? 0) && (asize <=? size) then Ok (Return bp)
    else next ← NEXT_BLKP h bp; Ok (Next next)
  else Ok (Return NULL).

Definition find_fit (fuel : nat) (h : heap) (asize : Z) : res Z := loop fuel (fit_step h asize) (heap_start h).

Definition extend_heap (h : heap) (n : Z) : res (heap * Z) :=
  let size := if n mod 2 =? 0 then u64 (n * SIZE_T_SIZE) else u64 (u64 (n + 1) * SIZE_T_SIZE) in
  if heap_end h <? current_break h + size then Ok (h, NULL) else
  let bp := current_break h in
  let h := mkHeap (words h) (heap_start h) (heap_end h) (current_break h + size) in
  h ← put_header h bp (PACK size 0);
  h ← put_footer h bp (PACK size 0);
  coalesce h bp.

Definition m_malloc (fuel : nat) (h : heap) (size : Z) : res (heap * Z) :=
  if size =? 0 then Ok (h, NULL) else
  let asize := if size <=? SIZE_T_SIZE then 2 * SIZE_T_SIZE else ALIGN (u64 (size + 2 * SIZE_T_SIZE)) in
  bp ← find_fit fuel h asize;
  if negb (bp =? NULL) then '(h, r) ← split_block h bp asize; Ok (h, r + SIZE_T_SIZE) else
  let extendsize := if 4096 <? asize then asize else 4096 in
  '(h, bp) ← extend_heap h (extendsize / SIZE_T_SIZE);
  if bp =? NULL then Ok (h, NULL) else
  '(h, r) ← split_block h bp asize; Ok (h, r + SIZE_T_SIZE).

Definition m_free (h : heap) (ptr : Z) : res heap :=
  if ptr =? NULL then Ok h else
  let bp := ptr - SIZE_T_SIZE in
  size ← GET_SIZE h (HDRP bp);
  h ← put_header h bp (PACK size 0);
  h ← put_footer h bp (PACK size 0);
  '(h, _) ← coalesce h bp; Ok h.

(** [*(void ** )p], two words. *)
Definition load_pointer (h : heap) (p : Z) : res Z := lo ← GET h p; hi ← GET h (p + 4); Ok (lo + UINT32 * hi).

Fixpoint mark (depth fuel : nat) (h : heap) (ptr : Z) : res heap :=
  match depth with
  | O => Fault OutOfFuel
  | S depth =>
      block ← is_ptr fuel h ptr;
      if block =? NULL then Ok h else
      marked ← GET_MARK h (HDRP block);
      if negb (marked =? 0) then Ok h else
      h ← SET_MARK h (HDRP block);
      f ← FTRP h block; h ← SET_MARK h f;
      loop fuel (fun '(h, p) =>
        next ← NEXT_BLKP h block;
        if p <? next then
          child ← load_pointer h p;
          h ← (if negb (child =? NULL) then mark depth fuel h child else Ok h);
          Ok (Next (h, p + 8))
        else Ok (Return h)) (h, block)
  end.

Definition sweep (fuel : nat) (h : heap) : res heap :=
  loop fuel (fun '(h, bp) =>
    size ← GET_SIZE h (HDRP bp);
    if 0 <? size then
      alloc ← GET_ALLOC h (HDRP bp); marked ← GET_MARK h (HDRP bp);
      h ← (if (alloc =? 0) || (marked =? 0) then m_free h (bp + SIZE_T_SIZE)
           else h ← RESET_MARK h (HDRP bp); f ← FTRP h bp; RESET_MARK h f);
      next ← NEXT_BLKP h bp; Ok (Next (h, next))
    else Ok (Return h)) (h, heap_start h).

Definition gc (fuel : nat) (h : heap) : res heap := sweep fuel h.

(** The lines printed: address, size and allocated bit. *)
Definition print_heap (fuel : nat) (h : heap) : res (list (Z * Z * Z)) :=
  loop fuel (fun '(bp, out) =>
    size ← GET_SIZE h (HDRP bp);
    if 0 <? size then
      alloc ← GET_ALLOC h (HDRP bp); next ← NEXT_BLKP h bp; Ok (Next (next, out ++ [(bp, size, alloc)]))
    else Ok (Return out)) (heap_start h, []).

(** ** Blocks *)

Record block : Type := mkBlock { size : Z; used : bool; marked : bool }.

Definition free_block (s : Z) : block := mkBlock s false false.

Definition word (b : block) : Z := size b + (if used b then 1 else 0) + (if marked b then 2 else 0).

Definition sized (b : block) : Prop := 16 <= size b < UINT32 /\ size b mod 8 = 0.

(** The words from [a - 8] to the end are the headers and footers of the blocks. *)
Fixpoint tiles (m : gmap Z Z) (a : Z) (bs : list block) : Prop :=
  match bs with
  | [] => True
  | b :: bs => sized b /\ m !! (a - 8) = Some (word b) /\ m !! (a + size b - 16) = Some (word b) /\ tiles m (a + size b) bs
  end.

Definition extent (bs : list block) : Z := total size bs.
#[local] Arguments extent : simpl never.

(** The heap: a block in use in front of [heap_start], the blocks, and a header of
    size 0 at [heap_end]. *)
Definition represents (h : heap) (p : block) (bs : list block) : Prop :=
  tiles (words h) (heap_start h - size p) (p :: bs) /\ used p = true /\
  words h !! (heap_end h - 8) = Some 1 /\ heap_end h = heap_start h + extent bs /\
  extent (p :: bs) < UINT32 /\ 0 < heap_start h - size p /\
  forall x, heap_start h - 8 <= x < heap_end h -> (x - heap_start h) mod 8 = 0 -> is_Some (words h !! x).

(** ** Words *)

Lemma mask_size v : 0 <= v < UINT32 -> Z.land v (u32 (Z.lnot 7)) = 8 * (v / 8).
Proof. intros Hv. exact (mask_low 32 3 v ltac:(done) Hv). Qed.

Lemma size_of_word b : 0 <= size b < UINT32 -> size b mod 8 = 0 -> Z.land (word b) (u32 (Z.lnot 7)) = size b.
Proof.
  intros Hs Hm. unfold word. unfold UINT32 in *. rewrite mask_size.
  - destruct (used b), (marked b); dlia.
  - unfold UINT32. destruct (used b), (marked b); dlia.
Qed.

Lemma low_bits q f : 0 <= f < 8 -> forall k, 0 <= k < 3 -> Z.testbit (8 * q + f) k = Z.testbit f k.
Proof.
  intros Hf k Hk. rewrite <- (Z.mod_pow2_bits_low (8 * q + f) 3 k), <- (Z.mod_pow2_bits_low f 3 k) by lia. f_equal. change (2 ^ 3) with 8. dlia.
Qed.

Lemma flag_of_word q f k : 0 <= f < 8 -> 0 <= k < 3 -> Z.land (8 * q + f) (2 ^ k) = Z.land f (2 ^ k).
Proof.
  intros Hf Hk. apply Z.bits_inj'. intros n Hn. rewrite !Z.land_spec, Z.pow2_bits_eqb by lia.
  destruct (Z.eqb_spec k n) as [<-|]; [|by rewrite !andb_false_r]. by rewrite low_bits.
Qed.

Definition flags (b : block) : Z := (if used b then 1 else 0) + (if marked b then 2 else 0).

Lemma alloc_of_word b : size b mod 8 = 0 -> Z.land (word b) 1 = if used b then 1 else 0.
Proof.
  intros Hm. assert (word b = 8 * (size b / 8) + flags b) as -> by (unfold word, flags; dlia).
  rewrite (flag_of_word _ _ 0) by (unfold flags; destruct (used b), (marked b); lia). unfold flags. by destruct (used b), (marked b).
Qed.

Lemma mark_of_word b : size b mod 8 = 0 -> Z.land (word b) 2 = if marked b then 2 else 0.
Proof.
  intros Hm. assert (word b = 8 * (size b / 8) + flags b) as -> by (unfold word, flags; dlia).
  rewrite (flag_of_word _ _ 1) by (unfold flags; destruct (used b), (marked b); lia). unfold flags. by destruct (used b), (marked b).
Qed.

Lemma pack_word s (u : bool) : 0 <= s < UINT32 -> s mod 8 = 0 -> u32 (PACK s (if u then 1 else 0)) = word (mkBlock s u false).
Proof.
  intros Hs Hm. unfold PACK, word. simpl size. simpl used. simpl marked.
  assert (s = Z.shiftl (s / 8) 3) as -> by (rewrite Z.shiftl_mul_pow2 by lia; change (2 ^ 3) with 8; dlia).
  rewrite lor_shifted by (destruct u; lia). rewrite Z.shiftl_mul_pow2 in * by lia. change (2 ^ 3) with 8 in *.
  rewrite u32_id; [lia|]. unfold UINT32 in *. destruct u; dlia.
Qed.

(** ** Accesses *)

Definition with_words (h : heap) (m : gmap Z Z) : heap := mkHeap m (heap_start h) (heap_end h) (current_break h).

Section accesses.
Context (h : heap) (a : Z) (b : block) (Hb : sized b).

Lemma word_size p : words h !! p = Some (word b) -> GET_SIZE h p = Ok (size b).
Proof. intros H. unfold GET_SIZE, GET. rewrite H. simpl. destruct Hb. by rewrite size_of_word by lia. Qed.

Lemma word_alloc p : words h !! p = Some (word b) -> GET_ALLOC h p = Ok (if used b then 1 else 0).
Proof. intros H. unfold GET_ALLOC, GET. rewrite H. simpl. destruct Hb. by rewrite alloc_of_word. Qed.

Lemma footer_address : words h !! (a - 8) = Some (word b) -> FTRP h a = Ok (a + size b - 16).
Proof. intros H. unfold FTRP, HDRP, SIZE_T_SIZE. by rewrite (word_size _ H). Qed.

Lemma next_address : words h !! (a - 8) = Some (word b) -> NEXT_BLKP h a = Ok (a + size b).
Proof. intros H. unfold NEXT_BLKP, SIZE_T_SIZE. by rewrite (word_size _ H). Qed.

Lemma prev_address : words h !! (a - 16) = Some (word b) -> PREV_BLKP h a = Ok (a - size b).
Proof. intros H. unfold PREV_BLKP, SIZE_T_SIZE. change (2 * 8) with 16. by rewrite (word_size _ H). Qed.

Lemma put_header_word v : is_Some (words h !! (a - 8)) -> put_header h a v = Ok (with_words h (<[a - 8 := u32 v]> (words h))).
Proof. intros [w H]. unfold put_header, PUT, HDRP, SIZE_T_SIZE. by rewrite H. Qed.

Lemma put_footer_word v : words h !! (a - 8) = Some (word b) -> is_Some (words h !! (a + size b - 16)) ->
  put_footer h a v = Ok (with_words h (<[a + size b - 16 := u32 v]> (words h))).
Proof. intros H [w H']. unfold put_footer. rewrite footer_address by done. simpl. unfold PUT. by rewrite H'. Qed.
End accesses.

(** ** Tiles *)

Lemma extent_cons b bs : extent (b :: bs) = size b + extent bs.
Proof. done. Qed.

Lemma extent_nil : extent [] = 0.
Proof. done. Qed.

Lemma extent_app l r : extent (l ++ r) = extent l + extent r.
Proof. apply field_total_app. Qed.

Lemma tiles_sized m bs : forall a, tiles m a bs -> Forall sized bs.
Proof. induction bs as [|b bs IH]; simpl; [by constructor|]. intros a (Hb & _ & _ & H). constructor; [done|by eapply IH]. Qed.

Lemma extent_nonneg bs : Forall sized bs -> 0 <= extent bs.
Proof. intros H. apply field_total_nonneg. eapply list.Forall_impl; [exact H|]. intros b [Hb _]. lia. Qed.


Lemma tiles_app m l r : forall a, tiles m a (l ++ r) <-> tiles m a l /\ tiles m (a + extent l) r.
Proof.
  induction l as [|b l IH]; intros a; simpl.
  - rewrite Z.add_0_r. by intuition.
  - rewrite IH, extent_cons, Z.add_assoc. by intuition.
Qed.

Lemma tiles_insert m x v bs : forall a, x < a - 8 \/ a + extent bs - 8 <= x -> tiles m a bs -> tiles (<[x := v]> m) a bs.
Proof.
  induction bs as [|b bs IH]; intros a Hx; simpl; [done|]. intros (Hb & H1 & H2 & H3). rewrite extent_cons in Hx. pose proof Hb as [Hs _].
  pose proof (extent_nonneg bs (tiles_sized _ _ _ H3)). rewrite !lookup_insert_ne by lia. split_and!; [done..|]. apply IH; [lia|done].
Qed.

Lemma tiles_agree m m' bs : forall a, (forall x, a - 8 <= x < a + extent bs - 8 -> m' !! x = m !! x) -> tiles m a bs -> tiles m' a bs.
Proof.
  induction bs as [|b bs IH]; intros a Hx; simpl; [done|]. intros (Hb & H1 & H2 & H3). rewrite extent_cons in Hx. pose proof Hb as [Hs _].
  pose proof (extent_nonneg bs (tiles_sized _ _ _ H3)). rewrite !Hx by lia. split_and!; [done..|]. apply IH; [|done]. intros x Hx'. apply Hx. lia.
Qed.

(** The block after [r]'s start is in use, the end of the heap too. *)
Definition next_used (r : list block) : bool := match r with [] => true | n :: _ => used n end.

Lemma next_word h a r : tiles (words h) a r -> (r = [] -> words h !! (a - 8) = Some 1) -> GET_ALLOC h (HDRP a) = Ok (if next_used r then 1 else 0).
Proof.
  destruct r as [|n r]; simpl.
  - intros _ H. unfold GET_ALLOC, GET, HDRP, SIZE_T_SIZE. by rewrite H.
  - intros (Hn & H & _) _. by apply word_alloc.
Qed.

(** ** Joining neighbours *)

Definition coalesced (prev b : block) (r : list block) : list block :=
  match used prev, r with
  | true, n :: r' => if used n then prev :: b :: r else prev :: free_block (size b + size n) :: r'
  | true, [] => [prev; b]
  | false, n :: r' => if used n then free_block (size b + size prev) :: r else free_block (size b + (size prev + size n)) :: r'
  | false, [] => [free_block (size b + size prev)]
  end.

Lemma sized_add b c : sized b -> sized c -> size b + size c < UINT32 -> sized (free_block (size b + size c)).
Proof. unfold sized. simpl. intros [H1 H2] [H3 H4] H5. split; [lia|dlia]. Qed.

Lemma pack_free s : sized (free_block s) -> u32 (PACK s 0) = word (free_block s).
Proof. intros [H1 H2]. simpl in *. apply (pack_word s false); [lia|done]. Qed.

(** Lookups in a map with some words replaced. *)
Ltac look := repeat (rewrite lookup_insert_eq || rewrite lookup_insert_ne by lia); try done.

(** A header and a footer written. *)
Definition put_tags (m : gmap Z Z) (a : Z) (b : block) : gmap Z Z := <[a + size b - 16 := word b]> (<[a - 8 := word b]> m).

Lemma write_tags {A} h a c v (k : heap -> res A) : sized c -> u32 v = word c ->
  is_Some (words h !! (a - 8)) -> is_Some (words h !! (a + size c - 16)) ->
  (h1 ← put_header h a v; h2 ← put_footer h1 a v; k h2) = k (with_words h (put_tags (words h) a c)).
Proof.
  intros Hc Hv H1 H2. pose proof Hc as [Hs _]. rewrite put_header_word, bind_ret_l, Hv by done.
  rewrite (put_footer_word _ _ c), bind_ret_l, Hv; [done|done|simpl; by rewrite lookup_insert_eq|]. simpl. by rewrite lookup_insert_ne by lia.
Qed.

Lemma tiles_put m a b r : sized b -> tiles m (a + size b) r -> tiles (put_tags m a b) a (b :: r).
Proof.
  intros Hb Hr. pose proof Hb as [Hs _]. unfold put_tags. simpl. rewrite lookup_insert_ne, !lookup_insert_eq by lia. split_and!; [done..|].
  apply tiles_insert; [lia|]. apply tiles_insert; [lia|done].
Qed.

Lemma put_tags_before m a b x : sized b -> x < a - 8 \/ a + size b - 8 <= x -> put_tags m a b !! x = m !! x.
Proof. intros [Hs _] Hx. unfold put_tags. by rewrite !lookup_insert_ne by lia. Qed.

Lemma put_tags_dom m a b : is_Some (m !! (a - 8)) -> is_Some (m !! (a + size b - 16)) -> dom (put_tags m a b) = dom m.
Proof. intros H1 H2. unfold put_tags. rewrite dom_insert_lookup_L, dom_insert_lookup_L; [done|done|]. apply lookup_insert_is_Some'. by right. Qed.

(** The map after joining, with what is known of it. *)
Ltac joined T D O := eexists; split; [reflexivity|]; split; [exact T|]; split; [exact D|]; intros x Hx; apply O; lia.

(** A block written between others. *)
Lemma put_between m a pre c r : sized c -> tiles m a pre -> tiles m (a + extent pre + size c) r ->
  is_Some (m !! (a + extent pre - 8)) -> is_Some (m !! (a + extent pre + size c - 16)) ->
  let m' := put_tags m (a + extent pre) c in
  tiles m' a (pre ++ c :: r) /\ dom m' = dom m /\
  forall x, x < a - 8 \/ a + extent pre + size c - 8 <= x -> m' !! x = m !! x.
Proof.
  intros Hc Hpre Hr H1 H2 m'. pose proof Hc as [Hs _]. pose proof (extent_nonneg _ (tiles_sized _ _ _ Hpre)). split_and!.
  - apply tiles_app. split; [|by apply tiles_put]. apply tiles_insert; [lia|]. apply tiles_insert; [lia|done].
  - by apply put_tags_dom.
  - intros x Hx. apply put_tags_before; [done|lia].
Qed.

Section coalesce.
Context (h : heap) (a : Z) (prev b : block) (r : list block).
Hypothesis Hp : sized prev.
Hypothesis Hb : sized b.
Hypothesis Hr : tiles (words h) (a + size prev + size b) r.
Hypothesis Hph : words h !! (a - 8) = Some (word prev).
Hypothesis Hpf : words h !! (a + size prev - 16) = Some (word prev).
Hypothesis Hbh : words h !! (a + size prev - 8) = Some (word b).
Hypothesis Hbf : words h !! (a + size prev + size b - 16) = Some (word b).
Hypothesis Hend : r = [] -> words h !! (a + size prev + size b - 8) = Some 1.
Hypothesis Hsum : size prev + size b + extent r < UINT32.

Ltac go := rewrite bind_ret_l.
Ltac ends_tiles := apply tiles_insert; [lia|]; try done.

Lemma coalesce_reads : coalesce h (a + size prev) =
  match used prev, r with
  | true, n :: _ => if used n then Ok (h, a + size prev)
                    else Ok (with_words h (put_tags (words h) (a + size prev) (free_block (size b + size n))), a + size prev)
  | true, [] => Ok (h, a + size prev)
  | false, n :: _ => if used n then Ok (with_words h (put_tags (words h) a (free_block (size b + size prev))), a)
                     else Ok (with_words h (put_tags (words h) a (free_block (size b + (size prev + size n)))), a)
  | false, [] => Ok (with_words h (put_tags (words h) a (free_block (size b + size prev))), a)
  end.
Proof using All.
  pose proof Hp as [Hp1 Hp2]. pose proof Hb as [Hb1 Hb2]. pose proof (extent_nonneg r (tiles_sized _ _ _ Hr)) as Hr0.
  assert (PREV_BLKP h (a + size prev) = Ok a) as Eprev.
  { rewrite (prev_address h (a + size prev) prev) by (done || by rewrite <- Hpf; f_equal; lia). f_equal. lia. }
  assert (NEXT_BLKP h (a + size prev) = Ok (a + size prev + size b)) as Enext by by rewrite (next_address h (a + size prev) b).
  unfold coalesce. rewrite Eprev, bind_ret_l, (footer_address h a prev) by done. go.
  rewrite (word_alloc h prev) by done. go. rewrite Enext. go.
  rewrite (next_word h (a + size prev + size b) r) by done. go. unfold HDRP at 1, SIZE_T_SIZE at 1. rewrite (word_size h b) by done. go.
  destruct (used prev) eqn:Hup, (next_used r) eqn:Hnu; cbn [negb Z.eqb].
  - destruct r as [|n r']; [done|]. simpl in Hnu. by rewrite Hnu.
  - destruct r as [|n r']; [done|]. simpl in Hnu. rewrite Hnu. destruct Hr as (Hn & Hn1 & Hn2 & Hr'). rewrite extent_cons in *.
    assert (sized (free_block (size b + size n))) as Hj by (apply sized_add; [done..|pose proof (extent_nonneg _ (tiles_sized _ _ _ Hr')); lia]).
    go. unfold HDRP, SIZE_T_SIZE. rewrite (word_size h n) by done. go. rewrite put_header_word by done. go.
    rewrite (pack_free _ Hj). rewrite (put_footer_word _ _ _ Hj).
    + go. by rewrite (pack_free _ Hj).
    + simpl. by rewrite lookup_insert_eq.
    + simpl. pose proof Hn as [Hn3 _]. rewrite lookup_insert_ne by lia. exists (word n). rewrite <- Hn2. f_equal. lia.
  - assert (Ok (with_words h (put_tags (words h) a (free_block (size b + size prev))), a) =
      match r with
      | [] => Ok (with_words h (put_tags (words h) a (free_block (size b + size prev))), a)
      | n :: _ => if used n then Ok (with_words h (put_tags (words h) a (free_block (size b + size prev))), a)
                  else Ok (with_words h (put_tags (words h) a (free_block (size b + (size prev + size n)))), a)
      end) as <- by (destruct r as [|n r']; [done|]; simpl in Hnu; by rewrite Hnu).
    assert (sized (free_block (size b + size prev))) as Hj by (apply sized_add; [done..|lia]).
    go. unfold HDRP, SIZE_T_SIZE. rewrite (word_size h prev) by done. go. rewrite (put_footer_word h (a + size prev) b) by done. go.
    rewrite (prev_address _ (a + size prev) prev); [|done|simpl; rewrite lookup_insert_ne by lia; rewrite <- Hpf; f_equal; lia]. go.
    replace (a + size prev - size prev) with a by lia. rewrite put_header_word by (simpl; rewrite lookup_insert_ne by lia; done). go.
    rewrite (prev_address _ (a + size prev) prev); [|done|simpl; rewrite !lookup_insert_ne by lia; rewrite <- Hpf; f_equal; lia]. go.
    rewrite (pack_free _ Hj). unfold put_tags, with_words. simpl. replace (a + (size b + size prev) - 16) with (a + size prev + size b - 16) by lia.
    rewrite insert_insert_ne by lia. do 2 f_equal. lia.
  - destruct r as [|n r']; [done|]. simpl in Hnu. rewrite Hnu. destruct Hr as (Hn & Hn1 & Hn2 & Hr'). rewrite extent_cons in *.
    pose proof (extent_nonneg _ (tiles_sized _ _ _ Hr')). pose proof Hn as [Hn3 Hn4].
    assert (sized (free_block (size b + (size prev + size n)))) as Hj by (apply (sized_add b (free_block (size prev + size n))); [done|apply sized_add; (done || lia)|simpl; lia]).
    go. unfold HDRP, SIZE_T_SIZE. rewrite (word_size h prev) by done. do 2 go. rewrite (footer_address h _ n) by done. go.
    rewrite (word_size h n) by done. go. rewrite (u32_id (size prev + size n)) by lia. rewrite put_header_word by done. go.
    rewrite (next_address _ (a + size prev) b) by (done || simpl; by rewrite lookup_insert_ne by lia). go.
    rewrite (put_footer_word _ _ n) by (done || simpl; by rewrite lookup_insert_ne by lia). go.
    rewrite (prev_address _ (a + size prev) prev); [|done|simpl; rewrite !lookup_insert_ne by lia; rewrite <- Hpf; f_equal; lia]. go.
    rewrite (pack_free _ Hj). unfold put_tags, with_words. simpl. replace (a + (size b + (size prev + size n)) - 16) with (a + size prev + size b + size n - 16) by lia.
    do 2 f_equal. lia.
Qed.

Lemma coalesced_words : exists m, coalesce h (a + size prev) = Ok (with_words h m, if used prev then a + size prev else a) /\
  tiles m a (coalesced prev b r) /\ dom m = dom (words h) /\
  forall x, x < a - 8 \/ a + size prev + size b + extent r - 8 <= x -> m !! x = words h !! x.
Proof using All.
  rewrite coalesce_reads. pose proof (extent_nonneg r (tiles_sized _ _ _ Hr)) as Hr0. pose proof Hp as [Hp1 _]. pose proof Hb as [Hb1 _].
  assert (with_words h (words h) = h) as Eh by by destruct h.
  assert (tiles (words h) a (prev :: b :: r)) as H0 by done.
  unfold coalesced. destruct (used prev), r as [|n r'].
  - exists (words h). by rewrite Eh.
  - destruct (used n); [exists (words h); by rewrite Eh|]. destruct Hr as (Hn & Hn1 & Hn2 & Hr'). pose proof Hn as [Hn3 _]. rewrite extent_cons in *.
    pose proof (extent_nonneg _ (tiles_sized _ _ _ Hr')).
    destruct (put_between (words h) a [prev] (free_block (size b + size n)) r') as (T & D & O); rewrite ?extent_cons, ?extent_nil, ?Z.add_0_r in *; simpl size in *;
      rewrite ?Z.add_assoc in *; [apply sized_add; (done || lia)|done..|]. joined T D O.
  - destruct (put_between (words h) a [] (free_block (size b + size prev)) []) as (T & D & O); rewrite ?extent_nil, ?Z.add_0_r in *; simpl size in *;
      [apply sized_add; (done || lia)|done..| |]; [exists (word b); rewrite <- Hbf; f_equal; lia|]. joined T D O.
  - destruct (used n).
    + destruct (put_between (words h) a [] (free_block (size b + size prev)) (n :: r')) as (T & D & O); rewrite ?extent_nil, ?Z.add_0_r in *; simpl size in *;
        [apply sized_add; (done || lia)|done|by rewrite (Z.add_comm (size b)), Z.add_assoc|done|exists (word b); rewrite <- Hbf; f_equal; lia|].
      joined T D O.
    + destruct Hr as (Hn & Hn1 & Hn2 & Hr'). pose proof Hn as [Hn3 _]. rewrite extent_cons in *. pose proof (extent_nonneg _ (tiles_sized _ _ _ Hr')).
      destruct (put_between (words h) a [] (free_block (size b + (size prev + size n))) r') as (T & D & O); rewrite ?extent_nil, ?Z.add_0_r in *; simpl size in *;
        [apply (sized_add b (free_block (size prev + size n))); [done|apply sized_add; (done || lia)|simpl; lia]|done| |done|exists (word n); rewrite <- Hn2; f_equal; lia|].
      { by replace (a + (size b + (size prev + size n))) with (a + size prev + size b + size n) by lia. }
      joined T D O.
Qed.
End coalesce.

Lemma free_words h a prev b r : tiles (words h) a (prev :: b :: r) -> (r = [] -> words h !! (a + size prev + size b - 8) = Some 1) ->
  size prev + size b + extent r < UINT32 -> 0 < a ->
  exists m, m_free h (a + size prev + 8) = Ok (with_words h m) /\
  tiles m a (coalesced prev (free_block (size b)) r) /\ dom m = dom (words h) /\
  forall x, x < a - 8 \/ a + size prev + size b + extent r - 8 <= x -> m !! x = words h !! x.
Proof.
  intros (Hp & Hph & Hpf & Hb & Hbh & Hbf & Hr) Hend Hsum Ha. pose proof Hp as [Hp1 _]. pose proof Hb as [Hb1 Hb2].
  pose proof (extent_nonneg r (tiles_sized _ _ _ Hr)) as Hr0.
  assert (sized (free_block (size b))) as Hf by done. unfold m_free, NULL, SIZE_T_SIZE. destruct (Z.eqb_spec (a + size prev + 8) 0); [lia|].
  replace (a + size prev + 8 - 8) with (a + size prev) by lia. unfold HDRP, SIZE_T_SIZE. rewrite (word_size h b), bind_ret_l by done.
  rewrite (write_tags h (a + size prev) (free_block (size b))) by (done || by apply pack_free).
  set (h1 := with_words _ _). assert (words h1 = put_tags (words h) (a + size prev) (free_block (size b))) as E1 by done.
  assert (dom (words h1) = dom (words h)) as D1 by (rewrite E1; apply put_tags_dom; simpl; done).
  assert (forall x, x < a + size prev - 8 \/ a + size prev + size b - 8 <= x -> words h1 !! x = words h !! x) as O1
    by (intros x Hx; rewrite E1; by apply put_tags_before).
  destruct (tiles_put (words h) (a + size prev) (free_block (size b)) r Hf Hr) as (_ & Hh1 & Hf1 & Hr1). rewrite <- E1 in Hh1, Hf1, Hr1.
  destruct (coalesced_words h1 a prev (free_block (size b)) r Hp Hf Hr1) as (m & Hm & T & D & O); [rewrite O1; (done || lia)..|done|done| | |].
  { intros ->. rewrite O1; [auto|simpl; lia]. }
  { done. }
  exists m. rewrite Hm, bind_ret_l. split; [done|]. split; [done|]. split; [congruence|]. intros x Hx. rewrite O by done. apply O1. lia.
Qed.

(** ** Operations on the heap *)

(** The heap has the same blocks as the words say, after [h] changed inside. *)
Lemma represents_change h m p bs bs' : represents h p bs -> tiles m (heap_start h - size p) (p :: bs') -> dom m = dom (words h) ->
  extent bs' = extent bs -> m !! (heap_end h - 8) = words h !! (heap_end h - 8) -> represents (with_words h m) p bs'.
Proof.
  intros (T & U & E & X & S & A & D) T' D' X' E'. unfold represents. simpl words. simpl heap_start. simpl heap_end. rewrite extent_cons in *. rewrite X', E'. split_and!; try done.
  intros x Hx Hm. apply elem_of_dom. rewrite D'. apply elem_of_dom. by apply D.
Qed.

(** No two free blocks are neighbours. *)
Fixpoint separated (bs : list block) : bool :=
  match bs with
  | b :: ((c :: _) as r) => (used b || used c) && separated r
  | _ => true
  end.

Lemma separated_app l b r : separated (l ++ b :: r) = separated (l ++ [b]) && separated (b :: r).
Proof.
  induction l as [|c l IH]; [done|]. destruct l as [|d l]; [simpl; by rewrite andb_true_r|].
  change (((used c || used d) && separated ((d :: l) ++ b :: r)) = ((used c || used d) && separated ((d :: l) ++ [b])) && separated (b :: r)).
  by rewrite IH, andb_assoc.
Qed.

Lemma separated_last l b c : used b = used c -> separated (l ++ [b]) = separated (l ++ [c]).
Proof.
  intros H. induction l as [|d l IH]; [done|]. destruct l as [|e l]; [simpl; by rewrite H|].
  change ((used d || used e) && separated ((e :: l) ++ [b]) = (used d || used e) && separated ((e :: l) ++ [c])). by rewrite IH.
Qed.

Lemma separated_used b r : used b = true -> separated (b :: r) = separated r.
Proof. intros H. destruct r; simpl; [done|]. by rewrite H. Qed.

Lemma coalesced_separated l prev b r : separated (l ++ prev :: b :: r) = true -> used b = true ->
  separated (l ++ coalesced prev (free_block (size b)) r) = true.
Proof.
  intros H Hb. rewrite separated_app in H. apply andb_true_iff in H as [H1 H2].
  assert (separated r = true) as H3.
  { destruct r as [|n r]; [done|]. change ((used prev || used b) && ((used b || used n) && separated (n :: r)) = true) in H2. by apply andb_true_iff in H2 as [_ [_ ?]%andb_true_iff]. }
  unfold coalesced. destruct (used prev) eqn:Hu.
  - destruct r as [|n r].
    + rewrite separated_app, H1. simpl. by rewrite Hu.
    + destruct (used n) eqn:Hn; rewrite separated_app, H1, andb_true_l; rewrite (separated_used prev) by done.
      * change ((used n) && separated (n :: r) = true). by rewrite Hn, H3.
      * destruct r as [|k r]; [done|]. change ((used n || used k) && separated (k :: r) = true) in H3. rewrite Hn in H3. exact H3.
  - destruct r as [|n r]; [by rewrite (separated_last _ _ prev)|].
    destruct (used n) eqn:Hn; rewrite separated_app, (separated_last _ _ prev), H1, andb_true_l by done.
    * change ((used n) && separated (n :: r) = true). by rewrite Hn, H3.
    * destruct r as [|k r]; [done|]. change ((used n || used k) && separated (k :: r) = true) in H3. rewrite Hn in H3. exact H3.
Qed.

Lemma extent_coalesced prev b r : extent (coalesced prev (free_block (size b)) r) = extent (prev :: b :: r).
Proof. unfold coalesced. destruct (used prev), r as [|n r]; try destruct (used n); rewrite ?extent_cons; simpl size; lia. Qed.

(** C32.  On a heap whose words are the tags of blocks, with the tags of a block in use in
    front of it and a used header of size 0 at its end (neither is written by [m_init]),
    [m_free] of the address 8 bytes into one of the blocks joins that block with its free
    neighbours and leaves the tags of the remaining blocks; if the block was in use and
    no two free blocks were neighbours, none are after it. *)
Theorem m_free_coalesces h p l b r : represents h p (l ++ b :: r) ->
  exists l0 prev bs' h', p :: l = l0 ++ [prev] /\ p :: bs' = l0 ++ coalesced prev (free_block (size b)) r /\
    m_free h (heap_start h + extent l + 8) = Ok h' /\ represents h' p bs' /\
    (used b = true -> separated (p :: l ++ b :: r) = true -> separated (p :: bs') = true).
Proof.
  intros HR. pose proof HR as (T & U & E & X & S & A & D).
  destruct (exists_last (l := p :: l)) as (l0 & prev & El); [done|]. exists l0, prev.
  assert (p :: l ++ b :: r = l0 ++ prev :: b :: r) as Efull by (change (p :: l ++ b :: r) with ((p :: l) ++ b :: r); rewrite El, <- app_assoc; done).
  assert (extent (p :: l) = extent l0 + size prev) as Ext by (rewrite El, extent_app, !extent_cons, extent_nil; lia). rewrite extent_cons in Ext.
  rewrite Efull in T, S. apply tiles_app in T as [T0 T1]. rewrite extent_app, !extent_cons in S. rewrite extent_app, extent_cons in X.
  pose proof (extent_nonneg _ (tiles_sized _ _ _ T0)) as H0.
  set (a := heap_start h - size p + extent l0) in *. replace (heap_start h + extent l + 8) with (a + size prev + 8) by lia.
  destruct (free_words h a prev b r T1) as (m & Hm & T2 & D2 & O2).
  { intros ->. rewrite extent_nil in X. rewrite <- E. f_equal. lia. }
  { lia. } { lia. }
  assert (exists bs', p :: bs' = l0 ++ coalesced prev (free_block (size b)) r) as [bs' Ebs].
  { destruct l0 as [|q l0]; [|injection El as -> _; by eexists]. injection El as <- _. unfold coalesced. rewrite U. simpl. destruct r as [|n r]; [by eexists|]. destruct (used n); by eexists. }
  exists bs', (with_words h m). split; [done|]. split; [done|]. split; [done|]. split.
  - eapply represents_change; [exact HR| |exact D2| |].
    + rewrite Ebs. apply tiles_app. split; [|exact T2].
      eapply tiles_agree; [|exact T0]. intros x Hx. apply O2. lia.
    + assert (extent (p :: bs') = extent (l0 ++ prev :: b :: r)) as Ex by (rewrite Ebs, !extent_app, extent_coalesced; done).
      rewrite extent_app, !extent_cons in Ex. rewrite extent_app, extent_cons. lia.
    + apply O2. lia.
  - intros Hu Hs. rewrite Ebs. apply coalesced_separated; [by rewrite <- Efull|done].
Qed.

(** ** Searching *)


(** The address of the first block that satisfies [f]. *)
Fixpoint first_block (f : Z -> block -> bool) (a : Z) (bs : list block) : Z :=
  match bs with
  | [] => NULL
  | b :: bs => if f a b then a else first_block f (a + size b) bs
  end.




Lemma ptr_from h p bs : forall a fuel, tiles (words h) a bs -> heap_end h = a + extent bs -> (length bs < fuel)%nat ->
  loop fuel (ptr_step h p) a = Ok (first_block (fun a b => (a <=? p) && (p <? a + size b)) a bs).
Proof.
  induction bs as [|b bs IH]; intros a fuel HT HE Hf; (destruct fuel as [|fuel]; [simpl in Hf; lia|]); rewrite loop_S; unfold ptr_step.
  - rewrite extent_nil in HE. by destruct (Z.ltb_spec a (heap_end h)); [lia|].
  - destruct HT as (Hb & H1 & H2 & H3). pose proof Hb as [Hs _]. pose proof (extent_nonneg _ (tiles_sized _ _ _ H3)). rewrite extent_cons in HE.
    destruct (Z.ltb_spec a (heap_end h)); [|lia]. unfold HDRP, SIZE_T_SIZE. rewrite (word_size h b), bind_ret_l by done.
    simpl. destruct (_ && _); [done|]. apply IH; [done|lia|simpl in Hf; lia].
Qed.

(** ** Placing *)

















(** [is_ptr] returns the address of the block that has the address in its extent,
    and NULL outside the heap. *)
Theorem is_ptr_finds_block h p bs x fuel : represents h p bs -> (length bs < fuel)%nat ->
  if (heap_start h <=? x) && (x <? heap_end h) then
    exists l b r, bs = l ++ b :: r /\ is_ptr fuel h x = Ok (heap_start h + extent l) /\
      heap_start h + extent l <= x < heap_start h + extent l + size b
  else is_ptr fuel h x = Ok NULL.
Proof.
  intros (T & _ & _ & X & _) Hf. destruct T as (_ & _ & _ & T). replace (heap_start h - size p + size p) with (heap_start h) in T by lia.
  unfold is_ptr. destruct (Z.leb_spec (heap_start h) x), (Z.ltb_spec x (heap_end h)), (Z.ltb_spec x (heap_start h)), (Z.leb_spec (heap_end h) x);
    try lia; try done; simpl. rewrite (ptr_from h x bs) by done. clear Hf. rewrite X in *. clear X. revert T. generalize dependent (heap_start h).
  induction bs as [|b bs IH]; intros a Ha Hx _ _ T; [rewrite extent_nil in Hx; lia|]. rewrite extent_cons in Hx. destruct T as (_ & _ & _ & T).
  simpl. destruct (Z.leb_spec a x); [|lia]. destruct (Z.ltb_spec x (a + size b)); simpl.
  - exists [], b, bs. rewrite extent_nil, Z.add_0_r. split_and!; (done || lia).
  - destruct (IH (a + size b)) as (l & c & r & -> & HI & Hc); [lia..|done|]. exists (b :: l), c, r. rewrite HI, extent_cons.
    split_and!; [done| |lia|lia]. f_equal. lia.
Qed.

(** ** Examples *)

(** A block of 32 bytes in use and a free one of 48, between the two marks. *)
Definition example_words : gmap Z Z := list_to_map
  [(1000, 17); (1008, 17); (1016, 33); (1024, 0); (1032, 0); (1040, 33); (1048, 48); (1056, 0); (1064, 0); (1072, 0); (1080, 0); (1088, 48); (1096, 1)].

Definition example_heap : heap := mkHeap example_words 1024 1104 1024.
Definition front : block := mkBlock 16 true false.
Definition example_blocks : list block := [mkBlock 32 true false; free_block 48].

Lemma example_represents : represents example_heap front example_blocks.
Proof.
  unfold represents. split; [|split; [|split; [|split; [|split; [|split]]]]]; try (vm_compute; reflexivity).
  - cbn. unfold sized. cbn. unfold UINT32. repeat split; lia.
  - intros x Hx Hm. cbn [heap_start heap_end example_heap words] in *.
    assert (x = 1016 \/ x = 1024 \/ x = 1032 \/ x = 1040 \/ x = 1048 \/ x = 1056 \/ x = 1064 \/ x = 1072 \/ x = 1080 \/ x = 1088 \/ x = 1096) as Hc by dlia.
    clear Hx Hm. destruct_or! Hc; subst x; eexists; vm_compute; reflexivity.
Qed.


Lemma m_free_coalesces_witness : exists h', m_free example_heap 1032 = Ok h' /\ represents h' front [free_block 80].
Proof.
  destruct (m_free_coalesces example_heap front [] (mkBlock 32 true false) [free_block 48] example_represents) as (l0 & prev & bs' & h' & E & F & H & R & _).
  destruct l0 as [|q l0]; [|by destruct l0]. injection E as <-. vm_compute in F. injection F as ->. exists h'. split; [exact H|exact R].
Defined.




Lemma is_ptr_finds_block_witness : is_ptr 5 example_heap 1064 = Ok 1056.
Proof.
  pose proof (is_ptr_finds_block example_heap front example_blocks 1064 5 example_represents ltac:(simpl; lia)) as H.
  change ((heap_start example_heap <=? 1064) && (1064 <? heap_end example_heap)) with true in H. cbv iota in H.
  destruct H as (l & b & r & E & H & Hr). rewrite H. f_equal. simpl heap_start in *. destruct l as [|c [|d l]].
  - injection E as <- <-. unfold extent in Hr. cbn in Hr. lia.
  - by injection E as <- <- <-.
  - by destruct l.
Defined.

(** [m_init] writes in front of the memory it got. *)
Lemma m_init_faults m block size : block <> NULL -> m !! (block - 8) = None -> m_init m block size = Fault BadAddress.
Proof. intros Hb Hm. unfold m_init. destruct (Z.eqb_spec block NULL); [done|]. unfold put_header, PUT, HDRP, SIZE_T_SIZE. simpl. by rewrite Hm. Qed.

(** The pointer [m_malloc] returned above lies in the free block; the next request
    writes its header into the bytes of the first one. *)
Lemma malloc_tags_overlap :
  ('(h1, p1) ← m_malloc 5 example_heap 8; l ← print_heap 5 h1; v1 ← GET h1 p1; '(h2, _) ← m_malloc 5 h1 8; v2 ← GET h2 p1; Ok (p1, l, v1, v2)) =
  Ok (1072 + 8, [(1024, 32, 1); (1056, 16, 1); (1072, 32, 0)], 0, 16).
Proof. vm_compute. reflexivity. Qed.

(** Without a block in use in front of it, freeing the first block doubles its size. *)
Lemma free_first_doubles :
  (h ← m_free (mkHeap (<[1008 := 0]> (<[1048 := 49]> (<[1088 := 49]> example_words))) 1024 1104 1024) 1032; GET_SIZE h 1016) = Ok 64.
Proof. vm_compute. reflexivity. Qed.

(** A request that no block fits makes a free block of the start of the heap, in use
    here: the pointer returned is inside the only block. *)
Lemma extend_over_used :
  let m := list_to_map [(1000, 17); (1008, 17); (1016, 8193); (1128, 0); (1136, 0); (5104, 0); (5112, 1); (9200, 8193); (9208, 1)] in
  ('(_, p) ← m_malloc 5 (mkHeap m 1024 9216 1024) 100; Ok p) = Ok 1152.
Proof. vm_compute. reflexivity. Qed.

(** [gc] frees blocks in use: nothing is ever marked. *)
Lemma gc_frees_used : (h ← gc 5 example_heap; print_heap 5 h) = Ok [(1024, 80, 0)].
Proof. vm_compute. reflexivity. Qed.
