(* ===== verification/RayTriangle.v ===== *)
(** * Intersection of rays and triangles ([memory/parallelComputing/ray_triangle.c])

    The intersection test over any arithmetic: with [float] as in the program, and with
    exact rational numbers, for which it is proved to find the points where a ray meets
    a triangle.  The parallel count of [main] is proved for any schedule. *)
From Stdlib Require Import ZArith Lia QArith Qfield Lqa.
From Corelib Require Import SpecFloat.
From stdpp Require Import base tactics list numbers option.
From S2P Require Import Prelude Float.

#[local] Open Scope Z_scope.
#[local] Open Scope c_scope.

(** The operations on [float] the code uses; [f_recip a] is [1.0 / a] and
    [f_rand r] is [(float)r / RAND_MAX]. *)
Class RayArith (F : Type) : Type := {
  f_zero : F;
  f_one : F;
  f_half : F;
  f_epsilon : F;
  f_opp : F -> F;
  f_add : F -> F -> F;
  f_sub : F -> F -> F;
  f_mul : F -> F -> F;
  f_recip : F -> F;
  f_ltb : F -> F -> bool;
  f_rand : Z -> F
}.

Definition RAND_MAX : Z := 2147483647.

#[export] Instance float_ray : RayArith cfloat := {
  f_zero := f32_of_int 0;
  f_one := f32_of_int 1;
  f_half := f32_div (f32_of_int 1) (f32_of_int 2);
  f_epsilon := f32 (f64_div (f64_of_int 1) (f64_of_int 10000000));
  f_opp := SFopp;
  f_add := f32_add;
  f_sub := f32_sub;
  f_mul := f32_mul;
  f_recip a := f32 (f64_div (f64_of_int 1) (f64 a));
  f_ltb := flt;
  f_rand r := f32_div (f32_of_int r) (f32_of_int RAND_MAX)
}.

#[export] Instance exact_ray : RayArith Q := {
  f_zero := 0%Q;
  f_one := 1%Q;
  f_half := (1 # 2)%Q;
  f_epsilon := (1 # 10000000)%Q;
  f_opp := Qopp;
  f_add := Qplus;
  f_sub := Qminus;
  f_mul := Qmult;
  f_recip := Qinv;
  f_ltb x y := negb (Qle_bool y x);
  f_rand r := (r # 2147483647)%Q
}.

Section code.
Context {F : Type} `{!RayArith F}.

Record Vector3 : Type := mkVector { vx : F; vy : F; vz : F }.
Record Ray : Type := mkRay { origin : Vector3; direction : Vector3 }.
Record Triangle : Type := mkTriangle { v0 : Vector3; v1 : Vector3; v2 : Vector3 }.

Definition subtract (a b : Vector3) : Vector3 := mkVector (f_sub (vx a) (vx b)) (f_sub (vy a) (vy b)) (f_sub (vz a) (vz b)).

Definition cross (a b : Vector3) : Vector3 :=
  mkVector (f_sub (f_mul (vy a) (vz b)) (f_mul (vz a) (vy b)))
           (f_sub (f_mul (vz a) (vx b)) (f_mul (vx a) (vz b)))
           (f_sub (f_mul (vx a) (vy b)) (f_mul (vy a) (vx b))).

Definition dot (a b : Vector3) : F := f_add (f_add (f_mul (vx a) (vx b)) (f_mul (vy a) (vy b))) (f_mul (vz a) (vz b)).

(** The result, and what was stored in [*t]. *)
Definition ray_triangle_intersection (ray : Ray) (triangle : Triangle) : bool * option F :=
  let edge1 := subtract (v1 triangle) (v0 triangle) in
  let edge2 := subtract (v2 triangle) (v0 triangle) in
  let h := cross (direction ray) edge2 in
  let a := dot edge1 h in
  if f_ltb (f_opp f_epsilon) a && f_ltb a f_epsilon then (false, None) else
  let f := f_recip a in
  let s := subtract (origin ray) (v0 triangle) in
  let u := f_mul f (dot s h) in
  if f_ltb u f_zero || f_ltb f_one u then (false, None) else
  let q := cross s edge1 in
  let v := f_mul f (dot (direction ray) q) in
  if f_ltb v f_zero || f_ltb f_one (f_add u v) then (false, None) else
  let t := f_mul f (dot edge2 q) in
  (f_ltb f_epsilon t, Some t).

Definition no_vector : Vector3 := mkVector f_zero f_zero f_zero.

(** [rnd i k] is the [k]-th random number drawn for element [i]. *)
Definition random_point (rnd : Z -> Z -> Z) (i k : Z) : Vector3 :=
  mkVector (f_rand (rnd i k)) (f_rand (rnd i (k + 1))) (f_rand (rnd i (k + 2))).

Definition random_ray (rnd : Z -> Z -> Z) (i : Z) : Ray :=
  mkRay (random_point rnd i 0)
    (mkVector (f_sub (f_rand (rnd i 3)) f_half) (f_sub (f_rand (rnd i 4)) f_half) (f_sub (f_rand (rnd i 5)) f_half)).

Definition random_triangle (rnd : Z -> Z -> Z) (i : Z) : Triangle :=
  mkTriangle (random_point rnd i 0) (random_point rnd i 3) (random_point rnd i 6).

(** Fills an array that [malloc] gave. *)
Definition fill_array {A} (f : Z -> A) (n : Z) (mem : list A) : res (list A) :=
  for_range (Z.to_nat n) 0 (fun i a => a.[i <- f i]) mem.

(** One iteration of the parallel loop: the triangles one ray meets. *)
Definition count_ray (rays : list Ray) (triangles : list Triangle) (nt : Z) (i : Z) (total : Z) : res Z :=
  for_range (Z.to_nat nt) 0 (fun j total =>
    r ← rays.[i]; tr ← triangles.[j];
    if fst (ray_triangle_intersection r tr) then iadd total 1 else Ok total) total.

(** The iterations of one thread, on its own copy of the sum. *)
Fixpoint run_chunk (rays : list Ray) (triangles : list Triangle) (nt : Z) (chunk : list Z) (total : Z) : res Z :=
  match chunk with
  | [] => Ok total
  | i :: chunk => total ← count_ray rays triangles nt i total; run_chunk rays triangles nt chunk total
  end.

(** The sums of the threads are added up. *)
Fixpoint reduce (rays : list Ray) (triangles : list Triangle) (nt : Z) (chunks : list (list Z)) (total : Z) : res Z :=
  match chunks with
  | [] => Ok total
  | c :: chunks => s ← run_chunk rays triangles nt c 0; total ← iadd total s; reduce rays triangles nt chunks total
  end.

(** The number of tests and the number of hits that are printed; the arrays are what
    [malloc] returned. *)
Definition ray_main (nr nt : Z) (rays_mem : option (list Ray)) (triangles_mem : option (list Triangle)) (rnd_r rnd_t : Z -> Z -> Z)
    (schedule : list (list Z)) : res (Z * Z) :=
  rays ← match rays_mem with Some m => fill_array (random_ray rnd_r) nr m | None => Fault NullDeref end;
  triangles ← match triangles_mem with Some m => fill_array (random_triangle rnd_t) nt m | None => Fault NullDeref end;
  total ← reduce rays triangles nt schedule 0;
  tests ← imul nr nt;
  Ok (tests, total).
End code.

#[global] Arguments Vector3 : clear implicits.
#[global] Arguments Ray : clear implicits.
#[global] Arguments Triangle : clear implicits.

(** ** The geometry, exactly *)

Section geometry.
#[local] Open Scope Q_scope.

Definition same_point (p q : Vector3 Q) : Prop := vx p == vx q /\ vy p == vy q /\ vz p == vz q.

(** The point of the ray at [t]. *)
Definition at_time (r : Ray Q) (t : Q) : Vector3 Q :=
  mkVector (vx (origin r) + t * vx (direction r)) (vy (origin r) + t * vy (direction r)) (vz (origin r) + t * vz (direction r)).

(** The point of the triangle with coordinates [u] and [v] along its edges. *)
Definition in_plane (tr : Triangle Q) (u v : Q) : Vector3 Q :=
  let e1 := subtract (v1 tr) (v0 tr) in
  let e2 := subtract (v2 tr) (v0 tr) in
  mkVector (vx (v0 tr) + u * vx e1 + v * vx e2) (vy (v0 tr) + u * vy e1 + v * vy e2) (vz (v0 tr) + u * vz e1 + v * vz e2).

Definition determinant (r : Ray Q) (tr : Triangle Q) : Q :=
  dot (subtract (v1 tr) (v0 tr)) (cross (direction r) (subtract (v2 tr) (v0 tr))).

Definition epsilon : Q := 1 # 10000000.

(** The ray meets the triangle at time [t], later than [epsilon]. *)
Definition meets (r : Ray Q) (tr : Triangle Q) (t : Q) : Prop :=
  exists u v, 0 <= u /\ 0 <= v /\ u + v <= 1 /\ epsilon < t /\ same_point (at_time r t) (in_plane tr u v).

(** The ray is not too close to parallel to the triangle. *)
Definition transversal (r : Ray Q) (tr : Triangle Q) : Prop := determinant r tr <= - epsilon \/ epsilon <= determinant r tr.

Lemma ltb_true x y : f_ltb x y = true <-> x < y.
Proof.
  cbn. rewrite negb_true_iff. destruct (Qle_bool y x) eqn:E; split; try done.
  - apply Qle_bool_iff in E. lra.
  - intros _. destruct (Qlt_le_dec x y) as [|H]; [done|]. apply Qle_bool_iff in H. congruence.
Qed.

Lemma ltb_false x y : f_ltb x y = false <-> y <= x.
Proof. rewrite <- not_true_iff_false, ltb_true. split; lra. Qed.

(** Cramer's rule, as the code applies it. *)
Lemma solve_sound r tr : ~ determinant r tr == 0 ->
  let e1 := subtract (v1 tr) (v0 tr) in let e2 := subtract (v2 tr) (v0 tr) in
  let s := subtract (origin r) (v0 tr) in let f := / determinant r tr in
  same_point (at_time r (f * dot e2 (cross s e1))) (in_plane tr (f * dot s (cross (direction r) e2)) (f * dot (direction r) (cross s e1))).
Proof.
  destruct r as [[ox oy oz] [dx dy dz]], tr as [[ax ay az] [bx by_ bz] [cx cy cz]].
  unfold determinant, same_point, at_time, in_plane, dot, cross, subtract. cbn. intros Hd. split_and!; field; exact Hd.
Qed.

Lemma solve_complete r tr t u v : ~ determinant r tr == 0 -> same_point (at_time r t) (in_plane tr u v) ->
  let e1 := subtract (v1 tr) (v0 tr) in let e2 := subtract (v2 tr) (v0 tr) in
  let s := subtract (origin r) (v0 tr) in let f := / determinant r tr in
  f * dot s (cross (direction r) e2) == u /\ f * dot (direction r) (cross s e1) == v /\ f * dot e2 (cross s e1) == t.
Proof.
  destruct r as [[ox oy oz] [dx dy dz]], tr as [[ax ay az] [bx by_ bz] [cx cy cz]].
  unfold determinant, same_point, at_time, in_plane, dot, cross, subtract. cbn. intros Hd (Hx & Hy & Hz).
  assert (ox == ax + u * (bx - ax) + v * (cx - ax) - t * dx) as Ex by lra.
  assert (oy == ay + u * (by_ - ay) + v * (cy - ay) - t * dy) as Ey by lra.
  assert (oz == az + u * (bz - az) + v * (cz - az) - t * dz) as Ez by lra.
  clear Hx Hy Hz. split_and!; rewrite Ex, Ey, Ez; field; exact Hd.
Qed.

Lemma transversal_nonzero r tr : transversal r tr -> ~ determinant r tr == 0.
Proof. unfold transversal, epsilon. intros [H|H] E; rewrite E in H; lra. Qed.

(** The coordinates the code computes. *)
Definition code_u (r : Ray Q) (tr : Triangle Q) : Q :=
  / determinant r tr * dot (subtract (origin r) (v0 tr)) (cross (direction r) (subtract (v2 tr) (v0 tr))).
Definition code_v (r : Ray Q) (tr : Triangle Q) : Q :=
  / determinant r tr * dot (direction r) (cross (subtract (origin r) (v0 tr)) (subtract (v1 tr) (v0 tr))).
Definition code_t (r : Ray Q) (tr : Triangle Q) : Q :=
  / determinant r tr * dot (subtract (v2 tr) (v0 tr)) (cross (subtract (origin r) (v0 tr)) (subtract (v1 tr) (v0 tr))).

Lemma intersection_cases r tr :
  let hit := fst (ray_triangle_intersection r tr) in
  (hit = true -> snd (ray_triangle_intersection r tr) = Some (code_t r tr)) /\
  (hit = true <-> transversal r tr /\ (0 <= code_u r tr /\ code_u r tr <= 1) /\ (0 <= code_v r tr /\ code_u r tr + code_v r tr <= 1) /\ epsilon < code_t r tr).
Proof.
  unfold ray_triangle_intersection. fold (determinant r tr). change (@f_recip Q _) with Qinv. change (@f_mul Q _) with Qmult.
  fold (code_u r tr) (code_v r tr) (code_t r tr). unfold transversal. change (@f_epsilon Q _) with epsilon. change (@f_opp Q _) with Qopp.
  change (@f_add Q _) with Qplus. change (@f_zero Q _) with 0. change (@f_one Q _) with 1.
  assert (determinant r tr <= - epsilon \/ epsilon <= determinant r tr <-> f_ltb (- epsilon) (determinant r tr) && f_ltb (determinant r tr) epsilon = false) as ->
    by by rewrite andb_false_iff, !ltb_false.
  rewrite <- (ltb_true epsilon), <- (ltb_false (code_u r tr)), <- (ltb_false 1 (code_u r tr)), <- (ltb_false (code_v r tr)), <- (ltb_false 1), <- !orb_false_iff.
  destruct (f_ltb (- epsilon) _ && _); [split; [done|]; split; [done|by intros [? _]]|].
  destruct (f_ltb (code_u r tr) 0 || _); [split; [done|]; split; [done|by intros (_ & ? & _)]|].
  destruct (f_ltb (code_v r tr) 0 || _); [split; [done|]; split; [done|by intros (_ & _ & ? & _)]|].
  cbn [fst snd]. split; [done|]. split; [done|by intros (_ & _ & _ & ?)].
Qed.

(** C23.  With exact arithmetic the test succeeds on a ray that is not nearly parallel to
    the triangle exactly when the ray meets the triangle later than [epsilon], and
    then stores the time it does; on nearly parallel rays it fails. *)
Theorem ray_triangle_correct r tr t :
  (ray_triangle_intersection r tr = (true, Some t) -> meets r tr t) /\
  (transversal r tr -> meets r tr t -> exists t', ray_triangle_intersection r tr = (true, Some t') /\ t' == t) /\
  (~ transversal r tr -> ray_triangle_intersection r tr = (false, None)).
Proof.
  destruct (intersection_cases r tr) as [H1 H2]. split_and!.
  - intros H. rewrite H in H1, H2. injection (H1 eq_refl) as ->. destruct (proj1 H2 eq_refl) as (HT & (Hu & _) & (Hv & Huv) & Ht).
    exists (code_u r tr), (code_v r tr). split_and!; try done. apply solve_sound. by apply transversal_nonzero.
  - intros HT (u & v & Hu & Hv & Huv & Ht & HP). destruct (solve_complete r tr t u v (transversal_nonzero r tr HT) HP) as (Eu & Ev & Et).
    fold (code_u r tr) in Eu. fold (code_v r tr) in Ev. fold (code_t r tr) in Et. exists (code_t r tr). split; [|done].
    rewrite (surjective_pairing (ray_triangle_intersection r tr)). f_equal; [|apply H1]; apply H2; rewrite Eu, Ev, Et; split_and!; (done || lra).
  - intros HT. unfold ray_triangle_intersection. fold (determinant r tr). unfold transversal, epsilon in HT.
    assert (f_ltb (f_opp f_epsilon) (determinant r tr) = true) as -> by (apply ltb_true, Qnot_le_lt; intros H; apply HT; by left).
    assert (f_ltb (determinant r tr) f_epsilon = true) as -> by (apply ltb_true, Qnot_le_lt; intros H; apply HT; by right). done.
Qed.
End geometry.

(** ** The parallel count *)

Section counting.
Context {F : Type} `{!RayArith F}.

(** The triangles that the ray [r] meets. *)
Definition hits_of (tris : list (Triangle F)) (r : Ray F) : Z := total (fun tr => if fst (ray_triangle_intersection r tr) then 1 else 0) tris.

Definition all_hits (tris : list (Triangle F)) (rays : list (Ray F)) : Z := total (hits_of tris) rays.

Lemma hits_bounds tris r : 0 <= hits_of tris r <= len tris.
Proof. unfold hits_of. induction tris as [|tr tris IH]; simpl; [done|]. destruct (fst _); lia. Qed.

Lemma fill_array_ok {A} (f : Z -> A) (n : Z) mem : 0 <= n -> len mem = n -> fill_array f n mem = Ok (f <$> seqZ 0 n).
Proof. intros Hn Hm. unfold fill_array. rewrite fill_row by lia. do 3 f_equal. lia. Qed.

Lemma count_ray_ok rays tris i r t : zget rays i = Some r -> 0 <= t -> t + len tris <= INT_MAX ->
  count_ray rays tris (len tris) i t = Ok (t + hits_of tris r).
Proof.
  intros Hr Ht Hmax. unfold count_ray.
  destruct (for_range_inv (fun j u => u = t + hits_of (take (Z.to_nat j) tris) r) (Z.to_nat (len tris)) 0
    (fun j u => r0 ← rays.[i]; tr ← tris.[j]; if fst (ray_triangle_intersection r0 tr) then iadd u 1 else Ok u) t) as (u & -> & ->).
  - simpl. unfold hits_of. simpl. lia.
  - intros j u Hj ->. rewrite (arr_read_Ok _ _ _ Hr), bind_ret_l. destruct (zget_range tris j) as [tr Htr]; [lia|].
    rewrite (arr_read_Ok _ _ _ Htr), bind_ret_l.
    assert (hits_of (take (Z.to_nat (j + 1)) tris) r = hits_of (take (Z.to_nat j) tris) r + (if fst (ray_triangle_intersection r tr) then 1 else 0)) as ->
      by (rewrite (take_S_zget _ _ _ Htr); unfold hits_of; rewrite field_total_app; simpl; lia).
    pose proof (hits_bounds (take (Z.to_nat j) tris) r) as Hb. rewrite length_take in Hb.
    eexists. split; [|reflexivity]. destruct (fst _); [rewrite iadd_Ok by int_side|]; f_equal; lia.
  - f_equal. f_equal. f_equal. apply take_ge. lia.
Qed.

(** The hits of ray number [i]. *)
Definition ray_hits (rays : list (Ray F)) (tris : list (Triangle F)) (i : Z) : Z := match zget rays i with Some r => hits_of tris r | None => 0 end.

Lemma ray_hits_bounds rays tris i : 0 <= ray_hits rays tris i <= len tris.
Proof. unfold ray_hits. destruct (zget rays i); [apply hits_bounds|lia]. Qed.

Lemma total_hits_bounds rays tris l : 0 <= total (ray_hits rays tris) l <= len l * len tris.
Proof. induction l as [|i l IH]; simpl total; [done|]. pose proof (ray_hits_bounds rays tris i). simpl length. lia. Qed.

Lemma run_chunk_ok rays tris chunk : forall t, Forall (fun i => 0 <= i < len rays) chunk -> 0 <= t -> t + len chunk * len tris <= INT_MAX ->
  run_chunk rays tris (len tris) chunk t = Ok (t + total (ray_hits rays tris) chunk).
Proof.
  induction chunk as [|i chunk IH]; intros t Hc Ht Hmax; [simpl; f_equal; lia|].
  apply list.Forall_cons in Hc as [Hi Hc]. destruct (zget_range rays i Hi) as [r Hr]. simpl length in Hmax.
  pose proof (hits_bounds tris r). cbn [run_chunk]. rewrite (count_ray_ok _ _ _ r), bind_ret_l by (done || nia).
  rewrite IH by (done || nia). simpl total. unfold ray_hits at 2. rewrite Hr. f_equal. lia.
Qed.

Lemma reduce_ok rays tris chunks : forall t, Forall (fun i => 0 <= i < len rays) (concat chunks) -> 0 <= t ->
  t + len (concat chunks) * len tris <= INT_MAX ->
  reduce rays tris (len tris) chunks t = Ok (t + total (ray_hits rays tris) (concat chunks)).
Proof.
  induction chunks as [|c chunks IH]; intros t Hc Ht Hmax; [simpl; f_equal; lia|].
  simpl concat in *. apply Forall_app in Hc as [Hc Hcs]. rewrite length_app in Hmax. cbn [reduce]. pose proof (total_hits_bounds rays tris c) as Hb.
  rewrite run_chunk_ok, bind_ret_l, Z.add_0_l by (done || nia). rewrite iadd_Ok, bind_ret_l by (unfold INT_MIN, INT_MAX in *; nia).
  rewrite IH by (done || nia). rewrite field_total_app. f_equal. lia.
Qed.

(** However the iterations over the rays are divided among threads, the reduction
    gives the number of pairs of a ray and a triangle that meet, without overflow; an
    allocation that failed is written to. *)
Theorem ray_count_any_schedule nr nt rays_mem tris_mem rnd_r rnd_t schedule :
  0 <= nr -> 0 <= nt -> nr * nt <= INT_MAX -> len rays_mem = nr -> len tris_mem = nt -> Permutation (concat schedule) (seqZ 0 nr) ->
  ray_main (F := F) nr nt (Some rays_mem) (Some tris_mem) rnd_r rnd_t schedule =
    Ok (nr * nt, total (fun i => total (fun j => if fst (ray_triangle_intersection (random_ray rnd_r i) (random_triangle rnd_t j)) then 1 else 0) (seqZ 0 nt)) (seqZ 0 nr)) /\
  ray_main (F := F) nr nt None (Some tris_mem) rnd_r rnd_t schedule = Fault NullDeref.
Proof.
  intros Hnr Hnt Hmax Hr Ht HP. split; [|done]. unfold ray_main. rewrite !fill_array_ok, !bind_ret_l by done.
  set (rays := random_ray rnd_r <$> seqZ 0 nr). set (tris := random_triangle rnd_t <$> seqZ 0 nt).
  assert (len tris = nt) as Hlt by (unfold tris; rewrite length_fmap, length_seqZ; lia).
  assert (len rays = nr) as Hlr by (unfold rays; rewrite length_fmap, length_seqZ; lia).
  assert (length (concat schedule) = Z.to_nat nr) as Hlc by (rewrite HP, length_seqZ; done).
  rewrite <- Hlt at 1. rewrite reduce_ok; [|rewrite HP; apply list.Forall_forall; intros i Hi; apply elem_of_seqZ in Hi; lia|done|nia].
  rewrite bind_ret_l, imul_Ok, bind_ret_l by (unfold INT_MIN; nia). do 2 f_equal. rewrite (total_perm _ _ _ HP), Z.add_0_l.
  apply total_ext. intros i Hi%elem_of_seqZ. unfold ray_hits, rays. rewrite zget_fmap, zget_seqZ by lia. simpl. unfold hits_of, tris. by rewrite <- total_fmap.
Qed.
End counting.

Definition example_ray : Ray Q := mkRay (mkVector 0 0 (-1))%Q (mkVector 0 0 1)%Q.
Definition example_triangle : Triangle Q := mkTriangle (mkVector (-1) (-1) 0)%Q (mkVector 1 (-1) 0)%Q (mkVector 0 1 0)%Q.

Lemma ray_triangle_correct_witness : exists t', ray_triangle_intersection example_ray example_triangle = (true, Some t') /\ (t' == 1)%Q.
Proof.
  destruct (ray_triangle_correct example_ray example_triangle 1) as (_ & H & _). apply H.
  - left. vm_compute. discriminate.
  - exists (1 # 4)%Q, (1 # 2)%Q. unfold same_point. split_and!; vm_compute; (reflexivity || discriminate).
Defined.

Lemma ray_count_any_schedule_witness :
  exists n, ray_main (F := cfloat) 2 1 (Some (replicate 2 (mkRay no_vector no_vector))) (Some [mkTriangle no_vector no_vector no_vector])
    (fun i k => i + k) (fun i k => i + k) [[1]; [0]] = Ok (2 * 1, n).
Proof.
  destruct (ray_count_any_schedule (F := cfloat) 2 1 (replicate 2 (mkRay no_vector no_vector)) [mkTriangle no_vector no_vector no_vector]
    (fun i k => i + k) (fun i k => i + k) [[1]; [0]] ltac:(lia) ltac:(lia) ltac:(unfold INT_MAX; lia) eq_refl eq_refl (Permutation_swap _ _ _)) as [H _].
  revert H. generalize (total (fun i => total (fun j => if fst (ray_triangle_intersection (F := cfloat) (random_ray (fun i k => i + k) i) (random_triangle (fun i k => i + k) j)) then 1 else 0) (seqZ 0 1)) (seqZ 0 2)).
  intros n H. exists n. exact H.
Defined.
