(* ===== verification/FloatOrder.v ===== *)
(** * The order of floating-point numbers

    Comparison of the floats that are numbers is a strict weak order: it compares a key
    of three integers.  The scans that keep a largest or smallest value rely on it. *)
From Stdlib Require Import ZArith Lia.
From Corelib Require Import SpecFloat.
From stdpp Require Import base tactics list numbers option.
From S2P Require Import Prelude Select Float.

#[local] Open Scope Z_scope.

Definition is_nan (x : cfloat) : bool := match x with S754_nan => true | _ => false end.

(** Class, exponent and mantissa, with the signs of negative numbers turned. *)
Definition float_key (x : cfloat) : Z * Z * Z :=
  match x with
  | S754_infinity true => (-2, 0, 0)
  | S754_finite true m e => (-1, - e, - Z.pos m)
  | S754_zero _ | S754_nan => (0, 0, 0)
  | S754_finite false m e => (1, e, Z.pos m)
  | S754_infinity false => (2, 0, 0)
  end.

Definition key_lt (k1 k2 : Z * Z * Z) : bool :=
  let '(a, b, c) := k1 in
  let '(a', b', c') := k2 in
  (a <? a') || ((a =? a') && ((b <? b') || ((b =? b') && (c <? c')))).

Lemma key_lt_iff a b c a' b' c' : key_lt (a, b, c) (a', b', c') = true <-> a < a' \/ (a = a' /\ (b < b' \/ (b = b' /\ c < c'))).
Proof. simpl. rewrite !orb_true_iff, !andb_true_iff, !orb_true_iff, !andb_true_iff, !Z.ltb_lt, !Z.eqb_eq. done. Qed.

Lemma key_lt_false k1 k2 : key_lt k1 k2 = false <-> ~ key_lt k1 k2 = true.
Proof. by rewrite not_true_iff_false. Qed.

Lemma flt_key x y : is_nan x = false -> is_nan y = false -> flt x y = key_lt (float_key x) (float_key y).
Proof.
  intros Hx Hy. apply eq_true_iff_eq. destruct x as [[]|[]| |[] m e], y as [[]|[]| |[] m' e']; try discriminate Hx; try discriminate Hy; try done;
    unfold float_key; rewrite key_lt_iff; unfold flt, SFltb; simpl.
  - destruct (Z.compare_spec e e') as [->|H|H]; [|split; [done|lia]|split; [lia|done]].
    change (Pos.compare_cont Eq m m') with (Pos.compare m m'). destruct (Pos.compare_spec m m') as [->|H|H]; simpl; split; (done || lia).
  - destruct (Z.compare_spec e e') as [->|H|H]; [|split; [lia|done]|split; [done|lia]].
    change (Pos.compare_cont Eq m m') with (Pos.compare m m'). destruct (Pos.compare_spec m m') as [->|H|H]; simpl; split; (done || lia).
Qed.

(** A comparison with a NaN is false. *)
Lemma flt_number x y : flt x y = true -> is_nan x = false /\ is_nan y = false.
Proof. by destruct x, y. Qed.

#[export] Instance key_lt_order {A} (key : A -> Z * Z * Z) : StrictWeak (fun x y => key_lt (key y) (key x)).
Proof.
  constructor; [intros x|intros x y z|intros x y z]; destruct (key x) as [[a b] c]; try destruct (key y) as [[a' b'] c']; try destruct (key z) as [[a'' b''] c''];
    rewrite ?key_lt_false, ?key_lt_iff; lia.
Qed.
