(* ===== verification/OomKiller.v ===== *)
(** * Choice of a process to kill ([accessPatterns/oomKiller.c])

    A table of at most a hundred processes, a score in single precision, and the scan
    for the largest score.  The base-two logarithm of the C library is an argument. *)
From Stdlib Require Import ZArith Lia.
From Corelib Require Import SpecFloat.
From stdpp Require Import base tactics list numbers option.
From S2P Require Import Prelude Select Float FloatOrder.

#[local] Open Scope Z_scope.
#[local] Open Scope c_scope.

Definition MAX_PROCESSES : Z := 100.

Record Process : Type := mkProcess {
  pid : Z; name : list Z; rss : Z; virtual_size : Z; cpu_time : Z; start_time : Z; nice : Z; oom_score_adj : Z; is_privileged : bool
}.

Record ProcessList : Type := mkList { processes : list Process; count : Z }.

(** A [long]. *)
Definition long_of (z : Z) : res Z := if (- 2 ^ 63 <=? z) && (z <? 2 ^ 63) then Ok z else Fault IntOverflow.

Definition initialize_process_list (l : ProcessList) : ProcessList := mkList (processes l) 0.

(** [p] has the fields of the new entry, its name as a string. *)
Definition add_process (l : ProcessList) (p : Process) : res ProcessList :=
  if count l <? MAX_PROCESSES then
    ps ← (processes l).[count l <- mkProcess (pid p) (stored_name (name p)) (rss p) (virtual_size p) (cpu_time p) (start_time p)
                                    (nice p) (oom_score_adj p) (is_privileged p)];
    n ← iadd (count l) 1;
    Ok (mkList ps n)
  else Ok l.

Section score.
Context (log2f : cfloat -> cfloat).

Definition calculate_oom_score (p : Process) (current_time : Z) : res cfloat :=
  let score := f32_of_int 0 in
  let score := f32_add score (f32_mul (f32_of_int 10) (log2f (f32_div (f32_of_int (rss p)) (f32_of_int 1024)))) in
  let score := f32_add score (log2f (f32_div (f32_of_int (cpu_time p)) (f32_of_int 1000))) in
  lifetime ← long_of (current_time - start_time p);
  let score := f32_sub score (log2f (f32_div (f32_of_int lifetime) (f32_of_int 3600))) in
  let score := f32_add score (f32_of_int (nice p)) in
  let score := f32_add score (f32_of_int (oom_score_adj p)) in
  Ok (if is_privileged p then f32_sub score (f32_of_int 100) else score).

Definition lowest_score : cfloat := f32_of_int (-1000000).

(** The index of the victim; [current_time] is the result of [time]. *)
Definition victim_step (l : ProcessList) (current_time i : Z) (st : option Z * cfloat) : res (option Z * cfloat) :=
  p ← (processes l).[i];
  score ← calculate_oom_score p current_time;
  Ok (if fgt score (snd st) then (Some i, score) else st).

Definition select_oom_victim (l : ProcessList) (current_time : Z) : res (option Z) :=
  '(victim, _) ← for_range (Z.to_nat (count l)) 0 (victim_step l current_time) (None, lowest_score);
  Ok victim.

(** The process number and name that are printed on termination. *)
Definition terminate_process (victim : Process) : Z * list Z := (pid victim, c_string (name victim)).

Definition web_server : list Z := [119; 101; 98; 95; 115; 101; 114; 118; 101; 114].
Definition database : list Z := [100; 97; 116; 97; 98; 97; 115; 101].
Definition user_app : list Z := [117; 115; 101; 114; 95; 97; 112; 112].

(** [t1] to [t4] are the results of [time]. *)
Definition oom_main (uninit : list Process) (t1 t2 t3 t4 : Z) : res (option (Z * list Z)) :=
  let l := initialize_process_list (mkList uninit 0) in
  l ← add_process l (mkProcess 1001 web_server 1024000 2048000 5000 (t1 - 3600) 0 0 false);
  l ← add_process l (mkProcess 1002 database 2048000 4096000 10000 (t2 - 7200) (-5) (-100) true);
  l ← add_process l (mkProcess 1003 user_app 512000 1024000 2000 (t3 - 1800) 0 0 false);
  v ← select_oom_victim l t4;
  match v with
  | Some i => p ← (processes l).[i]; Ok (Some (terminate_process p))
  | None => Ok None
  end.

(** ** The victim has the largest score *)

Record list_ok (l : ProcessList) : Prop := {
  l_count : 0 <= count l <= MAX_PROCESSES;
  l_len : len (processes l) = MAX_PROCESSES
}.

Lemma add_entry_ok l p : list_ok l -> exists l', add_process l p = Ok l' /\ list_ok l' /\
  take (Z.to_nat (count l')) (processes l') =
    take (Z.to_nat (count l)) (processes l) ++
    (if count l <? MAX_PROCESSES then [mkProcess (pid p) (stored_name (name p)) (rss p) (virtual_size p) (cpu_time p) (start_time p) (nice p) (oom_score_adj p) (is_privileged p)] else []).
Proof.
  intros [Hc Hl]. unfold add_process, MAX_PROCESSES in *. destruct (Z.ltb_spec (count l) 100).
  - rewrite arr_write_Ok, bind_ret_l, iadd_Ok, bind_ret_l by (int_side || lia). eexists. split; [done|]. split.
    + constructor; simpl; unfold MAX_PROCESSES; rewrite ?length_zset; lia.
    + simpl. erewrite take_S_zget by (apply zget_zset_eq; lia). f_equal. rewrite take_zset. unfold zset. case_cond; [|done]. apply list_insert_ge. rewrite length_take. lia.
  - exists l. split; [done|]. split; [done|]. by rewrite app_nil_r.
Qed.

(** The score as a function of the process. *)
Definition score_of (t : Z) (p : Process) : cfloat := match calculate_oom_score p t with Ok s => s | Fault _ => S754_nan end.

Definition ages_fit (t : Z) (l : ProcessList) : Prop := Forall (fun p => - 2 ^ 63 <= t - start_time p < 2 ^ 63) (processes l).

Lemma score_Ok t p : - 2 ^ 63 <= t - start_time p < 2 ^ 63 -> calculate_oom_score p t = Ok (score_of t p).
Proof.
  intros H. unfold score_of, calculate_oom_score, long_of.
  rewrite (proj2 (Z.leb_le _ _)), (proj2 (Z.ltb_lt _ _)) by lia. done.
Qed.

Definition eligible (t : Z) (p : Process) : bool := fgt (score_of t p) lowest_score.
Definition larger (t : Z) (p q : Process) : bool := key_lt (float_key (score_of t q)) (float_key (score_of t p)).

Lemma eligible_number t p : eligible t p = true -> is_nan (score_of t p) = false.
Proof. intros H. by apply flt_number in H as [_ ?]. Qed.

Lemma larger_fgt t p q : eligible t p = true -> eligible t q = true -> larger t p q = fgt (score_of t p) (score_of t q).
Proof. intros Hp Hq. unfold larger, fgt. symmetry. apply flt_key; by apply eligible_number. Qed.

Lemma not_eligible_smaller t p q : eligible t p = false -> eligible t q = true -> fgt (score_of t p) (score_of t q) = false.
Proof.
  intros Hp Hq. destruct (fgt (score_of t p) (score_of t q)) eqn:E; [|done]. pose proof (flt_number _ _ E) as [Nq Np].
  unfold eligible, fgt in *. rewrite flt_key in Hp, Hq, E by done. rewrite <- Hp.
  symmetry. exact (better_trans (StrictWeak := key_lt_order id) (float_key (score_of t p)) (float_key (score_of t q)) (float_key lowest_score) E Hq).
Qed.

Lemma victim_step_ok l t i best : list_ok l -> ages_fit t l -> 0 <= i < len (processes l) ->
  is_best (eligible t) (larger t) (processes l) i best ->
  let value b := match b with Some k => match zget (processes l) k with Some p => score_of t p | None => lowest_score end | None => lowest_score end in
  exists best', victim_step l t i (best, value best) = Ok (best', value best') /\ is_best (eligible t) (larger t) (processes l) (i + 1) best'.
Proof.
  intros Hl Ha Hi Hb value. destruct (best_step_ok (eligible t) (larger t) (processes l) i best Hi Hb) as (best' & Hs & Hb'). exists best'. split; [|done].
  unfold victim_step, best_step in *. destruct (zget_range (processes l) i Hi) as [p Hp]. rewrite (arr_read_Ok _ _ _ Hp), bind_ret_l in Hs. rewrite (arr_read_Ok _ _ _ Hp), bind_ret_l.
  rewrite score_Ok, bind_ret_l by (exact (Forall_zget _ _ _ _ Ha Hp)). cbn [snd]. destruct best as [k|].
  - destruct Hb as (_ & y & Hy & Ey & _). unfold value at 1. rewrite Hy. destruct (eligible t p) eqn:Ep.
    + rewrite (arr_read_Ok _ _ _ Hy), bind_ret_l in Hs. injection Hs as <-. rewrite <- larger_fgt by done.
      destruct (larger t p y); unfold value; by rewrite ?Hp, ?Hy.
    + injection Hs as <-. rewrite not_eligible_smaller by done. unfold value. by rewrite Hy.
  - change (fgt (score_of t p) (value None)) with (eligible t p). destruct (eligible t p); injection Hs as <-; unfold value; by rewrite ?Hp.
Qed.

(** The victim is the first process with the largest score among those above the
    lowest one, whatever the logarithm; there is none exactly when no score is above
    it, as for scores that are not numbers. *)
Theorem select_oom_victim_spec l t : list_ok l -> ages_fit t l ->
  exists v, select_oom_victim l t = Ok v /\
  match v with
  | None => forall i p, i < count l -> zget (processes l) i = Some p -> fgt (score_of t p) lowest_score = false
  | Some k => k < count l /\ exists q, zget (processes l) k = Some q /\ fgt (score_of t q) lowest_score = true /\
      forall i p, i < count l -> zget (processes l) i = Some p ->
        fgt (score_of t p) (score_of t q) = false /\ (i < k -> fgt (score_of t q) (score_of t p) = true \/ fgt (score_of t p) lowest_score = false)
  end.
Proof.
  intros Hl Ha. pose proof Hl as [Hc Hlen]. unfold select_oom_victim.
  set (value b := match b with Some k => match zget (processes l) k with Some p => score_of t p | None => lowest_score end | None => lowest_score end).
  destruct (for_range_inv (fun i st => snd st = value (fst st) /\ is_best (eligible t) (larger t) (processes l) i (fst st))
    (Z.to_nat (count l)) 0 (victim_step l t) (None, lowest_score)) as ([best m] & -> & _ & Hb).
  - split; [done|]. apply is_best_0.
  - intros i [best m] Hi [Em Hb]. cbn [fst snd] in *. subst m. destruct (victim_step_ok l t i best Hl Ha) as (best' & Hs & Hb'); [lia|done|].
    eexists. split; [exact Hs|]. done.
  - exists best. split; [done|]. cbn [fst] in Hb. replace (0 + Z.of_nat (Z.to_nat (count l))) with (count l) in Hb by lia. destruct best as [k|]; [|exact Hb].
    destruct Hb as (Hk & q & Hq & Eq & Hbest). split; [done|]. exists q. split; [done|]. split; [done|]. intros i p Hi Hp. destruct (eligible t p) eqn:Ep.
    + destruct (Hbest i p Hi Hp Ep) as [H1 H2]. rewrite <- (larger_fgt t p q), <- (larger_fgt t q p) by done. auto.
    + split; [by apply not_eligible_smaller|]. by right.
Qed.
End score.

Definition example_list : ProcessList := mkList (replicate 100 (mkProcess 1001 (stored_name web_server) 1024000 2048000 5000 0 0 0 false)) 3.

Lemma select_oom_victim_spec_witness : select_oom_victim id example_list 3600 = Ok (Some 0).
Proof.
  destruct (select_oom_victim_spec id example_list 3600) as (v & -> & Hv).
  - constructor; unfold MAX_PROCESSES; cbn [count processes example_list]; [lia|by rewrite length_replicate].
  - apply Forall_replicate. cbn [start_time]. lia.
  - f_equal. destruct v as [k|].
    + destruct Hv as (Hk & q & Hq & _ & Hbest). pose proof (zget_Some_range _ _ _ Hq) as [Hk0 _]. f_equal. destruct (decide (k = 0)); [done|exfalso].
      destruct (Hbest 0 q) as [H1 H2]; [done|by rewrite (zget_replicate _ _ _ _ Hq)|]. rewrite H1 in H2. destruct H2 as [|H2]; [lia|done|].
      rewrite (zget_replicate _ _ _ _ Hq) in H2. vm_compute in H2. discriminate.
    + specialize (Hv 0 (mkProcess 1001 (stored_name web_server) 1024000 2048000 5000 0 0 0 false)). exfalso.
      assert (false = true) by (rewrite <- Hv by done; vm_compute; reflexivity). done.
Defined.

(** With a process that used no time the logarithm of zero is minus infinity: it is
    never chosen, and with no other process there is no victim. *)
Lemma idle_process_spared :
  select_oom_victim (fun x => match x with S754_zero _ => S754_infinity true | _ => x end)
    (mkList (replicate 100 (mkProcess 1001 [] 1024000 2048000 0 0 0 1000 false)) 1) 3600 = Ok None.
Proof. vm_compute. reflexivity. Qed.
