(* ===== verification/Parallel.v ===== *)
(** * Arrays processed by threads ([memory/parallelComputing/parallel_processing.c],
    [memory/parallelComputing/simt.c])

    Threads run loops over parts of an array, one taking consecutive elements, the
    other every 128th.  The iterations of the threads interleave in any order; a step
    is one iteration. *)
From Stdlib Require Import ZArith Lia.
From stdpp Require Import base tactics list numbers option relations.
From S2P Require Import Prelude Float.

#[local] Open Scope Z_scope.
#[local] Open Scope c_scope.

(** A loop [for (i = cursor; i < bound; i += stride)] of a thread. *)
Record worker : Type := mkWorker { cursor : Z; bound : Z; stride : Z }.

Section interleaving.
Context {F : Type} (op : F -> F) (input : list F).

(** One iteration: [output[i] = op (input[i])]. *)
Definition iteration (i : Z) (output : list F) : res (list F) := x ← input.[i]; output.[i <- op x].

(** Thread [t] runs one iteration. *)
Inductive par_step : list worker * list F -> list worker * list F -> Prop :=
| par_iter ws output t w output' i' :
    zget ws t = Some w -> cursor w < bound w ->
    iteration (cursor w) output = Ok output' -> iadd (cursor w) (stride w) = Ok i' ->
    par_step (ws, output) (zset ws t (mkWorker i' (bound w) (stride w)), output').

Definition finished (ws : list worker) : Prop := Forall (fun w => bound w <= cursor w) ws.

(** Element [k] is one of those the loop of [w] runs over. *)
Definition owns (w : worker) (k : Z) : Prop := cursor w <= k < bound w /\ (k - cursor w) mod stride w = 0.

(** A worker after some of the iterations of [w]. *)
Definition progressed (w v : worker) : Prop :=
  bound v = bound w /\ stride v = stride w /\ cursor w <= cursor v /\ (cursor v - cursor w) mod stride w = 0 /\
  cursor v <= Z.max (cursor w) (bound w + stride w - 1).

Definition good (size : Z) (w : worker) : Prop := 0 < stride w /\ 0 <= cursor w /\ bound w <= size /\ size + stride w <= INT_MAX.

(** What holds of every state: workers have progressed, and the elements behind their
    cursors are done. *)
Definition par_inv (size : Z) (ws0 : list worker) (st : list worker * list F) : Prop :=
  let '(ws, output) := st in
  length ws = length ws0 /\ len output = size /\
  forall t w v, zget ws0 t = Some w -> zget ws t = Some v -> progressed w v /\
    forall k, owns w k -> k < cursor v -> zget output k = op <$> zget input k.

Lemma par_inv_init size ws output : len output = size -> Forall (good size) ws -> par_inv size ws (ws, output).
Proof.
  intros Ho Hg. split_and!; [done..|]. intros t w v Hw Hv. assert (v = w) as -> by congruence. pose proof (Forall_zget _ _ _ _ Hg Hw) as (Hs & _). split.
  - unfold progressed. rewrite Z.sub_diag, Z.mod_0_l by lia. split_and!; (done || lia).
  - intros k [Hk _] Hlt. lia.
Qed.

Lemma par_inv_step size ws0 st st' : len input = size -> Forall (good size) ws0 -> par_inv size ws0 st -> par_step st st' -> par_inv size ws0 st'.
Proof.
  intros Hin Hg HI Hs. destruct Hs as [ws output t w output' i' Hw Hlt Hit Hi']. destruct HI as (Hl & Ho & HI).
  apply iadd_inv in Hi' as [-> _]. unfold iteration in Hit. apply bind_Ok in Hit as (x & Hx%arr_read_inv & Hwr). apply arr_write_inv in Hwr as [-> Hr].
  split_and!; [by rewrite length_zset|by rewrite length_zset|]. intros t' w0 v Hw0 Hv.
  assert (forall k, zget output k = op <$> zget input k -> zget (zset output (cursor w) (op x)) k = op <$> zget input k) as Hkeep.
  { intros k Hk. destruct (decide (k = cursor w)) as [->|]; [rewrite zget_zset_eq by done; by rewrite Hx|by rewrite zget_zset_ne]. }
  destruct (zget_zset_inv _ _ _ _ _ Hv) as [[-> ->]|[Hne Hv']].
  - destruct (HI t w0 w Hw0 Hw) as [(Hb & Hst & Hc & Hm & Hmax) Hd]. pose proof (Forall_zget _ _ _ _ Hg Hw0) as (Hs & _ & _ & _). split.
    + unfold progressed. simpl. rewrite Hb, Hst. split_and!; [done|done|lia| |lia].
      replace (cursor w + stride w0 - cursor w0) with (cursor w - cursor w0 + 1 * stride w0) by lia. by rewrite Z.mod_add by lia.
    + intros k Hk. simpl. rewrite Hst. intros Hlt'. destruct (decide (k < cursor w)) as [Hkw|Hkw]; [by apply Hkeep, Hd|].
      assert (k = cursor w) as ->; [|rewrite zget_zset_eq by done; by rewrite Hx].
      destruct Hk as [_ Hk]. apply Z.mod_divide in Hk as [q Hq]; [|lia]. apply Z.mod_divide in Hm as [q' Hq']; [|lia].
      assert ((q - q') * stride w0 = k - cursor w) as E by lia. assert (q - q' = 0) as E0 by nia. rewrite E0 in E. lia.
  - destruct (HI t' w0 v Hw0 Hv') as [Hp Hd]. split; [done|]. intros k Hk Hlt'. by apply Hkeep, Hd.
Qed.

Lemma par_inv_reach size ws output st : len input = size -> len output = size -> Forall (good size) ws ->
  rtc par_step (ws, output) st -> par_inv size ws st.
Proof.
  intros Hin Ho Hg. apply (rtc_ind_r (R := par_step) (par_inv size ws)); [by apply par_inv_init|].
  intros st1 st2 _ Hs HI. by eapply par_inv_step.
Qed.

(** A thread that has iterations left can run one. *)
Lemma par_progress size ws0 ws output t v : len input = size -> Forall (good size) ws0 -> par_inv size ws0 (ws, output) ->
  zget ws t = Some v -> cursor v < bound v -> exists st', par_step (ws, output) st'.
Proof.
  intros Hin Hg (Hl & Ho & HI) Hv Hlt. destruct (zget_range ws0 t) as [w Hw]; [pose proof (zget_Some_range _ _ _ Hv); lia|].
  destruct (HI t w v Hw Hv) as [(Hb & Hst & Hc & _) _]. pose proof (Forall_zget _ _ _ _ Hg Hw) as (Hs & H0 & Hbs & Hmax).
  destruct (zget_range input (cursor v)) as [x Hx]; [lia|]. eexists. eapply par_iter; [exact Hv|done| |].
  - unfold iteration. rewrite (arr_read_Ok _ _ _ Hx), bind_ret_l. apply arr_write_Ok. lia.
  - apply iadd_Ok. unfold INT_MIN. lia.
Qed.

(** The distance of the cursors from their bounds. *)
Definition left_over (ws : list worker) : Z := total (fun w => Z.max 0 (bound w - cursor w)) ws.

Lemma par_step_decreases size ws0 st st' : Forall (good size) ws0 -> par_inv size ws0 st -> par_step st st' -> left_over (fst st') < left_over (fst st).
Proof.
  intros Hg HI Hs. destruct Hs as [ws output t w output' i' Hw Hlt _ Hi']. apply iadd_inv in Hi' as [-> _]. destruct HI as (Hl & _ & HI).
  destruct (zget_range ws0 t) as [w0 Hw0]; [pose proof (zget_Some_range _ _ _ Hw); lia|].
  destruct (HI t w0 w Hw0 Hw) as [(Hb & Hst & _) _]. pose proof (Forall_zget _ _ _ _ Hg Hw0) as (Hs & _).
  unfold left_over. simpl fst. rewrite (total_zset _ _ _ _ _ Hw). simpl. lia.
Qed.

(** When the loops of the threads cover the array, every execution stops with all of
    it done. *)
Lemma par_result size ws output st : len input = size -> len output = size -> Forall (good size) ws ->
  (forall k, 0 <= k < size -> exists t w, zget ws t = Some w /\ owns w k) ->
  rtc par_step (ws, output) st ->
  (finished (fst st) -> snd st = op <$> input) /\ (finished (fst st) \/ exists st', par_step st st' /\ left_over (fst st') < left_over (fst st)).
Proof.
  intros Hin Ho Hg Hcov Hr. pose proof (par_inv_reach _ _ _ _ Hin Ho Hg Hr) as HI. destruct st as [ws' output']. simpl. split.
  - intros Hf. destruct HI as (Hl & Ho' & HI). apply list_eq_zget; [by rewrite length_fmap; lia|]. intros k Hk.
    destruct (Hcov k) as (t & w & Hw & Hown); [lia|]. destruct (zget_range ws' t) as [v Hv]; [pose proof (zget_Some_range _ _ _ Hw); lia|].
    destruct (HI t w v Hw Hv) as [(Hb & _) Hd]. rewrite zget_fmap. apply Hd; [done|]. pose proof (Forall_zget _ _ _ _ Hf Hv) as Hv'. simpl in Hv'. destruct Hown as [Hown _]. lia.
  - destruct (decide (Forall (fun w => bound w <= cursor w) ws')) as [Hf|Hf]; [by left|right].
    apply not_Forall_Exists in Hf; [|intros w; apply _]. apply Exists_exists in Hf as (v & Hv & Hlt). apply elem_of_zget in Hv as [t Hv]. simpl in Hlt.
    destruct (par_progress size ws ws' output' t v Hin Hg HI Hv) as [st' Hs]; [lia|]. exists st'. split; [done|].
    exact (par_step_decreases size ws (ws', output') st' Hg HI Hs).
Qed.

(** An execution by a list of threads, each of which runs its next iteration. *)
Fixpoint par_run (schedule : list Z) (st : list worker * list F) : res (list worker * list F) :=
  match schedule with
  | [] => Ok st
  | t :: schedule =>
      let '(ws, output) := st in
      w ← ws.[t];
      if cursor w <? bound w then
        output ← iteration (cursor w) output;
        i ← iadd (cursor w) (stride w);
        ws ← ws.[t <- mkWorker i (bound w) (stride w)];
        par_run schedule (ws, output)
      else par_run schedule st
  end.

Lemma par_run_reach schedule : forall st st', par_run schedule st = Ok st' -> rtc par_step st st'.
Proof.
  induction schedule as [|t schedule IH]; intros st st'; [intros [= <-]; apply rtc_refl|]. destruct st as [ws output]. cbn [par_run].
  intros (w & Hw%arr_read_inv & H)%bind_Ok. destruct (Z.ltb_spec (cursor w) (bound w)); [|by apply IH].
  apply bind_Ok in H as (o & Ho & (i & Hi & (ws' & Hws & H)%bind_Ok)%bind_Ok). apply arr_write_inv in Hws as [-> _].
  eapply rtc_l; [by eapply par_iter|]. by apply IH.
Qed.
End interleaving.

(** The workers of threads [tid], [tid + 1], ... *)
Fixpoint start_threads (mk : Z -> res worker) (n : nat) (tid : Z) : res (list worker) :=
  match n with
  | O => Ok []
  | S n => w ← mk tid; ws ← start_threads mk n (tid + 1); Ok (w :: ws)
  end.

Lemma start_threads_ok mk (f : Z -> worker) n : forall tid, (forall t, tid <= t < tid + Z.of_nat n -> mk t = Ok (f t)) ->
  start_threads mk n tid = Ok (f <$> seqZ tid (Z.of_nat n)).
Proof.
  induction n as [|n IH]; intros tid H; [done|]. cbn [start_threads]. rewrite H, bind_ret_l by lia. rewrite IH by (intros t Ht; apply H; lia).
  rewrite bind_ret_l. f_equal. rewrite (seqZ_cons tid) by lia. simpl. do 3 f_equal; lia.
Qed.

Lemma zget_threads (f : Z -> worker) n t w : zget (f <$> seqZ 0 n) t = Some w -> 0 <= t < n /\ w = f t.
Proof.
  intros H. pose proof (zget_Some_range _ _ _ H) as Hr. rewrite length_fmap, length_seqZ in Hr.
  rewrite zget_fmap, zget_seqZ in H by lia. injection H as <-. split; [lia|done].
Qed.

Definition RAND_MAX : Z := 2147483647.

(** [input[i] = (float)rand() / RAND_MAX] for the whole array. *)
Definition random_input (rnd : Z -> Z) (size : Z) (mem : list cfloat) : res (list cfloat) :=
  for_range (Z.to_nat size) 0 (fun i a => a.[i <- f32_div (f32_of_int (rnd i)) (f32_of_int RAND_MAX)]) mem.

(** The body of both programs: the arrays are what [malloc] returned, the threads run
    by a schedule, the first elements are printed. *)
Definition run_threads (op : cfloat -> cfloat) (threads : res (list worker)) (size : Z) (mem_in mem_out : option (list cfloat)) (rnd : Z -> Z) (schedule : list Z)
    : res (list cfloat * list cfloat) :=
  input ← match mem_in with Some m => random_input rnd size m | None => Fault NullDeref end;
  ws ← threads;
  output ← match mem_out with Some m => Ok m | None => Fault NullDeref end;
  '(_, output) ← par_run op input schedule (ws, output);
  a ← copy_from input 0 5; b ← copy_from output 0 5;
  Ok (a, b).

(** ** Consecutive elements: [parallel_processing.c] *)

Module Chunks.

Definition NUM_THREADS : Z := 8.

(** [output[i] = input[i] * 2.0f + 1.0f]. *)
Definition element_op (x : cfloat) : cfloat := f32_add (f32_mul x (f32_of_int 2)) (f32_of_int 1).

Definition chunk_worker (size thread_id : Z) : res worker :=
  chunk_size ← idiv size NUM_THREADS;
  start ← imul thread_id chunk_size;
  e ← (if thread_id =? NUM_THREADS - 1 then Ok size else iadd start chunk_size);
  Ok (mkWorker start e 1).

Definition parallel_array_operation (size : Z) : res (list worker) := start_threads (chunk_worker size) (Z.to_nat NUM_THREADS) 0.

Definition chunks_main (mem_in mem_out : option (list cfloat)) (rnd : Z -> Z) (schedule : list Z) : res (list cfloat * list cfloat) :=
  run_threads element_op (parallel_array_operation 1000000) 1000000 mem_in mem_out rnd schedule.

(** The bounds of a thread's part. *)
Definition part (size t : Z) : worker := mkWorker (t * (size / 8)) (if t =? 7 then size else t * (size / 8) + size / 8) 1.

Lemma chunk_bounds size : 0 <= size -> 0 <= 8 * (size / 8) <= size.
Proof. intros H. pose proof (Z.mul_div_le size 8). pose proof (Z.div_pos size 8). lia. Qed.

Lemma part_end size t : 0 <= size -> 0 <= t < 8 -> 0 <= t * (size / 8) /\ t * (size / 8) + size / 8 <= size.
Proof. intros Hs Ht. pose proof (chunk_bounds size Hs) as Hc. revert Hc. generalize (size / 8). intros c Hc. nia. Qed.

Lemma chunk_worker_ok size t : 0 <= size < INT_MAX -> 0 <= t < 8 -> chunk_worker size t = Ok (part size t).
Proof.
  intros Hs Ht. pose proof (part_end size t ltac:(lia) Ht) as [H1 H2]. pose proof (chunk_bounds size ltac:(lia)). unfold chunk_worker, NUM_THREADS, part.
  rewrite idiv_Ok, bind_ret_l by lia. rewrite imul_Ok, bind_ret_l by (unfold INT_MIN, INT_MAX in *; lia). change (8 - 1) with 7. destruct (Z.eqb_spec t 7); [done|].
  rewrite iadd_Ok, bind_ret_l; [done|unfold INT_MIN, INT_MAX in *; lia].
Qed.

(** A part ends where the next begins or before. *)
Lemma part_before size t t' k : 0 <= size -> 0 <= t < t' -> t' < 8 -> owns (part size t) k -> owns (part size t') k -> False.
Proof.
  intros Hs Ht Ht' [Hk _] [Hk' _]. unfold part in *. simpl in *. pose proof (chunk_bounds size Hs) as Hc. destruct (Z.eqb_spec t 7); [lia|].
  revert Hk Hk' Hc. generalize (size / 8). intros c Hk Hk' Hc. assert ((t + 1) * c <= t' * c) by (apply Z.mul_le_mono_nonneg_r; lia). lia.
Qed.

Lemma part_covers size k : 0 <= k < size -> exists t, 0 <= t < 8 /\ owns (part size t) k.
Proof.
  intros Hk. pose proof (chunk_bounds size ltac:(lia)) as Hc. unfold owns, part. simpl. revert Hc. generalize (size / 8). intros c Hc.
  destruct (Z.ltb_spec k (7 * c)) as [Hlt|Hge].
  - assert (0 < c) as Hc0 by lia. pose proof (Z.mul_div_le k c Hc0). pose proof (Z.mul_succ_div_gt k c Hc0).
    assert (k / c < 7) by (apply Z.div_lt_upper_bound; lia). pose proof (Z.div_pos k c).
    exists (k / c). rewrite Z.mod_1_r. destruct (Z.eqb_spec (k / c) 7); lia.
  - exists 7. rewrite Z.mod_1_r. simpl. lia.
Qed.

(** C33.  In [parallel_processing.c] the parts of the eight threads are disjoint, and
    every interleaving of their iterations ends with each element computed from its
    own input; until then some thread can go on. *)
Theorem parallel_array_correct size input output : 0 <= size < INT_MAX -> len input = size -> len output = size ->
  exists ws, parallel_array_operation size = Ok ws /\
  (forall t t' w w' k, zget ws t = Some w -> zget ws t' = Some w' -> owns w k -> owns w' k -> t = t') /\
  forall st, rtc (par_step element_op input) (ws, output) st ->
    (finished (fst st) -> snd st = element_op <$> input) /\
    (finished (fst st) \/ exists st', par_step element_op input st st' /\ left_over (fst st') < left_over (fst st)).
Proof.
  intros Hs Hi Ho. exists (part size <$> seqZ 0 8). split.
  { unfold parallel_array_operation. rewrite (start_threads_ok _ (part size)); [done|]. intros t Ht. apply chunk_worker_ok; unfold NUM_THREADS in *; lia. }
  split.
  - intros t t' w w' k [Ht ->]%zget_threads [Ht' ->]%zget_threads Hk Hk'.
    destruct (Z.lt_trichotomy t t') as [H|[->|H]]; [|done|]; exfalso; [apply (part_before size t t' k)|apply (part_before size t' t k)]; (done || lia).
  - intros st Hr. apply (par_result element_op input size (part size <$> seqZ 0 8) output st Hi Ho); [| |done].
    + apply list.Forall_forall. intros w (t & -> & Ht%elem_of_seqZ)%list_elem_of_fmap. pose proof (part_end size t ltac:(lia) ltac:(lia)).
      unfold good, part. simpl. destruct (Z.eqb_spec t 7); lia.
    + intros k Hk. rewrite <- Hi in Hk. destruct (part_covers size k) as (t & Ht & Hown); [lia|].
      exists t, (part size t). split; [|done]. by rewrite zget_fmap, zget_seqZ by lia.
Qed.

(** Sixteen elements, two for each thread, the last thread first. *)
Lemma parallel_array_correct_witness : exists ws st, parallel_array_operation 16 = Ok ws /\
  rtc (par_step element_op (replicate 16 (f32_of_int 3))) (ws, replicate 16 (f32_of_int 0)) st /\ snd st = replicate 16 (f32_of_int 7).
Proof.
  destruct (parallel_array_correct 16 (replicate 16 (f32_of_int 3)) (replicate 16 (f32_of_int 0))) as (ws & Hws & _ & H); [unfold INT_MAX; lia|done|done|].
  vm_compute in Hws. injection Hws as <-.
  destruct (par_run element_op (replicate 16 (f32_of_int 3)) [7; 6; 5; 4; 3; 2; 1; 0; 0; 1; 2; 3; 4; 5; 6; 7]
    ([mkWorker 0 2 1; mkWorker 2 4 1; mkWorker 4 6 1; mkWorker 6 8 1; mkWorker 8 10 1; mkWorker 10 12 1; mkWorker 12 14 1; mkWorker 14 16 1],
     replicate 16 (f32_of_int 0))) as [st|e] eqn:E; [|vm_compute in E; discriminate].
  pose proof (par_run_reach _ _ _ _ _ E) as Hr. eexists _, st. split; [done|]. split; [exact Hr|]. rewrite (proj1 (H st Hr)); [done|].
  vm_compute in E. injection E as <-. unfold finished. simpl. repeat constructor; simpl; lia.
Defined.
End Chunks.

(** ** Every 128th element: [simt.c] *)

Module Stride.

Definition TOTAL_THREADS : Z := 128.

(** The branch on [input[i] > 0.5f]. *)
Definition diverge (x : cfloat) : cfloat :=
  if fgt x (f32_div (f32_of_int 1) (f32_of_int 2)) then f32_mul x x else f32_mul x (f32_of_int 2).

Definition simt_thread (size tid : Z) : res worker := Ok (mkWorker tid size TOTAL_THREADS).

Definition simt_threads (size : Z) : res (list worker) := start_threads (simt_thread size) (Z.to_nat TOTAL_THREADS) 0.

Definition simt_main (mem_in mem_out : option (list cfloat)) (rnd : Z -> Z) (schedule : list Z) : res (list cfloat * list cfloat) :=
  run_threads diverge (simt_threads 1024) 1024 mem_in mem_out rnd schedule.

(** In [simt.c] no two of the 128 threads write the same element, and every
    interleaving of their iterations ends with each element computed from its own
    input by the branch its value takes; until then some thread can go on. *)
Theorem simt_correct size input output : 0 <= size <= INT_MAX - 128 -> len input = size -> len output = size ->
  exists ws, simt_threads size = Ok ws /\
  (forall t t' w w' k, zget ws t = Some w -> zget ws t' = Some w' -> owns w k -> owns w' k -> t = t') /\
  forall st, rtc (par_step diverge input) (ws, output) st ->
    (finished (fst st) -> snd st = diverge <$> input) /\
    (finished (fst st) \/ exists st', par_step diverge input st st' /\ left_over (fst st') < left_over (fst st)).
Proof.
  intros Hs Hi Ho. set (mk := fun tid => mkWorker tid size TOTAL_THREADS). exists (mk <$> seqZ 0 128). split; [unfold simt_threads; by rewrite (start_threads_ok _ mk)|]. split.
  - intros t t' w w' k [Ht ->]%zget_threads [Ht' ->]%zget_threads [Hk Hm] [Hk' Hm']. unfold mk, TOTAL_THREADS in *. simpl in *. dlia.
  - intros st Hr. apply (par_result diverge input size (mk <$> seqZ 0 128) output st Hi Ho); [| |done].
    + apply list.Forall_forall. intros w (t & -> & Ht%elem_of_seqZ)%list_elem_of_fmap. unfold good, mk, TOTAL_THREADS. simpl. lia.
    + intros k Hk. exists (k mod 128), (mk (k mod 128)). split; [rewrite zget_fmap, zget_seqZ; [done|dlia]|].
      unfold owns, mk, TOTAL_THREADS. simpl. dlia.
Qed.

Lemma simt_correct_witness : exists ws st, simt_threads 2 = Ok ws /\
  rtc (par_step diverge [f32_of_int 3; f32_of_int 0]) (ws, replicate 2 (f32_of_int 0)) st /\ snd st = [f32_of_int 9; f32_of_int 0].
Proof.
  destruct (simt_correct 2 [f32_of_int 3; f32_of_int 0] (replicate 2 (f32_of_int 0))) as (ws & Hws & _ & H); [unfold INT_MAX; lia|done|done|].
  destruct (par_run diverge [f32_of_int 3; f32_of_int 0] [1; 0] (ws, replicate 2 (f32_of_int 0))) as [st|e] eqn:E.
  - pose proof (par_run_reach _ _ _ _ _ E) as Hr. exists ws, st. split; [done|]. split; [exact Hr|]. rewrite (proj1 (H st Hr)); [done|].
    vm_compute in Hws. injection Hws as <-. vm_compute in E. injection E as <-. unfold finished. simpl. repeat constructor; simpl; lia.
  - vm_compute in Hws. injection Hws as <-. vm_compute in E. discriminate.
Defined.
End Stride.
