(* ===== verification/TensorTiles.v ===== *)
(** * Matrix multiplication in tiles with a bias ([memory/parallelComputing/matrix_mul.c])

    The tiles of the result are computed in parallel, each in a buffer of its own that
    collects the sums of the blocks.  Arithmetic and storage are those of [MatMul]. *)
From Stdlib Require Import ZArith Lia.
From stdpp Require Import base tactics list numbers option.
From S2P Require Import Prelude Float MatMul.

#[local] Open Scope Z_scope.
#[local] Open Scope c_scope.

Definition BLOCK_SIZE : Z := 32.
Definition MATRIX_SIZE : Z := 1024.

(** [float]; the products and sums of the program are rounded one by one. *)
#[export] Instance float_arith : Arith cfloat := {
  zero := f32_of_int 0;
  add := f32_add;
  mul := f32_mul;
  fma x y z := f32_add (f32_mul x y) z
}.

Section code.
Context {F : Type} `{Arith F}.

(** The loop over [bk]. *)
Definition block_dot (A B : list F) (N K i j k bi bj : Z) : res F :=
  for_range (Z.to_nat BLOCK_SIZE) 0 (fun bk sum =>
    x ← mat_read K A (i + bi) (k + bk);
    y ← mat_read N B (k + bk) (j + bj);
    Ok (add sum (mul x y))) zero.

(** The loops over [bi] and [bj] for one [k]. *)
Definition add_block (A B : list F) (N K i j k : Z) (temp : rows F) : res (rows F) :=
  for_range (Z.to_nat BLOCK_SIZE) 0 (fun bi temp =>
    for_range (Z.to_nat BLOCK_SIZE) 0 (fun bj temp =>
      sum ← block_dot A B N K i j k bi bj;
      t ← mat_read BLOCK_SIZE temp bi bj;
      mat_write BLOCK_SIZE temp bi bj (add t sum)) temp) temp.

(** One iteration of the parallel loops over [i] and [j]. *)
Definition tensor_tile (A B C : list F) (N K i j : Z) (D : list F) : res (list F) :=
  temp ← for_step (passes 0 K BLOCK_SIZE) 0 BLOCK_SIZE (add_block A B N K i j)
           (replicate (Z.to_nat BLOCK_SIZE) (replicate (Z.to_nat BLOCK_SIZE) zero) : rows F);
  for_range (Z.to_nat BLOCK_SIZE) 0 (fun bi D =>
    for_range (Z.to_nat BLOCK_SIZE) 0 (fun bj D =>
      t ← mat_read BLOCK_SIZE temp bi bj;
      c ← mat_read N C (i + bi) (j + bj);
      mat_write N D (i + bi) (j + bj) (add t c)) D) D.

Fixpoint run_tiles (A B C : list F) (N K : Z) (schedule : list (Z * Z)) (D : list F) : res (list F) :=
  match schedule with
  | [] => Ok D
  | (i, j) :: schedule => D ← tensor_tile A B C N K i j D; run_tiles A B C N K schedule D
  end.

(** The iterations of the two parallel loops, in source order. *)
Definition tensor_tiles (M N : Z) : list (Z * Z) := i ← tile_origins M BLOCK_SIZE; j ← tile_origins N BLOCK_SIZE; [(i, j)].

(** [order] is the order in which the threads run the iterations. *)
Definition tensor_core_simulation (order : list (Z * Z) -> list (Z * Z)) (A B C : list F) (M N K : Z) (D : list F) : res (list F) :=
  run_tiles A B C N K (order (tensor_tiles M N)) D.

(** The arrays are what [malloc] returned; the corner of the result is printed. *)
Definition tensor_main (order : list (Z * Z) -> list (Z * Z)) (A B C D : option (list F)) (rnd : Z -> Z -> F) : res (list F) :=
  match A, B, C, D with
  | Some A, Some B, Some C, Some D =>
      '(A, B, C) ← for_range (Z.to_nat (MATRIX_SIZE * MATRIX_SIZE)) 0 (fun i '(A, B, C) =>
        A ← A.[i <- rnd i 0]; B ← B.[i <- rnd i 1]; C ← C.[i <- rnd i 2]; Ok (A, B, C)) (A, B, C);
      D ← tensor_core_simulation order A B C MATRIX_SIZE MATRIX_SIZE MATRIX_SIZE D;
      d00 ← D.[0]; d01 ← D.[1]; d10 ← D.[MATRIX_SIZE]; d11 ← D.[MATRIX_SIZE + 1]; Ok [d00; d01; d10; d11]
  | _, _, _, _ => Fault NullDeref
  end.

(** ** Rectangles *)

(** The flat array [m] has [R] rows of [W] elements, which are [f r c]. *)
Definition rect_shape (R W : Z) (m : list F) : Prop := len m = R * W /\ R * W <= INT_MAX.
Definition is_rect (R W : Z) (m : list F) (f : Z -> Z -> F) : Prop :=
  rect_shape R W m /\ forall i j, 0 <= i < R -> 0 <= j < W -> mat_read W m i j = Ok (f i j).

Lemma rect_index R W i j : 0 <= i < R -> 0 <= j < W -> R * W <= INT_MAX -> flat_index W i j = Ok (i * W + j) /\ 0 <= i * W + j < R * W.
Proof.
  intros Hi Hj HR. assert (0 <= i * W + j < R * W) by nia. split; [|done]. unfold flat_index.
  rewrite imul_Ok, bind_ret_l, iadd_Ok; [done|unfold INT_MIN; nia..].
Qed.

Lemma rect_ext R W m f g : (forall i j, 0 <= i < R -> 0 <= j < W -> f i j = g i j) -> is_rect R W m f -> is_rect R W m g.
Proof. intros Hfg [Hs Hf]. split; [done|]. intros i j Hi Hj. by rewrite Hf, Hfg. Qed.

Lemma shape_is_rect R W m : rect_shape R W m -> is_rect R W m (elem W m).
Proof.
  intros [Hl HR]. split; [done|]. intros i j Hi Hj. unfold elem. destruct (rect_index R W i j Hi Hj HR) as [E Hb]. cbn. rewrite E, bind_ret_l.
  destruct (zget_range m (i * W + j)) as [x Hx]; [lia|]. by rewrite (arr_read_Ok _ _ _ Hx).
Qed.

Lemma write_rect R W m f i j x : is_rect R W m f -> 0 <= i < R -> 0 <= j < W ->
  exists m', mat_write W m i j x = Ok m' /\ is_rect R W m' (upd f i j x).
Proof.
  intros [[Hl HR] Hf] Hi Hj. destruct (rect_index R W i j Hi Hj HR) as [E Hb]. cbn. rewrite E, bind_ret_l, arr_write_Ok by lia. eexists. split; [done|].
  split; [split; [by rewrite length_zset|done]|]. intros r c Hr Hc. destruct (rect_index R W r c Hr Hc HR) as [E' Hb']. specialize (Hf r c Hr Hc). cbn in Hf |- *.
  rewrite E', bind_ret_l in *. unfold upd. case_cond.
  - assert (r = i /\ c = j) as [-> ->] by lia. apply arr_read_Ok, zget_zset_eq. lia.
  - unfold arr_read in *. rewrite zget_zset_ne; [done|]. intros He. assert (r = i) by nia. subst r. lia.
Qed.

(** ** What a tile computes *)

(** The sum of a block, and the sums of the first [n] blocks. *)
Definition block_sum (a b : Z -> Z -> F) (k r c : Z) : F := partial (fun r q c acc => add acc (mul (a r (k + q)) (b (k + q) c))) BLOCK_SIZE r c.

Definition tile_sum (a b : Z -> Z -> F) (n r c : Z) : F := partial (fun r m c acc => add acc (block_sum a b (m * BLOCK_SIZE) r c)) n r c.

Definition tensor_elem (a b : Z -> Z -> F) (bias : Z -> Z -> F) (K r c : Z) : F := add (tile_sum a b (K / BLOCK_SIZE) r c) (bias r c).

(** [f] with the values [v] in the first [i] rows, and [j] elements of the next one, of
    a rectangle with [n] columns at [oi], [oj]. *)
Definition patched (oi oj n i j : Z) (v f : Z -> Z -> F) : Z -> Z -> F := fun r c =>
  if ((oi <=? r) && (r <? oi + i) && ((oj <=? c) && (c <? oj + n))) || ((r =? oi + i) && ((oj <=? c) && (c <? oj + j))) then v (r - oi) (c - oj) else f r c.

(** Two nested loops that change each element of a square once; [holds C f] says that the
    elements of [C] are those of [f]. *)
Lemma update_square {S} (holds : S -> (Z -> Z -> F) -> Prop) n oi oj (v f : Z -> Z -> F) (body : Z -> Z -> S -> res S) C :
  (forall C f g, (forall r c, f r c = g r c) -> holds C f -> holds C g) -> 0 <= n -> holds C f ->
  (forall i j g C, 0 <= i < n -> 0 <= j < n -> holds C g -> g (oi + i) (oj + j) = f (oi + i) (oj + j) ->
     exists C', body i j C = Ok C' /\ holds C' (upd g (oi + i) (oj + j) (v i j))) ->
  exists C', for_range (Z.to_nat n) 0 (fun i C => for_range (Z.to_nat n) 0 (fun j C => body i j C) C) C = Ok C' /\
    holds C' (patched oi oj n n 0 v f).
Proof.
  intros Hext Hn HC Hbody.
  destruct (for_range_inv (fun i C => holds C (patched oi oj n i 0 v f)) (Z.to_nat n) 0
    (fun i C => for_range (Z.to_nat n) 0 (fun j C => body i j C) C) C) as (C' & HC' & HI).
  - eapply Hext; [|exact HC]. intros r c. unfold patched. case_cond; [lia|done].
  - intros i C1 Hi1 HC1.
    destruct (for_range_inv (fun j C => holds C (patched oi oj n i j v f)) (Z.to_nat n) 0 (fun j C => body i j C) C1) as (C2 & HC2 & HI2).
    + done.
    + intros j C2 Hj2 HC2. destruct (Hbody i j _ C2 ltac:(lia) ltac:(lia) HC2) as (C3 & HC3 & HI3); [unfold patched; case_cond; [lia|done]|].
      exists C3. split; [done|]. eapply Hext; [|exact HI3]. intros r c. unfold upd, patched.
      destruct (Z.eqb_spec r (oi + i)), (Z.eqb_spec c (oj + j)); cbn [andb]; repeat case_cond; try done; try lia. do 2 f_equal; lia.
    + replace (0 + Z.of_nat (Z.to_nat n)) with n in HI2 by lia. exists C2. split; [done|]. eapply Hext; [|exact HI2].
      intros r c. unfold patched. destruct (Z.eqb_spec r (oi + i)), (Z.eqb_spec r (oi + (i + 1))); repeat case_cond; try done; lia.
  - exists C'. split; [done|]. by replace n with (0 + Z.of_nat (Z.to_nat n)) at 2 by lia.
Qed.

(** ** The tiles *)

Lemma passes_blocks n : 0 <= n -> n mod BLOCK_SIZE = 0 -> Z.of_nat (passes 0 n BLOCK_SIZE) = n / BLOCK_SIZE.
Proof. intros H0 Hn. unfold passes, BLOCK_SIZE in *. dlia. Qed.

Lemma elem_of_tensor_tiles M N i j : (i, j) ∈ tensor_tiles M N <-> i ∈ tile_origins M BLOCK_SIZE /\ j ∈ tile_origins N BLOCK_SIZE.
Proof.
  unfold tensor_tiles. rewrite list_elem_of_bind. setoid_rewrite list_elem_of_bind. setoid_rewrite list_elem_of_singleton. naive_solver.
Qed.

Lemma tile_of_tensor_tiles M N r c : M mod BLOCK_SIZE = 0 -> N mod BLOCK_SIZE = 0 -> 0 <= r < M -> 0 <= c < N -> tile_of BLOCK_SIZE r c ∈ tensor_tiles M N.
Proof.
  intros HM HN Hr Hc. unfold tile_of. apply elem_of_tensor_tiles.
  split; apply elem_of_origins; eexists; (split; [done|]); (rewrite passes_blocks by (done || lia)); unfold BLOCK_SIZE in *; dlia.
Qed.

Section tiles.
Context (M N K : Z) (A B C : list F) (a b bias : Z -> Z -> F).
Context (HA : is_rect M K A a) (HB : is_rect K N B b) (HC : is_rect M N C bias).
Context (HM : M mod BLOCK_SIZE = 0) (HN : N mod BLOCK_SIZE = 0) (HK : K mod BLOCK_SIZE = 0) (HK0 : 0 <= K).

Section tile.
Context (i j : Z) (Hi : 0 <= i /\ i + BLOCK_SIZE <= M) (Hj : 0 <= j /\ j + BLOCK_SIZE <= N).

Lemma block_dot_ok k bi bj : 0 <= k -> k + BLOCK_SIZE <= K -> 0 <= bi < BLOCK_SIZE -> 0 <= bj < BLOCK_SIZE ->
  block_dot A B N K i j k bi bj = Ok (block_sum a b k (i + bi) (j + bj)).
Proof.
  intros Hk Hk' Hbi Hbj. unfold block_dot.
  destruct (for_range_inv (fun q sum => sum = partial (fun r q c acc => add acc (mul (a r (k + q)) (b (k + q) c))) q (i + bi) (j + bj)) (Z.to_nat BLOCK_SIZE) 0
    (fun bk sum => x ← mat_read K A (i + bi) (k + bk); y ← mat_read N B (k + bk) (j + bj); Ok (add sum (mul x y))) zero) as (s & -> & ->).
  - done.
  - intros q s Hq ->. unfold BLOCK_SIZE in *. rewrite (proj2 HA), bind_ret_l by lia. rewrite (proj2 HB), bind_ret_l by lia.
    eexists. split; [reflexivity|]. by rewrite partial_next by lia.
  - done.
Qed.

Lemma add_block_ok k temp g : 0 <= k -> k + BLOCK_SIZE <= K -> is_mat BLOCK_SIZE temp g ->
  exists temp', add_block A B N K i j k temp = Ok temp' /\
    is_mat BLOCK_SIZE temp' (fun bi bj => add (g bi bj) (block_sum a b k (i + bi) (j + bj))).
Proof.
  intros Hk Hk' Ht. unfold add_block.
  destruct (update_square (is_mat BLOCK_SIZE) BLOCK_SIZE 0 0 (fun bi bj => add (g bi bj) (block_sum a b k (i + bi) (j + bj))) g
    (fun bi bj temp => sum ← block_dot A B N K i j k bi bj; t ← mat_read BLOCK_SIZE temp bi bj; mat_write BLOCK_SIZE temp bi bj (add t sum)) temp)
    as (t' & -> & Ht'); [intros t f1 f2 Hf; apply is_mat_ext; auto|done|done| |].
  - intros bi bj g' t Hbi Hbj Hg Heq. rewrite block_dot_ok, bind_ret_l by done. rewrite (proj2 Hg), bind_ret_l by done. rewrite !Z.add_0_l in *. rewrite Heq. by apply write_mat.
  - exists t'. split; [done|]. eapply is_mat_ext; [|exact Ht']. intros r c [Hr Hc]. unfold patched. case_cond; [|lia]. by rewrite !Z.sub_0_r.
Qed.

Lemma zero_temp : is_mat BLOCK_SIZE (replicate (Z.to_nat BLOCK_SIZE) (replicate (Z.to_nat BLOCK_SIZE) zero) : rows F) (fun _ _ => zero).
Proof.
  split.
  - split; [done|]. by apply Forall_replicate.
  - intros r c [Hr Hc]. cbn. unfold BLOCK_SIZE in *.
    destruct (zget_range (replicate (Z.to_nat 32) (replicate (Z.to_nat 32) (zero : F))) r) as [row Hrow]; [rewrite length_replicate; lia|].
    rewrite (arr_read_Ok _ _ _ Hrow), bind_ret_l. apply zget_replicate in Hrow as ->.
    destruct (zget_range (replicate (Z.to_nat 32) (zero : F)) c) as [x Hx]; [rewrite length_replicate; lia|].
    rewrite (arr_read_Ok _ _ _ Hx). by apply zget_replicate in Hx as ->.
Qed.

Lemma tensor_tile_ok D d : is_rect M N D d ->
  exists D', tensor_tile A B C N K i j D = Ok D' /\
    is_rect M N D' (fun r c => if (i <=? r) && (r <? i + BLOCK_SIZE) && ((j <=? c) && (c <? j + BLOCK_SIZE)) then tensor_elem a b bias K r c else d r c).
Proof using HA HB HC HK HK0 Hi Hj.
  intros HD. unfold tensor_tile.
  destruct (for_step_inv (fun m t => is_mat BLOCK_SIZE t (fun bi bj => tile_sum a b m (i + bi) (j + bj))) (passes 0 K BLOCK_SIZE) 0 BLOCK_SIZE (add_block A B N K i j)
    (replicate (Z.to_nat BLOCK_SIZE) (replicate (Z.to_nat BLOCK_SIZE) zero) : rows F)) as (temp & -> & Ht).
  - apply zero_temp.
  - intros m t Hm Ht. rewrite passes_blocks in Hm by done. rewrite Z.add_0_l.
    destruct (add_block_ok (m * BLOCK_SIZE) t (fun bi bj => tile_sum a b m (i + bi) (j + bj))) as (t' & Ht' & HI); [unfold BLOCK_SIZE in *; dlia..|exact Ht|].
    exists t'. split; [done|]. eapply is_mat_ext; [|exact HI]. intros bi bj _. unfold tile_sum. by rewrite partial_next by lia.
  - rewrite bind_ret_l, passes_blocks in * by done.
    destruct (update_square (is_rect M N) BLOCK_SIZE i j (fun bi bj => tensor_elem a b bias K (i + bi) (j + bj)) d
      (fun bi bj D => t ← mat_read BLOCK_SIZE temp bi bj; c ← mat_read N C (i + bi) (j + bj); mat_write N D (i + bi) (j + bj) (add t c)) D)
      as (D' & -> & HD'); [intros t f1 f2 Hf; apply rect_ext; auto|done|done| |].
    + intros bi bj g D1 Hbi Hbj HD1 _. rewrite (proj2 Ht), bind_ret_l by done. rewrite (proj2 HC), bind_ret_l by lia. apply write_rect; [done|lia..].
    + exists D'. split; [done|]. eapply rect_ext; [|exact HD']. intros r c _ _. unfold patched.
      assert ((r =? i + BLOCK_SIZE) && ((j <=? c) && (c <? j + 0)) = false) as -> by lia. rewrite orb_false_r. case_cond; [|done]. f_equal; lia.
Qed.
End tile.

(** The tiles that were run have their elements, the others are as before. *)
Definition after_tiles (done : list (Z * Z)) (d : Z -> Z -> F) : Z -> Z -> F := fun r c =>
  if decide (tile_of BLOCK_SIZE r c ∈ done) then tensor_elem a b bias K r c else d r c.

Lemma in_tile_of i j r c : i mod BLOCK_SIZE = 0 -> j mod BLOCK_SIZE = 0 ->
  (i <=? r) && (r <? i + BLOCK_SIZE) && ((j <=? c) && (c <? j + BLOCK_SIZE)) = true <-> tile_of BLOCK_SIZE r c = (i, j).
Proof.
  intros Hi Hj. unfold tile_of, BLOCK_SIZE in *. split.
  - intros Hin. f_equal; dlia.
  - intros [= <- <-]. dlia.
Qed.

Lemma tiles_run schedule : forall D d, 0 <= M -> 0 <= N -> Forall (fun t => t ∈ tensor_tiles M N) schedule -> is_rect M N D d ->
  exists D', run_tiles A B C N K schedule D = Ok D' /\ is_rect M N D' (after_tiles schedule d).
Proof using HA HB HC HM HN HK HK0.
  induction schedule as [|[i j] schedule IH]; intros D d HM0 HN0 Hs HD; [exists D; split; [done|]; eapply rect_ext; [|exact HD]; intros r c _ _; unfold after_tiles; rewrite decide_False; [done|apply not_elem_of_nil]|].
  apply list.Forall_cons in Hs as [Hij Hs]. apply elem_of_tensor_tiles in Hij as [(m & -> & Hm)%elem_of_origins (k & -> & Hk)%elem_of_origins].
  rewrite passes_blocks in Hm, Hk by done. cbn [run_tiles].
  destruct (tensor_tile_ok (m * BLOCK_SIZE) (k * BLOCK_SIZE) ltac:(unfold BLOCK_SIZE in *; dlia) ltac:(unfold BLOCK_SIZE in *; dlia) D d HD) as (D1 & -> & HD1). rewrite bind_ret_l.
  destruct (IH D1 _ HM0 HN0 Hs HD1) as (D2 & -> & HD2). exists D2. split; [done|]. eapply rect_ext; [|exact HD2]. intros r c _ _. unfold after_tiles.
  pose proof (in_tile_of (m * BLOCK_SIZE) (k * BLOCK_SIZE) r c ltac:(by apply Z.mod_mul) ltac:(by apply Z.mod_mul)) as Ht.
  destruct (decide (tile_of BLOCK_SIZE r c ∈ schedule)) as [Hin|Hin]; [rewrite decide_True by (by apply list_elem_of_further); done|].
  destruct (_ && _); [rewrite decide_True by (rewrite (proj1 Ht eq_refl); apply list_elem_of_here); done|].
  rewrite decide_False; [done|]. rewrite elem_of_cons. intros [He|He]; [|done]. by apply Ht in He.
Qed.
End tiles.

(** C37.  For an [M] by [K] matrix, a [K] by [N] matrix and a bias of [M] by [N], the three
    sizes multiples of 32 and none of the matrices with more than [INT_MAX] elements, and
    the tiles in any order, the result has in every place the sum of its blocks plus the
    bias, each block summed on its own. *)
Theorem tensor_any_schedule (order : list (Z * Z) -> list (Z * Z)) M N K (A B C D : list F) :
  0 <= M -> 0 <= N -> 0 <= K -> M mod BLOCK_SIZE = 0 -> N mod BLOCK_SIZE = 0 -> K mod BLOCK_SIZE = 0 ->
  rect_shape M K A -> rect_shape K N B -> rect_shape M N C -> rect_shape M N D -> (forall l, order l ≡ₚ l) ->
  exists D', tensor_core_simulation order A B C M N K D = Ok D' /\ rect_shape M N D' /\
    forall r c, 0 <= r < M -> 0 <= c < N -> mat_read N D' r c = Ok (tensor_elem (elem K A) (elem N B) (elem N C) K r c).
Proof.
  intros HM0 HN0 HK0 HM HN HK HA HB HC HD HP. apply shape_is_rect in HA, HB, HC, HD.
  destruct (tiles_run M N K A B C _ _ _ HA HB HC HM HN HK HK0 (order (tensor_tiles M N)) D (elem N D) HM0 HN0) as (D' & HD' & HI); [|exact HD|].
  - apply list.Forall_forall. intros t Ht. by rewrite <- (HP (tensor_tiles M N)).
  - exists D'. split; [done|]. split; [apply HI|]. intros r c Hr Hc. rewrite (proj2 HI) by done. unfold after_tiles. rewrite decide_True; [done|].
    rewrite HP. by apply tile_of_tensor_tiles.
Qed.

(** With an exact sum the blocks together give the product of the matrices. *)
Lemma tile_sum_exact (a b : Z -> Z -> F) n r c :
  (forall x y z : F, add x (add y z) = add (add x y) z) -> (forall x : F, add x zero = x) -> (forall x : F, add zero x = x) ->
  0 <= n -> tile_sum a b n r c = dot (n * BLOCK_SIZE) a b r c.
Proof.
  intros Hassoc Hr Hl Hn.
  assert (forall k q, 0 <= k -> 0 <= q -> add (dot k a b r c) (partial (fun r q c acc => add acc (mul (a r (k + q)) (b (k + q) c))) q r c) = dot (k + q) a b r c) as Hadd.
  { intros k q Hk Hq. pattern q. apply natlike_ind; [rewrite partial_0, Z.add_0_r; apply Hr| |done]. clear q Hq. intros q Hq IH.
    unfold Z.succ. rewrite partial_next by done. rewrite Hassoc, IH. unfold dot. rewrite Z.add_assoc, partial_next by lia. done. }
  pattern n. apply natlike_ind; [done| |done]. clear n Hn. intros n Hn IH. unfold Z.succ, tile_sum. rewrite partial_next by done. fold (tile_sum a b n r c). rewrite IH.
  unfold block_sum. rewrite Hadd by (unfold BLOCK_SIZE; lia). f_equal. lia.
Qed.
End code.

#[local] Instance exact_arith : Arith Z := { zero := 0; add := Z.add; mul := Z.mul; fma x y z := x * y + z }.

(** The element 5, 40 of the product of a 32 by 64 matrix of ones with a 64 by 64 matrix of
    twos, plus three; the tiles in reverse order. *)
Lemma tensor_any_schedule_witness :
  exists D', tensor_core_simulation (@rev _) (replicate 2048 1) (replicate 4096 2) (replicate 2048 3) 32 64 64 (replicate 2048 0) = Ok D' /\
    mat_read 64 D' 5 40 = Ok 131.
Proof.
  assert (forall n R W (x : Z), Z.of_nat n = R * W -> R * W <= INT_MAX -> rect_shape R W (replicate n x)) as Hs by (intros n R W x H1 H2; split; [by rewrite length_replicate|done]).
  destruct (tensor_any_schedule (@rev _) 32 64 64 (replicate 2048 1) (replicate 4096 2) (replicate 2048 3) (replicate 2048 0)) as (D' & HD' & _ & HI);
    [lia|lia|lia|done|done|done|apply Hs; [lia|unfold INT_MAX; lia]|apply Hs; [lia|unfold INT_MAX; lia]|apply Hs; [lia|unfold INT_MAX; lia]|apply Hs; [lia|unfold INT_MAX; lia]| |].
  - intros l. symmetry. apply Permutation_rev.
  - exists D'. split; [exact HD'|]. rewrite HI by lia. vm_compute. reflexivity.
Defined.

(** A matrix of another size is left by the loops. *)
Lemma tensor_overruns : tensor_core_simulation id [1] [1] [1] 1 1 1 [0] = Fault OutOfBounds.
Proof. vm_compute. reflexivity. Qed.
