(* ===== verification/MemTransfer.v ===== *)
(** * Two caches in front of memory ([memory/parallelComputing/memory_transfer.c])

    Direct-mapped caches whose lines are tagged with the whole line number.  What an
    access returns is a function of the accesses before it; lines that never were
    accessed are never hit, and the first cache holds nothing the second does not. *)
From Stdlib Require Import ZArith Lia.
From stdpp Require Import base tactics list numbers option.
From S2P Require Import Prelude TwoLevelCache.

#[local] Open Scope Z_scope.
#[local] Open Scope c_scope.

Definition CACHE_LINE_SIZE : Z := 64.
Definition L1_SIZE : Z := 64 * 1024.
Definition L2_SIZE : Z := 6 * 1024 * 1024.

Record Line : Type := mkEntry { data : list Z; present : bool; line_tag : Z }.

(** [lines] is NULL when its allocation failed. *)
Record Cache : Type := mkCache { lines : option (list Line); cache_size : Z }.

(** The arguments say whether the two allocations succeed. *)
Definition create_cache (malloc_ok calloc_ok : bool) (bytes : Z) : res Cache :=
  n ← idiv bytes CACHE_LINE_SIZE;
  if malloc_ok then
    Ok (mkCache (if calloc_ok then Some (replicate (Z.to_nat n) (mkEntry (replicate 64 0) false 0)) else None) n)
  else Fault NullDeref.

Definition read_line (c : Cache) (i : Z) : res Line := match lines c with Some l => l.[i] | None => Fault NullDeref end.

Definition write_line (c : Cache) (i : Z) (x : Line) : res Cache :=
  match lines c with Some l => l ← l.[i <- x]; Ok (mkCache (Some l) (cache_size c)) | None => Fault NullDeref end.

Definition line_index (c : Cache) (address : Z) : res Z :=
  if cache_size c =? 0 then Fault DivByZero else Ok ((address / CACHE_LINE_SIZE) mod cache_size c).

(** [loaded] are the 64 random bytes a miss reads. *)
Definition simulate_memory_access (l1 l2 : Cache) (address : Z) (loaded : list Z) : res (Cache * Cache * Z) :=
  i1 ← line_index l1 address;
  i2 ← line_index l2 address;
  let tag := address / CACHE_LINE_SIZE in
  x ← read_line l1 i1;
  if present x && (line_tag x =? tag) then Ok (l1, l2, 1) else
  y ← read_line l2 i2;
  if present y && (line_tag y =? tag) then
    l1 ← write_line l1 i1 (mkEntry (data y) true tag);
    Ok (l1, l2, 2)
  else
    l2 ← write_line l2 i2 (mkEntry loaded true tag);
    y ← read_line l2 i2;
    l1 ← write_line l1 i1 (mkEntry (data y) true tag);
    Ok (l1, l2, 3).

(** The loop of [main] over the addresses, with the bytes of each miss: the counts of
    hits in the first and second cache and of misses. *)
Fixpoint run_accesses (l1 l2 : Cache) (accesses : list (Z * list Z)) (h1 h2 ms : Z) : res (Z * Z * Z) :=
  match accesses with
  | [] => Ok (h1, h2, ms)
  | (address, loaded) :: accesses =>
      '(l1, l2, r) ← simulate_memory_access l1 l2 address loaded;
      match r with
      | 1 => h1 ← iadd h1 1; run_accesses l1 l2 accesses h1 h2 ms
      | 2 => h2 ← iadd h2 1; run_accesses l1 l2 accesses h1 h2 ms
      | 3 => ms ← iadd ms 1; run_accesses l1 l2 accesses h1 h2 ms
      | _ => run_accesses l1 l2 accesses h1 h2 ms
      end
  end.

Definition transfer_main (malloc1 calloc1 malloc2 calloc2 : bool) (accesses : list (Z * list Z)) : res (Z * Z * Z) :=
  l1 ← create_cache malloc1 calloc1 L1_SIZE;
  l2 ← create_cache malloc2 calloc2 L2_SIZE;
  run_accesses l1 l2 accesses 0 0 0.

(** ** The accesses before decide *)

(** [hist] has the lines accessed, the latest first. *)
Definition outcome_of (hist : list Z) (s1 s2 line : Z) : Z :=
  if held hist s1 line then 1 else if held hist s2 line then 2 else 3.

(** A cache after a history. *)
Definition cache_ok (hist : list Z) (c : Cache) : Prop :=
  exists l, lines c = Some l /\ len l = cache_size c /\ 0 < cache_size c /\
  forall i x, zget l i = Some x ->
    match last_at hist (cache_size c) i with Some b => present x = true /\ line_tag x = b | None => present x = false end.

Definition hit (x : Line) (b : Z) : bool := present x && (line_tag x =? b).

Lemma cache_lookup hist c a : cache_ok hist c ->
  exists x, line_index c a = Ok ((a / CACHE_LINE_SIZE) mod cache_size c) /\ read_line c ((a / CACHE_LINE_SIZE) mod cache_size c) = Ok x /\
    hit x (a / CACHE_LINE_SIZE) = held hist (cache_size c) (a / CACHE_LINE_SIZE).
Proof.
  intros (l & El & Hl & Hs & Hc). set (b := a / CACHE_LINE_SIZE). pose proof (Z.mod_pos_bound b (cache_size c) Hs) as Hb.
  destruct (zget_range l (b mod cache_size c)) as [x Hx]; [lia|]. exists x. split.
  { unfold line_index. destruct (Z.eqb_spec (cache_size c) 0); [lia|done]. }
  split; [unfold read_line; rewrite El; by apply arr_read_Ok|]. specialize (Hc _ _ Hx). unfold hit, held.
  destruct (last_at hist (cache_size c) (b mod cache_size c)) as [b'|]; [|by rewrite Hc, bool_decide_false].
  destruct Hc as [-> ->]. destruct (Z.eqb_spec b' b) as [->|Hne]; [by rewrite bool_decide_true|]. rewrite bool_decide_false; [done|]. by intros [= ->].
Qed.

Lemma cache_refresh hist c b : cache_ok hist c -> held hist (cache_size c) b = true -> cache_ok (b :: hist) c.
Proof.
  intros (l & El & Hl & Hs & Hc) Hh%bool_decide_eq_true. exists l. split_and!; [done..|]. intros i x Hx. specialize (Hc _ _ Hx). simpl.
  destruct (Z.eqb_spec (b mod cache_size c) i) as [<-|]; [|done]. by rewrite Hh in Hc.
Qed.

Lemma cache_insert hist c b d : cache_ok hist c ->
  exists c', write_line c (b mod cache_size c) (mkEntry d true b) = Ok c' /\ cache_size c' = cache_size c /\ cache_ok (b :: hist) c' /\
    read_line c' (b mod cache_size c) = Ok (mkEntry d true b).
Proof.
  intros (l & El & Hl & Hs & Hc). pose proof (Z.mod_pos_bound b (cache_size c) Hs) as Hb.
  eexists. split; [unfold write_line; rewrite El, arr_write_Ok by lia; done|]. split; [done|]. split.
  - eexists. split; [done|]. simpl. rewrite length_zset. split_and!; [done..|]. intros i x Hx. destruct (zget_zset_inv _ _ _ _ _ Hx) as [[-> ->]|[Hne Hx']].
    + by rewrite Z.eqb_refl.
    + destruct (Z.eqb_spec (b mod cache_size c) i); [lia|]. by apply Hc.
  - unfold read_line. simpl. apply arr_read_Ok, zget_zset_eq. lia.
Qed.

(** After an access both caches hold the line. *)
Lemma transfer_access_ok hist l1 l2 a loaded : cache_ok hist l1 -> cache_ok hist l2 -> (cache_size l1 | cache_size l2) ->
  let b := a / CACHE_LINE_SIZE in
  exists l1' l2', simulate_memory_access l1 l2 a loaded = Ok (l1', l2', outcome_of hist (cache_size l1) (cache_size l2) b) /\
    cache_ok (b :: hist) l1' /\ cache_ok (b :: hist) l2' /\ cache_size l1' = cache_size l1 /\ cache_size l2' = cache_size l2.
Proof.
  intros H1 H2 Hd b. pose proof H1 as (_ & _ & _ & Hs1 & _). destruct (cache_lookup hist l1 a H1) as (x & E1 & R1 & X1). destruct (cache_lookup hist l2 a H2) as (y & E2 & R2 & X2).
  unfold simulate_memory_access. rewrite E1, bind_ret_l, E2, bind_ret_l, R1, bind_ret_l. fold b in R2, X1, X2. fold b. fold (hit x b). rewrite X1. unfold outcome_of.
  destruct (held hist (cache_size l1) b) eqn:Hh1.
  { exists l1, l2. split_and!; [done|by apply cache_refresh| |done..]. apply cache_refresh; [done|]. by eapply held_divides. }
  rewrite R2, bind_ret_l. fold (hit y b). rewrite X2. destruct (held hist (cache_size l2) b) eqn:Hh2.
  - destruct (cache_insert hist l1 b (data y) H1) as (l1' & -> & S1 & C1 & _). rewrite bind_ret_l. exists l1', l2. split_and!; try done. by apply cache_refresh.
  - destruct (cache_insert hist l2 b loaded H2) as (l2' & -> & S2 & C2 & Rd). rewrite bind_ret_l, Rd, bind_ret_l. cbn [data].
    destruct (cache_insert hist l1 b loaded H1) as (l1' & -> & S1 & C1 & _). rewrite bind_ret_l. by exists l1', l2'.
Qed.

Fixpoint outcomes (hist : list Z) (s1 s2 : Z) (addresses : list Z) : list Z :=
  match addresses with
  | [] => []
  | a :: addresses => let b := a / CACHE_LINE_SIZE in outcome_of hist s1 s2 b :: outcomes (b :: hist) s1 s2 addresses
  end.

Definition occurrences (v : Z) (l : list Z) : Z := total (fun x => if x =? v then 1 else 0) l.

Lemma occurrences_cons v x l : occurrences v (x :: l) = (if x =? v then 1 else 0) + occurrences v l.
Proof. done. Qed.

Lemma triple_Ok (a b c a' b' c' : Z) : a = a' -> b = b' -> c = c' -> Ok (a, b, c) = Ok (a', b', c').
Proof. by intros -> -> ->. Qed.

Lemma run_accesses_ok accesses : forall hist l1 l2 h1 h2 ms, cache_ok hist l1 -> cache_ok hist l2 -> (cache_size l1 | cache_size l2) ->
  0 <= h1 -> 0 <= h2 -> 0 <= ms -> h1 + h2 + ms + len accesses <= INT_MAX ->
  let os := outcomes hist (cache_size l1) (cache_size l2) (fst <$> accesses) in
  run_accesses l1 l2 accesses h1 h2 ms = Ok (h1 + occurrences 1 os, h2 + occurrences 2 os, ms + occurrences 3 os).
Proof.
  induction accesses as [|[a loaded] accesses IH]; intros hist l1 l2 h1 h2 ms H1 H2 Hd G1 G2 G3 Hmax; [simpl; unfold occurrences; simpl; rewrite !Z.add_0_r; done|].
  cbn [run_accesses length] in *. destruct (transfer_access_ok hist l1 l2 a loaded H1 H2 Hd) as (l1' & l2' & -> & C1 & C2 & S1 & S2). rewrite bind_ret_l.
  rewrite <- S1, <- S2 in Hd. cbn [fmap list_fmap fst outcomes]. rewrite <- S1, <- S2, !occurrences_cons.
  unfold outcome_of at 1 2 3 4. destruct (held _ _ _); [|destruct (held _ _ _)]; rewrite iadd_Ok, bind_ret_l by (unfold INT_MIN, INT_MAX in *; lia);
    rewrite (IH _ _ _ _ _ _ C1 C2 Hd) by lia; cbn [Z.eqb Pos.eqb]; apply triple_Ok; lia.
Qed.

Lemma create_cache_ok bytes n : idiv bytes CACHE_LINE_SIZE = Ok n -> 0 < n -> exists c, create_cache true true bytes = Ok c /\ cache_size c = n /\ cache_ok [] c.
Proof.
  intros Hn H0. unfold create_cache. rewrite Hn, bind_ret_l. eexists. split; [done|]. split; [done|]. eexists. split; [done|]. simpl. rewrite length_replicate.
  split_and!; [lia|done|]. intros i x Hx. by apply zget_replicate in Hx as ->.
Qed.

(** With both caches allocated, the counts that are printed are those of the
    outcomes the history determines: a hit in the first cache if the latest access to
    its place was to the same line, a hit in the second likewise; they add up to the
    number of accesses. *)
Theorem transfer_counts accesses : len accesses <= INT_MAX ->
  let os := outcomes [] 1024 98304 (fst <$> accesses) in
  transfer_main true true true true accesses = Ok (occurrences 1 os, occurrences 2 os, occurrences 3 os) /\
  occurrences 1 os + occurrences 2 os + occurrences 3 os = len accesses.
Proof.
  intros Hl os. destruct (create_cache_ok L1_SIZE 1024 eq_refl ltac:(lia)) as (l1 & E1 & S1 & C1). destruct (create_cache_ok L2_SIZE 98304 eq_refl ltac:(lia)) as (l2 & E2 & S2 & C2).
  split.
  - unfold transfer_main. rewrite E1, bind_ret_l, E2, bind_ret_l. rewrite (run_accesses_ok accesses [] l1 l2 0 0 0 C1 C2), S1, S2 by (rewrite ?S1, ?S2; (lia || by exists 96)). done.
  - clear. unfold os. generalize (@nil Z). induction accesses as [|[a d] accesses IH]; intros hist; [done|]. cbn [fmap list_fmap fst outcomes length].
    rewrite !occurrences_cons. specialize (IH (a / CACHE_LINE_SIZE :: hist)). set (o := outcome_of hist 1024 98304 _).
    assert (o = 1 \/ o = 2 \/ o = 3) as Ho by (unfold o, outcome_of; repeat case_match; auto). clearbody o.
    destruct Ho as [-> | [-> | ->]]; cbn [Z.eqb Pos.eqb]; lia.
Qed.

(** Two lines with the same place in the first cache but not in the second. *)
Lemma transfer_counts_witness :
  transfer_main true true true true [(0, []); (65536, []); (0, []); (0, [])] = Ok (1, 1, 2).
Proof. destruct (transfer_counts [(0, []); (65536, []); (0, []); (0, [])]) as [H _]; [unfold INT_MAX; simpl; lia|]. rewrite H. reflexivity. Defined.

(** An allocation that fails is not noticed. *)
Lemma transfer_null : transfer_main true false true true [(0, [])] = Fault NullDeref /\ transfer_main false true true true [] = Fault NullDeref.
Proof. split; reflexivity. Qed.
