(* ===== verification/SingleCpu.v ===== *)
(** * Threads with caches of their own ([concurrency/threads/multiThreadingSingleCPU.c])

    Four threads work on private caches, give up the processor under a mutex and wait
    on a condition variable until the scheduler activates them or the simulation is
    stopped.  A step is a critical section or the work between two of them; waiters
    may also wake up without a signal. *)
From Stdlib Require Import ZArith Lia.
From stdpp Require Import base tactics list numbers option relations.
From S2P Require Import Prelude.

#[local] Open Scope Z_scope.
#[local] Open Scope c_scope.

Definition NUM_THREADS : Z := 4.
Definition CACHE_SIZE : Z := 256.
Definition CACHE_LINE_SIZE : Z := 64.
Definition NUM_CACHE_LINES : Z := CACHE_SIZE / CACHE_LINE_SIZE.

Inductive CacheLineState : Type := MODIFIED | EXCLUSIVE | SHARED | INVALID.

Record CacheLine : Type := mkLine { data : Z; state : CacheLineState }.

(** [id] is the index of the thread. *)
Record Thread : Type := mkThread { cache : list CacheLine; is_running : bool; iterations : Z }.

Definition init_cache : list CacheLine := replicate (Z.to_nat NUM_CACHE_LINES) (mkLine 0 INVALID).

Definition cache_read (t : Thread) (address : Z) : res Thread :=
  cache_line ← idiv address CACHE_LINE_SIZE;
  l ← (cache t).[cache_line];
  match state l with
  | INVALID => c ← (cache t).[cache_line <- mkLine address SHARED]; Ok (mkThread c (is_running t) (iterations t))
  | _ => Ok t
  end.

Definition cache_write (t : Thread) (address value : Z) : res Thread :=
  cache_line ← idiv address CACHE_LINE_SIZE;
  c ← (cache t).[cache_line <- mkLine value MODIFIED];
  Ok (mkThread c (is_running t) (iterations t)).

Definition flush_line (l : CacheLine) : CacheLine := match state l with MODIFIED => mkLine (data l) INVALID | _ => l end.

Definition flush_cache (t : Thread) : res Thread :=
  c ← for_range (Z.to_nat NUM_CACHE_LINES) 0 (fun i c => l ← c.[i]; c.[i <- flush_line l]) (cache t);
  Ok (mkThread c (is_running t) (iterations t)).

(** The loop of five accesses, with the numbers [rand] gave for each, and the count. *)
Fixpoint work (rands : list (Z * Z * Z)) (t : Thread) : res Thread :=
  match rands with
  | [] => n ← iadd (iterations t) 1; Ok (mkThread (cache t) (is_running t) n)
  | (r1, r2, r3) :: rands =>
      t ← (if r2 mod 2 =? 0 then cache_read t (r1 mod CACHE_SIZE) else cache_write t (r1 mod CACHE_SIZE) (r3 mod 100));
      work rands t
  end.

(** Where a thread is: at the test of the loop, at work, before giving up the
    processor, at the test of the wait, waiting, and finished. *)
Inductive place : Type := Head | Work | Yield | Check | Asleep | Done.

(** The scheduler: at its test, before its critical section, finished. *)
Inductive sched_place : Type := SHead | SActivate | SDone.

(** [main]: sleeping, after [simulation_running = false], after the broadcast. *)
Inductive main_place : Type := MSleep | MStop | MJoin.

Record system : Type := mkSystem {
  threads : list Thread; places : list place; current_thread : Z; sched : sched_place; main : main_place; simulation_running : bool
}.

Definition set_thread (s : system) (i : Z) (t : Thread) (ps : list place) : system :=
  mkSystem (zset (threads s) i t) ps (current_thread s) (sched s) (main s) (simulation_running s).

Definition set_place (s : system) (i : Z) (p : place) : system :=
  mkSystem (threads s) (zset (places s) i p) (current_thread s) (sched s) (main s) (simulation_running s).

Definition set_sched (s : system) (p : sched_place) : system :=
  mkSystem (threads s) (places s) (current_thread s) p (main s) (simulation_running s).

(** [pthread_cond_signal] wakes at most one waiter. *)
Definition signalled (ps ps' : list place) : Prop := ps' = ps \/ exists i, zget ps i = Some Asleep /\ ps' = zset ps i Check.

Definition broadcast (ps : list place) : list place := (fun p => match p with Asleep => Check | _ => p end) <$> ps.

Inductive step (s : system) : system -> Prop :=
| step_head i : zget (places s) i = Some Head -> step s (set_place s i (if simulation_running s then Work else Done))
| step_work i t t' rands : zget (places s) i = Some Work -> zget (threads s) i = Some t -> length rands = 5%nat ->
    Forall (fun '(r1, r2, r3) => 0 <= r1 /\ 0 <= r2 /\ 0 <= r3) rands -> work rands t = Ok t' ->
    step s (set_thread s i t' (zset (places s) i Yield))
| step_yield i t t' ps : zget (places s) i = Some Yield -> zget (threads s) i = Some t -> flush_cache t = Ok t' ->
    signalled (zset (places s) i Check) ps ->
    step s (set_thread s i (mkThread (cache t') false (iterations t')) ps)
| step_check i t : zget (places s) i = Some Check -> zget (threads s) i = Some t ->
    step s (set_place s i (if negb (is_running t) && simulation_running s then Asleep else Head))
| step_spurious i : zget (places s) i = Some Asleep -> step s (set_place s i Check)
| step_sched_head : sched s = SHead -> step s (set_sched s (if simulation_running s then SActivate else SDone))
| step_sched_activate t ps : sched s = SActivate -> zget (threads s) (current_thread s) = Some t -> signalled (places s) ps ->
    step s (mkSystem (zset (threads s) (current_thread s) (mkThread (cache t) true (iterations t))) ps
              ((current_thread s + 1) mod NUM_THREADS) SHead (main s) (simulation_running s))
| step_stop : main s = MSleep -> step s (mkSystem (threads s) (places s) (current_thread s) (sched s) MStop false)
| step_broadcast : main s = MStop -> step s (mkSystem (threads s) (broadcast (places s)) (current_thread s) (sched s) MJoin (simulation_running s)).

Definition start : system :=
  mkSystem (replicate (Z.to_nat NUM_THREADS) (mkThread init_cache false 0)) (replicate (Z.to_nat NUM_THREADS) Head) 0 SHead MSleep true.

(** ** The caches *)

Definition clean (t : Thread) : Prop := Forall (fun l => state l <> MODIFIED) (cache t).

Lemma cache_index r : 0 <= r -> idiv (r mod CACHE_SIZE) CACHE_LINE_SIZE = Ok (r mod CACHE_SIZE / CACHE_LINE_SIZE) /\ 0 <= r mod CACHE_SIZE / CACHE_LINE_SIZE < 4.
Proof.
  intros Hr. unfold CACHE_SIZE, CACHE_LINE_SIZE. pose proof (Z.mod_pos_bound r 256 ltac:(lia)). split; [apply idiv_Ok; unfold INT_MAX; lia|dlia].
Qed.

Lemma work_ok rands : forall t, len (cache t) = 4 -> iterations t < INT_MAX -> 0 <= iterations t -> Forall (fun '(r1, r2, r3) => 0 <= r1 /\ 0 <= r2 /\ 0 <= r3) rands ->
  exists t', work rands t = Ok t' /\ len (cache t') = 4 /\ iterations t' = iterations t + 1 /\ is_running t' = is_running t.
Proof.
  induction rands as [|[[r1 r2] r3] rands IH]; intros t Hc Hi H0 Hr; cbn [work].
  - rewrite iadd_Ok, bind_ret_l by (unfold INT_MIN; lia). by eexists.
  - apply list.Forall_cons in Hr as [(H1 & _ & _) Hr]. destruct (cache_index r1 H1) as [Hx Hb].
    assert (exists t1, (if r2 mod 2 =? 0 then cache_read t (r1 mod CACHE_SIZE) else cache_write t (r1 mod CACHE_SIZE) (r3 mod 100)) = Ok t1 /\
      len (cache t1) = 4 /\ iterations t1 = iterations t /\ is_running t1 = is_running t) as (t1 & -> & Hc1 & Hi1 & Hr1).
    { destruct (r2 mod 2 =? 0); unfold cache_read, cache_write; rewrite Hx, bind_ret_l.
      - destruct (zget_range (cache t) (r1 mod CACHE_SIZE / CACHE_LINE_SIZE)) as [l Hl]; [lia|]. rewrite (arr_read_Ok _ _ _ Hl), bind_ret_l.
        destruct (state l); try by eexists. rewrite arr_write_Ok, bind_ret_l by lia. eexists. split; [done|]. simpl. by rewrite length_zset.
      - rewrite arr_write_Ok, bind_ret_l by lia. eexists. split; [done|]. simpl. by rewrite length_zset. }
    rewrite bind_ret_l. destruct (IH t1) as (t2 & -> & Hc2 & Hi2 & Hr2); [lia..|done|]. exists t2. split_and!; [done|done|lia|congruence].
Qed.

Lemma flush_line_clean l : state (flush_line l) <> MODIFIED.
Proof. unfold flush_line. destruct (state l) eqn:E; simpl; congruence. Qed.

Lemma flush_ok t : len (cache t) = 4 -> exists t', flush_cache t = Ok t' /\ len (cache t') = 4 /\ clean t' /\ iterations t' = iterations t /\ is_running t' = is_running t.
Proof.
  intros Hc. unfold flush_cache. change (Z.to_nat NUM_CACHE_LINES) with 4%nat. destruct (cache t) as [|a [|b [|c [|d [|]]]]]; try (simpl in Hc; lia).
  exists (mkThread [flush_line a; flush_line b; flush_line c; flush_line d] (is_running t) (iterations t)).
  split; [reflexivity|]. split; [done|]. split; [|done]. unfold clean. simpl.
  rewrite !list.Forall_cons, list.Forall_nil. split_and!; (done || apply flush_line_clean).
Qed.

(** ** What holds of every state *)

Record ok (s : system) : Prop := {
  o_threads : len (threads s) = NUM_THREADS;
  o_places : len (places s) = NUM_THREADS;
  o_current : 0 <= current_thread s < NUM_THREADS;
  o_cache : forall i t, zget (threads s) i = Some t -> len (cache t) = 4 /\ 0 <= iterations t;
  o_clean : forall i t p, zget (threads s) i = Some t -> zget (places s) i = Some p -> p <> Yield -> clean t;
  o_main : simulation_running s = true <-> main s = MSleep;
  o_joined : main s = MJoin -> forall i, zget (places s) i <> Some Asleep
}.

Lemma ok_start : ok start.
Proof.
  constructor; try done.
  - intros i t Ht. by apply zget_replicate in Ht as ->.
  - intros i t p Ht _ _. apply zget_replicate in Ht as ->. unfold clean. by apply Forall_replicate.
Qed.

(** Places that changed only from waiting to the test. *)
Definition woken (ps ps' : list place) : Prop :=
  length ps' = length ps /\ forall i p', zget ps' i = Some p' -> exists p, zget ps i = Some p /\ (p' = p \/ (p = Asleep /\ p' = Check)).

Lemma signalled_woken ps ps' : signalled ps ps' -> woken ps ps'.
Proof.
  intros [->|(i & Hi & ->)]; [split; [done|]; intros j p Hp; exists p; auto|]. split; [by rewrite length_zset|].
  intros j p Hp. destruct (zget_zset_inv _ _ _ _ _ Hp) as [[-> ->]|[_ Hp']]; [exists Asleep; auto|exists p; auto].
Qed.

Lemma broadcast_woken ps : woken ps (broadcast ps) /\ forall i, zget (broadcast ps) i <> Some Asleep.
Proof.
  unfold broadcast. split; [split; [by rewrite length_fmap|]|].
  - intros i p' Hp. rewrite zget_fmap in Hp. destruct (zget ps i) as [p|]; [|done]. simpl in Hp. injection Hp as <-. exists p. split; [done|]. destruct p; auto.
  - intros i Hp. rewrite zget_fmap in Hp. destruct (zget ps i) as [[]|]; done.
Qed.

(** A thread and its place replaced, others woken or not. *)
Lemma ok_change s i t t' ps p : ok s -> zget (threads s) i = Some t -> len (cache t') = 4 -> 0 <= iterations t' -> (p <> Yield -> clean t') ->
  (main s = MJoin -> p <> Asleep) -> woken (zset (places s) i p) ps -> ok (set_thread s i t' ps).
Proof.
  intros [] Ht Hc Hi Hcl Hj [Hl Hw]. rewrite length_zset in Hl. constructor; simpl; try done.
  - by rewrite length_zset.
  - lia.
  - intros j u Hu. destruct (zget_zset_inv _ _ _ _ _ Hu) as [[-> ->]|[_ Hu']]; [done|eauto].
  - intros j u q Hu Hq Hne. destruct (Hw j q Hq) as (q0 & Hq0 & Hor). assert (q0 <> Yield) as Hne0 by (destruct Hor as [->|[-> _]]; done).
    destruct (zget_zset_inv _ _ _ _ _ Hq0) as [[-> ->]|[Hji Hq1]].
    + destruct (zget_zset_inv _ _ _ _ _ Hu) as [[_ ->]|[? _]]; [auto|done].
    + destruct (zget_zset_inv _ _ _ _ _ Hu) as [[-> _]|[_ Hu']]; [done|eauto].
  - intros HJ j Hq. destruct (Hw j _ Hq) as (q0 & Hq0 & [<-|[_ ?]]); [|done].
    destruct (zget_zset_inv _ _ _ _ _ Hq0) as [[-> He]|[_ Hq1]]; [by apply (Hj HJ)|by apply (o_joined0 HJ j)].
Qed.

Lemma work_inv rands : forall t t', work rands t = Ok t' -> len (cache t') = len (cache t) /\ iterations t' = iterations t + 1.
Proof.
  induction rands as [|[[r1 r2] r3] rands IH]; intros t t'; cbn [work].
  - intros (n & [-> _]%iadd_inv & [= <-])%bind_Ok. done.
  - intros (t1 & H1 & H2)%bind_Ok. destruct (IH _ _ H2) as [-> ->].
    assert (len (cache t1) = len (cache t) /\ iterations t1 = iterations t) as [-> ->]; [|done].
    destruct (r2 mod 2 =? 0); unfold cache_read, cache_write in H1; apply bind_Ok in H1 as (k & _ & H1).
    + apply bind_Ok in H1 as (l & _ & H1). destruct (state l); try (injection H1 as <-; done).
      apply bind_Ok in H1 as (c & [-> _]%arr_write_inv & [= <-]). simpl. by rewrite length_zset.
    + apply bind_Ok in H1 as (c & [-> _]%arr_write_inv & [= <-]). simpl. by rewrite length_zset.
Qed.

Lemma woken_refl ps : woken ps ps.
Proof. split; [done|]. intros i p Hp. exists p. auto. Qed.

Lemma ok_place s i p p' : ok s -> zget (places s) i = Some p -> p <> Yield -> p' <> Yield -> (main s = MJoin -> p' <> Asleep) -> ok (set_place s i p').
Proof.
  intros Hok Hp Hy Hy' Hj. pose proof Hok as []. destruct (zget_range (threads s) i) as [t Ht]; [pose proof (zget_Some_range _ _ _ Hp); lia|].
  destruct (o_cache0 i t Ht). assert (set_place s i p' = set_thread s i t (zset (places s) i p')) as -> by (unfold set_place, set_thread; by rewrite (zset_id _ _ _ Ht)).
  eapply ok_change; [done|exact Ht|done|done|intros _; exact (o_clean0 i t p Ht Hp Hy)|exact Hj|apply woken_refl].
Qed.

Lemma ok_step s s' : ok s -> step s s' -> ok s'.
Proof.
  intros Hok Hs. pose proof Hok as []. destruct Hs as [i Hp|i t t' rands Hp Ht _ _ Hw|i t t' ps Hp Ht Hf Hsig|i t Hp Ht|i Hp|Hsh|t ps Hsa Ht Hsig|Hm|Hm].
  - eapply ok_place; [done|exact Hp|done|by destruct (simulation_running s)|by destruct (simulation_running s)].
  - destruct (o_cache0 i t Ht). destruct (work_inv _ _ _ Hw) as [Hc Hi]. eapply ok_change; [done|exact Ht|lia|lia|done|done|apply woken_refl].
  - destruct (o_cache0 i t Ht) as [Hc Hi]. destruct (flush_ok t Hc) as (t1 & Hf1 & Hc1 & Hcl & Hi1 & _). assert (t' = t1) as -> by congruence.
    apply (ok_change s i t _ ps Check); [done|exact Ht|done|simpl; lia|intros _; exact Hcl|done|by apply signalled_woken].
  - eapply ok_place; [done|exact Hp|done|by destruct (_ && _)|]. intros HJ. destruct (simulation_running s) eqn:E; [|by rewrite andb_false_r]. pose proof (proj1 o_main0 eq_refl). congruence.
  - eapply ok_place; [done|exact Hp|done..].
  - by constructor.
  - destruct (signalled_woken _ _ Hsig) as [Hl Hw]. destruct (o_cache0 _ _ Ht). constructor; simpl; try done.
    + by rewrite length_zset.
    + lia.
    + by apply Z.mod_pos_bound.
    + intros j u Hu. destruct (zget_zset_inv _ _ _ _ _ Hu) as [[-> ->]|[_ Hu']]; eauto.
    + intros j u q Hu Hq Hne. destruct (Hw j q Hq) as (q0 & Hq0 & Hor). assert (q0 <> Yield) by (destruct Hor as [->|[-> _]]; done).
      destruct (zget_zset_inv _ _ _ _ _ Hu) as [[-> ->]|[_ Hu']]; [exact (o_clean0 _ _ _ Ht Hq0 H1)|eauto].
    + intros HJ j Hq. destruct (Hw j _ Hq) as (q0 & Hq0 & [<-|[_ ?]]); [by apply (o_joined0 HJ j)|done].
  - constructor; simpl; try done.
  - destruct (broadcast_woken (places s)) as [[Hl Hw] Hna]. constructor; simpl; try done.
    + lia.
    + intros j u q Hu Hq Hne. destruct (Hw j q Hq) as (q0 & Hq0 & Hor). apply (o_clean0 j u q0); [done|done|]. destruct Hor as [->|[-> _]]; done.
    + rewrite o_main0, Hm. split; discriminate.
Qed.

Lemma ok_reach s : rtc step start s -> ok s.
Proof. apply (rtc_ind_r (R := step) ok); [exact ok_start|]. intros s1 s2 _ Hs H. by eapply ok_step. Qed.

(** In every state a thread's cache has its four lines, no line is modified unless
    the thread is between its work and giving up the processor, and neither the work
    nor the flush leaves the cache. *)
Theorem single_cpu_caches s i t p : rtc step start s -> zget (threads s) i = Some t -> zget (places s) i = Some p ->
  len (cache t) = NUM_CACHE_LINES /\ (p <> Yield -> clean t) /\ is_ok (flush_cache t) = true /\
  (forall rands, Forall (fun '(r1, r2, r3) => 0 <= r1 /\ 0 <= r2 /\ 0 <= r3) rands -> iterations t < INT_MAX -> is_ok (work rands t) = true).
Proof.
  intros []%ok_reach Ht Hp. destruct (o_cache0 i t Ht) as [Hc Hi]. split_and!; [done|by eapply o_clean0| |].
  - by destruct (flush_ok t Hc) as (t' & -> & _).
  - intros rands Hr Hmax. by destruct (work_ok rands t Hc Hmax Hi Hr) as (t' & -> & _).
Qed.

Definition rank (p : place) : Z := match p with Work => 4 | Yield => 3 | Check => 2 | Head => 1 | Asleep | Done => 0 end.
Definition sched_rank (p : sched_place) : Z := match p with SActivate => 2 | SHead => 1 | SDone => 0 end.
Definition remaining (s : system) : Z := total rank (places s) + sched_rank (sched s).

Definition all_done (s : system) : Prop := Forall (fun p => p = Done) (places s) /\ sched s = SDone.

Lemma signalled_nobody ps ps' : (forall i, zget ps i <> Some Asleep) -> signalled ps ps' -> ps' = ps.
Proof. intros Hn [->|(i & Hi & _)]; [done|]. by apply Hn in Hi. Qed.

Lemma joined_step s s' : ok s -> main s = MJoin -> step s s' -> main s' = MJoin /\ remaining s' < remaining s.
Proof.
  intros [] HJ Hs. assert (simulation_running s = false) as Hr by (destruct (simulation_running s); [pose proof (proj1 o_main0 eq_refl); congruence|done]).
  pose proof (o_joined0 HJ) as Hna. unfold remaining.
  destruct Hs as [i Hp|i t t' rands Hp Ht _ _ Hw|i t t' ps Hp Ht Hf Hsig|i t Hp Ht|i Hp|Hsh|t ps Hsa Ht Hsig|Hm|Hm]; try congruence; simpl; (split; [done|]).
  - rewrite Hr, (total_zset _ _ _ _ _ Hp). simpl. lia.
  - rewrite (total_zset _ _ _ _ _ Hp). simpl. lia.
  - rewrite (signalled_nobody _ _) with (2 := Hsig); [rewrite (total_zset _ _ _ _ _ Hp); simpl; lia|].
    intros j Hj. destruct (zget_zset_inv _ _ _ _ _ Hj) as [[_ ?]|[_ Hj']]; [done|by apply Hna in Hj'].
  - rewrite Hr, andb_false_r, (total_zset _ _ _ _ _ Hp). simpl. lia.
  - rewrite Hr, Hsh. simpl. lia.
  - rewrite (signalled_nobody _ _ Hna Hsig), Hsa. simpl. lia.
Qed.

Lemma joined_progress s : ok s -> main s = MJoin -> (forall i t, zget (threads s) i = Some t -> iterations t < INT_MAX) -> all_done s \/ exists s', step s s'.
Proof.
  intros [] HJ Hmax. destruct (decide (Forall (fun p => rank p = 0) (places s))) as [Hall|Hn].
  - destruct (sched s) eqn:Es.
    + right. eexists. by apply step_sched_head.
    + right. destruct (zget_range (threads s) (current_thread s)) as [t Ht]; [lia|]. eexists. eapply step_sched_activate; [done|exact Ht|by left].
    + left. split; [|done]. apply list.Forall_forall. intros p Hp. pose proof (proj1 (list.Forall_forall _ _) Hall p Hp) as H0.
      apply elem_of_zget in Hp as [i Hi]. pose proof (o_joined0 HJ i). destruct p; (done || congruence).
  - right. apply not_Forall_Exists in Hn; [|apply _]. apply Exists_exists in Hn as (p & Hp & Hr). apply elem_of_zget in Hp as [i Hi].
    destruct (zget_range (threads s) i) as [t Ht]; [pose proof (zget_Some_range _ _ _ Hi); lia|]. destruct (o_cache0 i t Ht) as [Hc H0]. destruct p; try (exfalso; by apply Hr).
    + eexists. by eapply step_head.
    + destruct (work_ok (replicate 5 (0, 0, 0)) t Hc (Hmax i t Ht) H0) as (t' & Hw & _); [by apply Forall_replicate|]. eexists. eapply step_work; [done|done| | |exact Hw]; [done|by apply Forall_replicate].
    + destruct (flush_ok t Hc) as (t' & Hf & _). eexists. eapply step_yield; [done|done|exact Hf|by left].
    + eexists. by eapply step_check.
Qed.

(** C28.  Stopping reaches every thread: once [main] has broadcast, no thread waits, every
    step brings the end nearer, and until all threads and the scheduler have finished
    one of them can go on. *)
Theorem stop_not_lost s : rtc step start s -> main s = MJoin ->
  (forall i, zget (places s) i <> Some Asleep) /\
  (forall s', step s s' -> main s' = MJoin /\ 0 <= remaining s' < remaining s) /\
  ((forall i t, zget (threads s) i = Some t -> iterations t < INT_MAX) -> all_done s \/ exists s', step s s').
Proof.
  intros Hok%ok_reach HJ. split_and!; [by apply o_joined| |by apply joined_progress].
  intros s' Hs. destruct (joined_step s s' Hok HJ Hs) as [HJ' Hlt]. split_and!; try done. unfold remaining.
  assert (0 <= total rank (places s')) by (apply field_total_nonneg, list.Forall_forall; intros p _; by destruct p). destruct (sched s'); simpl; lia.
Qed.

Lemma single_cpu_caches_witness : clean (mkThread init_cache false 0) /\ is_ok (work (replicate 5 (300, 1, 7)) (mkThread init_cache false 0)) = true.
Proof.
  destruct (single_cpu_caches start 2 (mkThread init_cache false 0) Head) as (_ & Hc & _ & Hw); [apply rtc_refl|done|done|].
  split; [by apply Hc|]. apply Hw; [apply Forall_replicate; lia|simpl; unfold INT_MAX; lia].
Defined.

Lemma stop_not_lost_witness :
  let s := mkSystem (threads start) (broadcast (places start)) 0 SHead MJoin false in all_done s \/ exists s', step s s'.
Proof.
  intros s. destruct (stop_not_lost s) as (_ & _ & H).
  - eapply rtc_l; [by apply (step_stop start)|]. eapply rtc_l; [by apply step_broadcast|]. apply rtc_refl.
  - done.
  - apply H. intros i t Ht. apply zget_replicate in Ht as ->. simpl. unfold INT_MAX. lia.
Defined.

(** All threads wait on one condition variable, so the signal of the scheduler may wake
    another thread than the one it activated, which goes on waiting. *)
Lemma activation_lost s t j : sched s = SActivate -> zget (threads s) (current_thread s) = Some t -> zget (places s) (current_thread s) = Some Asleep ->
  zget (places s) j = Some Asleep -> j <> current_thread s ->
  exists s', step s s' /\ zget (places s') (current_thread s) = Some Asleep /\ zget (places s') j = Some Check /\
    (is_running <$> zget (threads s') (current_thread s)) = Some true.
Proof.
  intros Hs Ht Hc Hj Hne. eexists. split; [eapply step_sched_activate; [done|exact Ht|right; exists j; done]|]. simpl.
  pose proof (zget_Some_range _ _ _ Ht). pose proof (zget_Some_range _ _ _ Hj). rewrite zget_zset_ne, !zget_zset_eq by done. done.
Qed.
