(* ===== verification/SelectServer.v ===== *)
(** * An echo server over [select] ([concurrency/threads/serverSide.c])

    One process watches a listening socket and a table of thirty clients.  What the
    kernel answers in a round of the loop is a record; the operations on the table, the
    descriptor sets and the buffer are those of the source. *)
From Stdlib Require Import ZArith Lia.
From stdpp Require Import base tactics list numbers option.
From S2P Require Import Prelude.

#[local] Open Scope Z_scope.
#[local] Open Scope c_scope.

Definition MAX_CLIENTS : Z := 30.
Definition BUFFER_SIZE : Z := 1024.
Definition FD_SETSIZE : Z := 1024.

(** A set of descriptors; only those below [FD_SETSIZE] have a bit in it. *)
Definition FD_SET (fd : Z) (set : list Z) : res (list Z) := if in_range fd FD_SETSIZE then Ok (fd :: set) else Fault OutOfBounds.
Definition FD_ISSET (fd : Z) (set : list Z) : res bool := if in_range fd FD_SETSIZE then Ok (bool_decide (fd ∈ set)) else Fault OutOfBounds.

(** The answers of the kernel in a round: the result of [select], whether it was
    interrupted, the descriptors it reported, the result of [accept], and for each
    descriptor the result of [read] with the bytes. *)
Record round : Type := mkRound {
  activity : Z; interrupted : bool; reported : list Z; accepted : Z; reads : Z -> Z * list Z
}.

(** [closed] and [sent] record the calls of [close] and [send]. *)
Record server : Type := mkServer { client_socket : list Z; buffer : list Z; closed : list Z; sent : list (Z * list Z) }.

(** The set that is watched; [max_sd] only bounds it. *)
Definition watch (master_socket : Z) (clients : list Z) : res (list Z) :=
  set ← FD_SET master_socket [];
  for_range (Z.to_nat MAX_CLIENTS) 0 (fun i set => sd ← clients.[i]; if 0 <? sd then FD_SET sd set else Ok set) set.

(** The new connection goes to the first free place, or nowhere. *)
Definition add_client (new_socket : Z) (clients : list Z) : res (list Z) :=
  r ← for_ctl (Z.to_nat MAX_CLIENTS) 0 (fun i (_ : unit) =>
        sd ← clients.[i];
        if sd =? 0 then l ← clients.[i <- new_socket]; Ok (Return l) else Ok (Next tt)) tt;
  Ok match r with Return l => l | Next _ => clients end.

Definition serve_client (r : round) (readfds : list Z) (i : Z) (s : server) : res server :=
  sd ← (client_socket s).[i];
  ready ← FD_ISSET sd readfds;
  if (ready : bool) then
    let '(valread, bytes) := reads r sd in
    if valread =? 0 then
      cs ← (client_socket s).[i <- 0];
      Ok (mkServer cs (buffer s) (closed s ++ [sd]) (sent s))
    else
      b ← copy_to (buffer s) 0 bytes;
      b ← b.[valread <- 0];
      Ok (mkServer (client_socket s) b (closed s) (sent s ++ [(sd, c_string b)]))
  else Ok s.

(** One round of [while(1)]. *)
Definition server_round (master_socket : Z) (r : round) (s : server) : res server :=
  watched ← watch master_socket (client_socket s);
  if (activity r <? 0) && negb (interrupted r) then Ok s else
  let readfds := if activity r <? 0 then watched else reported r in
  ready ← FD_ISSET master_socket readfds;
  s ← (if (ready : bool) then
         if accepted r <? 0 then Fault (Exit 1) else
         cs ← add_client (accepted r) (client_socket s);
         Ok (mkServer cs (buffer s) (closed s) (sent s))
       else Ok s);
  for_range (Z.to_nat MAX_CLIENTS) 0 (serve_client r readfds) s.

Fixpoint server_rounds (master_socket : Z) (rs : list round) (s : server) : res server :=
  match rs with
  | [] => Ok s
  | r :: rs => s ← server_round master_socket r s; server_rounds master_socket rs s
  end.

(** The results of [socket], [setsockopt], [bind] and [listen]; [uninit] are the bytes
    the buffer starts with. *)
Definition server_main (master_socket setsockopt_r bind_r listen_r : Z) (uninit : list Z) (rs : list round) : res server :=
  if master_socket =? 0 then Fault (Exit 1) else
  if setsockopt_r <? 0 then Fault (Exit 1) else
  if bind_r <? 0 then Fault (Exit 1) else
  if listen_r <? 0 then Fault (Exit 1) else
  server_rounds master_socket rs (mkServer (replicate (Z.to_nat MAX_CLIENTS) 0) uninit [] []).

(** ** The table as a list *)

(** The first free place taken. *)
Fixpoint place_first (fd : Z) (clients : list Z) : list Z :=
  match clients with
  | [] => []
  | sd :: clients => if sd =? 0 then fd :: clients else sd :: place_first fd clients
  end.

(** A client that is reported and has closed its end leaves the table. *)
Definition after_read (r : round) (set : list Z) (sd : Z) : Z :=
  if bool_decide (sd ∈ set) && (fst (reads r sd) =? 0) then 0 else sd.

(** What is sent back to a client. *)
Definition echo (r : round) (set : list Z) (sd : Z) : list (Z * list Z) :=
  if bool_decide (sd ∈ set) && negb (fst (reads r sd) =? 0) then [(sd, c_string (snd (reads r sd)))] else [].

Definition gone (r : round) (set : list Z) (sd : Z) : list Z := if bool_decide (sd ∈ set) && (fst (reads r sd) =? 0) then [sd] else [].

Definition server_ok (s : server) : Prop :=
  len (client_socket s) = MAX_CLIENTS /\ len (buffer s) = BUFFER_SIZE /\ Forall (fun sd => 0 <= sd < FD_SETSIZE) (client_socket s).

(** What [read] of as many bytes as the buffer has may return: an error, or the number of
    the bytes it stored. *)
Definition read_result (p : Z * list Z) : Prop := -1 <= fst p <= BUFFER_SIZE /\ len (snd p) = Z.max 0 (fst p).

(** A read of fewer bytes than the buffer has. *)
Definition short_read (p : Z * list Z) : Prop := 0 <= fst p < BUFFER_SIZE /\ len (snd p) = fst p.

(** A client that is reported and whose read failed or filled the buffer. *)
Definition overruns (r : round) (set : list Z) (sd : Z) : bool := bool_decide (sd ∈ set) && negb (in_range (fst (reads r sd)) BUFFER_SIZE).

(** ** The parts of a round *)

Lemma FD_ISSET_Ok fd set : 0 <= fd < FD_SETSIZE -> FD_ISSET fd set = Ok (bool_decide (fd ∈ set)).
Proof. intros H. unfold FD_ISSET. by rewrite (proj2 (in_range_true _ _) H). Qed.

Lemma FD_SET_Ok fd set : 0 <= fd < FD_SETSIZE -> FD_SET fd set = Ok (fd :: set).
Proof. intros H. unfold FD_SET. by rewrite (proj2 (in_range_true _ _) H). Qed.

Lemma watch_ok master clients : 0 <= master < FD_SETSIZE -> len clients = MAX_CLIENTS -> Forall (fun sd => 0 <= sd < FD_SETSIZE) clients ->
  exists set, watch master clients = Ok set /\ forall fd, fd ∈ set <-> fd = master \/ (fd ∈ clients /\ 0 < fd).
Proof.
  intros Hm Hl Hc. unfold watch. rewrite FD_SET_Ok, bind_ret_l by done.
  destruct (for_range_inv (fun i set => forall fd, fd ∈ set <-> fd = master \/ (fd ∈ take (Z.to_nat i) clients /\ 0 < fd)) (Z.to_nat MAX_CLIENTS) 0
    (fun i set => sd ← clients.[i]; if 0 <? sd then FD_SET sd set else Ok set) [master]) as (set & -> & Hs).
  - intros fd. rewrite list_elem_of_singleton, take_0. rewrite elem_of_nil. tauto.
  - intros i set Hi Hs. destruct (zget_range clients i) as [sd Hsd]; [lia|]. rewrite (arr_read_Ok _ _ _ Hsd), bind_ret_l, (take_S_zget _ _ _ Hsd).
    pose proof (Forall_zget _ _ _ _ Hc Hsd) as Hr. destruct (Z.ltb_spec 0 sd).
    + rewrite FD_SET_Ok by done. eexists. split; [done|]. intros fd. rewrite elem_of_cons, Hs, elem_of_app, list_elem_of_singleton. intuition congruence.
    + eexists. split; [done|]. intros fd. rewrite Hs, elem_of_app, list_elem_of_singleton. intuition lia.
  - exists set. split; [done|]. intros fd. rewrite Hs. rewrite take_ge by lia. done.
Qed.

Lemma place_first_app fd l r : Forall (fun sd => sd <> 0) l -> place_first fd (l ++ r) = l ++ place_first fd r.
Proof. induction 1 as [|sd l Hsd _ IH]; simpl; [done|]. destruct (Z.eqb_spec sd 0); [done|]. by rewrite IH. Qed.

Lemma length_place_first fd clients : length (place_first fd clients) = length clients.
Proof. induction clients as [|sd clients IH]; simpl; [done|]. destruct (sd =? 0); simpl; [done|]. by rewrite IH. Qed.

Lemma elem_of_place_first fd clients sd : sd ∈ place_first fd clients -> sd = fd \/ sd ∈ clients.
Proof.
  induction clients as [|x clients IH]; simpl; [by intros ?%elem_of_nil|]. destruct (x =? 0); rewrite !elem_of_cons; tauto.
Qed.

Lemma add_client_ok fd clients : len clients = MAX_CLIENTS -> add_client fd clients = Ok (place_first fd clients).
Proof.
  intros Hl. unfold add_client.
  destruct (for_ctl_inv (fun i (_ : unit) => Forall (fun sd => sd <> 0) (take (Z.to_nat i) clients)) (fun l => l = place_first fd clients) (Z.to_nat MAX_CLIENTS) 0
    (fun i (_ : unit) => sd ← clients.[i]; if sd =? 0 then l ← clients.[i <- fd]; Ok (Return l) else Ok (Next tt)) tt) as (c & -> & Hc).
  - by rewrite take_0.
  - intros i _ Hi HI. destruct (zget_range clients i) as [sd Hsd]; [lia|]. rewrite (arr_read_Ok _ _ _ Hsd), bind_ret_l.
    assert (clients = take (Z.to_nat i) clients ++ sd :: drop (S (Z.to_nat i)) clients) as E.
    { symmetry. apply take_drop_middle. unfold zget in Hsd. by destruct (0 <=? i). }
    destruct (Z.eqb_spec sd 0) as [->|Hne].
    + rewrite arr_write_Ok, bind_ret_l by lia. eexists. split; [done|]. simpl. rewrite E at 2. rewrite place_first_app by done. simpl.
      rewrite E at 1. rewrite <- (zset_middle (take (Z.to_nat i) clients) _ 0 fd). f_equal. rewrite length_take. lia.
    + eexists. split; [done|]. simpl. rewrite (take_S_zget _ _ _ Hsd). apply Forall_app. split; [done|]. by repeat constructor.
  - rewrite bind_ret_l. f_equal. destruct c as [u|l]; [|done]. rewrite take_ge in Hc by lia.
    rewrite <- (app_nil_r clients) at 2. rewrite place_first_app by done. by rewrite app_nil_r.
Qed.

(** The bytes read, with a terminator after them. *)
Lemma buffer_filled b bytes : len b = BUFFER_SIZE -> len bytes < BUFFER_SIZE ->
  exists b', (b1 ← copy_to b 0 bytes; b1.[len bytes <- 0]) = Ok b' /\ len b' = BUFFER_SIZE /\ c_string b' = c_string bytes.
Proof.
  intros Hb Hl. rewrite terminated_copy by lia. eexists. split; [done|]. split; [|apply c_string_before].
  rewrite length_app. simpl. rewrite length_drop. lia.
Qed.

(** The clients before place [i] have been served. *)
Record serving (r : round) (set : list Z) (s : server) (i : Z) (t : server) : Prop := {
  v_buffer : len (buffer t) = BUFFER_SIZE;
  v_clients : client_socket t = (after_read r set <$> take (Z.to_nat i) (client_socket s)) ++ drop (Z.to_nat i) (client_socket s);
  v_closed : closed t = closed s ++ (take (Z.to_nat i) (client_socket s) ≫= gone r set);
  v_sent : sent t = sent s ++ (take (Z.to_nat i) (client_socket s) ≫= echo r set)
}.

(** A read that fails, or fills the buffer, writes the terminator outside it. *)
Lemma full_read_overruns r set i s sd : zget (client_socket s) i = Some sd -> 0 <= sd < FD_SETSIZE -> len (buffer s) = BUFFER_SIZE ->
  read_result (reads r sd) -> overruns r set sd = true -> serve_client r set i s = Fault OutOfBounds.
Proof.
  intros Hz Hsd Hb [Hv Hl] [Hin Ho]%andb_true_iff. apply negb_true_iff, in_range_false in Ho.
  unfold serve_client. rewrite (arr_read_Ok _ _ _ Hz), bind_ret_l, FD_ISSET_Ok, bind_ret_l, Hin by done.
  destruct (reads r sd) as [v bytes]. cbn [fst snd] in *. unfold BUFFER_SIZE in *. destruct (Z.eqb_spec v 0); [lia|].
  rewrite copy_to_Ok, bind_ret_l by lia. rewrite arr_write_oob; [done|]. rewrite !length_app, length_take, length_drop. lia.
Qed.

Section serving.
Context (r : round) (set : list Z) (s : server) (Hok : server_ok s).

Lemma serving_place i t : 0 <= i < MAX_CLIENTS -> serving r set s i t ->
  exists sd, zget (client_socket s) i = Some sd /\ zget (client_socket t) i = Some sd /\ 0 <= sd < FD_SETSIZE /\ sd ∈ client_socket s.
Proof.
  destruct Hok as (Hl & _ & Hc). intros Hi [_ Hct _ _]. destruct (zget_range (client_socket s) i) as [sd Hsd]; [lia|]. exists sd. split; [done|].
  split; [|split; [by apply (Forall_zget _ _ _ _ Hc Hsd)|apply elem_of_zget; by exists i]].
  assert (drop (Z.to_nat i) (client_socket s) = sd :: drop (S (Z.to_nat i)) (client_socket s)) as Ed by (apply drop_S; unfold zget in Hsd; by destruct (0 <=? i)).
  assert (i = len (after_read r set <$> take (Z.to_nat i) (client_socket s))) as Hpre by (rewrite length_fmap, length_take; lia).
  rewrite Hct, Ed. rewrite Hpre at 3. apply zget_middle.
Qed.

Lemma serving_step i t sd : 0 <= i < MAX_CLIENTS -> serving r set s i t -> zget (client_socket s) i = Some sd ->
  (sd ∈ set -> short_read (reads r sd)) -> exists t', serve_client r set i t = Ok t' /\ serving r set s (i + 1) t'.
Proof.
  intros Hi HI Hsd Hrd. destruct (serving_place i t Hi HI) as (sd' & Hsd' & Hz & Hr & _). assert (sd' = sd) as -> by congruence. clear Hsd'.
  pose proof Hok as (Hl & _ & _). destruct HI as [Hbt Hct Hclt Hst]. set (cs := client_socket s) in *.
  assert (drop (Z.to_nat i) cs = sd :: drop (Z.to_nat (i + 1)) cs) as Ed.
  { replace (Z.to_nat (i + 1)) with (S (Z.to_nat i)) by lia. apply drop_S. unfold zget in Hsd. by destruct (0 <=? i). }
  assert (i = len (after_read r set <$> take (Z.to_nat i) cs)) as Hpre by (rewrite length_fmap, length_take; lia).
  assert (forall t', len (buffer t') = BUFFER_SIZE -> client_socket t' = (after_read r set <$> take (Z.to_nat i) cs) ++ after_read r set sd :: drop (Z.to_nat (i + 1)) cs ->
    closed t' = closed t ++ gone r set sd -> sent t' = sent t ++ echo r set sd -> serving r set s (i + 1) t') as Hnext.
  { intros t' H1 H2 H3 H4. split; fold cs; [done|..]; rewrite (take_S_zget _ _ _ Hsd).
    - by rewrite H2, fmap_app, <- app_assoc.
    - rewrite H3, Hclt, bind_app, <- app_assoc. simpl. by rewrite app_nil_r.
    - rewrite H4, Hst, bind_app, <- app_assoc. simpl. by rewrite app_nil_r. }
  unfold serve_client. rewrite (arr_read_Ok _ _ _ Hz), bind_ret_l, FD_ISSET_Ok, bind_ret_l by done.
  unfold after_read at 2, gone, echo in Hnext. destruct (bool_decide_reflect (sd ∈ set)) as [Hset|Hset]; cbn [andb] in Hnext.
  - destruct (Hrd Hset) as [Hv Hlen]. destruct (reads r sd) as [v bytes]. cbn [fst snd] in *. destruct (Z.eqb_spec v 0) as [->|Hv0]; cbn [negb] in Hnext.
    + rewrite arr_write_Ok, bind_ret_l by (by apply zget_Some_range in Hz). eexists. split; [done|]. apply Hnext; [done| |done|by rewrite app_nil_r].
      simpl. rewrite Hct, Ed. pose proof (zset_middle (after_read r set <$> take (Z.to_nat i) cs) (drop (Z.to_nat (i + 1)) cs) sd 0) as E. by rewrite <- Hpre in E.
    + destruct (buffer_filled (buffer t) bytes Hbt) as (b' & Eb & Hlb & Hs); [lia|]. rewrite Hlen in Eb. apply bind_Ok in Eb as (b1 & -> & Eb).
      rewrite bind_ret_l, Eb, bind_ret_l. eexists. split; [done|]. apply Hnext; [done|by rewrite <- Ed|by rewrite app_nil_r|by rewrite <- Hs].
  - eexists. split; [done|]. apply Hnext; [done|by rewrite <- Ed|by rewrite app_nil_r..].
Qed.

Lemma serving_first : serving r set s 0 s.
Proof. destruct Hok as (_ & Hb & _). split; [done|..]; change (Z.to_nat 0) with 0%nat; rewrite take_0; simpl; by rewrite ?app_nil_r. Qed.

Lemma serving_last t : serving r set s MAX_CLIENTS t -> server_ok t /\ client_socket t = after_read r set <$> client_socket s /\
  closed t = closed s ++ (client_socket s ≫= gone r set) /\ sent t = sent s ++ (client_socket s ≫= echo r set).
Proof.
  destruct Hok as (Hl & _ & Hc). intros [Hb Hcs Hcl Hse]. unfold MAX_CLIENTS in *. rewrite take_ge in Hcs, Hcl, Hse by lia. rewrite drop_ge, app_nil_r in Hcs by lia.
  split; [|done]. unfold server_ok. rewrite Hcs, length_fmap. split_and!; [done|done|].
  apply Forall_fmap. eapply list.Forall_impl; [exact Hc|]. intros sd Hr. unfold compose, after_read. destruct (_ && _); [unfold FD_SETSIZE; lia|done].
Qed.
End serving.

(** The clients served one after the other. *)
Lemma serve_clients_ok r set s : server_ok s -> 0 ∉ set -> (forall sd, sd ∈ client_socket s -> sd ∈ set -> short_read (reads r sd)) ->
  exists s', for_range (Z.to_nat MAX_CLIENTS) 0 (serve_client r set) s = Ok s' /\ server_ok s' /\
    client_socket s' = after_read r set <$> client_socket s /\
    closed s' = closed s ++ (client_socket s ≫= gone r set) /\ sent s' = sent s ++ (client_socket s ≫= echo r set).
Proof.
  intros Hok _ Hrd. destruct (for_range_inv (serving r set s) (Z.to_nat MAX_CLIENTS) 0 (serve_client r set) s) as (s' & -> & Hs).
  - by apply serving_first.
  - intros i t Hi HI. change (0 + Z.of_nat (Z.to_nat MAX_CLIENTS)) with MAX_CLIENTS in Hi. destruct (serving_place r set s Hok i t Hi HI) as (sd & Hsd & _ & _ & Hin).
    apply (serving_step r set s Hok i t sd); auto.
  - exists s'. split; [done|]. by apply serving_last.
Qed.

(** With a client whose read failed or filled the buffer the loop does not come to its
    end. *)
Lemma serve_clients_overrun r set s : server_ok s -> (forall sd, read_result (reads r sd)) -> existsb (overruns r set) (client_socket s) = true ->
  for_range (Z.to_nat MAX_CLIENTS) 0 (serve_client r set) s = Fault OutOfBounds.
Proof.
  intros Hok Hrd (x & Hx & Ho)%existsb_exists. apply list_elem_of_In, elem_of_zget in Hx as (k & Hk). pose proof Hok as (Hl & _ & _).
  destruct (for_range_either (fun i t => serving r set s i t /\ i <= k) OutOfBounds True (serve_client r set) (Z.to_nat MAX_CLIENTS) 0 s) as [(s' & _ & _ & H)|[H _]]; [| | |done].
  - split; [by apply serving_first|]. apply zget_Some_range in Hk. lia.
  - intros i t Hi [HI Hik]. change (0 + Z.of_nat (Z.to_nat MAX_CLIENTS)) with MAX_CLIENTS in Hi. destruct (serving_place r set s Hok i t Hi HI) as (sd & Hsd & Hz & Hr & _).
    destruct (overruns r set sd) eqn:Hov; [right; split; [|done]; eapply full_read_overruns; [exact Hz|done|apply HI|done|done]|left].
    destruct (serving_step r set s Hok i t sd Hi HI Hsd) as (t' & Ht & HI').
    + intros Hin. unfold overruns in Hov. rewrite bool_decide_true in Hov by done. apply negb_false_iff, in_range_true in Hov. destruct (Hrd sd). split; [done|lia].
    + exists t'. split; [done|]. split; [done|]. assert (i <> k) by (intros ->; congruence). lia.
  - apply zget_Some_range in Hk. change (0 + Z.of_nat (Z.to_nat MAX_CLIENTS)) with MAX_CLIENTS in H. lia.
Qed.

(** ** Rounds *)

(** No descriptor is in two places. *)
Definition distinct (clients : list Z) : Prop := NoDup (filter (fun sd => sd <> 0) clients).

Lemma distinct_place_first fd clients : fd <> 0 -> fd ∉ clients -> distinct clients -> distinct (place_first fd clients).
Proof.
  unfold distinct. intros Hfd. induction clients as [|x clients IH]; simpl; [done|]. intros Hn HD. apply not_elem_of_cons in Hn as [Hx Hn].
  destruct (Z.eqb_spec x 0) as [->|Hx0].
  - rewrite filter_cons_False in HD by (intros H; by apply H). rewrite filter_cons_True by done. constructor; [|done]. intros [_ Hin]%list_elem_of_filter. done.
  - rewrite filter_cons_True in HD |- * by done. apply list.NoDup_cons in HD as [Hx' HD]. constructor; [|by apply IH].
    intros [_ [->|Hin]%elem_of_place_first]%list_elem_of_filter; [done|]. apply Hx'. by apply list_elem_of_filter.
Qed.

Lemma distinct_after_read r set clients : distinct clients -> distinct (after_read r set <$> clients).
Proof.
  unfold distinct. intros HD. eapply sublist_NoDup; [exact HD|]. clear HD. induction clients as [|x clients IH]; cbn [fmap list_fmap]; [done|].
  unfold after_read at 1. destruct (_ && _).
  - rewrite (filter_cons_False _ 0) by (intros H; by apply H). rewrite filter_cons. case_decide; [by apply sublist_cons|done].
  - rewrite !filter_cons. case_decide; [by apply sublist_skip|done].
Qed.

(** What the kernel promises: [select] reports watched descriptors only, [accept] fails or
    gives one that is not in use, and [read] returns what it may.  The descriptors are
    assumed to be small enough for a set. *)
Record round_fair (master : Z) (s : server) (r : round) : Prop := {
  f_reported : forall fd, fd ∈ reported r -> fd = master \/ (fd ∈ client_socket s /\ 0 < fd);
  f_accepted : 0 <= accepted r -> 0 < accepted r < FD_SETSIZE /\ accepted r ∉ client_socket s;
  f_reads : forall sd, read_result (reads r sd)
}.

(** The table after a new connection, if one is reported. *)
Definition joined (master : Z) (r : round) (set : list Z) (s : server) : list Z :=
  if bool_decide (master ∈ set) then place_first (accepted r) (client_socket s) else client_socket s.

(** The effect of a round that reads from [set]. *)
Definition round_effect (master : Z) (r : round) (set : list Z) (s s' : server) : Prop :=
  let cs := joined master r set s in
  client_socket s' = after_read r set <$> cs /\ closed s' = closed s ++ (cs ≫= gone r set) /\ sent s' = sent s ++ (cs ≫= echo r set).

(** What a round that reads from [set] comes to. *)
Definition round_outcome (master : Z) (r : round) (set : list Z) (s : server) (o : res server) : Prop :=
  if bool_decide (master ∈ set) && (accepted r <? 0) then o = Fault (Exit 1)
  else if existsb (overruns r set) (joined master r set s) then o = Fault OutOfBounds
  else exists s', o = Ok s' /\ server_ok s' /\ distinct (client_socket s') /\ round_effect master r set s s'.

Lemma joined_ok master r set s : server_ok s -> distinct (client_socket s) -> round_fair master s r -> bool_decide (master ∈ set) && (accepted r <? 0) = false ->
  server_ok (mkServer (joined master r set s) (buffer s) (closed s) (sent s)) /\ distinct (joined master r set s).
Proof.
  intros (Hl & Hb & Hc) HD [_ Hacc _] Ha. unfold server_ok, joined. simpl. destruct (bool_decide _); [|done]. cbn in Ha. apply Z.ltb_ge in Ha. destruct (Hacc Ha) as [Hr Hfresh].
  rewrite length_place_first. split; [|apply distinct_place_first; [lia|done|done]].
  split_and!; [done..|]. apply list.Forall_forall. intros sd [->|Hin]%elem_of_place_first; [lia|]. by apply (proj1 (list.Forall_forall _ _) Hc).
Qed.

Lemma short_of_result r set s sd : (forall sd, read_result (reads r sd)) -> existsb (overruns r set) (client_socket s) = false -> sd ∈ client_socket s -> sd ∈ set -> short_read (reads r sd).
Proof.
  intros Hrd Hno Hin Hset. destruct (overruns r set sd) eqn:Ho.
  - assert (existsb (overruns r set) (client_socket s) = true); [|congruence]. apply existsb_exists. exists sd. split; [by apply list_elem_of_In|done].
  - unfold overruns in Ho. rewrite bool_decide_true in Ho by done. apply negb_false_iff, in_range_true in Ho. destruct (Hrd sd). split; [done|lia].
Qed.

Lemma round_ok master r s : 0 < master < FD_SETSIZE -> server_ok s -> distinct (client_socket s) -> round_fair master s r ->
  exists watched, watch master (client_socket s) = Ok watched /\ (forall fd, fd ∈ watched <-> fd = master \/ (fd ∈ client_socket s /\ 0 < fd)) /\
    if (activity r <? 0) && negb (interrupted r) then server_round master r s = Ok s
    else round_outcome master r (if activity r <? 0 then watched else reported r) s (server_round master r s).
Proof.
  intros Hm Hok HD Hf. pose proof Hf as [Hrep _ Hrd]. pose proof Hok as (Hl & Hb & Hc). unfold server_round.
  destruct (watch_ok master (client_socket s)) as (watched & -> & Hw); [lia|done|done|]. exists watched. split; [done|]. split; [exact Hw|]. rewrite bind_ret_l.
  destruct ((activity r <? 0) && negb (interrupted r)); [done|].
  set (set := if activity r <? 0 then watched else reported r).
  assert (0 ∉ set) as H0.
  { subst set. destruct (activity r <? 0); [rewrite Hw|intros Hin%Hrep]; lia. }
  clearbody set. rewrite FD_ISSET_Ok, bind_ret_l by lia. unfold round_outcome. destruct (bool_decide (master ∈ set) && (accepted r <? 0)) eqn:Ha.
  { apply andb_true_iff in Ha as [-> ->]. done. }
  destruct (joined_ok master r set s Hok HD Hf Ha) as [Hok1 HD1]. set (s1 := mkServer (joined master r set s) (buffer s) (closed s) (sent s)) in *.
  assert ((if bool_decide (master ∈ set) then if accepted r <? 0 then Fault (Exit 1) else
    cs ← add_client (accepted r) (client_socket s); Ok (mkServer cs (buffer s) (closed s) (sent s)) else Ok s) = Ok s1) as ->.
  { unfold s1, joined. destruct (bool_decide _); [|by destruct s]. cbn in Ha. rewrite Ha. by rewrite add_client_ok. }
  rewrite bind_ret_l. change (joined master r set s) with (client_socket s1). destruct (existsb (overruns r set) (client_socket s1)) eqn:Ho; [by apply serve_clients_overrun|].
  destruct (serve_clients_ok r set s1 Hok1 H0) as (s' & -> & Hok' & Hcs & Hcl & Hse); [intros sd; by apply short_of_result|].
  exists s'. split; [done|]. split; [done|]. split; [rewrite Hcs; by apply distinct_after_read|]. done.
Qed.

Lemma short_round master r set s o : 0 <= accepted r -> (forall sd, short_read (reads r sd)) -> round_outcome master r set s o ->
  exists s', o = Ok s' /\ server_ok s' /\ distinct (client_socket s').
Proof.
  intros Ha Hs. unfold round_outcome. rewrite (proj2 (Z.ltb_ge _ _) Ha), andb_false_r.
  destruct (existsb (overruns r set) (joined master r set s)) eqn:Ho; [|intros (s' & ? & ? & ? & _); by exists s'].
  apply existsb_exists in Ho as (sd & _ & [_ Hn]%andb_true_iff). apply negb_true_iff, in_range_false in Hn. destruct (Hs sd). lia.
Qed.

(** Rounds each of which the kernel answers fairly. *)
Fixpoint fair_rounds (master : Z) (rs : list round) (s : server) : Prop :=
  match rs with
  | [] => True
  | r :: rs => round_fair master s r /\ forall s', server_round master r s = Ok s' -> fair_rounds master rs s'
  end.

(** C26.  One round of the server, whatever [select], [accept] and [read] answer.  If
    [select] fails without being interrupted nothing changes.  Otherwise, for the set of
    descriptors reported (all those watched if [select] was interrupted): if [accept]
    fails the server exits; a new connection takes the first free place of the table, or
    none if there is none; if the read of a reported client fails or fills the buffer,
    the terminator is written outside the buffer; and if there is no such client, the
    reported clients that closed leave the table and are closed, each of the others
    reported gets back the bytes it sent, up to the first zero, once, nothing else
    changes, and no descriptor is in two places of the table. *)
Theorem server_round_echoes master r s : 0 < master < FD_SETSIZE -> server_ok s -> distinct (client_socket s) -> round_fair master s r ->
  exists watched, watch master (client_socket s) = Ok watched /\ (forall fd, fd ∈ watched <-> fd = master \/ (fd ∈ client_socket s /\ 0 < fd)) /\
    if (activity r <? 0) && negb (interrupted r) then server_round master r s = Ok s
    else round_outcome master r (if activity r <? 0 then watched else reported r) s (server_round master r s).
Proof. apply round_ok. Qed.

(** With reads shorter than the buffer and descriptors below [FD_SETSIZE], the server
    runs through any number of rounds without leaving an array, errors and
    interruptions of [select] included, and no descriptor is ever in two places of the
    table. *)
Theorem server_runs_safely master rs uninit : 0 < master < FD_SETSIZE -> len uninit = BUFFER_SIZE ->
  fair_rounds master rs (mkServer (replicate (Z.to_nat MAX_CLIENTS) 0) uninit [] []) ->
  Forall (fun r => 0 <= accepted r /\ forall sd, short_read (reads r sd)) rs ->
  exists s, server_main master 0 0 0 uninit rs = Ok s /\ server_ok s /\ distinct (client_socket s).
Proof.
  intros Hm Hu Hf Hshort. unfold server_main. destruct (Z.eqb_spec master 0); [lia|]. cbn [Z.ltb Z.compare].
  set (s0 := mkServer _ _ _ _) in *. assert (server_ok s0 /\ distinct (client_socket s0)) as [Hok HD].
  { split; [split_and!; [done|done|by apply Forall_replicate]|]. unfold distinct. vm_compute. constructor. }
  clearbody s0. revert s0 Hok HD Hf. induction Hshort as [|r rs [Ha Hs] _ IH]; intros s0 Hok HD Hf; cbn [server_rounds]; [by exists s0|].
  destruct Hf as [Hr Hf]. destruct (round_ok master r s0 Hm Hok HD Hr) as (watched & _ & _ & H).
  destruct ((activity r <? 0) && negb (interrupted r)); [rewrite H, bind_ret_l; by auto|].
  destruct (short_round _ _ _ _ _ Ha Hs H) as (s1 & E & Hok1 & HD1). rewrite E, bind_ret_l. apply IH; auto.
Qed.

(** ** Examples *)

(** Two rounds: a connection on descriptor 5, then [hi], a zero and one byte more. *)
Definition connect : round := mkRound 1 false [3] 5 (fun _ => (0, [])).
Definition talk : round := mkRound 1 false [5] 6 (fun _ => (4, [104; 105; 0; 33])).
Definition blank : server := mkServer (replicate (Z.to_nat MAX_CLIENTS) 0) (replicate 1024 0) [] [].
Definition one_client : server := mkServer (5 :: replicate 29 0) (replicate 1024 0) [] [].

Definition fills : round := mkRound 1 false [5] 6 (fun _ => (1024, replicate 1024 65)).

Lemma connect_fair : round_fair 3 blank connect.
Proof.
  split; [by intros fd ->%list_elem_of_singleton; left| |].
  - intros _. split; [unfold FD_SETSIZE; simpl; lia|]. intros [? _]%elem_of_replicate. done.
  - intros sd. unfold read_result, BUFFER_SIZE. simpl. lia.
Qed.

Lemma one_client_fair r : reported r = [5] -> accepted r = 6 -> (forall sd, read_result (reads r sd)) -> round_fair 3 one_client r.
Proof.
  intros Hr Ha Hrd. split; [|rewrite Ha|done].
  - rewrite Hr. intros fd ->%list_elem_of_singleton. right. split; [|lia]. apply list_elem_of_here.
  - intros _. split; [unfold FD_SETSIZE; simpl; lia|]. intros [?|[? _]%elem_of_replicate]%elem_of_cons; done.
Qed.

Lemma one_client_ok : server_ok one_client /\ distinct (client_socket one_client).
Proof.
  split; [split_and!; [done|done|]; constructor; [unfold FD_SETSIZE; lia|]; apply Forall_replicate; unfold FD_SETSIZE; lia|].
  unfold distinct. vm_compute. repeat constructor. by intros ?%elem_of_nil.
Qed.

Lemma server_round_echoes_witness : (exists s', server_round 3 talk one_client = Ok s' /\ sent s' = [(5, [104; 105])]) /\
  server_round 3 fills one_client = Fault OutOfBounds.
Proof.
  destruct one_client_ok as [Hok HD]. split.
  - destruct (server_round_echoes 3 talk one_client) as (w & _ & _ & H); [unfold FD_SETSIZE; lia|done|done| |].
    + apply one_client_fair; [done|done|]. intros sd. unfold read_result, BUFFER_SIZE. simpl. lia.
    + destruct H as (s' & Hr & _ & _ & _ & _ & Hs). exists s'. split; [exact Hr|]. rewrite Hs. vm_compute. reflexivity.
  - destruct (server_round_echoes 3 fills one_client) as (w & _ & _ & H); [unfold FD_SETSIZE; lia|done|done| |exact H].
    apply one_client_fair; [done|done|]. intros sd. unfold read_result, BUFFER_SIZE. cbn [fills reads fst snd]. rewrite length_replicate. lia.
Defined.

Lemma server_runs_safely_witness : exists s, server_main 3 0 0 0 (replicate 1024 0) [connect; talk] = Ok s /\ distinct (client_socket s).
Proof.
  destruct (server_runs_safely 3 [connect; talk] (replicate 1024 0)) as (s & Hs & _ & HD); [unfold FD_SETSIZE; lia|done| | |by exists s].
  - split; [exact connect_fair|]. intros s' E. assert (s' = one_client) as ->; [vm_compute in E; injection E as <-; vm_compute; reflexivity|].
    split; [|done]. apply one_client_fair; [done|done|]. intros sd. unfold read_result, BUFFER_SIZE. simpl. lia.
  - repeat constructor; unfold short_read, BUFFER_SIZE; simpl; lia.
Defined.

(** With thirty clients a further connection is neither stored nor closed. *)
Lemma extra_client_leaks :
  (s ← server_round 3 (mkRound 1 false [3] 50 (fun _ => (0, []))) (mkServer (seqZ 4 30) (replicate 1024 0) [] []); Ok (client_socket s, closed s)) = Ok (seqZ 4 30, []).
Proof. vm_compute. reflexivity. Qed.
