(* ===== verification/PrioMutex.v ===== *)
(** * Mutexes that record priorities ([concurrency/synchronization/priority_inheritance.c],
    [concurrency/synchronization/rtMutex.c])

    Threads that each lock one mutex once, with fields beside the mutex that are read
    and written inside and outside it; an access to a field is a step.  The first
    section has the rule for such programs: mutual exclusion, an invariant of the
    fields that depends on where the holder is, and that all threads finish.  The two
    programs are instances. *)
From Stdlib Require Import ZArith Lia.
From stdpp Require Import base tactics list numbers option relations.
From S2P Require Import Prelude.

#[local] Open Scope Z_scope.

(** ** Programs with one mutex *)

(** What a thread does next: a step of its own, taking the mutex, releasing it, or
    nothing. *)
Inductive kind : Type := Local | Lock | Release | End.

#[export] Instance kind_eq : EqDecision kind.
Proof. solve_decision. Defined.

Section one_mutex.
Context {P F : Type} (kind_of : P -> kind) (next : Z -> P -> F -> P * F).

Record system : Type := mkSystem { holder : option Z; fields : F; places : list P }.

Inductive step (s : system) : system -> Prop :=
| step_local i p : zget (places s) i = Some p -> kind_of p = Local ->
    step s (mkSystem (holder s) (next i p (fields s)).2 (zset (places s) i (next i p (fields s)).1))
| step_lock i p : zget (places s) i = Some p -> kind_of p = Lock -> holder s = None ->
    step s (mkSystem (Some i) (next i p (fields s)).2 (zset (places s) i (next i p (fields s)).1))
| step_release i p : zget (places s) i = Some p -> kind_of p = Release ->
    step s (mkSystem None (next i p (fields s)).2 (zset (places s) i (next i p (fields s)).1)).

(** [inside p]: the thread holds the mutex at [p].  [J] relates the place of the holder
    to the fields; [rank] counts the steps to the end. *)
Context (inside : P -> bool) (J : option (Z * P) -> F -> Prop) (rank : P -> Z).

Record mutex_laws : Prop := {
  local_inside i p f : kind_of p = Local -> inside (next i p f).1 = inside p;
  lock_inside i p f : kind_of p = Lock -> inside p = false /\ inside (next i p f).1 = true;
  release_inside i p f : kind_of p = Release -> inside p = true /\ inside (next i p f).1 = false;
  end_outside p : kind_of p = End -> inside p = false;
  outside_keeps i p f h : kind_of p = Local -> inside p = false -> J h f -> J h (next i p f).2;
  holder_keeps i p f : kind_of p = Local -> inside p = true -> J (Some (i, p)) f -> J (Some (i, (next i p f).1)) (next i p f).2;
  lock_keeps i p f : kind_of p = Lock -> J None f -> J (Some (i, (next i p f).1)) (next i p f).2;
  release_keeps i p f : kind_of p = Release -> J (Some (i, p)) f -> J None (next i p f).2;
  rank_decreases i p f : kind_of p <> End -> 0 <= rank (next i p f).1 < rank p
}.

(** The holder is the one thread inside. *)
Record ok (s : system) : Prop := {
  o_inside i p : zget (places s) i = Some p -> inside p = true -> holder s = Some i;
  o_fields : match holder s with
             | None => J None (fields s)
             | Some i => exists p, zget (places s) i = Some p /\ inside p = true /\ J (Some (i, p)) (fields s)
             end
}.

Context (laws : mutex_laws).

Lemma mutex_step_ok s s' : ok s -> step s s' -> ok s'.
Proof using laws.
  intros [Hin HJ] Hs. destruct laws as [L1 L2 L3 L4 L5 L6 L7 L8 _]. destruct Hs as [i p Hp Hk|i p Hp Hk Hn|i p Hp Hk]; pose proof (zget_Some_range _ _ _ Hp) as Hr.
  - specialize (L1 i p (fields s) Hk). constructor; simpl.
    + intros j q Hq Hi. destruct (zget_zset_inv _ _ _ _ _ Hq) as [[-> ->]|[_ Hq']]; [|by eapply Hin]. apply (Hin i p Hp). congruence.
    + destruct (holder s) as [j|] eqn:Eh; [|destruct (inside p) eqn:E; [by specialize (Hin i p Hp E)|by apply L5]].
      destruct HJ as (q & Hq & Hqi & HJ). destruct (decide (j = i)) as [->|Hne].
      * assert (q = p) as -> by congruence. eexists. split; [apply zget_zset_eq; lia|]. split; [congruence|by apply L6].
      * exists q. rewrite zget_zset_ne by done. split_and!; [done..|]. apply L5; [done| |done]. destruct (inside p) eqn:E; [|done]. specialize (Hin i p Hp E). congruence.
  - destruct (L2 i p (fields s) Hk) as [H1 H2]. rewrite Hn in HJ. constructor; simpl.
    + intros j q Hq Hi. destruct (zget_zset_inv _ _ _ _ _ Hq) as [[-> ->]|[_ Hq']]; [done|]. specialize (Hin j q Hq' Hi). congruence.
    + eexists. split; [apply zget_zset_eq; lia|]. split; [done|by apply L7].
  - destruct (L3 i p (fields s) Hk) as [H1 H2]. pose proof (Hin i p Hp H1) as Eh. rewrite Eh in HJ. destruct HJ as (q & Hq & _ & HJ). assert (q = p) as -> by congruence.
    constructor; simpl; [|by eapply L8]. intros j q Hq' Hi. destruct (zget_zset_inv _ _ _ _ _ Hq') as [[-> ->]|[Hne Hq'']]; [congruence|].
    specialize (Hin j q Hq'' Hi). congruence.
Qed.

Lemma mutex_reach s0 s : ok s0 -> rtc step s0 s -> ok s.
Proof using laws. intros H0. apply (rtc_ind_r (R := step) ok); [done|]. intros s1 s2 _ Hs H. by eapply mutex_step_ok. Qed.

Definition all_ended (s : system) : Prop := Forall (fun p => kind_of p = End) (places s).

(** Some thread can go on until all have ended. *)
Lemma progress s : ok s -> all_ended s \/ exists s', step s s'.
Proof using laws.
  intros [Hin HJ]. destruct (decide (Exists (fun p => kind_of p = Local \/ kind_of p = Release) (places s))) as [He|Hne].
  - right. apply Exists_exists in He as (p & [i Hi]%elem_of_zget & [Hk|Hk]); eexists; [by eapply step_local|by eapply step_release].
  - destruct (decide (Exists (fun p => kind_of p = Lock) (places s))) as [He|Hnl].
    + right. apply Exists_exists in He as (p & [i Hi]%elem_of_zget & Hk). destruct (holder s) as [j|] eqn:Eh; [|eexists; by eapply step_lock].
      destruct HJ as (q & Hq & Hqi & _). exfalso. apply Hne. apply Exists_exists. exists q. split; [apply elem_of_zget; by exists j|].
      destruct laws as [_ L2 _ L4 _ _ _ _ _]. destruct (kind_of q) eqn:Ek; auto.
      * destruct (L2 j q (fields s) Ek). congruence.
      * rewrite L4 in Hqi by done. done.
    + left. apply list.Forall_forall. intros p Hp. destruct (kind_of p) eqn:Ek; [exfalso; apply Hne|exfalso; apply Hnl|exfalso; apply Hne|done]; apply Exists_exists; eauto.
Qed.

Lemma step_rank s s' : step s s' -> total rank (places s') < total rank (places s).
Proof using laws.
  intros Hs. destruct laws as [_ _ _ _ _ _ _ _ L9].
  destruct Hs as [i p Hp Hk|i p Hp Hk _|i p Hp Hk]; simpl; rewrite (total_zset _ _ _ _ _ Hp); specialize (L9 i p (fields s) ltac:(congruence)); lia.
Qed.

(** Two threads are never inside. *)
Lemma exclusion s i j p q : ok s -> zget (places s) i = Some p -> zget (places s) j = Some q -> inside p = true -> inside q = true -> i = j.
Proof. intros [Hin _] Hp Hq Hi Hj. pose proof (Hin i p Hp Hi). pose proof (Hin j q Hq Hj). congruence. Qed.

(** A run in which the threads of a list take a step each. *)
Fixpoint run (schedule : list Z) (s : system) : option system :=
  match schedule with
  | [] => Some s
  | i :: schedule =>
      p ← zget (places s) i;
      let '(p', f') := next i p (fields s) in
      let ps := zset (places s) i p' in
      match kind_of p, holder s with
      | Local, h => run schedule (mkSystem h f' ps)
      | Lock, None => run schedule (mkSystem (Some i) f' ps)
      | Release, _ => run schedule (mkSystem None f' ps)
      | _, _ => None
      end
  end.

Lemma run_reach schedule : forall s s', run schedule s = Some s' -> rtc step s s'.
Proof.
  induction schedule as [|i schedule IH]; intros s s'; simpl; [intros [= <-]; apply rtc_refl|].
  destruct (zget (places s) i) as [p|] eqn:Hp; [|done]. simpl. rewrite (surjective_pairing (next i p (fields s))).
  destruct (kind_of p) eqn:Hk; [|destruct (holder s) eqn:Hh; [done|]| |done]; intros H%IH; (eapply rtc_l; [|exact H]);
    [by apply (step_local s i p)|by apply (step_lock s i p)|by apply (step_release s i p)].
Qed.
End one_mutex.

#[global] Arguments system : clear implicits.

(** ** [priority_inheritance.c] *)

Module Inherit.

Definition LOW_PRIO : Z := 1.
Definition MED_PRIO : Z := 2.
Definition HIGH_PRIO : Z := 3.

(** [mutex.owner_priority], [mutex.highest_waiter_priority], and the messages about a
    boost: the task and the priority that is printed. *)
Record rt_mutex : Type := mkMutex { owner_priority : Z; highest_waiter_priority : Z; boosts : list (Z * Z) }.

(** The places of [task_function], one for each access. *)
Inductive place : Type :=
| ReadOwner | ReadHighest | WriteHighest | LockMutex | SetOwner | ClearHighest | Working | ClearOwner | Unlock | Finished.

(** The priority of task [i]; no code changes it. *)
Definition priority (i : Z) : Z := if i =? 0 then LOW_PRIO else if i =? 1 then MED_PRIO else HIGH_PRIO.

Definition rt_mutex_init : rt_mutex := mkMutex 0 0 [].

Definition kind_of (p : place) : kind := match p with LockMutex => Lock | Unlock => Release | Finished => End | _ => Local end.

(** [rt_mutex_lock], the work, and [rt_mutex_unlock]. *)
Definition task_function (i : Z) (p : place) (m : rt_mutex) : place * rt_mutex :=
  match p with
  | ReadOwner => (if owner_priority m =? 0 then LockMutex else ReadHighest, m)
  | ReadHighest => (if highest_waiter_priority m <? priority i then WriteHighest else LockMutex, m)
  | WriteHighest => (LockMutex, mkMutex (owner_priority m) (priority i) (boosts m ++ [(i, priority i)]))
  | LockMutex => (SetOwner, m)
  | SetOwner => (ClearHighest, mkMutex (priority i) (highest_waiter_priority m) (boosts m))
  | ClearHighest => (Working, mkMutex (owner_priority m) 0 (boosts m))
  | Working => (ClearOwner, m)
  | ClearOwner => (Unlock, mkMutex 0 (highest_waiter_priority m) (boosts m))
  | Unlock => (Finished, m)
  | Finished => (Finished, m)
  end.

Definition tasks_start (n : nat) : system place rt_mutex := mkSystem None rt_mutex_init (replicate n ReadOwner).

Definition inside (p : place) : bool := match p with SetOwner | ClearHighest | Working | ClearOwner | Unlock => true | _ => false end.

(** The recorded owner is the holder, from its entry until it clears the field. *)
Definition owner_recorded (h : option (Z * place)) (m : rt_mutex) : Prop :=
  owner_priority m = match h with Some (i, (ClearHighest | Working | ClearOwner)) => priority i | _ => 0 end /\ 0 <= highest_waiter_priority m <= HIGH_PRIO.

Definition rank (p : place) : Z :=
  match p with
  | ReadOwner => 9 | ReadHighest => 8 | WriteHighest => 7 | LockMutex => 6 | SetOwner => 5 | ClearHighest => 4 | Working => 3 | ClearOwner => 2 | Unlock => 1 | Finished => 0
  end.

Lemma priority_range i : 0 < priority i <= HIGH_PRIO.
Proof. unfold priority, LOW_PRIO, MED_PRIO, HIGH_PRIO. destruct (i =? 0), (i =? 1); lia. Qed.

Lemma inherit_laws : mutex_laws kind_of task_function inside owner_recorded rank.
Proof.
  constructor.
  - intros i [] m; try done; simpl; intros _; by case_match.
  - intros i [] m; done.
  - intros i [] m; done.
  - intros []; done.
  - intros i [] m h; try done; intros _ _ [H1 H2]; (split; [done|]); simpl; try done. pose proof (priority_range i). simpl. lia.
  - intros i [] m; try done; intros _ _ [H1 H2]; (split; [simpl; done|]); simpl; unfold HIGH_PRIO; (done || lia).
  - intros i [] m; done.
  - intros i [] m; done.
  - intros i [] m; try done; simpl; intros _; repeat case_match; simpl; lia.
Qed.

(** In [priority_inheritance.c], for any number of tasks and every schedule: at most
    one task is between taking and releasing the mutex, the owner's priority recorded
    beside the mutex is that of the task at work and 0 while nobody holds it, the
    priority recorded for waiters is one of a task or 0, and until all tasks have
    finished one of them can go on, each step bringing the end nearer. *)
Theorem inherit_mutex_correct n s : rtc (step kind_of task_function) (tasks_start n) s ->
  (forall i j p q, zget (places s) i = Some p -> zget (places s) j = Some q -> inside p = true -> inside q = true -> i = j) /\
  (holder s = None -> owner_priority (fields s) = 0) /\
  (forall i, zget (places s) i = Some Working -> owner_priority (fields s) = priority i) /\
  0 <= highest_waiter_priority (fields s) <= HIGH_PRIO /\
  (Forall (fun p => p = Finished) (places s) \/ exists s', step kind_of task_function s s') /\
  (forall s', step kind_of task_function s s' -> total rank (places s') < total rank (places s)).
Proof.
  intros Hr. assert (ok inside owner_recorded (tasks_start n)) as H0.
  { split; [intros i p Hp; by apply zget_replicate in Hp as ->|]. simpl. unfold owner_recorded, HIGH_PRIO. simpl. lia. }
  pose proof (mutex_reach _ _ _ _ _ inherit_laws _ _ H0 Hr) as Hok. pose proof Hok as [Hin HJ]. split; [|split; [|split; [|split; [|split]]]].
  - intros i j p q. by apply exclusion with (J := owner_recorded).
  - intros Hn. rewrite Hn in HJ. by destruct HJ.
  - intros i Hi. rewrite (Hin i Working Hi eq_refl) in HJ. destruct HJ as (p & Hp & _ & [HJ _]). assert (p = Working) as -> by congruence. done.
  - destruct (holder s); [destruct HJ as (p & _ & _ & [_ HJ])|destruct HJ as [_ HJ]]; exact HJ.
  - destruct (progress _ _ _ _ _ inherit_laws s Hok) as [He|He]; [left|by right]. eapply list.Forall_impl; [exact He|]. by intros [].
  - intros s'. apply (step_rank _ _ _ _ _ inherit_laws).
Qed.

(** The first task at work, the other two waiting. *)
Definition contended : system place rt_mutex :=
  mkSystem (Some 0) (mkMutex LOW_PRIO HIGH_PRIO [(1, MED_PRIO); (2, HIGH_PRIO)]) [Working; LockMutex; LockMutex].

Lemma inherit_mutex_correct_witness : owner_priority (fields contended) = LOW_PRIO /\ exists s', step kind_of task_function contended s'.
Proof.
  destruct (inherit_mutex_correct 3 contended) as (_ & _ & H & _ & [Hf|Hs] & _).
  - apply (run_reach _ _ [0; 0; 0; 0; 1; 1; 1; 2; 2; 2]). vm_compute. reflexivity.
  - apply list.Forall_cons in Hf as [Hf _]. done.
  - split; [by apply (H 0)|exact Hs].
Defined.

(** The test and the write of the waiters' priority are not one step: the task of
    middle priority overwrites that of the highest, which still waits. *)
Lemma boost_overwritten : exists s, rtc (step kind_of task_function) (tasks_start 3) s /\
  highest_waiter_priority (fields s) = MED_PRIO /\ zget (places s) 2 = Some LockMutex /\ priority 2 = HIGH_PRIO.
Proof.
  eexists. split; [apply (run_reach _ _ [0; 0; 0; 0; 1; 1; 2; 2; 2; 1]); vm_compute; reflexivity|]. done.
Qed.

(** A boost may be recorded when nobody holds the mutex any more. *)
Lemma boost_of_nobody : exists s, rtc (step kind_of task_function) (tasks_start 2) s /\
  holder s = None /\ highest_waiter_priority (fields s) = MED_PRIO.
Proof.
  eexists. split; [apply (run_reach _ _ [0; 0; 0; 0; 1; 1; 0; 0; 0; 1]); vm_compute; reflexivity|]. done.
Qed.
End Inherit.

(** ** [rtMutex.c] *)

Module Plain.

(** [mutex.owner_priority], and the messages about a boost: from and to. *)
Record rt_mutex_t : Type := mkRt { owner_priority : Z; boosted : list (Z * Z) }.

Inductive place : Type := LockMutex | TestOwner | SetOwner | Working | ClearOwner | Unlock | Finished.

Section threads.
(** The priority of each thread, from its identifier. *)
Context (pthread_self : Z -> Z).

(** [(int)(long)pthread_self() % 100]. *)
Definition priority (i : Z) : Z := let v := pthread_self i mod UINT32 in Z.rem (if v <? 2147483648 then v else v - UINT32) 100.

Definition rt_mutex_init : rt_mutex_t := mkRt (-1) [].

Definition kind_of (p : place) : kind := match p with LockMutex => Lock | Unlock => Release | Finished => End | _ => Local end.

Definition test_thread (i : Z) (p : place) (m : rt_mutex_t) : place * rt_mutex_t :=
  match p with
  | LockMutex => (TestOwner, m)
  | TestOwner =>
      (SetOwner, if negb (owner_priority m =? -1) && (owner_priority m <? priority i)
                 then mkRt (owner_priority m) (boosted m ++ [(owner_priority m, priority i)]) else m)
  | SetOwner => (Working, mkRt (priority i) (boosted m))
  | Working => (ClearOwner, m)
  | ClearOwner => (Unlock, mkRt (-1) (boosted m))
  | Unlock => (Finished, m)
  | Finished => (Finished, m)
  end.

Definition threads_start (n : nat) : system place rt_mutex_t := mkSystem None rt_mutex_init (replicate n LockMutex).

Definition inside (p : place) : bool := match p with LockMutex | Finished => false | _ => true end.

Definition owner_recorded (h : option (Z * place)) (m : rt_mutex_t) : Prop :=
  owner_priority m = match h with Some (i, (Working | ClearOwner)) => priority i | _ => -1 end /\ boosted m = [].

Definition rank (p : place) : Z :=
  match p with LockMutex => 6 | TestOwner => 5 | SetOwner => 4 | Working => 3 | ClearOwner => 2 | Unlock => 1 | Finished => 0 end.

Lemma plain_laws : mutex_laws kind_of test_thread inside owner_recorded rank.
Proof.
  constructor.
  - intros i [] m; done.
  - intros i [] m; done.
  - intros i [] m; done.
  - intros []; done.
  - intros i [] m h; done.
  - intros i [] m; try done; intros _ _ [H1 H2]; unfold owner_recorded in *; cbn in *; try done. rewrite H1. done.
  - intros i [] m; done.
  - intros i [] m; done.
  - intros i [] m; try done; simpl; intros _; lia.
Qed.

(** In [rtMutex.c], for any number of threads and every schedule: at most one thread
    is inside the mutex, the recorded owner is the thread at work, all threads finish;
    and the message about priority inheritance is never printed, because whoever takes
    the mutex finds no owner recorded. *)
Theorem boost_never_printed n s : rtc (step kind_of test_thread) (threads_start n) s ->
  boosted (fields s) = [] /\
  (forall i j p q, zget (places s) i = Some p -> zget (places s) j = Some q -> inside p = true -> inside q = true -> i = j) /\
  (forall i, zget (places s) i = Some Working -> owner_priority (fields s) = priority i) /\
  (Forall (fun p => p = Finished) (places s) \/ exists s', step kind_of test_thread s s') /\
  (forall s', step kind_of test_thread s s' -> total rank (places s') < total rank (places s)).
Proof.
  intros Hr. assert (ok inside owner_recorded (threads_start n)) as H0.
  { split; [intros i p Hp; by apply zget_replicate in Hp as ->|]. done. }
  pose proof (mutex_reach _ _ _ _ _ plain_laws _ _ H0 Hr) as Hok. pose proof Hok as [Hin HJ]. split_and!.
  - destruct (holder s); [destruct HJ as (p & _ & _ & [_ HJ])|destruct HJ as [_ HJ]]; exact HJ.
  - intros i j p q. by apply exclusion with (J := owner_recorded).
  - intros i Hi. rewrite (Hin i Working Hi eq_refl) in HJ. destruct HJ as (p & Hp & _ & [HJ _]). assert (p = Working) as -> by congruence. done.
  - destruct (progress _ _ _ _ _ plain_laws s Hok) as [He|He]; [left|by right]. eapply list.Forall_impl; [exact He|]. by intros [].
  - intros s'. apply (step_rank _ _ _ _ _ plain_laws).
Qed.
End threads.

Lemma boost_never_printed_witness :
  let s := mkSystem (Some 1) (mkRt 42 []) [Finished; Working] in
  boosted (fields s) = [] /\ owner_priority (fields s) = priority (fun i => 41 + i) 1.
Proof.
  intros s. destruct (boost_never_printed (fun i => 41 + i) 2 s) as (H & _ & Ho & _).
  - apply (run_reach _ _ [0; 0; 0; 0; 0; 0; 1; 1; 1]). vm_compute. reflexivity.
  - split; [exact H|by apply (Ho 1)].
Defined.
End Plain.
