(* ===== verification/Signals.v ===== *)
(** * Programs driven by signals ([os/process/scheduler/preemptive_scheduler.c],
    [concurrency/threads/exceptionHandling.c])

    A timer whose handler charges and frees a task, and handlers that return by a
    jump.  When signals arrive is an argument. *)
From Stdlib Require Import ZArith Lia.
From stdpp Require Import base tactics list numbers option gmap.
From S2P Require Import Prelude CHeap.

#[local] Open Scope Z_scope.
#[local] Open Scope c_scope.

(** ** [preemptive_scheduler.c] *)

Module Preempt.

Definition QUANTUM_MS : Z := 100.
Definition SIGVTALRM : Z := 26.

Record Task : Type := mkTask { pid : Z; remaining_time : Z }.

(** The heap and [current_task]; 0 is NULL. *)
Record process : Type := mkProcess { tasks : heap Task; current_task : Z }.

Definition timer_handler (s : process) : res process :=
  if current_task s =? 0 then Ok s else
  t ← load (tasks s) (current_task s);
  r ← isub (remaining_time t) QUANTUM_MS;
  h ← store (tasks s) (current_task s) (mkTask (pid t) r);
  if r <=? 0 then h ← free h (current_task s); Ok (mkProcess h 0)
  else Ok (mkProcess h (current_task s)).

(** [n] signals, each handled. *)
Fixpoint handle (n : nat) (s : process) : res process :=
  match n with O => Ok s | S n => s ← timer_handler s; handle n s end.

(** Whether the timer runs: what [setitimer] says of its first argument. *)
Definition setup_timer (setitimer : Z -> bool) : bool := setitimer SIGVTALRM.

Definition create_task (alloc : allocator Task) (h : heap Task) (id execution_time : Z) : res (heap Task * Z) :=
  match alloc h with
  | None => Fault NullDeref
  | Some a => Ok (<[a := mkTask id execution_time]> h, a)
  end.

(** [signals n] signals arrive before the [n]-th look at [current_task], if the timer
    runs. *)
Definition preempt_main (fuel : nat) (setitimer : Z -> bool) (alloc : allocator Task) (signals : nat -> nat) (h : heap Task) : res process :=
  let armed := setup_timer setitimer in
  '(h, a) ← create_task alloc h 1 500;
  s ← (if armed then handle (signals 0%nat) (mkProcess h a) else Ok (mkProcess h a));
  _ ← load (tasks s) (current_task s);
  loop fuel (fun '(s, n) =>
    s ← (if armed then handle (signals n) s else Ok s);
    if current_task s =? 0 then Ok (Return s) else Ok (Next (s, S n))) (s, 1%nat).

Lemma handle_null n h : handle n (mkProcess h 0) = Ok (mkProcess h 0).
Proof. induction n as [|n IH]; [done|]. simpl. by rewrite IH. Qed.

Lemma handler_charges h a id r : a <> 0 -> h !! a = None -> 0 < r <= INT_MAX ->
  timer_handler (mkProcess (<[a := mkTask id r]> h) a) =
    Ok (if r <=? QUANTUM_MS then mkProcess h 0 else mkProcess (<[a := mkTask id (r - QUANTUM_MS)]> h) a).
Proof.
  intros Ha Hn Hr. unfold timer_handler, QUANTUM_MS. simpl. destruct (Z.eqb_spec a 0); [done|].
  rewrite load_insert, bind_ret_l, isub_Ok, bind_ret_l by (done || unfold INT_MIN, INT_MAX in *; simpl; lia). simpl.
  erewrite store_Ok, bind_ret_l by (done || by rewrite lookup_insert_eq). rewrite insert_insert_eq.
  destruct (Z.leb_spec (r - 100) 0), (Z.leb_spec r 100); try lia; [|done]. by rewrite free_fresh.
Qed.

Lemma handle_lifetime n : forall h a id r, a <> 0 -> h !! a = None -> 0 < r <= INT_MAX ->
  handle n (mkProcess (<[a := mkTask id r]> h) a) =
    Ok (if r <=? QUANTUM_MS * Z.of_nat n then mkProcess h 0 else mkProcess (<[a := mkTask id (r - QUANTUM_MS * Z.of_nat n)]> h) a).
Proof.
  unfold QUANTUM_MS. induction n as [|n IH]; intros h a id r Ha Hn Hr.
  - destruct (Z.leb_spec r (100 * Z.of_nat 0)); [lia|]. simpl. do 4 f_equal. lia.
  - cbn [handle]. rewrite handler_charges, bind_ret_l by done. unfold QUANTUM_MS. destruct (Z.leb_spec r 100).
    + rewrite handle_null. destruct (Z.leb_spec r (100 * Z.of_nat (S n))); [done|lia].
    + rewrite IH by (done || lia). destruct (Z.leb_spec (r - 100) (100 * Z.of_nat n)), (Z.leb_spec r (100 * Z.of_nat (S n))); try lia; [done|].
      do 4 f_equal. lia.
Qed.

(** However many signals arrive, the handler of [preemptive_scheduler.c] charges the
    task a quantum for each, frees it once when its time is used up, and does nothing
    after that; memory that was in use before is untouched. *)
Theorem timer_frees_once (alloc : allocator Task) `{!MallocLaws alloc} h id time n h' a :
  create_task alloc h id time = Ok (h', a) -> 0 < time <= INT_MAX ->
  exists s, handle n (mkProcess h' a) = Ok s /\
    if time <=? QUANTUM_MS * Z.of_nat n then tasks s = h /\ current_task s = 0
    else current_task s = a /\ tasks s = <[a := mkTask id (time - QUANTUM_MS * Z.of_nat n)]> h.
Proof.
  unfold create_task. destruct (alloc h) as [b|] eqn:E; [|done]. intros [= <- <-] Ht. pose proof (malloc_fresh _ _ E). pose proof (malloc_range _ _ E).
  rewrite handle_lifetime by (done || lia). eexists. split; [done|]. by destruct (_ <=? _).
Qed.

(** A first argument that is not one of the three timers makes [setitimer] fail, and
    [SIGVTALRM] is none: no signal ever arrives and [main] runs forever. *)
Theorem preempt_main_diverges (setitimer : Z -> bool) (alloc : allocator Task) `{!MallocLaws alloc} signals h fuel :
  (forall which, which < 0 \/ 2 < which -> setitimer which = false) -> is_Some (alloc h) ->
  preempt_main fuel setitimer alloc signals h = Fault OutOfFuel.
Proof.
  intros Hset [a Ha]. pose proof (malloc_range _ _ Ha). unfold preempt_main, setup_timer, create_task, SIGVTALRM. rewrite Hset by lia. rewrite Ha, !bind_ret_l. simpl tasks. simpl current_task.
  rewrite load_insert, bind_ret_l by lia.
  apply (loop_diverges (fun st => current_task (fst st) = a)); [|done]. intros [s k] Hs. simpl in Hs. rewrite bind_ret_l. subst a.
  destruct (Z.eqb_spec (current_task s) 0); [lia|]. by eexists.
Qed.

(** The kernel's check of the argument. *)
Definition valid_timer (which : Z) : bool := (0 <=? which) && (which <=? 2).

Lemma preempt_main_diverges_witness : preempt_main 50 valid_timer (bump 10) (fun _ => 1%nat) ∅ = Fault OutOfFuel.
Proof.
  pose proof (bump_laws (V := Task) 10 ltac:(lia)) as HL. apply (preempt_main_diverges valid_timer (bump 10)); [|by eexists].
  intros which [H|H]; unfold valid_timer; destruct (Z.leb_spec 0 which), (Z.leb_spec which 2); (done || lia).
Defined.

Lemma timer_frees_once_witness : exists s, handle 7 (mkProcess {[ 16 := mkTask 1 500 ]} 16) = Ok s /\ tasks s = ∅ /\ current_task s = 0.
Proof.
  pose proof (bump_laws (V := Task) 10 ltac:(lia)) as HL.
  destruct (timer_frees_once (bump 10) ∅ 1 500 7 {[ 16 := mkTask 1 500 ]} 16) as (s & Hs & H); [reflexivity|unfold INT_MAX; lia|].
  exists s. split; [exact Hs|]. exact H.
Defined.

(** With a timer that runs, the program ends after five signals. *)
Lemma preempt_main_ends : preempt_main 50 (fun _ => true) (bump 10) (fun _ => 1%nat) ∅ = Ok (mkProcess ∅ 0).
Proof. vm_compute. reflexivity. Qed.
End Preempt.

(** ** [exceptionHandling.c] *)

Module Exceptions.

(** How the program ends: [main] returns, a handler exits, or a signal kills it. *)
Inductive ending : Type := Returned (code : Z) | Exited (code : Z) | Killed.

(** The two counters, and whether SIGSEGV is blocked. *)
Record process : Type := mkProcess { interrupt_count : Z; segfault_count : Z; blocked : bool }.

Definition handle_interrupt (s : process) : res process :=
  n ← iadd (interrupt_count s) 1; Ok (mkProcess n (segfault_count s) (blocked s)).

(** [pauses] are the numbers of signals handled during the three calls of [pause]. *)
Fixpoint deliver (n : nat) (s : process) : res process :=
  match n with O => Ok s | S n => s ← handle_interrupt s; deliver n s end.

Definition trigger_interrupt (setitimer_ok : bool) (pauses : nat * nat * nat) (s : process) : res process :=
  if negb setitimer_ok then Ok s else
  let '(a, b, c) := pauses in
  s ← deliver a s; s ← deliver b s; deliver c s.

(** [read] of at most [count] bytes when [input] can be read, or failed if it is [None]. *)
Definition read_input (count : Z) (input : option (list Z)) : Z * list Z :=
  match input with None => (-1, []) | Some l => let bytes := take (Z.to_nat count) l in (len bytes, bytes) end.

(** The buffer has 100 bytes, which start as [uninit].  The result is what is printed. *)
Definition trigger_syscall (uninit : list Z) (input : option (list Z)) : res (list Z) :=
  let '(bytes_read, bytes) := read_input (100 - 1) input in
  if 0 <? bytes_read then
    b ← copy_to uninit 0 bytes;
    b ← b.[bytes_read <- 0];
    Ok (c_string b)
  else Ok [].

Section jump.
(** Whether [longjmp] restores the signals that were blocked at [setjmp]. *)
Context (restores : bool).

(** The handler counts the fault, and exits or jumps. *)
Definition handle_segfault (s : process) : res (process + ending) :=
  n ← iadd (segfault_count s) 1;
  if 3 <=? n then Ok (inr (Exited 1))
  else Ok (inl (mkProcess (interrupt_count s) n (negb restores))).

(** A write through a null pointer: the kernel delivers SIGSEGV, which kills the process
    while it is blocked; during the handler it is. *)
Definition trigger_segfault (s : process) : res (process + ending) :=
  if blocked s then Ok (inr Killed) else handle_segfault s.

Fixpoint segfaults (k : nat) (s : process) : res (process + ending) :=
  match k with
  | O => Ok (inl s)
  | S k => r ← trigger_segfault s; match r with inl s => segfaults k s | inr e => Ok (inr e) end
  end.

(** The counter of interrupts, what was printed of the input, and the ending. *)
Definition exceptions_main (sigaction1 sigaction2 setitimer_ok : bool) (pauses : nat * nat * nat) (uninit : list Z) (input : option (list Z)) : res (Z * list Z * ending) :=
  if negb sigaction1 then Ok (0, [], Returned 1) else
  if negb sigaction2 then Ok (0, [], Returned 1) else
  s ← trigger_interrupt setitimer_ok pauses (mkProcess 0 0 false);
  text ← trigger_syscall uninit input;
  r ← segfaults 3 s;
  Ok (interrupt_count s, text, match r with inl _ => Returned 0 | inr e => e end).
End jump.

Lemma deliver_ok n : forall s, 0 <= interrupt_count s -> interrupt_count s + Z.of_nat n <= INT_MAX ->
  deliver n s = Ok (mkProcess (interrupt_count s + Z.of_nat n) (segfault_count s) (blocked s)).
Proof.
  induction n as [|n IH]; intros s H0 Hmax; [simpl; destruct s; simpl; do 2 f_equal; lia|].
  cbn [deliver]. unfold handle_interrupt. rewrite iadd_Ok, !bind_ret_l by (unfold INT_MIN; lia). rewrite IH by (simpl; lia). simpl. do 2 f_equal. lia.
Qed.

(** The text printed of an input. *)
Definition printed_text (input : option (list Z)) : list Z := match input with None => [] | Some l => c_string (take 99 l) end.

Lemma syscall_ok uninit input : len uninit = 100 -> trigger_syscall uninit input = Ok (printed_text input).
Proof.
  intros Hu. unfold trigger_syscall, read_input, printed_text. destruct input as [l|]; [|done]. change (Z.to_nat (100 - 1)) with 99%nat.
  assert (len (take 99 l) <= 99) as Hb by (rewrite length_take; lia). revert Hb. generalize (take 99 l). clear l. intros bytes Hb.
  destruct (Z.ltb_spec 0 (len bytes)) as [H|H]; [|destruct bytes; [done|simpl in H; lia]].
  pose proof (terminated_copy uninit bytes ltac:(lia)) as E. apply bind_Ok in E as (b1 & -> & E). by rewrite bind_ret_l, E, bind_ret_l, c_string_before.
Qed.

(** C36.  When both handlers are installed, [exceptionHandling.c] counts every alarm and
    prints the first 99 bytes of whatever can be read, up to the first zero, without
    leaving its buffer, but never returns from [main]: the third fault makes the handler
    exit with 1, or, when [longjmp] does not restore the blocked signals, the second fault
    kills the process. *)
Theorem exceptions_never_complete restores setitimer_ok a b c uninit input :
  Z.of_nat (a + b + c) <= INT_MAX -> len uninit = 100 ->
  exceptions_main restores true true setitimer_ok (a, b, c) uninit input =
    Ok (if setitimer_ok then Z.of_nat (a + b + c) else 0, printed_text input, if restores then Exited 1 else Killed).
Proof.
  intros Hn Hu. unfold exceptions_main. cbn [negb].
  assert (trigger_interrupt setitimer_ok (a, b, c) (mkProcess 0 0 false) = Ok (mkProcess (if setitimer_ok then Z.of_nat (a + b + c) else 0) 0 false)) as ->.
  { unfold trigger_interrupt. destruct setitimer_ok; [|done]. cbn [negb]. rewrite !deliver_ok, !bind_ret_l, !deliver_ok, !bind_ret_l, !deliver_ok by (simpl; lia).
    simpl. do 2 f_equal. lia. }
  rewrite bind_ret_l, syscall_ok, bind_ret_l by done. by destruct restores.
Qed.

Lemma exceptions_never_complete_witness :
  exceptions_main true true true true (1, 1, 1)%nat (replicate 100 0) (Some (replicate 150 104)) = Ok (3, replicate 99 104, Exited 1).
Proof. apply (exceptions_never_complete true true 1 1 1 (replicate 100 0) (Some (replicate 150 104))); [unfold INT_MAX; lia|done]. Defined.
End Exceptions.
