(* ===== verification/CString.v ===== *)
(** * Strings of C

    A string is the list of its characters without the terminator; a buffer is an
    array of characters.  The functions of [string.h] and [stdio.h] that the
    programs use to fill a buffer, with the fault of a write past its end. *)
From Stdlib Require Import ZArith Lia Ascii String.
From stdpp Require Import base tactics list numbers option.
From S2P Require Import Prelude.

#[local] Open Scope Z_scope.
#[local] Open Scope c_scope.

(** A string literal. *)
Definition chars (s : string) : list Z := (fun c => Z.of_N (N_of_ascii c)) <$> list_ascii_of_string s.

(** A string has no terminator inside. *)
Definition text (s : list Z) : Prop := Forall (fun c => c <> 0) s.

#[global] Instance text_dec s : Decision (text s).
Proof. unfold text. apply _. Defined.

Definition strcpy (b s : list Z) : res (list Z) := copy_to b 0 (s ++ [0]).

Definition strnlen (s : list Z) (n : Z) : Z := Z.min (len s) n.

(** [n] characters: those of [s], then zeros; no terminator when [s] is longer. *)
Definition strncpy (b s : list Z) (n : nat) : res (list Z) := copy_to b 0 (take n s ++ replicate (n - length s) 0).

(** [snprintf(b, n, ...)] when the formatted text is [s]. *)
Definition snprintf (b : list Z) (n : nat) (s : list Z) : res (list Z) :=
  match n with O => Ok b | S n => copy_to b 0 (take n s ++ [0]) end.

(** What is printed of a buffer: the characters before the first zero; without one the
    read runs past the end. *)
Definition puts (b : list Z) : res (list Z) := if decide (0 ∈ b) then Ok (c_string b) else Fault OutOfBounds.

(** [memset(b, c, n)]. *)
Definition memset (b : list Z) (c n : Z) : res (list Z) := copy_to b 0 (replicate (Z.to_nat n) c).

Lemma copy_front {A} (b s : list A) : len s <= len b -> copy_to b 0 s = Ok (s ++ drop (length s) b).
Proof. intros H. rewrite copy_to_Ok by lia. done. Qed.

Lemma copy_front_oob {A} (b s : list A) : len b < len s -> copy_to b 0 s = Fault OutOfBounds.
Proof. intros H. unfold copy_to. case_cond; [lia|done]. Qed.

Lemma strcpy_Ok b s : len s < len b -> strcpy b s = Ok (s ++ 0 :: drop (S (length s)) b).
Proof.
  intros H. unfold strcpy. rewrite copy_front by (rewrite length_app; simpl; lia). rewrite <- app_assoc, length_app. simpl. do 4 f_equal. lia.
Qed.

Lemma strcpy_oob b s : len b <= len s -> strcpy b s = Fault OutOfBounds.
Proof. intros H. apply copy_front_oob. rewrite length_app. simpl. lia. Qed.

(** Copying with [strcpy] is safe exactly when the terminator fits as well. *)
Lemma strcpy_safe b s : is_ok (strcpy b s) = (len s <? len b).
Proof. destruct (Z.ltb_spec (len s) (len b)); [by rewrite strcpy_Ok by done|by rewrite strcpy_oob by done]. Qed.

Lemma puts_text s l : text s -> puts (s ++ 0 :: l) = Ok s.
Proof. intros Hs. unfold puts. rewrite decide_True by (apply elem_of_app; right; apply list_elem_of_here). by rewrite c_string_app. Qed.

(** [strncpy] followed by the terminator, which is how a bounded copy is written. *)
Lemma strncpy_terminated (b s : list Z) (n : nat) : (n <= length s)%nat -> (n < length b)%nat ->
  (b1 ← strncpy b s n; b1.[Z.of_nat n <- 0]) = Ok (take n s ++ 0 :: drop (S n) b).
Proof.
  intros Hs Hb. unfold strncpy. replace (n - length s)%nat with O by lia. simpl. rewrite app_nil_r.
  replace (Z.of_nat n) with (len (take n s)) by (rewrite length_take; lia). replace (S n) with (S (length (take n s))) by (rewrite length_take; lia).
  apply terminated_copy. rewrite length_take. lia.
Qed.

Lemma snprintf_fits (b s : list Z) (n : nat) : (length s < n)%nat -> (n <= length b)%nat ->
  snprintf b n s = Ok (s ++ 0 :: drop (S (length s)) b).
Proof.
  intros Hs Hb. destruct n as [|n]; [lia|]. simpl. rewrite take_ge by lia. apply (strcpy_Ok b s). lia.
Qed.

Lemma memset_Ok b c n : 0 <= n <= len b -> memset b c n = Ok (replicate (Z.to_nat n) c ++ drop (Z.to_nat n) b).
Proof. intros H. unfold memset. rewrite copy_front by (rewrite length_replicate; lia). by rewrite length_replicate. Qed.

(** ** Lines of the input *)

(** What [fgets] takes from the input: up to [n] characters, a newline is the last one. *)
Fixpoint fgets (n : nat) (stdin : list Z) : list Z * list Z :=
  match n, stdin with
  | S n, c :: stdin => if c =? 10 then ([c], stdin) else let '(t, r) := fgets n stdin in (c :: t, r)
  | _, _ => ([], stdin)
  end.

(** [message[strcspn(message, newline)] = 0]: the first newline or terminator. *)
Definition cut_newline (message : list Z) : res (list Z) :=
  match find_index (fun c => (c =? 10) || (c =? 0)) message with
  | Some i => message.[i <- 0]
  | None => Fault OutOfBounds
  end.

Lemma fgets_line l rest : forall n, (length l < n)%nat -> Forall (fun c => c <> 10) l -> fgets n (l ++ 10 :: rest) = (l ++ [10], rest).
Proof.
  induction l as [|c l IH]; intros [|n] Hn Hl; simpl in *; try lia; [done|]. apply list.Forall_cons in Hl as [Hc Hl].
  destruct (Z.eqb_spec c 10); [done|]. rewrite IH by (done || lia). done.
Qed.

Lemma find_terminator (l r : list Z) x : Forall (fun c => c <> 10 /\ c <> 0) l -> x = 10 \/ x = 0 ->
  find_index (fun c => (c =? 10) || (c =? 0)) (l ++ x :: r) = Some (len l).
Proof.
  intros Hl Hx. apply find_index_Some. exists x. split; [apply zget_middle|]. split; [destruct Hx as [-> | ->]; done|].
  intros j y Hj Hy. assert (zget l j = Some y) as Hy'. { unfold zget in *. destruct (0 <=? j); [|done]. rewrite lookup_app_l in Hy by lia. done. }
  destruct (Forall_zget _ _ _ _ Hl Hy') as [H1 H2]. destruct (Z.eqb_spec y 10); [done|]. destruct (Z.eqb_spec y 0); done.
Qed.

(** Whatever the input is, what was taken fits, and taken and rest make up the input. *)
Lemma fgets_bound stdin : forall n, (length (fgets n stdin).1 <= n)%nat /\ (fgets n stdin).1 ++ (fgets n stdin).2 = stdin.
Proof.
  induction stdin as [|c stdin IH]; intros [|n]; simpl; try (split; [lia|done]). destruct (c =? 10); simpl; [split; [lia|done]|].
  destruct (IH n) as [H1 H2]. destruct (fgets n stdin) as [t r]. simpl in *. split; [lia|]. by rewrite H2.
Qed.

(** A line read with [fgets] and cut at its newline is what is in the buffer. *)
Lemma line_in_buffer m l rest : Forall (fun c => c <> 10 /\ c <> 0) l -> len l < len m - 1 ->
  fgets (Z.to_nat (len m - 1)) (l ++ 10 :: rest) = (l ++ [10], rest) /\
  exists m1 m', copy_to m 0 ((l ++ [10]) ++ [0]) = Ok m1 /\ cut_newline m1 = Ok m' /\ len m' = len m /\ c_string m' = l.
Proof.
  intros Hl Hlen. split; [apply fgets_line; [lia|]; eapply list.Forall_impl; [exact Hl|]; by intros x [H _]|].
  rewrite copy_front by (rewrite !length_app; simpl; lia). set (r := drop _ m). exists ((l ++ [10]) ++ [0] ++ r). rewrite <- !app_assoc. simpl app.
  unfold cut_newline. rewrite find_terminator, arr_write_Ok, zset_middle by (auto || (rewrite length_app; simpl; lia)). eexists. split; [done|]. split; [done|]. split.
  - unfold r. rewrite length_app. simpl. rewrite length_drop, !length_app. simpl. lia.
  - apply c_string_app. eapply list.Forall_impl; [exact Hl|]. by intros c [_ H].
Qed.
