(* ===== verification/Descriptors.v ===== *)
(** * Open files shared by processes ([os/filesystem/fileAfterFork.c],
    [issueOfBuffering.c], [solToIssueOfBuffering.c], [forkConcurrency.c],
    [bufferSizes.c], [os/kernel/kernelSysCall.c],
    [memory/memory_management/context_switch.c])

    After [fork] the parent and the child share one open file, with one offset, and
    each has a copy of the buffer of a stream. *)
From Stdlib Require Import ZArith Lia String.
From stdpp Require Import base tactics list numbers option relations.
From S2P Require Import Prelude CString.

#[local] Open Scope Z_scope.
#[local] Open Scope c_scope.

(** An open file: its bytes and the offset of the next access. *)
Record file : Type := mkFile { bytes : list Z; offset : Z }.

(** A file opened with [O_TRUNC], or with mode ["w"]. *)
Definition truncated : file := mkFile [] 0.

(** How many bytes of a request a call of [write] takes is up to the kernel. *)
Definition kernel : Type := list Z -> nat.

Definition takes_all (accepted : kernel) : Prop := forall b, accepted b = length b.

Definition everything : kernel := @length Z.

Definition write (accepted : kernel) (f : file) (b : list Z) : file :=
  let b := take (accepted b) b in
  let o := Z.to_nat (offset f) in
  mkFile (take o (bytes f) ++ replicate (o - length (bytes f)) 0 ++ b ++ drop (o + length b) (bytes f)) (offset f + len b).

(** A file whose offset is at its end. *)
Definition at_end (l : list Z) : file := mkFile l (len l).

Lemma write_end accepted l b : takes_all accepted -> write accepted (at_end l) b = at_end (l ++ b).
Proof.
  intros H. unfold write, at_end. simpl. rewrite H, Nat2Z.id, !firstn_all, Nat.sub_diag, drop_ge by lia.
  rewrite app_nil_r, length_app. simpl. f_equal. lia.
Qed.

(** ** Direct writes by both processes *)

Module ForkWrite.
Section main.
Context (accepted : kernel).

(** A call of [write] with a buffer and a count. *)
Definition write_buf (f : file) (b : list Z) (n : nat) : res file := b ← copy_from b 0 n; Ok (write accepted f b).

Definition child_msg : list Z := chars "Hello from child!" ++ [10; 0].
Definition parent_msg : list Z := chars "Hello from parent!" ++ [10; 0].

(** [fileAfterFork.c]: the file, if it was opened, and the code of the parent.  The child
    is done when the parent goes on. *)
Definition after_fork_main (opened forked : bool) : res (option file * Z) :=
  if negb opened then Ok (None, 1) else
  let f := truncated in
  if negb forked then Ok (Some f, 1) else
  f ← write_buf f child_msg 19;
  f ← write_buf f parent_msg 20;
  Ok (Some f, 0).

(** [solToIssueOfBuffering.c]. *)
Definition unbuffered_main (opened forked : bool) : res (option file * Z) :=
  if negb opened then Ok (None, 1) else
  f ← write_buf truncated (chars "Hello" ++ [0]) 5;
  if negb forked then Ok (Some f, 1) else
  f ← write_buf f (chars " from child!" ++ [10; 0]) 13;
  f ← write_buf f (chars " from parent!" ++ [10; 0]) 14;
  Ok (Some f, 0).
End main.
End ForkWrite.

(** ** The buffer of a stream is copied by [fork] *)

Module ForkBuffer.
Section main.
(** [size]: the size of the buffer of a stream. *)
Context (accepted : kernel) (size : nat).

(** The characters that wait in the buffer; a full buffer is written. *)
Fixpoint fprintf (f : file) (pending s : list Z) : file * list Z :=
  match s with
  | [] => (f, pending)
  | c :: s =>
      let p := pending ++ [c] in
      if (size <=? length p)%nat then fprintf (write accepted f p) [] s else fprintf f p s
  end.

Definition fclose (f : file) (pending : list Z) : file := if decide (pending = []) then f else write accepted f pending.

(** [issueOfBuffering.c].  [exit] writes the buffers of open streams as [fclose] does. *)
Definition buffered_main (opened forked : bool) : option file * Z :=
  if negb opened then (None, 1) else
  let '(f, pending) := fprintf truncated [] (chars "Hello") in
  if negb forked then (Some (fclose f pending), 1) else
  let '(f, p) := fprintf f pending (chars " from child!" ++ [10]) in
  let f := fclose f p in
  let '(f, p) := fprintf f pending (chars " from parent!" ++ [10]) in
  (Some (fclose f p), 0).
End main.

Lemma fprintf_fits accepted size f s : forall pending, (length pending + length s < size)%nat ->
  fprintf accepted size f pending s = (f, pending ++ s).
Proof.
  induction s as [|c s IH]; intros p Hp; simpl in *; [by rewrite app_nil_r|].
  rewrite length_app. simpl. case_eq (size <=? length p + 1)%nat; intros E; [apply Nat.leb_le in E; lia|].
  rewrite IH by (rewrite length_app; simpl; lia). by rewrite <- app_assoc.
Qed.

Lemma fprintf_unbuffered accepted s : takes_all accepted -> forall l, fprintf accepted 1 (at_end l) [] s = (at_end (l ++ s), []).
Proof.
  intros H. induction s as [|c s IH]; intros l; simpl; [by rewrite app_nil_r|]. rewrite (write_end accepted l [c] H), IH, <- app_assoc. done.
Qed.

Lemma fclose_end accepted l p : takes_all accepted -> fclose accepted (at_end l) p = at_end (l ++ p).
Proof. intros H. unfold fclose. case_decide as E; [by rewrite E, app_nil_r|]. by apply write_end. Qed.
End ForkBuffer.

Section results.
Context (accepted : kernel) (Hall : takes_all accepted).

Lemma write_buf_ok l s rest n : length s = n -> ForkWrite.write_buf accepted (at_end l) (s ++ rest) n = Ok (at_end (l ++ s)).
Proof.
  intros <-. unfold ForkWrite.write_buf. rewrite copy_from_Ok, bind_ret_l by (rewrite ?length_app; lia).
  rewrite drop_0, take_app_length. by rewrite write_end.
Qed.
End results.

(** The file of [fileAfterFork.c] holds both messages in order, each with a zero byte after
    it: the counts 19 and 20 are one too many. *)
Theorem after_fork_messages accepted : takes_all accepted ->
  ForkWrite.after_fork_main accepted true true =
    Ok (Some (at_end (chars "Hello from child!" ++ [10; 0] ++ chars "Hello from parent!" ++ [10; 0])), 0).
Proof.
  intros H. unfold ForkWrite.after_fork_main. simpl negb. cbv iota.
  rewrite <- (app_nil_r ForkWrite.child_msg), <- (app_nil_r ForkWrite.parent_msg).
  rewrite (write_buf_ok accepted H []), bind_ret_l, (write_buf_ok accepted H), bind_ret_l by reflexivity. reflexivity.
Qed.

(** What was printed before [fork] and is still in the buffer is written by both
    processes: [issueOfBuffering.c] leaves the word in the file twice, while with an
    unbuffered stream, or with [write] as in [solToIssueOfBuffering.c], it is there
    once. *)
Theorem buffer_written_twice accepted size : takes_all accepted -> (19 < size)%nat ->
  ForkBuffer.buffered_main accepted size true true =
    (Some (at_end (chars "Hello from child!" ++ [10] ++ chars "Hello from parent!" ++ [10])), 0) /\
  ForkBuffer.buffered_main accepted 1 true true =
    (Some (at_end (chars "Hello from child!" ++ [10] ++ chars " from parent!" ++ [10])), 0) /\
  ForkWrite.unbuffered_main accepted true true = Ok (ForkBuffer.buffered_main accepted 1 true true).
Proof.
  intros H Hs. change truncated with (at_end []).
  assert (ForkBuffer.buffered_main accepted 1 true true = (Some (at_end (chars "Hello from child!" ++ [10] ++ chars " from parent!" ++ [10])), 0)) as E.
  { unfold ForkBuffer.buffered_main. simpl negb. cbv iota. change truncated with (at_end []).
    do 2 rewrite (ForkBuffer.fprintf_unbuffered accepted _ H). rewrite (ForkBuffer.fclose_end accepted _ _ H), (ForkBuffer.fprintf_unbuffered accepted _ H), (ForkBuffer.fclose_end accepted _ _ H). reflexivity. }
  split; [|split; [exact E|]].
  - unfold ForkBuffer.buffered_main. simpl negb. cbv iota. change truncated with (at_end []).
    rewrite ForkBuffer.fprintf_fits by (simpl; lia). rewrite ForkBuffer.fprintf_fits by (simpl; lia). rewrite (ForkBuffer.fclose_end accepted _ _ H).
    rewrite ForkBuffer.fprintf_fits by (simpl; lia). rewrite (ForkBuffer.fclose_end accepted _ _ H). reflexivity.
  - rewrite E. unfold ForkWrite.unbuffered_main. simpl negb. cbv iota. change truncated with (at_end []).
    rewrite (write_buf_ok accepted H), bind_ret_l by done.
    change (chars " from child!" ++ [10; 0]) with ((chars " from child!" ++ [10]) ++ [0]).
    rewrite (write_buf_ok accepted H), bind_ret_l by done.
    change (chars " from parent!" ++ [10; 0]) with ((chars " from parent!" ++ [10]) ++ [0]).
    rewrite (write_buf_ok accepted H), bind_ret_l by done. reflexivity.
Qed.

Lemma buffer_written_twice_witness :
  ForkBuffer.buffered_main everything 4096 true true =
    (Some (at_end (chars "Hello from child!" ++ [10] ++ chars "Hello from parent!" ++ [10])), 0).
Proof. apply (buffer_written_twice everything 4096); [by intros b|lia]. Defined.

(** ** Two readers of one open file ([forkConcurrency.c]) *)

Module ForkRead.

Inductive who : Type := Parent | Child.

(** In the loop, after it and before [wait] returns, or ended. *)
Inductive loc : Type := Loop | Waiting | Exited (code : Z).

(** The shared offset, where each process is, and the lines printed, in the order of the
    reads. *)
Record state : Type := mkState { position : Z; parent : loc; child : loc; printed : list (who * Z) }.

#[global] Instance who_eq : EqDecision who.
Proof. solve_decision. Defined.
#[global] Instance loc_eq : EqDecision loc.
Proof. solve_decision. Defined.

Definition at_loc (s : state) (p : who) : loc := match p with Parent => parent s | Child => child s end.

Definition goes (s : state) (p : who) (l : loc) : state :=
  match p with
  | Parent => mkState (position s) l (child s) (printed s)
  | Child => mkState (position s) (parent s) l (printed s)
  end.

(** After the loop the file is closed; the parent waits for the child. *)
Definition after_loop (p : who) : loc := match p with Parent => Waiting | Child => Exited 0 end.

Section run.
Context (contents : list Z).

(** One call of [read] with what follows it up to the next call, or the end of [wait]. *)
Inductive step : state -> state -> Prop :=
| step_byte s p b : at_loc s p = Loop -> zget contents (position s) = Some b ->
    step s (mkState (position s + 1) (parent s) (child s) (printed s ++ [(p, b)]))
| step_eof s p : at_loc s p = Loop -> zget contents (position s) = None -> step s (goes s p (after_loop p))
| step_error s p : at_loc s p = Loop -> step s (goes s p (Exited 1))
| step_wait s code : parent s = Waiting -> child s = Exited code -> step s (goes s Parent (Exited 0)).

(** [main] up to the loop: [None] when the program ends before it. *)
Definition fork_start (argc : Z) (opened forked : bool) : option state :=
  if negb (argc =? 2) then None else if negb opened then None else if negb forked then None else Some (mkState 0 Loop Loop []).

Definition finished (s : state) : Prop := exists a b, parent s = Exited a /\ child s = Exited b.

Record ok (s : state) : Prop := {
  ok_position : 0 <= position s <= len contents;
  ok_printed : (printed s).*2 = take (Z.to_nat (position s)) contents;
  ok_parent : parent s = Waiting \/ parent s = Exited 0 -> position s = len contents;
  ok_child : child s = Exited 0 -> position s = len contents;
  ok_never : child s <> Waiting;
  ok_order : parent s = Exited 0 -> exists code, child s = Exited code
}.

Lemma ok_reading s s' : ok s -> step s s' -> ok s'.
Proof.
  intros [Hp Hr Hw Hc Hn Ho] Hs. inversion Hs; subst; clear Hs.
  - pose proof (zget_Some_range _ _ _ H0). split; simpl.
    + lia.
    + rewrite fmap_app, Hr. symmetry. by apply take_S_zget.
    + intros Hq. apply Hw in Hq. lia.
    + intros Hq. apply Hc in Hq. lia.
    + done.
    + done.
  - assert (position s = len contents) by (apply zget_None in H0; lia). destruct p; split; simpl in *; naive_solver.
  - destruct p; split; simpl in *; naive_solver.
  - split; simpl; naive_solver.
Qed.

(** Steps that are left: one for a byte, one for the end of a loop, one for [wait]. *)
Definition weight (l : loc) : nat := match l with Loop => 2 | Waiting => 1 | Exited _ => 0 end.
Definition left (s : state) : nat := length contents - Z.to_nat (position s) + weight (parent s) + weight (child s).

Lemma reading_left s s' : step s s' -> (left s' < left s)%nat.
Proof.
  intros Hs. unfold left. inversion Hs; subst; clear Hs; simpl.
  - pose proof (zget_Some_range _ _ _ H0). lia.
  - destruct p; simpl in *; rewrite H; simpl; lia.
  - destruct p; simpl in *; rewrite H; simpl; lia.
  - rewrite H. simpl. lia.
Qed.

Lemma reading_bounded n s s' : nsteps step n s s' -> (n + left s' <= left s)%nat.
Proof. induction 1 as [|n s1 s2 s3 H _ IH]; [lia|]. apply reading_left in H. lia. Qed.

Lemma reading_progress s : ok s -> (forall s', ~ step s s') -> finished s.
Proof.
  intros Hok Hstuck. assert (forall p, at_loc s p <> Loop) as Hl.
  { intros p Hp. destruct (zget contents (position s)) as [b|] eqn:E; [by apply (Hstuck _ (step_byte s p b Hp E))|by apply (Hstuck _ (step_eof s p Hp E))]. }
  pose proof (Hl Parent) as H1. pose proof (Hl Child) as H2. pose proof (ok_never _ Hok). simpl in *. unfold finished.
  destruct (child s) as [| |b] eqn:Ec; [done|done|]. destruct (parent s) as [| |a] eqn:Ep; [done| |by eexists _, _].
  exfalso. by apply (Hstuck _ (step_wait s b Ep Ec)).
Qed.
End run.

(** C31.  In every schedule of the two processes of [forkConcurrency.c] the bytes printed, in
    the order of the reads, are a prefix of the file: none is read twice and none is
    skipped; all are printed when one of the processes ends without an error.  A run
    has at most four steps more than the file has bytes, and stops only when both
    processes have ended. *)
Theorem each_byte_read_once contents s0 s n : fork_start 2 true true = Some s0 -> nsteps (step contents) n s0 s ->
  (printed s).*2 = take (Z.to_nat (position s)) contents /\
  (parent s = Exited 0 \/ child s = Exited 0 -> (printed s).*2 = contents) /\
  (n <= length contents + 4)%nat /\
  ((forall s', ~ step contents s s') -> finished s).
Proof.
  intros [= <-] Hn. assert (ok contents s) as Hok.
  { pose proof (rtc_nsteps_2 _ _ _ Hn) as Hr. revert Hr. apply (rtc_ind_r (R := step contents)); [|by intros; eapply ok_reading].
    split; simpl; [lia|done|by intros []|done|done|done]. }
  pose proof (reading_bounded _ _ _ _ Hn) as Hb. unfold left in Hb. simpl in Hb.
  split; [apply Hok|]. split; [|split; [lia|by apply reading_progress]].
  intros H. rewrite (ok_printed _ _ Hok). apply take_ge. assert (position s = len contents) as -> by (destruct H; [apply (ok_parent _ _ Hok); by right|by apply (ok_child _ _ Hok)]). lia.
Qed.

Lemma each_byte_read_once_witness : exists s, nsteps (step [104; 105]) 5 (mkState 0 Loop Loop []) s /\ (printed s).*2 = [104; 105].
Proof.
  exists (mkState 2 (Exited 0) (Exited 0) [(Parent, 104); (Child, 105)]).
  assert (nsteps (step [104; 105]) 5 (mkState 0 Loop Loop []) (mkState 2 (Exited 0) (Exited 0) [(Parent, 104); (Child, 105)])) as H.
  { eapply nsteps_l; [by apply (step_byte _ _ Parent 104)|]. eapply nsteps_l; [by apply (step_byte _ _ Child 105)|]. eapply nsteps_l; [by apply (step_eof _ _ Parent)|].
    eapply nsteps_l; [by apply (step_eof _ _ Child)|]. eapply nsteps_l; [by apply (step_wait _ _ 0)|]. apply nsteps_O. }
  split; [exact H|]. apply (each_byte_read_once [104; 105] _ _ 5 eq_refl H). by left.
Defined.
End ForkRead.

(** ** A file written in pieces ([bufferSizes.c]) *)

Module BufferSizes.

(** However the buffer is cut, what has been written and what waits in it is the text. *)
Lemma fprintf_keeps accepted size s : takes_all accepted -> (0 < size)%nat -> forall l p, (length p < size)%nat ->
  exists l' p', ForkBuffer.fprintf accepted size (at_end l) p s = (at_end l', p') /\ l' ++ p' = l ++ p ++ s /\ (length p' < size)%nat.
Proof.
  intros H Hs. induction s as [|c s IH]; intros l p Hp; simpl; [exists l, p; by rewrite app_nil_r|].
  destruct (Nat.leb_spec size (length (p ++ [c]))) as [Hle|Hlt].
  - rewrite (write_end _ _ _ H). destruct (IH (l ++ p ++ [c]) []) as (l' & p' & -> & E & Hp'); [simpl; lia|]. exists l', p'. split; [done|]. split; [|done].
    rewrite E, <- !app_assoc. done.
  - destruct (IH l (p ++ [c])) as (l' & p' & -> & E & Hp'); [done|]. exists l', p'. split; [done|]. split; [|done]. rewrite E, <- !app_assoc. done.
Qed.

Definition TEST_SIZE : Z := 1024 * 1024 * 10.

Section test.
Context (accepted : kernel) (size : nat).

(** One pass of the loop: the stream, what remains, and the number of calls. *)
Definition write_step (data : list Z) (buffer_size : Z) (st : file * list Z * Z * Z) : res (ctl (file * list Z * Z * Z) (file * list Z * Z)) :=
  let '(f, pending, remaining, calls) := st in
  if remaining <=? 0 then Ok (Return (f, pending, calls)) else
  let to_write := if remaining <? buffer_size then remaining else buffer_size in
  chunk ← copy_from data (len data - remaining) (Z.to_nat to_write);
  let '(f, pending) := ForkBuffer.fprintf accepted size f pending chunk in
  Ok (Next (f, pending, u64 (remaining - to_write), calls + 1)).

(** The file, if it was opened, and the number of calls of [fwrite]. *)
Definition test_write_performance (malloc_ok opened : bool) (uninit : list Z) (buffer_size : Z) : res (option (file * Z)) :=
  if negb malloc_ok then Ok None else
  data ← memset uninit 65 TEST_SIZE;
  if negb opened then Ok None else
  '(f, pending, calls) ← loop (S (Z.to_nat TEST_SIZE)) (write_step data buffer_size) (truncated, [], TEST_SIZE, 0);
  Ok (Some (ForkBuffer.fclose accepted f pending, calls)).
End test.

Lemma write_loop accepted size data buffer_size : takes_all accepted -> (0 < size)%nat -> 0 < buffer_size -> len data < UINT64 ->
  exists l p, loop (S (length data)) (write_step accepted size data buffer_size) (truncated, [], len data, 0) =
    Ok (at_end l, p, (len data + buffer_size - 1) / buffer_size) /\ l ++ p = data.
Proof.
  intros Hall Hsize Hb Hd.
  destruct (loop_total (fun '(f, p, remaining, calls) => 0 <= remaining <= len data /\ (length p < size)%nat /\
       (exists l, f = at_end l /\ l ++ p = take (Z.to_nat (len data - remaining)) data) /\
       calls + (remaining + buffer_size - 1) / buffer_size = (len data + buffer_size - 1) / buffer_size)
    (fun '(f, p, calls) => exists l, f = at_end l /\ l ++ p = data /\ calls = (len data + buffer_size - 1) / buffer_size)
    (fun '(_, _, remaining, _) => Z.to_nat remaining) (write_step accepted size data buffer_size))
    with (fuel := S (length data)) (s := (truncated, @nil Z, len data, 0)) as ([[f p] c] & Hr & l & -> & E & ->).
  - intros [[[f p] r] c] (Hr & Hp & (l & -> & E) & Hc). unfold write_step. destruct (Z.leb_spec r 0).
    + eexists. split; [done|]. exists l. split; [done|]. split; [rewrite E; apply take_ge; lia|]. rewrite <- Hc. rewrite (Z.div_small (r + _ - 1)) by lia. lia.
    + set (w := if r <? buffer_size then r else buffer_size). assert (0 < w <= r) as Hw by (unfold w; destruct (Z.ltb_spec r buffer_size); lia).
      rewrite copy_from_Ok, bind_ret_l by lia.
      destruct (fprintf_keeps accepted size (take (Z.to_nat w) (drop (Z.to_nat (len data - r)) data)) Hall Hsize l p Hp) as (l' & p' & -> & E' & Hp').
      eexists. split; [done|]. rewrite u64_id by lia. split; [|lia]. split; [lia|]. split; [done|]. split.
      * exists l'. split; [done|]. rewrite E', app_assoc, E, take_take_drop. f_equal. lia.
      * rewrite <- Hc. unfold w in *. destruct (Z.ltb_spec r buffer_size).
        -- rewrite Z.sub_diag, (Z.div_small (0 + buffer_size - 1)) by lia. replace (r + buffer_size - 1) with (1 * buffer_size + (r - 1)) by ring.
           rewrite Z.div_add_l, (Z.div_small (r - 1)) by lia. lia.
        -- replace (r + buffer_size - 1) with (1 * buffer_size + (r - buffer_size + buffer_size - 1)) by ring. rewrite Z.div_add_l by lia. lia.
  - simpl. split; [lia|]. split; [done|]. split; [|lia]. exists []. split; [done|]. by rewrite Z.sub_diag.
  - lia.
  - exists l, p. split; [|done]. exact Hr.
Qed.

(** For every size of the pieces and of the stream's buffer, the file of
    [bufferSizes.c] ends as the ten megabytes of the source, after as many calls of
    [fwrite] as pieces are needed. *)
Theorem pieces_make_the_file accepted size uninit buffer_size : takes_all accepted -> (0 < size)%nat -> 0 < buffer_size -> len uninit = TEST_SIZE ->
  test_write_performance accepted size true true uninit buffer_size =
    Ok (Some (at_end (replicate (Z.to_nat TEST_SIZE) 65), (TEST_SIZE + buffer_size - 1) / buffer_size)).
Proof.
  intros Hall Hsize Hb Hu. unfold test_write_performance. cbn [negb]. assert (0 <= TEST_SIZE < UINT64) as Ht by (unfold TEST_SIZE, UINT64; lia).
  rewrite memset_Ok, bind_ret_l, drop_ge, app_nil_r by lia. set (data := replicate (Z.to_nat TEST_SIZE) 65).
  assert (len data = TEST_SIZE) as Hl by (unfold data; rewrite length_replicate; lia).
  replace (S (Z.to_nat TEST_SIZE)) with (S (length data)) by lia. rewrite <- Hl.
  destruct (write_loop accepted size data buffer_size) as (l & p & E & Elp); [done|done|done|lia|].
  rewrite E, bind_ret_l, ForkBuffer.fclose_end by done. by rewrite Elp.
Qed.

Lemma pieces_make_the_file_witness :
  test_write_performance everything 4096 true true (replicate (Z.to_nat TEST_SIZE) 0) 1024 =
    Ok (Some (at_end (replicate (Z.to_nat TEST_SIZE) 65), (TEST_SIZE + 1024 - 1) / 1024)).
Proof.
  apply (pieces_make_the_file everything 4096 (replicate (Z.to_nat TEST_SIZE) 0) 1024); [by intros b|lia|lia|].
  rewrite length_replicate. unfold TEST_SIZE. lia.
Defined.
End BufferSizes.

(** ** A file read back by a child ([kernelSysCall.c]) *)

Module SysCalls.

Definition BUFFER_SIZE : Z := 1024.
Definition message : list Z := chars "Hello, Kernel Space!" ++ [10].

(** A result of -1 ends the process with failure. *)
Definition check_error (result : Z) : res unit := if result =? -1 then Fault (Exit 1) else Ok tt.

(** [read] from the start of the file, with at most [n] bytes. *)
Definition read_start (f : file) (n : nat) : list Z := take n (bytes f).

(** What the child prints, or the fault that ends it. *)
Definition sys_child (f : file) (opened : Z) (readable : bool) (buffer : list Z) : res (list Z) :=
  _ ← check_error opened;
  let got := read_start f (Z.to_nat (BUFFER_SIZE - 1)) in
  let bytes_read := if readable then len got else -1 in
  _ ← check_error bytes_read;
  b ← copy_to buffer 0 got;
  b ← b.[bytes_read <- 0];
  puts b.

(** The number of bytes the parent says were written, what the child printed or how it
    failed, and whether the file is deleted.  [accepted] is [None] when [write] fails. *)
Definition sys_main (accepted : option kernel) (opened forked child_opened : Z) (readable unlinked : bool) (buffer : list Z)
    : res (Z * res (list Z) * bool) :=
  _ ← check_error opened;
  let '(f, n) := match accepted with Some k => (write k truncated message, len (take (k message) message)) | None => (truncated, -1) end in
  _ ← check_error n;
  _ ← check_error forked;
  let c := sys_child f child_opened readable buffer in
  if negb unlinked then Fault (Exit 1) else Ok (n, c, true).

(** When the calls of [kernelSysCall.c] succeed, the child prints exactly the bytes that
    [write] took, within its buffer, and the parent reports their number. *)
Theorem child_reads_back accepted opened forked child_opened buffer :
  opened <> -1 -> forked <> -1 -> child_opened <> -1 -> len buffer = BUFFER_SIZE ->
  sys_main (Some accepted) opened forked child_opened true true buffer =
    Ok (len (take (accepted message) message), Ok (take (accepted message) message), true).
Proof.
  intros Ho Hf Hc Hb. unfold sys_main, sys_child, check_error. destruct (Z.eqb_spec opened (-1)); [done|]. rewrite bind_ret_l.
  set (m := take (accepted message) message). destruct (Z.eqb_spec (len m) (-1)); [lia|]. rewrite bind_ret_l. destruct (Z.eqb_spec forked (-1)); [done|].
  rewrite bind_ret_l. destruct (Z.eqb_spec child_opened (-1)); [done|]. rewrite bind_ret_l. cbn [negb]. do 3 f_equal.
  assert (length m <= 21)%nat as Hm. { unfold m. rewrite length_take. change (length message) with 21%nat. lia. }
  assert (text m) as Ht by (apply Forall_take; by repeat constructor).
  assert (read_start (write accepted truncated message) (Z.to_nat (BUFFER_SIZE - 1)) = m) as ->.
  { unfold read_start, write, truncated. simpl. fold m. rewrite drop_nil, app_nil_r. apply take_ge. unfold BUFFER_SIZE. lia. }
  destruct (Z.eqb_spec (len m) (-1)); [lia|]. rewrite bind_ret_l. unfold BUFFER_SIZE in *.
  pose proof (terminated_copy buffer m ltac:(lia)) as E. apply bind_Ok in E as (b1 & -> & E). rewrite bind_ret_l, E, bind_ret_l. by apply puts_text.
Qed.

Lemma child_reads_back_witness :
  sys_main (Some everything) 3 100 3 true true (replicate 1024 7) = Ok (21, Ok message, true).
Proof. apply (child_reads_back everything 3 100 3 (replicate 1024 7)); [done|done|done|]. by rewrite length_replicate. Defined.
End SysCalls.

(** ** A pipe of one process ([context_switch.c]) *)

Module PipeLoop.

Definition NUM_ITERATIONS : nat := 1000.

Section pipe.
Context (capacity : nat).

(** A full pipe blocks the writer and an empty one the reader; with one process a call
    that blocks never returns. *)
Definition pipe_write (pipe : list Z) (b : Z) : option (list Z) := if (length pipe <? capacity)%nat then Some (pipe ++ [b]) else None.
Definition pipe_read (pipe : list Z) : option (list Z * Z) := match pipe with [] => None | b :: pipe => Some (pipe, b) end.

(** The loop of [measure_context_switch], with [byte] sent and received. *)
Fixpoint transfers (n : nat) (pipe : list Z) (byte : Z) : option (list Z * Z) :=
  match n with
  | O => Some (pipe, byte)
  | S n => pipe ← pipe_write pipe byte; '(pipe, byte) ← pipe_read pipe; transfers n pipe byte
  end.

Definition measure_context_switch (pipe_ok : bool) : res (option (list Z * Z)) :=
  if negb pipe_ok then Fault (Exit 1) else Ok (transfers NUM_ITERATIONS [] 1).
End pipe.

(** In [context_switch.c] no call blocks, so no switch to another process is forced: the
    byte is always in the pipe when it is read. *)
Theorem transfers_never_block capacity : (0 < capacity)%nat -> measure_context_switch capacity true = Ok (Some ([], 1)).
Proof.
  intros Hc. unfold measure_context_switch. simpl negb. cbv iota. f_equal. generalize NUM_ITERATIONS as n.
  induction n as [|n IH]; [done|]. simpl. unfold pipe_write. simpl. by rewrite (proj2 (Nat.ltb_lt 0 capacity)).
Qed.
End PipeLoop.
