(* ===== verification/PointerCheck.v ===== *)
(** * Is a pointer valid? ([concurrency/threads/fork_pointer_check.c],
    [concurrency/threads/signal_pointer_check.c])

    Two ways to try an access that may fail: in a child process that it can kill, and
    under a handler that jumps back. *)
From Stdlib Require Import ZArith Lia.
From stdpp Require Import base tactics list numbers option gmap.
From S2P Require Import Prelude.

#[local] Open Scope Z_scope.

(** The bytes a process can read, and whether it can write them. *)
Abbreviation memory := (gmap Z (bool * Z)).

(** An access that the process may not make raises SIGSEGV: [None]. *)
Definition get (m : memory) (a : Z) : option Z := snd <$> m !! a.

Definition put (m : memory) (a v : Z) : option memory :=
  match m !! a with Some (true, _) => Some (<[a := (true, v)]> m) | _ => None end.

Definition readable (m : memory) (a : Z) : Prop := is_Some (m !! a).
Definition writable (m : memory) (a : Z) : Prop := exists v, m !! a = Some (true, v).

(** ** [fork_pointer_check.c] *)

Module ForkCheck.

(** [memset(ptr, 0, size)] and the reads of [memcpy], byte by byte. *)
Fixpoint memset (m : memory) (ptr : Z) (size : nat) : option memory :=
  match size with O => Some m | S n => m ← put m ptr 0; memset m (ptr + 1) n end.

Fixpoint memcpy (m : memory) (ptr : Z) (size : nat) : option (list Z) :=
  match size with O => Some [] | S n => v ← get m ptr; l ← memcpy m (ptr + 1) n; Some (v :: l) end.

(** How a child ends. *)
Inductive status : Type := Exited (code : Z) | Killed.

Section check.
(** The memory of the child after [malloc], if it succeeds; whether [fork] succeeds and
    what [waitpid] returns. *)
Context (malloc : memory -> nat -> option memory) (forked : bool) (waited : Z).

(** The child works on its copy of the memory. *)
Definition child (m : memory) (ptr : Z) (size : nat) (write_access : bool) : status :=
  let tried :=
    if write_access then memset m ptr size ≫= fun _ => Some tt
    else match malloc m size with Some m => memcpy m ptr size ≫= fun _ => Some tt | None => Some tt end in
  match tried with Some _ => Exited 0 | None => Killed end.

Definition is_pointer_valid (m : memory) (ptr : Z) (size : nat) (write_access : bool) : res bool :=
  if forked then
    if waited <? 0 then Fault AssertFail else
    Ok (match child m ptr size write_access with Exited code => code =? 0 | Killed => false end)
  else Ok false.

(** The four answers of [main], for the block that [malloc] gave it and for an address. *)
Definition fork_check_main (m : memory) (valid_ptr : Z) : res (list bool) :=
  a ← is_pointer_valid m valid_ptr 4 true;
  b ← is_pointer_valid m valid_ptr 4 false;
  c ← is_pointer_valid m 3735928559 4 true;
  d ← is_pointer_valid m 3735928559 4 false;
  Ok [a; b; c; d].
End check.

Lemma memset_writable n : forall m ptr, is_Some (memset m ptr n) <-> forall i, 0 <= i < Z.of_nat n -> writable m (ptr + i).
Proof.
  induction n as [|n IH]; intros m ptr; simpl; [split; [intros; lia|by eexists]|]. unfold put.
  destruct (m !! ptr) as [[[] v]|] eqn:E; simpl; [|split; [by intros []|intros H; destruct (H 0 ltac:(lia)) as [w Hw]; rewrite Z.add_0_r in Hw; congruence]..].
  rewrite IH. split; intros H i Hi.
  - destruct (decide (i = 0)) as [->|Hne]; [rewrite Z.add_0_r; by eexists|]. destruct (H (i - 1) ltac:(lia)) as [w Hw].
    replace (ptr + 1 + (i - 1)) with (ptr + i) in Hw by lia. rewrite lookup_insert_ne in Hw by lia. by eexists.
  - destruct (H (i + 1) ltac:(lia)) as [w Hw]. exists w. rewrite lookup_insert_ne by lia. by replace (ptr + 1 + i) with (ptr + (i + 1)) by lia.
Qed.

Lemma memcpy_readable n m : forall ptr, is_Some (memcpy m ptr n) <-> forall i, 0 <= i < Z.of_nat n -> readable m (ptr + i).
Proof.
  induction n as [|n IH]; intros ptr; simpl; [split; [intros; lia|by eexists]|]. unfold get.
  destruct (m !! ptr) as [[w v]|] eqn:E; simpl; [|split; [by intros []|intros H; destruct (H 0 ltac:(lia)) as [u Hu]; rewrite Z.add_0_r in Hu; congruence]].
  assert (is_Some (l ← memcpy m (ptr + 1) n; Some (v :: l)) <-> is_Some (memcpy m (ptr + 1) n)) as ->.
  { destruct (memcpy m (ptr + 1) n); simpl; [split; intros _; by eexists|by split; intros []]. }
  rewrite IH. split; intros H i Hi.
  - destruct (decide (i = 0)) as [->|Hne]; [rewrite Z.add_0_r; by eexists|]. replace (ptr + i) with (ptr + 1 + (i - 1)) by lia. apply H. lia.
  - replace (ptr + 1 + i) with (ptr + (i + 1)) by lia. apply H. lia.
Qed.

Lemma child_exits malloc m ptr size w :
  child malloc m ptr size w = Exited 0 <->
    if w then forall i, 0 <= i < Z.of_nat size -> writable m (ptr + i)
    else forall m', malloc m size = Some m' -> forall i, 0 <= i < Z.of_nat size -> readable m' (ptr + i).
Proof.
  unfold child. destruct w.
  - rewrite <- memset_writable. destruct (memset m ptr size); simpl; [split; [intros _; by eexists|done]|split; [done|by intros []]].
  - destruct (malloc m size) as [m'|]; [|by split].
    transitivity (is_Some (memcpy m' ptr size)); [|rewrite memcpy_readable; split; [intros H ? [= <-]; exact H|intros H; by apply H]].
    destruct (memcpy m' ptr size); simpl; [split; [intros _; by eexists|done]|split; [done|by intros []]].
Qed.

(** With [fork] and [waitpid] working, the check in a child answers yes exactly when
    every byte of the block may be accessed as asked; a read is also answered with yes
    when the child cannot allocate its buffer. *)
Theorem fork_check_exact malloc waited m ptr size w : 0 <= waited ->
  exists b, is_pointer_valid malloc true waited m ptr size w = Ok b /\
    (b = true <-> if w then forall i, 0 <= i < Z.of_nat size -> writable m (ptr + i)
                  else forall m', malloc m size = Some m' -> forall i, 0 <= i < Z.of_nat size -> readable m' (ptr + i)).
Proof.
  intros Hw. unfold is_pointer_valid. destruct (Z.ltb_spec waited 0); [lia|]. eexists. split; [done|]. rewrite <- child_exits.
  assert (child malloc m ptr size w = Exited 0 \/ child malloc m ptr size w = Killed) as [-> | ->]; [|by split..].
  unfold child. match goal with |- context [match ?t with _ => _ end] => destruct t end; auto.
Qed.

(** One writable word at address 16. *)
Definition word_at_16 : memory := list_to_map ((fun i => (16 + i, (true, 0))) <$> seqZ 0 4).

Lemma fork_check_exact_witness :
  exists b, is_pointer_valid (fun m _ => Some m) true 7 word_at_16 16 4 true = Ok b /\ b = true.
Proof.
  destruct (fork_check_exact (fun m _ => Some m) 7 word_at_16 16 4 true ltac:(lia)) as (b & Hb & H). exists b. split; [exact Hb|]. apply H. intros i Hi.
  exists 0. assert (i = 0 \/ i = 1 \/ i = 2 \/ i = 3) as [-> | [-> | [-> | ->]]] by lia; reflexivity.
Defined.

(** [main] finds its own block valid and the other address not. *)
Lemma fork_check_answers : fork_check_main (fun m _ => Some m) true 7 word_at_16 16 = Ok [true; true; false; false].
Proof. reflexivity. Qed.
End ForkCheck.

(** ** [signal_pointer_check.c] *)

Module SignalCheck.

(** The memory, the handler of SIGSEGV (0 is the default action) and the flag. *)
Record process : Type := mkProcess { mem : memory; handler : Z; sig_caught : bool }.

Definition segv_handler : Z := 1.

(** The accesses under [sigsetjmp]: the character is read, and written back for a check of
    writing.  [None]: the handler jumped. *)
Definition try_access (m : memory) (ptr : Z) (write : bool) : option memory :=
  temp ← get m ptr;
  if write then put m ptr temp else Some m.

(** [size] is not used. *)
Definition is_pointer_valid (sigaction_ok : bool) (s : process) (ptr size : Z) (write : bool) : process * bool :=
  if negb sigaction_ok then (s, false) else
  let old_sa := handler s in
  let s := mkProcess (mem s) segv_handler false in
  let s := match try_access (mem s) ptr write with
           | Some m => mkProcess m (handler s) (sig_caught s)
           | None => mkProcess (mem s) (handler s) true
           end in
  (mkProcess (mem s) old_sa (sig_caught s), negb (sig_caught s)).

Definition signal_check_main (s : process) (valid_ptr : Z) : list bool :=
  let '(s, a) := is_pointer_valid true s valid_ptr 4 true in
  let '(s, b) := is_pointer_valid true s valid_ptr 4 false in
  let '(s, c) := is_pointer_valid true s 3735928559 4 true in
  let '(_, d) := is_pointer_valid true s 3735928559 4 false in
  [a; b; c; d].

Lemma try_access_keeps m ptr w m' : try_access m ptr w = Some m' -> m' = m.
Proof.
  unfold try_access, get, put. destruct (m !! ptr) as [[b v]|] eqn:E; simpl; [|done]. destruct w; [|by intros [= <-]]. destruct b; [|done].
  intros [= <-]. by apply insert_id.
Qed.

Lemma try_access_some m ptr w : is_Some (try_access m ptr w) <-> if w then writable m ptr else readable m ptr.
Proof.
  unfold try_access, get, put, readable, writable. destruct (m !! ptr) as [[b v]|]; simpl.
  - destruct w; [|split; intros _; by eexists]. destruct b; [split; intros _; by eexists|]. split; [by intros []|intros [u Hu]; discriminate Hu].
  - split; [by intros []|]. destruct w; [intros [u Hu]; discriminate Hu|by intros []].
Qed.

(** The check under a handler leaves the memory and the handler as they were and answers
    for the first byte only; for one byte it agrees with the check in a child. *)
Theorem signal_check_first_byte s ptr size w malloc waited :
  0 <= waited -> malloc (mem s) 1%nat = Some (mem s) ->
  exists b, is_pointer_valid true s ptr size w = (mkProcess (mem s) (handler s) (negb b), b) /\
    (b = true <-> if w then writable (mem s) ptr else readable (mem s) ptr) /\
    ForkCheck.is_pointer_valid malloc true waited (mem s) ptr 1 w = Ok b.
Proof.
  intros Hw Hm. unfold is_pointer_valid. cbn [negb mem handler]. pose proof (try_access_some (mem s) ptr w) as Ht.
  unfold ForkCheck.is_pointer_valid. destruct (Z.ltb_spec waited 0) as [Hbad|_]; [lia|].
  assert (ForkCheck.child malloc (mem s) ptr 1 w = ForkCheck.Exited 0 <-> is_Some (try_access (mem s) ptr w)) as Hc.
  { rewrite ForkCheck.child_exits, Ht. destruct w; [split; [intros H; specialize (H 0 ltac:(lia)); by rewrite Z.add_0_r in H|intros H i Hi; replace (ptr + i) with ptr by lia; done]|].
    split; [intros H; specialize (H _ Hm 0 ltac:(lia)); by rewrite Z.add_0_r in H|]. intros H m' E i Hi. replace (ptr + i) with ptr by lia. rewrite Hm in E. by injection E as <-. }
  destruct (try_access (mem s) ptr w) as [m'|] eqn:E; cbn [mem handler sig_caught negb].
  - apply try_access_keeps in E as ->. exists true. split; [done|]. split; [split; [intros _; apply Ht; by eexists|done]|].
    by rewrite (proj2 Hc (mk_is_Some _ _ eq_refl)).
  - exists false. split; [done|]. split; [split; [done|intros H; apply Ht in H; by destruct H]|]. f_equal.
    assert (ForkCheck.child malloc (mem s) ptr 1 w <> ForkCheck.Exited 0) as H by (intros H; apply Hc in H; by destruct H).
    destruct (ForkCheck.child malloc (mem s) ptr 1 w) as [code|]; [|done]. destruct (Z.eqb_spec code 0) as [->|]; done.
Qed.

Lemma signal_check_first_byte_witness :
  exists b, is_pointer_valid true (mkProcess ForkCheck.word_at_16 0 false) 16 4 true = (mkProcess ForkCheck.word_at_16 0 (negb b), b).
Proof.
  destruct (signal_check_first_byte (mkProcess ForkCheck.word_at_16 0 false) 16 4 true (fun m _ => Some m) 7 ltac:(lia) eq_refl) as (b & H & _).
  exists b. exact H.
Defined.

(** The size is ignored: a block that starts in the last accessible byte passes. *)
Lemma signal_check_ignores_size :
  snd (is_pointer_valid true (mkProcess ForkCheck.word_at_16 0 false) 19 4 true) = true /\
  ForkCheck.is_pointer_valid (fun m _ => Some m) true 7 ForkCheck.word_at_16 19 4 true = Ok false.
Proof. split; reflexivity. Qed.

Lemma signal_check_answers : signal_check_main (mkProcess ForkCheck.word_at_16 0 false) 16 = [true; true; false; false].
Proof. reflexivity. Qed.
End SignalCheck.
