(* ===== verification/SharedText.v ===== *)
(** * A text shared by readers and writers ([concurrency/threads/mutex_lock.c],
    [readWriteLocks.c], [readWritePreference.c])

    Threads that print a buffer and threads that replace its text, under a mutex or a
    read-write lock of the thread library.  One access to a character of the buffer is
    one step, in every schedule. *)
From Stdlib Require Import ZArith Lia String.
From stdpp Require Import base tactics list numbers option relations.
From S2P Require Import Prelude CString.

#[local] Open Scope Z_scope.

Definition BUFFER_SIZE : Z := 1024.

(** Outside, or inside the lock with the characters read so far. *)
Inductive reader : Type := ROut | RIn (line : list Z).

(** Outside, or inside with the characters written and those to write. *)
Inductive writer : Type := WOut | WIn (written rest : list Z).

Definition reads (r : reader) : Z := match r with ROut => 0 | RIn _ => 1 end.
Definition writes (w : writer * Z) : Z := match w.1 with WOut => 0 | WIn _ _ => 1 end.

(** The buffer, the lock, the threads (a writer has a number of its own, which says what it
    writes next), and the lines printed with the readers that printed them. *)
Record state : Type := mkState {
  buffer : list Z;
  active_readers : Z;
  active_writer : bool;
  readers : list reader;
  writers : list (writer * Z);
  lines : list (Z * list Z)
}.

Section program.
(** Whether readers exclude each other, as under a mutex; and what writer [k] may write in
    state [w], with its state after that. *)
Context (exclusive : bool) (produces : Z -> Z -> list Z -> Z -> Prop).

Inductive step : state -> state -> Prop :=
| reader_lock s k : zget (readers s) k = Some ROut -> active_writer s = false -> (exclusive = true -> active_readers s = 0) ->
    step s (mkState (buffer s) (active_readers s + 1) false (zset (readers s) k (RIn [])) (writers s) (lines s))
| reader_char s k line c : zget (readers s) k = Some (RIn line) -> zget (buffer s) (len line) = Some c -> c <> 0 ->
    step s (mkState (buffer s) (active_readers s) (active_writer s) (zset (readers s) k (RIn (line ++ [c]))) (writers s) (lines s))
| reader_unlock s k line : zget (readers s) k = Some (RIn line) -> zget (buffer s) (len line) = Some 0 ->
    step s (mkState (buffer s) (active_readers s - 1) (active_writer s) (zset (readers s) k ROut) (writers s) (lines s ++ [(k, line)]))
| writer_lock s k w w' t : zget (writers s) k = Some (WOut, w) -> active_writer s = false -> active_readers s = 0 -> produces k w t w' ->
    step s (mkState (buffer s) 0 true (readers s) (zset (writers s) k (WIn [] (t ++ [0]), w')) (lines s))
| writer_char s k w d c t : zget (writers s) k = Some (WIn d (c :: t), w) -> 0 <= len d < len (buffer s) ->
    step s (mkState (zset (buffer s) (len d) c) (active_readers s) (active_writer s) (readers s) (zset (writers s) k (WIn (d ++ [c]) t, w)) (lines s))
| writer_unlock s k w d : zget (writers s) k = Some (WIn d [], w) ->
    step s (mkState (buffer s) (active_readers s) false (readers s) (zset (writers s) k (WOut, w)) (lines s)).

(** A text that may stand in the buffer: none yet, or one that was written. *)
Definition complete (t : list Z) : Prop := t = [] \/ exists k w w', produces k w t w'.

Definition reader_ok (t : list Z) (r : reader) : Prop := match r with ROut => True | RIn line => line `prefix_of` t end.

Definition writer_ok (b : list Z) (w : writer * Z) : Prop :=
  match w.1 with WOut => True | WIn d r => exists t, complete t /\ t ++ [0] = d ++ r /\ take (length d) b = d end.

Record ok (s : state) : Prop := {
  ok_buffer : len (buffer s) = BUFFER_SIZE;
  ok_readers : active_readers s = total reads (readers s);
  ok_writers : total writes (writers s) = if active_writer s then 1 else 0;
  ok_exclusion : active_writer s = true -> active_readers s = 0;
  ok_mutex : exclusive = true -> active_readers s <= 1;
  ok_text : active_writer s = false -> exists t rest, buffer s = t ++ 0 :: rest /\ complete t /\ Forall (reader_ok t) (readers s);
  ok_writing : Forall (writer_ok (buffer s)) (writers s);
  ok_lines : Forall (fun l => complete l.2) (lines s)
}.

(** The texts fit into the buffer with their terminator. *)
Context (Hfit : forall k w t w', produces k w t w' -> text t /\ len t < BUFFER_SIZE).

Lemma complete_fits t : complete t -> text t /\ len t < BUFFER_SIZE.
Proof. intros [->|(k & w & w' & H)]; [split; [constructor|done]|by eapply Hfit]. Qed.

Lemma reads_nonneg l : Forall (fun r => 0 <= reads r) l.
Proof. apply list.Forall_forall. intros [] _; simpl; lia. Qed.

Lemma writes_nonneg l : Forall (fun w => 0 <= writes w) l.
Proof. apply list.Forall_forall. intros [[] w] _; unfold writes; simpl; lia. Qed.

(** While no reader is inside, any text is right for all of them. *)
Lemma readers_out l t : total reads l = 0 -> Forall (reader_ok t) l.
Proof.
  intros H. pose proof (total_zero_all reads l (reads_nonneg l) ltac:(lia)) as Hz. eapply list.Forall_impl; [exact Hz|]. by intros [] ?.
Qed.

Lemma reader_inside s k line : ok s -> zget (readers s) k = Some (RIn line) ->
  active_writer s = false /\ exists t rest, buffer s = t ++ 0 :: rest /\ complete t /\ Forall (reader_ok t) (readers s) /\ line `prefix_of` t.
Proof.
  intros Hok Hk. assert (active_writer s = false) as Hw.
  { destruct (active_writer s) eqn:E; [|done]. pose proof (ok_exclusion _ Hok E). pose proof (ok_readers _ Hok).
    pose proof (total_member reads _ _ _ (reads_nonneg (readers s)) Hk). simpl in *. lia. }
  split; [done|]. destruct (ok_text _ Hok Hw) as (t & rest & Hb & Ht & Hr). exists t, rest. do 3 (split; [done|]). by apply (Forall_zget _ _ _ _ Hr Hk).
Qed.

Lemma writer_inside s k d r w : ok s -> zget (writers s) k = Some (WIn d r, w) -> active_writer s = true.
Proof.
  intros Hok Hk. destruct (active_writer s) eqn:E; [done|]. pose proof (ok_writers _ Hok) as H. rewrite E in H.
  pose proof (total_member writes _ _ _ (writes_nonneg (writers s)) Hk). unfold writes in *. simpl in *. lia.
Qed.

(** Another writer is outside while one is inside. *)
Lemma one_writer s k w j v : ok s -> zget (writers s) k = Some w -> writes w = 1 -> zget (writers s) j = Some v -> j <> k -> v.1 = WOut.
Proof.
  intros Hok Hk Hw Hj Hne. pose proof (ok_writers _ Hok) as H.
  assert (total writes (zset (writers s) k (WOut, 0)) <= 0) as H0. { rewrite (total_zset _ _ _ w) by done. rewrite Hw. unfold writes at 2. simpl. destruct (active_writer s); lia. }
  apply total_zero_all in H0; [|apply writes_nonneg]. assert (writes v = 0) as Hv. { apply (Forall_zget _ _ j v H0). by rewrite zget_zset_ne. }
  destruct v as [[] v]; [done|]. unfold writes in Hv. simpl in Hv. lia.
Qed.

Lemma text_reader_lock s k : ok s -> zget (readers s) k = Some ROut -> active_writer s = false -> (exclusive = true -> active_readers s = 0) ->
  ok (mkState (buffer s) (active_readers s + 1) false (zset (readers s) k (RIn [])) (writers s) (lines s)).
Proof.
  intros Hok Hk Hw He. destruct (ok_text _ Hok Hw) as (t & rest & Hb & Ht & Hr). destruct Hok. split; simpl; try done.
  - rewrite (total_zset _ _ _ ROut) by done. simpl. lia.
  - by rewrite Hw in ok_writers0.
  - intros E. rewrite He by done. lia.
  - intros _. exists t, rest. split; [done|]. split; [done|]. apply Forall_zset; [done|]. apply prefix_nil.
Qed.

Lemma text_reader_char s k line c : ok s -> zget (readers s) k = Some (RIn line) -> zget (buffer s) (len line) = Some c -> c <> 0 ->
  ok (mkState (buffer s) (active_readers s) (active_writer s) (zset (readers s) k (RIn (line ++ [c]))) (writers s) (lines s)).
Proof.
  intros Hok Hk Hc H0. destruct (reader_inside _ _ _ Hok Hk) as (Hw & t & rest & Hb & Ht & Hr & [u Hu]). destruct Hok. split; simpl; try done.
  - rewrite (total_zset _ _ _ (RIn line)) by done. simpl. lia.
  - intros _. exists t, rest. split; [done|]. split; [done|]. apply Forall_zset; [done|]. simpl. rewrite Hb, Hu, <- app_assoc in Hc.
    destruct u as [|c' u]; simpl in Hc; rewrite zget_middle in Hc; injection Hc as <-; [done|]. exists u. rewrite Hu, <- app_assoc. done.
Qed.

Lemma text_reader_unlock s k line : ok s -> zget (readers s) k = Some (RIn line) -> zget (buffer s) (len line) = Some 0 ->
  ok (mkState (buffer s) (active_readers s - 1) (active_writer s) (zset (readers s) k ROut) (writers s) (lines s ++ [(k, line)])).
Proof.
  intros Hok Hk Hc. destruct (reader_inside _ _ _ Hok Hk) as (Hw & t & rest & Hb & Ht & Hr & [u Hu]).
  assert (line = t) as ->.
  { destruct (complete_fits t Ht) as [Hnz _]. rewrite Hb, Hu, <- app_assoc in Hc. destruct u as [|c u]; [by rewrite app_nil_r in Hu|].
    simpl in Hc. rewrite zget_middle in Hc. injection Hc as ->. rewrite Hu in Hnz. apply Forall_app in Hnz as [_ Hnz]. by inversion Hnz. }
  destruct Hok. split; simpl; try done.
  - rewrite (total_zset _ _ _ (RIn t)) by done. simpl. lia.
  - intros E. congruence.
  - intros E. specialize (ok_mutex0 E). lia.
  - intros _. exists t, rest. split; [done|]. split; [done|]. by apply Forall_zset.
  - apply Forall_app. split; [done|]. by constructor.
Qed.

Lemma text_writer_lock s k w w' t : ok s -> zget (writers s) k = Some (WOut, w) -> active_writer s = false -> active_readers s = 0 -> produces k w t w' ->
  ok (mkState (buffer s) 0 true (readers s) (zset (writers s) k (WIn [] (t ++ [0]), w')) (lines s)).
Proof.
  intros Hok Hk Hw Hr Hp. destruct Hok. split; simpl; try done.
  - lia.
  - rewrite (total_zset _ _ _ (WOut, w)) by done. rewrite ok_writers0, Hw. done.
  - apply Forall_zset; [done|]. exists t. split; [right; by eexists _, _, _|]. done.
Qed.

Lemma text_writer_char s k w d c t : ok s -> zget (writers s) k = Some (WIn d (c :: t), w) -> 0 <= len d < len (buffer s) ->
  ok (mkState (zset (buffer s) (len d) c) (active_readers s) (active_writer s) (readers s) (zset (writers s) k (WIn (d ++ [c]) t, w)) (lines s)).
Proof.
  intros Hok Hk Hd. pose proof (writer_inside _ _ _ _ _ Hok Hk) as Hw. pose proof (Forall_zget _ _ _ _ (ok_writing _ Hok) Hk) as (u & Hu & Eu & Et). simpl in Et.
  assert (forall j v, zget (writers s) j = Some v -> j <> k -> v.1 = WOut) as Hother by (intros j v Hj Hne; exact (one_writer s k _ j v Hok Hk eq_refl Hj Hne)).
  destruct Hok. split; simpl; try done.
  - by rewrite length_zset.
  - rewrite (total_zset _ _ _ (WIn d (c :: t), w)) by done. unfold writes at 2 3. simpl. lia.
  - congruence.
  - apply list.Forall_forall. intros v (j & Hj)%elem_of_zget. apply zget_zset_inv in Hj as [[-> ->]|[Hne Hj]].
    + exists u. split; [done|]. split; [by rewrite Eu, <- app_assoc|]. rewrite length_app. simpl.
      replace (length d + 1)%nat with (Z.to_nat (len d + 1)) by lia. rewrite (take_S_zget _ _ c) by (by rewrite zget_zset_eq).
      rewrite take_zset, Nat2Z.id, Et. f_equal. unfold zset. case_cond; [|done]. by rewrite list_insert_ge by lia.
    + unfold writer_ok. by rewrite (Hother j v Hj Hne).
Qed.

Lemma text_writer_unlock s k w d : ok s -> zget (writers s) k = Some (WIn d [], w) ->
  ok (mkState (buffer s) (active_readers s) false (readers s) (zset (writers s) k (WOut, w)) (lines s)).
Proof.
  intros Hok Hk. pose proof (writer_inside _ _ _ _ _ Hok Hk) as Hw. pose proof (Forall_zget _ _ _ _ (ok_writing _ Hok) Hk) as (u & Hu & Eu & Et). simpl in Et.
  pose proof (ok_exclusion _ Hok Hw) as H0. destruct Hok. split; simpl; try done.
  - rewrite (total_zset _ _ _ (WIn d [], w)) by done. rewrite ok_writers0, Hw. done.
  - intros _. rewrite app_nil_r in Eu. exists u, (drop (length d) (buffer s)). split; [|split; [done|apply readers_out; lia]].
    rewrite <- (take_drop (length d) (buffer s)) at 1. rewrite Et, <- Eu, <- app_assoc. done.
  - by apply Forall_zset.
Qed.

Lemma text_step s s' : ok s -> step s s' -> ok s'.
Proof.
  intros Hok Hs. destruct Hs; [by apply text_reader_lock|by apply text_reader_char|by apply text_reader_unlock|by eapply text_writer_lock|by apply text_writer_char|by apply (text_writer_unlock _ _ _ d)].
Qed.

(** The threads before the first lock. *)
Definition start (nreaders nwriters : nat) : state :=
  mkState (replicate (Z.to_nat BUFFER_SIZE) 0) 0 false (replicate nreaders ROut) (replicate nwriters (WOut, 0)) [].

Lemma text_start n m : ok (start n m).
Proof.
  split; simpl; try done.
  - by induction n.
  - by induction m.
  - intros _. exists [], (replicate (Z.to_nat BUFFER_SIZE - 1) 0). split; [done|]. split; [by left|]. apply Forall_replicate. done.
  - by apply Forall_replicate.
Qed.

Lemma text_reach n m s : rtc step (start n m) s -> ok s.
Proof. apply (rtc_ind_r (R := step)); [apply text_start|]. intros; by eapply text_step. Qed.

(** A thread inside can always go on. *)
Lemma reader_goes_on s k line : ok s -> zget (readers s) k = Some (RIn line) -> exists s', step s s'.
Proof.
  intros Hok Hk. destruct (reader_inside _ _ _ Hok Hk) as (Hw & t & rest & Hb & Ht & _ & [u Hu]).
  assert (exists c, zget (buffer s) (len line) = Some c) as [c Hc].
  { rewrite Hb, Hu, <- app_assoc. destruct u; simpl; rewrite zget_middle; by eexists. }
  destruct (decide (c = 0)) as [->|Hne]; eexists; [by eapply reader_unlock|by eapply reader_char].
Qed.

Lemma writer_goes_on s k d r w : ok s -> zget (writers s) k = Some (WIn d r, w) -> exists s', step s s'.
Proof.
  intros Hok Hk. destruct r as [|c r]; eexists; [by eapply writer_unlock|]. eapply writer_char; [done|].
  pose proof (Forall_zget _ _ _ _ (ok_writing _ Hok) Hk) as (u & Hu & Eu & Et). apply complete_fits in Hu as [_ Hu].
  apply (f_equal length) in Eu. rewrite !length_app in Eu. simpl in Eu. rewrite (ok_buffer _ Hok). lia.
Qed.
End program.

(** The threads stay. *)
Lemma readers_length exclusive produces n m s : rtc (step exclusive produces) (start n m) s -> length (readers s) = n.
Proof.
  apply (rtc_ind_r (R := step exclusive produces) (fun s => length (readers s) = n)); [apply length_replicate|]. intros s1 s2 _ Hs IH. destruct Hs; simpl; by rewrite ?length_zset.
Qed.

Lemma never_stuck exclusive produces n m s :
  (forall k w t w', produces k w t w' -> text t /\ len t < BUFFER_SIZE) -> (0 < n)%nat ->
  rtc (step exclusive produces) (start n m) s -> exists s', step exclusive produces s s'.
Proof.
  intros Hfit Hn Hr. pose proof (text_reach exclusive produces Hfit n m s Hr) as Hok. pose proof (readers_length _ _ _ _ _ Hr) as Hlen.
  destruct (zget_range (readers s) 0 ltac:(lia)) as [[|line] H0]; [|by eapply reader_goes_on].
  destruct (active_writer s) eqn:Hw.
  - assert (exists k d r w, zget (writers s) k = Some (WIn d r, w)) as (k & d & r & w & Hk); [|by eapply writer_goes_on].
    pose proof (ok_writers _ _ _ Hok) as Ht. rewrite Hw in Ht. clear - Ht. induction (writers s) as [|[[|d r] w] l IH]; simpl in Ht; [lia| |by exists 0, d, r, w].
    destruct IH as (k & d & r & v & Hk); [exact Ht|]. exists (k + 1), d, r, v. rewrite zget_cons. pose proof (zget_Some_range _ _ _ Hk).
    destruct (Z.eqb_spec (k + 1) 0); [lia|]. by replace (k + 1 - 1) with k by lia.
  - destruct (decide (active_readers s = 0)) as [Ha|Ha]; [eexists; by eapply (reader_lock _ _ s 0)|].
    assert (exists k line, zget (readers s) k = Some (RIn line)) as (k & line & Hk); [|by eapply reader_goes_on].
    rewrite (ok_readers _ _ _ Hok) in Ha. clear - Ha. induction (readers s) as [|[|line] l IH]; simpl in Ha; [lia| |by exists 0, line].
    destruct IH as (k & line & Hk); [exact Ha|]. exists (k + 1), line. rewrite zget_cons. pose proof (zget_Some_range _ _ _ Hk).
    destruct (Z.eqb_spec (k + 1) 0); [lia|]. by replace (k + 1 - 1) with k by lia.
Qed.

(** ** The programs *)

Definition NUM_READERS : nat := 4.

Record program : Type := mkProgram { exclusive : bool; produces : Z -> Z -> list Z -> Z -> Prop; nwriters : nat }.

Definition strings : list (list Z) := [chars "Hello, World!"; chars "Mutex is amazing"; chars "C programming rocks"].

(** The writer is [main], which takes the strings in turn. *)
Definition in_turn (k index : Z) (t : list Z) (index' : Z) : Prop := zget strings index = Some t /\ imod (index + 1) (len strings) = Ok index'.

Definition mutex_lock : program := mkProgram true in_turn 1.

Definition readWriteLocks : program := mkProgram false in_turn 1.

(** [%ld] of a number that is not negative. *)
Fixpoint digits (fuel : nat) (n : Z) : list Z :=
  match fuel with
  | O => []
  | S fuel => if n <? 10 then [48 + n] else digits fuel (n / 10) ++ [48 + n mod 10]
  end.

(** [random()] gives any number below 2^31; [snprintf] cuts the text. *)
Definition random_line (k w : Z) (t : list Z) (w' : Z) : Prop :=
  exists r, 0 <= r < 2147483648 /\ 0 <= k /\ t = take (Z.to_nat (BUFFER_SIZE - 1)) (chars "Writer " ++ digits 20 k ++ chars ": " ++ digits 20 r) /\ w' = w.

Definition readWritePreference : program := mkProgram false random_line 2.

Definition programs : list program := [mutex_lock; readWriteLocks; readWritePreference].

Definition start_program (p : program) : state := start NUM_READERS (nwriters p).

Lemma digits_text fuel : forall n, 0 <= n -> text (digits fuel n).
Proof.
  induction fuel as [|fuel IH]; intros n Hn; simpl; [constructor|]. destruct (Z.ltb_spec n 10); [constructor; [lia|constructor]|].
  apply Forall_app. split; [apply IH; dlia|]. constructor; [dlia|constructor].
Qed.

Lemma programs_fit p : p ∈ programs -> forall k w t w', produces p k w t w' -> text t /\ len t < BUFFER_SIZE.
Proof.
  intros Hp k w t w' H. assert (in_turn k w t w' -> text t /\ len t < BUFFER_SIZE) as Hturn.
  { intros [Ht _]. assert (Forall (fun t => text t /\ len t < BUFFER_SIZE) strings) as Hs by (repeat constructor; done). by apply (Forall_zget _ _ _ _ Hs Ht). }
  unfold programs in Hp. repeat (apply elem_of_cons in Hp as [->|Hp]); [by apply Hturn|by apply Hturn| |by apply not_elem_of_nil in Hp].
  destruct H as (r & Hr & Hk & -> & _). split; [|rewrite length_take; unfold BUFFER_SIZE; lia].
  apply Forall_take. rewrite !Forall_app. split; [by repeat constructor|]. split; [by apply digits_text|]. split; [by repeat constructor|]. apply digits_text. lia.
Qed.

(** In all three programs and every schedule each line a reader prints is one complete
    text (or the empty one the buffer starts with), never a mixture of two; a writer
    excludes everyone else, under the mutex also readers exclude each other; and the
    threads never block each other for good. *)
Theorem shared_lines_complete p s : p ∈ programs -> rtc (step (exclusive p) (produces p)) (start_program p) s ->
  Forall (fun l => l.2 = [] \/ exists k w w', produces p k w l.2 w') (lines s) /\
  (active_writer s = true -> active_readers s = 0) /\
  (exclusive p = true -> active_readers s <= 1) /\
  exists s', step (exclusive p) (produces p) s s'.
Proof.
  intros Hp Hr. pose proof (programs_fit p Hp) as Hfit. pose proof (text_reach _ _ Hfit _ _ _ Hr) as Hok.
  split; [apply (ok_lines _ _ _ Hok)|]. split; [apply (ok_exclusion _ _ _ Hok)|]. split; [apply (ok_mutex _ _ _ Hok)|].
  eapply (never_stuck _ _ NUM_READERS (nwriters p)); [exact Hfit|unfold NUM_READERS; lia|exact Hr].
Qed.

Lemma shared_lines_complete_witness : exists s, rtc (step true in_turn) (start_program mutex_lock) s /\ Forall (fun l => l.2 = [] \/ exists k w w', in_turn k w l.2 w') (lines s) /\ lines s = [(2, [])].
Proof.
  assert (rtc (step true in_turn) (start_program mutex_lock)
    (mkState (replicate (Z.to_nat BUFFER_SIZE) 0) 0 false [ROut; ROut; ROut; ROut] [(WOut, 0)] [(2, [])])) as H.
  { eapply rtc_l; [by apply (reader_lock _ _ _ 2)|]. eapply rtc_l; [by apply (reader_unlock _ _ _ 2 [])|]. apply rtc_refl. }
  eexists. split; [exact H|]. split; [|done]. apply (shared_lines_complete mutex_lock _ (list_elem_of_here _ _) H).
Defined.
