(* ===== verification/AddressSpace.v ===== *)
(** * Mapped pages ([computerArchitecture/32vs64bit.c], [os/kernel/kernelMM.c],
    [os/kernel/kernel_mapping.c], [os/filesystem/SIGBUS.c],
    [security/exploits/memSeal.c], [security/exploits/nonExec.c])

    The pages of a process with their permissions; where the kernel places a mapping is
    a parameter. *)
From Stdlib Require Import ZArith Lia String.
From stdpp Require Import base tactics list numbers option gmap.
From S2P Require Import Prelude CString.

#[local] Open Scope Z_scope.
#[local] Open Scope c_scope.

Definition PAGE_SIZE : Z := 4096.
#[global] Arguments PAGE_SIZE : simpl never.

Definition PROT_READ : Z := 1.
Definition PROT_WRITE : Z := 2.
Definition PROT_EXEC : Z := 4.

Record page : Type := mkPage { prot : Z; contents : list Z }.

(** The mapped pages by their number. *)
Abbreviation space := (gmap Z page).

Definition may (p : page) (access : Z) : bool := negb (Z.land (prot p) access =? 0).

(** A fresh anonymous page. *)
Definition fresh (prot : Z) : page := mkPage prot (replicate (Z.to_nat PAGE_SIZE) 0).

#[global] Arguments fresh : simpl never.

(** The pages of user space have numbers below this one. *)
Definition USER_PAGES : Z := 34359738368.

(** Where [mmap] puts a mapping of [n] pages, given the address asked for; [None] is
    [MAP_FAILED]. *)
Definition placement : Type := space -> Z -> nat -> option Z.

Class MmapLaws (place : placement) : Prop := {
  mmap_fresh m hint n p : place m hint n = Some p -> forall i, 0 <= i < Z.of_nat n -> m !! (p + i) = None;
  mmap_range m hint n p : place m hint n = Some p -> 0 < p /\ p + Z.of_nat n <= USER_PAGES
}.

Fixpoint map_pages (m : space) (p : Z) (n : nat) (pg : page) : space :=
  match n with O => m | S n => <[p := pg]> (map_pages m (p + 1) n pg) end.

Fixpoint unmap_pages (m : space) (p : Z) (n : nat) : space :=
  match n with O => m | S n => unmap_pages (delete p m) (p + 1) n end.

Definition pages (size : Z) : nat := Z.to_nat ((size + PAGE_SIZE - 1) / PAGE_SIZE).

Definition mmap (place : placement) (m : space) (hint size prot : Z) : option (space * Z) :=
  p ← place m (hint / PAGE_SIZE) (pages size); Some (map_pages m p (pages size) (fresh prot), p * PAGE_SIZE).

(** [munmap] refuses an address that is not the start of a page, and the length 0. *)
Definition munmap (m : space) (addr size : Z) : option space :=
  if negb (addr mod PAGE_SIZE =? 0) || (size <=? 0) then None else Some (unmap_pages m (addr / PAGE_SIZE) (pages size)).

(** An access to a page that is not mapped, or not with that permission, raises SIGSEGV. *)
Definition load_byte (m : space) (addr : Z) : res Z :=
  match m !! (addr / PAGE_SIZE) with
  | Some p => if may p PROT_READ then (contents p).[addr mod PAGE_SIZE] else Fault BadAddress
  | None => Fault BadAddress
  end.

(** Bytes written into one page from an address on. *)
Definition store_bytes (m : space) (addr : Z) (l : list Z) : res space :=
  match m !! (addr / PAGE_SIZE) with
  | Some p => if may p PROT_WRITE then c ← copy_to (contents p) (addr mod PAGE_SIZE) l; Ok (<[addr / PAGE_SIZE := mkPage (prot p) c]> m)
              else Fault BadAddress
  | None => Fault BadAddress
  end.

(** [memset] of [n] whole pages. *)
Fixpoint memset_pages (m : space) (addr c : Z) (n : nat) : res space :=
  match n with
  | O => Ok m
  | S n => m ← store_bytes m addr (replicate (Z.to_nat PAGE_SIZE) c); memset_pages m (addr + PAGE_SIZE) c n
  end.

(** The string at an address, within its page. *)
Definition load_string (m : space) (addr : Z) : res (list Z) :=
  match m !! (addr / PAGE_SIZE) with
  | Some p => if may p PROT_READ then puts (drop (Z.to_nat (addr mod PAGE_SIZE)) (contents p)) else Fault BadAddress
  | None => Fault BadAddress
  end.

(** Permissions of mapped pages. *)
Fixpoint protect_pages (m : space) (p : Z) (n : nat) (prot : Z) : option space :=
  match n with
  | O => Some m
  | S n => pg ← m !! p; protect_pages (<[p := mkPage prot (contents pg)]> m) (p + 1) n prot
  end.

Definition mprotect (m : space) (addr size prot : Z) : option space :=
  if negb (addr mod PAGE_SIZE =? 0) then None else protect_pages m (addr / PAGE_SIZE) (pages size) prot.

(** ** Lemmas *)

Lemma page_addr p : p * PAGE_SIZE / PAGE_SIZE = p /\ (p * PAGE_SIZE) mod PAGE_SIZE = 0.
Proof. unfold PAGE_SIZE. split; [by rewrite Z.div_mul|by rewrite Z.mod_mul]. Qed.

Lemma fresh_length k : len (contents (fresh k)) = PAGE_SIZE.
Proof. unfold fresh. cbn [contents]. rewrite length_replicate. unfold PAGE_SIZE. lia. Qed.

Lemma full_length (c : Z) : len (replicate (Z.to_nat PAGE_SIZE) c) = PAGE_SIZE.
Proof. rewrite length_replicate. unfold PAGE_SIZE. lia. Qed.

(** Case analysis on whether a page is in a range. *)
Ltac page_range := repeat match goal with |- context [Z.leb ?a ?b] => destruct (Z.leb_spec a b) | |- context [Z.ltb ?a ?b] => destruct (Z.ltb_spec a b) end; simpl; try done; try lia.

Lemma lookup_map_pages n pg : forall m p q, map_pages m p n pg !! q = if (p <=? q) && (q <? p + Z.of_nat n) then Some pg else m !! q.
Proof.
  induction n as [|n IH]; intros m p q; cbn [map_pages]; [page_range|].
  destruct (decide (p = q)) as [->|Hne]; [rewrite lookup_insert_eq; page_range|]. rewrite lookup_insert_ne, IH by done. page_range.
Qed.

Lemma lookup_unmap_pages n : forall m p q, unmap_pages m p n !! q = if (p <=? q) && (q <? p + Z.of_nat n) then None else m !! q.
Proof.
  induction n as [|n IH]; intros m p q; cbn [unmap_pages]; [page_range|]. rewrite IH.
  destruct (decide (p = q)) as [->|Hne]; [rewrite lookup_delete_eq; page_range|]. rewrite lookup_delete_ne by done. page_range.
Qed.

(** Unmapping what was mapped, whatever happened to its pages, gives the space back. *)
Lemma unmap_restores (m m' : space) p n : (forall i, 0 <= i < Z.of_nat n -> m !! (p + i) = None) ->
  (forall q, ~ (p <= q < p + Z.of_nat n) -> m' !! q = m !! q) -> unmap_pages m' p n = m.
Proof.
  intros Hf Hm. apply map_eq. intros q. rewrite lookup_unmap_pages. page_range; [|apply Hm; lia..].
  replace q with (p + (q - p)) by lia. rewrite Hf by lia. done.
Qed.

Lemma store_page m p pg l : m !! p = Some pg -> may pg PROT_WRITE = true -> len (contents pg) = PAGE_SIZE -> len l <= PAGE_SIZE ->
  store_bytes m (p * PAGE_SIZE) l = Ok (<[p := mkPage (prot pg) (l ++ drop (length l) (contents pg))]> m).
Proof.
  intros Hp Hw Hc Hl. unfold store_bytes. destruct (page_addr p) as [-> ->]. rewrite Hp, Hw, copy_front by lia. done.
Qed.

Lemma mmap_inv place m hint size prot m1 addr : mmap place m hint size prot = Some (m1, addr) ->
  exists p, place m (hint / PAGE_SIZE) (pages size) = Some p /\ m1 = map_pages m p (pages size) (fresh prot) /\ addr = p * PAGE_SIZE.
Proof. unfold mmap. destruct (place m _ _) as [p|]; [|done]. cbn [mbind option_bind]. intros [= <- <-]. by exists p. Qed.

(** A placement above all mapped pages, up to a limit, which shows that the laws can
    hold. *)
Definition highest (m : space) : Z := foldr Z.max 0 ((map_to_list m).*1).

Definition above (limit : Z) : placement := fun m _ n =>
  let p := highest m + 1 in if p + Z.of_nat n <=? limit then Some p else None.

Lemma highest_bound m k : is_Some (m !! k) -> k <= highest m.
Proof.
  intros [pg Hk]. unfold highest. apply elem_of_map_to_list in Hk. apply (list_elem_of_fmap_2 fst) in Hk. simpl in Hk. revert Hk.
  generalize ((map_to_list m).*1). intros l. induction l as [|x l IH]; intros H; [by apply not_elem_of_nil in H|]. simpl.
  apply elem_of_cons in H as [->|H]; [lia|]. specialize (IH H). lia.
Qed.

Lemma highest_nonneg m : 0 <= highest m.
Proof. unfold highest. induction ((map_to_list m).*1) as [|x l IH]; simpl; lia. Qed.

Lemma above_laws limit : limit <= USER_PAGES -> MmapLaws (above limit).
Proof.
  intros Hl. split; unfold above; intros m hint n p H; destruct (Z.leb_spec (highest m + 1 + Z.of_nat n) limit); simplify_eq.
  - intros i Hi. destruct (m !! (highest m + 1 + i)) eqn:E; [|done]. pose proof (highest_bound m _ (mk_is_Some _ _ E)). lia.
  - pose proof (highest_nonneg m). lia.
Qed.

(** ** [32vs64bit.c] *)

Module Segments.

Definition MAP_PRIVATE : Z := 2.
Definition MAP_ANONYMOUS : Z := 32.

Record MemorySegment : Type := mkSegment { start_addr : Z; end_addr : Z; size : Z; flags : Z; name : list Z }.

(** A segment that starts at [first] pages and has [count]. *)
Definition segment (first count : Z) (name : string) : MemorySegment :=
  mkSegment (PAGE_SIZE * first) (PAGE_SIZE * (first + count)) (PAGE_SIZE * count) (Z.lor MAP_PRIVATE MAP_ANONYMOUS) (chars name).

Definition init_memory_segments (segments : list MemorySegment) (is_64bit : bool) : res (list MemorySegment) :=
  if is_64bit then
    s ← segments.[0 <- segment 0 10 "xkseg3"]; s ← s.[1 <- segment 10 10 "xkseg2"]; s.[2 <- segment 20 10 "xkseg1"]
  else
    s ← segments.[0 <- segment 0 5 "kseg3"]; s ← s.[1 <- segment 5 5 "kseg2"]; s.[2 <- segment 10 5 "kseg1"].

(** What [main] prints. *)
Inductive event : Type :=
| MapFailed (name : list Z)
| Mapped (name : list Z) (addr first_byte : Z)
| Wrote (name text : list Z)
| Unmapped (name : list Z)
| UnmapFailed (name : list Z).

Section main.
Context (place : placement).

(** The address, or [None] for [NULL]. *)
Definition map_segment (m : space) (s : MemorySegment) : res (space * option Z) :=
  match mmap place m 0 (size s) (Z.lor PROT_READ PROT_WRITE) with
  | None => Ok (m, None)
  | Some (m, addr) => m ← store_bytes m addr (replicate (Z.to_nat PAGE_SIZE) 66); Ok (m, Some addr)
  end.

Definition test_mapped_memory (m : space) (addr : Z) : res Z := load_byte m addr.

(** The three loops of [main]. *)
Fixpoint map_all (m : space) (segments : list MemorySegment) : res (space * list (MemorySegment * option Z) * list event) :=
  match segments with
  | [] => Ok (m, [], [])
  | s :: segments =>
      '(m, addr) ← map_segment m s;
      e ← match addr with None => Ok (MapFailed (name s)) | Some a => b ← test_mapped_memory m a; Ok (Mapped (name s) a b) end;
      '(m, l, es) ← map_all m segments;
      Ok (m, (s, addr) :: l, e :: es)
  end.

Definition greeting (s : MemorySegment) : list Z := chars "Hello from " ++ name s ++ chars "!".

Fixpoint write_all (m : space) (l : list (MemorySegment * option Z)) : res (space * list event) :=
  match l with
  | [] => Ok (m, [])
  | (s, None) :: l => write_all m l
  | (s, Some a) :: l =>
      m ← store_bytes m a (take (Z.to_nat (PAGE_SIZE - 1)) (greeting s) ++ [0]);
      t ← load_string m a;
      '(m, es) ← write_all m l;
      Ok (m, Wrote (name s) t :: es)
  end.

Fixpoint unmap_all (m : space) (l : list (MemorySegment * option Z)) : space * list event :=
  match l with
  | [] => (m, [])
  | (s, None) :: l => unmap_all m l
  | (s, Some a) :: l =>
      match munmap m a (size s) with
      | Some m => let '(m, es) := unmap_all m l in (m, Unmapped (name s) :: es)
      | None => let '(m, es) := unmap_all m l in (m, UnmapFailed (name s) :: es)
      end
  end.

Definition segments_main (is_64bit : bool) (uninit : list MemorySegment) (m : space) : res (space * list event) :=
  segments ← init_memory_segments uninit is_64bit;
  '(m, l, e1) ← map_all m segments;
  '(m, e2) ← write_all m l;
  let '(m, e3) := unmap_all m l in
  Ok (m, e1 ++ e2 ++ e3).
End main.

(** The messages for segments with the addresses they got. *)
Definition mapping_line (x : MemorySegment * option Z) : list event := match x.2 with Some a => [Mapped (name x.1) a 66] | None => [MapFailed (name x.1)] end.
Definition data_line (x : MemorySegment * option Z) : list event := match x.2 with Some _ => [Wrote (name x.1) (greeting x.1)] | None => [] end.
Definition cleanup_line (x : MemorySegment * option Z) : list event := match x.2 with Some _ => [Unmapped (name x.1)] | None => [] end.

(** Whole pages, and a name that fits into a page. *)
Definition sane (s : MemorySegment) : Prop := 0 < size s /\ text (name s) /\ len (name s) < 100.

(** A page of a mapped segment. *)
Definition covers (q : Z) (x : MemorySegment * option Z) : Prop :=
  match x.2 with Some a => a / PAGE_SIZE <= q < a / PAGE_SIZE + Z.of_nat (pages (size x.1)) | None => False end.

#[global] Instance covers_dec q x : Decision (covers q x).
Proof. unfold covers. destruct (x.2); apply _. Defined.

Definition usable (m : space) (a : Z) : Prop :=
  exists p pg, a = p * PAGE_SIZE /\ m !! p = Some pg /\ prot pg = 3 /\ len (contents pg) = PAGE_SIZE.

Definition mapped_in (m0 : space) (x : MemorySegment * option Z) : Prop :=
  sane x.1 /\ forall a, x.2 = Some a -> (exists p, a = p * PAGE_SIZE) /\ forall q, covers q x -> m0 !! q = None.

(** Outside the segments nothing changes, and the segments can be used. *)
Definition grown (m0 m : space) (l : list (MemorySegment * option Z)) : Prop :=
  (forall q, ~ Exists (covers q) l -> m !! q = m0 !! q) /\ Forall (mapped_in m0) l /\ Forall (fun x => forall a, x.2 = Some a -> usable m a) l.

Lemma pages_pos n : 0 < n -> (0 < pages n)%nat.
Proof. intros H. unfold pages, PAGE_SIZE. enough (0 < (n + 4096 - 1) / 4096) by lia. apply Z.div_str_pos. lia. Qed.

Lemma usable_insert m p pg a : usable m a -> prot pg = 3 -> len (contents pg) = PAGE_SIZE -> usable (<[p := pg]> m) a.
Proof.
  intros (q & pq & -> & Hq & H3 & Hl) Hp Hc. destruct (decide (p = q)) as [->|Hne]; [exists q, pg; by rewrite lookup_insert_eq|].
  exists q, pq. by rewrite lookup_insert_ne.
Qed.

Lemma may_rw pg access : prot pg = 3 -> access = PROT_READ \/ access = PROT_WRITE -> may pg access = true.
Proof. intros H [-> | ->]; unfold may; by rewrite H. Qed.

(** One segment: fresh pages, the pattern in the first. *)
Lemma map_segment_ok place `{!MmapLaws place} m s : sane s ->
  exists m' addr, map_segment place m s = Ok (m', addr) /\ grown m m' [(s, addr)] /\ (forall a, addr = Some a -> load_byte m' a = Ok 66).
Proof.
  intros Hs. unfold map_segment, mmap. change (0 / PAGE_SIZE) with 0. destruct (place m 0 (pages (size s))) as [p|] eqn:Hp; cbn [mbind option_bind]; cycle 1.
  { exists m, None. split; [done|]. split; [|done]. split; [done|]. split; constructor; (done || split; done). }
  set (n := pages (size s)) in *. pose proof (pages_pos _ (proj1 Hs)) as Hn. fold n in Hn. set (m1 := map_pages m p n (fresh 3)).
  assert (m1 !! p = Some (fresh 3)) as Hp1 by (unfold m1; rewrite lookup_map_pages; page_range).
  assert (len (contents (fresh 3)) = PAGE_SIZE) as Hl by apply fresh_length.
  change (Z.lor PROT_READ PROT_WRITE) with 3. fold m1.
  pose proof (full_length 66) as Hr. set (r := replicate (Z.to_nat PAGE_SIZE) 66) in *.
  rewrite (store_page m1 p (fresh 3) r Hp1 eq_refl Hl ltac:(lia)), bind_ret_l, drop_ge, app_nil_r by lia. change (prot (fresh 3)) with 3.
  eexists _, _. split; [done|]. split; [split; [|split]|].
  - intros q Hq. assert (~ (p <= q < p + Z.of_nat n)) as Hout by (intros H; apply Hq; constructor; unfold covers; simpl; by rewrite (proj1 (page_addr p))).
    rewrite lookup_insert_ne by lia. unfold m1. rewrite lookup_map_pages. page_range.
  - constructor; [|done]. split; [done|]. simpl. intros a [= <-]. split; [by exists p|]. unfold covers. simpl. rewrite (proj1 (page_addr p)). intros q Hq.
    replace q with (p + (q - p)) by lia. eapply mmap_fresh; [exact Hp|]. unfold n in Hq. lia.
  - constructor; [|done]. intros a [= <-]. eexists p, _. split; [done|]. rewrite lookup_insert_eq. split; [done|]. split; [done|]. exact Hr.
  - intros a [= <-]. unfold load_byte. destruct (page_addr p) as [-> ->]. rewrite lookup_insert_eq, may_rw by auto. apply arr_read_Ok. reflexivity.
Qed.

Lemma map_all_ok place `{!MmapLaws place} segs : forall m, Forall sane segs ->
  exists m' l, map_all place m segs = Ok (m', l, flat_map mapping_line l) /\ l.*1 = segs /\ grown m m' l.
Proof.
  induction segs as [|s segs IH]; intros m Hs; simpl; [exists m, []; split; [done|]; split; [done|]; by repeat split|].
  apply list.Forall_cons in Hs as [Hs Hsegs]. destruct (map_segment_ok place m s Hs) as (m1 & addr & -> & (Hout1 & Hin1 & Hu1) & Hb). rewrite bind_ret_l.
  destruct (IH m1 Hsegs) as (m2 & l & E & Hl & Hout2 & Hin2 & Hu2).
  assert (grown m m2 ((s, addr) :: l)) as Hg.
  { apply list.Forall_cons in Hin1 as [Hin1 _]. apply list.Forall_cons in Hu1 as [Hu1 _]. split; [|split].
    - intros q Hq. rewrite Hout2, Hout1; [done| |]; intros H; apply Hq; [apply Exists_cons in H as [H|H]; [by left|by apply Exists_nil in H]|by right].
    - constructor; [done|]. eapply list.Forall_impl; [exact Hin2|]. intros x [Hx Hx']. split; [done|]. intros a Ha. destruct (Hx' a Ha) as [Hpa Hq']. split; [done|].
      intros q Hq. specialize (Hq' q Hq). destruct (decide (m !! q = None)) as [Hm|Hm]; [done|exfalso]. apply Hm. rewrite <- Hout1; [done|].
      intros H. apply Exists_cons in H as [H|H]; [|by apply Exists_nil in H]. destruct Hin1 as [_ Hin1]. unfold covers in H. simpl in *. destruct addr as [b|]; [|done].
      apply Hm. by apply (proj2 (Hin1 b eq_refl)).
    - constructor; [|done]. intros a Ha. destruct (Hu1 a Ha) as (p & pg & -> & Hp & H3 & Hc). exists p, pg. split; [done|]. split; [|done]. rewrite Hout2; [done|].
      intros H. apply Exists_exists in H as (x & Hx & Hcov). rewrite list.Forall_forall in Hin2. destruct (Hin2 x Hx) as [_ Hx']. unfold covers in Hcov.
      destruct (x.2) as [b|] eqn:Hb2; [|done]. rewrite (proj2 (Hx' b eq_refl)) in Hp; [done|]. unfold covers. by rewrite Hb2. }
  destruct addr as [a|]; simpl.
  - unfold test_mapped_memory. rewrite (Hb a eq_refl). simpl. rewrite E. simpl. exists m2, ((s, Some a) :: l). split; [done|]. split; [by rewrite fmap_cons, Hl|exact Hg].
  - rewrite E. simpl. exists m2, ((s, None) :: l). split; [done|]. split; [by rewrite fmap_cons, Hl|exact Hg].
Qed.

Lemma greeting_ok s : sane s -> text (greeting s) /\ (length (greeting s) < 200)%nat.
Proof.
  intros (_ & Ht & Hl). unfold greeting. split.
  - apply Forall_app. split; [by repeat constructor|]. apply Forall_app. split; [done|by repeat constructor].
  - rewrite !length_app. change (length (chars "Hello from ")) with 11%nat. change (length (chars "!")) with 1%nat. lia.
Qed.

Lemma write_all_ok l : forall m, Forall (fun x => sane x.1 /\ forall a, x.2 = Some a -> usable m a) l ->
  exists m', write_all m l = Ok (m', flat_map data_line l) /\ forall q, ~ Exists (covers q) l -> m' !! q = m !! q.
Proof.
  induction l as [|[s addr] l IH]; intros m H; cbn [write_all flat_map]; [by exists m|]. apply list.Forall_cons in H as [[Hs Hu] Hl]. cbn [fst snd] in *.
  destruct addr as [a|]; unfold data_line at 1; cbn [fst snd app]; cycle 1.
  { destruct (IH m Hl) as (m' & -> & Hout). exists m'. split; [done|]. intros q Hq. apply Hout. intros H. apply Hq. by right. }
  destruct (Hu a eq_refl) as (p & pg & -> & Hp & H3 & Hc). destruct (greeting_ok s Hs) as [Ht Hlen].
  assert (take (Z.to_nat (PAGE_SIZE - 1)) (greeting s) = greeting s) as -> by (apply take_ge; unfold PAGE_SIZE; lia).
  rewrite (store_page m p pg _ Hp (may_rw pg PROT_WRITE H3 (or_intror eq_refl)) Hc), bind_ret_l by (rewrite length_app; change (length [0]) with 1%nat; unfold PAGE_SIZE; lia).
  set (c := (greeting s ++ [0]) ++ drop (length (greeting s ++ [0])) (contents pg)). set (m1 := <[p := mkPage (prot pg) c]> m).
  assert (len c = PAGE_SIZE) as Hlc. { unfold c. rewrite length_app, length_drop, length_app. change (length [0]) with 1%nat. unfold PAGE_SIZE in *. lia. }
  assert (load_string m1 (p * PAGE_SIZE) = Ok (greeting s)) as ->.
  { unfold load_string. destruct (page_addr p) as [-> ->]. unfold m1. rewrite lookup_insert_eq, may_rw by auto. cbn [contents]. unfold c. change (Z.to_nat 0) with O. rewrite drop_0, <- app_assoc.
    by apply puts_text. }
  rewrite bind_ret_l. destruct (IH m1) as (m' & -> & Hout).
  { eapply list.Forall_impl; [exact Hl|]. intros x [Hx Hxu]. split; [done|]. intros a Ha. apply usable_insert; auto. }
  exists m'. split; [done|]. intros q Hq. rewrite Hout by (intros H; apply Hq; by right). unfold m1. rewrite lookup_insert_ne; [done|]. intros ->. apply Hq. left. unfold covers. simpl.
  rewrite (proj1 (page_addr q)). pose proof (pages_pos _ (proj1 Hs)). lia.
Qed.

Lemma unmap_all_ok m0 l : Forall (mapped_in m0) l -> forall m, exists m', unmap_all m l = (m', flat_map cleanup_line l) /\
  forall q, (Exists (covers q) l -> m' !! q = None) /\ (~ Exists (covers q) l -> m' !! q = m !! q).
Proof.
  induction 1 as [|[s addr] l [Hs Hx] _ IH]; intros m; simpl.
  { exists m. split; [done|]. intros q. split; [by intros H%Exists_nil|done]. }
  simpl in Hs, Hx. destruct addr as [a|]; simpl; cycle 1.
  { destruct (IH m) as (m' & -> & Hq). exists m'. split; [done|]. intros q. rewrite Exists_cons. destruct (Hq q) as [H1 H2]. split; [intros [[]|H]; auto|auto]. }
  destruct (Hx a eq_refl) as [[p ->] _]. unfold munmap. destruct (page_addr p) as [Ed ->]. rewrite Ed. destruct (Z.leb_spec (size s) 0) as [Hbad|_]; [destruct Hs; lia|]. cbn [negb orb Z.eqb].
  destruct (IH (unmap_pages m p (pages (size s)))) as (m' & -> & Hq). exists m'. split; [done|]. intros q. rewrite Exists_cons. destruct (Hq q) as [H1 H2]. unfold covers at 1 3. simpl. rewrite Ed.
  rewrite lookup_unmap_pages in H2. split.
  - intros [Hr|Hr]; [|auto]. destruct (decide (Exists (covers q) l)) as [Hd|Hd]; [auto|]. rewrite H2 by done. page_range.
  - intros Hr. rewrite H2 by auto. page_range.
Qed.

(** The tables of both machines: whole pages, one segment after the other from 0. *)
Definition contiguous (l : list MemorySegment) : Prop :=
  forall i s, zget l i = Some s -> end_addr s = start_addr s + size s /\ size s mod PAGE_SIZE = 0 /\
    start_addr s = (if i =? 0 then 0 else match zget l (i - 1) with Some r => end_addr r | None => -1 end).

Lemma init_segments_ok uninit b : len uninit = 3 ->
  exists l, init_memory_segments uninit b = Ok l /\ length l = 3%nat /\ contiguous l /\ Forall sane l.
Proof.
  intros Hl. destruct uninit as [|x [|y [|z [|]]]]; simpl in Hl; try lia.
  destruct b; (eexists; split; [reflexivity|]; split; [done|]; split; [|repeat constructor; done]);
    intros i s E; pose proof (zget_Some_range _ _ _ E) as Hi; simpl in Hi;
    assert (i = 0 \/ i = 1 \/ i = 2) as [-> | [-> | ->]] by lia; injection E as <-; done.
Qed.

(** Whether each [mmap] succeeds or not, the program of [32vs64bit.c] runs without a
    fault over segments of whole pages that follow each other, finds the pattern in the
    first byte of every mapped segment, reads back the greeting it wrote there, and
    unmaps everything: the address space ends as it began. *)
Theorem segments_released place `{!MmapLaws place} is_64bit uninit m : len uninit = 3 ->
  exists l, length l = 3%nat /\ contiguous (l.*1) /\
    segments_main place is_64bit uninit m = Ok (m, flat_map mapping_line l ++ flat_map data_line l ++ flat_map cleanup_line l).
Proof.
  intros Hl. destruct (init_segments_ok uninit is_64bit Hl) as (segs & E & Hn & Hc & Hs). unfold segments_main. rewrite E, bind_ret_l.
  destruct (map_all_ok place segs m Hs) as (m1 & l & -> & Hl1 & Hout & Hin & Hu). rewrite bind_ret_l.
  destruct (write_all_ok l m1) as (m2 & -> & Hout2).
  { apply list.Forall_forall. intros x Hx. rewrite list.Forall_forall in Hin, Hu. split; [apply Hin|apply Hu]; done. }
  rewrite bind_ret_l. destruct (unmap_all_ok m l Hin m2) as (m3 & -> & H3). exists l. split; [by rewrite <- Hn, <- Hl1, length_fmap|]. split; [by rewrite Hl1|].
  do 2 f_equal. apply map_eq. intros q. destruct (H3 q) as [Hin3 Hout3]. destruct (decide (Exists (covers q) l)) as [Hd|Hd].
  - rewrite Hin3 by done. apply Exists_exists in Hd as (x & Hx & Hcov). rewrite list.Forall_forall in Hin. destruct (Hin x Hx) as [_ Hx']. symmetry.
    destruct (x.2) as [a|] eqn:Ea; [by apply (proj2 (Hx' a eq_refl))|]. unfold covers in Hcov. by rewrite Ea in Hcov.
  - by rewrite Hout3, Hout2, Hout.
Qed.

Lemma segments_released_witness :
  exists l, length l = 3%nat /\ contiguous (l.*1) /\
    segments_main (above 25) true (replicate 3 (segment 0 0 "x")) ∅ = Ok (∅, flat_map mapping_line l ++ flat_map data_line l ++ flat_map cleanup_line l).
Proof.
  pose proof (above_laws 25 ltac:(unfold USER_PAGES; lia)) as HL. apply (segments_released (above 25) true (replicate 3 (segment 0 0 "x")) ∅). reflexivity.
Defined.
End Segments.

(** ** [kernelMM.c] and [kernel_mapping.c] *)

Module KernelSpace.

Definition ALLOCATION_SIZE : Z := 100 * PAGE_SIZE.

(** [kernelMM.c]: the space at the end, the code, and where the request for an address of
    the kernel was answered. *)
Definition kernel_mm_main (place : placement) (m : space) : res (space * Z * option Z) :=
  match mmap place m 0 ALLOCATION_SIZE (Z.lor PROT_READ PROT_WRITE) with
  | None => Ok (m, 1, None)
  | Some (m, ptr) =>
      m ← memset_pages m ptr 0 (pages ALLOCATION_SIZE);
      match munmap m ptr ALLOCATION_SIZE with
      | None => Ok (m, 1, None)
      | Some m =>
          match mmap place m 18446744071562067968 PAGE_SIZE (Z.lor PROT_READ PROT_WRITE) with
          | None => Ok (m, 0, None)
          | Some (m, kernel_ptr) => Ok (match munmap m kernel_ptr PAGE_SIZE with Some m => m | None => m end, 0, Some kernel_ptr)
          end
      end
  end.

(** [kernel_mapping.c]: the write to an address of the kernel comes before [munmap]. *)
Definition kernel_mapping_main (place : placement) (m : space) : res (space * Z) :=
  match mmap place m (140737488355328 - PAGE_SIZE) PAGE_SIZE (Z.lor PROT_READ PROT_WRITE) with
  | None => Ok (m, 1)
  | Some (m, high_addr) =>
      m ← store_bytes m 18446603336221196288 [42; 0; 0; 0];
      Ok (match munmap m high_addr PAGE_SIZE with Some m => m | None => m end, 0)
  end.

(** Writes keep the pages outside the written ones. *)
Lemma memset_pages_ok n c : forall m p, (forall i, 0 <= i < Z.of_nat n -> exists pg, m !! (p + i) = Some pg /\ prot pg = 3 /\ len (contents pg) = PAGE_SIZE) ->
  exists m', memset_pages m (p * PAGE_SIZE) c n = Ok m' /\ forall q, ~ (p <= q < p + Z.of_nat n) -> m' !! q = m !! q.
Proof.
  induction n as [|n IH]; intros m p H; cbn [memset_pages]; [by exists m|]. destruct (H 0 ltac:(lia)) as (pg & Hp & H3 & Hl). rewrite Z.add_0_r in Hp.
  pose proof (full_length c) as Hr. set (r := replicate (Z.to_nat PAGE_SIZE) c) in *.
  rewrite (store_page m p pg r Hp (Segments.may_rw pg PROT_WRITE H3 (or_intror eq_refl)) Hl ltac:(lia)), bind_ret_l.
  replace (p * PAGE_SIZE + PAGE_SIZE) with ((p + 1) * PAGE_SIZE) by ring.
  destruct (IH (<[p := mkPage (prot pg) (r ++ drop (length r) (contents pg))]> m) (p + 1)) as (m' & -> & Hout).
  - intros i Hi. rewrite lookup_insert_ne by lia. replace (p + 1 + i) with (p + (i + 1)) by lia. apply H. lia.
  - exists m'. split; [done|]. intros q Hq. rewrite Hout by lia. apply lookup_insert_ne. lia.
Qed.

Lemma mmap_then_munmap place `{!MmapLaws place} m hint size m1 addr m2 : 0 < size -> mmap place m hint size 3 = Some (m1, addr) ->
  (forall q, ~ (addr / PAGE_SIZE <= q < addr / PAGE_SIZE + Z.of_nat (pages size)) -> m2 !! q = m1 !! q) -> munmap m2 addr size = Some m.
Proof.
  intros Hs Hm H2. apply mmap_inv in Hm as (p & Hp & -> & ->).
  unfold munmap. destruct (page_addr p) as [Ed Em]. rewrite Ed in *. rewrite Em. destruct (Z.leb_spec size 0); [lia|]. simpl. f_equal.
  apply unmap_restores; [by eapply mmap_fresh|]. intros q Hq. rewrite H2 by done. rewrite lookup_map_pages. page_range.
Qed.

(** Wherever the kernel places the mappings, [kernelMM.c] writes only its own pages and
    leaves the address space as it was, and the request for an address of the kernel is
    answered with an address of user space or not at all. *)
Theorem kernel_mm_releases place `{!MmapLaws place} m :
  exists code a, kernel_mm_main place m = Ok (m, code, a) /\ forall addr, a = Some addr -> 0 < addr < USER_PAGES * PAGE_SIZE.
Proof.
  unfold kernel_mm_main. change (Z.lor PROT_READ PROT_WRITE) with 3. destruct (mmap place m 0 ALLOCATION_SIZE 3) as [[m1 ptr]|] eqn:E1; [|by eexists _, None].
  destruct (mmap_inv _ _ _ _ _ _ _ E1) as (p & _ & -> & ->).
  destruct (memset_pages_ok (pages ALLOCATION_SIZE) 0 (map_pages m p (pages ALLOCATION_SIZE) (fresh 3)) p) as (m2 & -> & Hout).
  { intros i Hi. exists (fresh 3). rewrite lookup_map_pages. split; [page_range|]. split; [done|apply fresh_length]. }
  rewrite bind_ret_l, (mmap_then_munmap place m 0 ALLOCATION_SIZE (map_pages m p (pages ALLOCATION_SIZE) (fresh 3)) (p * PAGE_SIZE) m2); [|unfold ALLOCATION_SIZE, PAGE_SIZE; lia|exact E1|rewrite (proj1 (page_addr p)); exact Hout].
  destruct (mmap place m 18446744071562067968 PAGE_SIZE 3) as [[m3 k]|] eqn:E3; [|by eexists _, None].
  rewrite (mmap_then_munmap place m 18446744071562067968 PAGE_SIZE m3 k m3); [|unfold PAGE_SIZE; lia|exact E3|done].
  eexists _, _. split; [done|]. intros addr [= <-]. apply mmap_inv in E3 as (q & Hq & _ & ->).
  pose proof (mmap_range _ _ _ _ Hq) as [H0 H1]. change (pages PAGE_SIZE) with 1%nat in H1. unfold PAGE_SIZE. lia.
Qed.

(** [kernel_mapping.c] never gets to its [munmap]: in a space with pages of user space only,
    the write to the address of the kernel faults. *)
Theorem kernel_write_faults place `{!MmapLaws place} m : (forall q, is_Some (m !! q) -> q < USER_PAGES) ->
  kernel_mapping_main place m = Ok (m, 1) \/ kernel_mapping_main place m = Fault BadAddress.
Proof.
  intros Hm. unfold kernel_mapping_main. change (Z.lor PROT_READ PROT_WRITE) with 3. destruct (mmap place m _ PAGE_SIZE 3) as [[m1 a]|] eqn:E; [right|by left].
  apply mmap_inv in E as (p & Hp & -> & ->). pose proof (mmap_range _ _ _ _ Hp) as [_ Hr].
  unfold store_bytes. set (q := 18446603336221196288 / PAGE_SIZE). assert (USER_PAGES <= q) as Hq by (vm_compute; done).
  rewrite lookup_map_pages. destruct (Z.ltb_spec q (p + Z.of_nat (pages PAGE_SIZE))) as [Hlt|_]; [lia|]. rewrite andb_false_r. destruct (m !! q) eqn:Em; [|done]. specialize (Hm q (mk_is_Some _ _ Em)). lia.
Qed.
End KernelSpace.

(** ** [memSeal.c] and [nonExec.c] *)

Module Sealing.

(** [mseal] checks its arguments and prints; nothing is recorded. *)
Definition mseal (addr length flags : Z) : Z := if (addr =? 0) || (length =? 0) then -1 else 0.

(** The code, the permissions of the page when it is unmapped, and the space. *)
Definition mem_seal_main (place : placement) (m : space) : res (space * Z * option Z) :=
  match mmap place m 0 4096 (Z.lor PROT_READ PROT_WRITE) with
  | None => Ok (m, 1, None)
  | Some (m, p) =>
      if mseal p 4096 0 =? -1 then Ok (match munmap m p 4096 with Some m => m | None => m end, 1, None)
      else
        let m := match mprotect m p 4096 PROT_EXEC with Some m => m | None => m end in
        let final := prot <$> m !! (p / PAGE_SIZE) in
        Ok (match munmap m p 4096 with Some m => m | None => m end, 0, final)
  end.

(** [nonExec.c]: a text is written and the page made executable. *)
Definition non_exec_main (place : placement) (m : space) : res (space * Z * option Z) :=
  match mmap place m 0 4096 (Z.lor PROT_READ PROT_WRITE) with
  | None => Ok (m, 1, None)
  | Some (m, buffer) =>
      m ← store_bytes m buffer (chars "Hello, World!" ++ [0]);
      let m := match mprotect m buffer 4096 (Z.lor (Z.lor PROT_READ PROT_WRITE) PROT_EXEC) with Some m => m | None => m end in
      let final := prot <$> m !! (buffer / PAGE_SIZE) in
      Ok (match munmap m buffer 4096 with Some m => m | None => m end, 0, final)
  end.

(** Changing the permissions of one mapped page. *)
Lemma mprotect_page m p pg k : m !! p = Some pg -> mprotect m (p * PAGE_SIZE) 4096 k = Some (<[p := mkPage k (contents pg)]> m).
Proof. intros H. unfold mprotect. destruct (page_addr p) as [-> ->]. change (pages 4096) with 1%nat. cbn [protect_pages Z.eqb negb]. by rewrite H. Qed.

(** Sealing protects nothing: whenever the page of [memSeal.c] is mapped, the change of
    its permissions after [mseal] succeeds.  The same change makes the page of
    [nonExec.c] writable and executable at once.  Both programs unmap their page. *)
Theorem seal_has_no_effect place `{!MmapLaws place} m p : place m 0 1%nat = Some p ->
  mem_seal_main place m = Ok (m, 0, Some PROT_EXEC) /\ non_exec_main place m = Ok (m, 0, Some 7).
Proof.
  intros Hp. pose proof (mmap_range _ _ _ _ Hp) as [H0 _].
  assert (mmap place m 0 4096 3 = Some (map_pages m p 1 (fresh 3), p * PAGE_SIZE)) as E. { unfold mmap. change (0 / PAGE_SIZE) with 0. change (pages 4096) with 1%nat. by rewrite Hp. }
  assert (forall m2, (forall q, ~ (p <= q < p + Z.of_nat 1) -> m2 !! q = map_pages m p 1 (fresh 3) !! q) -> munmap m2 (p * PAGE_SIZE) 4096 = Some m) as Hun.
  { intros m2 H2. eapply (KernelSpace.mmap_then_munmap place m 0 4096); [done|exact E|]. by rewrite (proj1 (page_addr p)). }
  pose proof (lookup_map_pages 1 (fresh 3) m p p) as L1. replace ((p <=? p) && (p <? p + Z.of_nat 1)) with true in L1 by page_range.
  set (m1 := map_pages m p 1 (fresh 3)) in *. unfold mem_seal_main, non_exec_main. change (Z.lor PROT_READ PROT_WRITE) with 3. rewrite E. split.
  - unfold mseal. destruct (Z.eqb_spec (p * PAGE_SIZE) 0) as [Hz|_]; [unfold PAGE_SIZE in Hz; lia|]. cbn [orb Z.eqb]. rewrite (mprotect_page m1 p (fresh 3) _ L1), (proj1 (page_addr p)), lookup_insert_eq.
    rewrite Hun; [done|]. intros q Hq. apply lookup_insert_ne. lia.
  - rewrite (store_page m1 p (fresh 3) _ L1 eq_refl (fresh_length 3)), bind_ret_l by (vm_compute; done). erewrite mprotect_page by apply lookup_insert_eq.
    rewrite (proj1 (page_addr p)), lookup_insert_eq. rewrite Hun; [done|]. intros q Hq. rewrite !lookup_insert_ne by lia. done.
Qed.

Lemma seal_has_no_effect_witness : mem_seal_main (above 10) ∅ = Ok (∅, 0, Some PROT_EXEC).
Proof. pose proof (above_laws 10 ltac:(unfold USER_PAGES; lia)) as HL. apply (seal_has_no_effect (above 10) ∅ 1). reflexivity. Defined.
End Sealing.

(** ** [SIGBUS.c] *)

Module BusError.

(** What the program prints, when it does. *)
Inductive line : Type := ShouldNotBePrinted (c : Z) | BusLine | SegvLine.

(** The code after [sigsetjmp] returns [ret], up to the next jump of a handler: the value of
    that jump and what was printed.  [unmapped_signal] says which signal an access to an
    unmapped page raises; a write through a null pointer raises SIGSEGV. *)
Definition after_setjmp (place : placement) (unmapped_signal : Z) (opened : bool) (m : space) (ret : Z) : ctl (space * Z * list line) Z :=
  let null_write (m : space) (out : list line) := Next (m, 2, out) in
  if ret =? 0 then
    if negb opened then Return 1 else
    match mmap place m 0 4096 PROT_READ with
    | None => Return 1
    | Some (m, ptr) =>
        let m := match munmap m ptr 4096 with Some m => m | None => m end in
        match load_byte m ptr with
        | Ok c => null_write m [ShouldNotBePrinted c]
        | Fault _ => Next (m, unmapped_signal, [])
        end
    end
  else if ret =? 1 then null_write m [BusLine]
  else if ret =? 2 then null_write m [SegvLine]
  else null_write m [].

(** [main]: every jump comes back to [sigsetjmp]. *)
Definition sigbus_main (fuel : nat) (place : placement) (unmapped_signal : Z) (opened : bool) (m : space) : res (Z * list line) :=
  loop fuel (fun '(m, ret, out) =>
    match after_setjmp place unmapped_signal opened m ret with
    | Next (m, ret, printed) => Ok (Next (m, ret, out ++ printed))
    | Return code => Ok (Return (code, out))
    end) (m, 0, []).

(** When the file can be opened and mapped, [SIGBUS.c] never ends, whichever signal the
    first access raises: the handler of the fault on the null pointer jumps back to
    before that fault. *)
Theorem sigbus_never_ends place `{!MmapLaws place} unmapped_signal m p fuel : place m 0 1%nat = Some p ->
  unmapped_signal = 1 \/ unmapped_signal = 2 -> sigbus_main fuel place unmapped_signal true m = Fault OutOfFuel.
Proof.
  intros Hp Hsig. assert (exists m1 r out, after_setjmp place unmapped_signal true m 0 = Next (m1, r, out) /\ (r = 1 \/ r = 2)) as (m1 & r & out & E & Hr).
  { unfold after_setjmp. cbn [Z.eqb negb]. unfold mmap. change (0 / PAGE_SIZE) with 0. change (pages 4096) with 1%nat. rewrite Hp. cbn [mbind option_bind].
    destruct (load_byte _ _); eexists _, _, _; (split; [done|]); auto. }
  destruct fuel as [|fuel]; [done|]. unfold sigbus_main. rewrite loop_S. rewrite E, bind_ret_l. cbv beta iota.
  apply (loop_diverges (fun st => st.1.2 = 1 \/ st.1.2 = 2)); [|exact Hr]. intros [[m2 ret] o] [H|H]; simpl in H; subst ret; eexists; (split; [done|]); by right.
Qed.

Lemma sigbus_never_ends_witness : sigbus_main 30 (above 10) 2 true ∅ = Fault OutOfFuel.
Proof. pose proof (above_laws 10 ltac:(unfold USER_PAGES; lia)) as HL. apply (sigbus_never_ends (above 10) 2 ∅ 1); [reflexivity|by right]. Defined.
End BusError.

(** ** The physical address of a variable ([memory/virtual_mem/pagemap.c]) *)

Module Pagemap.

Definition PAGE_SHIFT : Z := 12.
Definition PFN_MASK : Z := Z.land (Z.shiftl 1 55 - 1) (u64 (Z.lnot (Z.shiftl 1 PAGE_SHIFT - 1))).

(** [read_entry] is the file [/proc/self/pagemap]: eight bytes at an offset, or [None] for a
    failed or short read.  The code, and the address printed. *)
Definition pagemap_main (opened seeked : bool) (read_entry : Z -> option Z) (var : Z) : Z * option Z :=
  if negb opened then (1, None) else
  let offset := u64 (var / PAGE_SIZE * 8) in
  if negb seeked then (1, None) else
  match read_entry offset with
  | None => (1, None)
  | Some entry =>
      if Z.land entry (Z.shiftl 1 63) =? 0 then (1, None) else
      let pfn := Z.land entry PFN_MASK in
      (0, Some (Z.lor (u64 (Z.shiftl pfn PAGE_SHIFT)) (Z.land var (PAGE_SIZE - 1))))
  end.

(** The entry of a present page: the frame number in the bits 0 to 54, and flags. *)
Definition present_entry (frame flags : Z) : Z := (256 + flags) * 2 ^ 55 + frame.

Lemma present_fields frame flags : 0 <= frame < 2 ^ 40 -> 0 <= flags < 256 ->
  Z.land (present_entry frame flags) (Z.shiftl 1 63) <> 0 /\ Z.land (present_entry frame flags) PFN_MASK = 4096 * (frame / 4096).
Proof.
  intros Hf Hg. unfold present_entry. split.
  - intros H. assert (Z.testbit (Z.land ((256 + flags) * 2 ^ 55 + frame) (Z.shiftl 1 63)) 63 = true) as Hb; [|by rewrite H, Z.bits_0 in Hb].
    rewrite Z.land_spec. change (Z.testbit (Z.shiftl 1 63) 63) with true. rewrite andb_true_r. rewrite Z.testbit_eqb by lia. apply Z.eqb_eq.
    replace (((256 + flags) * 2 ^ 55 + frame) / 2 ^ 63) with 1; [done|]. apply Z.div_unique with (flags * 2 ^ 55 + frame); [left|]; lia.
  - change PFN_MASK with (Z.ldiff (Z.ones 55) (Z.ones 12)). change 4096 with (2 ^ 12). rewrite <- (mask_low 55 12 frame) by lia.
    assert (forall a b c, Z.land a (Z.ldiff b c) = Z.ldiff (Z.land a b) c) as Hassoc.
    { intros a b c. apply Z.bits_inj'. intros n Hn. rewrite Z.land_spec, !Z.ldiff_spec, Z.land_spec. by rewrite andb_assoc. }
    rewrite !Hassoc, !Z.land_ones by lia. by rewrite Z.add_comm, Z.mod_add by lia.
Qed.

(** For a present page with frame [frame] the program of [pagemap.c] prints the right
    physical address exactly when the frame number is a multiple of 4096: the mask clears
    the low twelve bits of the number, which are bits of the frame and not of an
    offset. *)
Theorem pagemap_address frame flags read_entry var : 0 <= frame < 2 ^ 40 -> 0 <= flags < 256 -> 0 <= var ->
  read_entry (u64 (var / PAGE_SIZE * 8)) = Some (present_entry frame flags) ->
  exists a, pagemap_main true true read_entry var = (0, Some a) /\
    a = 4096 * (frame - frame mod 4096) + var mod 4096 /\
    (a = frame * PAGE_SIZE + var mod PAGE_SIZE <-> frame mod 4096 = 0).
Proof.
  intros Hf Hg Hv E. destruct (present_fields frame flags Hf Hg) as [Hp Hm]. unfold pagemap_main. cbn [negb]. rewrite E. destruct (Z.eqb_spec (Z.land (present_entry frame flags) (Z.shiftl 1 63)) 0); [done|].
  eexists. split; [done|]. rewrite Hm. change (PAGE_SIZE - 1) with (Z.ones 12). rewrite Z.land_ones by lia. change (2 ^ 12) with 4096. unfold PAGE_SHIFT, PAGE_SIZE.
  assert (0 <= frame / 4096 <= frame) by dlia.
  assert (u64 (Z.shiftl (4096 * (frame / 4096)) 12) = Z.shiftl (4096 * (frame / 4096)) 12) as ->. { apply u64_id. rewrite Z.shiftl_mul_pow2 by lia. unfold UINT64. lia. }
  assert (0 <= var mod 4096 < 2 ^ 12) by (apply Z.mod_pos_bound; lia). rewrite lor_shifted by lia. change (2 ^ 12) with 4096.
  pose proof (Z.div_mod frame 4096 ltac:(lia)). split; lia.
Qed.

Lemma pagemap_address_witness :
  exists a, pagemap_main true true (fun _ => Some (present_entry 5 0)) 8200 = (0, Some a) /\ a <> 5 * 4096 + 8200 mod 4096.
Proof.
  destruct (pagemap_address 5 0 (fun _ => Some (present_entry 5 0)) 8200) as (a & H & _ & Hiff); [lia|lia|lia|reflexivity|].
  exists a. split; [exact H|]. intros Ha. apply Hiff in Ha. discriminate Ha.
Defined.
End Pagemap.
