(* ===== verification/Layout.v ===== *)
(** * The layout of structures ([accessPatterns/visPadding.c],
    [visPaddingWithPragma.c], [playingAround/fixedTypes/memAlignment.c],
    [typeAware.c])

    Offsets and sizes as the compiler computes them from the sizes and alignments of the
    fields, and the bytes of a structure. *)
From Stdlib Require Import ZArith Lia.
From stdpp Require Import base tactics list numbers option.
From S2P Require Import Prelude.

#[local] Open Scope Z_scope.
#[local] Open Scope c_scope.

(** A scalar type. *)
Record ctype : Type := mkType { tsize : Z; talign : Z }.

Definition uint8_t : ctype := mkType 1 1.
Definition char : ctype := mkType 1 1.
Definition uint16_t : ctype := mkType 2 2.
Definition uint32_t : ctype := mkType 4 4.
Definition int32_t : ctype := mkType 4 4.
Definition float : ctype := mkType 4 4.

Definition align_up (n a : Z) : Z := (n + a - 1) / a * a.

Section structure.
(** [#pragma pack(n)]: no alignment is above [pack]. *)
Context (pack : Z).

Definition field_align (t : ctype) : Z := Z.min (talign t) pack.

(** The offsets of fields placed from [o] on, and the end of the last one. *)
Fixpoint place (o : Z) (fs : list ctype) : list Z * Z :=
  match fs with
  | [] => ([], o)
  | f :: fs =>
      let o := align_up o (field_align f) in
      let '(l, e) := place (o + tsize f) fs in
      (o :: l, e)
  end.

Definition offsets (fs : list ctype) : list Z := (place 0 fs).1.

Definition struct_align (fs : list ctype) : Z := foldr (fun f a => Z.max (field_align f) a) 1 fs.

Definition sizeof (fs : list ctype) : Z := align_up (place 0 fs).2 (struct_align fs).
End structure.

(** The compiler's default: no alignment is above 16. *)
Definition natural : Z := 16.

(** [visPadding.c], and with [#pragma pack(push, 1)] [visPaddingWithPragma.c]. *)
Definition GamePacket : list ctype := [uint8_t; uint32_t; float; float; uint8_t; uint16_t].

(** The addresses [main] prints for a packet at [a], and the size. *)
Definition packet_main (pack a : Z) : list Z * Z := (Z.add a <$> offsets pack GamePacket, sizeof pack GamePacket).

(** [memAlignment.c] and [alignment_benchmark.c]. *)
Definition BadStruct : list ctype := [char; int32_t; char].
Definition GoodStruct : list ctype := [int32_t; char; char].

Definition mem_alignment_main : Z * Z := (sizeof natural BadStruct, sizeof natural GoodStruct).

(** ** Bytes *)

(** The bytes of a number, the least significant first. *)
Fixpoint bytes_of (n : nat) (v : Z) : list Z := match n with O => [] | S n => v mod 256 :: bytes_of n (v / 256) end.

Fixpoint number_of (l : list Z) : Z := match l with [] => 0 | b :: l => b + 256 * number_of l end.

(** The fields stored one after the other into memory that held [mem]. *)
Fixpoint store_fields (mem : list Z) (os : list Z) (fs : list ctype) (vs : list Z) : res (list Z) :=
  match os, fs, vs with
  | o :: os, f :: fs, v :: vs => mem ← copy_to mem o (bytes_of (Z.to_nat (tsize f)) v); store_fields mem os fs vs
  | _, _, _ => Ok mem
  end.

Definition load_field (mem : list Z) (o : Z) (f : ctype) : res Z := b ← copy_from mem o (Z.to_nat (tsize f)); Ok (number_of b).

(** [typeAware.c]. *)
Definition Person : list ctype := [uint8_t; uint32_t; uint16_t].

(** The bytes printed, from the first to the last. *)
Definition print_memory_layout (mem : list Z) (size : Z) : res (list Z) :=
  for_range (Z.to_nat size) 0 (fun i out => b ← mem.[i]; Ok (out ++ [b])) [].

(** The size, the offsets and the bytes; the padding keeps what was in memory. *)
Definition type_aware_main (uninit : list Z) : res (Z * list Z * list Z) :=
  person ← store_fields uninit (offsets natural Person) Person [25; 12345678; 2024];
  out ← print_memory_layout person (sizeof natural Person);
  Ok (sizeof natural Person, offsets natural Person, out).

(** ** Lemmas *)

Definition sound (f : ctype) : Prop := 0 < tsize f /\ 0 < talign f.

Lemma align_up_spec n a : 0 < a -> n <= align_up n a < n + a /\ align_up n a mod a = 0.
Proof. intros Ha. unfold align_up. split; [dnia|]. by rewrite Z.mod_mul by lia. Qed.

(** The offsets from [o] on: aligned, with less than an alignment of padding before each
    field, no field over the next, none past the end. *)
Fixpoint laid_out (pack o : Z) (fs : list ctype) (os : list Z) (e : Z) : Prop :=
  match fs, os with
  | [], [] => e = o
  | f :: fs, x :: os => x mod field_align pack f = 0 /\ o <= x < o + field_align pack f /\ laid_out pack (x + tsize f) fs os e
  | _, _ => False
  end.

Lemma place_laid_out pack fs : 0 < pack -> Forall sound fs -> forall o, laid_out pack o fs (place pack o fs).1 (place pack o fs).2.
Proof.
  intros Hp. induction 1 as [|f fs [Hs Ha] _ IH]; intros o; simpl; [done|].
  specialize (IH (align_up o (field_align pack f) + tsize f)). destruct (place pack _ fs) as [l e]. simpl in *.
  assert (0 < field_align pack f) as Hf by (unfold field_align; lia). destruct (align_up_spec o _ Hf). auto.
Qed.

Lemma laid_out_le pack o fs os e : Forall sound fs -> laid_out pack o fs os e -> o <= e.
Proof.
  intros H. revert o os. induction H as [|f fs [Hs _] _ IH]; intros o [|x os]; simpl; [lia|done|done|]. intros (_ & Hx & H). apply IH in H. lia.
Qed.

(** Fields are disjoint and inside. *)
Lemma laid_out_get pack fs : Forall sound fs -> forall o os e i x f, laid_out pack o fs os e -> zget os i = Some x -> zget fs i = Some f ->
  o <= x /\ x + tsize f <= e /\ x mod field_align pack f = 0 /\ forall j y, i < j -> zget os j = Some y -> x + tsize f <= y.
Proof.
  induction 1 as [|f' fs [Hs Ha] Hfs IH]; intros o [|x' os] e i x f H; [by rewrite zget_nil|done|done|]. rewrite !zget_cons. destruct H as (Hm & Hx & H).
  destruct (Z.eqb_spec i 0) as [->|Hi].
  - intros [= <-] [= <-]. split; [lia|]. split; [by eapply laid_out_le|]. split; [done|]. intros j y Hj. rewrite zget_cons. destruct (Z.eqb_spec j 0); [lia|].
    intros Hy. clear IH. revert H Hy. generalize (x' + tsize f') as p. clear - Hfs. revert os j. induction Hfs as [|g fs [Hg _] _ IH]; intros [|z os] j p H Hy; [by rewrite zget_nil in Hy|done|done|].
    rewrite zget_cons in Hy. destruct H as (_ & Hz & H). destruct (Z.eqb_spec (j - 1) 0); [injection Hy as <-; lia|]. specialize (IH os (j - 1) _ H Hy). lia.
  - intros Hy Hf. destruct (IH _ _ _ _ _ _ H Hy Hf) as (H1 & H2 & H3 & H4). split; [lia|]. split; [done|]. split; [done|].
    intros j y Hj. rewrite zget_cons. destruct (Z.eqb_spec j 0) as [->|]; [|apply H4; lia]. pose proof (zget_Some_range _ _ _ Hf). lia.
Qed.

Lemma length_bytes_of n v : length (bytes_of n v) = n.
Proof. revert v. induction n as [|n IH]; intros v; simpl; [done|]. by rewrite IH. Qed.

Lemma number_of_bytes n : forall v, 0 <= v < 256 ^ Z.of_nat n -> number_of (bytes_of n v) = v.
Proof.
  induction n as [|n IH]; intros v Hv; simpl; [change (256 ^ Z.of_nat 0) with 1 in Hv; lia|].
  rewrite IH; [rewrite Z.add_comm; symmetry; apply Z.div_mod; lia|].
  replace (Z.of_nat (S n)) with (Z.succ (Z.of_nat n)) in Hv by lia. rewrite Z.pow_succ_r in Hv by lia. split; [apply Z.div_pos; lia|apply Z.div_lt_upper_bound; lia].
Qed.

Lemma zget_window {A} (l : list A) o (n : nat) k : 0 <= o -> 0 <= k < Z.of_nat n -> zget (take n (drop (Z.to_nat o) l)) k = zget l (o + k).
Proof.
  intros Ho Hk. unfold zget. destruct (Z.leb_spec 0 k); [|lia]. destruct (Z.leb_spec 0 (o + k)); [|lia].
  rewrite lookup_take_lt by lia. rewrite lookup_drop. f_equal. lia.
Qed.

(** What is loaded depends on the bytes of the field only. *)
Lemma load_stored mem o f v : 0 <= o -> o + tsize f <= len mem -> 0 < tsize f -> 0 <= v < 256 ^ tsize f ->
  (forall k, 0 <= k < tsize f -> zget mem (o + k) = zget (bytes_of (Z.to_nat (tsize f)) v) k) -> load_field mem o f = Ok v.
Proof.
  intros Ho Hl Hs Hv H. unfold load_field. rewrite copy_from_Ok, bind_ret_l by lia. f_equal.
  replace (take (Z.to_nat (tsize f)) (drop (Z.to_nat o) mem)) with (bytes_of (Z.to_nat (tsize f)) v).
  - apply number_of_bytes. by rewrite Z2Nat.id by lia.
  - symmetry. apply list_eq_zget; [rewrite length_take, length_drop, length_bytes_of; lia|]. rewrite length_take, length_drop. intros k Hk.
    rewrite zget_window by lia. apply H. lia.
Qed.

Lemma store_fields_ok pack fs : Forall sound fs -> forall o os e mem vs, laid_out pack o fs os e -> 0 <= o -> e <= len mem -> length vs = length fs ->
  (forall i f v, zget fs i = Some f -> zget vs i = Some v -> 0 <= v < 256 ^ tsize f) ->
  exists mem', store_fields mem os fs vs = Ok mem' /\ length mem' = length mem /\ (forall k, k < o -> zget mem' k = zget mem k) /\
    forall i x f v, zget os i = Some x -> zget fs i = Some f -> zget vs i = Some v -> load_field mem' x f = Ok v.
Proof.
  induction 1 as [|f fs [Hs Ha] Hfs IH]; intros o [|x os] e mem vs H Ho He Hlen Hv; try done.
  { exists mem. split; [done|]. split; [done|]. split; [done|]. intros i x f v Hx. by rewrite zget_nil in Hx. }
  destruct vs as [|v vs]; [done|]. destruct H as (_ & Hx & H). pose proof (laid_out_le _ _ _ _ _ Hfs H) as Hle.
  pose proof (length_bytes_of (Z.to_nat (tsize f)) v) as Hb. cbn [store_fields]. rewrite copy_to_Ok, bind_ret_l by lia.
  set (m1 := take _ mem ++ _). assert (forall k, zget m1 k = if (x <=? k) && (k <? x + tsize f) then zget (bytes_of (Z.to_nat (tsize f)) v) (k - x) else zget mem k) as Hm1.
  { intros k. unfold m1. rewrite zget_copy by lia. rewrite Hb, Z2Nat.id by lia. done. }
  assert (length m1 = length mem) as Hl1. { unfold m1. rewrite !length_app, length_take, length_drop. lia. }
  destruct (IH _ os e m1 vs H) as (m2 & -> & Hl2 & Hbelow & Hload); [lia|lia|by injection Hlen| |].
  { intros i g w Hg Hw. apply (Hv (i + 1)); rewrite zget_cons; pose proof (zget_Some_range _ _ _ Hg); destruct (Z.eqb_spec (i + 1) 0); try lia; by replace (i + 1 - 1) with i by lia. }
  exists m2. split; [done|]. split; [lia|]. split.
  - intros k Hk. rewrite Hbelow, Hm1 by lia. destruct (Z.leb_spec x k); [lia|done].
  - intros i y g w. rewrite !zget_cons. destruct (Z.eqb_spec i 0) as [->|Hi]; [|apply Hload]. intros [= <-] [= <-] [= <-].
    apply load_stored; [lia|lia|lia|apply (Hv 0); done|]. intros k Hk. rewrite Hbelow, Hm1 by lia. destruct (Z.leb_spec x (x + k)); [|lia]. destruct (Z.ltb_spec (x + k) (x + tsize f)); [|lia].
    simpl. f_equal. lia.
Qed.

(** For every structure of scalar fields and every packing, the computed layout is right:
    each field is at a multiple of its alignment, fields do not overlap, they lie inside
    [sizeof], which is a multiple of the alignment of the structure; and values stored
    into the fields are read back unchanged. *)
Theorem layout_sound pack fs mem vs : 0 < pack -> Forall sound fs -> len mem = sizeof pack fs -> length vs = length fs ->
  (forall i f v, zget fs i = Some f -> zget vs i = Some v -> 0 <= v < 256 ^ tsize f) ->
  sizeof pack fs mod struct_align pack fs = 0 /\
  (forall i j x y f, i < j -> zget (offsets pack fs) i = Some x -> zget (offsets pack fs) j = Some y -> zget fs i = Some f -> x + tsize f <= y) /\
  exists mem', store_fields mem (offsets pack fs) fs vs = Ok mem' /\
    forall i x f v, zget (offsets pack fs) i = Some x -> zget fs i = Some f -> zget vs i = Some v ->
      x mod field_align pack f = 0 /\ 0 <= x /\ x + tsize f <= sizeof pack fs /\ load_field mem' x f = Ok v.
Proof.
  intros Hp Hfs Hmem Hlen Hv. pose proof (place_laid_out pack fs Hp Hfs 0) as H. fold (offsets pack fs) in H. set (e := (place pack 0 fs).2) in *.
  assert (0 < struct_align pack fs) as Ha by (unfold struct_align; clear; induction fs as [|f fs IH]; simpl; lia).
  destruct (align_up_spec e _ Ha) as [He Hmod]. change (align_up e (struct_align pack fs)) with (sizeof pack fs) in He, Hmod.
  destruct (store_fields_ok pack fs Hfs 0 (offsets pack fs) e mem vs H) as (m' & Em & _ & _ & Hload); [lia|rewrite Hmem; apply He|done|done|].
  split; [exact Hmod|]. split.
  - intros i j x y f Hij Hx Hy Hf. destruct (laid_out_get pack fs Hfs _ _ _ _ _ _ H Hx Hf) as (_ & _ & _ & Hd). by apply (Hd j).
  - exists m'. split; [done|]. intros i x f v Hx Hf Hw. destruct (laid_out_get pack fs Hfs _ _ _ _ _ _ H Hx Hf) as (H1 & H2 & H3 & _).
    split; [done|]. split; [done|]. split; [lia|]. by apply (Hload i).
Qed.

Lemma layout_sound_witness : exists mem', store_fields (replicate 12 0) (offsets natural Person) Person [25; 12345678; 2024] = Ok mem'.
Proof.
  destruct (layout_sound natural Person (replicate 12 0) [25; 12345678; 2024]) as (_ & _ & m & H & _); [by vm_compute|repeat constructor; done|reflexivity|reflexivity| |by exists m].
  intros i f v Hf Hw. pose proof (zget_Some_range _ _ _ Hf) as Hi. simpl in Hi.
  assert (i = 0 \/ i = 1 \/ i = 2) as [-> | [-> | ->]] by lia; vm_compute in Hf, Hw; injection Hf as <-; injection Hw as <-; vm_compute; split; congruence.
Defined.

(** The sizes the comments of the programs give, and what the program of [typeAware.c]
    prints for any padding. *)
Theorem printed_layouts a pad : length pad = 12%nat ->
  mem_alignment_main = (12, 8) /\
  packet_main natural a = ([a + 0; a + 4; a + 8; a + 12; a + 16; a + 18], 20) /\
  packet_main 1 a = ([a + 0; a + 1; a + 5; a + 9; a + 13; a + 14], 16) /\
  exists p1 p2 p3 p4 p5, type_aware_main pad = Ok (12, [0; 4; 8], [25; p1; p2; p3; 78; 97; 188; 0; 232; 7; p4; p5]).
Proof.
  intros Hp. do 12 (destruct pad as [|? pad]; [done|]). destruct pad; [|done]. split; [reflexivity|]. split; [reflexivity|]. split; [reflexivity|].
  eexists _, _, _, _, _. reflexivity.
Qed.
