(* ===== verification/AlignBench.v ===== *)
(** * The alignment benchmark ([playingAround/fixedTypes/alignment_benchmark.c])

    Two loops that count in a structure on the heap, and the statistics of their times. *)
From Stdlib Require Import ZArith Lia.
From Corelib Require Import SpecFloat.
From stdpp Require Import base tactics list numbers option gmap.
From S2P Require Import Prelude Select Float FloatOrder CHeap Layout.

#[local] Open Scope Z_scope.
#[local] Open Scope c_scope.

Definition ITERATIONS : Z := 100000000.
Definition NUM_RUNS : Z := 10.
Definition CLOCKS_PER_SEC : Z := 1000000.

(** The fields of both structures; [BadStruct] and [GoodStruct] of [Layout] say in which
    order they lie. *)
Record fields : Type := mkFields { a : Z; b : Z; c : Z }.

(** One pass of the loop: the heap and [temp]. *)
Definition count (data : Z) (i : Z) (st : heap fields * Z) : res (heap fields * Z) :=
  let '(h, temp) := st in
  d ← load h data;
  n ← iadd (b d) 1;
  h ← store h data (mkFields (a d) n (c d));
  d ← load h data;
  temp ← iadd temp (b d);
  Ok (h, temp).

Section benchmark.
Context (alloc : allocator fields).

(** [clock]: the values before and after the loop.  The heap and the time. *)
Definition benchmark_aligned_access (h : heap fields) (clock : Z * Z) : res (heap fields * cfloat) :=
  match alloc h with
  | None => Ok (h, f64_of_int 0)
  | Some data =>
      let h := <[data := mkFields 1 0 2]> h in
      '(h, _) ← for_range (Z.to_nat ITERATIONS) 0 (count data) (h, 0);
      h ← free h data;
      Ok (h, f64_div (f64_of_int (clock.2 - clock.1)) (f64_of_int CLOCKS_PER_SEC))
  end.

(** The code is the same for the other structure. *)
Definition benchmark_unaligned_access (h : heap fields) (clock : Z * Z) : res (heap fields * cfloat) :=
  match alloc h with
  | None => Ok (h, f64_of_int 0)
  | Some data =>
      let h := <[data := mkFields 1 0 2]> h in
      '(h, _) ← for_range (Z.to_nat ITERATIONS) 0 (count data) (h, 0);
      h ← free h data;
      Ok (h, f64_div (f64_of_int (clock.2 - clock.1)) (f64_of_int CLOCKS_PER_SEC))
  end.

(** Average, least and greatest time, and standard deviation. *)
Definition stat_step (times : list cfloat) (i : Z) (st : cfloat * cfloat * cfloat) : res (cfloat * cfloat * cfloat) :=
  let '(sum, min, max) := st in
  t ← times.[i];
  Ok (f64_add sum t, if flt t min then t else min, if fgt t max then t else max).

Definition print_statistics (times : list cfloat) (count : Z) : res (cfloat * cfloat * cfloat * cfloat) :=
  t0 ← times.[0];
  '(sum, min, max) ← for_range (Z.to_nat count) 0 (stat_step times) (f64_of_int 0, t0, t0);
  let avg := f64_div sum (f64_of_int count) in
  variance ← for_range (Z.to_nat count) 0 (fun i v => t ← times.[i]; Ok (f64_add v (f64_mul (f64_sub t avg) (f64_sub t avg)))) (f64_of_int 0);
  Ok (avg, min, max, SFsqrt 53 1024 (f64_div variance (f64_of_int count))).

(** [clocks i]: the four readings of the clock in run [i]. *)
Definition alignment_main (clocks : Z -> (Z * Z) * (Z * Z)) (u1 u2 : list cfloat) (h : heap fields)
    : res (Z * Z * (cfloat * cfloat * cfloat * cfloat) * (cfloat * cfloat * cfloat * cfloat) * heap fields) :=
  '(h, aligned_times, unaligned_times) ← for_range (Z.to_nat NUM_RUNS) 0 (fun i '(h, at_, ut) =>
      '(h, t) ← benchmark_aligned_access h (clocks i).1;
      at_ ← at_.[i <- t];
      '(h, t) ← benchmark_unaligned_access h (clocks i).2;
      ut ← ut.[i <- t];
      Ok (h, at_, ut)) (h, u1, u2);
  s1 ← print_statistics aligned_times NUM_RUNS;
  s2 ← print_statistics unaligned_times NUM_RUNS;
  Ok (sizeof natural BadStruct, sizeof natural GoodStruct, s1, s2, h).
End benchmark.

(** ** The loops overflow *)

Lemma for_range_add {T} (n m : nat) (body : Z -> T -> res T) : forall i s,
  for_range (n + m) i body s = (s ← for_range n i body s; for_range m (i + Z.of_nat n) body s).
Proof.
  induction n as [|n IH]; intros i s; [simpl; by rewrite Z.add_0_r|]. cbn [Nat.add]. rewrite !for_range_S.
  destruct (body i s) as [s'|]; [|done]. rewrite !bind_ret_l, IH. by replace (i + 1 + Z.of_nat n) with (i + Z.of_nat (S n)) by lia.
Qed.

(** The sum of the first numbers. *)
Definition triangle (n : Z) : Z := n * (n + 1) / 2.

Lemma triangle_S n : triangle (n + 1) = triangle n + (n + 1).
Proof. unfold triangle. replace ((n + 1) * (n + 1 + 1)) with (n * (n + 1) + (n + 1) * 2) by ring. by rewrite Z.div_add by lia. Qed.

Lemma count_pass data h i : data <> 0 -> 0 <= i < 100000 -> 0 <= triangle i ->
  count data i (<[data := mkFields 1 i 2]> h, triangle i) =
    (t ← int_of (triangle (i + 1)); Ok (<[data := mkFields 1 (i + 1) 2]> h, t)).
Proof.
  intros Hd Hi Ht. unfold count. rewrite load_insert, bind_ret_l by done. cbn [a b c]. rewrite iadd_Ok, bind_ret_l by (unfold INT_MIN, INT_MAX; lia).
  erewrite store_Ok, bind_ret_l by (done || apply lookup_insert_eq). rewrite insert_insert_eq, load_insert, bind_ret_l by done. cbn [b]. unfold iadd. by rewrite <- triangle_S.
Qed.

Lemma counting data h (n : nat) : data <> 0 -> Z.of_nat n <= 65535 ->
  for_range n 0 (count data) (<[data := mkFields 1 0 2]> h, 0) = Ok (<[data := mkFields 1 (Z.of_nat n) 2]> h, triangle (Z.of_nat n)).
Proof.
  intros Hd Hn. destruct (for_range_inv (fun i st => st = (<[data := mkFields 1 i 2]> h, triangle i)) n 0 (count data) (<[data := mkFields 1 0 2]> h, 0))
    as (s & -> & ->); [done| |done].
  intros i s Hi ->. assert (0 <= triangle i) by (unfold triangle; apply Z.div_pos; nia). rewrite count_pass by (done || lia).
  assert (triangle (i + 1) <= 2147450880) by (unfold triangle; apply Z.div_le_upper_bound; nia).
  rewrite int_of_Ok, bind_ret_l by (rewrite triangle_S in *; unfold INT_MIN, INT_MAX; lia). eexists. by split.
Qed.

Lemma loop_overflows data h : data <> 0 -> for_range (Z.to_nat ITERATIONS) 0 (count data) (<[data := mkFields 1 0 2]> h, 0) = Fault IntOverflow.
Proof.
  intros Hd. assert (exists k, Z.to_nat ITERATIONS = Z.to_nat 65535 + S k)%nat as [k ->].
  { exists (Z.to_nat (ITERATIONS - 65536)). unfold ITERATIONS. lia. }
  rewrite for_range_add, counting, bind_ret_l, for_range_S by (done || lia). rewrite Z2Nat.id by lia. change (0 + 65535) with 65535.
  rewrite (count_pass data h 65535) by (done || lia). reflexivity.
Qed.

(** Whenever its structure can be allocated, each benchmark of [alignment_benchmark.c]
    adds up more than an [int] holds: the sum overflows in pass 65536 of the hundred
    million.  The program has a result only if [malloc] fails. *)
Theorem benchmark_overflows (alloc : allocator fields) `{!MallocLaws alloc} h clock clocks u1 u2 : is_Some (alloc h) ->
  benchmark_aligned_access alloc h clock = Fault IntOverflow /\ benchmark_unaligned_access alloc h clock = Fault IntOverflow /\
  alignment_main alloc clocks u1 u2 h = Fault IntOverflow.
Proof.
  intros [p Hp]. pose proof (malloc_range _ _ Hp).
  assert (forall clock, benchmark_aligned_access alloc h clock = Fault IntOverflow) as Ha.
  { intros k. unfold benchmark_aligned_access. rewrite Hp. by rewrite loop_overflows by lia. }
  split; [apply Ha|]. split; [unfold benchmark_unaligned_access; rewrite Hp; by rewrite loop_overflows by lia|].
  unfold alignment_main. change (Z.to_nat NUM_RUNS) with 10%nat. rewrite for_range_S. by rewrite Ha.
Qed.

Lemma benchmark_overflows_witness : benchmark_aligned_access (bump 10) ∅ (0, 5) = Fault IntOverflow.
Proof.
  pose proof (bump_laws (V := fields) 10 ltac:(lia)) as HL. apply (benchmark_overflows (bump 10) ∅ (0, 5) (fun _ => ((0, 5), (0, 5))) [] []). by eexists.
Defined.

(** ** The statistics *)

Section statistics.
Context (times : list cfloat).

(** The least and the greatest of the first [n] times. *)
Definition extremes (n : Z) (min max : cfloat) : Prop :=
  min ∈ times /\ max ∈ times /\ forall i t, 0 <= i < n -> zget times i = Some t -> flt t min = false /\ fgt t max = false.

Context (Hnum : Forall (fun t => is_nan t = false) times).

Lemma number t : t ∈ times -> is_nan t = false.
Proof. rewrite list.Forall_forall in Hnum. apply Hnum. Qed.

(** [flt] on the times is a strict order. *)
Lemma flt_trans_times x y z : x ∈ times -> y ∈ times -> z ∈ times -> flt x y = true -> flt y z = true -> flt x z = true.
Proof.
  intros Hx%number Hy%number Hz%number. rewrite !flt_key by done. intros H1 H2. by apply (better_trans (StrictWeak := key_lt_order float_key) z y x).
Qed.

Lemma flt_irrefl_times x : x ∈ times -> flt x x = false.
Proof. intros Hx%number. rewrite flt_key by done. by apply (better_irrefl (StrictWeak := key_lt_order float_key)). Qed.

Lemma stat_step_ok i sum min max : 0 <= i < len times -> extremes i min max ->
  exists sum' min' max', stat_step times i (sum, min, max) = Ok (sum', min', max') /\ extremes (i + 1) min' max'.
Proof.
  intros Hi (Hmin & Hmax & H). destruct (zget_range times i Hi) as [t Ht]. unfold stat_step. rewrite (arr_read_Ok _ _ _ Ht), bind_ret_l.
  assert (t ∈ times) as Hin by (apply elem_of_zget; by eexists). eexists _, _, _. split; [done|].
  split; [by destruct (flt t min)|]. split; [by destruct (fgt t max)|]. intros j u Hj Hu. assert (u ∈ times) as Huin by (apply elem_of_zget; by eexists). unfold fgt in *. split.
  - destruct (flt t min) eqn:E.
    + destruct (decide (j = i)) as [->|Hne]; [rewrite Ht in Hu; injection Hu as <-; by apply flt_irrefl_times|]. destruct (H j u ltac:(lia) Hu) as [H1 _].
      apply not_true_iff_false. intros Hc. apply not_true_iff_false in H1. apply H1. by apply (flt_trans_times u t min).
    + destruct (decide (j = i)) as [->|Hne]; [rewrite Ht in Hu; by injection Hu as <-|]. by apply (H j u ltac:(lia)).
  - destruct (SFltb max t) eqn:E.
    + destruct (decide (j = i)) as [->|Hne]; [rewrite Ht in Hu; injection Hu as <-; by apply flt_irrefl_times|]. destruct (H j u ltac:(lia) Hu) as [_ H1].
      apply not_true_iff_false. intros Hc. apply not_true_iff_false in H1. apply H1. by apply (flt_trans_times max t u).
    + destruct (decide (j = i)) as [->|Hne]; [rewrite Ht in Hu; by injection Hu as <-|]. by apply (H j u ltac:(lia)).
Qed.

(** The statistics of at least one number have a result, whose least and greatest value are
    elements with none below and none above. *)
Theorem statistics_extremes : times <> [] ->
  exists avg min max dev, print_statistics times (len times) = Ok (avg, min, max, dev) /\ extremes (len times) min max.
Proof.
  intros Hne. assert (0 < length times)%nat as Hpos by (destruct (length times) eqn:E; [by apply nil_length_inv in E|lia]).
  destruct (zget_range times 0 ltac:(lia)) as [t0 H0]. unfold print_statistics. rewrite (arr_read_Ok _ _ _ H0), bind_ret_l.
  assert (t0 ∈ times) as Hin by (apply elem_of_zget; by eexists). rewrite Nat2Z.id.
  destruct (for_range_inv (fun i st => extremes i st.1.2 st.2) (length times) 0 (stat_step times) (f64_of_int 0, t0, t0)) as ([[sum min] max] & -> & Hext).
  - split; [done|]. split; [done|]. lia.
  - intros i [[sum min] max] Hi Hext. destruct (stat_step_ok i sum min max ltac:(lia) Hext) as (s' & mn & mx & E & H). eexists. split; [exact E|exact H].
  - rewrite bind_ret_l. cbv zeta. set (avg := f64_div sum _).
    destruct (for_range_inv (fun _ _ => True) (length times) 0 (fun i v => t ← times.[i]; Ok (f64_add v (f64_mul (f64_sub t avg) (f64_sub t avg)))) (f64_of_int 0)) as (v & -> & _); [done| |].
    + intros i v Hi _. destruct (zget_range times i ltac:(lia)) as [t Ht]. rewrite (arr_read_Ok _ _ _ Ht), bind_ret_l. by eexists.
    + rewrite bind_ret_l. eexists _, _, _, _. split; [done|exact Hext].
Qed.
End statistics.
