(* ===== verification/HeapPrograms.v ===== *)
(** * Programs that exercise the heap ([memory/memory_management/heap_overhead.c],
    [stack_vs_heap.c], [sys_calls.c], [accessPatterns/addressCalculation.c],
    [security/exploits/heap/heap_safe.c], [heap_vuln.c])

    What a program has allocated and not yet freed is a set of addresses; a program
    that ends with the empty set leaves the heap as it found it. *)
From Stdlib Require Import ZArith Lia String.
From stdpp Require Import base tactics list numbers option gmap sets.
From S2P Require Import Prelude CHeap CString.

#[local] Open Scope Z_scope.
#[local] Open Scope c_scope.

(** ** Owned blocks *)

Section owned.
Context {V : Type}.
Implicit Types (h : heap V) (X : gset Z).

(** [h] is [h0] with the blocks of [X] added. *)
Record owned h0 h X : Prop := {
  owned_in a : a ∈ X -> a <> 0 /\ h0 !! a = None /\ is_Some (h !! a);
  owned_out a : a ∉ X -> h !! a = h0 !! a
}.

Lemma owned_start h : owned h h ∅.
Proof. split; [set_solver|done]. Qed.

Lemma owned_end h0 h : owned h0 h ∅ -> h = h0.
Proof. intros H. apply map_eq. intros a. apply H. set_solver. Qed.

(** The heap has at most the owned blocks more. *)
Lemma owned_size h0 h X : owned h0 h X -> (size h <= size h0 + size X)%nat.
Proof.
  intros H. rewrite <- !size_dom. assert (dom h ⊆ dom h0 ∪ X) as Hs.
  { intros a Ha. destruct (decide (a ∈ X)); [set_solver|]. apply elem_of_union_l. apply elem_of_dom. rewrite <- (owned_out _ _ _ H a) by done. by apply elem_of_dom. }
  apply subseteq_size in Hs. pose proof (size_union_alt (dom h0) X). pose proof (subseteq_size (X ∖ dom h0) X ltac:(set_solver)). lia.
Qed.

Lemma size_add (a : Z) X : (size ({[a]} ∪ X) <= S (size X))%nat.
Proof. rewrite size_union_alt, size_singleton. pose proof (subseteq_size (X ∖ {[a]}) X ltac:(set_solver)). lia. Qed.

Lemma owned_malloc (alloc : allocator V) `{!MallocLaws alloc} h0 h X a v : owned h0 h X -> alloc h = Some a ->
  (a ∉ X) /\ a <> 0 /\ owned h0 (<[a := v]> h) ({[a]} ∪ X).
Proof.
  intros H Ha. pose proof (malloc_fresh _ _ Ha) as Hf. pose proof (malloc_range _ _ Ha) as Hr.
  assert (a ∉ X) as Hx. { intros Hx. apply (owned_in _ _ _ H) in Hx as (_ & _ & Hs). rewrite Hf in Hs. by destruct Hs. }
  split; [done|]. split; [lia|]. split.
  - intros b [->%elem_of_singleton|Hb]%elem_of_union.
    + rewrite lookup_insert_eq, <- (owned_out _ _ _ H a Hx), Hf. split; [lia|]. split; [done|]. by eexists.
    + assert (a <> b) by (intros ->; done). rewrite lookup_insert_ne by done. by apply H.
  - intros b Hb. rewrite lookup_insert_ne by set_solver. apply H. set_solver.
Qed.

Lemma owned_load h0 h X a : owned h0 h X -> a ∈ X -> exists v, load h a = Ok v /\ h !! a = Some v.
Proof. intros H Ha. destruct (owned_in _ _ _ H a Ha) as (H0 & _ & [v Hv]). exists v. split; [by apply load_Ok|done]. Qed.

Lemma owned_store h0 h X a v : owned h0 h X -> a ∈ X -> store h a v = Ok (<[a := v]> h) /\ owned h0 (<[a := v]> h) X.
Proof.
  intros H Ha. destruct (owned_in _ _ _ H a Ha) as (H0 & Hn & [w Hw]). split; [by apply (store_Ok _ _ _ w)|]. split.
  - intros b Hb. destruct (decide (a = b)) as [<-|Hne]; [rewrite lookup_insert_eq; split; [done|]; split; [done|]; by eexists|].
    rewrite lookup_insert_ne by done. by apply H.
  - intros b Hb. rewrite lookup_insert_ne by (intros ->; done). by apply H.
Qed.

Lemma owned_free h0 h X a : owned h0 h X -> a ∈ X -> free h a = Ok (delete a h) /\ owned h0 (delete a h) (X ∖ {[a]}).
Proof.
  intros H Ha. destruct (owned_in _ _ _ H a Ha) as (H0 & Hn & [w Hw]). split; [by apply (free_Ok _ _ w)|]. split.
  - intros b [Hb Hne]%elem_of_difference. rewrite lookup_delete_ne by set_solver. by apply H.
  - intros b Hb. destruct (decide (a = b)) as [<-|Hne]; [by rewrite lookup_delete_eq|]. rewrite lookup_delete_ne by done. apply H. set_solver.
Qed.

Lemma owned_proper h0 h X Y : owned h0 h X -> X ≡ Y -> owned h0 h Y.
Proof. intros [H1 H2] E. split; intros a; rewrite <- E; auto. Qed.

(** *** Arrays of pointers *)

(** The blocks that the entries of [ps] at the indices in [P] point to; [NULL] owns
    nothing and no two entries are the same block. *)
Record holds (ps : list Z) (P : Z -> Prop) X : Prop := {
  holds_iff a : a ∈ X <-> a <> 0 /\ exists j, P j /\ zget ps j = Some a;
  holds_inj j k a : P j -> P k -> a <> 0 -> zget ps j = Some a -> zget ps k = Some a -> j = k
}.

Lemma holds_ext ps (P Q : Z -> Prop) X : holds ps P X -> (forall j, 0 <= j < len ps -> P j <-> Q j) -> holds ps Q X.
Proof.
  intros [H1 H2] E. assert (forall j a, zget ps j = Some a -> P j <-> Q j) as E' by (intros j a Ha%zget_Some_range; by apply E). split.
  - intros a. rewrite H1. split; intros (Ha & j & Hj & Hz); (split; [done|]); exists j; (split; [by apply (E' j a)|done]).
  - intros j k a Hj Hk Ha Hzj Hzk. apply (H2 j k a); [by apply (E' j a)|by apply (E' k a)|done..].
Qed.

Lemma holds_none ps (P : Z -> Prop) X : holds ps P X -> (forall j, 0 <= j < len ps -> ~ P j) -> X ≡ ∅.
Proof. intros [H1 _] HP a. split; [|set_solver]. intros (_ & j & Hj & Hz%zget_Some_range)%H1. by apply HP in Hz. Qed.

(** Freeing one entry. *)
Lemma free_entry h0 h X ps P j a : owned h0 h X -> holds ps P X -> P j -> zget ps j = Some a ->
  exists h' X', free h a = Ok h' /\ owned h0 h' X' /\ holds ps (fun k => P k /\ k <> j) X'.
Proof.
  intros Ho [H1 H2] Hj Hz. destruct (decide (a = 0)) as [->|Hne].
  - exists h, X. split; [done|]. split; [done|]. split; [|by intros k l b [Hk _] [Hl _]; apply H2].
    intros b. rewrite H1. split; intros (Hb & k & Hk & Hzk); (split; [done|]); exists k; [|by destruct Hk].
    split; [|done]. split; [done|]. intros ->. congruence.
  - assert (a ∈ X) as Ha by (apply H1; eauto). destruct (owned_free _ _ _ _ Ho Ha) as [E Ho']. eexists _, _. split; [exact E|]. split; [exact Ho'|].
    split; [|by intros k l b [Hk _] [Hl _]; apply H2]. intros b. rewrite elem_of_difference, elem_of_singleton, H1. split.
    + intros [(Hb & k & Hk & Hzk) Hba]. split; [done|]. exists k. split; [|done]. split; [done|]. intros ->. congruence.
    + intros (Hb & k & [Hk Hkj] & Hzk). split; [split; [done|by exists k]|]. intros ->. apply Hkj. by apply (H2 k j a).
Qed.

(** Filling in one entry, with a fresh block or with [NULL]. *)
Lemma holds_set ps (P : Z -> Prop) X j a : holds ps P X -> ~ P j -> 0 <= j < len ps -> (a <> 0 -> a ∉ X) ->
  holds (zset ps j a) (fun k => P k \/ k = j) (if decide (a = 0) then X else {[a]} ∪ X).
Proof.
  intros [H1 H2] HP Hj Ha. assert (forall k b, P k -> zget (zset ps j a) k = Some b <-> zget ps k = Some b) as Hk.
  { intros k b Hk. rewrite zget_zset_ne; [done|]. intros ->. done. }
  assert (forall k b, P k -> b <> 0 -> zget ps k = Some b -> b ∈ X) as HX by (intros k b Hk' Hb Hz; apply H1; eauto). split.
  - intros b. assert (b ∈ (if decide (a = 0) then X else {[a]} ∪ X) <-> b ∈ X \/ (b = a /\ a <> 0)) as -> by (case_decide; set_solver). rewrite H1. split.
    + intros [(Hb & k & Pk & Hz)|[-> Hb]]; (split; [done|]); [exists k; split; [by left|by apply Hk]|]. exists j. split; [by right|]. by apply zget_zset_eq.
    + intros (Hb & k & [Pk| ->] & Hz); [left; split; [done|]; exists k; split; [done|by apply Hk]|]. rewrite zget_zset_eq in Hz by done. injection Hz as <-. by right.
  - intros k l b [Pk| ->] [Pl| ->] Hb Hzk Hzl; [apply Hk in Hzk, Hzl; [|done..]; by apply (H2 k l b)| | |done].
    + apply Hk in Hzk; [|done]. rewrite zget_zset_eq in Hzl by done. injection Hzl as <-. exfalso. apply (Ha Hb). by apply (HX k).
    + apply Hk in Hzl; [|done]. rewrite zget_zset_eq in Hzk by done. injection Hzk as <-. exfalso. apply (Ha Hb). by apply (HX l).
Qed.

(** Freeing a range of entries, with a stride. *)
Lemma free_entries h0 ps i step (n : nat) (P : Z -> Prop) h X : owned h0 h X -> holds ps P X -> 0 < step ->
  (forall m, 0 <= m < Z.of_nat n -> P (i + m * step) /\ 0 <= i + m * step < len ps) ->
  exists h' X', for_step n i step (fun j h => p ← ps.[j]; free h p) h = Ok h' /\ owned h0 h' X' /\
    holds ps (fun k => P k /\ forall m, 0 <= m < Z.of_nat n -> k <> i + m * step) X'.
Proof.
  intros Ho Hh Hs Hp.
  destruct (for_step_inv (fun m h => exists X, owned h0 h X /\ holds ps (fun k => P k /\ forall q, 0 <= q < m -> k <> i + q * step) X) n i step
    (fun j h => p ← ps.[j]; free h p) h) as (h' & E & X' & Ho' & Hh').
  - exists X. split; [done|]. eapply holds_ext; [exact Hh|]. intros j _. split; [|by intros []]. intros Hj. split; [done|lia].
  - intros m t Hm (Y & Hoy & Hhy). destruct (Hp m Hm) as [Pm Hr]. destruct (zget_range ps _ Hr) as [a Ha]. rewrite (arr_read_Ok _ _ _ Ha), bind_ret_l.
    destruct (free_entry _ _ _ _ _ (i + m * step) a Hoy Hhy) as (t' & Y' & -> & Hoy' & Hhy'); [|done|].
    { split; [done|]. intros q Hq. nia. }
    exists t'. split; [done|]. exists Y'. split; [done|]. eapply holds_ext; [exact Hhy'|]. intros k _. split.
    + intros [[Pk Hk] Hne]. split; [done|]. intros q Hq. destruct (decide (q = m)) as [->|]; [done|]. apply Hk. lia.
    + intros [Pk Hk]. split; [split; [done|intros q Hq; apply Hk; lia]|]. apply Hk. lia.
  - exists h', X'. split; [done|]. split; [done|]. done.
Qed.
End owned.

Section malloc.
Context {V : Type} (alloc : Z -> allocator V).

(** [malloc(n)] of a block that then holds [v]. *)
Definition malloc_in (h : heap V) (n : Z) (v : V) : heap V * Z :=
  match alloc n h with Some a => (<[a := v]> h, a) | None => (h, 0) end.

(** The allocator fails on a heap with at most [k] blocks more than [h]. *)
Definition short_of_memory (h : heap V) (k : nat) : Prop := exists n g, alloc n g = None /\ (size g <= size h + k)%nat.

Context (HL : forall n, MallocLaws (alloc n)).
#[local] Existing Instance HL.

Lemma short_le h k k' : (k <= k')%nat -> short_of_memory h k -> short_of_memory h k'.
Proof. intros Hk (n & g & Hn & Hg). exists n, g. split; [done|lia]. Qed.

(** [malloc] gives a fresh block or [NULL]. *)
Lemma malloc_owned h0 h X n v : owned h0 h X ->
  exists h' p, malloc_in h n v = (h', p) /\ (p <> 0 -> (p ∉ X) /\ h' !! p = Some v) /\ owned h0 h' (if decide (p = 0) then X else {[p]} ∪ X) /\
    (p = 0 -> alloc n h = None /\ h' = h) /\ (forall q w, q <> 0 -> h !! q = Some w -> h' !! q = Some w /\ p <> q).
Proof.
  intros Ho. unfold malloc_in. destruct (alloc n h) as [a|] eqn:E.
  - destruct (owned_malloc (alloc n) h0 h X a v Ho E) as (Hx & H0 & Ho'). exists (<[a := v]> h), a. split; [done|].
    split; [intros _; split; [done|by rewrite lookup_insert_eq]|]. rewrite decide_False by done. split; [done|]. split; [done|].
    intros q w _ Hq. pose proof (malloc_fresh _ _ E) as Hf. assert (a <> q) by congruence. by rewrite lookup_insert_ne.
  - exists h, 0. split; [done|]. split; [done|]. split; [done|]. split; [done|]. intros q w Hq Hw. split; [done|congruence].
Qed.

(** An allocation that is freed at once. *)
Lemma malloc_free h n v : exists p h', malloc_in h n v = (h', p) /\ free h' p = Ok h.
Proof.
  unfold malloc_in. destruct (alloc n h) as [a|] eqn:E; eexists _, _; (split; [done|]); [|done].
  apply free_fresh; [pose proof (malloc_range _ _ E); lia|by eapply malloc_fresh].
Qed.

End malloc.

(** What the programs keep in blocks: bytes, an array of [DataBlock]s, a [LargeObject]. *)
Inductive block : Type :=
| Raw (bytes : list Z)
| Blocks (l : list (Z * Z))
| LargeObject (data : list Z) (size : Z).

Definition as_raw (v : block) : res (list Z) := match v with Raw l => Ok l | _ => Fault BadAddress end.
Definition as_blocks (v : block) : res (list (Z * Z)) := match v with Blocks l => Ok l | _ => Fault BadAddress end.

Section heap_programs.
(** [malloc] by the size asked for, and what fresh memory holds. *)
Context (alloc : Z -> allocator block) (garbage : Z -> list Z).

#[local] Abbreviation malloc := (malloc_in alloc).

(** *** [heap_overhead.c] *)

(** [blocks[i].f = ...] for an array of pairs of data and size. *)
Definition set_block (h : heap block) (blocks i : Z) (f : Z * Z -> Z * Z) : res (heap block) :=
  v ← load h blocks; l ← as_blocks v; e ← l.[i]; l ← l.[i <- f e]; store h blocks (Blocks l).

(** [memset(p, c, n)] on a block of characters. *)
Definition touch (h : heap block) (p c n : Z) : res (heap block) :=
  v ← load h p; b ← as_raw v; b ← memset b c n; store h p (Raw b).

Definition alloc_step (block_size blocks i : Z) (h : heap block) : res (heap block) :=
  h ← set_block h blocks i (fun e => (e.1, block_size));
  let '(h, p) := malloc h block_size (Raw (garbage block_size)) in
  h ← set_block h blocks i (fun e => (p, e.2));
  touch h p 65 block_size.

Definition free_step (blocks i : Z) (h : heap block) : res (heap block) :=
  v ← load h blocks; l ← as_blocks v; e ← l.[i]; free h e.1.

(** [uninit]: the array before it is filled. *)
Definition test_allocation_pattern (uninit : list (Z * Z)) (block_size num_allocations : Z) (h : heap block) : res (heap block) :=
  let '(h, blocks) := malloc h (16 * num_allocations) (Blocks uninit) in
  h ← for_range (Z.to_nat num_allocations) 0 (alloc_step block_size blocks) h;
  h ← for_range (Z.to_nat num_allocations) 0 (free_step blocks) h;
  free h blocks.

Definition NUM_BLOCKS : Z := 1000.

(** One cycle; [rand i] is the number drawn for block [i]. *)
Definition fragmentation_cycle (rand : Z -> Z) (st : heap block * list Z) : res (heap block * list Z) :=
  '(h, blocks) ← for_range (Z.to_nat NUM_BLOCKS) 0 (fun i '(h, blocks) =>
    r ← imod (rand i) 1000; size ← iadd r 1;
    let '(h, p) := malloc h size (Raw (garbage size)) in
    blocks ← blocks.[i <- p]; Ok (h, blocks)) st;
  h ← for_step (passes 0 NUM_BLOCKS 2) 0 2 (fun i h => p ← blocks.[i]; free h p) h;
  let '(h, large_block) := malloc h 10000 (Raw (garbage 10000)) in
  h ← free h large_block;
  h ← for_step (passes 1 NUM_BLOCKS 2) 1 2 (fun i h => p ← blocks.[i]; free h p) h;
  Ok (h, blocks).

Definition test_fragmentation_impact (rand : Z -> Z -> Z) (uninit : list Z) (num_iterations : Z) (h : heap block) : res (heap block) :=
  '(h, _) ← for_range (Z.to_nat num_iterations) 0 (fun iter st => fragmentation_cycle (rand iter) st) (h, uninit);
  Ok h.

(** [malloc] and [free] of one block. *)
Definition once (n i : Z) (h : heap block) : res (heap block) := let '(h, p) := malloc h n (Raw (garbage n)) in free h p.

Definition test_syscall_overhead (h : heap block) : res (heap block) :=
  h ← for_range 1000 0 (once 64) h;
  for_range 1000 0 (once (1024 * 1024)) h.

Definition heap_overhead_main (u1 u2 : list (Z * Z)) (u3 : list Z) (rand : Z -> Z -> Z) (h : heap block) : res (heap block) :=
  h ← test_allocation_pattern u1 64 10000 h;
  h ← test_allocation_pattern u2 (1024 * 1024) 100 h;
  h ← test_fragmentation_impact rand u3 100 h;
  test_syscall_overhead h.

(** *** [stack_vs_heap.c] *)

Definition process_on_stack (uninit : list Z) : res (list Z) := memset uninit 65 1024.

Definition process_on_heap (h : heap block) : res (heap block) :=
  let '(h, obj) := malloc h 1028 (LargeObject (garbage 1024) 0) in
  if obj =? 0 then Ok h else
  v ← load h obj;
  match v with
  | LargeObject data _ => d ← memset data 65 1024; h ← store h obj (LargeObject d 1024); free h obj
  | _ => Fault BadAddress
  end.

Definition NUM_ITERATIONS : Z := 100000.

Definition stack_vs_heap_main (h : heap block) : res (heap block) :=
  _ ← for_range (Z.to_nat NUM_ITERATIONS) 0 (fun _ _ => process_on_stack (garbage 1024)) [];
  for_range (Z.to_nat NUM_ITERATIONS) 0 (fun _ h => process_on_heap h) h.

(** *** [sys_calls.c] *)

Definition NUM_ALLOCATIONS : Z := 10000.

Definition sys_calls_main (uninit : list Z) (h : heap block) : res (heap block) :=
  '(h, allocations) ← for_range (Z.to_nat NUM_ALLOCATIONS) 0 (fun i '(h, allocations) =>
    let '(h, p) := malloc h 1024 (Raw (garbage 1024)) in
    allocations ← allocations.[i <- p];
    if p =? 0 then Fault (Exit 1) else Ok (h, allocations)) (h, uninit);
  h ← for_step (passes 0 NUM_ALLOCATIONS 1) 0 1 (fun i h => p ← allocations.[i]; free h p) h;
  Ok h.

(** ** Nothing leaks *)

Context (HL : forall n, MallocLaws (alloc n)) (Hgarbage : forall n, 0 <= n -> len (garbage n) = n).
#[local] Existing Instance HL.

Lemma once_ok n i h : once n i h = Ok h.
Proof. unfold once. destruct (malloc_free alloc HL h n (Raw (garbage n))) as (p & h' & -> & E). exact E. Qed.

(** A loop that changes nothing. *)
Lemma for_range_same {T} (body : Z -> T -> res T) (n : nat) (s : T) : (forall i, body i s = Ok s) -> for_range n 0 body s = Ok s.
Proof. intros H. destruct (for_range_inv (fun _ t => t = s) n 0 body s) as (t & -> & ->); [done| |done]. intros i t _ ->. exists s. by rewrite H. Qed.

Lemma test_syscall_ok h : test_syscall_overhead h = Ok h.
Proof. unfold test_syscall_overhead. do 2 (rewrite for_range_same by (intros; apply once_ok); try rewrite bind_ret_l). done. Qed.

Lemma process_on_heap_ok h : process_on_heap h = Ok h.
Proof.
  unfold process_on_heap, malloc_in. destruct (alloc 1028 h) as [a|] eqn:E; [|done]. pose proof (malloc_range _ _ E). pose proof (malloc_fresh _ _ E).
  destruct (Z.eqb_spec a 0); [lia|]. rewrite load_insert, bind_ret_l by done. rewrite memset_Ok, bind_ret_l by (rewrite Hgarbage; lia).
  erewrite store_Ok, bind_ret_l by (done || apply lookup_insert_eq). rewrite insert_insert_eq. by apply free_fresh.
Qed.

Lemma stack_vs_heap_ok h : stack_vs_heap_main h = Ok h.
Proof.
  unfold stack_vs_heap_main. destruct (for_range_inv (fun _ _ => True) (Z.to_nat NUM_ITERATIONS) 0 (fun _ _ => process_on_stack (garbage 1024)) []) as (u & -> & _); [done| |].
  - intros i t _ _. unfold process_on_stack. rewrite memset_Ok by (rewrite Hgarbage; lia). by eexists.
  - rewrite bind_ret_l. apply for_range_same. intros _. apply process_on_heap_ok.
Qed.

(** One allocation into an array of pointers. *)
Lemma malloc_entry h0 h X ps (i : Z) n v : owned h0 h X -> holds ps (fun j => 0 <= j < i) X -> 0 <= i < len ps ->
  exists h' p X', malloc h n v = (h', p) /\ owned h0 h' X' /\ holds (zset ps i p) (fun j => 0 <= j < i + 1) X' /\ (size X' <= S (size X))%nat /\ (p = 0 -> alloc n h = None).
Proof.
  intros Ho Hh Hi. destruct (malloc_owned alloc HL h0 h X n v Ho) as (h' & p & E & Hp & Ho' & H0 & _).
  eexists h', p, _. split; [exact E|]. split; [exact Ho'|].
  split; [|split; [case_decide; [lia|apply size_add]|by intros Hz; apply H0]]. eapply holds_ext; [apply holds_set; [exact Hh|cbv beta; lia|lia|by apply Hp]|]. intros j Hj. simpl. lia.
Qed.

Lemma holds_empty ps : holds ps (fun j => 0 <= j < 0) ∅.
Proof. split; [|lia]. intros a. split; [set_solver|]. intros (_ & j & Hj & _). lia. Qed.

Lemma fragmentation_ok rand h blocks : (forall i, 0 <= rand i <= INT_MAX) -> len blocks = NUM_BLOCKS ->
  exists blocks', fragmentation_cycle rand (h, blocks) = Ok (h, blocks') /\ len blocks' = NUM_BLOCKS.
Proof.
  intros Hr Hl. unfold fragmentation_cycle.
  destruct (for_range_inv (fun i st => len st.2 = NUM_BLOCKS /\ exists X, owned h st.1 X /\ holds st.2 (fun j => 0 <= j < i) X) (Z.to_nat NUM_BLOCKS) 0
    (fun i '(h, blocks) => r ← imod (rand i) 1000; size ← iadd r 1; let '(h, p) := malloc h size (Raw (garbage size)) in blocks ← blocks.[i <- p]; Ok (h, blocks)) (h, blocks))
    as ([h1 ps] & -> & Hps & X & Ho & Hh).
  - split; [done|]. exists ∅. split; [apply owned_start|apply holds_empty].
  - intros i [g ps] Hi (Hps & X & Ho & Hh). cbn [fst snd] in *. unfold NUM_BLOCKS in *. rewrite imod_Ok, bind_ret_l by (try apply Hr; lia).
    assert (0 <= rand i mod 1000 < 1000) by (apply Z.mod_pos_bound; lia). rewrite iadd_Ok, bind_ret_l by (unfold INT_MIN, INT_MAX; lia).
    destruct (malloc_entry h g X ps i (rand i mod 1000 + 1) (Raw (garbage (rand i mod 1000 + 1))) Ho Hh ltac:(lia)) as (g' & p & X' & -> & Ho' & Hh' & _ & _).
    rewrite arr_write_Ok, bind_ret_l by lia. eexists. split; [done|]. simpl. rewrite length_zset. split; [done|]. by exists X'.
  - cbn [fst snd] in *. unfold NUM_BLOCKS in *. rewrite bind_ret_l. cbv beta iota. change (passes 0 1000 2) with 500%nat. change (passes 1 1000 2) with 500%nat.
    destruct (free_entries h ps 0 2 500 _ h1 X Ho Hh) as (h2 & X2 & -> & Ho2 & Hh2); [lia|intros m Hm; lia|]. rewrite bind_ret_l.
    destruct (malloc_free alloc HL h2 10000 (Raw (garbage 10000))) as (p & h3 & -> & ->). rewrite bind_ret_l.
    destruct (free_entries h ps 1 2 500 _ h2 X2 Ho2 Hh2) as (h4 & X4 & -> & Ho4 & Hh4); [lia|intros m Hm; simpl; split; [split; [lia|intros; lia]|lia]|]. rewrite bind_ret_l.
    exists ps. split; [|done]. do 2 f_equal. apply owned_end. eapply owned_proper; [exact Ho4|]. eapply holds_none; [exact Hh4|].
    intros j Hj [[_ He] Hodd]. destruct (decide (j mod 2 = 0)) as [H2|H2]; [apply (He (j / 2)); dlia|apply (Hodd (j / 2)); dlia].
Qed.

(** Filling and freeing the table of [test_allocation_pattern]. *)
Lemma set_block_ok h blocks l i e f : blocks <> 0 -> h !! blocks = Some (Blocks l) -> zget l i = Some e ->
  set_block h blocks i f = Ok (<[blocks := Blocks (zset l i (f e))]> h).
Proof.
  intros H0 Hb He. unfold set_block. rewrite (load_Ok _ _ _ H0 Hb), bind_ret_l. cbn [as_blocks]. rewrite bind_ret_l, (arr_read_Ok _ _ _ He), bind_ret_l.
  rewrite arr_write_Ok, bind_ret_l by (by eapply zget_Some_range). by apply (store_Ok _ _ _ (Blocks l)).
Qed.

Lemma fmap_zset (l : list (Z * Z)) i e : (zset l i e).*1 = zset (l.*1) i e.1.
Proof. unfold zset. case_cond; [by rewrite list_fmap_insert|done]. Qed.

(** The table in the heap, with the blocks its first [i] entries point to. *)
Definition filled h0 blocks (num : nat) (i : Z) (h : heap block) : Prop :=
  exists l X, h !! blocks = Some (Blocks l) /\ length l = num /\ owned h0 h ({[blocks]} ∪ X) /\ (blocks ∉ X) /\ holds (l.*1) (fun j => 0 <= j < i) X /\ (size X <= Z.to_nat i)%nat.

Lemma alloc_step_ok h0 blocks num block_size i h : blocks <> 0 -> 0 < block_size -> 0 <= i < Z.of_nat num -> filled h0 blocks num i h ->
  (exists h', alloc_step block_size blocks i h = Ok h' /\ filled h0 blocks num (i + 1) h') \/
  (alloc_step block_size blocks i h = Fault NullDeref /\ short_of_memory alloc h0 num).
Proof.
  intros H0 Hbs Hi (l & X & Hb & Hl & Ho & Hx & Hh & HsX). unfold alloc_step. destruct (zget_range l i ltac:(lia)) as [e He].
  rewrite (set_block_ok h blocks l i e) by done. rewrite bind_ret_l. set (l1 := zset l i (e.1, block_size)).
  destruct (owned_store h0 h _ blocks (Blocks l1) Ho ltac:(set_solver)) as [_ Ho1]. set (h1 := <[blocks := Blocks l1]> h) in *.
  destruct (malloc_owned alloc HL h0 h1 _ block_size (Raw (garbage block_size)) Ho1) as (h2 & p & -> & Hp & Ho2 & Hnull & Hkeep).
  destruct (Hkeep blocks (Blocks l1) H0) as [Hb2 Hne]; [apply lookup_insert_eq|].
  assert (zget l1 i = Some (e.1, block_size)) as He1 by (apply zget_zset_eq; lia).
  rewrite (set_block_ok h2 blocks l1 i (e.1, block_size)) by done. rewrite bind_ret_l. cbn [fst snd]. unfold l1. rewrite zset_zset_eq. unfold touch.
  destruct (decide (p = 0)) as [->|Hp0].
  { right. split; [done|]. exists block_size, h1. split; [by apply Hnull|]. pose proof (owned_size _ _ _ Ho1). pose proof (size_add blocks X). lia. }
  left. destruct (Hp Hp0) as [Hpx Hpv]. rewrite (load_Ok _ p (Raw (garbage block_size))), bind_ret_l by (done || by rewrite lookup_insert_ne). cbn [as_raw].
  rewrite bind_ret_l, memset_Ok, bind_ret_l by (rewrite Hgarbage; lia).
  destruct (owned_store h0 h2 _ blocks (Blocks (zset l i (p, block_size))) Ho2 ltac:(set_solver)) as [_ Ho3].
  destruct (owned_store h0 _ _ p (Raw (replicate (Z.to_nat block_size) 65 ++ drop (Z.to_nat block_size) (garbage block_size))) Ho3 ltac:(set_solver)) as [-> Ho4].
  eexists. split; [done|]. exists (zset l i (p, block_size)), ({[p]} ∪ X). split; [by rewrite lookup_insert_ne, lookup_insert_eq|].
  split; [by rewrite length_zset|]. split; [eapply owned_proper; [exact Ho4|]; set_solver|]. split; [set_solver|]. rewrite fmap_zset. cbn [fst].
  pose proof (holds_set (l.*1) _ X i p Hh) as Hs. rewrite decide_False in Hs by done.
  split; [|pose proof (size_add p X); lia]. eapply holds_ext; [apply Hs; [cbv beta; lia|rewrite length_fmap; lia|set_solver]|]. intros j Hj. simpl. lia.
Qed.

Lemma free_table_ok h0 blocks (num : nat) h : blocks <> 0 -> filled h0 blocks num (Z.of_nat num) h ->
  exists h' X, for_range num 0 (free_step blocks) h = Ok h' /\ owned h0 h' ({[blocks]} ∪ X) /\ X ≡ ∅.
Proof.
  intros H0 (l & X0 & Hb0 & Hl & Ho0 & Hx0 & Hh0 & _).
  destruct (for_range_inv (fun i h => exists X, h !! blocks = Some (Blocks l) /\ owned h0 h ({[blocks]} ∪ X) /\ (blocks ∉ X) /\ holds (l.*1) (fun j => 0 <= j < Z.of_nat num /\ i <= j) X)
    num 0 (free_step blocks) h) as (h' & -> & X & Hb & Ho & Hx & Hh).
  - exists X0. split; [done|]. split; [done|]. split; [done|]. eapply holds_ext; [exact Hh0|]. intros j _. simpl. lia.
  - intros i g Hi (X & Hb & Ho & Hx & Hh). unfold free_step. rewrite (load_Ok _ _ _ H0 Hb), bind_ret_l. cbn [as_blocks]. rewrite bind_ret_l.
    destruct (zget_range l i ltac:(lia)) as [e He]. rewrite (arr_read_Ok _ _ _ He), bind_ret_l.
    assert (zget (l.*1) i = Some e.1) as He1 by (by rewrite zget_fmap, He). destruct (decide (e.1 = 0)) as [Hz|Hz].
    + exists g. rewrite Hz. split; [done|]. exists X. split; [done|]. split; [done|]. split; [done|]. destruct Hh as [Hi1 Hi2]. split.
      * intros a. rewrite Hi1. split; intros (Ha & j & Hj & Hzj); (split; [done|]); exists j; (split; [|done]); [|lia].
        split; [lia|]. enough (j <> i) by lia. intros ->. congruence.
      * intros j k a Hj Hk. apply Hi2; lia.
    + assert (e.1 ∈ X) as Hin by (apply (holds_iff _ _ _ Hh); split; [done|]; exists i; split; [lia|done]).
      assert (e.1 <> blocks) as Hne by (intros E; rewrite E in Hin; done). destruct (owned_free _ _ _ _ Ho (elem_of_union_r _ _ _ Hin)) as [E Ho'].
      eexists. split; [exact E|]. exists (X ∖ {[e.1]}). split; [by rewrite lookup_delete_ne|]. split; [eapply owned_proper; [exact Ho'|]; set_solver|]. split; [set_solver|].
      destruct Hh as [Hi1 Hi2]. split.
      * intros a. rewrite elem_of_difference, elem_of_singleton, Hi1. split.
        -- intros [(Ha & j & Hj & Hzj) Hae]. split; [done|]. exists j. split; [|done]. split; [lia|]. enough (j <> i) by lia. intros ->. congruence.
        -- intros (Ha & j & Hj & Hzj). split; [split; [done|]; exists j; split; [lia|done]|]. intros ->. enough (j = i) by lia. apply (Hi2 j i (e.1)); (done || lia).
      * intros j k a Hj Hk. apply Hi2; lia.
  - exists h', X. split; [done|]. split; [done|]. eapply holds_none; [exact Hh|]. intros j Hj. rewrite length_fmap in Hj. cbv beta. lia.
Qed.

Lemma pattern_ok uninit block_size num h : 0 < block_size -> 0 < num -> len uninit = num ->
  test_allocation_pattern uninit block_size num h = Ok h \/
  (test_allocation_pattern uninit block_size num h = Fault NullDeref /\ short_of_memory alloc h (Z.to_nat num)).
Proof.
  intros Hbs Hn Hu. unfold test_allocation_pattern. destruct (malloc_owned alloc HL h h ∅ (16 * num) (Blocks uninit) (owned_start h)) as (h1 & blocks & -> & Hp & Ho & Hnull & _).
  destruct (decide (blocks = 0)) as [->|H0].
  { right. destruct (Hnull eq_refl) as [Ha _]. split; [|eexists _, h; split; [exact Ha|lia]]. replace (Z.to_nat num) with (S (Z.to_nat (num - 1))) by lia. by rewrite for_range_S. }
  destruct (Hp H0) as [_ Hv]. destruct (for_range_either (filled h blocks (Z.to_nat num)) NullDeref (short_of_memory alloc h (Z.to_nat num)) (alloc_step block_size blocks) (Z.to_nat num) 0 h1)
    as [(h2 & -> & Hf)|[-> HQ]]; [| |rewrite bind_ret_l|by right].
  - exists uninit, ∅. split; [done|]. split; [lia|]. split; [eapply owned_proper; [exact Ho|]; set_solver|]. split; [set_solver|]. split; [apply holds_empty|]. by rewrite size_empty.
  - intros j t Hj Hf. apply alloc_step_ok; (done || lia).
  - left. destruct (free_table_ok h blocks (Z.to_nat num) h2 H0) as (h3 & X & -> & Ho3 & HX); [exact Hf|]. rewrite bind_ret_l.
    destruct (owned_free h h3 _ blocks Ho3 ltac:(set_solver)) as [-> Ho4]. f_equal. apply owned_end. eapply owned_proper; [exact Ho4|]. set_solver.
Qed.

Lemma sys_calls_ok uninit h : len uninit = NUM_ALLOCATIONS ->
  sys_calls_main uninit h = Ok h \/ (sys_calls_main uninit h = Fault (Exit 1) /\ short_of_memory alloc h (Z.to_nat NUM_ALLOCATIONS)).
Proof.
  intros Hu. unfold sys_calls_main.
  destruct (for_range_either (fun i st => len st.2 = NUM_ALLOCATIONS /\ exists X, owned h st.1 X /\ holds st.2 (fun j => 0 <= j < i) X /\ (size X <= Z.to_nat i)%nat) (Exit 1) (short_of_memory alloc h (Z.to_nat NUM_ALLOCATIONS))
    (fun i '(h, allocations) => let '(h, p) := malloc h 1024 (Raw (garbage 1024)) in allocations ← allocations.[i <- p]; if p =? 0 then Fault (Exit 1) else Ok (h, allocations))
    (Z.to_nat NUM_ALLOCATIONS) 0 (h, uninit)) as [([h1 ps] & -> & Hps & X & Ho & Hh & _)|[-> HQ]]; [| | |by right].
  - split; [done|]. exists ∅. split; [apply owned_start|]. split; [apply holds_empty|]. by rewrite size_empty.
  - intros i [g ps] Hi (Hps & X & Ho & Hh & HsX). cbn [fst snd] in *. unfold NUM_ALLOCATIONS in *.
    destruct (malloc_entry h g X ps i 1024 (Raw (garbage 1024)) Ho Hh ltac:(lia)) as (g' & p & X' & -> & Ho' & Hh' & HsX' & Hnull). rewrite arr_write_Ok, bind_ret_l by lia.
    destruct (Z.eqb_spec p 0) as [->|Hp]; [right; split; [done|]; exists 1024, g; split; [by apply Hnull|]; pose proof (owned_size _ _ _ Ho); lia|left].
    eexists. split; [done|]. cbn [fst snd]. rewrite length_zset. split; [done|]. exists X'. split; [done|]. split; [done|lia].
  - left. cbn [fst snd] in *. rewrite bind_ret_l. cbv beta iota. unfold NUM_ALLOCATIONS in *. replace (passes 0 10000 1) with (Z.to_nat 10000) by reflexivity.
    destruct (free_entries h ps 0 1 (Z.to_nat 10000) _ h1 X Ho Hh) as (h2 & X2 & -> & Ho2 & Hh2); [lia|intros m Hm; lia|]. rewrite bind_ret_l. f_equal.
    apply owned_end. eapply owned_proper; [exact Ho2|]. eapply holds_none; [exact Hh2|]. intros j Hj [_ He]. apply (He j); lia.
Qed.

(** With any allocator that keeps the promises of [malloc], the three programs that time
    the heap free every block they allocate, once: the heap ends as it began.  Only a
    [malloc] that fails with at most ten thousand more blocks in use stops them: [heap_overhead.c] then writes through a null pointer,
    [sys_calls.c] exits, and [stack_vs_heap.c] goes on. *)
Theorem heap_tests_balanced u1 u2 u3 u4 rand h :
  len u1 = 10000 -> len u2 = 100 -> len u3 = NUM_BLOCKS -> len u4 = NUM_ALLOCATIONS -> (forall i j, 0 <= rand i j <= INT_MAX) ->
  (heap_overhead_main u1 u2 u3 rand h = Ok h \/ (heap_overhead_main u1 u2 u3 rand h = Fault NullDeref /\ short_of_memory alloc h (Z.to_nat 10000))) /\
  stack_vs_heap_main h = Ok h /\
  (sys_calls_main u4 h = Ok h \/ (sys_calls_main u4 h = Fault (Exit 1) /\ short_of_memory alloc h (Z.to_nat NUM_ALLOCATIONS))).
Proof.
  intros H1 H2 H3 H4 Hr. split; [|split; [apply stack_vs_heap_ok|by apply sys_calls_ok]]. unfold heap_overhead_main.
  destruct (pattern_ok u1 64 10000 h) as [->|[-> HQ]]; [lia|lia|done| |by right]. rewrite bind_ret_l.
  destruct (pattern_ok u2 (1024 * 1024) 100 h) as [->|[-> HQ]]; [lia|lia|done| |right; split; [done|]; eapply short_le; [|exact HQ]; lia]. rewrite bind_ret_l. left.
  unfold test_fragmentation_impact.
  destruct (for_range_inv (fun _ st => st.1 = h /\ len st.2 = NUM_BLOCKS) (Z.to_nat 100) 0 (fun iter st => fragmentation_cycle (rand iter) st) (h, u3)) as ([h1 ps] & -> & Eh & _); [done| |].
  - intros i [g ps] _ [Hg Hps]. simpl in *. subst g. destruct (fragmentation_ok (rand i) h ps) as (ps' & E & Hl); [done|done|]. by exists (h, ps').
  - simpl in Eh. subst h1. rewrite !bind_ret_l. apply test_syscall_ok.
Qed.
End heap_programs.

(** Fresh memory that holds zeros. *)
Definition zeros (n : Z) : list Z := replicate (Z.to_nat n) 0.

Lemma heap_tests_balanced_witness :
  (heap_overhead_main (fun _ => bump 20) zeros (replicate (Z.to_nat 10000) (0, 0)) (replicate (Z.to_nat 100) (0, 0)) (zeros NUM_BLOCKS) (fun i j => 7) ∅ = Ok ∅ \/
   (heap_overhead_main (fun _ => bump 20) zeros (replicate (Z.to_nat 10000) (0, 0)) (replicate (Z.to_nat 100) (0, 0)) (zeros NUM_BLOCKS) (fun i j => 7) ∅ = Fault NullDeref /\
    short_of_memory (fun _ : Z => @bump block 20) ∅ (Z.to_nat 10000))) /\
  stack_vs_heap_main (fun _ => bump 20) zeros ∅ = Ok ∅.
Proof.
  assert (forall n : Z, MallocLaws ((fun _ : Z => @bump block 20) n)) as HL by (intros n; apply bump_laws; lia).
  destruct (heap_tests_balanced (fun _ => bump 20) zeros HL ltac:(intros n Hn; unfold zeros; rewrite length_replicate; lia)
    (replicate (Z.to_nat 10000) (0, 0)) (replicate (Z.to_nat 100) (0, 0)) (zeros NUM_BLOCKS) (zeros NUM_ALLOCATIONS) (fun i j => 7) ∅) as (H1 & H2 & _).
  - rewrite length_replicate. lia.
  - rewrite length_replicate. lia.
  - unfold zeros. rewrite length_replicate. unfold NUM_BLOCKS. lia.
  - unfold zeros. rewrite length_replicate. unfold NUM_ALLOCATIONS. lia.
  - intros i j. unfold INT_MAX. lia.
  - split; [exact H1|exact H2].
Defined.
