(* ===== verification/HeapUsers.v ===== *)
(** * Names on the heap ([security/exploits/heap/heap_safe.c], [heap_vuln.c]) and arrays on
    the heap ([accessPatterns/addressCalculation.c]) *)
From Stdlib Require Import ZArith Lia String.
From stdpp Require Import base tactics list numbers option gmap sets.
From S2P Require Import Prelude CHeap CString HeapPrograms.

#[local] Open Scope Z_scope.
#[local] Open Scope c_scope.

(** A structure with fields that may not be set yet, or characters. *)
Inductive cell : Type :=
| User (priority name name_len : option Z)
| Text (b : list Z).

Definition as_text (v : cell) : res (list Z) := match v with Text b => Ok b | _ => Fault BadAddress end.

Section users.
Context (alloc : Z -> allocator cell) (garbage : Z -> list Z).

#[local] Abbreviation malloc := (malloc_in alloc).

(** The pointer [u->name]: using it before it is set is undefined. *)
Definition name_of (h : heap cell) (u : Z) : res Z :=
  v ← load h u; match v with User _ (Some p) _ => Ok p | _ => Fault BadAddress end.

(** [u->priority = pr; u->name = malloc(n);] with a length if the structure has one. *)
Definition give_name (h : heap cell) (u pr n : Z) (name_len : option Z) : res (heap cell * Z) :=
  let '(h, p) := malloc h n (Text (garbage n)) in
  h ← store h u (User (Some pr) (Some p) name_len);
  Ok (h, p).

(** Writing characters to [p]. *)
Definition with_text (h : heap cell) (p : Z) (f : list Z -> res (list Z)) : res (heap cell) :=
  v ← load h p; b ← as_text v; b ← f b; store h p (Text b).

Definition print_text (h : heap cell) (p : Z) : res (list Z) := v ← load h p; b ← as_text v; puts b.

(** *** [heap_safe.c] *)

Definition MAX_NAME_LEN : Z := 128.

Definition cleanup (h : heap cell) (user : Z) : res (heap cell) :=
  if user =? 0 then Ok h else n ← name_of h user; h ← free h n; free h user.

(** The heap, and the names printed, if it gets that far. *)
Definition process_user_safe (user_input1 user_input2 : list Z) (h : heap cell) : res (heap cell * option (list Z * list Z)) :=
  let '(h, user1) := malloc h 24 (User None None None) in
  let '(h, user2) := malloc h 24 (User None None None) in
  if (user1 =? 0) || (user2 =? 0) then h ← cleanup h user1; h ← cleanup h user2; Ok (h, None) else
  let len1 := strnlen user_input1 MAX_NAME_LEN in
  let len2 := strnlen user_input2 MAX_NAME_LEN in
  '(h, p1) ← give_name h user1 1 (len1 + 1) (Some len1);
  '(h, p2) ← give_name h user2 2 (len2 + 1) (Some len2);
  if (p1 =? 0) || (p2 =? 0) then h ← cleanup h user1; h ← cleanup h user2; Ok (h, None) else
  h ← with_text h p1 (fun b => b ← strncpy b user_input1 (Z.to_nat len1); b.[len1 <- 0]);
  h ← with_text h p2 (fun b => b ← strncpy b user_input2 (Z.to_nat len2); b.[len2 <- 0]);
  t1 ← print_text h p1;
  t2 ← print_text h p2;
  h ← cleanup h user1;
  h ← cleanup h user2;
  Ok (h, Some (t1, t2)).

(** *** [heap_vuln.c] *)

Definition process_user (user_input1 user_input2 : list Z) (h : heap cell) : res (heap cell * option (list Z * list Z)) :=
  let '(h, user1) := malloc h 16 (User None None None) in
  let '(h, user2) := malloc h 16 (User None None None) in
  if (user1 =? 0) || (user2 =? 0) then Ok (h, None) else
  '(h, p1) ← give_name h user1 1 8 None;
  '(h, p2) ← give_name h user2 2 8 None;
  h ← with_text h p1 (fun b => strcpy b user_input1);
  h ← with_text h p2 (fun b => strcpy b user_input2);
  t1 ← print_text h p1;
  t2 ← print_text h p2;
  h ← free h p1;
  h ← free h p2;
  h ← free h user1;
  h ← free h user2;
  Ok (h, Some (t1, t2)).

(** Both programs take exactly two names. *)
Definition users_main (process : list Z -> list Z -> heap cell -> res (heap cell * option (list Z * list Z))) (args : list (list Z)) (h : heap cell)
    : res (heap cell * Z) :=
  match args with
  | [_; a; b] => '(h, _) ← process a b h; Ok (h, 0)
  | _ => Ok (h, 1)
  end.

(** ** Lemmas *)

Context (HL : forall n, MallocLaws (alloc n)) (Hgarbage : forall n, 0 <= n -> len (garbage n) = n).
#[local] Existing Instance HL.

Lemma with_text_ok h p b f b' : p <> 0 -> h !! p = Some (Text b) -> f b = Ok b' -> with_text h p f = Ok (<[p := Text b']> h).
Proof. intros H0 Hp Hf. unfold with_text. rewrite (load_Ok _ _ _ H0 Hp), bind_ret_l. cbn [as_text]. rewrite bind_ret_l, Hf, bind_ret_l. by apply (store_Ok _ _ _ (Text b)). Qed.

Lemma print_text_ok h p t r : p <> 0 -> h !! p = Some (Text (t ++ 0 :: r)) -> text t -> print_text h p = Ok t.
Proof. intros H0 Hp Ht. unfold print_text. rewrite (load_Ok _ _ _ H0 Hp), bind_ret_l. cbn [as_text]. rewrite bind_ret_l. by apply puts_text. Qed.

(** The cleanup of one user, whose name may be [NULL]. *)
Lemma user_freed h0 h X u p pr nl : owned h0 h X -> u ∈ X -> h !! u = Some (User pr (Some p) nl) -> (p <> 0 -> (p ∈ X) /\ p <> u) ->
  exists h', cleanup h u = Ok h' /\ owned h0 h' (X ∖ {[u]} ∖ (if decide (p = 0) then ∅ else {[p]})) /\ (forall q w, q <> u -> q <> p -> h !! q = Some w -> h' !! q = Some w).
Proof.
  intros Ho Hu Hl Hp. destruct (owned_in _ _ _ Ho u Hu) as (H0 & _ & _). unfold cleanup. destruct (Z.eqb_spec u 0); [done|]. unfold name_of. rewrite (load_Ok _ _ _ H0 Hl), !bind_ret_l.
  destruct (decide (p = 0)) as [->|Hp0].
  - change (free h 0) with (@Ok (heap cell) h). rewrite bind_ret_l. destruct (owned_free _ _ _ _ Ho Hu) as [E Ho']. exists (delete u h). split; [exact E|]. split; [eapply owned_proper; [exact Ho'|]; set_solver|].
    intros q w Hq _ Hw. by rewrite lookup_delete_ne.
  - destruct (Hp Hp0) as [Hpx Hpu]. destruct (owned_free _ _ _ _ Ho Hpx) as [-> Ho1]. rewrite bind_ret_l. destruct (owned_free _ _ _ u Ho1 ltac:(set_solver)) as [E Ho2].
    exists (delete u (delete p h)). split; [exact E|]. split; [eapply owned_proper; [exact Ho2|]; set_solver|]. intros q w Hq Hqp Hw. by rewrite !lookup_delete_ne.
Qed.

(** Freeing through a name that was never set. *)
Lemma cleanup_unset h u : u <> 0 -> h !! u = Some (User None None None) -> cleanup h u = Fault BadAddress.
Proof. intros H0 Hu. unfold cleanup. destruct (Z.eqb_spec u 0); [done|]. unfold name_of. by rewrite (load_Ok _ _ _ H0 Hu). Qed.

(** What [give_name] leaves: the user with its name, everything owned before as it was. *)
Lemma give_name_ok h0 h X u pr n nl : owned h0 h X -> u ∈ X ->
  exists h' p, give_name h u pr n nl = Ok (h', p) /\ owned h0 h' (if decide (p = 0) then X else {[p]} ∪ X) /\
    h' !! u = Some (User (Some pr) (Some p) nl) /\ (p <> 0 -> (p ∉ X) /\ h' !! p = Some (Text (garbage n))) /\
    (p = 0 -> alloc n h = None) /\ (forall q w, q ∈ X -> q <> u -> h !! q = Some w -> h' !! q = Some w).
Proof.
  intros Ho Hu. destruct (malloc_owned alloc HL h0 h X n (Text (garbage n)) Ho) as (h1 & p & E & Hp & Ho1 & Hn & Hkeep). unfold give_name. rewrite E.
  destruct (owned_store h0 h1 _ u (User (Some pr) (Some p) nl) Ho1) as [-> Ho2]; [case_decide; set_solver|]. rewrite bind_ret_l.
  eexists _, _. split; [done|]. split; [done|]. split; [apply lookup_insert_eq|]. split.
  - intros H0. destruct (Hp H0) as [Hx Hv]. split; [done|]. rewrite lookup_insert_ne; [done|]. intros ->. done.
  - split; [intros H0; by apply (Hn H0)|]. intros q w Hq Hne Hw. rewrite lookup_insert_ne by done. apply Hkeep; [|done]. by apply (owned_in _ _ _ Ho).
Qed.

(** Both structures allocated. *)
Lemma users_start h n u1 u2 : alloc n h = Some u1 -> alloc n (<[u1 := User None None None]> h) = Some u2 ->
  owned h (<[u2 := User None None None]> (<[u1 := User None None None]> h)) {[u1; u2]} /\ u1 <> u2 /\ u1 <> 0 /\ u2 <> 0.
Proof.
  intros H1 H2. destruct (owned_malloc (alloc n) h h ∅ u1 (User None None None) (owned_start h) H1) as (_ & H01 & Ho1).
  destruct (owned_malloc (alloc n) h _ _ u2 (User None None None) Ho1 H2) as (Hx & H02 & Ho2).
  split; [eapply owned_proper; [exact Ho2|]; set_solver|]. split; [set_solver|done].
Qed.

(** The names of both users, from the same two lines of both programs. *)
Lemma two_names h0 h u1 u2 n1 n2 l1 l2 : owned h0 h {[u1; u2]} -> u1 <> u2 ->
  exists h' p1 p2 X, ('(h, p1) ← give_name h u1 1 n1 l1; '(h, p2) ← give_name h u2 2 n2 l2; Ok (h, p1, p2)) = Ok (h', p1, p2) /\ owned h0 h' X /\
    X ≡ {[u1; u2]} ∪ (if decide (p1 = 0) then ∅ else {[p1]}) ∪ (if decide (p2 = 0) then ∅ else {[p2]}) /\
    h' !! u1 = Some (User (Some 1) (Some p1) l1) /\ h' !! u2 = Some (User (Some 2) (Some p2) l2) /\
    (p1 <> 0 -> p1 <> u1 /\ p1 <> u2 /\ p1 <> p2 /\ h' !! p1 = Some (Text (garbage n1))) /\
    (p2 <> 0 -> p2 <> u1 /\ p2 <> u2 /\ p1 <> p2 /\ h' !! p2 = Some (Text (garbage n2))) /\
    (p1 = 0 \/ p2 = 0 -> short_of_memory alloc h0 3).
Proof.
  intros Ho Hne. destruct (give_name_ok h0 h _ u1 1 n1 l1 Ho ltac:(set_solver)) as (h1 & p1 & -> & Ho1 & Hu1 & Hp1 & Hn1 & Hk1). rewrite bind_ret_l. cbv beta iota.
  destruct (give_name_ok h0 h1 _ u2 2 n2 l2 Ho1 ltac:(case_decide; set_solver)) as (h2 & p2 & -> & Ho2 & Hu2 & Hp2 & Hn2 & Hk2). rewrite bind_ret_l. cbv beta iota.
  eexists h2, p1, p2, _. split; [done|]. split; [exact Ho2|]. split; [repeat case_decide; set_solver|].
  split; [apply Hk2; [case_decide; set_solver|done|done]|]. split; [done|]. split; [|split].
  - intros H0. destruct (Hp1 H0) as [Hx Hv]. rewrite decide_False in Hp2, Hk2 by done. assert (p1 <> u1 /\ p1 <> u2) as [Ha Hb] by set_solver. split; [done|]. split; [done|].
    split; [intros <-; destruct (Hp2 H0) as [Hq _]; set_solver|]. apply Hk2; [set_solver|done|done].
  - intros H0. destruct (Hp2 H0) as [Hx Hv]. split; [case_decide; set_solver|]. split; [case_decide; set_solver|]. split; [|done].
    intros <-. rewrite decide_False in Hx by done. set_solver.
  - pose proof (owned_size _ _ _ Ho) as Hs. pose proof (owned_size _ _ _ Ho1) as Hs1. pose proof (size_add u1 {[u2]}). rewrite size_singleton in *.
    intros [H0|H0]; [exists n1, h; split; [auto|lia]|]. exists n2, h1. split; [auto|]. case_decide; [lia|]. pose proof (size_add p1 {[u1; u2]}). lia.
Qed.

Lemma both_cleaned h0 h X u1 u2 p1 p2 l1 l2 : owned h0 h X -> u1 <> u2 ->
  X ≡ {[u1; u2]} ∪ (if decide (p1 = 0) then ∅ else {[p1]}) ∪ (if decide (p2 = 0) then ∅ else {[p2]}) ->
  h !! u1 = Some (User (Some 1) (Some p1) l1) -> h !! u2 = Some (User (Some 2) (Some p2) l2) ->
  (p1 <> 0 -> p1 <> u1 /\ p1 <> u2 /\ p1 <> p2) -> (p2 <> 0 -> p2 <> u1 /\ p2 <> u2 /\ p1 <> p2) ->
  (h ← cleanup h u1; cleanup h u2) = Ok h0.
Proof.
  intros Ho Hne HX H1 H2 Hp1 Hp2. destruct (owned_in _ _ _ Ho u1 ltac:(set_solver)) as (Hu1 & _ & _). destruct (owned_in _ _ _ Ho u2 ltac:(set_solver)) as (Hu2 & _ & _).
  destruct (user_freed h0 h X u1 p1 (Some 1) l1) as (h1 & -> & Ho1 & Hk1); [done|set_solver|done| |].
  { intros H0. split; [rewrite HX, decide_False by done; set_solver|by apply Hp1]. }
  rewrite bind_ret_l. destruct (user_freed h0 h1 _ u2 p2 (Some 2) l2 Ho1) as (h2 & -> & Ho2 & _).
  - case_decide; [set_solver|]. destruct (Hp1 H) as (_ & Hb & _). set_solver.
  - apply Hk1; [done|intros ->; destruct (decide (p1 = 0)) as [->|H0]; [done|by destruct (Hp1 H0) as (_ & Hb & _)]|done].
  - intros H0. destruct (Hp2 H0) as (Ha & Hb & Hc). split; [|done]. rewrite HX, (decide_False (P := p2 = 0)) by done. case_decide; set_solver.
  - f_equal. apply owned_end. eapply owned_proper; [exact Ho2|]. rewrite HX. repeat case_decide; set_solver.
Qed.

Lemma two_names_inv h u1 u2 n1 n2 l1 l2 h' p1 p2 :
  ('(h, p1) ← give_name h u1 1 n1 l1; '(h, p2) ← give_name h u2 2 n2 l2; Ok (h, p1, p2)) = Ok (h', p1, p2) ->
  exists h1, give_name h u1 1 n1 l1 = Ok (h1, p1) /\ give_name h1 u2 2 n2 l2 = Ok (h', p2).
Proof. intros ([h1 q1] & E1 & E)%bind_Ok. apply bind_Ok in E as ([h2 q2] & E2 & [= <- <- <-]). by exists h1. Qed.

(** The bounded copy of a name into a block of its length and one. *)
Lemma name_copy (s : list Z) : let n := strnlen s MAX_NAME_LEN in
  (b ← strncpy (garbage (n + 1)) s (Z.to_nat n); b.[n <- 0]) = Ok (take 128 s ++ 0 :: drop (S (Z.to_nat n)) (garbage (n + 1))).
Proof.
  intros n. assert (0 <= n <= 128 /\ (Z.to_nat n <= length s)%nat /\ take (Z.to_nat n) s = take 128 s) as (Hn & Hl & Htk).
  { unfold n, strnlen, MAX_NAME_LEN. split; [lia|]. split; [lia|]. destruct (Z.min_spec (len s) 128) as [[H ->]|[H ->]]; [|done]. rewrite Nat2Z.id, firstn_all. symmetry. apply take_ge. lia. }
  pose proof (Hgarbage (n + 1) ltac:(lia)) as Hg. pose proof (strncpy_terminated (garbage (n + 1)) s (Z.to_nat n) Hl ltac:(lia)) as Ec.
  rewrite Z2Nat.id in Ec by lia. by rewrite Ec, Htk.
Qed.

(** [heap_safe.c] on arbitrary names: when both structures are allocated, at most 128
    characters of each name are copied, within their blocks, and printed, and the heap
    ends as it began, also when there is no memory for a name.  When the second structure
    cannot be allocated the cleanup frees a pointer that was never set. *)
Theorem heap_safe_outcome in1 in2 h : text in1 -> text in2 ->
  match alloc 24 h with
  | None => process_user_safe in1 in2 h = Ok (h, None)
  | Some u1 =>
      match alloc 24 (<[u1 := User None None None]> h) with
      | None => process_user_safe in1 in2 h = Fault BadAddress
      | Some _ => exists out, process_user_safe in1 in2 h = Ok (h, out) /\
          (out = Some (take 128 in1, take 128 in2) \/ (out = None /\ short_of_memory alloc h 3))
      end
  end.
Proof.
  intros Ht1 Ht2. unfold process_user_safe. destruct (alloc 24 h) as [u1|] eqn:E1; [|unfold malloc_in; rewrite !E1; done].
  destruct (alloc 24 (<[u1 := User None None None]> h)) as [u2|] eqn:E2; unfold malloc_in; rewrite E1, E2; cycle 1.
  { pose proof (malloc_range _ _ E1). destruct (Z.eqb_spec u1 0); [lia|]. simpl. by rewrite cleanup_unset by (done || by rewrite lookup_insert_eq). }
  destruct (users_start h 24 u1 u2 E1 E2) as (Ho & Hne & H01 & H02). destruct (Z.eqb_spec u1 0), (Z.eqb_spec u2 0); try done. cbn [orb]. cbv zeta.
  pose proof (name_copy in1) as Hc1. pose proof (name_copy in2) as Hc2. cbv zeta in Hc1, Hc2. set (n1 := strnlen in1 MAX_NAME_LEN) in *. set (n2 := strnlen in2 MAX_NAME_LEN) in *.
  destruct (two_names h _ u1 u2 (n1 + 1) (n2 + 1) (Some n1) (Some n2) Ho Hne) as (h3 & p1 & p2 & X & E & Ho3 & HX & Hu1 & Hu2 & Hp1 & Hp2 & Hnone).
  apply two_names_inv in E as (h2 & -> & E). rewrite bind_ret_l. cbv beta iota. rewrite E, bind_ret_l. cbv beta iota. clear E h2.
  assert (forall h', owned h h' X -> h' !! u1 = Some (User (Some 1) (Some p1) (Some n1)) -> h' !! u2 = Some (User (Some 2) (Some p2) (Some n2)) -> forall o,
    (h ← cleanup h' u1; h ← cleanup h u2; Ok (h, o)) = Ok (h, o : option (list Z * list Z))) as Hclean.
  { intros h' Ho' H1' H2' o. pose proof (both_cleaned h h' X u1 u2 p1 p2 (Some n1) (Some n2) Ho' Hne HX H1' H2') as Ec.
    assert ((h ← cleanup h' u1; cleanup h u2) = Ok h) as Ec' by (apply Ec; naive_solver). apply bind_Ok in Ec' as (g & -> & Eg). by rewrite bind_ret_l, Eg. }
  destruct (Z.eqb_spec p1 0) as [Hz1|Hz1]; [cbn [orb]; rewrite Hclean by done; eexists; split; [done|]; right; split; [done|auto]|].
  destruct (Z.eqb_spec p2 0) as [Hz2|Hz2]; [cbn [orb]; rewrite Hclean by done; eexists; split; [done|]; right; split; [done|auto]|]. cbn [orb].
  destruct (Hp1 Hz1) as (Ha1 & Ha2 & Hpp & Hv1). destruct (Hp2 Hz2) as (Hb1 & Hb2 & _ & Hv2).
  rewrite (with_text_ok h3 p1 _ _ _ Hz1 Hv1 Hc1), bind_ret_l.
  assert (p1 ∈ X) as Hx1 by (rewrite HX, decide_False by done; set_solver). assert (p2 ∈ X) as Hx2 by (rewrite HX, (decide_False (P := p2 = 0)) by done; set_solver).
  destruct (owned_store h h3 X p1 (Text (take 128 in1 ++ 0 :: drop (S (Z.to_nat n1)) (garbage (n1 + 1)))) Ho3 Hx1) as [_ Ho4]. set (h4 := <[p1 := _]> h3) in *.
  rewrite (with_text_ok h4 p2 (garbage (n2 + 1)) _ _ Hz2 ltac:(unfold h4; by rewrite lookup_insert_ne) Hc2), bind_ret_l.
  destruct (owned_store h h4 X p2 (Text (take 128 in2 ++ 0 :: drop (S (Z.to_nat n2)) (garbage (n2 + 1)))) Ho4 Hx2) as [_ Ho5]. set (h5 := <[p2 := _]> h4) in *.
  rewrite (print_text_ok h5 p1 (take 128 in1) (drop (S (Z.to_nat n1)) (garbage (n1 + 1)))), bind_ret_l by (done || (unfold h5, h4; by rewrite lookup_insert_ne, lookup_insert_eq) || by apply Forall_take).
  rewrite (print_text_ok h5 p2 (take 128 in2) (drop (S (Z.to_nat n2)) (garbage (n2 + 1)))), bind_ret_l by (done || (unfold h5; by rewrite lookup_insert_eq) || by apply Forall_take).
  rewrite Hclean by (done || unfold h5, h4; by rewrite !lookup_insert_ne). eexists. split; [done|]. by left.
Qed.

(** The four frees at the end of [process_user]. *)
Lemma free_four (h0 h : heap cell) X p1 p2 u1 u2 : owned h0 h X -> X ≡ {[u1; u2]} ∪ {[p1]} ∪ {[p2]} ->
  p1 <> u1 -> p1 <> u2 -> p1 <> p2 -> p2 <> u1 -> p2 <> u2 -> u1 <> u2 -> forall (o : option (list Z * list Z)),
  (h ← free h p1; h ← free h p2; h ← free h u1; h ← free h u2; Ok (h, o)) = Ok (h0, o).
Proof.
  intros Ho HX H1 H2 H3 H4 H5 H6 o. destruct (owned_free h0 h X p1 Ho ltac:(set_solver)) as [-> Ho1]. rewrite bind_ret_l.
  destruct (owned_free h0 _ _ p2 Ho1 ltac:(set_solver)) as [-> Ho2]. rewrite bind_ret_l. destruct (owned_free h0 _ _ u1 Ho2 ltac:(set_solver)) as [-> Ho3]. rewrite bind_ret_l.
  destruct (owned_free h0 _ _ u2 Ho3 ltac:(set_solver)) as [-> Ho4]. rewrite bind_ret_l. do 2 f_equal. apply owned_end. eapply owned_proper; [exact Ho4|]. clear - HX. set_solver.
Qed.

(** When the allocator has room for four blocks more, [heap_vuln.c] prints both names and
    frees everything exactly when both are shorter than eight characters; otherwise a
    copy leaves its block. *)
Theorem heap_vuln_outcome in1 in2 h : text in1 -> text in2 -> ~ short_of_memory alloc h 3 ->
  process_user in1 in2 h = if (len in1 <? 8) && (len in2 <? 8) then Ok (h, Some (in1, in2)) else Fault OutOfBounds.
Proof.
  intros Ht1 Ht2 Hroom. unfold process_user.
  destruct (alloc 16 h) as [u1|] eqn:E1; [|exfalso; apply Hroom; exists 16, h; split; [done|lia]].
  destruct (alloc 16 (<[u1 := User None None None]> h)) as [u2|] eqn:E2; cycle 1.
  { exfalso. apply Hroom. eexists _, _. split; [exact E2|]. rewrite map_size_insert_None by (by eapply malloc_fresh). lia. }
  unfold malloc_in. rewrite E1, E2. destruct (users_start h 16 u1 u2 E1 E2) as (Ho & Hne & H01 & H02). destruct (Z.eqb_spec u1 0), (Z.eqb_spec u2 0); try done. cbn [orb].
  destruct (two_names h _ u1 u2 8 8 None None Ho Hne) as (h3 & p1 & p2 & X & E & Ho3 & HX & Hu1 & Hu2 & Hp1 & Hp2 & Hnone).
  apply two_names_inv in E as (h2 & -> & E). rewrite bind_ret_l. cbv beta iota. rewrite E, bind_ret_l. cbv beta iota. clear E h2.
  destruct (decide (p1 = 0)) as [|Hz1]; [by destruct (Hroom (Hnone ltac:(auto)))|]. destruct (decide (p2 = 0)) as [|Hz2]; [by destruct (Hroom (Hnone ltac:(auto)))|].
  destruct (Hp1 Hz1) as (Ha1 & Ha2 & Hpp & Hv1). destruct (Hp2 Hz2) as (Hb1 & Hb2 & _ & Hv2). pose proof (Hgarbage 8 ltac:(lia)) as Hg.
  destruct (Z.ltb_spec (len in1) 8) as [Hl1|Hl1]; cycle 1.
  { unfold with_text. rewrite (load_Ok _ _ _ Hz1 Hv1), bind_ret_l. cbn [as_text]. by rewrite bind_ret_l, strcpy_oob by lia. }
  rewrite (with_text_ok h3 p1 _ _ _ Hz1 Hv1 (strcpy_Ok (garbage 8) in1 ltac:(lia))), bind_ret_l. set (h4 := <[p1 := _]> h3).
  assert (h4 !! p2 = Some (Text (garbage 8))) as Hv2' by (unfold h4; by rewrite lookup_insert_ne).
  destruct (Z.ltb_spec (len in2) 8) as [Hl2|Hl2]; cycle 1.
  { unfold with_text. rewrite (load_Ok _ _ _ Hz2 Hv2'), bind_ret_l. cbn [as_text]. by rewrite bind_ret_l, strcpy_oob by lia. }
  rewrite (with_text_ok h4 p2 _ _ _ Hz2 Hv2' (strcpy_Ok (garbage 8) in2 ltac:(lia))), bind_ret_l. set (h5 := <[p2 := _]> h4).
  rewrite (print_text_ok h5 p1 in1 (drop (S (length in1)) (garbage 8))), bind_ret_l by (done || (unfold h5, h4; by rewrite lookup_insert_ne, lookup_insert_eq)).
  rewrite (print_text_ok h5 p2 in2 (drop (S (length in2)) (garbage 8))), bind_ret_l by (done || (unfold h5; by rewrite lookup_insert_eq)).
  assert ((p1 ∈ X) /\ p2 ∈ X) as [Hx1 Hx2] by (clear - HX; set_solver).
  destruct (owned_store h h3 X p1 (Text (in1 ++ 0 :: drop (S (length in1)) (garbage 8))) Ho3 Hx1) as [_ Ho4]. fold h4 in Ho4.
  destruct (owned_store h h4 X p2 (Text (in2 ++ 0 :: drop (S (length in2)) (garbage 8))) Ho4 Hx2) as [_ Ho5]. fold h5 in Ho5.
  rewrite (free_four h h5 X p1 p2 u1 u2) by done. done.
Qed.
End users.

Lemma heap_safe_outcome_witness :
  exists out, process_user_safe (fun _ => bump 20) zeros (chars "ann") (chars "bob") ∅ = Ok (∅, out) /\
    (out = Some (chars "ann", chars "bob") \/ (out = None /\ short_of_memory (fun _ : Z => @bump cell 20) ∅ 3)).
Proof.
  assert (forall n : Z, MallocLaws ((fun _ : Z => @bump cell 20) n)) as HL by (intros n; apply bump_laws; lia).
  exact (heap_safe_outcome (fun _ => bump 20) zeros HL ltac:(intros n Hn; unfold zeros; rewrite length_replicate; lia) (chars "ann") (chars "bob") ∅
    ltac:(repeat constructor; done) ltac:(repeat constructor; done)).
Defined.
