(* ===== verification/Overflows.v ===== *)
(** * Copies into buffers of the stack ([security/exploits/vuln.c], [vulnerable.c],
    [overflow_verifier.c], [memory_analyzer.c], [register_tracker.c], [stack_monitor.c],
    [stackCanaries.c])

    Programs that copy their argument with [strcpy].  A write past the end of a buffer
    has no meaning in C; where a program looks at the bytes behind its buffer the stack
    frame is an array of bytes. *)
From Stdlib Require Import ZArith Lia String.
From stdpp Require Import base tactics list numbers option.
From S2P Require Import Prelude CString Layout.

#[local] Open Scope Z_scope.
#[local] Open Scope c_scope.

(** [main] of all these programs: one argument, or a message and the code 1. *)
Definition one_argument {A} (f : list Z -> res A) (args : list (list Z)) : res (option A * Z) :=
  match args with
  | [_; input] => r ← f input; Ok (Some r, 0)
  | _ => Ok (None, 1)
  end.

(** ** The programs without a look behind the buffer *)

Section programs.
(** What the buffer holds at first. *)
Context (uninit : list Z).

(** [vuln.c]: the value printed after the copy. *)
Definition vuln_function (input : list Z) : res Z :=
  let important_value := 100 in
  _ ← strcpy uninit input;
  Ok important_value.

(** [vulnerable.c]: the text printed. *)
Definition vulnerable_function (input : list Z) : res (list Z) := b ← strcpy uninit input; puts b.

(** [for (i = 0; i < 20; i++) printf("%02x ", (unsigned char)buffer[i])]. *)
Definition hex_bytes (b : list Z) : res (list Z) := for_range 20 0 (fun i out => c ← b.[i]; Ok (out ++ [c])) [].

(** An [int] that holds 0xDEADBEEF, which does not fit and wraps. *)
Definition DEADBEEF : Z := 3735928559.
Definition canary_int : Z := DEADBEEF - UINT32.

(** [canary != 0xDEADBEEF] compares as [unsigned]. *)
Definition corrupted (canary : Z) : bool := negb (u32 canary =? DEADBEEF).

(** [overflow_verifier.c]: the bytes printed after the copy, and whether it reports an
    overflow. *)
Definition verify_overflow (input : list Z) : res (list Z * bool) :=
  let canary := canary_int in
  b ← strcpy uninit input;
  out ← hex_bytes b;
  Ok (out, corrupted canary).

(** [memory_analyzer.c]: the bytes before and after, and whether it warns. *)
Definition analyze_memory (input : list Z) : res (list Z * list Z * bool) :=
  let control_value := canary_int in
  before ← hex_bytes uninit;
  b ← strcpy uninit input;
  after ← hex_bytes b;
  Ok (before, after, corrupted control_value).

(** [register_tracker.c]: the registers printed before and after the copy. *)
Definition register_function (print_registers : unit -> list Z) (input : list Z) : res (list Z * list Z) :=
  let before := print_registers tt in
  _ ← strcpy uninit input;
  Ok (before, print_registers tt).
End programs.

Lemma hex_bytes_ok b : len b = 20 -> hex_bytes b = Ok b.
Proof.
  intros Hl. destruct (for_range_inv (fun i out => out = take (Z.to_nat i) b) 20 0 (fun i out => c ← b.[i]; Ok (out ++ [c])) []) as (out & E & ->); [done| |].
  - intros i out Hi ->. destruct (zget_range b i ltac:(lia)) as [c Hc]. rewrite (arr_read_Ok _ _ _ Hc), bind_ret_l. eexists. split; [done|]. symmetry. by apply take_S_zget.
  - unfold hex_bytes. rewrite E. f_equal. apply take_ge. lia.
Qed.

Lemma not_corrupted : corrupted canary_int = false.
Proof. reflexivity. Qed.

(** Each of the programs runs without leaving its buffer exactly on the arguments that
    are shorter than the buffer (20 or 32 characters), and on those it copies the whole
    argument and reports no corruption. *)
Theorem strcpy_programs input b20 b32 regs : text input -> len b20 = 20 -> len b32 = 32 ->
  vuln_function b20 input = (if len input <? 20 then Ok 100 else Fault OutOfBounds) /\
  vulnerable_function b32 input = (if len input <? 32 then Ok input else Fault OutOfBounds) /\
  verify_overflow b20 input = (if len input <? 20 then Ok (input ++ 0 :: drop (S (length input)) b20, false) else Fault OutOfBounds) /\
  analyze_memory b20 input = (if len input <? 20 then Ok (b20, input ++ 0 :: drop (S (length input)) b20, false) else Fault OutOfBounds) /\
  register_function b20 regs input = (if len input <? 20 then Ok (regs tt, regs tt) else Fault OutOfBounds).
Proof.
  intros Ht H20 H32. unfold vuln_function, vulnerable_function, verify_overflow, analyze_memory, register_function. rewrite (hex_bytes_ok b20 H20), bind_ret_l.
  split; [|split; [|split; [|split]]].
  2: { destruct (Z.ltb_spec (len input) 32); [rewrite strcpy_Ok, bind_ret_l by lia; by apply puts_text|by rewrite strcpy_oob by lia]. }
  all: destruct (Z.ltb_spec (len input) 20); [rewrite strcpy_Ok, bind_ret_l by lia|by rewrite strcpy_oob by lia].
  - done.
  - rewrite hex_bytes_ok, bind_ret_l, not_corrupted; [done|]. rewrite length_app. simpl. rewrite length_drop. lia.
  - rewrite hex_bytes_ok, bind_ret_l, not_corrupted; [done|]. rewrite length_app. simpl. rewrite length_drop. lia.
  - done.
Qed.

Lemma strcpy_programs_witness : vuln_function (replicate 20 0) (chars "AAAAAAAAAAAAAAAAAAAAAAAA") = Fault OutOfBounds.
Proof.
  apply (strcpy_programs (chars "AAAAAAAAAAAAAAAAAAAAAAAA") (replicate 20 0) (replicate 32 0) (fun _ => [])); [repeat constructor; done|reflexivity|reflexivity].
Defined.

(** ** [stack_monitor.c] *)

Module StackMonitor.

(** A line: the offset of its first byte, the bytes in hexadecimal, and as characters. *)
Record row : Type := mkRow { at_offset : Z; hex : list Z; ascii : list Z }.

(** [char] is signed: a byte above 127 is negative, and not printable. *)
Definition printable (c : Z) : Z := let c := if c <? 128 then c else c - 256 in if (32 <=? c) && (c <=? 126) then c else 46.

Definition print_row (ptr : list Z) (frame_size i : Z) : res row :=
  hex ← for_ctl 16 0 (fun j out => if i + j <? frame_size then b ← ptr.[i + j]; Ok (Next (out ++ [b])) else Ok (Return out)) [];
  chars ← for_ctl 16 0 (fun j out => if i + j <? frame_size then b ← ptr.[i + j]; Ok (Next (out ++ [printable b])) else Ok (Return out)) [];
  let ended (c : ctl (list Z) (list Z)) := match c with Next out => out | Return out => out end in
  Ok (mkRow i (ended hex) (ended chars)).

Definition print_stack_frame (ptr : list Z) (frame_size : Z) : res (list row) :=
  for_step (passes 0 frame_size 16) 0 16 (fun i rows => r ← print_row ptr frame_size i; Ok (rows ++ [r])) [].

(** [frame]: the bytes from the stack pointer to 16 above the base pointer; the buffer of 20
    bytes starts at [pos] of them. *)
Definition monitor_stack (frame : list Z) (pos : Z) (input : list Z) : res (list row * list row) :=
  before ← print_stack_frame frame (len frame);
  buffer ← copy_from frame pos 20;
  buffer ← strcpy buffer input;
  frame ← copy_to frame pos buffer;
  after ← print_stack_frame frame (len frame);
  Ok (before, after).

(** The part of a frame that line [i] shows. *)
Definition window (ptr : list Z) (i : Z) : list Z := take 16 (drop (Z.to_nat i) ptr).

Lemma scan_window (f : Z -> Z) (ptr : list Z) i : 0 <= i ->
  exists c, for_ctl 16 0 (fun j out => if i + j <? len ptr then b ← ptr.[i + j]; Ok (Next (out ++ [f b])) else Ok (Return out)) [] = Ok c /\
    (match c with Next out => out | Return out => out end) = f <$> window ptr i.
Proof.
  intros Hi. destruct (for_ctl_inv (fun j out => out = f <$> take (Z.to_nat j) (drop (Z.to_nat i) ptr)) (fun out => out = f <$> window ptr i) 16 0
    (fun j out => if i + j <? len ptr then b ← ptr.[i + j]; Ok (Next (out ++ [f b])) else Ok (Return out)) []) as (c & E & Hc); [done| |].
  - intros j out Hj ->. destruct (Z.ltb_spec (i + j) (len ptr)).
    + destruct (zget_range ptr (i + j) ltac:(lia)) as [b Hb]. rewrite (arr_read_Ok _ _ _ Hb), bind_ret_l. eexists. split; [done|].
      rewrite (take_S_zget _ j b); [by rewrite fmap_app|]. unfold zget in *. destruct (Z.leb_spec 0 (i + j)); [|lia]. destruct (Z.leb_spec 0 j); [|lia]. rewrite lookup_drop, <- Hb. f_equal. lia.
    + eexists. split; [done|]. unfold window. f_equal. rewrite !take_ge by (rewrite length_drop; lia). done.
  - exists c. split; [done|]. by destruct c.
Qed.

Lemma print_row_ok ptr i : 0 <= i -> print_row ptr (len ptr) i = Ok (mkRow i (window ptr i) (printable <$> window ptr i)).
Proof.
  intros Hi. unfold print_row. destruct (scan_window id ptr i Hi) as (c & E & Hc). rewrite list_fmap_id in Hc. unfold id in E. rewrite E, bind_ret_l.
  destruct (scan_window printable ptr i Hi) as (d & -> & Hd). rewrite bind_ret_l. cbv beta. by rewrite Hc, Hd.
Qed.

Definition rows_of (ptr : list Z) (n : Z) : list row := (fun k => mkRow (16 * k) (window ptr (16 * k)) (printable <$> window ptr (16 * k))) <$> seqZ 0 n.

Lemma print_frame_ok ptr : print_stack_frame ptr (len ptr) = Ok (rows_of ptr (Z.of_nat (passes 0 (len ptr) 16))).
Proof.
  unfold print_stack_frame. destruct (for_step_inv (fun m rows => rows = rows_of ptr m) (passes 0 (len ptr) 16) 0 16
    (fun i rows => r ← print_row ptr (len ptr) i; Ok (rows ++ [r])) []) as (rows & -> & ->); [done| |done].
  intros m rows Hm ->. rewrite print_row_ok, bind_ret_l by lia. eexists. split; [done|]. unfold rows_of. rewrite seqZ_app, fmap_app by lia. do 2 f_equal.
  simpl. rewrite !Z.add_0_l. by replace (16 * m) with (m * 16) by lia.
Qed.

(** Put together, the lines show every byte once, in order. *)
Lemma rows_cover ptr : concat (hex <$> rows_of ptr (Z.of_nat (passes 0 (len ptr) 16))) = ptr.
Proof.
  assert (forall n : nat, concat (hex <$> rows_of ptr (Z.of_nat n)) = take (16 * n) ptr) as H.
  { induction n as [|n IH]; [done|]. unfold rows_of in *. replace (Z.of_nat (S n)) with (Z.of_nat n + 1) by lia. rewrite seqZ_app, !fmap_app, concat_app, IH by lia.
    change (seqZ (0 + Z.of_nat n) 1) with [Z.of_nat 0 + (0 + Z.of_nat n)]. cbn [fmap list_fmap concat hex]. rewrite app_nil_r. unfold window. replace (Z.to_nat (16 * (Z.of_nat 0 + (0 + Z.of_nat n)))) with (16 * n)%nat by lia. rewrite take_take_drop. f_equal. lia. }
  rewrite H. apply take_ge. unfold passes. pose proof (Z.div_mod (len ptr - 0 + 16 - 1) 16 ltac:(lia)). pose proof (Z.mod_pos_bound (len ptr - 0 + 16 - 1) 16 ltac:(lia)). lia.
Qed.

(** [stack_monitor.c] prints every byte of its frame exactly once before and after the
    copy; after it the frame shows the argument in the buffer and is otherwise the
    same.  An argument of 20 characters or more leaves the buffer. *)
Theorem stack_dump_complete frame pos input : 0 <= pos -> pos + 20 <= len frame ->
  if len input <? 20 then
    exists before after, monitor_stack frame pos input = Ok (before, after) /\ concat (hex <$> before) = frame /\
      concat (hex <$> after) = take (Z.to_nat pos) frame ++ input ++ 0 :: drop (Z.to_nat pos + S (length input)) frame
  else monitor_stack frame pos input = Fault OutOfBounds.
Proof.
  intros Hp Hl. unfold monitor_stack. rewrite print_frame_ok, bind_ret_l, copy_from_Ok, bind_ret_l by lia. set (buffer := take 20 (drop (Z.to_nat pos) frame)).
  assert (length buffer = 20%nat) as Hb by (unfold buffer; rewrite length_take, length_drop; lia).
  destruct (Z.ltb_spec (len input) 20) as [Hi|Hi]; [|by rewrite strcpy_oob by lia]. rewrite strcpy_Ok, bind_ret_l by lia.
  assert (length (input ++ 0 :: drop (S (length input)) buffer) = 20%nat) as Hn by (rewrite length_app; simpl; rewrite length_drop; lia).
  rewrite copy_to_Ok, bind_ret_l by lia. rewrite Hn, print_frame_ok, bind_ret_l. eexists _, _. split; [done|]. rewrite !rows_cover. split; [done|].
  f_equal. rewrite <- app_assoc. f_equal. simpl. f_equal. unfold buffer. rewrite skipn_firstn_comm.
  replace (drop (Z.to_nat pos + 20) frame) with (drop (20 - S (length input)) (drop (S (length input)) (drop (Z.to_nat pos) frame))) by (rewrite !drop_drop; f_equal; lia).
  rewrite take_drop, drop_drop. done.
Qed.

Lemma stack_dump_complete_witness :
  exists before after, monitor_stack (replicate 50 7) 4 (chars "hello") = Ok (before, after) /\ concat (hex <$> before) = replicate 50 7.
Proof.
  destruct (stack_dump_complete (replicate 50 7) 4 (chars "hello")) as (b & a & H1 & H2 & _); [lia|simpl; lia|]. exists b, a. split; [exact H1|exact H2].
Defined.
End StackMonitor.

(** ** [stackCanaries.c] *)

Module Canary.

(** [rand i]: the [i]-th number drawn. *)
Definition generate_canary (rand : Z -> Z) : res Z :=
  for_range 8 0 (fun i canary => Ok (Z.lor (u64 (Z.shiftl canary 8)) (Z.land (rand i) 255))) 0.

(** A changed canary ends the program. *)
Definition check_canary (canary original : Z) : res unit := if negb (canary =? original) then Fault (Exit 1) else Ok tt.

(** [frame]: the stack from the start of the buffer on; the 32 bytes of the buffer come
    first and the copy of the canary is written behind them.  The variable [canary]
    itself is not part of it.  [None] for a null argument, else the text printed. *)
Definition protected_function (rand : Z -> Z) (frame : list Z) (input : option (list Z)) : res (option (list Z)) :=
  match input with
  | None => Ok None
  | Some input =>
      canary ← generate_canary rand;
      frame ← copy_to frame 32 (bytes_of 8 canary);
      frame ← strcpy frame input;
      found ← copy_from frame 32 8;
      _ ← check_canary (number_of found) canary;
      t ← puts frame;
      Ok (Some t)
  end.

(** The bytes drawn, the first one first. *)
Definition drawn (rand : Z -> Z) : list Z := (fun i => rand i mod 256) <$> seqZ 0 8.

Lemma bytes_of_range n : forall v, Forall (fun b => 0 <= b < 256) (bytes_of n v).
Proof. induction n as [|n IH]; intros v; simpl; [constructor|]. constructor; [apply Z.mod_pos_bound; lia|apply IH]. Qed.

(** The canary is the drawn bytes: in memory the last one comes first. *)
Lemma canary_bytes rand : exists v, generate_canary rand = Ok v /\ 0 <= v < UINT64 /\ bytes_of 8 v = rev (drawn rand).
Proof.
  assert (forall n : nat, (n <= 8)%nat -> exists v, for_range n 0 (fun i canary => Ok (Z.lor (u64 (Z.shiftl canary 8)) (Z.land (rand i) 255))) 0 = Ok v /\
    0 <= v < 256 ^ Z.of_nat n /\ bytes_of n v = rev ((fun i => rand i mod 256) <$> seqZ 0 (Z.of_nat n))) as H.
  { intros n Hn. destruct (for_range_inv (fun i v => 0 <= v < 256 ^ i /\ bytes_of (Z.to_nat i) v = rev ((fun i => rand i mod 256) <$> seqZ 0 i)) n 0
      (fun i canary => Ok (Z.lor (u64 (Z.shiftl canary 8)) (Z.land (rand i) 255))) 0) as (v & E & Hv & Hb); [done| |exists v; split; [done|]; rewrite Z.add_0_l, Nat2Z.id in *; done].
    intros i v Hi [Hv Hb]. eexists. split; [done|]. change 255 with (Z.ones 8). rewrite Z.land_ones by lia. change (2 ^ 8) with 256.
    assert (0 <= rand i mod 256 < 256) by (apply Z.mod_pos_bound; lia). assert (256 ^ i <= 256 ^ 7) by (apply Z.pow_le_mono_r; lia). change (256 ^ 7) with 72057594037927936 in *.
    rewrite u64_id by (rewrite Z.shiftl_mul_pow2 by lia; unfold UINT64; lia). rewrite lor_shifted by lia. change (2 ^ 8) with 256.
    rewrite Z.pow_add_r by lia. change (256 ^ 1) with 256. split; [lia|]. rewrite seqZ_app, fmap_app, rev_app_distr by lia.
    replace (Z.to_nat (i + 1)) with (S (Z.to_nat i)) by lia. cbn [bytes_of]. rewrite <- Hb. cbn. rewrite Z.add_0_l. rewrite Z.add_comm, Z.mod_add, Z.div_add by lia.
    rewrite (Z.mod_small (rand i mod 256)), (Z.div_small (rand i mod 256)), Z.add_0_l by lia. done. }
  destruct (H 8%nat ltac:(lia)) as (v & E & Hv & Hb). exists v. split; [exact E|]. split; [exact Hv|exact Hb].
Qed.

(** What [strcpy] leaves at the place of the canary: the bytes of the argument and its
    terminator that reach it, and the rest of the canary. *)
Definition overwritten (input canary : list Z) : list Z := take 8 (drop 32 (input ++ [0]) ++ drop (length (drop 32 (input ++ [0]))) canary).

Lemma window_after (frame : list Z) input canary : 40 <= len frame -> len input + 1 <= len frame -> length canary = 8%nat ->
  exists f, (f ← copy_to frame 32 canary; strcpy f input) = Ok f /\ copy_from f 32 8 = Ok (overwritten input canary) /\ exists r, f = input ++ 0 :: r.
Proof.
  intros H40 Hin Hc. rewrite copy_to_Ok, bind_ret_l by lia. change (Z.to_nat 32) with 32%nat. set (g := take 32 frame ++ canary ++ drop (32 + length canary) frame).
  assert (length (take 32 frame) = 32%nat) as H32 by (rewrite length_take; lia). assert (length g = length frame) as Hg by (unfold g; rewrite !length_app, length_drop; lia).
  rewrite strcpy_Ok by lia. eexists. split; [done|]. split.
  - rewrite copy_from_Ok by (rewrite ?length_app; simpl; rewrite ?length_drop; lia). change (Z.to_nat 32) with 32%nat. f_equal. unfold overwritten.
    replace (input ++ 0 :: drop (S (length input)) g) with ((input ++ [0]) ++ drop (length (input ++ [0])) g) by (rewrite <- app_assoc, length_app; simpl; do 3 f_equal; lia).
    set (w := input ++ [0]). assert (length w = S (length input)) as Hw by (unfold w; rewrite length_app; simpl; lia).
    rewrite drop_app. destruct (decide (32 <= length w)%nat) as [Hle|Hgt].
    + replace (32 - length w)%nat with O by lia. rewrite drop_0. apply list_eq. intros k. destruct (decide (k < 8)%nat) as [Hk|Hk]; [|rewrite !lookup_take_ge by lia; done].
      rewrite !lookup_take_lt by lia. destruct (decide (k < length (drop 32 w))%nat) as [Hk2|Hk2]; [by rewrite !lookup_app_l by lia|]. rewrite !lookup_app_r by lia. rewrite !lookup_drop.
      rewrite length_drop in *. unfold g. rewrite lookup_app_r by lia. rewrite lookup_app_l by lia. f_equal. lia.
    + rewrite (drop_ge w) by lia. simpl app. rewrite drop_drop. replace (length w + (32 - length w))%nat with 32%nat by lia. unfold g. rewrite drop_app_length' by done. simpl length. rewrite drop_0.
      rewrite take_app_le by lia. done.
  - by eexists.
Qed.

(** The place of the canary is unchanged when the bytes that reach it are those that were
    there. *)
Lemma overwritten_same input canary : length canary = 8%nat ->
  overwritten input canary = canary <-> take 8 (drop 32 (input ++ [0])) `prefix_of` canary.
Proof.
  intros Hc. unfold overwritten. set (w := drop 32 (input ++ [0])). rewrite take_app. split.
  - intros E. rewrite <- E. by eexists.
  - intros [r Hr]. destruct (decide (length w <= 8)%nat) as [Hle|Hgt].
    + rewrite (take_ge w 8) in * by lia. rewrite Hr at 1. rewrite drop_app_length, (take_ge r); [done|]. apply (f_equal length) in Hr. rewrite length_app in Hr. lia.
    + replace (8 - length w)%nat with O by lia. rewrite take_0, app_nil_r. assert (r = []) as ->; [|by rewrite app_nil_r in Hr].
      apply (f_equal length) in Hr. rewrite length_app, length_take, Hc in Hr. apply nil_length_inv. lia.
Qed.

Lemma number_of_inj l k : length l = length k -> Forall (fun b => 0 <= b < 256) l -> Forall (fun b => 0 <= b < 256) k -> number_of l = number_of k -> l = k.
Proof.
  revert k. induction l as [|a l IH]; intros [|b k] Hl Ha Hb E; try done. apply list.Forall_cons in Ha as [Ha Hl']. apply list.Forall_cons in Hb as [Hb Hk']. simpl in E.
  assert (a = b /\ number_of l = number_of k) as [-> E'] by lia. f_equal. apply IH; [by injection Hl|done|done|done].
Qed.

(** A short argument is copied and printed.  A longer one overwrites the canary, and the
    program of [stackCanaries.c] stops with failure exactly when one of the bytes that
    reach the canary differs from the random byte there: an argument of 32 characters
    is missed when the last byte drawn is 0, and one that repeats the canary always. *)
Theorem canary_detects rand frame input : Forall (fun c => 0 < c < 256) input -> 40 <= len frame -> len input < len frame ->
  protected_function rand frame (Some input) =
    (if decide (take 8 (drop 32 (input ++ [0])) `prefix_of` rev (drawn rand)) then Ok (Some input) else Fault (Exit 1)) /\
  (len input < 32 -> protected_function rand frame (Some input) = Ok (Some input)).
Proof.
  intros Ht H40 Hl. assert (text input) as Htext by (eapply list.Forall_impl; [exact Ht|]; simpl; lia).
  destruct (canary_bytes rand) as (v & Ev & Hv & Hb). assert (length (rev (drawn rand)) = 8%nat) as H8 by (rewrite <- Hb; apply length_bytes_of).
  assert (protected_function rand frame (Some input) = if decide (take 8 (drop 32 (input ++ [0])) `prefix_of` rev (drawn rand)) then Ok (Some input) else Fault (Exit 1)) as E.
  { unfold protected_function. rewrite Ev, bind_ret_l, Hb. destruct (window_after frame input (rev (drawn rand))) as (f & E & Ec & r & Hf); [lia|lia|done|].
    apply bind_Ok in E as (g & -> & E). rewrite bind_ret_l, E, bind_ret_l, Ec, bind_ret_l. unfold check_canary.
    assert (number_of (rev (drawn rand)) = v) as Hnum by (rewrite <- Hb; apply number_of_bytes; exact Hv).
    assert (number_of (overwritten input (rev (drawn rand))) = v <-> take 8 (drop 32 (input ++ [0])) `prefix_of` rev (drawn rand)) as Hiff.
    { rewrite <- overwritten_same, <- Hnum by done. split; [|by intros ->]. apply number_of_inj.
      - rewrite H8. unfold overwritten. rewrite length_take, length_app, length_drop, length_drop. lia.
      - unfold overwritten. apply Forall_take, Forall_app. split; [|apply Forall_drop; rewrite <- Hb; apply bytes_of_range].
        apply Forall_drop, Forall_app. split; [eapply list.Forall_impl; [exact Ht|]; simpl; lia|repeat constructor; lia].
      - rewrite <- Hb. apply bytes_of_range. }
    destruct (Z.eqb_spec (number_of (overwritten input (rev (drawn rand)))) v) as [Hn|Hn]; simpl.
    - rewrite decide_True by (by apply Hiff). rewrite Hf, puts_text by done. done.
    - rewrite decide_False by (by intros H%Hiff). done. }
  split; [exact E|]. intros H32. rewrite E. apply decide_True. rewrite drop_ge by (rewrite length_app; simpl; lia). apply prefix_nil.
Qed.

Lemma canary_detects_witness : protected_function (fun _ => 65) (replicate 64 0) (Some (replicate 36 66)) = Fault (Exit 1).
Proof. apply (canary_detects (fun _ => 65) (replicate 64 0) (replicate 36 66)); [apply Forall_replicate; lia|simpl; lia|simpl; lia]. Defined.
End Canary.
