(* ===== verification/EchoClient.v ===== *)
(** * The client of the echo server ([concurrency/threads/clientSide.c])

    The client on its own, for any server, and together with the server of
    [SelectServer] over a connection that may cut the bytes sent into pieces. *)
From Stdlib Require Import ZArith Lia String.
From stdpp Require Import base tactics list numbers option.
From S2P Require Import Prelude CString SelectServer.

#[local] Open Scope Z_scope.
#[local] Open Scope c_scope.

(** How the loop ends: by the word that quits, or in a [read] that never returns. *)
Inductive ending : Type := Quit | Blocked.

Section client.
(** The server: its state and what it answers to the bytes sent, if it does. *)
Context {S : Type} (answer : S -> list Z -> option (S * list Z)).

Record client : Type := mkClient { stdin : list Z; message : list Z; reply : list Z; peer : S; sent_lines : list (list Z); printed : list (list Z) }.

(** One pass of [while (1)]. *)
Definition client_step (c : client) : res (ctl client (ending * client)) :=
  let '(taken, rest) := fgets (Z.to_nat (BUFFER_SIZE - 1)) (stdin c) in
  m ← (if decide (taken = []) then Ok (message c) else copy_to (message c) 0 (taken ++ [0]));
  m ← cut_newline m;
  let line := c_string m in
  if decide (line = chars "exit") then Ok (Return (Quit, mkClient rest m (reply c) (peer c) (sent_lines c) (printed c))) else
  match answer (peer c) line with
  | None => Ok (Return (Blocked, mkClient rest m (reply c) (peer c) (sent_lines c ++ [line]) (printed c)))
  | Some (p, bytes) =>
      b ← copy_to (reply c) 0 (take (Z.to_nat BUFFER_SIZE) bytes);
      t ← puts b;
      b ← memset b 0 BUFFER_SIZE;
      Ok (Next (mkClient rest m b p (sent_lines c ++ [line]) (printed c ++ [t])))
  end.

(** [None] when there is no connection: the code -1. *)
Definition client_main (fuel : nat) (connected : bool) (input uninit : list Z) (p : S) : res (option (ending * client)) :=
  if negb connected then Ok None else
  r ← loop fuel client_step (mkClient input uninit (replicate (Z.to_nat BUFFER_SIZE) 0) p [] []);
  Ok (Some r).
End client.
Arguments mkClient {S} _ _ _ _ _ _.

(** ** Lines *)

(** A line that can be sent: not empty, without newline and terminator, short enough, and
    not the word that quits. *)
Definition good_line (l : list Z) : Prop := Forall (fun c => c <> 10 /\ c <> 0) l /\ 0 < len l < BUFFER_SIZE - 1 /\ l <> chars "exit".

(** The bytes of an answer, as they are printed. *)
Lemma print_reply t : text t -> len t < BUFFER_SIZE ->
  exists b, copy_to (replicate (Z.to_nat BUFFER_SIZE) 0) 0 (take (Z.to_nat BUFFER_SIZE) t) = Ok b /\ puts b = Ok t /\ memset b 0 BUFFER_SIZE = Ok (replicate (Z.to_nat BUFFER_SIZE) 0).
Proof.
  intros Ht Hl. rewrite (take_ge t) by lia. rewrite copy_front by (rewrite length_replicate; lia). eexists. split; [done|].
  assert (drop (length t) (replicate (Z.to_nat BUFFER_SIZE) 0) = 0 :: replicate (Z.to_nat BUFFER_SIZE - length t - 1) 0) as ->.
  { rewrite drop_replicate. destruct (Z.to_nat BUFFER_SIZE - length t)%nat as [|k] eqn:E; [lia|]. by rewrite Nat.sub_1_r. }
  split; [by apply puts_text|]. rewrite memset_Ok by (rewrite length_app; simpl; rewrite length_replicate; unfold BUFFER_SIZE in *; lia).
  rewrite drop_ge by (rewrite length_app; simpl; rewrite length_replicate; lia). by rewrite app_nil_r.
Qed.

(** ** With any server that sends back what it gets *)

Section echoing.
Context {S : Type} (answer : S -> list Z -> option (S * list Z)) (serves : S -> Prop).

(** The server answers good lines with a text that fits the buffer, and goes on serving. *)
Context (Hecho : forall p l, serves p -> good_line l -> exists p' t, answer p l = Some (p', t) /\ text t /\ len t < BUFFER_SIZE /\ serves p').




(** Lines followed by the word that quits. *)
Definition session (lines : list (list Z)) : list Z := concat ((fun l => l ++ [10]) <$> (lines ++ [chars "exit"])).

End echoing.

(** ** With the server of [serverSide.c] *)

(** The server, the bytes on their way to the client, and the number of calls of [send]. *)
Record link : Type := mkLink { srv : server; back : list Z; sends : nat }.

Section connection.
Context (master sd : Z).

(** How the connection carries the bytes of a [send]: the pieces in which the server reads
    them, and how many of the bytes on their way back the next [read] of the client
    takes, of those there are. *)
Context (net : nat -> list Z -> list (list Z) * Z).

(** A round in which only this client has something to say. *)
Definition piece_round (piece : list Z) : round := mkRound 1 false [sd] (-1) (fun _ => (len piece, piece)).

(** The bytes the server sent to the client between two states. *)
Definition answered (s s' : server) : list Z := concat (snd <$> filter (fun p => p.1 = sd) (drop (length (sent s)) (sent s'))).

Fixpoint serve_pieces (pieces : list (list Z)) (s : server) : res (server * list Z) :=
  match pieces with
  | [] => Ok (s, [])
  | p :: ps =>
      s1 ← server_round master (piece_round p) s;
      '(s2, b) ← serve_pieces ps s1;
      Ok (s2, answered s s1 ++ b)
  end.

(** [read] waits while there are no bytes; it returns none when the server is gone. *)
Definition echo_peer (p : link) (line : list Z) : option (link * list Z) :=
  match serve_pieces (net (sends p) line).1 (srv p) with
  | Fault _ => Some (p, [])
  | Ok (s, b) =>
      let k := Z.to_nat (Z.max 1 (Z.min (net (sends p) line).2 BUFFER_SIZE)) in
      match back p ++ b with
      | [] => None
      | bytes => Some (mkLink s (drop k bytes) (S (sends p)), take k bytes)
      end
  end.

(** A stream: the pieces are not empty and make up what was sent.  The last byte of the
    buffer of the client is left for the terminator. *)
Definition stream : Prop := forall k l, concat (net k l).1 = l /\ Forall (fun p => p <> []) (net k l).1 /\ (net k l).2 < BUFFER_SIZE.








Context (Hnet : stream).




End connection.



Definition cuts (_ : nat) (l : list Z) : list (list Z) * Z := (match l with [] => [] | [c] => [[c]] | c :: l => [[c]; l] end, 2).






(** One [read] is taken for the whole answer: over the second connection the line [bye] is
    printed without its last character. *)
Lemma cut_answer_printed :
  match client_main (echo_peer 3 4 cuts) 3 true (session [chars "hi"; chars "bye"]) (replicate (Z.to_nat BUFFER_SIZE) 7)
    (mkLink (mkServer (4 :: replicate 29 0) (replicate (Z.to_nat BUFFER_SIZE) 0) [] []) [] 0) with
  | Ok (Some (Quit, c)) => printed c = [chars "hi"; chars "by"] /\ back (peer c) = chars "e"
  | _ => False
  end.
Proof. vm_compute. done. Qed.

(** An empty line is not sent, and the client waits for an answer that never comes. *)
Lemma empty_line_blocks master sd net (c : client) rest : stream net -> back (peer c) = [] -> stdin c = 10 :: rest -> len (message c) = BUFFER_SIZE ->
  exists c', client_step (echo_peer master sd net) c = Ok (Return (Blocked, c')) /\ printed c' = printed c.
Proof.
  intros Hn Hb Hin Hm. destruct (line_in_buffer (message c) [] rest) as (Ef & m1 & m' & E1 & E2 & _ & Hstr); [done|by rewrite Hm|]. rewrite Hm in Ef.
  unfold client_step. rewrite Hin. change (10 :: rest) with ([] ++ 10 :: rest). rewrite Ef, decide_False by done. rewrite E1, bind_ret_l, E2, bind_ret_l. cbv zeta. rewrite Hstr, decide_False by done.
  unfold echo_peer. destruct (Hn (sends (peer c)) []) as (Hc & Hp & _). destruct (net (sends (peer c)) []) as [[|q ps] n]; cbn [fst snd] in *.
  - cbn [serve_pieces]. rewrite Hb. by eexists.
  - apply list.Forall_cons in Hp as [Hq _]. simpl in Hc. by apply app_eq_nil in Hc as [-> _].
Qed.

(** At the end of the input the result of [fgets] is not looked at: the last line is
    sent again and again. *)
Lemma end_of_input_repeats {S} (answer : S -> list Z -> option (S * list Z)) serves :
  (forall p l, serves p -> good_line l -> exists p', answer p l = Some (p', l) /\ serves p') ->
  forall fuel (c : client) l r, stdin c = [] -> message c = l ++ 0 :: r -> good_line l -> reply c = replicate (Z.to_nat BUFFER_SIZE) 0 -> serves (peer c) ->
  loop fuel (client_step answer) c = Fault OutOfFuel.
Proof.
  intros Hecho. induction fuel as [|fuel IH]; intros c l r Hin Hm Hg Hr Hs; [done|]. rewrite loop_S. destruct (Hecho (peer c) l Hs Hg) as (p' & Ha & Hs').
  pose proof Hg as (Hl & Hlen & Hx). assert (text l) as Ht by (eapply list.Forall_impl; [exact Hl|]; by intros x [_ H]).
  unfold client_step. rewrite Hin. assert (forall n, fgets n [] = ([], [])) as -> by (by intros []). rewrite decide_True, bind_ret_l by done.
  unfold cut_newline. rewrite Hm, find_terminator, arr_write_Ok, zset_middle, bind_ret_l by (auto || (rewrite length_app; simpl; lia)).
  cbv zeta. rewrite c_string_app, decide_False, Ha by done. rewrite Hr.
  destruct (print_reply l Ht ltac:(lia)) as (b & -> & Eb & Ec). rewrite bind_ret_l, Eb, bind_ret_l, Ec, !bind_ret_l. by apply (IH _ l r).
Qed.
