(* ===== verification/Aslr.v ===== *)
(** * Randomised layouts and a checked buffer ([security/protection/])

    [aslr.c] simulates the randomisation of an address space: where the segments start,
    and blocks in pages drawn at random.  [canary_test.c] reads a line next to a canary.
    The numbers drawn are an argument. *)
From Stdlib Require Import ZArith Lia.
From stdpp Require Import base tactics list numbers option gmap.
From S2P Require Import Prelude CString.

#[local] Open Scope Z_scope.
#[local] Open Scope c_scope.

(** ** [aslr.c] *)

Module Randomised.
Definition PAGE_SIZE : Z := 4096.
Definition MAX_PAGES : Z := 1000000.

Record MemoryPage : Type := mkPage { address : Z; is_allocated : Z }.

(** The array of pages starts with zeros; a page without an entry is as it was then. *)
Record MemoryLayout : Type := mkLayout {
  pages : gmap Z MemoryPage; text_start : Z; data_start : Z; heap_start : Z; stack_start : Z; mmap_start : Z
}.

Definition init_memory_layout : MemoryLayout := mkLayout ∅ 0 0 0 0 0.

Definition page (g : MemoryLayout) (i : Z) : res MemoryPage :=
  if in_range i MAX_PAGES then Ok (default (mkPage 0 0) (pages g !! i)) else Fault OutOfBounds.

Definition set_page (g : MemoryLayout) (i : Z) (p : MemoryPage) : res MemoryLayout :=
  if in_range i MAX_PAGES then Ok (mkLayout (<[i := p]> (pages g)) (text_start g) (data_start g) (heap_start g) (stack_start g) (mmap_start g)) else Fault OutOfBounds.

Section random.
(** The results of [rand]; the number [n] of calls so far is passed along. *)
Context (rand : nat -> Z).

(** [rand() % range] for an unsigned [range]. *)
Definition draw (n : nat) (range : Z) : res (nat * Z) := if range =? 0 then Fault DivByZero else Ok (S n, rand n mod range).

Definition randomize_address (n : nat) (start range : Z) : res (nat * Z) := '(n, r) ← draw n range; Ok (n, u64 (start + r)).

Definition allocate_random_page (fuel : nat) (g : MemoryLayout) (n : nat) : res (MemoryLayout * nat * Z) :=
  '(page_index, n) ← loop fuel (fun n =>
    page_index ← imod (rand n) MAX_PAGES;
    p ← page g page_index;
    if is_allocated p =? 0 then Ok (Return (page_index, S n)) else Ok (Next (S n))) n;
  p ← page g page_index;
  g ← set_page g page_index (mkPage (address p) 1);
  a ← imul page_index PAGE_SIZE;
  g ← set_page g page_index (mkPage a 1);
  p ← page g page_index;
  Ok (g, n, address p).

Definition apply_aslr (g : MemoryLayout) (n : nat) : res (MemoryLayout * nat) :=
  '(n, text) ← randomize_address n 4194304 65536;
  '(n, data) ← randomize_address n 6291456 65536;
  '(n, heap) ← randomize_address n 8388608 1048576;
  '(n, mmap) ← randomize_address n 4143972352 268435456;
  '(n, stack) ← randomize_address n 140737488216064 131072;
  Ok (mkLayout (pages g) text data heap stack mmap, n).

Definition sim_malloc (fuel : nat) (g : MemoryLayout) (n : nat) (size : Z) : res (MemoryLayout * nat * Z) :=
  '(g, n, addr) ← allocate_random_page fuel g n;
  '(n, r) ← draw n (u64 (PAGE_SIZE - size));
  Ok (g, n, u64 (addr + r)).

Definition sim_alloca (g : MemoryLayout) (n : nat) (size : Z) : res (nat * Z) :=
  '(n, r) ← draw n (u64 (131072 - size));
  Ok (n, u64 (stack_start g - r)).

Definition load_shared_library (g : MemoryLayout) (n : nat) : res (nat * Z) := randomize_address n (mmap_start g) 268435456.

(** The addresses of the blocks and of the libraries are what is printed. *)
Definition aslr_main (fuel : nat) : res (MemoryLayout * list Z * list Z) :=
  '(g, n) ← apply_aslr init_memory_layout 0;
  '(g, n, blocks) ← for_range 3 0 (fun _ '(g, n, out) => '(g, n, a) ← sim_malloc fuel g n 4; Ok (g, n, out ++ [a])) (g, n, []);
  '(_, libs) ← for_range 3 0 (fun _ '(n, out) => '(n, a) ← load_shared_library g n; Ok (n, out ++ [a])) (n, []);
  Ok (g, blocks, libs).
End random.

(** ** Pages *)

Section random_pages.
Context (rand : nat -> Z) (Hrand : forall n, 0 <= rand n <= INT_MAX).

(** The pages with an entry are allocated and have their address, which is an [int]. *)
Definition pages_ok (g : MemoryLayout) : Prop :=
  forall i p, pages g !! i = Some p -> 0 <= i < MAX_PAGES /\ i * PAGE_SIZE <= INT_MAX /\ p = mkPage (i * PAGE_SIZE) 1.

Definition drawn_page (n : nat) : Z := rand n mod MAX_PAGES.

Definition with_page (g : MemoryLayout) (i : Z) : MemoryLayout :=
  mkLayout (<[i := mkPage (i * PAGE_SIZE) 1]> (pages g)) (text_start g) (data_start g) (heap_start g) (stack_start g) (mmap_start g).

Lemma drawn_page_range n : 0 <= drawn_page n < MAX_PAGES.
Proof. apply Z.mod_pos_bound. reflexivity. Qed.

Lemma page_Ok g i : 0 <= i < MAX_PAGES -> page g i = Ok (default (mkPage 0 0) (pages g !! i)).
Proof. intros H. unfold page. by rewrite (proj2 (in_range_true _ _) H). Qed.

Lemma set_page_Ok g i p : 0 <= i < MAX_PAGES ->
  set_page g i p = Ok (mkLayout (<[i := p]> (pages g)) (text_start g) (data_start g) (heap_start g) (stack_start g) (mmap_start g)).
Proof. intros H. unfold set_page. by rewrite (proj2 (in_range_true _ _) H). Qed.

(** The loop draws until it meets a page that is free: the first one. *)
Lemma draw_free_page g : pages_ok g -> forall fuel n j, (j < fuel)%nat -> pages g !! drawn_page (n + j) = None ->
  exists k, (k <= j)%nat /\ pages g !! drawn_page (n + k) = None /\
    loop fuel (fun n => page_index ← imod (rand n) MAX_PAGES; p ← page g page_index; if is_allocated p =? 0 then Ok (Return (page_index, S n)) else Ok (Next (S n))) n
    = Ok (drawn_page (n + k), S (n + k)).
Proof.
  intros Hg. induction fuel as [|fuel IH]; intros n j Hj Hfree; [lia|]. rewrite loop_S, imod_Ok, bind_ret_l by (done || apply Hrand). fold (drawn_page n).
  rewrite page_Ok, bind_ret_l by apply drawn_page_range. destruct (pages g !! drawn_page n) as [p|] eqn:E.
  - destruct (Hg _ _ E) as (_ & _ & ->). destruct j as [|j]; [rewrite Nat.add_0_r in Hfree; congruence|]. cbn [from_option id is_allocated]. change (1 =? 0) with false. cbv iota. rewrite bind_ret_l.
    destruct (IH (S n) j) as (k & Hk & Hf & ->); [lia|by rewrite Nat.add_succ_comm|]. exists (S k). rewrite Nat.add_succ_comm in *. split; [lia|done].
  - exists O. rewrite Nat.add_0_r. split; [lia|]. done.
Qed.

Lemma allocate_random_page_ok g fuel n j : pages_ok g -> (j < fuel)%nat -> pages g !! drawn_page (n + j) = None ->
  exists k, (k <= j)%nat /\ pages g !! drawn_page (n + k) = None /\ let i := drawn_page (n + k) in
    allocate_random_page rand fuel g n = if i * PAGE_SIZE <=? INT_MAX then Ok (with_page g i, S (n + k), i * PAGE_SIZE) else Fault IntOverflow.
Proof.
  intros Hg Hj Hfree. destruct (draw_free_page g Hg fuel n j Hj Hfree) as (k & Hk & Hnone & E). exists k. split; [done|]. split; [done|]. cbv zeta.
  unfold allocate_random_page. rewrite E, bind_ret_l. pose proof (drawn_page_range (n + k)) as Hi. set (i := drawn_page (n + k)) in *.
  rewrite page_Ok, bind_ret_l, set_page_Ok, bind_ret_l by done. destruct (Z.leb_spec (i * PAGE_SIZE) INT_MAX) as [Hle|Hgt].
  - rewrite imul_Ok, bind_ret_l, set_page_Ok, bind_ret_l, page_Ok, bind_ret_l by (done || (unfold PAGE_SIZE, INT_MIN in *; lia)). cbn [pages text_start data_start heap_start stack_start mmap_start].
    rewrite insert_insert_eq, lookup_insert_eq. done.
  - unfold imul, int_of. destruct (Z.leb_spec INT_MIN (i * PAGE_SIZE)), (Z.leb_spec (i * PAGE_SIZE) INT_MAX); try lia; done.
Qed.

Lemma with_page_ok g i : pages_ok g -> 0 <= i < MAX_PAGES -> i * PAGE_SIZE <= INT_MAX -> pages_ok (with_page g i).
Proof. intros Hg Hi Hle k p. simpl. intros [[<- <-]|[_ H]]%lookup_insert_Some; [done|by apply Hg]. Qed.

(** A block of a size below a page lies in the page drawn for it. *)
Lemma sim_malloc_ok g fuel n j size : pages_ok g -> 0 <= size < PAGE_SIZE -> (j < fuel)%nat -> pages g !! drawn_page (n + j) = None ->
  (exists i n' a, pages g !! i = None /\ 0 <= i < MAX_PAGES /\ pages_ok (with_page g i) /\
     sim_malloc rand fuel g n size = Ok (with_page g i, n', a) /\ i * PAGE_SIZE <= a /\ a + size < (i + 1) * PAGE_SIZE) \/
  (sim_malloc rand fuel g n size = Fault IntOverflow /\ exists m, INT_MAX < drawn_page m * PAGE_SIZE).
Proof.
  intros Hg Hs Hj Hfree. destruct (allocate_random_page_ok g fuel n j Hg Hj Hfree) as (k & _ & Hnone & E). cbv zeta in E. pose proof (drawn_page_range (n + k)) as Hi. set (i := drawn_page (n + k)) in *.
  unfold sim_malloc. rewrite E. destruct (Z.leb_spec (i * PAGE_SIZE) INT_MAX) as [Hle|Hgt]; [|right; split; [done|by exists (n + k)%nat]]. left. rewrite bind_ret_l.
  unfold draw. rewrite u64_id by (unfold PAGE_SIZE, UINT64 in *; lia). destruct (Z.eqb_spec (PAGE_SIZE - size) 0); [lia|]. rewrite bind_ret_l.
  pose proof (Z.mod_pos_bound (rand (S (n + k))) (PAGE_SIZE - size) ltac:(lia)) as Hr. set (r := rand _ mod _) in *.
  exists i, (S (S (n + k))), (i * PAGE_SIZE + r). rewrite u64_id by (unfold PAGE_SIZE, INT_MAX, UINT64 in *; lia).
  split; [done|]. split; [done|]. split; [by apply with_page_ok|]. split; [done|]. lia.
Qed.

(** Among [fuel] draws in a row there is always a page that is not one of two given ones. *)
Definition varied (fuel : nat) : Prop := forall n (used : list Z), (length used < 3)%nat -> exists j, (j < fuel)%nat /\ drawn_page (n + j) ∉ used.

(** The blocks so far: each in a page of its own, and these are the pages in use. *)
Record placed (g : MemoryLayout) (ps blocks : list Z) : Prop := {
  p_pages : pages_ok g;
  p_distinct : NoDup ps;
  p_used : forall i, is_Some (pages g !! i) <-> i ∈ ps;
  p_inside : Forall2 (fun i a => i * PAGE_SIZE <= a /\ a + 4 < (i + 1) * PAGE_SIZE) ps blocks
}.

Lemma placed_next g ps blocks fuel n : varied fuel -> placed g ps blocks -> (length ps < 3)%nat ->
  (exists i n' a, sim_malloc rand fuel g n 4 = Ok (with_page g i, n', a) /\ placed (with_page g i) (ps ++ [i]) (blocks ++ [a])) \/
  (sim_malloc rand fuel g n 4 = Fault IntOverflow /\ exists m, INT_MAX < drawn_page m * PAGE_SIZE).
Proof.
  intros Hv [Hg Hd Hu Hin] Hl. destruct (Hv n ps Hl) as (j & Hj & Hfree). rewrite <- Hu in Hfree. apply eq_None_not_Some in Hfree.
  destruct (sim_malloc_ok g fuel n j 4 Hg ltac:(unfold PAGE_SIZE; lia) Hj Hfree) as [(i & n' & a & Hnone & Hi & Hok & E & H1 & H2)|H]; [left|by right].
  exists i, n', a. split; [done|]. split; [done| | |].
  - apply NoDup_app. split; [done|]. split; [|by apply NoDup_singleton]. intros x Hx ->%list_elem_of_singleton. apply Hu in Hx as [p Hp]. congruence.
  - intros x. simpl. rewrite lookup_insert_is_Some', elem_of_app, list_elem_of_singleton, Hu. intuition congruence.
  - apply Forall2_app; [done|]. by repeat constructor.
Qed.

(** Blocks in different pages do not overlap. *)
Lemma placed_disjoint g ps blocks i j a b : placed g ps blocks -> i <> j -> zget blocks i = Some a -> zget blocks j = Some b -> a + 4 <= b \/ b + 4 <= a.
Proof.
  intros [_ Hd _ Hin] Hne Ha Hb. unfold zget in *. destruct (Z.leb_spec 0 i), (Z.leb_spec 0 j); try done.
  destruct (Forall2_lookup_r _ _ _ _ _ Hin Ha) as (p & Hp & Hpa). destruct (Forall2_lookup_r _ _ _ _ _ Hin Hb) as (q & Hq & Hqb).
  assert (p <> q) as Hpq. { intros ->. pose proof (NoDup_lookup _ _ _ _ Hd Hp Hq). lia. }
  unfold PAGE_SIZE in *. lia.
Qed.

Lemma randomize_address_ok n start range : 0 <= start -> 0 < range -> start + range <= UINT64 ->
  exists a, randomize_address rand n start range = Ok (S n, a) /\ start <= a < start + range.
Proof.
  intros Hs Hr Hu. unfold randomize_address, draw. destruct (Z.eqb_spec range 0); [lia|]. rewrite bind_ret_l.
  pose proof (Z.mod_pos_bound (rand n) range Hr). rewrite u64_id by lia. eexists. split; [done|]. lia.
Qed.

(** The ranges of the segments. *)
Definition segments_ok (g : MemoryLayout) : Prop :=
  4194304 <= text_start g < 4259840 /\ 6291456 <= data_start g < 6356992 /\ 8388608 <= heap_start g < 9437184 /\
  4143972352 <= mmap_start g < 4412407808 /\ 140737488216064 <= stack_start g < 140737488347136.

Lemma apply_aslr_ok g : exists g' n, apply_aslr rand g 0 = Ok (g', n) /\ segments_ok g' /\ pages g' = pages g.
Proof.
  unfold apply_aslr. destruct (randomize_address_ok 0 4194304 65536) as (a & -> & Ha); [done..|]. rewrite bind_ret_l.
  destruct (randomize_address_ok 1 6291456 65536) as (b & -> & Hb); [done..|]. rewrite bind_ret_l.
  destruct (randomize_address_ok 2 8388608 1048576) as (c & -> & Hc); [done..|]. rewrite bind_ret_l.
  destruct (randomize_address_ok 3 4143972352 268435456) as (d & -> & Hd); [done..|]. rewrite bind_ret_l.
  destruct (randomize_address_ok 4 140737488216064 131072) as (e & -> & He); [done..|]. rewrite bind_ret_l.
  eexists _, _. split; [done|]. split; [|done]. unfold segments_ok. simpl. lia.
Qed.
End random_pages.

(** A run that gives addresses: segments in their ranges, three blocks that do not overlap
    each other, each inside one page, and libraries in the range above [mmap_start]. *)
Definition layout_good (r : res (MemoryLayout * list Z * list Z)) : Prop :=
  exists g blocks libs, r = Ok (g, blocks, libs) /\ segments_ok g /\ pages_ok g /\ length blocks = 3%nat /\ length libs = 3%nat /\
    (forall i j a b, i <> j -> zget blocks i = Some a -> zget blocks j = Some b -> a + 4 <= b \/ b + 4 <= a) /\
    Forall (fun a => a / PAGE_SIZE = (a + 4) / PAGE_SIZE) blocks /\
    Forall (fun a => mmap_start g <= a < mmap_start g + 268435456) libs.

(** For every sequence of random numbers that does not stay on two pages, the simulation
    of [aslr.c] ends: the segments start in their ranges, the three blocks do not
    overlap, none crosses a page, and the libraries are placed above the start of their
    region.  The only other outcome is an overflow of [int], when the page drawn has a
    number of 524288 or more, which are almost half of them. *)
Theorem aslr_layout rand fuel : (forall n, 0 <= rand n <= INT_MAX) -> varied rand fuel ->
  layout_good (aslr_main rand fuel) \/ (aslr_main rand fuel = Fault IntOverflow /\ exists n, 524288 <= drawn_page rand n).
Proof.
  intros Hrand Hv. unfold aslr_main. destruct (apply_aslr_ok rand init_memory_layout) as (g & n & -> & Hseg & Hpg). rewrite bind_ret_l.
  destruct (for_range_either (fun i '(g', n, out) => segments_ok g' /\ mmap_start g' = mmap_start g /\ exists ps, len ps = i /\ placed g' ps out) IntOverflow (exists n, INT_MAX < drawn_page rand n * PAGE_SIZE)
    (fun _ '(g, n, out) => '(g, n, a) ← sim_malloc rand fuel g n 4; Ok (g, n, out ++ [a])) 3 0 (g, n, [])) as [([[g' n'] blocks] & -> & Hs' & _ & ps & Hl & Hp)|[-> [m Hm]]].
  - split; [done|]. split; [done|]. exists []. split; [done|]. split; [intros i p; rewrite Hpg; done|constructor|intros i; rewrite Hpg, elem_of_nil; simpl; rewrite lookup_empty; split; [by intros []|done]|constructor].
  - intros i [[g1 n1] out] Hi (Hs1 & Hm1 & ps & Hl & Hp). destruct (placed_next rand Hrand g1 ps out fuel n1 Hv Hp ltac:(lia)) as [(k & n2 & a & -> & Hp')|[-> H]]; [left|by right].
    rewrite bind_ret_l. eexists. split; [done|]. split; [done|]. split; [done|]. exists (ps ++ [k]). split; [rewrite length_app; simpl; lia|done].
  - left. rewrite bind_ret_l.
    destruct (for_range_inv (fun i '(_, out) => len out = i /\ Forall (fun a => mmap_start g' <= a < mmap_start g' + 268435456) out) 3 0
      (fun _ '(n, out) => '(n, a) ← load_shared_library rand g' n; Ok (n, out ++ [a])) (n', [])) as ([n2 libs] & -> & Hlib & Hrange).
    + done.
    + intros i [n1 out] Hi [Hlo Hr]. destruct Hs' as (_ & _ & _ & Hmm & _). destruct (randomize_address_ok rand n1 (mmap_start g') 268435456) as (a & E & Ha); [lia|lia|unfold UINT64; lia|].
      unfold load_shared_library. rewrite E, bind_ret_l. eexists. split; [done|]. split; [rewrite length_app; simpl; lia|]. apply Forall_app. split; [done|by constructor].
    + rewrite bind_ret_l. exists g', blocks, libs. split; [done|]. split; [done|]. split; [by apply (p_pages _ _ _ Hp)|].
      pose proof (Forall2_length _ _ _ (p_inside _ _ _ Hp)). split; [lia|]. split; [lia|]. split; [intros i j a b; by apply (placed_disjoint g' ps blocks)|]. split; [|done].
      apply list.Forall_forall. intros a [j Hj]%list_elem_of_lookup. destruct (Forall2_lookup_r _ _ _ _ _ (p_inside _ _ _ Hp) Hj) as (p & _ & Ha). simpl in Ha.
      assert (forall x, p * PAGE_SIZE <= x < (p + 1) * PAGE_SIZE -> x / PAGE_SIZE = p) as Hdiv by (intros x Hx; symmetry; apply (Z.div_unique_pos x PAGE_SIZE p (x - p * PAGE_SIZE)); unfold PAGE_SIZE in *; lia).
      by rewrite !Hdiv by lia.
  - right. split; [done|]. exists m. unfold PAGE_SIZE, INT_MAX in Hm. lia.
Qed.

(** Three draws of a counter are three pages. *)
Lemma counter_varied : varied (fun n => Z.of_nat n mod 1000) 3.
Proof.
  intros n used Hu. destruct (decide (Exists (fun j => drawn_page (fun n => Z.of_nat n mod 1000) (n + j) ∉ used) [0; 1; 2]%nat)) as [(j & Hj & H)%list.Exists_exists|H].
  - exists j. split; [|done]. rewrite !elem_of_cons, elem_of_nil in Hj. lia.
  - exfalso. set (d := drawn_page _) in H. assert (length [d (n + 0)%nat; d (n + 1)%nat; d (n + 2)%nat] <= length used)%nat; [|simpl in *; lia].
    apply submseteq_length, NoDup_submseteq.
    + unfold d, drawn_page, MAX_PAGES. repeat constructor; rewrite ?elem_of_cons, elem_of_nil; Z.to_euclidean_division_equations; lia.
    + intros x Hx. apply not_Exists_Forall in H; [|intros ?; apply _]. rewrite !list.Forall_cons in H. destruct H as (H0 & H1 & H2 & _). apply dec_stable in H0, H1, H2.
      rewrite !elem_of_cons, elem_of_nil in Hx. by destruct Hx as [-> | [-> | [-> | []]]].
Qed.

Lemma aslr_layout_witness : layout_good (aslr_main (fun n => Z.of_nat n mod 1000) 3).
Proof.
  destruct (aslr_layout (fun n => Z.of_nat n mod 1000) 3) as [H|[H _]]; [|exact counter_varied|exact H|vm_compute in H; discriminate H].
  intros n. pose proof (Z.mod_pos_bound (Z.of_nat n) 1000 ltac:(lia)). unfold INT_MAX. lia.
Defined.
End Randomised.

(** ** [canary_test.c] *)

Module InputCanary.
Record protected_buffer : Type := mkBuffer { buffer : list Z; canary : Z; function_ptr : Z }.

(** The number of calls of [srand] and the result of [rand]. *)
Record generator : Type := mkGenerator { initialized : Z; seeded : Z }.

Definition generate_canary (g : generator) (rand : Z) : generator * Z :=
  let g := if initialized g =? 0 then mkGenerator 1 (seeded g + 1) else g in
  (g, u32 (Z.lxor rand 3735928559)).

Definition verify_canary (canary expected : Z) : res Z := if negb (canary =? expected) then Fault (Exit 1) else Ok 1.

(** [uninit] is the structure before it is filled, [self] the address of the function; the
    result is what is printed and what is left of the input. *)
Definition safe_function (uninit : protected_buffer) (self : Z) (g : generator) (rand : Z) (stdin : list Z) : res (generator * list Z * list Z) :=
  let '(g, canary_value) := generate_canary g rand in
  b ← memset (buffer uninit) 0 20;
  let buf := mkBuffer b canary_value self in
  let '(taken, rest) := fgets 19 stdin in
  b ← (if decide (taken = []) then Ok (buffer buf) else copy_to (buffer buf) 0 (taken ++ [0]));
  let buf := mkBuffer b (canary buf) (function_ptr buf) in
  _ ← verify_canary (canary buf) canary_value;
  t ← puts (buffer buf);
  Ok (g, t, rest).

(** Whatever is typed, the buffer of [canary_test.c] is large enough: the canary is found
    unchanged, and what is printed is the first line, at most nineteen characters of it,
    up to a zero byte if there is one.  The report of a corruption cannot happen. *)
Theorem canary_input_fits uninit self g rand stdin : len (buffer uninit) = 20 ->
  exists g' rest, safe_function uninit self g rand stdin = Ok (g', c_string (fgets 19 stdin).1, rest) /\ (fgets 19 stdin).1 ++ rest = stdin /\ initialized g' <> 0.
Proof.
  intros Hl. unfold safe_function, generate_canary. set (g' := if initialized g =? 0 then _ else g). rewrite memset_Ok, bind_ret_l by lia. cbn [buffer canary function_ptr].
  destruct (fgets_bound stdin 19) as [Hlen Happ]. destruct (fgets 19 stdin) as [taken rest]. cbn [fst snd] in *. exists g', rest.
  assert (initialized g' <> 0) as Hg by (unfold g'; destruct (Z.eqb_spec (initialized g) 0); simpl; lia).
  unfold verify_canary. rewrite Z.eqb_refl. cbn [negb]. case_decide as E.
  - subst taken. rewrite bind_ret_l, bind_ret_l. done.
  - rewrite copy_front, bind_ret_l by (rewrite !length_app, length_replicate, length_drop; simpl; lia). rewrite bind_ret_l, <- app_assoc. simpl app at 2.
    unfold puts. rewrite decide_True by (apply elem_of_app; right; apply list_elem_of_here). rewrite bind_ret_l, c_string_before. done.
Qed.

Lemma canary_input_fits_witness :
  exists g' rest, safe_function (mkBuffer (replicate 20 7) 0 0) 64 (mkGenerator 0 0) 5 (replicate 30 65) = Ok (g', replicate 19 65, rest) /\ replicate 19 65 ++ rest = replicate 30 65 /\ initialized g' <> 0.
Proof. exact (canary_input_fits (mkBuffer (replicate 20 7) 0 0) 64 (mkGenerator 0 0) 5 (replicate 30 65) eq_refl). Defined.
End InputCanary.
