(* ===== verification/ShellLoop.v ===== *)
(** * The shell from line to line ([utils/sh.c])

    The loop of [main] around the parts of [Shell]: a line is read into the buffer, split
    and run, and the children are waited for.  What a child does is a parameter: it may
    read the input of the shell, and it may never end, which leaves the shell in [wait]. *)
From Stdlib Require Import ZArith Lia Ascii String.
From stdpp Require Import base tactics list numbers option gmap.
From S2P Require Import Prelude CString Shell.

#[local] Open Scope Z_scope.
#[local] Open Scope c_scope.

Definition MAX_CMD_LENGTH : Z := 1024.

(** The characters of a buffer as a string of [Shell]. *)
Definition str_of (l : list Z) : str := (fun z => ascii_of_N (Z.to_N z)) <$> l.

(** How a child ends. *)
Inductive status : Type := Exited (code : Z) | Signaled (sig : Z).

Section shell.
(** The descriptors [pipe] gives and whether [fork] works, by the table of the shell; how a
    child ends that has these arguments and descriptors, [None] if it never does; the order
    in which they end; what the children with these arguments leave of the input they share
    with the shell. *)
Context (pipe : fds -> option (Z * Z)) (fork_ok : fds -> bool) (ends : list (option str) -> fds -> option status)
  (order : list status -> list status) (leaves : list (list (option str)) -> list Z -> list Z).

(** What the arrays [args] and [pipes] hold before they are filled. *)
Context (uninit_args : list (option str)) (garbage : Z * Z).

(** A pass of the loop over the commands, with the arguments of the commands before. *)
Definition command_pass (n : Z) (commands : list (option str)) (i : Z) (st : list (list (option str)) * (list fds * fds * (Z * Z) * Z))
    : res (list (list (option str)) * (list fds * fds * (Z * Z) * Z)) :=
  c ← commands.[i];
  match c with
  | None => Fault NullDeref
  | Some command =>
      '(_, args) ← split_args uninit_args command;
      if negb (fork_ok st.2.1.1.2) then Fault (Exit 1) else
      r ← run_command pipe n i st.2;
      Ok (st.1 ++ [args], r)
  end.

(** A line that was run: the arguments and descriptors of its children, and what [wait]
    reported of them. *)
Record job : Type := mkJob { argvs : list (list (option str)); children : list fds; reports : list status }.

(** The last component: [wait] reported every child; otherwise it does not return. *)
Definition run_line (mem : list (option str)) (line : str) (t : fds) : res (list (option str) * fds * job * bool) :=
  '(n, commands) ← split_commands mem line;
  r ← for_range (Z.to_nat n) 0 (command_pass n commands) ([], ([], t, garbage, STDIN_FILENO));
  let statuses := zip_with ends r.1 r.2.1.1.1 in
  Ok (commands, r.2.1.1.2, mkJob r.1 r.2.1.1.1 (order (omap id statuses)), bool_decide (Forall is_Some statuses)).

(** [strtok] writes terminators into the buffer as well; the next line overwrites all that
    is read of it. *)
Record shell : Type := mkShell { stdin : list Z; input : list Z; commands : list (option str); table : fds; jobs : list job }.

(** How the shell comes to its end: [main] returns, or waits for ever. *)
Inductive ending : Type := Returned (code : Z) | Waiting.

Definition shell_step (s : shell) : res (ctl shell (shell * ending)) :=
  let '(taken, rest) := fgets (Z.to_nat (MAX_CMD_LENGTH - 1)) (stdin s) in
  if decide (taken = []) then Ok (Return (s, Returned 0)) else
  m ← copy_to (input s) 0 (taken ++ [0]);
  m ← cut_newline m;
  if decide (c_string m = chars "exit") then Ok (Return (mkShell rest m (commands s) (table s) (jobs s), Returned 0)) else
  '(cs, t, j, all) ← run_line (commands s) (str_of (c_string m)) (table s);
  if all : bool then Ok (Next (mkShell (leaves (argvs j) rest) m cs t (jobs s ++ [j])))
  else Ok (Return (mkShell rest m cs t (jobs s ++ [j]), Waiting)).

Definition shell_main (fuel : nat) (typed uninit : list Z) (mem : list (option str)) (t : fds) : res (shell * ending) :=
  loop fuel shell_step (mkShell typed uninit mem t []).
End shell.

(** ** One line *)

(** The array [args] of a command. *)
Definition args_array (uninit : list (option str)) (c : str) : list (option str) :=
  (Some <$> tokens BLANK c) ++ None :: drop (Z.to_nat (len (tokens BLANK c) + 1)) uninit.

(** Child [k] of [n] has the input and output its place asks for. *)
Definition placed_at (n : Z) (t0 : fds) (k : Z) (c : fds) : Prop :=
  c !! STDIN_FILENO = (if k =? 0 then t0 !! STDIN_FILENO else Some (PipeRead (k - 1))) /\
  c !! STDOUT_FILENO = (if k =? n - 1 then t0 !! STDOUT_FILENO else Some (PipeWrite k)).

(** The job of a line: a child for each command, with its arguments and its place in the
    pipeline, and a report for each one that ends. *)
Definition job_of (uninit : list (option str)) (ends : list (option str) -> fds -> option status) (t0 : fds) (line : list Z) (j : job) : Prop :=
  argvs j = args_array uninit <$> tokens BAR (str_of line) /\ length (children j) = length (argvs j) /\
  (forall k c, zget (children j) k = Some c -> placed_at (len (children j)) t0 k c) /\
  reports j ≡ₚ omap id (zip_with ends (argvs j) (children j)).

(** All children of the job end. *)
Definition finished (ends : list (option str) -> fds -> option status) (j : job) : Prop := Forall is_Some (zip_with ends (argvs j) (children j)).

#[global] Instance finished_dec ends j : Decision (finished ends j) := list.Forall_dec is_Some _.

(** A line within the limits of the arrays. *)
Definition small_line (line : list Z) : Prop :=
  len (tokens BAR (str_of line)) < MAX_ARGS /\ Forall (fun c => len (tokens BLANK c) < MAX_ARGS) (tokens BAR (str_of line)).

Lemma split_args_ok mem s : len mem = MAX_ARGS -> len (tokens BLANK s) < MAX_ARGS -> split_args mem s = Ok (len (tokens BLANK s), args_array mem s).
Proof. intros Hm Hl. unfold split_args. rewrite collect_ok by lia. simpl. rewrite Hm. case_cond; [done|lia]. Qed.

Lemma split_commands_ok mem s : len mem = MAX_ARGS -> len (tokens BAR s) < MAX_ARGS ->
  split_commands mem s = Ok (len (tokens BAR s), (Some <$> tokens BAR s) ++ None :: drop (Z.to_nat (len (tokens BAR s) + 1)) mem).
Proof. intros Hm Hl. unfold split_commands. rewrite collect_ok by lia. simpl. rewrite Hm. case_cond; [done|lia]. Qed.

Section lines.
Context (pipe : fds -> option (Z * Z)) `{!PipeLaws pipe} (Hpipe : forall t, is_Some (pipe t)).
Context (fork_ok : fds -> bool) (Hfork : forall t, fork_ok t = true).
Context (ends : list (option str) -> fds -> option status) (order : list status -> list status) (Horder : forall l, order l ≡ₚ l).
Context (uninit_args : list (option str)) (garbage : Z * Z) (Hargs : len uninit_args = MAX_ARGS).
Context (t0 : fds) (Hin : is_Some (t0 !! STDIN_FILENO)) (Hout : is_Some (t0 !! STDOUT_FILENO)).

Lemma child_placed n k r : t0 !! r = None -> 0 <= k < n -> placed_at n t0 k (child_table n k r t0).
Proof.
  intros Hr Hk. destruct (fresh_not_std t0 Hin Hout r Hr) as [H0 H1]. unfold placed_at, child_table.
  destruct (Z.eqb_spec k 0), (Z.ltb_spec k (n - 1)), (Z.eqb_spec k (n - 1)); try lia; split; by simplify_map_eq.
Qed.

(** The loop over the commands of a line. *)
Lemma commands_run (cs : list str) rest : Forall (fun c => len (tokens BLANK c) < MAX_ARGS) cs ->
  exists children pipes fd, for_range (length cs) 0 (command_pass pipe fork_ok uninit_args (len cs) ((Some <$> cs) ++ rest)) ([], ([], t0, garbage, STDIN_FILENO)) =
    Ok (args_array uninit_args <$> cs, (children, t0, pipes, fd)) /\ length children = length cs /\
    forall k c, zget children k = Some c -> placed_at (len cs) t0 k c.
Proof.
  intros Hc. set (n := len cs).
  destruct (for_range_inv (fun i st => st.1 = args_array uninit_args <$> take (Z.to_nat i) cs /\ wired t0 n i st.2) (length cs) 0
    (command_pass pipe fork_ok uninit_args n ((Some <$> cs) ++ rest)) ([], ([], t0, garbage, STDIN_FILENO))) as ([as' [[[children t] pipes] fd]] & -> & Has & [Hlen Hch Hsh]).
  - split; [done|]. split; cbn [fst snd]; [done|by intros k c; rewrite zget_nil|]. destruct (Z.eqb_spec 0 n); [done|].
    destruct (Hpipe t0) as [[r w] Hp]. destruct (pipe_fresh _ _ _ Hp) as (Fr & _ & _). by exists r.
  - intros i [as' st] Hi [Has Hw]. cbn [fst snd] in *. destruct (zget_range cs i) as [c Hci]; [lia|].
    assert (zget ((Some <$> cs) ++ rest) i = Some (Some c)) as Hz.
    { unfold zget in *. destruct (Z.leb_spec 0 i); [|lia]. rewrite lookup_app_l by (rewrite length_fmap; lia). by rewrite list_lookup_fmap, Hci. }
    unfold command_pass. rewrite (arr_read_Ok _ _ _ Hz), bind_ret_l. rewrite split_args_ok, bind_ret_l by (done || by apply (Forall_zget _ _ _ _ Hc Hci)).
    rewrite Hfork. cbn [negb fst snd]. destruct (run_command_ok pipe Hpipe t0 Hin Hout n i st) as (st' & -> & Hw'); [lia|done|]. rewrite bind_ret_l.
    eexists. split; [done|]. split; [|done]. cbn [fst snd]. by rewrite Has, (take_S_zget _ _ _ Hci), fmap_app.
  - subst n. cbn [fst snd] in *. rewrite Z.add_0_l in *. rewrite Z.eqb_refl in Hsh. subst t. rewrite take_ge in Has by lia. subst as'.
    exists children, pipes, fd. split; [done|]. split; [lia|]. intros k c Hk. destruct (Hch k c Hk) as (r & Hr & ->). apply child_placed; [done|]. pose proof (zget_Some_range _ _ _ Hk). lia.
Qed.

Lemma run_line_ok mem line : len mem = MAX_ARGS -> small_line line ->
  exists cs j, run_line pipe fork_ok ends order uninit_args garbage mem (str_of line) t0 = Ok (cs, t0, j, bool_decide (finished ends j)) /\ len cs = MAX_ARGS /\ job_of uninit_args ends t0 line j.
Proof.
  intros Hm [H1 H2]. unfold run_line. rewrite split_commands_ok, bind_ret_l by done. rewrite Nat2Z.id.
  destruct (commands_run (tokens BAR (str_of line)) (None :: drop (Z.to_nat (len (tokens BAR (str_of line)) + 1)) mem) H2) as (cts & pipes & fd & -> & Hl & Hp).
  rewrite bind_ret_l. cbn [fst snd]. eexists _, (mkJob (args_array uninit_args <$> tokens BAR (str_of line)) cts _). split; [reflexivity|]. split.
  - rewrite length_app, length_fmap. simpl. rewrite length_drop. unfold MAX_ARGS in *. lia.
  - split; [done|]. unfold children, argvs, reports. rewrite length_fmap. split; [done|]. rewrite Hl. split; [exact Hp|apply Horder].
Qed.
End lines.

(** ** Sessions *)

(** A line that can be typed and is not the word that quits. *)
Definition typed_line (l : list Z) : Prop := Forall (fun c => c <> 10 /\ c <> 0) l /\ len l < MAX_CMD_LENGTH - 1 /\ l <> chars "exit" /\ small_line l.

(** The input: every line with what is typed for its children, then the word that quits
    or the end of the input. *)
Definition session (quits : bool) (lines : list (list Z * list Z)) : list Z :=
  concat ((fun l => l.1 ++ 10 :: l.2) <$> lines) ++ (if quits then chars "exit" ++ [10] else []).

Section sessions.
Context (pipe : fds -> option (Z * Z)) `{!PipeLaws pipe} (Hpipe : forall t, is_Some (pipe t)).
Context (fork_ok : fds -> bool) (Hfork : forall t, fork_ok t = true).
Context (ends : list (option str) -> fds -> option status) (order : list status -> list status) (Horder : forall l, order l ≡ₚ l).
Context (uninit_args : list (option str)) (garbage : Z * Z) (Hargs : len uninit_args = MAX_ARGS).
Context (t0 : fds) (Hin : is_Some (t0 !! STDIN_FILENO)) (Hout : is_Some (t0 !! STDOUT_FILENO)).

Context (leaves : list (list (option str)) -> list Z -> list Z).

Let step := shell_step pipe fork_ok ends order leaves uninit_args garbage.

(** The children of the line read what was typed for them. *)
Definition reads (l : list Z * list Z) : Prop := forall rest, leaves (args_array uninit_args <$> tokens BAR (str_of l.1)) (l.2 ++ rest) = rest.

(** The jobs of the lines, up to the end of them or to the first line with a child that
    does not end. *)
Inductive carried_out : list (list Z * list Z) -> list job -> ending -> Prop :=
| lines_done : carried_out [] [] (Returned 0)
| job_done l lines j js o : job_of uninit_args ends t0 l.1 j -> finished ends j -> carried_out lines js o -> carried_out (l :: lines) (j :: js) o
| job_stuck l lines j : job_of uninit_args ends t0 l.1 j -> ~ finished ends j -> carried_out (l :: lines) [j] Waiting.

Lemma carried_out_ends lines js o : (forall args t, is_Some (ends args t)) -> carried_out lines js o -> o = Returned 0.
Proof.
  intros He. induction 1 as [| |l lines j _ Hf]; [done..|]. destruct Hf. unfold finished. apply list.Forall_forall. intros o Ho.
  apply list_elem_of_lookup in Ho as (i & Ho). apply lookup_zip_with_Some in Ho as (args & t & -> & _). apply He.
Qed.

Lemma session_runs quits lines : forall s fuel, Forall (fun l => typed_line l.1) lines -> Forall reads lines -> (length lines < fuel)%nat -> stdin s = session quits lines ->
  len (input s) = MAX_CMD_LENGTH -> len (commands s) = MAX_ARGS -> table s = t0 ->
  exists s' js o, loop fuel step s = Ok (s', o) /\ jobs s' = jobs s ++ js /\ carried_out lines js o /\ table s' = t0 /\ (o = Returned 0 -> stdin s' = []).
Proof.
  induction lines as [|l lines IH]; intros s fuel Hl Hd Hf Hs Hm Hc Ht; (destruct fuel as [|fuel]; [simpl in Hf; lia|]); rewrite loop_S; unfold step at 2; unfold shell_step; rewrite Hs.
  - destruct quits.
    + change (session true []) with (chars "exit" ++ 10 :: []). destruct (line_in_buffer (input s) (chars "exit") []) as (Ef & m1 & m' & E1 & E2 & _ & E3); [by repeat constructor|by rewrite Hm|]. rewrite Hm in Ef. rewrite Ef.
      rewrite decide_False by done. rewrite E1, bind_ret_l, E2, bind_ret_l, E3, decide_True, bind_ret_l by done. eexists _, [], _. split; [done|]. rewrite app_nil_r. split; [done|]. split; [constructor|done].
    + change (session false []) with (@nil Z). assert (forall n, fgets n [] = ([], [])) as -> by (by intros []). rewrite decide_True, bind_ret_l by done.
      exists s, [], (Returned 0). rewrite app_nil_r. split; [done|]. split; [done|]. split; [constructor|done].
  - apply list.Forall_cons in Hl as [(H1 & H2 & H3 & H4) Hl]. apply list.Forall_cons in Hd as [Hd1 Hd]. destruct l as [l d]. cbn [fst snd] in *.
    assert (session quits ((l, d) :: lines) = l ++ 10 :: d ++ session quits lines) as -> by (unfold session; simpl; by rewrite <- !app_assoc).
    destruct (line_in_buffer (input s) l (d ++ session quits lines) H1) as (Ef & m1 & m' & E1 & E2 & Hm' & E3); [lia|]. rewrite Hm in Ef, Hm'. rewrite Ef. rewrite decide_False by (by destruct l).
    rewrite E1, bind_ret_l, E2, bind_ret_l, E3, decide_False by done. rewrite Ht.
    destruct (run_line_ok pipe Hpipe fork_ok Hfork ends order Horder uninit_args garbage Hargs t0 Hin Hout (commands s) l Hc H4) as (cs & j & -> & Hcs & Hj). rewrite bind_ret_l.
    destruct (bool_decide_reflect (finished ends j)) as [Hfin|Hfin]; rewrite bind_ret_l.
    + assert (leaves (argvs j) (d ++ session quits lines) = session quits lines) as -> by (destruct Hj as [-> _]; apply Hd1).
      destruct (IH (mkShell (session quits lines) m' cs t0 (jobs s ++ [j])) fuel) as (s' & js & o & -> & Ej & Hjs & Ht' & Hs'); [done|done|simpl in Hf; lia|done..|].
      exists s', (j :: js), o. split; [done|]. rewrite Ej. simpl. rewrite <- app_assoc. split; [done|]. split; [by constructor|done].
    + eexists _, [j], Waiting. split; [done|]. split; [done|]. split; [by apply job_stuck|done].
Qed.

(** C20.  The shell of [sh.c] over a session of lines within the limits of its arrays (also
    empty ones), each with what its children read of the input, ended by the word that
    quits or by the end of the input, when [fork] and [pipe] work.  The lines are run one
    by one as jobs: a child for every command between bars, in order, with the words of
    the command as arguments and with its place in the pipeline, and a report for each
    child that ends.  After the first line with a child that never ends the shell waits
    for ever; if there is none, and so if every child ends, the shell reads all of its
    input and returns 0.  Its descriptors are what they were at the start. *)
Theorem shell_session quits lines uninit mem fuel : Forall (fun l => typed_line l.1) lines -> Forall reads lines ->
  len uninit = MAX_CMD_LENGTH -> len mem = MAX_ARGS -> (length lines < fuel)%nat ->
  exists s o, shell_main pipe fork_ok ends order leaves uninit_args garbage fuel (session quits lines) uninit mem t0 = Ok (s, o) /\
    carried_out lines (jobs s) o /\ table s = t0 /\ (o = Returned 0 -> stdin s = []) /\
    ((forall args t, is_Some (ends args t)) -> o = Returned 0).
Proof.
  intros Hl Hd Hu Hm Hf. unfold shell_main. fold step. destruct (session_runs quits lines (mkShell (session quits lines) uninit mem t0 []) fuel) as (s & js & o & -> & Ej & Hjs & Ht & Hs); [done..|].
  exists s, o. simpl in Ej. subst js. split; [done|]. split; [done|]. split; [done|]. split; [done|]. intros He. by eapply carried_out_ends.
Qed.
End sessions.

(** The first line has a child that reads two characters; in the second session it is one
    that never ends. *)
Definition sample_lines : list (list Z * list Z) := [(chars "head -c2 | wc", [97; 10]); ([], [])].
Definition sample_leaves (a : list (list (option str))) (rest : list Z) : list Z := match a with [] => rest | _ => drop 2 rest end.
Definition sample_table : fds := <[0 := Terminal]> {[1 := Terminal]}.

Lemma shell_session_witness :
  (exists s, shell_main next_pipe (fun _ => true) (fun _ _ => Some (Exited 0)) id sample_leaves (replicate 64 None) (0, 0) 3 (session true sample_lines) (replicate 1024 7) (replicate 64 None)
     sample_table = Ok (s, Returned 0) /\ table s = sample_table /\ stdin s = []) /\
  (exists s, shell_main next_pipe (fun _ => true) (fun _ _ => None) id sample_leaves (replicate 64 None) (0, 0) 3 (session true sample_lines) (replicate 1024 7) (replicate 64 None)
     sample_table = Ok (s, Waiting) /\ table s = sample_table).
Proof.
  assert (is_Some (sample_table !! STDIN_FILENO)) as Hi by (by eexists). assert (is_Some (sample_table !! STDOUT_FILENO)) as Ho by (by eexists).
  assert (forall t, is_Some (next_pipe t)) as Hp by (intros t; by eexists).
  assert (Forall (fun l => typed_line l.1) sample_lines) as Hl by (repeat constructor; done).
  assert (Forall (reads (replicate 64 None) sample_leaves) sample_lines) as Hr by (repeat constructor; by intros rest).
  split.
  - destruct (shell_session next_pipe (PipeLaws0 := next_pipe_laws) Hp (fun _ => true) (fun _ => eq_refl) (fun _ _ => Some (Exited 0)) id (fun _ => reflexivity _)
      (replicate 64 None) (0, 0) eq_refl sample_table Hi Ho sample_leaves true sample_lines (replicate 1024 7) (replicate 64 None) 3 Hl Hr eq_refl eq_refl ltac:(simpl; lia))
      as (s & o & H & _ & Ht & Hs & Hend).
    assert (o = Returned 0) as -> by (apply Hend; intros; by eexists). exists s. split; [exact H|]. split; [exact Ht|]. by apply Hs.
  - destruct (shell_session next_pipe (PipeLaws0 := next_pipe_laws) Hp (fun _ => true) (fun _ => eq_refl) (fun _ _ => None) id (fun _ => reflexivity _)
      (replicate 64 None) (0, 0) eq_refl sample_table Hi Ho sample_leaves true sample_lines (replicate 1024 7) (replicate 64 None) 3 Hl Hr eq_refl eq_refl ltac:(simpl; lia))
      as (s & o & H & Hc & Ht & _).
    assert (o = Waiting) as ->; [|exists s; split; [exact H|exact Ht]].
    inversion Hc as [|l lines j js o' (Ha & Hlen & _) Hf|]; [|done]. unfold finished in Hf. rewrite Ha in Hf, Hlen.
    destruct (children j) as [|c cs]; [done|]. apply Forall_inv in Hf. by destruct Hf.
Defined.
