(* ===== verification/PrefetchMain.v ===== *)
(** * The main program of the prefetching tests ([accessPatterns/softwarePrefetching.c])

    The traversals of [Prefetch.SoftPrefetch] one after the other, on the arrays, the list
    and the tree that [main] builds and frees. *)
From Stdlib Require Import ZArith Lia.
From stdpp Require Import base tactics list numbers option gmap.
From S2P Require Import Prelude CHeap Prefetch.
Import SoftPrefetch.

#[local] Open Scope Z_scope.
#[local] Open Scope c_scope.

Definition ARRAY_SIZE : Z := 100000000.
Definition LIST_SIZE : Z := 1000000.
Definition rows : Z := 1000.
Definition cols : Z := 1000.

Section main.
Context (alloc_node : allocator Node) (alloc_tree : allocator TreeNode).

(** [arr] and [matrix] are the bytes of the arrays when their allocation succeeds; list and
    tree have heaps of their own.  The result: the array before it is freed, the matrix
    before it is freed, and the heaps. *)
Definition soft_main (arr : option (list Z)) (matrix : option (list (list Z))) (rnd : nat -> Z) (hl : heap Node) (ht : heap TreeNode)
    : res (list Z * list (list Z) * heap Node * heap TreeNode) :=
  match arr with
  | None => Fault NullDeref
  | Some arr =>
      arr ← for_range (Z.to_nat ARRAY_SIZE) 0 (fun i arr => arr.[i <- i]) arr;
      arr ← traverse_no_prefetch arr ARRAY_SIZE;
      arr ← traverse_with_prefetch arr ARRAY_SIZE;
      arr ← strided_access_prefetch arr ARRAY_SIZE 16;
      '(hl, list) ← create_linked_list alloc_node hl LIST_SIZE;
      hl ← linked_list_prefetch (S (Z.to_nat LIST_SIZE)) hl list;
      hl ← free_list (S (Z.to_nat LIST_SIZE)) hl list;
      '(ht, tree, _) ← create_binary_tree alloc_tree 20 rnd 0 ht;
      ht ← tree_prefetch 20 ht tree;
      ht ← free_binary_tree 20 ht tree;
      match matrix with
      | None => Fault NullDeref
      | Some matrix =>
          matrix ← complex_structure_prefetch matrix rows cols;
          Ok (arr, matrix, hl, ht)
      end
  end.
End main.

Lemma array_size : 16 * DISTANCE <= ARRAY_SIZE /\ ARRAY_SIZE + 16 * DISTANCE + 2 < INT_MAX.
Proof. split; [discriminate|reflexivity]. Qed.

Lemma list_size : 0 <= LIST_SIZE < INT_MAX.
Proof. split; [discriminate|reflexivity]. Qed.

#[local] Opaque ARRAY_SIZE LIST_SIZE.

Lemma fill_indices (arr : list Z) n : len arr = n -> for_range (Z.to_nat n) 0 (fun i arr => arr.[i <- i]) arr = Ok (seqZ 0 n).
Proof.
  intros Hl. destruct (for_range_inv (fun i a => length a = length arr /\ forall k, 0 <= k < i -> zget a k = Some k) (Z.to_nat n) 0 (fun i (arr : list Z) => arr.[i <- i]) arr) as (a & -> & Hla & Ha).
  - split; [done|]. lia.
  - intros i a Hi [Hla Ha]. rewrite arr_write_Ok by lia. eexists. split; [done|]. rewrite length_zset. split; [done|]. intros k Hk.
    destruct (decide (k = i)) as [->|]; [apply zget_zset_eq; lia|]. rewrite zget_zset_ne by done. apply Ha. lia.
  - f_equal. apply list_eq_zget; [rewrite length_seqZ; lia|]. intros i Hi. rewrite Ha by lia. unfold zget. destruct (Z.leb_spec 0 i); [|lia].
    symmetry. apply lookup_seqZ. lia.
Qed.

(** A row of the matrix, element by element, as one traversal. *)
Lemma row_traversal matrix i row n : zget matrix i = Some row -> n + DISTANCE <= INT_MAX ->
  for_range (Z.to_nat n) 0 (fun j matrix => _ ← iadd j DISTANCE; row ← matrix.[i]; row ← incr row j; matrix.[i <- row]) matrix =
  (row ← traverse_no_prefetch row n; Ok (zset matrix i row)).
Proof.
  intros Hi Hn. unfold traverse_no_prefetch. revert Hi. assert (forall m j, 0 <= j -> j + Z.of_nat m <= Z.max 0 n -> forall row matrix, zget matrix i = Some row ->
    for_range m j (fun j matrix => _ ← iadd j DISTANCE; row ← matrix.[i]; row ← incr row j; matrix.[i <- row]) matrix =
    (row ← for_range m j (fun i arr => incr arr i) row; Ok (zset matrix i row))) as H; [|intros Hi; apply H; [lia|lia|done]].
  induction m as [|m IH]; intros j Hj Hm r0 mat Hi; [simpl; by rewrite zset_id|]. rewrite !for_range_S.
  rewrite iadd_Ok, bind_ret_l by (unfold DISTANCE, INT_MIN, INT_MAX in *; lia). rewrite (arr_read_Ok _ _ _ Hi), bind_ret_l. pose proof (zget_Some_range _ _ _ Hi).
  destruct (incr r0 j) as [r1|e]; [|done]. rewrite !bind_ret_l, arr_write_Ok, bind_ret_l by lia.
  rewrite (IH (j + 1) ltac:(lia) ltac:(lia) r1) by (by rewrite zget_zset_eq by lia). destruct (for_range m (j + 1) _ r1); [|done]. rewrite !bind_ret_l. by rewrite zset_zset_eq.
Qed.

Lemma complex_increments matrix : len matrix = rows -> Forall (fun row => len row = cols /\ Forall (fun v => INT_MIN <= v < INT_MAX) row) matrix ->
  complex_structure_prefetch matrix rows cols = Ok ((fun row : list Z => Z.succ <$> row) <$> matrix).
Proof.
  intros Hl Hall. unfold complex_structure_prefetch. match goal with |- for_range _ _ ?b _ = _ => set (body := b) end.
  destruct (for_range_inv (fun i m => length m = length matrix /\ forall k row, zget matrix k = Some row -> zget m k = Some (if k <? i then Z.succ <$> row else row)) (Z.to_nat rows) 0 body matrix) as (m & -> & Hlm & Hm).
  - split; [done|]. intros k row Hk. pose proof (zget_Some_range _ _ _ Hk). destruct (Z.ltb_spec k 0); [lia|done].
  - intros i m Hi [Hlm Hm]. destruct (zget_range matrix i) as [row Hr]; [lia|]. destruct (Forall_zget _ _ _ _ Hall Hr) as [Hc Hv]. pose proof (Hm i row Hr) as Hmi. rewrite Z.ltb_irrefl in Hmi.
    unfold body. rewrite (row_traversal m i row cols Hmi) by done. rewrite traverse_increments, bind_ret_l by done. eexists. split; [done|]. rewrite length_zset. split; [done|].
    intros k w Hw. destruct (decide (k = i)) as [->|Hne].
    + rewrite zget_zset_eq by lia. destruct (Z.ltb_spec i (i + 1)); [|lia]. by simplify_eq.
    + rewrite zget_zset_ne by done. rewrite (Hm k w Hw). destruct (Z.ltb_spec k i), (Z.ltb_spec k (i + 1)); (done || lia).
  - f_equal. apply list_eq_zget; [by rewrite length_fmap|]. intros i Hi. rewrite zget_fmap. destruct (zget_range matrix i) as [row Hr]; [lia|].
    rewrite (Hm i row Hr), Hr. simpl. destruct (Z.ltb_spec i (0 + Z.of_nat (Z.to_nat rows))); [done|lia].
Qed.

Lemma tree_freed (alloc : allocator TreeNode) `{!MallocLaws alloc} rnd depth k h0 : (forall k, 0 <= rnd k <= INT_MAX) -> room alloc h0 (2 ^ depth - 1) ->
  exists h a k' h', create_binary_tree alloc depth rnd k h0 = Ok (h, a, k') /\ tree_prefetch depth h a = Ok h' /\ free_binary_tree depth h' a = Ok h0.
Proof.
  intros Hr Hroom. destruct (create_binary_tree_ok alloc rnd Hr depth k h0 Hroom) as (h & a & t & k' & Hc & [T F D V N O _]).
  destruct (tree_prefetch_ok t depth h a T D) as (h' & Hp & T' & O').
  - eapply list.Forall_impl; [exact V|]. simpl. unfold INT_MIN, INT_MAX. lia.
  - by rewrite (height_full depth t F).
  - destruct (free_binary_tree_ok (incr_tree t) depth h' a T') as (h2 & Hf & N2 & O2); [by rewrite addrs_incr|by rewrite height_incr, (height_full depth t F)|].
    exists h, a, k', h'. split; [done|]. split; [done|]. rewrite Hf. f_equal. apply map_eq. intros b. rewrite addrs_incr in *.
    destruct (decide (b ∈ addrs t)) as [Hb|Hb]; [by rewrite N2, N|by rewrite O2, O', O].
Qed.

(** [softwarePrefetching.c] as a whole, when memory suffices and the values that the matrix
    happens to hold can be incremented: every element of the array is its index, and two
    more, and one more again at the multiples of sixteen; every element of the matrix is
    one more than before; list and tree are freed completely. *)
Theorem soft_main_ok (alloc_node : allocator Node) `{!MallocLaws alloc_node} (alloc_tree : allocator TreeNode) `{!MallocLaws alloc_tree} arr matrix rnd hl ht :
  len arr = ARRAY_SIZE -> len matrix = rows -> Forall (fun row => len row = cols /\ Forall (fun v => INT_MIN <= v < INT_MAX) row) matrix ->
  (forall k, 0 <= rnd k <= INT_MAX) -> room alloc_node hl (Z.to_nat LIST_SIZE) -> room alloc_tree ht (2 ^ 20 - 1) ->
  exists a, soft_main alloc_node alloc_tree (Some arr) (Some matrix) rnd hl ht = Ok (a, (fun row : list Z => Z.succ <$> row) <$> matrix, hl, ht) /\ len a = ARRAY_SIZE /\
    forall k, 0 <= k < ARRAY_SIZE -> zget a k = Some (k + 2 + (if k mod 16 =? 0 then 1 else 0)).
Proof.
  intros Ha Hm Hrow Hrnd Hrl Hrt. destruct array_size as [Hs0 Hs]. unfold DISTANCE in Hs0, Hs. unfold soft_main. rewrite (fill_indices arr ARRAY_SIZE Ha), bind_ret_l.
  assert (forall d, 0 <= d <= 2 -> Forall (fun v => INT_MIN <= v < INT_MAX) (Z.add d <$> seqZ 0 ARRAY_SIZE)) as Hrange.
  { intros d Hd. apply Forall_fmap, list.Forall_forall. intros x Hx%elem_of_seqZ. unfold compose, INT_MIN, INT_MAX in *. lia. }
  assert (forall d, len (Z.add d <$> seqZ 0 ARRAY_SIZE) = ARRAY_SIZE) as Hlen by (intros d; rewrite length_fmap, length_seqZ; lia).
  assert (forall d, Z.succ <$> (Z.add d <$> seqZ 0 ARRAY_SIZE) = Z.add (d + 1) <$> seqZ 0 ARRAY_SIZE) as Hsucc by (intros d; rewrite <- list_fmap_compose; apply list_fmap_ext; intros i x _; unfold compose; lia).
  assert (seqZ 0 ARRAY_SIZE = Z.add 0 <$> seqZ 0 ARRAY_SIZE) as -> by (rewrite <- (list_fmap_id (seqZ 0 ARRAY_SIZE)) at 1; apply list_fmap_ext; intros i x _; unfold id; lia).
  rewrite traverse_increments, bind_ret_l, Hsucc by first [by rewrite Hlen | apply Hrange; lia]. rewrite prefetch_same_traversal by (unfold DISTANCE; lia).
  rewrite traverse_increments, bind_ret_l, Hsucc by first [by rewrite Hlen | apply Hrange; lia].
  destruct (strided_increments (Z.add (0 + 1 + 1) <$> seqZ 0 ARRAY_SIZE) ARRAY_SIZE 16) as (a & -> & Hla & Hv); [lia|lia|rewrite Hlen; lia|unfold DISTANCE; lia|apply Hrange; lia|]. rewrite bind_ret_l.
  destruct (linked_list_lifetime alloc_node hl LIST_SIZE (S (Z.to_nat LIST_SIZE))) as (h & head & h' & l & -> & Hp & _ & _ & Hf); [apply list_size|exact Hrl|lia|]. rewrite bind_ret_l, Hp, bind_ret_l, Hf, bind_ret_l.
  destruct (tree_freed alloc_tree rnd 20 0 ht Hrnd Hrt) as (h2 & a2 & k2 & h3 & -> & Hp2 & Hf2). rewrite bind_ret_l, Hp2, bind_ret_l, Hf2, bind_ret_l.
  rewrite (complex_increments matrix Hm Hrow), bind_ret_l. exists a. split; [done|]. split; [by rewrite Hla, Hlen|]. intros k Hk.
  rewrite (Hv k (2 + k)); [destruct (Z.ltb_spec k ARRAY_SIZE); [|lia]; f_equal; simpl; destruct (k mod 16 =? 0); lia|].
  rewrite zget_fmap. unfold zget. destruct (Z.leb_spec 0 k); [|lia]. rewrite (lookup_seqZ_lt 0 ARRAY_SIZE (Z.to_nat k)) by lia. cbn [fmap option_fmap option_map]. f_equal. lia.
Qed.
